(* ===== verification/_CoqProject ===== *)
-Q . S2P
Prelude.v
PyText.v
Digests.v
Vocabulary.v
PyUuid.v
Json.v
JsonReader.v
JsonRound.v
Tables.v
PyDate.v
PyTime.v
Transforms.v
Cohort.v
Reports.v
Planner.v
Comparator.v
Enumeration.v
Gates.v
Shadow.v
DeliveryStore.v
Projection.v
Transport.v
SourcePorts.v
DeliverySafety.v
DeliveryHistory.v
Replay.v
Intents.v
PipelineHealth.v
RelayStore.v
Withdrawals.v
RelayHealth.v
RelayVerdicts.v
WithdrawalHandlers.v
WithdrawalSafety.v
WithdrawalHistory.v
WithdrawalConsequences.v
Effects.v
Fence.v
FenceSafety.v
FenceOutcomes.v
FenceRestore.v
FenceTime.v
FenceDocument.v
FenceWire.v
Contracts.v
ContractsSafety.v
Envelopes.v
GateEvidence.v
AgentLedger.v
GateAdmission.v
AgentProjection.v
AgentService.v
AgentHost.v
AgentLedgerSafety.v
AgentLog.v
AgentRules.v
AgentChecks.v
AgentLife.v
AgentSteps.v
AgentKeys.v
AgentOperations.v
AgentOutcomes.v
AgentRepair.v
AgentSafety.v
AgentDemo.v
Drift.v
Catalogue.v
TransitionStore.v
CatalogueCapture.v
TransitionRequest.v
TransitionAuthorization.v
TransitionEvidence.v
TransitionReceipt.v
Transition.v
TransitionLaws.v
TransitionSteps.v
TransitionSafety.v
TransitionDemo.v
CatalogueDemo.v
Framing.v
