(* ===== verification/Prelude.v ===== *)
(** * Vendor control plane: a verification library

    This library models the parts of the vendor control plane
    ([src/src/vendor_cp/]) that decide something: what a commercial backfill
    would do with each source row, what a licence delivery has reached, what
    becomes of a withdrawn approval, whether the relay is healthy, how the
    writers of a database are fenced out for a migration and let back in, what
    the deploy agent's ledger may say, how the control plane takes itself from
    one image and schema to the next, and how its processes exchange documents.
    It is a shallow embedding: every function of the program is a Gallina function
    of the same name over the same data, every exception is a value, and every
    handler that writes to the database takes a session and returns the session
    after it.

    ** How the program is put together

    The control plane is an assembly.  A kernel library owns the database, the
    platform session, idempotency, audit and the outbox; published modules own
    commercial agreements, licensing, deployment control, approvals and
    entitlement allocation.  The code under [src/src/vendor_cp/] owns the
    translations between them and a few tables of its own.  Seven parts of it
    carry most of its own logic, and they are what is modelled here.

    *** The commercial backfill ([commercial_backfill/])

    A read-only pipeline.  Source rows come from the agreement owner's pages
    (Enumeration) and from exported offers; each row is judged along five
    dimensions (Transforms) and falls into one bucket (Cohort); the planner
    counts the verdicts (Planner); a comparator sets a plan against an
    observation of the target (Comparator); the report is the only thing that
    leaves, in a closed vocabulary (Vocabulary, Reports); a rehearsal keeps the
    verdicts in a shadow table (Shadow); and the two cutovers are declared as
    gates that need evidence nothing here can produce (Gates).

    *** Licence delivery ([licensing/])

    An issued licence is staged for a deployment target, moved to it by a
    transport with at-least-once replay, and acknowledged by the data plane.
    The tables are immutable facts, append-only records and one derived
    projection (DeliveryStore).  Staging and acknowledgement are Projection,
    transports and replay Transport, the ports of the integrator hand-off
    SourcePorts, the operational signals PipelineHealth.

    *** The relay and withdrawn approvals ([relay/])

    The kernel's outbox hands each claimed event to a router, at least once.  A
    withdrawal event is classified by the handler that owns its subject
    (WithdrawalHandlers, with the router), the classification is appended to a
    table of outcomes, and an event that comes back with another payload is
    recorded as a conflict, which an operator closes by a resolution (Withdrawals).  The
    poller stamps a heartbeat; health reads the outbox, the heartbeat and the
    conflicts and gives one verdict, and readiness is the word for it
    (RelayHealth).  The tables of both are in one session (RelayStore).

    *** The writer fence ([deployment/transition_fence.py])

    Before a schema transition the writers of a database are fenced out: a
    session of the owner checks what it is about to do, revokes CONNECT from
    PUBLIC and from every writer and member of one, verifies it, terminates
    their sessions and polls until none is left, and returns a proof that
    carries the access list to restore; a failure on the way is compensated.
    The proof crosses to another process as a document with a digest, and a
    restore grants back exactly what the fence took, or closes the database
    again.  Here the state is the database server, which others share, so the
    operations are programs of the monad of Effects over any [Server].

    *** The deploy agent ([deploy_agent/])

    The control plane signs desired states, hosts sign what they applied, and
    both are documents of closed contracts in signed envelopes (Contracts,
    Envelopes).  What was signed is appended to a git repository that only
    grows, one commit per batch, under a lock (AgentLedger); every read of it
    checks the rules of the whole log (AgentService: keys, desired states,
    reports, quarantine; GateAdmission: the evidence of a gate campaign), and the
    database holds a projection of it that can be made again (AgentProjection).
    Every operation of the service is one transaction on the ledger that may
    fail at any call of the host.

    *** The control plane's own transition ([deployment/cp_transition.py])

    A transition takes the production control plane from one image and schema
    to the next.  A request is bound to its plan, host and day
    (TransitionRequest), authorized by an attested workflow run
    (TransitionAuthorization), and reserved in a store where every file is
    created once (TransitionStore); then the host is asked for fourteen stages in
    order (Transition), each stage's record is checked (TransitionEvidence) and
    retained before the next, and a receipt of all of them, which names the
    receipt of the transition before, is verified before routing is restored
    and again at the end (TransitionReceipt).  One of the checks compares the
    catalogue of the database with that of its restored copy
    ([deployment/cp_catalogue.py]: Catalogue, CatalogueCapture).  What a
    descriptor promises of a database and what a capture of it shows are compared,
    in both directions, by [descriptor/drift.py] (Drift).

    *** The framed channel ([deployment/gate0_framing.py])

    The processes of a gate ceremony exchange JSON documents over pipes that
    never block, each document after its length, under one deadline and budgets
    of frames and bytes (Framing).  Its state is the channel's counters and the
    world behind the system calls.

    ** The files

    - Prelude: [res], Python's containers and sorting as used by the program,
      tactics, hint databases, lemmas on lists and options.
    - PyText: code points, the Unicode tables as a class, [str] methods, and
      [re.fullmatch] by derivatives with its correctness.
    - PyUuid, PyDate, Json: [uuid.UUID], [datetime.date] and [json.dumps].
    - Digests: [approvals_authority.py].
    - Vocabulary, Transforms, Cohort, Reports, Planner, Comparator,
      Enumeration, Gates, Shadow: the file of [commercial_backfill/] with that
      name ([report.py] for Reports); Enumeration also holds what it reads of
      [contracts/adapter.py] and [contracts/terms.py].
    - Tables: a database table as a lens into a session, with its keys; insert,
      update, and the generic lemmas about them.
    - DeliveryStore: [licensing/delivery_models.py], [licensing/intent_models.py],
      and the calls into the composed modules ([licensing/adapter.py],
      [deployment/adapter.py]) that the delivery path makes.
    - Projection, Transport, SourcePorts: [licensing/projection.py],
      [licensing/transport.py], [licensing/source_ports.py] with
      [licensing/source_contract.py].
    - DeliverySafety: the invariant of the delivery tables, its preservation by
      each handler, and the step relation over sessions.
    - DeliveryHistory, with one concrete composition on which the witnesses run,
      Replay, Intents, PipelineHealth: the theorems about the
      delivery pipeline, the last with the model of [licensing/delivery_ops.py].

    - RelayStore: the tables of [relay/models.py] and the outbox rows a relay
      reads, with the modules its handlers call as the class [RelayModules], and
      one concrete composition of them.
    - Withdrawals, WithdrawalHandlers:
      [relay/withdrawal_outcomes.py]; the handlers of [contracts/adapter.py] and
      [deployment/protected_rehearsal_issuer.py]; [relay/approval_router.py].
    - RelayHealth: [relay/health.py], [relay/heartbeat.py],
      [readiness/service.py].
    - WithdrawalSafety, WithdrawalHistory, WithdrawalConsequences,
      RelayVerdicts: the theorems about them; WithdrawalSafety has the
      invariant of both tables and the step relation.
    - Effects: procedures over a world that return, raise or run out of turns;
      [try_except] and the loops; the rules for what a procedure keeps, what it
      can raise, that it ends, and Hoare triples, partial and total.
    - Fence: all operations of [deployment/transition_fence.py], with the SQL it
      issues as the type [stmt] and the server as the class [Server].
    - FenceSafety, FenceOutcomes, FenceRestore, FenceTime: the theorems about
      them, by what they need of the server; FenceSafety has the server on which
      the witnesses run.
    - FenceDocument, FenceWire: the proof's document and its digest.

    - PyTime, JsonReader, JsonRound: instants, [json.loads], and the round trip
      of [json.dumps] and [json.loads].
    - Contracts, GateEvidence, AgentLedger, GateAdmission, AgentProjection,
      AgentService: [deploy_agent/contracts.py], [gate_evidence.py], [ledger.py],
      [gate_admission.py], [projection.py], and [service.py] with [models.py].
    - ContractsSafety, Envelopes: what the contracts and the envelopes
      guarantee, and a small instance of the cryptography.
    - AgentHost: the documented behaviour of git and of the files ([Lawful]), and
      a host on which nothing fails ([ideal]).
    - AgentLedgerSafety, AgentLog, AgentRules, AgentChecks, AgentLife: what the ledger, the log and its rules guarantee; AgentSteps,
      AgentKeys, AgentOperations, AgentOutcomes, AgentRepair: what each operation does to them; AgentSafety: sessions of
      operations ([reaches]) from a valid history ([valid]) of a sound service
      ([AgentKeys.sound]), and their guarantees; AgentDemo: a session, and a race.

    - Drift: [descriptor/drift.py], with what a disagreement is ([disagrees]).
    - Catalogue, CatalogueCapture: [deployment/cp_catalogue.py], with what an
      accepted comparison means; CatalogueDemo: a scratch database.
    - TransitionStore, TransitionRequest, TransitionAuthorization,
      TransitionEvidence, TransitionReceipt, Transition:
      [deployment/cp_transition.py], in the order of its parts, with
      [deployment/descriptor_binding.py] and what the evidence reads of
      [deployment/effects.py].
    - TransitionLaws: what a store and a host behave like ([Lawful]), and that
      verification changes nothing; TransitionSteps: the rules by which an
      attempt goes from stage to stage; TransitionSafety: the guarantees;
      TransitionDemo: a faultless host, a whole transition on it,
      and one that fails.

    - Framing: [deployment/gate0_framing.py], its guarantees, and a process with
      two pipes.

    ** What the theorems show

    - Classification: [Cohort.classify_total] (the one situation in which it
      raises), [Cohort.mapped_line] (exactly which lines are MAPPED), and per
      dimension [Transforms.currency_exact], [Transforms.cadence_exact],
      [Transforms.proration_anchor_recurs], [Digests.translate_bare_inverse].
    - Planning: [Planner.plan_accounts] (every row accounted for once),
      [Planner.plan_permutation], [Comparator.compare_claims].
    - Reports: [Reports.egress_exact] (the alphabet that may leave),
      [Reports.render_total] (every constructible report renders and reads
      back).
    - Enumeration: [Enumeration.walk_complete] (against a keyset pager the
      walk is the first rows of the estate, and complete exactly when that is
      all of it), [Enumeration.walk_evidence] (against any reader whatever),
      and from them [Enumeration.plan_sources_coverage].
    - Shadow and gates: [Shadow.shadow_repair] (the SQL refines "the table
      becomes the cohort", from any prior state), [Shadow.repair_deterministic],
      [Gates.gates_need_oracles].
    - Delivery: [DeliveryHistory.ingest_activation] (which acknowledgements
      activate), [DeliveryHistory.active_is_proven] and
      [DeliveryHistory.delivery_history] (over every reachable session),
      [DeliveryHistory.ingest_total], [Replay.dispatch_accounts],
      [Replay.stage_contract], [Replay.resume_budget],
      [Intents.intent_completed_once], [Intents.artifact_as_opened],
      [PipelineHealth.health_signals].
    - Withdrawals: [WithdrawalHistory.deliver_exact] (what routing an event
      does, case by case), [WithdrawalHistory.settled_once] (an event reaches
      the modules at most once), [WithdrawalHistory.withdrawal_history] (over
      every interleaving of deliveries and racing resolutions),
      [WithdrawalHistory.resolve_exact], [WithdrawalConsequences.issuer_closes].
    - Relay: [RelayVerdicts.relay_verdict_exact], [RelayVerdicts.readiness_exact],
      [RelayVerdicts.heartbeat_rows].
    - Fence: [FenceOutcomes.fence_all_or_nothing], [FenceOutcomes.fence_holds]
      (the returned proof refines "no writer can connect or is connected"),
      [FenceOutcomes.restore_fails_closed], [FenceRestore.fence_then_restore]
      (grant for grant), [FenceTime.drain_time] (the documented three times the
      wait), [FenceTime.fence_comes_to_an_end], [FenceDocument.document_exact],
      [FenceWire.fence_proof_wire].

    - Deploy agent: [AgentSafety.log_stays_valid] (over sessions of operations
      that may fail anywhere), [AgentSafety.applied_once],
      [AgentSafety.key_life], [AgentSafety.issue_once],
      [AgentSafety.ingest_verdict] (against the specification [judge]),
      [AgentSafety.append_atomic], [AgentSafety.rebuild_repairs],
      [AgentSafety.operations_end], [Envelopes.seal_verify],
      [Envelopes.verify_authentic], [Envelopes.answer_verifies], and
      [AgentDemo.Race.activation_race], which exhibits a defect.
    - Transition: [TransitionSafety.stages_in_order] (what the host is asked
      for, and with what on record), [TransitionSafety.receipt_of_run] (what a
      returned digest stands for), [TransitionSafety.attempted_once],
      [TransitionSafety.receipts_chain] (acceptance refines the specification
      [intact]); [Catalogue.comparison_sound],
      [CatalogueCapture.capture_sound].
    - Drift: [Drift.compare_exact] (the report is the disagreements, in both
      directions, and an incomplete capture is never clean).
    - Channel: [Framing.exchange_complete] (what arrives is what was sent, and
      all of it when the host keeps up), [Framing.channel_bounds] (every call ends
      within the budgets).

    ** Conventions

    Python's [int] is [Z]; [str] is a list of code points ([pystr]); a [UUID]
    its 128-bit integer; an [Enum] an inductive type with its [value]; a frozen
    dataclass a record with its [__post_init__] as a separate function.  A
    time stamp is an instant in microseconds.  A loop that the code bounds
    ([max_pages], [_MAX_MONTHS], [max_attempts], [limit]) recurses on that
    bound, so nothing runs out of fuel that the code would go on with; the
    other loops are structural on the list they walk.  The one loop the code
    writes as [while True], the drain of the fence, runs on a number of turns
    computed from its wait; every turn sleeps an interval, so the deadline comes
    first, and [FenceTime] proves that the turns never run out on a clock that
    moves forward by what is slept.

    A handler that raises leaves no session: the request's transaction is
    rolled back.  Two requests interleave as whole transactions, except for
    the replay loop, whose skipped rows are the set of rows other transactions
    hold locked, and for the resolution of a conflict, where rows another
    transaction is about to commit ([racing]) make the insert fail.  A read that
    fails on PostgreSQL aborts its transaction, so the reads after it fail too:
    health is modelled with that.

    The fence does not run in one transaction, so its state survives a failure
    and every statement is its own step; what else the server does in between
    is left open by [Undisturbed] (each theorem says which reads stay put).
    KeyboardInterrupt and SystemExit arrive where the program is blocked: in a
    statement, in a sleep, in the caller's terminator.

    The deploy agent's state is its host ([site]: the commits here and at the
    remote, the work tree, the tables), and its calls may fail with or without
    having had their effect.  The state of a transition is any [world] in which
    the store's files and the calls made to the host can be observed.  The chain
    of receipts is verified with the code's own bound, 32, as fuel; the loop over
    [os.write] runs on the length of what is written, which every turn
    shortens.  The loops of the framed channel wait before every turn, until the
    deadline, so [turns] beyond the ten minutes a channel may live are enough
    where a wait takes a nanosecond ([Framing.Ticking]).

    ** What is assumed of code outside the repository

    - [PyText.UnicodeDB]: the interpreter's Unicode tables, fixed on ASCII
      only; in Json and Drift, [str.isprintable] and [str.upper] likewise.
    - [DeliveryStore.Modules]: what the delivery path reads from the licensing
      and deployment modules and the calls it makes to them; its only law is
      that the standings of a target are distinct.
    - [DeliverySafety.FreshKeys]: the uuids a session draws are new.
    - [RelayStore.RelayModules], [WithdrawalSafety.FreshIds]: the queries and
      revocations of the commercial agreement and deployment modules, and that
      drawn ids are new.
    - [Fence.Server]: the answer of the server to each statement the fence
      issues, with its clock.  [FenceSafety.Undisturbed] gives a view of the
      facts and says statements answer by it, that only GRANT and REVOKE change
      an access list, and that nobody else changes what a fence has closed;
      [FenceRestore.AclServer] what GRANT CONNECT adds and REVOKE CONNECT takes;
      [FenceRestore.SteadyServer] a state in which statements succeed;
      [FenceTime.Clocked] and [Answers] that time moves forward, by at most a
      bound per statement, and calls return; [FenceWire.SaneClock] that the UTC
      clock shows a calendar date.  FenceSafety has a server with all of them.
    - [Contracts.Crypto]: sha256 and Ed25519, with no law of its own; a theorem
      that needs one states it ([signs_for], and that a holder signs only what it
      seals).  [JsonReader.Floats], [Catalogue.FloatValues]: the interpreter's
      [repr] of a float and its equality with an integer.
    - [AgentLedger.Host], [AgentHost.Oracles], [AgentHost.Lawful]: git, the lock,
      the files, the database's tables, the clock and the random source.
    - [TransitionStore.Machine], [Transition.CpHost], [TransitionLaws.Lawful]:
      system calls and the methods of the host; files are created exclusively,
      reading changes none, others only add to the store.  [RecoveryOwner] has
      the recovery bundle's verification, which is assumed to change nothing.
    - [TransitionAuthorization.Parsers]: [datetime.fromisoformat],
      [tomllib.loads] and [str.isprintable]; the attestation verifier is the
      program that [run_program] runs.
    - [CatalogueCapture.Restored], [CatalogueCapture.Savepoints]: the connection
      to the restored database, and that a rollback puts back what was there at
      its savepoint.
    - [Framing.Stdio], [Framing.Pipes], [Framing.Prompt]: the system calls of a
      channel, pipes that neither lose nor invent bytes, and a host that keeps up
      for a number of calls.
    - The owner's page reader, its statuses and [sha256] are variables of
      Enumeration and SourcePorts; the properties that need something of them
      say so, and their witnesses use concrete ones.

    ** What is not modelled

    Column widths and [NOT NULL] (every value modelled fits); isinstance
    checks that a typed row passes by construction; naive timestamps; SQL
    isolation below a whole transaction; logging.  Of the fence, the texts of
    refusals, the SQL text of a statement beyond its operands, the iteration
    order of a frozenset where only the text of a refusal depends on it, and the
    layouts of a time stamp that [fromisoformat] takes and the canonical check
    then refuses.  Of the deploy agent: the interpreter's limit on nesting in
    JSON, the names git quotes, columns of NUL characters, the reading of the
    gate's scope file ([load_scope]), and the HTTP routes, key files and gh
    subprocess around the service.  Of the transition: the later generations'
    executions and the verification of their receipts with a recovery context (a
    committed continuation, a failed candidate, a recovery after the access list
    was restored, the adjudication of a heartbeat's drift), of which the
    requests, plans and receipt shapes are modelled; the closing of file
    descriptors; and the host behind [CpHost].  Whole components outside the
    seven parts above are either calls into modules that are not in this repository,
    host operations (containers, sockets, files, secrets), HTTP and CLI adapters,
    or declarations and small services ([offers/], [accounts/], [provisioning/],
    [data_governance.py]) that are left out. *)

From Stdlib Require Export ZArith Lia.
From stdpp Require Export base tactics numbers option strings gmap fin_maps sorting list.
Set Warnings "-clear-no-such-hyp".

(** ** Python exceptions and the result monad *)

(** The exception classes the modelled functions raise themselves. *)
Inductive exn_class :=
  | ValueError
  | TypeError
  | KeyError
  | IndexError
  | RuntimeError
  | SourceRowError
  | UnsafeReportValue
  | PlanTotalityError
  | UnsafeShadowValue
  | TermEndNotRepresentable
  | AgreementEnumerationError
  | NotFoundError
  | BadRequestError
  | ConflictError
  | TransportModeNotPermittedError
  | IntegrityError
  | InternalError
  | AttributeError
  | OperationalError
  | MultipleResultsFound
  | NoResultFound
  | ConflictOutcomeNotFound
  | ConflictNotResolvable
  | ConflictAlreadyResolved
  | UnroutableApprovalEvent
  | RetryableWithdrawal
  | RelayNotConfiguredError
  | ContractError
  | TimeoutExpired
  | StructError
  | OverflowError
  | OSError
  | StopIteration
  | PsycopgError
  | ServiceRefused
  | IncompleteCapture.

(** An exception: its class and the fixed text of its message, up to the
    first interpolated value. *)
Record exn := Exn { exn_kind : exn_class; exn_text : string }.

#[export] Instance exn_class_eq_dec : EqDecision exn_class.
Proof. solve_decision. Defined.
#[export] Instance exn_eq_dec : EqDecision exn.
Proof. solve_decision. Defined.

(** A Python call: a value, or the exception that left it. *)
Inductive res (A : Type) :=
  | Ok (a : A)
  | Raise (e : exn).
Arguments Ok {A} a.
Arguments Raise {A} e.

#[export] Instance res_eq_dec `{EqDecision A} : EqDecision (res A).
Proof. solve_decision. Defined.
#[export] Instance res_ret : MRet res := @Ok.
#[export] Instance res_bind : MBind res := λ A B f m,
  match m with Ok a => f a | Raise e => Raise e end.
#[export] Instance res_fmap : FMap res := λ A B f m,
  match m with Ok a => Ok (f a) | Raise e => Raise e end.

(** [if not b: raise e]. *)
Definition ensure (b : bool) (e : exn) : res unit :=
  if b then Ok tt else Raise e.

(** [value if present else raise]. *)
Definition of_option {A} (o : option A) (e : exn) : res A :=
  match o with Some a => Ok a | None => Raise e end.

Definition is_ok {A} (m : res A) : bool :=
  match m with Ok _ => true | Raise _ => false end.

(** *** Inversion of successful and failing computations *)

Section res_lemmas.
Context {A B : Type}.
Implicit Types (m : res A) (f : A → res B).

Lemma bind_Ok m f b : m ≫= f = Ok b ↔ ∃ a, m = Ok a ∧ f a = Ok b.
Proof. destruct m; simpl; naive_solver. Qed.

Lemma bind_Raise m f e :
  m ≫= f = Raise e ↔ m = Raise e ∨ ∃ a, m = Ok a ∧ f a = Raise e.
Proof. destruct m; simpl; naive_solver. Qed.

Lemma ensure_Ok b e u : ensure b e = Ok u ↔ b = true.
Proof. destruct b, u; simpl; naive_solver. Qed.

Lemma ensure_Raise b e e' : ensure b e = Raise e' ↔ b = false ∧ e' = e.
Proof. destruct b; simpl; naive_solver. Qed.

Lemma of_option_Ok (o : option A) e a : of_option o e = Ok a ↔ o = Some a.
Proof. destruct o; simpl; naive_solver. Qed.

Lemma fmap_Ok (g : A → B) m b : g <$> m = Ok b ↔ ∃ a, m = Ok a ∧ b = g a.
Proof. destruct m; simpl; naive_solver. Qed.
End res_lemmas.

(** A loop that stops at the first exception keeps one result per element. *)
Lemma mapM_Ok {A B} (f : A → res B) (l : list A) (k : list B) :
  mapM f l = Ok k ↔ Forall2 (λ x y, f x = Ok y) l k.
Proof.
  split.
  - revert k. induction l as [|x l IH]; intros k H; simpl in H.
    + injection H as <-. constructor.
    + destruct (f x) as [y|e] eqn:Hf; simpl in H; [|done].
      destruct (mapM f l) as [ys|e] eqn:Hm; simpl in H; [|done].
      injection H as <-. constructor; auto.
  - induction 1 as [|x y l k Hxy _ IH]; simpl; [done|].
    rewrite Hxy; simpl. by rewrite IH.
Qed.

Lemma mapM_Ok_total {A B} (f : A → res B) (l : list A) :
  (∀ x, x ∈ l → ∃ y, f x = Ok y) → ∃ k, mapM f l = Ok k.
Proof.
  induction l as [|x l IH]; intros H; [by exists []|].
  destruct (H x) as [y Hy]; [by left|].
  destruct IH as [k Hk]; [intros z Hz; apply H; by right|].
  exists (y :: k). simpl. rewrite Hy. simpl. by rewrite Hk.
Qed.

(** ** Tactics *)

(** Take a successful computation apart, one bind at a time. *)
Ltac inv_res_step :=
  match goal with
  | H : Ok _ = Ok _ |- _ => injection H as H
  | H : Raise _ = Raise _ |- _ => injection H as H
  | H : Ok _ = Raise _ |- _ => discriminate H
  | H : Raise _ = Ok _ |- _ => discriminate H
  | H : mbind _ _ = Ok _ |- _ =>
      apply bind_Ok in H; destruct H as (? & ? & H); simpl in H
  | H : ensure _ _ = Ok _ |- _ => apply ensure_Ok in H
  | H : of_option _ _ = Ok _ |- _ => apply of_option_Ok in H
  end.
Ltac inv_res := repeat (inv_res_step; simplify_eq/=).

(** Case analysis on every [if] and [match] of a hypothesis, keeping the
    scrutinised equations. *)
Ltac case_in H :=
  repeat (match type of H with
          | context [match ?x with _ => _ end] => destruct x eqn:?
          end; simplify_eq/=; try done).

(** Same, in the goal. *)
Ltac case_goal :=
  repeat (case_match; simplify_eq/=; try done).

(** Boolean guards as propositions. *)
Ltac bool_hyps :=
  repeat match goal with
  | H : _ && _ = true |- _ => apply andb_true_iff in H; destruct H
  | H : _ || _ = false |- _ => apply orb_false_iff in H; destruct H
  | H : negb _ = true |- _ => apply negb_true_iff in H
  | H : negb _ = false |- _ => apply negb_false_iff in H
  | H : bool_decide _ = true |- _ => apply bool_decide_eq_true in H
  | H : bool_decide _ = false |- _ => apply bool_decide_eq_false in H
  | H : (_ =? _)%Z = true |- _ => apply Z.eqb_eq in H
  | H : (_ =? _)%Z = false |- _ => apply Z.eqb_neq in H
  | H : (_ <=? _)%Z = true |- _ => apply Z.leb_le in H
  | H : (_ <=? _)%Z = false |- _ => apply Z.leb_gt in H
  | H : (_ <? _)%Z = true |- _ => apply Z.ltb_lt in H
  | H : (_ <? _)%Z = false |- _ => apply Z.ltb_ge in H
  end.

(** ** Lists and counting *)

Section counting.
Context {A : Type}.
Implicit Types (l : list A).

(** How many elements satisfy [P]. *)
Definition count_if (P : A → Prop) `{!∀ x, Decision (P x)} l : nat :=
  length (filter P l).

Lemma count_if_app (P : A → Prop) `{!∀ x, Decision (P x)} l k :
  count_if P (l ++ k) = count_if P l + count_if P k.
Proof. unfold count_if. by rewrite filter_app, length_app. Qed.

Lemma count_if_nil (P : A → Prop) `{!∀ x, Decision (P x)} : count_if P [] = 0.
Proof. done. Qed.

Lemma count_if_cons (P : A → Prop) `{!∀ x, Decision (P x)} x l :
  count_if P (x :: l) = (if decide (P x) then 1 else 0) + count_if P l.
Proof. unfold count_if. rewrite filter_cons. by case_decide. Qed.

Lemma count_if_perm (P : A → Prop) `{!∀ x, Decision (P x)} l k :
  l ≡ₚ k → count_if P l = count_if P k.
Proof. intros Hlk. unfold count_if. by rewrite Hlk. Qed.

Lemma count_if_zero (P : A → Prop) `{!∀ x, Decision (P x)} l :
  (∀ x, x ∈ l → ¬ P x) → count_if P l = 0.
Proof.
  intros Hl. unfold count_if. induction l as [|x l IH]; [done|].
  rewrite filter_cons_False by (apply Hl; by left).
  apply IH. intros; apply Hl; by right.
Qed.

Lemma count_if_iff (P Q : A → Prop)
    `{!∀ x, Decision (P x)} `{!∀ x, Decision (Q x)} l :
  (∀ x, x ∈ l → P x ↔ Q x) → count_if P l = count_if Q l.
Proof.
  induction l as [|x l IH]; intros Hl; [done|].
  rewrite !count_if_cons, IH by (intros; apply Hl; by right).
  destruct (Hl x) as [H1 H2]; [by left|].
  repeat case_decide; tauto.
Qed.

Lemma count_if_fmap {B} (f : B → A) (P : A → Prop) `{!∀ x, Decision (P x)} k :
  count_if P (f <$> k) = length (filter (λ x, P (f x)) k).
Proof.
  unfold count_if. induction k as [|x k IH]; [done|]. csimpl.
  rewrite !filter_cons. by case_decide; csimpl; rewrite IH.
Qed.

Lemma length_omap {B} (f : A → option B) l :
  length (omap f l) = count_if (λ x, f x ≠ None) l.
Proof.
  unfold count_if. induction l as [|x l IH]; [done|]. csimpl. rewrite filter_cons.
  destruct (f x); case_decide; csimpl; rewrite ?IH; congruence.
Qed.

(** Elements are found in exactly one class of a finite classification. *)
Lemma count_if_split {B} `{EqDecision B} (f : A → B) (cs : list B) l :
  NoDup cs → (∀ x, x ∈ l → f x ∈ cs) →
  length l = sum_list ((λ c, count_if (λ x, f x = c) l) <$> cs).
Proof.
  intros Hcs. induction l as [|x l IH]; intros Hl.
  - simpl. clear. induction cs as [|c cs IH]; [done|exact IH].
  - simpl. rewrite IH by (intros; apply Hl; by right).
    assert (Hx : f x ∈ cs) by (apply Hl; by left). clear IH Hl.
    induction Hcs as [|c cs Hc Hcs IH]; [by apply elem_of_nil in Hx|].
    rewrite !fmap_cons. cbn [sum_list_with]. unfold id at 1 3.
    rewrite count_if_cons.
    apply elem_of_cons in Hx as [Hx|Hx].
    + rewrite (decide_True _ _ Hx). cbn [Nat.add]. do 3 f_equal.
      apply list_fmap_ext. intros i c' Hi. rewrite count_if_cons.
      rewrite decide_False; [done|]. intros Hc'. apply Hc.
      rewrite <- Hx, Hc'. by eapply list_elem_of_lookup_2.
    + rewrite decide_False by congruence.
      specialize (IH Hx). lia.
Qed.
End counting.

(** First element satisfying a test ([next(x for x in xs if p(x))]). *)
Fixpoint first_such {A} (p : A → bool) (l : list A) : option A :=
  match l with
  | [] => None
  | x :: l => if p x then Some x else first_such p l
  end.

Lemma first_such_Some {A} (p : A → bool) l x :
  first_such p l = Some x → x ∈ l ∧ p x = true.
Proof.
  induction l as [|y l IH]; simpl; [done|].
  destruct (p y) eqn:Hy; intros H; simplify_eq.
  - split; [by left|done].
  - destruct (IH H). split; [by right|done].
Qed.

Lemma first_such_None {A} (p : A → bool) l :
  first_such p l = None ↔ ∀ x, x ∈ l → p x = false.
Proof.
  induction l as [|y l IH]; simpl.
  - split; [|done]. intros _ x Hx. by apply elem_of_nil in Hx.
  - destruct (p y) eqn:Hy.
    + split; [done|]. intros H. rewrite H in Hy; [done|by left].
    + rewrite IH. split; intros H x; [|intros; apply H; by right].
      intros [->|Hx]%elem_of_cons; auto.
Qed.

Lemma first_such_complete {A} (p : A → bool) l x :
  x ∈ l → p x = true → ∃ y, first_such p l = Some y.
Proof.
  intros Hx Hp. destruct (first_such p l) eqn:E; [eauto|].
  rewrite first_such_None in E. rewrite E in Hp; done.
Qed.

(** ** Stable sorting by a key ([sorted(xs, key=...)]) *)

Fixpoint insert_by {A} (leb : A → A → bool) (x : A) (l : list A) : list A :=
  match l with
  | [] => [x]
  | y :: l' => if leb x y then x :: l else y :: insert_by leb x l'
  end.
Definition sort_by {A} (leb : A → A → bool) (l : list A) : list A :=
  foldr (insert_by leb) [] l.

Section sorting.
Context {A : Type} (leb : A → A → bool).

Lemma insert_by_perm x l : insert_by leb x l ≡ₚ x :: l.
Proof.
  induction l as [|y l IH]; simpl; [done|]. case_match; [done|].
  rewrite IH. apply Permutation_swap.
Qed.

Lemma sort_by_perm l : sort_by leb l ≡ₚ l.
Proof. induction l as [|x l IH]; simpl; [done|]. by rewrite insert_by_perm, IH. Qed.

Context (leb_total : ∀ x y, leb x y = false → leb y x = true).
Context (leb_trans : ∀ x y z, leb x y = true → leb y z = true → leb x z = true).

Lemma insert_by_sorted x l :
  StronglySorted (λ a b, leb a b = true) l →
  StronglySorted (λ a b, leb a b = true) (insert_by leb x l).
Proof.
  induction 1 as [|y l Hl IH Hy]; simpl; [by repeat constructor|].
  destruct (leb x y) eqn:Hxy; constructor; auto.
  - by constructor.
  - constructor; [done|]. eapply Forall_impl; [exact Hy|]. eauto.
  - rewrite insert_by_perm. constructor; [auto|done].
Qed.

Lemma sort_by_sorted l : StronglySorted (λ a b, leb a b = true) (sort_by leb l).
Proof. induction l; simpl; [constructor|]. by apply insert_by_sorted. Qed.

(** Equal keys only on equal elements: the result depends on the multiset. *)
Lemma sort_by_unique l k :
  (∀ x y, x ∈ l → y ∈ l → leb x y = true → leb y x = true → x = y) →
  l ≡ₚ k → sort_by leb l = sort_by leb k.
Proof.
  intros Hanti Hlk.
  assert (Hin : ∀ x, x ∈ sort_by leb l → x ∈ l) by (intros x; by rewrite sort_by_perm).
  pose proof (sort_by_sorted l) as Hl. pose proof (sort_by_sorted k) as Hk.
  assert (Hp : sort_by leb l ≡ₚ sort_by leb k) by (by rewrite !sort_by_perm).
  revert Hin Hk Hp. generalize (sort_by leb k). clear Hlk.
  induction Hl as [|x s Hs IH Hx]; intros k' Hin Hk Hp.
  { by apply Permutation_nil in Hp. }
  destruct Hk as [|y k' Hk Hy]; [symmetry in Hp; by apply Permutation_nil_cons in Hp|].
  rewrite Forall_forall in Hx, Hy.
  assert (x = y) as ->.
  { assert (x ∈ y :: k') as [?|Hxk]%elem_of_cons by (rewrite <- Hp; by left); [done|].
    assert (y ∈ x :: s) as [?|Hys]%elem_of_cons by (rewrite Hp; by left); [done|].
    apply Hanti; [apply Hin; by left|apply Hin; by right|auto|auto]. }
  f_equal. apply IH; [|done|by apply Permutation_cons_inv in Hp].
  intros; apply Hin; by right.
Qed.
End sorting.

(** ** Dictionaries as association lists *)

(** [d.get(k)] of a dict in insertion order. *)
Fixpoint dict_get {K V} `{EqDecision K} (d : list (K * V)) (k : K) : option V :=
  match d with
  | [] => None
  | (k', v) :: d => if bool_decide (k = k') then Some v else dict_get d k
  end.

(** [d[k] = v] on a dict in insertion order. *)
Fixpoint dict_set {K V} `{EqDecision K} (d : list (K * V)) (k : K) (v : V) : list (K * V) :=
  match d with
  | [] => [(k, v)]
  | (k', v') :: d => if bool_decide (k = k') then (k, v) :: d else (k', v') :: dict_set d k v
  end.

Lemma dict_get_Some {K V} `{EqDecision K} (d : list (K * V)) k v :
  dict_get d k = Some v → (k, v) ∈ d.
Proof.
  induction d as [|[k' v'] d IH]; simpl; [done|]. case_bool_decide as Hk.
  - intros [= ->]. subst. by left.
  - intros Hd. right. auto.
Qed.

Lemma dict_get_None {K V} `{EqDecision K} (d : list (K * V)) k :
  dict_get d k = None ↔ k ∉ d.*1.
Proof.
  induction d as [|[k' v'] d IH]; csimpl.
  - split; [|done]. intros _ Hk. by apply elem_of_nil in Hk.
  - rewrite not_elem_of_cons, <- IH. case_bool_decide; naive_solver.
Qed.

Lemma dict_get_NoDup {K V} `{EqDecision K} (d : list (K * V)) k v :
  NoDup d.*1 → (k, v) ∈ d → dict_get d k = Some v.
Proof.
  induction d as [|[k' v'] d IH]; csimpl; intros Hnd Hin;
    [by apply elem_of_nil in Hin|].
  apply NoDup_cons in Hnd as [Hk Hnd]. apply elem_of_cons in Hin as [Heq|Hin].
  - simplify_eq. by rewrite bool_decide_true.
  - rewrite bool_decide_false; [auto|]. intros ->. apply Hk.
    apply list_elem_of_fmap. by exists (k', v).
Qed.

Lemma dict_get_set {K V} `{EqDecision K} (d : list (K * V)) k k' v :
  dict_get (dict_set d k v) k' = if bool_decide (k' = k) then Some v else dict_get d k'.
Proof.
  induction d as [|[x w] d IH]; cbn [dict_set]; [done|].
  destruct (bool_decide (k = x)) eqn:Hk; cbn [dict_get]; rewrite ?IH; bool_hyps;
    repeat case_bool_decide; congruence.
Qed.

Lemma dict_set_elem {K V} `{EqDecision K} (d : list (K * V)) k v x :
  x ∈ (dict_set d k v).*1 ↔ x = k ∨ x ∈ d.*1.
Proof.
  induction d as [|[k' v'] d IH]; csimpl; [by rewrite list_elem_of_singleton, elem_of_nil; tauto|].
  case_bool_decide; csimpl; rewrite !elem_of_cons; [subst; tauto|rewrite IH; tauto].
Qed.

Lemma dict_set_NoDup {K V} `{EqDecision K} (d : list (K * V)) k v :
  NoDup d.*1 → NoDup (dict_set d k v).*1.
Proof.
  induction d as [|[k' v'] d IH]; csimpl;
    [intros _; apply NoDup_singleton|].
  intros [Hk Hd]%NoDup_cons. case_bool_decide; csimpl; apply NoDup_cons; [by subst|].
  split; [|by apply IH]. rewrite dict_set_elem. intros [->|?]; done.
Qed.

Lemma dict_set_new {K V} `{EqDecision K} (d : list (K * V)) k v : k ∉ d.*1 → dict_set d k v = d ++ [(k, v)].
Proof.
  induction d as [|[k' v'] d IH]; csimpl; [done|]. intros [Hk Hd]%not_elem_of_cons.
  rewrite bool_decide_false by done. by rewrite IH.
Qed.

Lemma dict_get_filter {K V} `{EqDecision K} (d : list (K * V)) k0 k :
  dict_get (filter (λ kv, kv.1 ≠ k0) d) k = if bool_decide (k = k0) then None else dict_get d k.
Proof.
  induction d as [|[k' v] d IH]; [by case_bool_decide|]. rewrite filter_cons. simpl.
  destruct (decide (k' ≠ k0)) as [Hn|Hn]; simpl; rewrite IH; repeat case_bool_decide; try done; subst; tauto.
Qed.

(** ** Database tables

    A table is its rows in insertion order.  [scalar_one_or_none] and
    [scalar_one] are SQLAlchemy's: more than one row raises. *)
Definition scalar_one_or_none {A} (l : list A) : res (option A) :=
  match l with
  | [] => Ok None
  | [x] => Ok (Some x)
  | _ => Raise (Exn MultipleResultsFound "Multiple rows were found when one or none was required")
  end.
Definition scalar_one {A} (l : list A) : res A :=
  match l with
  | [x] => Ok x
  | [] => Raise (Exn NoResultFound "No row was found when one was required")
  | _ => Raise (Exn MultipleResultsFound "Multiple rows were found when exactly one was required")
  end.

(** Inserting a row under a unique constraint on [key]. *)
Definition insert_unique {A K} `{EqDecision K} (key : A → K) (x : A) (t : list A)
    : res (list A) :=
  ensure (negb (bool_decide (key x ∈ key <$> t)))
    (Exn IntegrityError "duplicate key value violates unique constraint");;
  Ok (t ++ [x]).

Section tables.
Context {A K : Type} `{EqDecision K} (key : A → K).
Implicit Types (t : list A).

Lemma insert_unique_Ok x t t' :
  insert_unique key x t = Ok t' ↔ t' = t ++ [x] ∧ key x ∉ key <$> t.
Proof.
  unfold insert_unique. case_bool_decide; simpl; split; naive_solver.
Qed.

Lemma filter_key_nil k t : k ∉ key <$> t → filter (λ x, key x = k) t = [].
Proof.
  induction t as [|x t IH]; csimpl; [done|]. intros [Hx Ht]%not_elem_of_cons.
  rewrite filter_cons_False by congruence. auto.
Qed.

(** A lookup by a unique key. *)
Lemma filter_key_one x t :
  NoDup (key <$> t) → x ∈ t → filter (λ y, key y = key x) t = [x].
Proof.
  induction t as [|y t IH]; csimpl; intros Hnd Hx; [by apply elem_of_nil in Hx|].
  apply NoDup_cons in Hnd as [Hy Hnd]. apply elem_of_cons in Hx as [->|Hx].
  - rewrite filter_cons_True by done. by rewrite filter_key_nil.
  - rewrite filter_cons_False; [auto|]. intros Heq. apply Hy. rewrite Heq.
    by apply list_elem_of_fmap_2.
Qed.

Lemma scalar_key k t :
  NoDup (key <$> t) →
  (∃ x, x ∈ t ∧ key x = k ∧ scalar_one_or_none (filter (λ y, key y = k) t) = Ok (Some x) ∧
        scalar_one (filter (λ y, key y = k) t) = Ok x) ∨
  ((k ∉ key <$> t) ∧ scalar_one_or_none (filter (λ y, key y = k) t) = Ok None).
Proof.
  intros Hnd. destruct (decide (k ∈ key <$> t)) as [Hk|Hk].
  - left. apply list_elem_of_fmap in Hk as (x & -> & Hx). exists x.
    by rewrite filter_key_one.
  - right. by rewrite filter_key_nil.
Qed.
End tables.

(** ** Hint databases

    [tables] holds what keeps keys and rows through an insertion or an update
    of a table; the components add to it. *)
Create HintDb tables.
#[export] Hint Resolve list_elem_of_fmap_2 prefix_app_r : tables.
