(* ===== verification/PyText.v ===== *)
(** * Python text

    A Python [str] is a sequence of code points, here [list Z].  The facts
    that depend on the interpreter's Unicode tables (decimal digits, white
    space, letter case) are the fields of the class [UnicodeDB], which fixes
    them on ASCII and leaves every other code point open; theorems hold for
    every table.  [Regex] is Python's [re.fullmatch] on the patterns the code
    uses, by derivatives, with its correctness against the inductive reading
    of a pattern. *)

From S2P Require Import Prelude.

#[local] Open Scope Z_scope.

Abbreviation pystr := (list Z).

(** ASCII literals. *)
Definition lit (s : string) : pystr :=
  (λ a, Z.of_nat (Ascii.nat_of_ascii a)) <$> String.list_ascii_of_string s.

(** ** The Unicode tables of the interpreter *)

Class UnicodeDB := {
  (** the decimal value of a code point of category Nd ([\d], [int], [Decimal]) *)
  ucd_decimal : Z → option Z;
  (** what [str.strip()] removes *)
  ucd_space : Z → bool;
  ucd_upper : Z → bool;
  ucd_lower : Z → bool;
  ucd_title : Z → bool;
  ucd_decimal_ascii c : 0 ≤ c < 128 →
    ucd_decimal c = if (48 <=? c) && (c <=? 57) then Some (c - 48) else None;
  ucd_decimal_range c v : ucd_decimal c = Some v → 0 ≤ v ≤ 9;
  ucd_space_ascii c : 0 ≤ c < 128 →
    ucd_space c = ((9 <=? c) && (c <=? 13)) || ((28 <=? c) && (c <=? 32));
  ucd_upper_ascii c : 0 ≤ c < 128 → ucd_upper c = (65 <=? c) && (c <=? 90);
  ucd_lower_ascii c : 0 ≤ c < 128 → ucd_lower c = (97 <=? c) && (c <=? 122);
  ucd_title_ascii c : 0 ≤ c < 128 → ucd_title c = false;
}.

(** The smallest table: nothing outside ASCII has a property. *)
Definition between (a b c : Z) : bool := (a <=? c) && (c <=? b).

#[export] Program Instance ascii_ucd : UnicodeDB := {|
  ucd_decimal c := if between 48 57 c then Some (c - 48) else None;
  ucd_space c := between 9 13 c || between 28 32 c;
  ucd_upper c := between 65 90 c;
  ucd_lower c := between 97 122 c;
  ucd_title _ := false;
|}.
Next Obligation. done. Qed.
Next Obligation.
  unfold between. intros c v H. case_match; simplify_eq. bool_hyps. lia.
Qed.
Next Obligation. done. Qed.
Next Obligation. done. Qed.
Next Obligation. done. Qed.
Next Obligation. done. Qed.

(** A table that also knows the Arabic-Indic digits U+0660..U+0669. *)
Program Definition arabic_ucd : UnicodeDB := {|
  ucd_decimal c := if between 48 57 c then Some (c - 48)
                   else if between 1632 1641 c then Some (c - 1632) else None;
  ucd_space c := between 9 13 c || between 28 32 c;
  ucd_upper c := between 65 90 c;
  ucd_lower c := between 97 122 c;
  ucd_title _ := false;
|}.
Next Obligation.
  unfold between. intros c Hc. case_match; [done|].
  rewrite (proj2 (Z.leb_gt 1632 c)) by lia. done.
Qed.
Next Obligation.
  unfold between. intros c v H. repeat case_match; simplify_eq; bool_hyps; lia.
Qed.
Next Obligation. done. Qed.
Next Obligation. done. Qed.
Next Obligation. done. Qed.
Next Obligation. done. Qed.

(** ** String methods *)

Fixpoint starts_with (p s : pystr) : bool :=
  match p, s with
  | [], _ => true
  | a :: p, b :: s => (a =? b) && starts_with p s
  | _ :: _, [] => false
  end.

Lemma starts_with_spec p s : starts_with p s = true ↔ ∃ t, s = p ++ t.
Proof.
  revert s. induction p as [|a p IH]; intros [|b s]; simpl.
  - split; [by exists []|done].
  - split; [by exists (b :: s)|done].
  - split; [done|]. intros [t Ht]. done.
  - rewrite andb_true_iff, Z.eqb_eq, IH. split.
    + intros [-> [t ->]]. by exists t.
    + intros [t Ht]. simplify_eq. eauto.
Qed.

Lemma starts_with_app p s : starts_with p (p ++ s) = true.
Proof. apply starts_with_spec. eauto. Qed.

(** [a <= b] on text: code point by code point. *)
Fixpoint text_leb (a b : pystr) : bool :=
  match a, b with
  | [], _ => true
  | _ :: _, [] => false
  | x :: a, y :: b => (x <? y) || ((x =? y) && text_leb a b)
  end.

Lemma text_leb_total a b : text_leb a b = false → text_leb b a = true.
Proof.
  revert b. induction a as [|x a IH]; intros [|y b]; simpl; try done.
  intros Hab. apply orb_false_iff in Hab as [Hlt Hab]. apply Z.ltb_ge in Hlt.
  destruct (Z.ltb_spec y x); [done|]. assert (x = y) as -> by lia.
  rewrite Z.eqb_refl in *. simpl in *. auto.
Qed.

Lemma text_leb_trans a b c :
  text_leb a b = true → text_leb b c = true → text_leb a c = true.
Proof.
  revert b c. induction a as [|x a IH]; intros [|y b] [|z c]; simpl; try done.
  rewrite !orb_true_iff, !andb_true_iff, !Z.ltb_lt, !Z.eqb_eq.
  intros [?|[-> Hab]] [?|[-> Hbc]]; [left; lia|by left|by left|eauto].
Qed.

Lemma text_leb_antisym a b : text_leb a b = true → text_leb b a = true → a = b.
Proof.
  revert b. induction a as [|x a IH]; intros [|y b]; simpl; try done.
  rewrite !orb_true_iff, !andb_true_iff, !Z.ltb_lt, !Z.eqb_eq.
  intros [?|[Hxy Hab]] [?|[Hyx Hba]]; try lia. subst. f_equal. auto.
Qed.

Fixpoint drop_while (p : Z → bool) (s : pystr) : pystr :=
  match s with
  | [] => []
  | c :: s' => if p c then drop_while p s' else s
  end.

(** [s.strip()] and [s.strip(chars)], given the set of characters. *)
Definition strip_by (p : Z → bool) (s : pystr) : pystr :=
  reverse (drop_while p (reverse (drop_while p s))).

Definition strip `{UnicodeDB} (s : pystr) : pystr := strip_by ucd_space s.

(** Stripping does nothing to a text without white space. *)
Lemma drop_while_id p s : forallb (λ c, negb (p c)) s = true → drop_while p s = s.
Proof. destruct s as [|c s]; simpl; [done|]. intros H. bool_hyps. by rewrite H. Qed.

Lemma forallb_reverse {A} (p : A → bool) l : forallb p (reverse l) = forallb p l.
Proof.
  induction l as [|x l IH]; [done|]. rewrite reverse_cons, forallb_app, IH. simpl.
  by rewrite andb_true_r, andb_comm.
Qed.

Lemma strip_by_id p s : forallb (λ c, negb (p c)) s = true → strip_by p s = s.
Proof.
  intros H. unfold strip_by. rewrite (drop_while_id _ _ H).
  rewrite drop_while_id by (by rewrite forallb_reverse). by rewrite reverse_involutive.
Qed.

(** [sep.join(parts)]. *)
Fixpoint join (sep : pystr) (parts : list pystr) : pystr :=
  match parts with
  | [] => []
  | [p] => p
  | p :: rest => p ++ sep ++ join sep rest
  end.

(** [s.split(c)] for a one-character separator. *)
Fixpoint split_on (c : Z) (s : pystr) : list pystr :=
  match s with
  | [] => [[]]
  | d :: s =>
      if d =? c then [] :: split_on c s
      else match split_on c s with
           | [] => [[d]]
           | p :: ps => (d :: p) :: ps
           end
  end.

(** [sub in s]. *)
Fixpoint contains (sub s : pystr) : bool :=
  starts_with sub s || match s with [] => false | _ :: s => contains sub s end.

(** [s.isupper()]: no lower- or title-case character, and a cased one. *)
Fixpoint isupper_from `{UnicodeDB} (cased : bool) (s : pystr) : bool :=
  match s with
  | [] => cased
  | c :: s => if ucd_lower c || ucd_title c then false
              else isupper_from (cased || ucd_upper c) s
  end.
Definition isupper `{UnicodeDB} (s : pystr) : bool := isupper_from false s.

(** Decimal notation of a non-negative [int], [str(n)]. *)
Fixpoint digits_fuel (fuel : nat) (n : Z) (acc : pystr) : pystr :=
  match fuel with
  | O => acc
  | S fuel => let acc := (48 + n mod 10) :: acc in
              if n <? 10 then acc else digits_fuel fuel (n / 10) acc
  end.
Definition dec (n : Z) : pystr := digits_fuel (S (Z.to_nat (Z.log2 n))) n [].
Definition str_of_nat (n : nat) : pystr := dec (Z.of_nat n).

(** The number a text of digits denotes. *)
Definition number (l : pystr) : Z := foldl (λ a c, a * 10 + (c - 48)) 0 l.

Lemma digits_fuel_digits f n acc :
  0 ≤ n → forallb (between 48 57) acc = true →
  forallb (between 48 57) (digits_fuel f n acc) = true.
Proof.
  revert n acc. induction f as [|f IH]; intros n acc Hn Hacc; simpl; [done|].
  assert (Hd : forallb (between 48 57) ((48 + n mod 10) :: acc) = true).
  { simpl. rewrite Hacc, andb_true_r. unfold between.
    pose proof (Z.mod_pos_bound n 10). apply andb_true_iff.
    rewrite !Z.leb_le. lia. }
  case_match; [exact Hd|]. apply IH; [|exact Hd].
  apply Z.div_pos; lia.
Qed.

Lemma dec_digits n : 0 ≤ n → forallb (between 48 57) (dec n) = true.
Proof. intros Hn. by apply digits_fuel_digits. Qed.

Lemma str_of_nat_digits n : forallb (between 48 57) (str_of_nat n) = true.
Proof. apply dec_digits. lia. Qed.

Lemma digits_fuel_nonempty f n acc :
  acc ≠ [] → digits_fuel f n acc ≠ [].
Proof.
  revert n acc. induction f as [|f IH]; intros n acc H; simpl; [done|].
  case_match; [done|]. by apply IH.
Qed.

Lemma dec_nonempty n : dec n ≠ [].
Proof. unfold dec. cbn [digits_fuel]. case_match; [done|]. by apply digits_fuel_nonempty. Qed.

Lemma str_of_nat_nonempty n : str_of_nat n ≠ [].
Proof. apply dec_nonempty. Qed.

Lemma digits_fuel_app f n acc : digits_fuel f n acc = digits_fuel f n [] ++ acc.
Proof.
  revert n acc. induction f as [|f IH]; intros n acc; cbn [digits_fuel]; [done|].
  case_match; [done|]. rewrite IH, (IH _ [_]), <- app_assoc. done.
Qed.

Lemma number_from a l :
  foldl (λ a c, a * 10 + (c - 48)) a l = a * 10 ^ Z.of_nat (length l) + number l.
Proof.
  unfold number. revert a. induction l as [|c l IH]; intros a; cbn [foldl length]; [lia|].
  rewrite IH, (IH (0 * 10 + _)), Nat2Z.inj_succ, Z.pow_succ_r by lia. ring.
Qed.

Lemma number_snoc l c : number (l ++ [c]) = number l * 10 + (c - 48).
Proof. unfold number. by rewrite foldl_app. Qed.

Lemma number_bound l :
  forallb (between 48 57) l = true → 0 ≤ number l < 10 ^ Z.of_nat (length l).
Proof.
  induction l as [|c l IH]; [done|]. cbn [forallb length]. intros [Hc Hl]%andb_true_iff.
  specialize (IH Hl). unfold number. cbn [foldl]. rewrite number_from.
  unfold between in Hc. bool_hyps.
  rewrite Nat2Z.inj_succ, Z.pow_succ_r by lia. nia.
Qed.

(** What the digits of a number denote, how many there are, and that the first
    is not a zero. *)
Record denotes (l : pystr) (n : Z) : Prop := Denotes {
  den_number : number l = n;
  den_least : l = [48] ∨ (∃ c l', l = c :: l' ∧ 49 ≤ c ≤ 57);
}.

Lemma digits_fuel_denotes f n :
  0 ≤ n < 10 ^ Z.of_nat f → f ≠ O → denotes (digits_fuel f n []) n.
Proof.
  revert n. induction f as [|f IH]; intros n Hn Hf; [done|].
  cbn [digits_fuel]. pose proof (Z.div_mod n 10 ltac:(lia)) as Hdm.
  pose proof (Z.mod_pos_bound n 10 ltac:(lia)) as Hm.
  destruct (Z.ltb_spec n 10) as [Hlt|Hge].
  - rewrite Z.mod_small by lia. split; [unfold number; cbn [foldl]; lia|].
    destruct (decide (n = 0)) as [->|]; [by left|]. right. exists (48 + n), []. split; [done|lia].
  - rewrite Nat2Z.inj_succ, Z.pow_succ_r in Hn by lia.
    assert (Hq : 1 ≤ n / 10 < 10 ^ Z.of_nat f).
    { split; [by apply Z.div_le_lower_bound|apply Z.div_lt_upper_bound; lia]. }
    assert (Hf' : f ≠ O) by (intros ->; simpl in Hq; lia).
    destruct (IH (n / 10) ltac:(lia) Hf') as [Hnum Hleast].
    rewrite digits_fuel_app. split.
    + rewrite number_snoc, Hnum. lia.
    + right. destruct Hleast as [He|(c & l' & He & Hc)]; rewrite He in *.
      * unfold number in Hnum. cbn in Hnum. lia.
      * exists c, (l' ++ [48 + n mod 10]). done.
Qed.

Lemma dec_denotes n : 0 ≤ n → denotes (dec n) n.
Proof.
  intros Hn. apply digits_fuel_denotes; [|done]. split; [done|].
  destruct (decide (n = 0)) as [->|]; [done|].
  rewrite Nat2Z.inj_succ, Z2Nat.id by apply Z.log2_nonneg.
  pose proof (Z.log2_spec n ltac:(lia)) as [_ Hlt]. eapply Z.lt_le_trans; [exact Hlt|].
  apply Z.pow_le_mono_l. pose proof (Z.log2_nonneg n). lia.
Qed.

Lemma dec_number n : 0 ≤ n → number (dec n) = n.
Proof. intros Hn. by apply dec_denotes. Qed.

(** How long the decimal notation is. *)
Lemma dec_length n k :
  0 ≤ n → (0 < k)%nat → (length (dec n) ≤ k)%nat ↔ n < 10 ^ Z.of_nat k.
Proof.
  intros Hn Hk. destruct (dec_denotes n Hn) as [Hnum Hl]. pose proof (dec_digits n Hn) as Hd.
  split.
  - intros Hlen. pose proof (number_bound _ Hd) as Hb. rewrite Hnum in Hb.
    eapply Z.lt_le_trans; [apply Hb|]. apply Z.pow_le_mono_r; lia.
  - intros Hlt. destruct Hl as [->|(c & l' & He & Hc)]; [done|].
    rewrite He in *. simpl in Hd. apply andb_true_iff in Hd as [_ Hd].
    unfold number in Hnum. cbn [foldl] in Hnum. rewrite number_from in Hnum.
    pose proof (number_bound _ Hd) as Hb. simpl. apply Nat.lt_nge. intros Hge.
    assert (10 ^ Z.of_nat k ≤ 10 ^ Z.of_nat (length l')) by (apply Z.pow_le_mono_r; lia). nia.
Qed.

(** ** Lines *)

(** [str.splitlines()]: the line boundaries of Python text, CR LF as one. *)
Definition linebreak (c : Z) : bool :=
  between 10 13 c || between 28 30 c || (c =? 133) || between 8232 8233 c.

Fixpoint splitlines (s : pystr) : list pystr :=
  match s with
  | [] => []
  | c :: s' =>
      if linebreak c then
        [] :: match s' with
              | d :: s'' => if (c =? 13) && (d =? 10) then splitlines s'' else splitlines s'
              | [] => []
              end
      else match splitlines s' with
           | [] => [[c]]
           | l :: ls => (c :: l) :: ls
           end
  end.

Definition plain_line (l : pystr) : Prop :=
  l ≠ [] ∧ forallb (λ c, negb (linebreak c)) l = true.

Lemma splitlines_one l : plain_line l → splitlines l = [l].
Proof.
  intros [Hne Hl]. induction l as [|c l IH]; [done|]. simpl in Hl. bool_hyps.
  simpl. rewrite H. destruct l as [|d l]; [done|]. by rewrite IH.
Qed.

Lemma splitlines_cons l rest :
  plain_line l → splitlines (l ++ 10 :: rest) = l :: splitlines rest.
Proof.
  intros [Hne Hl]. induction l as [|c l IH]; [done|]. simpl in Hl. bool_hyps.
  cbn [app splitlines]. rewrite H. destruct l as [|d l].
  - simpl. by destruct rest.
  - by rewrite IH.
Qed.

Lemma splitlines_join ls :
  (∀ l, l ∈ ls → plain_line l) → splitlines (join [10] ls) = ls.
Proof.
  induction ls as [|l ls IH]; intros Hls; [done|].
  destruct ls as [|l' ls]; [apply splitlines_one, Hls; by left|].
  change (join [10] (l :: l' :: ls)) with (l ++ 10 :: join [10] (l' :: ls)).
  rewrite splitlines_cons by (apply Hls; by left).
  f_equal. apply IH. intros; apply Hls; by right.
Qed.

(** Lines that each end with a line feed. *)
Definition as_lines (ls : list pystr) : pystr := ls ≫= (λ l, l ++ [10]).

Lemma splitlines_lines ls : Forall plain_line ls → splitlines (as_lines ls) = ls.
Proof.
  induction 1 as [|l ls Hl _ IH]; [done|].
  change (as_lines (l :: ls)) with ((l ++ [10]) ++ as_lines ls). rewrite <- app_assoc. cbn [app].
  by rewrite splitlines_cons, IH.
Qed.

(** ** Regular expressions *)

Module Regex.
Inductive re :=
  | Empty
  | Eps
  | Chr (p : Z → bool)
  | Cat (r s : re)
  | Alt (r s : re)
  | Star (r : re).

(** What a pattern matches, as a whole. *)
Inductive matches : re → pystr → Prop :=
  | m_eps : matches Eps []
  | m_chr p c : p c = true → matches (Chr p) [c]
  | m_cat r s x y : matches r x → matches s y → matches (Cat r s) (x ++ y)
  | m_alt_l r s x : matches r x → matches (Alt r s) x
  | m_alt_r r s x : matches s x → matches (Alt r s) x
  | m_star_nil r : matches (Star r) []
  | m_star_cons r x y :
      matches r x → matches (Star r) y → matches (Star r) (x ++ y).

Fixpoint nullable (r : re) : bool :=
  match r with
  | Empty => false
  | Eps => true
  | Chr _ => false
  | Cat r s => nullable r && nullable s
  | Alt r s => nullable r || nullable s
  | Star _ => true
  end.

Definition mcat (r s : re) : re :=
  match r with Empty => Empty | Eps => s | _ => Cat r s end.
Definition malt (r s : re) : re :=
  match r, s with Empty, _ => s | _, Empty => r | _, _ => Alt r s end.

Fixpoint deriv (c : Z) (r : re) : re :=
  match r with
  | Empty | Eps => Empty
  | Chr p => if p c then Eps else Empty
  | Cat r s =>
      let d := mcat (deriv c r) s in
      if nullable r then malt d (deriv c s) else d
  | Alt r s => malt (deriv c r) (deriv c s)
  | Star r => mcat (deriv c r) (Star r)
  end.

Fixpoint fullmatch (r : re) (s : pystr) : bool :=
  match s with [] => nullable r | c :: s => fullmatch (deriv c r) s end.

(** Derived forms. *)
Definition opt (r : re) : re := Alt r Eps.
Definition plus (r : re) : re := Cat r (Star r).
Fixpoint times (n : nat) (r : re) : re :=
  match n with O => Eps | S n => Cat r (times n r) end.
Fixpoint word (s : pystr) : re :=
  match s with [] => Eps | c :: s => Cat (Chr (Z.eqb c)) (word s) end.

(** *** Correctness *)

Lemma nullable_matches r : nullable r = true ↔ matches r [].
Proof.
  split.
  - induction r as [| |p|r IHr s IHs|r IHr s IHs|r IHr]; simpl; intros H;
      bool_hyps; try done; [by constructor| | |by constructor].
    + change (matches (Cat r s) ([] ++ [])). constructor; auto.
    + apply orb_true_iff in H as [H|H]; [apply m_alt_l|apply m_alt_r]; auto.
  - remember [] as x eqn:Hx. intros H. revert Hx.
    induction H; intros Hx; simpl; simplify_eq/=; try done.
    + apply app_eq_nil in Hx as [-> ->]. rewrite IHmatches1, IHmatches2; done.
    + rewrite IHmatches; done.
    + rewrite IHmatches, orb_true_r; done.
Qed.

Lemma matches_empty x : ¬ matches Empty x.
Proof. inversion 1. Qed.

Lemma matches_cat_inv r s x :
  matches (Cat r s) x ↔ ∃ y z, x = y ++ z ∧ matches r y ∧ matches s z.
Proof.
  split; [inversion 1; subst; eauto|].
  intros (y & z & -> & ? & ?). by constructor.
Qed.

Lemma matches_alt_inv r s x : matches (Alt r s) x ↔ matches r x ∨ matches s x.
Proof.
  split; [inversion 1; subst; eauto|].
  intros [?|?]; [by apply m_alt_l|by apply m_alt_r].
Qed.

Lemma matches_chr_inv p x : matches (Chr p) x ↔ ∃ c, x = [c] ∧ p c = true.
Proof.
  split; [inversion 1; subst; eauto|]. intros (c & -> & ?). by constructor.
Qed.

Lemma matches_eps_inv x : matches Eps x ↔ x = [].
Proof. split; [by inversion 1|intros ->; constructor]. Qed.

Lemma mcat_matches r s x : matches (mcat r s) x ↔ matches (Cat r s) x.
Proof.
  destruct r; simpl; try done; rewrite matches_cat_inv; split.
  - by intros H%matches_empty.
  - by intros (y & z & _ & H%matches_empty & _).
  - intros H. exists [], x. split_and!; [done|constructor|done].
  - intros (y & z & -> & ->%matches_eps_inv & ?). done.
Qed.

Lemma malt_matches r s x : matches (malt r s) x ↔ matches (Alt r s) x.
Proof.
  rewrite matches_alt_inv.
  destruct r, s; simpl; rewrite ?matches_alt_inv; split;
    intuition auto; exfalso; by eapply matches_empty.
Qed.

Lemma matches_star_cons_inv r c x :
  matches (Star r) (c :: x) →
  ∃ y z, x = y ++ z ∧ matches r (c :: y) ∧ matches (Star r) z.
Proof.
  remember (Star r) as q eqn:Hq. remember (c :: x) as w eqn:Hw.
  intros H. revert c x Hw. induction H; intros d w Hw; simplify_eq.
  destruct x as [|e x]; simpl in Hw; [by apply IHmatches2|].
  simplify_eq. eauto.
Qed.

Lemma deriv_matches c r x : matches (deriv c r) x ↔ matches r (c :: x).
Proof.
  revert x. induction r as [| |p|r IHr s IHs|r IHr s IHs|r IHr]; intros x; simpl.
  - split; by intros ?%matches_empty.
  - split; [by intros ?%matches_empty|by rewrite matches_eps_inv].
  - rewrite matches_chr_inv. case_match; split.
    + intros ->%matches_eps_inv. eauto.
    + intros (? & ? & ?). simplify_eq. constructor.
    + by intros ?%matches_empty.
    + intros (? & ? & ?). simplify_eq. congruence.
  - assert (Hd : matches (mcat (deriv c r) s) x ↔
      ∃ y z, x = y ++ z ∧ matches r (c :: y) ∧ matches s z).
    { rewrite mcat_matches, matches_cat_inv. by setoid_rewrite IHr. }
    rewrite (matches_cat_inv r s). case_match eqn:Hn.
    + rewrite malt_matches, matches_alt_inv, Hd, IHs. split.
      * intros [(y & z & -> & ? & ?)|?]; [by exists (c :: y), z|].
        exists [], (c :: x). split_and!; [done| |done].
        by apply nullable_matches.
      * intros ([|e y] & z & Hx & ? & ?); simplify_eq/=; [by right|].
        left. eauto.
    + rewrite Hd. split.
      * intros (y & z & -> & ? & ?). by exists (c :: y), z.
      * intros ([|e y] & z & Hx & Hm & ?); simplify_eq/=; [|eauto].
        apply nullable_matches in Hm. congruence.
  - by rewrite malt_matches, !matches_alt_inv, IHr, IHs.
  - rewrite mcat_matches, matches_cat_inv. split.
    + intros (y & z & -> & ?%IHr & ?). change (matches (Star r) ((c :: y) ++ z)).
      by constructor.
    + intros (y & z & -> & ?%IHr & ?)%matches_star_cons_inv. eauto.
Qed.

(** [fullmatch] decides the pattern's language. *)
Lemma fullmatch_matches r s : fullmatch r s = true ↔ matches r s.
Proof.
  revert r. induction s as [|c s IH]; intros r; simpl.
  - apply nullable_matches.
  - by rewrite IH, deriv_matches.
Qed.

(** *** Languages of the common pattern shapes *)

Lemma matches_star_chr p x :
  matches (Star (Chr p)) x ↔ forallb p x = true.
Proof.
  split.
  - remember (Star (Chr p)) as q eqn:Hq. intros H.
    induction H; simplify_eq/=; [done|].
    apply matches_chr_inv in H as (c & -> & Hc). simpl.
    rewrite Hc. by apply IHmatches2.
  - induction x as [|c x IH]; simpl; intros H; bool_hyps; [constructor|].
    change (c :: x) with ([c] ++ x). constructor; [by constructor|auto].
Qed.

Lemma matches_times_chr p n x :
  matches (times n (Chr p)) x ↔ length x = n ∧ forallb p x = true.
Proof.
  revert x. induction n as [|n IH]; intros x; simpl.
  - rewrite matches_eps_inv. destruct x; simpl; split; naive_solver.
  - rewrite matches_cat_inv. split.
    + intros (y & z & -> & (c & -> & Hc)%matches_chr_inv & [Hl Hz]%IH).
      simpl. rewrite Hc, Hz, Hl. done.
    + intros [Hl Hf]. destruct x as [|c x]; simpl in *; [done|]. bool_hyps.
      exists [c], x. split_and!; [done|by constructor|]. apply IH. auto with lia.
Qed.

Lemma matches_word w x : matches (word w) x ↔ x = w.
Proof.
  revert x. induction w as [|c w IH]; intros x; simpl.
  - apply matches_eps_inv.
  - rewrite matches_cat_inv. split.
    + intros (y & z & -> & (d & -> & Hd)%matches_chr_inv & ->%IH).
      apply Z.eqb_eq in Hd. by subst.
    + intros ->. exists [c], w. split_and!; [done| |by apply IH].
      constructor. apply Z.eqb_refl.
Qed.

Lemma fullmatch_times_chr p n x :
  fullmatch (times n (Chr p)) x = true ↔ length x = n ∧ forallb p x = true.
Proof. by rewrite fullmatch_matches, matches_times_chr. Qed.

(** [\[p\]\[q\]*]: a first character, then any number of others. *)
Lemma matches_ident p q x :
  matches (Cat (Chr p) (Star (Chr q))) x ↔
  ∃ c y, x = c :: y ∧ p c = true ∧ forallb q y = true.
Proof.
  rewrite matches_cat_inv. split.
  - intros (y & z & -> & (c & -> & ?)%matches_chr_inv & ?%matches_star_chr).
    by exists c, z.
  - intros (c & y & -> & ? & ?). exists [c], y.
    split_and!; [done|by constructor|by apply matches_star_chr].
Qed.
End Regex.

Create Rewrite HintDb regex.
#[export] Hint Rewrite Regex.fullmatch_matches Regex.matches_cat_inv
  Regex.matches_alt_inv Regex.matches_chr_inv Regex.matches_eps_inv
  Regex.matches_star_chr Regex.matches_times_chr Regex.matches_word
  Regex.matches_ident : regex.

(** Character classes of the patterns. *)
Definition hex_lower (c : Z) : bool := between 48 57 c || between 97 102 c.
Definition ascii_digit (c : Z) : bool := between 48 57 c.
Definition ascii_upper (c : Z) : bool := between 65 90 c.
Definition ascii_alnum (c : Z) : bool :=
  between 48 57 c || between 65 90 c || between 97 122 c.
