(* ===== verification/Digests.v ===== *)
(** * Digest translation

    [approvals_authority.py]: the vendor's bare content hashes against the
    approvals module's [sha256:]-prefixed digests, in both directions. *)

From S2P Require Import Prelude PyText.

#[local] Open Scope Z_scope.
#[local] Open Scope string_scope.

Definition VENDOR_DIGEST_LENGTH : nat := 64.
Definition MODULE_DIGEST_PREFIX : pystr := lit "sha256:".
Definition DIGEST_REJECTION_REASONS : list string :=
  ["empty"; "already_prefixed"; "wrong_length"; "uppercase"; "non_hex"].
Definition _HEX_LOWER : list Z := lit "0123456789abcdef".
Definition MODULE_DIGEST_REJECTION_REASONS : list string :=
  "not_prefixed" :: DIGEST_REJECTION_REASONS.

Section digests.
  Context `{UnicodeDB}.

Definition digest_rejection_reason (vendor_content_hash : pystr) : option string :=
  if bool_decide (vendor_content_hash = []) then Some "empty"
  else if starts_with MODULE_DIGEST_PREFIX vendor_content_hash
  then Some "already_prefixed"
  else if negb (bool_decide (length vendor_content_hash = VENDOR_DIGEST_LENGTH))
  then Some "wrong_length"
  else if existsb (λ c, isupper [c]) vendor_content_hash then Some "uppercase"
  else if existsb (λ c, negb (bool_decide (c ∈ _HEX_LOWER))) vendor_content_hash
  then Some "non_hex"
  else None.

Definition module_digest_rejection_reason (module_digest : pystr) : option string :=
  if bool_decide (module_digest = []) then Some "empty"
  else if negb (starts_with MODULE_DIGEST_PREFIX module_digest)
  then Some "not_prefixed"
  else digest_rejection_reason (drop (length MODULE_DIGEST_PREFIX) module_digest).

Definition bare_content_hash (module_digest : pystr) : res pystr :=
  match module_digest_rejection_reason module_digest with
  | Some _ => Raise (Exn ValueError
      "module digest is not translatable to a vendor content hash (")
  | None => Ok (drop (length MODULE_DIGEST_PREFIX) module_digest)
  end.

Definition translate_digest (vendor_content_hash : pystr) : res pystr :=
  match digest_rejection_reason vendor_content_hash with
  | Some _ => Raise (Exn ValueError
      "content hash is not translatable to a module digest (")
  | None => Ok (MODULE_DIGEST_PREFIX ++ vendor_content_hash)%list
  end.

(** The rule the checker implements: 64 lowercase hexadecimal characters. *)
Definition is_content_hash (s : pystr) : Prop :=
  length s = 64%nat ∧ forallb hex_lower s = true.

(** ** Lemmas *)

Lemma HEX_LOWER_spec c : c ∈ _HEX_LOWER ↔ hex_lower c = true.
Proof.
  unfold hex_lower, between. split.
  - intros Hc. unfold _HEX_LOWER, lit in Hc. vm_compute in Hc.
    repeat (apply elem_of_cons in Hc as [->|Hc]; [done|]).
    by apply elem_of_nil in Hc.
  - intros Hc. apply orb_true_iff in Hc. rewrite !andb_true_iff, !Z.leb_le in Hc.
    unfold _HEX_LOWER, lit. vm_compute.
    assert (c = 48 ∨ c = 49 ∨ c = 50 ∨ c = 51 ∨ c = 52 ∨ c = 53 ∨ c = 54 ∨ c = 55
      ∨ c = 56 ∨ c = 57 ∨ c = 97 ∨ c = 98 ∨ c = 99 ∨ c = 100 ∨ c = 101 ∨ c = 102)
      as Hs by lia.
    set_solver.
Qed.

Lemma hex_lower_not_upper c : hex_lower c = true → isupper [c] = false.
Proof.
  unfold hex_lower, between. intros Hc. unfold isupper. simpl.
  apply orb_true_iff in Hc. rewrite !andb_true_iff, !Z.leb_le in Hc.
  case_match; [done|]. simpl. rewrite ucd_upper_ascii by lia.
  apply andb_false_iff. rewrite Z.leb_gt, Z.leb_gt. lia.
Qed.

Lemma existsb_not_hex s :
  existsb (λ c, negb (bool_decide (c ∈ _HEX_LOWER))) s = negb (forallb hex_lower s).
Proof.
  induction s as [|c s IH]; simpl; [done|]. rewrite IH, negb_andb. f_equal.
  f_equal. apply eq_true_iff_eq. by rewrite bool_decide_eq_true, HEX_LOWER_spec.
Qed.

Lemma existsb_upper_hex s :
  forallb hex_lower s = true → existsb (λ c, isupper [c]) s = false.
Proof.
  induction s as [|c s IH]; simpl; intros Hs; [done|]. bool_hyps.
  rewrite hex_lower_not_upper, IH by done. done.
Qed.

Lemma prefix_not_hex s :
  starts_with MODULE_DIGEST_PREFIX s = true → forallb hex_lower s = false.
Proof. intros [t ->]%starts_with_spec. done. Qed.

Lemma digest_rejection_reason_None s :
  digest_rejection_reason s = None ↔ is_content_hash s.
Proof.
  unfold digest_rejection_reason, is_content_hash, VENDOR_DIGEST_LENGTH. split.
  - rewrite existsb_not_hex. repeat case_match; try done. intros _. bool_hyps.
    by bool_hyps.
  - intros [Hl Hh]. rewrite existsb_not_hex, Hh, existsb_upper_hex by done.
    rewrite bool_decide_false by (intros ->; done).
    destruct (starts_with _ s) eqn:Hs.
    { apply prefix_not_hex in Hs. congruence. }
    by rewrite bool_decide_true.
Qed.

Lemma module_digest_rejection_reason_None d :
  module_digest_rejection_reason d = None ↔
  ∃ h, d = (MODULE_DIGEST_PREFIX ++ h)%list ∧ is_content_hash h.
Proof.
  unfold module_digest_rejection_reason. split.
  - repeat case_match; try done. bool_hyps. intros Hr. bool_hyps.
    apply starts_with_spec in H1 as [h ->].
    rewrite drop_app_length, digest_rejection_reason_None in Hr. eauto.
  - intros (h & -> & Hh). rewrite bool_decide_false by done.
    rewrite starts_with_app, drop_app_length.
    by apply digest_rejection_reason_None.
Qed.

Lemma translate_digest_Ok h d :
  translate_digest h = Ok d ↔
  is_content_hash h ∧ d = (MODULE_DIGEST_PREFIX ++ h)%list.
Proof.
  unfold translate_digest. rewrite <- digest_rejection_reason_None.
  case_match; naive_solver.
Qed.

Lemma bare_content_hash_Ok d h :
  bare_content_hash d = Ok h ↔
  is_content_hash h ∧ d = (MODULE_DIGEST_PREFIX ++ h)%list.
Proof.
  unfold bare_content_hash. case_match eqn:Hr.
  - split; [done|]. intros [Hh ->].
    assert (module_digest_rejection_reason (MODULE_DIGEST_PREFIX ++ h) = None).
    { apply module_digest_rejection_reason_None. eauto. }
    congruence.
  - apply module_digest_rejection_reason_None in Hr as (h' & -> & Hh').
    rewrite drop_app_length. naive_solver.
Qed.

(** The two directions of digest translation are mutually inverse partial
    functions: [translate_digest] turns a bare hash into a digest exactly when
    [bare_content_hash] turns that digest back into the hash, and both accept
    exactly 64 lowercase hexadecimal characters, with every interpreter's
    Unicode tables; nothing is repaired on the way. *)
Theorem translate_bare_inverse (h d : pystr) :
  (translate_digest h = Ok d ↔ bare_content_hash d = Ok h) ∧
  (is_ok (translate_digest h) = true ↔ is_content_hash h) ∧
  (is_ok (bare_content_hash d) = true ↔
     ∃ h', d = (MODULE_DIGEST_PREFIX ++ h')%list ∧ is_content_hash h').
Proof.
  split_and!.
  - by rewrite translate_digest_Ok, bare_content_hash_Ok.
  - rewrite <- digest_rejection_reason_None. unfold translate_digest.
    by case_match.
  - rewrite <- module_digest_rejection_reason_None. unfold bare_content_hash.
    by case_match.
Qed.

End digests.
