(* ===== verification/Vocabulary.v ===== *)
(** * The closed vocabulary of the commercial-backfill reports

    [commercial_backfill/vocabulary.py]: one Module per [ReportEnum] class,
    with the members in declaration order and their names; [member] is a value
    of any of the classes, [enum_type] a class; then the declared tables. *)

From S2P Require Import Prelude PyText.

#[local] Open Scope string_scope.

(** A Python [Enum] class: its members in declaration order, their names. *)
Class ReportEnum (A : Type) `{EqDecision A} := {
  members : list A;
  name : A → string;
  members_NoDup : NoDup members;
  members_complete x : x ∈ members;
}.

(** Tactics for the finite classes. *)
Ltac enum_nodup := apply (bool_decide_unpack _); vm_compute; exact I.
Ltac enum_complete :=
  let x := fresh in intros x; apply (bool_decide_unpack _);
  destruct x; vm_compute; exact I.

Module SourceKind.
Inductive t :=
  | OFFER_VERSION
  | AGREEMENT_LINE.
#[global] Instance t_eq_dec : EqDecision t.
Proof. solve_decision. Defined.
#[global] Program Instance t_enum : ReportEnum t := {|
  members := [OFFER_VERSION;
    AGREEMENT_LINE];
  name x := match x with
    | OFFER_VERSION => "OFFER_VERSION"
    | AGREEMENT_LINE => "AGREEMENT_LINE"
    end
|}.
Next Obligation. enum_nodup. Qed.
Next Obligation. enum_complete. Qed.
End SourceKind.

Module SourceCoverage.
Inductive t :=
  | OFFER_VERSION_ENUMERATED
  | OFFER_VERSION_NOT_ENUMERABLE
  | AGREEMENT_LINE_ENUMERATED
  | AGREEMENT_LINE_NOT_ENUMERABLE.
#[global] Instance t_eq_dec : EqDecision t.
Proof. solve_decision. Defined.
#[global] Program Instance t_enum : ReportEnum t := {|
  members := [OFFER_VERSION_ENUMERATED;
    OFFER_VERSION_NOT_ENUMERABLE;
    AGREEMENT_LINE_ENUMERATED;
    AGREEMENT_LINE_NOT_ENUMERABLE];
  name x := match x with
    | OFFER_VERSION_ENUMERATED => "OFFER_VERSION_ENUMERATED"
    | OFFER_VERSION_NOT_ENUMERABLE => "OFFER_VERSION_NOT_ENUMERABLE"
    | AGREEMENT_LINE_ENUMERATED => "AGREEMENT_LINE_ENUMERATED"
    | AGREEMENT_LINE_NOT_ENUMERABLE => "AGREEMENT_LINE_NOT_ENUMERABLE"
    end
|}.
Next Obligation. enum_nodup. Qed.
Next Obligation. enum_complete. Qed.
End SourceCoverage.

Module Bucket.
Inductive t :=
  | MAPPED
  | EXCLUDED
  | BLOCKED.
#[global] Instance t_eq_dec : EqDecision t.
Proof. solve_decision. Defined.
#[global] Program Instance t_enum : ReportEnum t := {|
  members := [MAPPED;
    EXCLUDED;
    BLOCKED];
  name x := match x with
    | MAPPED => "MAPPED"
    | EXCLUDED => "EXCLUDED"
    | BLOCKED => "BLOCKED"
    end
|}.
Next Obligation. enum_nodup. Qed.
Next Obligation. enum_complete. Qed.
End Bucket.

Module ExclusionReason.
Inductive t :=
  | OFFER_VERSION_NEVER_REFERENCED
  | NOT_COMMERCIAL_STATE_YET
  | TERMINATED_BEFORE_COHORT_START
  | SUPERSEDED_AGREEMENT_VERSION
  | ZERO_QUANTITY_LINE.
#[global] Instance t_eq_dec : EqDecision t.
Proof. solve_decision. Defined.
#[global] Program Instance t_enum : ReportEnum t := {|
  members := [OFFER_VERSION_NEVER_REFERENCED;
    NOT_COMMERCIAL_STATE_YET;
    TERMINATED_BEFORE_COHORT_START;
    SUPERSEDED_AGREEMENT_VERSION;
    ZERO_QUANTITY_LINE];
  name x := match x with
    | OFFER_VERSION_NEVER_REFERENCED => "OFFER_VERSION_NEVER_REFERENCED"
    | NOT_COMMERCIAL_STATE_YET => "NOT_COMMERCIAL_STATE_YET"
    | TERMINATED_BEFORE_COHORT_START => "TERMINATED_BEFORE_COHORT_START"
    | SUPERSEDED_AGREEMENT_VERSION => "SUPERSEDED_AGREEMENT_VERSION"
    | ZERO_QUANTITY_LINE => "ZERO_QUANTITY_LINE"
    end
|}.
Next Obligation. enum_nodup. Qed.
Next Obligation. enum_complete. Qed.
End ExclusionReason.

Module Dimension.
Inductive t :=
  | PRODUCT_IDENTITY
  | CURRENCY
  | CADENCE
  | PRORATION
  | FROZEN_CONTENT.
#[global] Instance t_eq_dec : EqDecision t.
Proof. solve_decision. Defined.
#[global] Program Instance t_enum : ReportEnum t := {|
  members := [PRODUCT_IDENTITY;
    CURRENCY;
    CADENCE;
    PRORATION;
    FROZEN_CONTENT];
  name x := match x with
    | PRODUCT_IDENTITY => "PRODUCT_IDENTITY"
    | CURRENCY => "CURRENCY"
    | CADENCE => "CADENCE"
    | PRORATION => "PRORATION"
    | FROZEN_CONTENT => "FROZEN_CONTENT"
    end
|}.
Next Obligation. enum_nodup. Qed.
Next Obligation. enum_complete. Qed.
End Dimension.

Module ProductIdentityOutcome.
Inductive t :=
  | QUALIFIED
  | CODE_ABSENT
  | CODE_UNTRIMMED
  | CODE_UNDECLARED
  | MULTI_PRODUCT_AGREEMENT.
#[global] Instance t_eq_dec : EqDecision t.
Proof. solve_decision. Defined.
#[global] Program Instance t_enum : ReportEnum t := {|
  members := [QUALIFIED;
    CODE_ABSENT;
    CODE_UNTRIMMED;
    CODE_UNDECLARED;
    MULTI_PRODUCT_AGREEMENT];
  name x := match x with
    | QUALIFIED => "QUALIFIED"
    | CODE_ABSENT => "CODE_ABSENT"
    | CODE_UNTRIMMED => "CODE_UNTRIMMED"
    | CODE_UNDECLARED => "CODE_UNDECLARED"
    | MULTI_PRODUCT_AGREEMENT => "MULTI_PRODUCT_AGREEMENT"
    end
|}.
Next Obligation. enum_nodup. Qed.
Next Obligation. enum_complete. Qed.
End ProductIdentityOutcome.

Module CurrencyOutcome.
Inductive t :=
  | EXACT
  | EXACT_ZERO_AMOUNT
  | CODE_UNKNOWN
  | NOT_DECIMAL
  | NOT_QUANTIZED
  | NEGATIVE
  | MIXED_CURRENCY_AGREEMENT.
#[global] Instance t_eq_dec : EqDecision t.
Proof. solve_decision. Defined.
#[global] Program Instance t_enum : ReportEnum t := {|
  members := [EXACT;
    EXACT_ZERO_AMOUNT;
    CODE_UNKNOWN;
    NOT_DECIMAL;
    NOT_QUANTIZED;
    NEGATIVE;
    MIXED_CURRENCY_AGREEMENT];
  name x := match x with
    | EXACT => "EXACT"
    | EXACT_ZERO_AMOUNT => "EXACT_ZERO_AMOUNT"
    | CODE_UNKNOWN => "CODE_UNKNOWN"
    | NOT_DECIMAL => "NOT_DECIMAL"
    | NOT_QUANTIZED => "NOT_QUANTIZED"
    | NEGATIVE => "NEGATIVE"
    | MIXED_CURRENCY_AGREEMENT => "MIXED_CURRENCY_AGREEMENT"
    end
|}.
Next Obligation. enum_nodup. Qed.
Next Obligation. enum_complete. Qed.
End CurrencyOutcome.

Module CadenceOutcome.
Inductive t :=
  | MONTHLY
  | QUARTERLY
  | SEMI_ANNUAL
  | ANNUAL
  | INDETERMINATE
  | TERM_NOT_POSITIVE
  | TERM_OPEN_ENDED.
#[global] Instance t_eq_dec : EqDecision t.
Proof. solve_decision. Defined.
#[global] Program Instance t_enum : ReportEnum t := {|
  members := [MONTHLY;
    QUARTERLY;
    SEMI_ANNUAL;
    ANNUAL;
    INDETERMINATE;
    TERM_NOT_POSITIVE;
    TERM_OPEN_ENDED];
  name x := match x with
    | MONTHLY => "MONTHLY"
    | QUARTERLY => "QUARTERLY"
    | SEMI_ANNUAL => "SEMI_ANNUAL"
    | ANNUAL => "ANNUAL"
    | INDETERMINATE => "INDETERMINATE"
    | TERM_NOT_POSITIVE => "TERM_NOT_POSITIVE"
    | TERM_OPEN_ENDED => "TERM_OPEN_ENDED"
    end
|}.
Next Obligation. enum_nodup. Qed.
Next Obligation. enum_complete. Qed.
End CadenceOutcome.

Module ProrationOutcome.
Inductive t :=
  | NONE_REQUIRED
  | TARGET_OWNED_MISALIGNED
  | ANCHOR_INDETERMINATE.
#[global] Instance t_eq_dec : EqDecision t.
Proof. solve_decision. Defined.
#[global] Program Instance t_enum : ReportEnum t := {|
  members := [NONE_REQUIRED;
    TARGET_OWNED_MISALIGNED;
    ANCHOR_INDETERMINATE];
  name x := match x with
    | NONE_REQUIRED => "NONE_REQUIRED"
    | TARGET_OWNED_MISALIGNED => "TARGET_OWNED_MISALIGNED"
    | ANCHOR_INDETERMINATE => "ANCHOR_INDETERMINATE"
    end
|}.
Next Obligation. enum_nodup. Qed.
Next Obligation. enum_complete. Qed.
End ProrationOutcome.

Module FrozenContentOutcome.
Inductive t :=
  | TRANSLATABLE
  | NOT_FROZEN
  | STALE_AGAINST_ACTIVATION
  | DIGEST_EMPTY
  | DIGEST_ALREADY_PREFIXED
  | DIGEST_WRONG_LENGTH
  | DIGEST_UPPERCASE
  | DIGEST_NON_HEX.
#[global] Instance t_eq_dec : EqDecision t.
Proof. solve_decision. Defined.
#[global] Program Instance t_enum : ReportEnum t := {|
  members := [TRANSLATABLE;
    NOT_FROZEN;
    STALE_AGAINST_ACTIVATION;
    DIGEST_EMPTY;
    DIGEST_ALREADY_PREFIXED;
    DIGEST_WRONG_LENGTH;
    DIGEST_UPPERCASE;
    DIGEST_NON_HEX];
  name x := match x with
    | TRANSLATABLE => "TRANSLATABLE"
    | NOT_FROZEN => "NOT_FROZEN"
    | STALE_AGAINST_ACTIVATION => "STALE_AGAINST_ACTIVATION"
    | DIGEST_EMPTY => "DIGEST_EMPTY"
    | DIGEST_ALREADY_PREFIXED => "DIGEST_ALREADY_PREFIXED"
    | DIGEST_WRONG_LENGTH => "DIGEST_WRONG_LENGTH"
    | DIGEST_UPPERCASE => "DIGEST_UPPERCASE"
    | DIGEST_NON_HEX => "DIGEST_NON_HEX"
    end
|}.
Next Obligation. enum_nodup. Qed.
Next Obligation. enum_complete. Qed.
End FrozenContentOutcome.

Module ParityVerdict.
Inductive t :=
  | MATCHED
  | DIVERGED
  | NOT_COMPARABLE.
#[global] Instance t_eq_dec : EqDecision t.
Proof. solve_decision. Defined.
#[global] Program Instance t_enum : ReportEnum t := {|
  members := [MATCHED;
    DIVERGED;
    NOT_COMPARABLE];
  name x := match x with
    | MATCHED => "MATCHED"
    | DIVERGED => "DIVERGED"
    | NOT_COMPARABLE => "NOT_COMPARABLE"
    end
|}.
Next Obligation. enum_nodup. Qed.
Next Obligation. enum_complete. Qed.
End ParityVerdict.

Module ParitySubject.
Inductive t :=
  | ROW_COUNT
  | TARGET_SEMANTIC.
#[global] Instance t_eq_dec : EqDecision t.
Proof. solve_decision. Defined.
#[global] Program Instance t_enum : ReportEnum t := {|
  members := [ROW_COUNT;
    TARGET_SEMANTIC];
  name x := match x with
    | ROW_COUNT => "ROW_COUNT"
    | TARGET_SEMANTIC => "TARGET_SEMANTIC"
    end
|}.
Next Obligation. enum_nodup. Qed.
Next Obligation. enum_complete. Qed.
End ParitySubject.

Module TallySubject.
Inductive t :=
  | SOURCE_COVERAGE
  | SOURCE_KIND
  | BUCKET
  | EXCLUSION
  | BLOCKING_DIMENSION
  | PRODUCT_IDENTITY
  | CURRENCY
  | CADENCE
  | PRORATION
  | FROZEN_CONTENT
  | PARITY.
#[global] Instance t_eq_dec : EqDecision t.
Proof. solve_decision. Defined.
#[global] Program Instance t_enum : ReportEnum t := {|
  members := [SOURCE_COVERAGE;
    SOURCE_KIND;
    BUCKET;
    EXCLUSION;
    BLOCKING_DIMENSION;
    PRODUCT_IDENTITY;
    CURRENCY;
    CADENCE;
    PRORATION;
    FROZEN_CONTENT;
    PARITY];
  name x := match x with
    | SOURCE_COVERAGE => "SOURCE_COVERAGE"
    | SOURCE_KIND => "SOURCE_KIND"
    | BUCKET => "BUCKET"
    | EXCLUSION => "EXCLUSION"
    | BLOCKING_DIMENSION => "BLOCKING_DIMENSION"
    | PRODUCT_IDENTITY => "PRODUCT_IDENTITY"
    | CURRENCY => "CURRENCY"
    | CADENCE => "CADENCE"
    | PRORATION => "PRORATION"
    | FROZEN_CONTENT => "FROZEN_CONTENT"
    | PARITY => "PARITY"
    end
|}.
Next Obligation. enum_nodup. Qed.
Next Obligation. enum_complete. Qed.
End TallySubject.


(** The classes, as [REPORT_ENUMS] lists them. *)
Inductive enum_type :=
  | SourceKind_class
  | SourceCoverage_class
  | Bucket_class
  | ExclusionReason_class
  | Dimension_class
  | ProductIdentityOutcome_class
  | CurrencyOutcome_class
  | CadenceOutcome_class
  | ProrationOutcome_class
  | FrozenContentOutcome_class
  | ParityVerdict_class
  | ParitySubject_class
  | TallySubject_class.
#[export] Instance enum_type_eq_dec : EqDecision enum_type.
Proof. solve_decision. Defined.

(** A member of some [ReportEnum]. *)
Inductive member :=
  | of_SourceKind (x : SourceKind.t)
  | of_SourceCoverage (x : SourceCoverage.t)
  | of_Bucket (x : Bucket.t)
  | of_ExclusionReason (x : ExclusionReason.t)
  | of_Dimension (x : Dimension.t)
  | of_ProductIdentityOutcome (x : ProductIdentityOutcome.t)
  | of_CurrencyOutcome (x : CurrencyOutcome.t)
  | of_CadenceOutcome (x : CadenceOutcome.t)
  | of_ProrationOutcome (x : ProrationOutcome.t)
  | of_FrozenContentOutcome (x : FrozenContentOutcome.t)
  | of_ParityVerdict (x : ParityVerdict.t)
  | of_ParitySubject (x : ParitySubject.t)
  | of_TallySubject (x : TallySubject.t).
#[export] Instance member_eq_dec : EqDecision member.
Proof. solve_decision. Defined.

Coercion of_SourceKind : SourceKind.t >-> member.
Coercion of_SourceCoverage : SourceCoverage.t >-> member.
Coercion of_Bucket : Bucket.t >-> member.
Coercion of_ExclusionReason : ExclusionReason.t >-> member.
Coercion of_Dimension : Dimension.t >-> member.
Coercion of_ProductIdentityOutcome : ProductIdentityOutcome.t >-> member.
Coercion of_CurrencyOutcome : CurrencyOutcome.t >-> member.
Coercion of_CadenceOutcome : CadenceOutcome.t >-> member.
Coercion of_ProrationOutcome : ProrationOutcome.t >-> member.
Coercion of_FrozenContentOutcome : FrozenContentOutcome.t >-> member.
Coercion of_ParityVerdict : ParityVerdict.t >-> member.
Coercion of_ParitySubject : ParitySubject.t >-> member.
Coercion of_TallySubject : TallySubject.t >-> member.

Definition class_of (m : member) : enum_type :=
  match m with
  | of_SourceKind _ => SourceKind_class
  | of_SourceCoverage _ => SourceCoverage_class
  | of_Bucket _ => Bucket_class
  | of_ExclusionReason _ => ExclusionReason_class
  | of_Dimension _ => Dimension_class
  | of_ProductIdentityOutcome _ => ProductIdentityOutcome_class
  | of_CurrencyOutcome _ => CurrencyOutcome_class
  | of_CadenceOutcome _ => CadenceOutcome_class
  | of_ProrationOutcome _ => ProrationOutcome_class
  | of_FrozenContentOutcome _ => FrozenContentOutcome_class
  | of_ParityVerdict _ => ParityVerdict_class
  | of_ParitySubject _ => ParitySubject_class
  | of_TallySubject _ => TallySubject_class
  end.

(** [isinstance(m, cls)]. *)
Definition isinstance (m : member) (cls : enum_type) : bool :=
  bool_decide (class_of m = cls).

(** Iterating a class. *)
Definition class_members (cls : enum_type) : list member :=
  match cls with
  | SourceKind_class => of_SourceKind <$> members
  | SourceCoverage_class => of_SourceCoverage <$> members
  | Bucket_class => of_Bucket <$> members
  | ExclusionReason_class => of_ExclusionReason <$> members
  | Dimension_class => of_Dimension <$> members
  | ProductIdentityOutcome_class => of_ProductIdentityOutcome <$> members
  | CurrencyOutcome_class => of_CurrencyOutcome <$> members
  | CadenceOutcome_class => of_CadenceOutcome <$> members
  | ProrationOutcome_class => of_ProrationOutcome <$> members
  | FrozenContentOutcome_class => of_FrozenContentOutcome <$> members
  | ParityVerdict_class => of_ParityVerdict <$> members
  | ParitySubject_class => of_ParitySubject <$> members
  | TallySubject_class => of_TallySubject <$> members
  end.

(** [m.name]. *)
Definition member_name (m : member) : string :=
  match m with
  | of_SourceKind x => name x
  | of_SourceCoverage x => name x
  | of_Bucket x => name x
  | of_ExclusionReason x => name x
  | of_Dimension x => name x
  | of_ProductIdentityOutcome x => name x
  | of_CurrencyOutcome x => name x
  | of_CadenceOutcome x => name x
  | of_ProrationOutcome x => name x
  | of_FrozenContentOutcome x => name x
  | of_ParityVerdict x => name x
  | of_ParitySubject x => name x
  | of_TallySubject x => name x
  end.

Definition DIMENSION_ORDER : list Dimension.t :=
  [Dimension.PRODUCT_IDENTITY;
   Dimension.CURRENCY;
   Dimension.CADENCE;
   Dimension.PRORATION;
   Dimension.FROZEN_CONTENT].

Definition BLOCKING_OUTCOMES : list member :=
  [of_ProductIdentityOutcome ProductIdentityOutcome.CODE_ABSENT;
   of_ProductIdentityOutcome ProductIdentityOutcome.CODE_UNTRIMMED;
   of_ProductIdentityOutcome ProductIdentityOutcome.CODE_UNDECLARED;
   of_ProductIdentityOutcome ProductIdentityOutcome.MULTI_PRODUCT_AGREEMENT;
   of_CurrencyOutcome CurrencyOutcome.CODE_UNKNOWN;
   of_CurrencyOutcome CurrencyOutcome.NOT_DECIMAL;
   of_CurrencyOutcome CurrencyOutcome.NOT_QUANTIZED;
   of_CurrencyOutcome CurrencyOutcome.NEGATIVE;
   of_CurrencyOutcome CurrencyOutcome.MIXED_CURRENCY_AGREEMENT;
   of_CadenceOutcome CadenceOutcome.INDETERMINATE;
   of_CadenceOutcome CadenceOutcome.TERM_NOT_POSITIVE;
   of_CadenceOutcome CadenceOutcome.TERM_OPEN_ENDED;
   of_ProrationOutcome ProrationOutcome.ANCHOR_INDETERMINATE;
   of_FrozenContentOutcome FrozenContentOutcome.NOT_FROZEN;
   of_FrozenContentOutcome FrozenContentOutcome.STALE_AGAINST_ACTIVATION;
   of_FrozenContentOutcome FrozenContentOutcome.DIGEST_EMPTY;
   of_FrozenContentOutcome FrozenContentOutcome.DIGEST_ALREADY_PREFIXED;
   of_FrozenContentOutcome FrozenContentOutcome.DIGEST_WRONG_LENGTH;
   of_FrozenContentOutcome FrozenContentOutcome.DIGEST_UPPERCASE;
   of_FrozenContentOutcome FrozenContentOutcome.DIGEST_NON_HEX].

Definition TALLY_DOMAIN (s : TallySubject.t) : enum_type :=
  match s with
  | TallySubject.SOURCE_COVERAGE => SourceCoverage_class
  | TallySubject.SOURCE_KIND => SourceKind_class
  | TallySubject.BUCKET => Bucket_class
  | TallySubject.EXCLUSION => ExclusionReason_class
  | TallySubject.BLOCKING_DIMENSION => Dimension_class
  | TallySubject.PRODUCT_IDENTITY => ProductIdentityOutcome_class
  | TallySubject.CURRENCY => CurrencyOutcome_class
  | TallySubject.CADENCE => CadenceOutcome_class
  | TallySubject.PRORATION => ProrationOutcome_class
  | TallySubject.FROZEN_CONTENT => FrozenContentOutcome_class
  | TallySubject.PARITY => ParityVerdict_class
  end.

Definition DIMENSION_SUBJECT (d : Dimension.t) : TallySubject.t :=
  match d with
  | Dimension.PRODUCT_IDENTITY => TallySubject.PRODUCT_IDENTITY
  | Dimension.CURRENCY => TallySubject.CURRENCY
  | Dimension.CADENCE => TallySubject.CADENCE
  | Dimension.PRORATION => TallySubject.PRORATION
  | Dimension.FROZEN_CONTENT => TallySubject.FROZEN_CONTENT
  end.

Definition DIMENSIONS_BY_SOURCE_KIND (k : SourceKind.t) : list Dimension.t :=
  match k with
  | SourceKind.OFFER_VERSION => [Dimension.PRODUCT_IDENTITY; Dimension.CURRENCY]
  | SourceKind.AGREEMENT_LINE => DIMENSION_ORDER
  end.

Definition REPORT_ENUMS : list enum_type :=
  [SourceKind_class;
   SourceCoverage_class;
   Bucket_class;
   ExclusionReason_class;
   Dimension_class;
   ProductIdentityOutcome_class;
   CurrencyOutcome_class;
   CadenceOutcome_class;
   ProrationOutcome_class;
   FrozenContentOutcome_class;
   ParityVerdict_class;
   ParitySubject_class;
   TallySubject_class].

(** ** Lemmas *)

Lemma REPORT_ENUMS_complete cls : cls ∈ REPORT_ENUMS.
Proof. revert cls. enum_complete. Qed.

Lemma class_members_spec m cls : m ∈ class_members cls ↔ class_of m = cls.
Proof.
  split.
  - destruct cls; cbn [class_members]; intros (x & -> & _)%list_elem_of_fmap; done.
  - intros <-. destruct m; cbn [class_members class_of];
      apply list_elem_of_fmap_2, members_complete.
Qed.

Lemma class_members_NoDup cls : NoDup (class_members cls).
Proof.
  destruct cls; cbn [class_members]; apply NoDup_fmap_2;
    try apply members_NoDup; by intros ?? [=].
Qed.

Lemma isinstance_spec m cls : isinstance m cls = true ↔ m ∈ class_members cls.
Proof. unfold isinstance. by rewrite bool_decide_eq_true, class_members_spec. Qed.

(** Every dimension is tallied under its own subject. *)
#[export] Instance DIMENSION_SUBJECT_inj : Inj (=) (=) DIMENSION_SUBJECT.
Proof. by intros [] []. Qed.
