(* ===== verification/PyUuid.v ===== *)
(** * UUID values

    A Python [UUID] is its 128-bit integer.  [uuid_hex] is [u.hex] and
    [uuid_str] is [str(u)]. *)

From S2P Require Import Prelude PyText.

#[local] Open Scope Z_scope.

Abbreviation uuid := Z.

Definition valid_uuid (u : uuid) : Prop := 0 ≤ u < 2 ^ 128.

(** One lowercase hexadecimal digit. *)
Definition hexd (n : Z) : Z := if n <? 10 then 48 + n else 87 + n.

(** [n] in [k] hexadecimal digits. *)
Fixpoint hex_digits (k : nat) (n : Z) : pystr :=
  match k with
  | O => []
  | S k => hex_digits k (n / 16) ++ [hexd (n mod 16)]
  end.

Definition uuid_hex (u : uuid) : pystr := hex_digits 32 u.

Definition slice (i j : nat) (s : pystr) : pystr := take (j - i) (drop i s).

Definition uuid_str (u : uuid) : pystr :=
  let hex := uuid_hex u in
  slice 0 8 hex ++ [45] ++ slice 8 12 hex ++ [45] ++ slice 12 16 hex ++ [45] ++
  slice 16 20 hex ++ [45] ++ drop 20 hex.

(** ** Lemmas *)

Lemma hexd_lower n : 0 ≤ n < 16 → hex_lower (hexd n) = true.
Proof.
  intros Hn. unfold hexd, hex_lower, between. apply orb_true_iff.
  rewrite !andb_true_iff, !Z.leb_le. case_match; bool_hyps; lia.
Qed.

Lemma hexd_inj m n : 0 ≤ m < 16 → 0 ≤ n < 16 → hexd m = hexd n → m = n.
Proof. unfold hexd. intros. repeat case_match; bool_hyps; lia. Qed.

Lemma hex_digits_length k n : length (hex_digits k n) = k.
Proof.
  revert n. induction k as [|k IH]; intros n; simpl; [done|].
  rewrite length_app, IH. simpl. lia.
Qed.

Lemma hex_digits_lower k n : forallb hex_lower (hex_digits k n) = true.
Proof.
  revert n. induction k as [|k IH]; intros n; cbn [hex_digits]; [done|].
  rewrite forallb_app, IH. simpl. rewrite hexd_lower; [done|].
  by apply Z.mod_pos_bound.
Qed.

Lemma hex_digits_inj k m n :
  0 ≤ m < 16 ^ Z.of_nat k → 0 ≤ n < 16 ^ Z.of_nat k →
  hex_digits k m = hex_digits k n → m = n.
Proof.
  revert m n. induction k as [|k IH]; intros m n Hm Hn; cbn [hex_digits].
  { simpl in *. lia. }
  rewrite Nat2Z.inj_succ, Z.pow_succ_r in Hm, Hn by lia.
  intros [Hq Hr]%app_inj_2; [|done]. injection Hr as Hr.
  apply hexd_inj in Hr; [|by apply Z.mod_pos_bound..].
  apply IH in Hq; [rewrite (Z.div_mod m 16), (Z.div_mod n 16); lia| |];
    (split; [apply Z.div_pos; lia|apply Z.div_lt_upper_bound; lia]).
Qed.

Lemma uuid_hex_inj u v : valid_uuid u → valid_uuid v → uuid_hex u = uuid_hex v → u = v.
Proof. intros Hu Hv. by apply hex_digits_inj. Qed.

(** ** [UUID(s)] *)

(** [s.replace(pat, "")]. *)
Fixpoint remove_sub_fuel (fuel : nat) (pat s : pystr) : pystr :=
  match fuel, s with
  | O, _ => s
  | _, [] => []
  | S fuel, c :: s' =>
      if starts_with pat s then remove_sub_fuel fuel pat (drop (length pat) s)
      else c :: remove_sub_fuel fuel pat s'
  end.
Definition remove_sub (pat s : pystr) : pystr := remove_sub_fuel (length s) pat s.

Definition hexval (c : Z) : option Z :=
  if between 48 57 c then Some (c - 48)
  else if between 97 102 c then Some (c - 87)
  else if between 65 70 c then Some (c - 55) else None.

(** The digits of [int(s, 16)], with single underscores between them: the value
    and what is left. *)
Fixpoint int16_digits (after_underscore : bool) (acc : Z) (s : pystr) : option (Z * pystr) :=
  match s with
  | [] => if after_underscore then None else Some (acc, [])
  | c :: s' =>
      if c =? 95 then
        if after_underscore then None else int16_digits true acc s'
      else match hexval c with
           | Some v => int16_digits false (acc * 16 + v) s'
           | None => if after_underscore then None else Some (acc, s)
           end
  end.

Section parse.
Context `{UDB : UnicodeDB}.

(** [int] first maps Unicode white space and digits to ASCII. *)
Definition int_char (c : Z) : Z :=
  if c <? 128 then c else if ucd_space c then 32
  else match ucd_decimal c with Some v => 48 + v | None => 63 end.

Definition c_space (c : Z) : bool := between 9 13 c || (c =? 32).

Definition int16_unsigned (s : pystr) : option Z :=
  let s := match s with
           | a :: b :: s' =>
               if (a =? 48) && ((b =? 120) || (b =? 88))
               then match s' with c :: s'' => if c =? 95 then s'' else s' | [] => s' end
               else s
           | _ => s
           end in
  '(v, rest) ← int16_digits true 0 s;
  if bool_decide (drop_while c_space rest = []) then Some v else None.

(** [int(s, 16)]. *)
Definition int16 (s : pystr) : option Z :=
  match drop_while c_space (int_char <$> s) with
  | c :: s' =>
      if c =? 43 then int16_unsigned s'
      else if c =? 45 then Z.opp <$> int16_unsigned s'
      else int16_unsigned (c :: s')
  | [] => None
  end.

(** The digits of [int(s)], with single underscores between them: the value, how
    many digits, and what is left. *)
Fixpoint int10_digits (after_underscore : bool) (n : nat) (acc : Z) (s : pystr)
    : option (Z * nat * pystr) :=
  match s with
  | [] => if after_underscore then None else Some (acc, n, [])
  | c :: s' =>
      if c =? 95 then
        if after_underscore then None else int10_digits true n acc s'
      else if between 48 57 c then int10_digits false (S n) (acc * 10 + (c - 48)) s'
      else if after_underscore then None else Some (acc, n, s)
  end.

(** No more than [sys.int_info.default_max_str_digits] digits. *)
Definition int10_unsigned (s : pystr) : option Z :=
  '(v, n, rest) ← int10_digits true 0 0 s;
  if bool_decide (drop_while c_space rest = [] ∧ (n ≤ 4300)%nat) then Some v else None.

(** [int(s)]. *)
Definition int10 (s : pystr) : option Z :=
  match drop_while c_space (int_char <$> s) with
  | c :: s' =>
      if c =? 43 then int10_unsigned s'
      else if c =? 45 then Z.opp <$> int10_unsigned s'
      else int10_unsigned (c :: s')
  | [] => None
  end.

(** [UUID(s)]. *)
Definition UUID (s : pystr) : res uuid :=
  let hex := remove_sub (lit "uuid:") (remove_sub (lit "urn:") s) in
  let hex := filter (λ c, c ≠ 45) (strip_by (λ c, (c =? 123) || (c =? 125)) hex) in
  ensure (bool_decide (length hex = 32%nat))
    (Exn ValueError "badly formed hexadecimal UUID string");;
  n ← of_option (int16 hex) (Exn ValueError "invalid literal for int() with base 16: ");
  ensure ((0 <=? n) && (n <? 2 ^ 128)) (Exn ValueError "int is out of range (need a 128-bit value)");;
  Ok n.

(** ** Lemmas: reading back what was printed *)

Lemma remove_sub_absent pat s c : c ∈ pat → (c ∉ s) → remove_sub pat s = s.
Proof.
  intros Hp. unfold remove_sub. generalize (length s). intros fuel. revert s.
  induction fuel as [|fuel IH]; intros s Hs; [done|]. destruct s as [|d s]; [done|].
  cbn [remove_sub_fuel]. destruct (starts_with pat (d :: s)) eqn:Hst.
  - apply starts_with_spec in Hst as [t Ht]. exfalso. apply Hs. rewrite Ht.
    apply elem_of_app. by left.
  - f_equal. apply IH. intros Hin. apply Hs. by right.
Qed.

Lemma hexval_hexd n : 0 ≤ n < 16 → hexval (hexd n) = Some n.
Proof.
  intros Hn. unfold hexd, hexval, between.
  destruct (Z.ltb_spec n 10).
  - rewrite (proj2 (andb_true_iff _ _)) by (rewrite !Z.leb_le; lia). f_equal. lia.
  - rewrite (proj2 (Z.leb_gt (87 + n) 57)) by lia. rewrite andb_false_r.
    rewrite (proj2 (andb_true_iff _ _)) by (rewrite !Z.leb_le; lia). f_equal. lia.
Qed.

Lemma hexd_not_underscore n : 0 ≤ n < 16 → (hexd n =? 95) = false.
Proof. intros Hn. unfold hexd. apply Z.eqb_neq. case_match; bool_hyps; lia. Qed.

Lemma int16_digits_hex k n acc us s :
  (0 < k)%nat →
  int16_digits us acc (hex_digits k n ++ s) =
    int16_digits false (acc * 16 ^ Z.of_nat k + n mod 16 ^ Z.of_nat k) s.
Proof.
  revert n acc us s. induction k as [|k IH]; intros n acc us s Hk; [lia|].
  cbn [hex_digits]. rewrite <- app_assoc. cbn [app].
  pose proof (Z.mod_pos_bound n 16 ltac:(lia)) as Hr.
  assert (Hstep : ∀ a u t, int16_digits u a (hexd (n mod 16) :: t) =
                           int16_digits false (a * 16 + n mod 16) t).
  { intros a u t. cbn [int16_digits]. by rewrite hexd_not_underscore, hexval_hexd. }
  destruct k as [|k].
  - cbn [hex_digits app]. rewrite Hstep. do 2 f_equal.
  - rewrite IH by lia. rewrite Hstep. f_equal.
    rewrite (Nat2Z.inj_succ (S k)), Z.pow_succ_r by lia.
    set (P := 16 ^ Z.of_nat (S k)). assert (0 < P) by (apply Z.pow_pos_nonneg; lia).
    rewrite (Z.rem_mul_r n 16 P) by lia. ring.
Qed.

Lemma uuid_str_split u :
  ∃ a b c d e, uuid_hex u = a ++ b ++ c ++ d ++ e ∧
    uuid_str u = a ++ [45] ++ b ++ [45] ++ c ++ [45] ++ d ++ [45] ++ e.
Proof.
  set (h := uuid_hex u).
  exists (slice 0 8 h), (slice 8 12 h), (slice 12 16 h), (slice 16 20 h), (drop 20 h).
  split; reflexivity.
Qed.

Lemma hex_lower_elem c s : forallb hex_lower s = true → c ∈ s → hex_lower c = true.
Proof. rewrite forallb_forall. intros Hs Hc%list_elem_of_In. auto. Qed.

Lemma hex_lower_not_brace c : hex_lower c = true → (c =? 123) || (c =? 125) = false.
Proof.
  unfold hex_lower, between. rewrite orb_true_iff, !andb_true_iff, !Z.leb_le.
  intros Hc. apply orb_false_iff. rewrite !Z.eqb_neq. lia.
Qed.

Lemma strip_by_hex (p : Z → bool) s : (∀ x, x ∈ s → p x = false) → strip_by p s = s.
Proof.
  intros Hs. apply strip_by_id, forallb_forall. intros x Hx%list_elem_of_In.
  by rewrite Hs.
Qed.

Lemma filter_hex s : forallb hex_lower s = true → filter (λ x, x ≠ 45) s = s.
Proof.
  induction s as [|c s IH]; simpl; intros Hs; [done|]. bool_hyps.
  rewrite filter_cons_True; [by rewrite IH|]. by intros ->.
Qed.

Lemma int_char_hex s : forallb hex_lower s = true → int_char <$> s = s.
Proof.
  induction s as [|c s IH]; csimpl; intros Hs; [done|]. bool_hyps.
  rewrite IH by done. f_equal. unfold int_char. rewrite (proj2 (Z.ltb_lt c 128)); [done|].
  unfold hex_lower, between in *. rewrite orb_true_iff, !andb_true_iff, !Z.leb_le in *. lia.
Qed.

Lemma int16_hex u : valid_uuid u → int16 (uuid_hex u) = Some u.
Proof.
  intros Hu. unfold int16. rewrite int_char_hex by apply hex_digits_lower.
  assert (Hc : ∀ c, hex_lower c = true →
    c_space c = false ∧ (c =? 43) = false ∧ (c =? 45) = false ∧ (c =? 120) = false ∧
    (c =? 88) = false).
  { intros c. unfold hex_lower, c_space, between.
    rewrite orb_true_iff, !andb_true_iff, !Z.leb_le. intros Hc.
    rewrite orb_false_iff, andb_false_iff, !Z.leb_gt, !Z.eqb_neq. lia. }
  assert (Hlen : length (uuid_hex u) = 32%nat) by apply hex_digits_length.
  pose proof (hex_digits_lower 32 u) as Hl. fold (uuid_hex u) in Hl.
  assert (Hv : int16_digits true 0 (uuid_hex u) = Some (u, [])).
  { unfold uuid_hex. rewrite <- (app_nil_r (hex_digits 32 u)).
    rewrite int16_digits_hex by lia. cbn [int16_digits]. do 2 f_equal.
    rewrite Z.mod_small; [lia|]. exact Hu. }
  destruct (uuid_hex u) as [|a [|b h]]; try done. simpl in Hl. bool_hyps.
  destruct (Hc a) as (Ha & Ha43 & Ha45 & _); [done|].
  destruct (Hc b) as (_ & _ & _ & Hb1 & Hb2); [done|].
  cbn [drop_while]. rewrite Ha, Ha43, Ha45. unfold int16_unsigned.
  rewrite Hb1, Hb2. cbn [orb]. rewrite andb_false_r. rewrite Hv. done.
Qed.

(** Reading a canonical spelling gives the value back. *)
Lemma UUID_of_str u : valid_uuid u → UUID (uuid_str u) = Ok u.
Proof.
  intros Hu. destruct (uuid_str_split u) as (a & b & c & d & e & Hh & Hs).
  pose proof (hex_digits_lower 32 u) as Hl. fold (uuid_hex u) in Hl.
  assert (Hin : ∀ x, x ∈ uuid_str u → x = 45 ∨ x ∈ uuid_hex u).
  { intros x. rewrite Hs, Hh, !elem_of_app, !list_elem_of_singleton. tauto. }
  assert (Hch : ∀ x, x ∈ uuid_str u → x = 45 ∨ hex_lower x = true).
  { intros x [?|?]%Hin; [by left|right; by eapply hex_lower_elem]. }
  unfold UUID. rewrite (remove_sub_absent (lit "urn:") _ 58).
  2:{ apply (bool_decide_unpack _). vm_compute. exact I. }
  2:{ intros Hx. by apply Hch in Hx as [?|?]. }
  rewrite (remove_sub_absent (lit "uuid:") _ 58).
  2:{ apply (bool_decide_unpack _). vm_compute. exact I. }
  2:{ intros Hx. by apply Hch in Hx as [?|?]. }
  rewrite strip_by_hex by (intros x Hx; apply Hch in Hx as [->|Hx]; [done|by apply hex_lower_not_brace]).
  assert (Hf : filter (λ x, x ≠ 45) (uuid_str u) = uuid_hex u).
  { rewrite Hs, Hh, !filter_app. rewrite Hh, !forallb_app in Hl. bool_hyps.
    cbn [filter list_filter]. simpl. rewrite !filter_hex by done. done. }
  rewrite Hf. rewrite bool_decide_true by apply hex_digits_length.
  cbn [ensure mbind res_bind]. rewrite int16_hex by done. cbn [of_option mbind res_bind].
  unfold valid_uuid in Hu. rewrite (proj2 (andb_true_iff _ _)); [done|].
  rewrite Z.leb_le, Z.ltb_lt. done.
Qed.

End parse.
