(* ===== verification/Json.v ===== *)
(** * JSON text

    The documents the program hands out and hashes, and Python's
    [json.dumps] on them ([sort_keys=True], [ensure_ascii=True]) in the two
    layouts the code asks for: [indent=2], and the compact one with
    [separators=(",", ":")].  A [dict] is its items in insertion order, with
    distinct keys.  No document the program writes holds a float; one it reads
    may, and is kept as its [repr] ([inf] when it overflows). *)

From S2P Require Import Prelude PyText.

#[local] Open Scope Z_scope.

#[local] Set Warnings "-register-all".
Inductive json :=
  | JNull
  | JBool (b : bool)
  | JInt (n : Z)
  | JFloat (repr : pystr)
  | JStr (s : pystr)
  | JArr (l : list json)
  | JObj (kvs : list (pystr * json)).

Abbreviation dict := (list (pystr * json)).

(** [indent=2], or the compact separators. *)
Inductive layout := Indented | Compact.

Definition str_of_int (n : Z) : pystr :=
  if n <? 0 then 45 :: dec (- n) else dec n.

(** Four lowercase hexadecimal digits. *)
Definition hex4 (n : Z) : pystr :=
  let d (v : Z) := if v <? 10 then 48 + v else 87 + v in
  [d (n / 4096 mod 16); d (n / 256 mod 16); d (n / 16 mod 16); d (n mod 16)].

(** [json.encoder.py_encode_basestring_ascii], one code point. *)
Definition json_char (c : Z) : pystr :=
  if c =? 34 then [92; 34]
  else if c =? 92 then [92; 92]
  else if c =? 10 then [92; 110]
  else if c =? 13 then [92; 114]
  else if c =? 9 then [92; 116]
  else if c =? 12 then [92; 102]
  else if c =? 8 then [92; 98]
  else if between 32 126 c then [c]
  else if c <? 65536 then 92 :: 117 :: hex4 c
  else let n := c - 65536 in
       (92 :: 117 :: hex4 (Z.lor 55296 (Z.land (Z.shiftr n 10) 1023))) ++
       (92 :: 117 :: hex4 (Z.lor 56320 (Z.land n 1023))).
Definition json_str (s : pystr) : pystr := 34 :: (s ≫= json_char) ++ [34].

(** [json.encoder.floatstr], with [allow_nan]. *)
Definition json_float (r : pystr) : pystr :=
  if bool_decide (r = lit "inf") then lit "Infinity"
  else if bool_decide (r = lit "-inf") then lit "-Infinity" else r.

(** A line break and the indentation of depth [lvl]. *)
Definition newline (st : layout) (lvl : nat) : pystr :=
  match st with
  | Indented => 10 :: replicate (2 * lvl) 32
  | Compact => []
  end.
Definition colon (st : layout) : pystr :=
  match st with Indented => lit ": " | Compact => lit ":" end.

(** [open], the items one per line, [close]. *)
Definition bracketed (st : layout) (lvl : nat) (o c : Z) (items : list pystr) : pystr :=
  match items with
  | [] => [o; c]
  | _ => o :: newline st (S lvl) ++ join (44 :: newline st (S lvl)) items ++
         newline st lvl ++ [c]
  end.

Definition key_leb {A} (x y : pystr * A) : bool := text_leb x.1 y.1.

Fixpoint dumps_at (st : layout) (lvl : nat) (j : json) : pystr :=
  match j with
  | JNull => lit "null"
  | JBool true => lit "true"
  | JBool false => lit "false"
  | JInt n => str_of_int n
  | JFloat r => json_float r
  | JStr s => json_str s
  | JArr l => bracketed st lvl 91 93 (map (dumps_at st (S lvl)) l)
  | JObj kvs =>
      bracketed st lvl 123 125
        (map (λ kv, json_str kv.1 ++ colon st ++ kv.2)
          (sort_by key_leb (map (λ '(k, v), (k, dumps_at st (S lvl) v)) kvs)))
  end.

(** [json.dumps(j, indent=2, sort_keys=True)] and
    [json.dumps(j, sort_keys=True, separators=(",", ":"), ensure_ascii=True)]. *)
Definition dumps_indented (j : json) : pystr := dumps_at Indented 0 j.
Definition dumps_compact (j : json) : pystr := dumps_at Compact 0 j.

(** ** [str] of a JSON value *)

Section text.
(** [str.isprintable] of one code point outside ASCII. *)
Context (printable : Z → bool).

(** [h] in [k] lowercase hexadecimal digits. *)
Definition hex2 (n : Z) : pystr := drop 2 (hex4 n).
Definition hex8 (n : Z) : pystr := hex4 (n / 65536) ++ hex4 (n mod 65536).

(** [repr] of a text: single quotes unless only they occur in it. *)
Definition repr_char (quote c : Z) : pystr :=
  if (c =? quote) || (c =? 92) then [92; c]
  else if c =? 9 then [92; 116]
  else if c =? 10 then [92; 110]
  else if c =? 13 then [92; 114]
  else if (c <? 32) || (c =? 127) then 92 :: 120 :: hex2 c
  else if c <? 127 then [c]
  else if printable c then [c]
  else if c <? 256 then 92 :: 120 :: hex2 c
  else if c <? 65536 then 92 :: 117 :: hex4 c
  else 92 :: 85 :: hex8 c.
Definition py_repr_str (s : pystr) : pystr :=
  let quote := if bool_decide (39 ∈ s) && negb (bool_decide (34 ∈ s)) then 34 else 39 in
  quote :: (s ≫= repr_char quote) ++ [quote].

Fixpoint py_repr (j : json) : pystr :=
  match j with
  | JNull => lit "None"
  | JBool true => lit "True"
  | JBool false => lit "False"
  | JInt n => str_of_int n
  | JFloat r => r
  | JStr s => py_repr_str s
  | JArr l => 91 :: join (lit ", ") (map py_repr l) ++ [93]
  | JObj kvs =>
      123 :: join (lit ", ") (map (λ '(k, v), py_repr_str k ++ lit ": " ++ py_repr v) kvs) ++ [125]
  end.

(** [str(j)]. *)
Definition py_str (j : json) : pystr := match j with JStr s => s | _ => py_repr j end.
End text.

Example dumps_compact_ex :
  dumps_compact (JObj [(lit "b", JArr [JInt (-12); JNull; JBool true]); (lit "a", JStr [34; 233; 10])]) =
  lit "{" ++ [34; 97; 34] ++ lit ":" ++ [34; 92; 34] ++ lit "\u00e9\n" ++ [34] ++ lit "," ++
  [34; 98; 34] ++ lit ":[-12,null,true]}".
Proof. reflexivity. Qed.

Example dumps_indented_ex :
  dumps_indented (JObj [(lit "a", JArr [JInt 1; JArr []])]) =
  lit "{" ++ [10] ++ lit "  " ++ [34; 97; 34] ++ lit ": [" ++ [10] ++ lit "    1," ++ [10] ++
  lit "    []" ++ [10] ++ lit "  ]" ++ [10] ++ lit "}".
Proof. reflexivity. Qed.
