(* ===== verification/JsonReader.v ===== *)
(** * Reading JSON

    Python's [json.loads] on bytes, as [deploy_agent/contracts.py] calls it:
    the encoding is detected and decoded, the text is scanned by the strict
    scanner, a repeated key and the constants NaN and Infinity are refused.
    Every failure ends in the same [ContractError], so the reader answers an
    [option].  The text of a float is turned into its [repr] by the
    interpreter, the class [Floats].  The interpreter's limit on nesting is
    not modelled. *)

From S2P Require Import Prelude PyText Json.

#[local] Open Scope Z_scope.

Abbreviation bytes := (list Z).

(** ** Decoding *)

(** The well-formed lead and first continuation bytes of UTF-8, with
    [surrogatepass]. *)
Definition utf8_head (b0 b1 : Z) : bool :=
  if b0 =? 224 then between 160 191 b1
  else if b0 =? 240 then between 144 191 b1
  else if b0 =? 244 then between 128 143 b1
  else between 128 191 b1.

(** One code point and the bytes after it. *)
Definition utf8_next (s : bytes) : option (Z * bytes) :=
  match s with
  | [] => None
  | b0 :: s1 =>
      if b0 <? 128 then Some (b0, s1)
      else if between 194 223 b0 then
        match s1 with
        | b1 :: s2 => if between 128 191 b1 then Some ((b0 - 192) * 64 + (b1 - 128), s2) else None
        | _ => None
        end
      else if between 224 239 b0 then
        match s1 with
        | b1 :: b2 :: s3 =>
            if utf8_head b0 b1 && between 128 191 b2
            then Some ((b0 - 224) * 4096 + (b1 - 128) * 64 + (b2 - 128), s3) else None
        | _ => None
        end
      else if between 240 244 b0 then
        match s1 with
        | b1 :: b2 :: b3 :: s4 =>
            if utf8_head b0 b1 && between 128 191 b2 && between 128 191 b3
            then Some ((b0 - 240) * 262144 + (b1 - 128) * 4096 + (b2 - 128) * 64 + (b3 - 128), s4)
            else None
        | _ => None
        end
      else None
  end.

Fixpoint utf8 (fuel : nat) (s : bytes) : option pystr :=
  match fuel, s with
  | _, [] => Some []
  | O, _ => None
  | S fuel, _ => '(c, s) ← utf8_next s; t ← utf8 fuel s; Some (c :: t)
  end.

(** The code units of UTF-16 and UTF-32, big- or little-endian. *)
Definition ordered (little : bool) (l : bytes) : bytes := if little then reverse l else l.
Definition unit_of (little : bool) (l : bytes) : Z :=
  foldl (λ a b, a * 256 + b) 0 (ordered little l).
Fixpoint units16 (little : bool) (s : bytes) : option (list Z) :=
  match s with
  | [] => Some []
  | b0 :: b1 :: s => t ← units16 little s; Some (unit_of little [b0; b1] :: t)
  | _ => None
  end.
Fixpoint units32 (little : bool) (s : bytes) : option (list Z) :=
  match s with
  | [] => Some []
  | b0 :: b1 :: b2 :: b3 :: s =>
      let c := unit_of little [b0; b1; b2; b3] in
      t ← units32 little s; if c <=? 1114111 then Some (c :: t) else None
  | _ => None
  end.

Definition high_surrogate (c : Z) : bool := between 55296 56319 c.
Definition low_surrogate (c : Z) : bool := between 56320 57343 c.
Definition join_surrogates (h l : Z) : Z := 65536 + (h - 55296) * 1024 + (l - 56320).

(** Surrogate pairs become one code point; a lone surrogate passes. *)
Fixpoint utf16 (u : list Z) : pystr :=
  match u with
  | h :: ((l :: u') as u) =>
      if high_surrogate h && low_surrogate l then join_surrogates h l :: utf16 u'
      else h :: utf16 u
  | u => u
  end.

(** [s.decode(json.detect_encoding(s), "surrogatepass")]. *)
Definition decode (s : bytes) : option pystr :=
  let utf16_of little s := utf16 <$> units16 little s in
  if starts_with [0; 0; 254; 255] s then units32 false (drop 4 s)
  else if starts_with [255; 254; 0; 0] s then units32 true (drop 4 s)
  else if starts_with [254; 255] s then utf16_of false (drop 2 s)
  else if starts_with [255; 254] s then utf16_of true (drop 2 s)
  else if starts_with [239; 187; 191] s then utf8 (length (drop 3 s)) (drop 3 s)
  else match s with
  | b0 :: b1 :: b2 :: b3 :: _ =>
      if b0 =? 0 then (if b1 =? 0 then units32 false s else utf16_of false s)
      else if b1 =? 0 then
        (if (b2 =? 0) && (b3 =? 0) then units32 true s else utf16_of true s)
      else utf8 (length s) s
  | [b0; b1] =>
      if b0 =? 0 then utf16_of false s
      else if b1 =? 0 then utf16_of true s
      else utf8 (length s) s
  | _ => utf8 (length s) s
  end.

(** ** Scanning *)

(** [repr(float(text))]. *)
Class Floats := { float_repr : pystr → pystr }.

Definition is_ws (c : Z) : bool := (c =? 32) || (c =? 9) || (c =? 10) || (c =? 13).
Definition skip (s : pystr) : pystr := drop_while is_ws s.
Definition digit (c : Z) : bool := between 48 57 c.

Fixpoint span (p : Z → bool) (s : pystr) : pystr * pystr :=
  match s with
  | c :: s' => if p c then let '(a, b) := span p s' in (c :: a, b) else ([], s)
  | [] => ([], [])
  end.

(** [sys.int_info.default_max_str_digits]. *)
Definition MAX_STR_DIGITS : nat := 4300.

(** The fraction and the exponent of a number, where they are complete. *)
Definition fraction (s : pystr) : pystr * pystr :=
  match s with
  | 46 :: r => match span digit r with
               | ([], _) => ([], s)
               | (ds, r) => (46 :: ds, r)
               end
  | _ => ([], s)
  end.
Definition exponent (s : pystr) : pystr * pystr :=
  match s with
  | e :: r =>
      if (e =? 101) || (e =? 69) then
        let '(sign, r) := match r with
                          | c :: r' => if (c =? 43) || (c =? 45) then ([c], r') else ([], r)
                          | [] => ([], [])
                          end in
        match span digit r with
        | ([], _) => ([], s)
        | (ds, r) => (e :: sign ++ ds, r)
        end
      else ([], s)
  | [] => ([], s)
  end.

(** The digits of the integer part: a zero, or no leading zero. *)
Definition whole (s : pystr) : option (pystr * pystr) :=
  match s with
  | c :: s' => if c =? 48 then Some ([48], s')
               else if digit c then Some (span digit s) else None
  | [] => None
  end.

(** One hexadecimal digit, and the four after [\u]. *)
Definition hex_digit (c : Z) : option Z :=
  if digit c then Some (c - 48)
  else if between 97 102 c then Some (c - 87)
  else if between 65 70 c then Some (c - 55)
  else None.
Definition read_hex4 (s : pystr) : option (Z * pystr) :=
  match s with
  | a :: b :: c :: d :: s =>
      a ← hex_digit a; b ← hex_digit b; c ← hex_digit c; d ← hex_digit d;
      Some (((a * 16 + b) * 16 + c) * 16 + d, s)
  | _ => None
  end.

(** What follows a backslash. *)
Definition escape (s : pystr) : option (Z * pystr) :=
  match s with
  | c :: s =>
      if c =? 34 then Some (34, s) else if c =? 92 then Some (92, s)
      else if c =? 47 then Some (47, s) else if c =? 98 then Some (8, s)
      else if c =? 102 then Some (12, s) else if c =? 110 then Some (10, s)
      else if c =? 114 then Some (13, s) else if c =? 116 then Some (9, s)
      else if c =? 117 then
        '(h, s) ← read_hex4 s;
        match s with
        | 92 :: 117 :: s' =>
            if high_surrogate h then
              '(l, s'') ← read_hex4 s';
              if low_surrogate l then Some (join_surrogates h l, s'') else Some (h, s)
            else Some (h, s)
        | _ => Some (h, s)
        end
      else None
  | [] => None
  end.

(** A string after its opening quote. *)
Fixpoint string_rest (fuel : nat) (s : pystr) : option (pystr * pystr) :=
  match fuel, s with
  | S fuel, c :: s =>
      if c =? 34 then Some ([], s)
      else if c <? 32 then None
      else
        '(c, s) ← (if c =? 92 then escape s else Some (c, s));
        '(t, s) ← string_rest fuel s; Some (c :: t, s)
  | _, _ => None
  end.

(** The items of an array or an object after its opening bracket. *)
Fixpoint items {A} (item : pystr → option (A * pystr)) (close : Z) (fuel : nat) (s : pystr)
    : option (list A * pystr) :=
  match fuel with
  | O => None
  | S fuel =>
      '(a, s) ← item s;
      match skip s with
      | c :: s =>
          if c =? close then Some ([a], s)
          else if c =? 44 then '(l, s) ← items item close fuel (skip s); Some (a :: l, s)
          else None
      | [] => None
      end
  end.
Definition member (value : pystr → option (json * pystr)) (fuel : nat) (s : pystr)
    : option (pystr * json * pystr) :=
  match s with
  | 34 :: s =>
      '(k, s) ← string_rest fuel s;
      match skip s with
      | 58 :: s => '(v, s) ← value (skip s); Some (k, v, s)
      | _ => None
      end
  | _ => None
  end.

Section scan.
Context `{Floats}.

(** [_match_number]. *)
Definition scan_number (s : pystr) : option (json * pystr) :=
  let '(sign, s) := match s with 45 :: s => ([45], s) | _ => ([], s) end in
  '(int_, s) ← whole s;
  let '(frac, s) := fraction s in
  let '(exp_, s) := exponent s in
  match frac ++ exp_ with
  | [] =>
      if bool_decide (length int_ ≤ MAX_STR_DIGITS)%nat
      then Some (JInt (if bool_decide (sign = []) then number int_ else - number int_), s)
      else None
  | tail => Some (JFloat (float_repr (sign ++ int_ ++ tail)), s)
  end.

(** [scan_once]. *)
Fixpoint scan (fuel : nat) (s : pystr) : option (json * pystr) :=
  match fuel with
  | O => None
  | S fuel =>
      match s with
      | 34 :: s => '(t, s) ← string_rest fuel s; Some (JStr t, s)
      | 123 :: s =>
          match skip s with
          | c :: s' =>
              if c =? 125 then Some (JObj [], s')
              else '(kvs, s) ← items (member (scan fuel) fuel) 125 fuel (c :: s');
                   if bool_decide (NoDup kvs.*1) then Some (JObj kvs, s) else None
          | [] => None
          end
      | 91 :: s =>
          match skip s with
          | c :: s' =>
              if c =? 93 then Some (JArr [], s')
              else '(l, s) ← items (scan fuel) 93 fuel (c :: s'); Some (JArr l, s)
          | [] => None
          end
      | 110 :: 117 :: 108 :: 108 :: s => Some (JNull, s)
      | 116 :: 114 :: 117 :: 101 :: s => Some (JBool true, s)
      | 102 :: 97 :: 108 :: 115 :: 101 :: s => Some (JBool false, s)
      | _ => scan_number s
      end
  end.

(** [json.loads] of a text. *)
Definition loads_text (s : pystr) : option json :=
  let s := skip s in
  '(j, s) ← scan (S (length s)) s;
  match skip s with [] => Some j | _ => None end.

Definition loads (raw : bytes) : option json := decode raw ≫= loads_text.
End scan.
