(* ===== verification/JsonRound.v ===== *)
(** * JSON, there and back

    The normal form of a document (keys sorted at every level), equality of
    documents, and the round trip: what [json.dumps] writes with sorted keys
    and compact separators, [json.loads] reads back as the normal form. *)

From S2P Require Import Prelude PyText Json JsonReader.

#[local] Open Scope Z_scope.

(** ** Induction and equality *)

Section json_ind.
Context (P : json → Prop) (Hnull : P JNull) (Hbool : ∀ b, P (JBool b)) (Hint : ∀ n, P (JInt n))
  (Hfloat : ∀ r, P (JFloat r)) (Hstr : ∀ s, P (JStr s))
  (Harr : ∀ l, Forall P l → P (JArr l))
  (Hobj : ∀ kvs : dict, Forall (λ kv, P kv.2) kvs → P (JObj kvs)).

Fixpoint json_deep_ind (j : json) : P j :=
  match j with
  | JNull => Hnull
  | JBool b => Hbool b
  | JInt n => Hint n
  | JFloat r => Hfloat r
  | JStr s => Hstr s
  | JArr l =>
      Harr l ((fix go l : Forall P l :=
        match l with
        | [] => Forall_nil_2 _
        | j :: l => Forall_cons_2 _ j l (json_deep_ind j) (go l)
        end) l)
  | JObj kvs =>
      Hobj kvs ((fix go kvs : Forall (λ kv : pystr * json, P kv.2) kvs :=
        match kvs with
        | [] => Forall_nil_2 _
        | kv :: kvs => Forall_cons_2 (λ kv : pystr * json, P kv.2) kv kvs (json_deep_ind kv.2) (go kvs)
        end) kvs)
  end.
End json_ind.

#[export] Instance json_eq_dec : EqDecision json.
Proof.
  refine (fix go (a b : json) {struct a} : Decision (a = b) :=
    let dec : EqDecision json := go in
    match a, b with
    | JNull, JNull => left eq_refl
    | JBool x, JBool y => cast_if (decide (x = y))
    | JInt x, JInt y => cast_if (decide (x = y))
    | JFloat x, JFloat y => cast_if (decide (x = y))
    | JStr x, JStr y => cast_if (decide (x = y))
    | JArr x, JArr y => cast_if (decide (x = y))
    | JObj x, JObj y => cast_if (decide (x = y))
    | _, _ => right _
    end); clear dec go; abstract congruence.
Defined.

(** ** Normal forms *)

Fixpoint sorted_json (j : json) : json :=
  match j with
  | JArr l => JArr (map sorted_json l)
  | JObj kvs => JObj (sort_by key_leb (map (λ '(k, v), (k, sorted_json v)) kvs))
  | j => j
  end.

(** Equality of two documents in Python, which does not see the order of keys.
    (It also takes [True] for 1, which no comparison of the program meets.) *)
Definition same_json (a b : json) : bool := bool_decide (sorted_json a = sorted_json b).

Section keyed.
Context {A B : Type} (f : A → B).
Definition on_value (kv : pystr * A) : pystr * B := (kv.1, f kv.2).

Lemma insert_by_value kv (l : list (pystr * A)) :
  insert_by key_leb (on_value kv) (map on_value l) = map on_value (insert_by key_leb kv l).
Proof.
  induction l as [|x l IH]; [done|]. simpl. change (key_leb (on_value kv) (on_value x)) with (key_leb kv x).
  destruct (key_leb kv x); [done|]. simpl. by rewrite IH.
Qed.

Lemma sort_by_value (l : list (pystr * A)) :
  sort_by key_leb (map on_value l) = map on_value (sort_by key_leb l).
Proof.
  unfold sort_by. induction l as [|x l IH]; [done|]. cbn [map foldr]. by rewrite IH, insert_by_value.
Qed.
End keyed.

Lemma insert_by_least {A} (leb : A → A → bool) x l :
  Forall (λ y, leb x y = true) l → insert_by leb x l = x :: l.
Proof. destruct 1 as [|y l Hy]; simpl; [done|]. by rewrite Hy. Qed.

Lemma sort_by_id {A} (leb : A → A → bool) l :
  StronglySorted (λ a b, leb a b = true) l → sort_by leb l = l.
Proof.
  induction 1 as [|x l _ IH Hx]; [done|]. cbn [sort_by foldr]. unfold sort_by in IH.
  rewrite IH. by apply insert_by_least.
Qed.

Lemma sort_by_keys {A} (l : list (pystr * A)) : sort_by key_leb (sort_by key_leb l) = sort_by key_leb l.
Proof.
  apply sort_by_id, sort_by_sorted.
  - intros a b. apply text_leb_total.
  - intros a b c. apply text_leb_trans.
Qed.

Lemma map_values {A B} (f : A → B) l : map (λ '(k, v), (k, f v)) l = map (on_value f) l.
Proof. apply map_ext. by intros []. Qed.

Lemma map_id_all {A} (f : A → A) l : Forall (λ x, f x = x) l → map f l = l.
Proof. induction 1 as [|x l Hx _ IH]; simpl; congruence. Qed.

Lemma Forall_sort_by {A} (P : A → Prop) leb l : Forall P l → Forall P (sort_by leb l).
Proof. by rewrite sort_by_perm. Qed.

Lemma sorted_json_idem j : sorted_json (sorted_json j) = sorted_json j.
Proof.
  induction j as [| | | | |l IH|kvs IH] using json_deep_ind; try done; simpl; f_equal.
  - rewrite map_map. apply map_ext_Forall. by eapply Forall_impl.
  - rewrite !map_values, <- sort_by_value, sort_by_keys, sort_by_value, sort_by_value, map_map.
    apply map_ext_Forall. apply Forall_sort_by. eapply Forall_impl; [exact IH|].
    intros [k v] Hv. unfold on_value. simpl in *. by rewrite Hv.
Qed.

(** The text of a document is the text of its normal form. *)
Lemma dumps_sorted lvl j : dumps_at Compact lvl (sorted_json j) = dumps_at Compact lvl j.
Proof.
  revert lvl. induction j as [| | | | |l IH|kvs IH] using json_deep_ind; try done; intros lvl; simpl.
  - f_equal. rewrite map_map. apply map_ext_Forall. eapply Forall_impl; [exact IH|]. auto.
  - f_equal. f_equal. rewrite !map_values, <- sort_by_value, sort_by_keys, map_map. f_equal.
    apply map_ext_Forall. eapply Forall_impl; [exact IH|].
    intros [k v] Hv. unfold on_value. simpl in *. by rewrite Hv.
Qed.

(** ** Documents that come back *)

(** The largest magnitude that [int] reads and writes in decimal. *)
Definition INT_LIMIT : Z := 10 ^ Z.of_nat MAX_STR_DIGITS.

(** No high surrogate right before a low one. *)
Fixpoint unsplit (s : pystr) : bool :=
  match s with
  | h :: ((l :: _) as s) => negb (high_surrogate h && low_surrogate l) && unsplit s
  | _ => true
  end.
Definition text_ok (s : pystr) : bool := forallb (between 0 1114111) s && unsplit s.

#[local] Set Warnings "-register-all".
Inductive returns : json → Prop :=
  | returns_null : returns JNull
  | returns_bool b : returns (JBool b)
  | returns_int n : Z.abs n < INT_LIMIT → returns (JInt n)
  | returns_str s : text_ok s = true → returns (JStr s)
  | returns_arr l : Forall returns l → returns (JArr l)
  | returns_obj kvs :
      NoDup kvs.*1 → Forall (λ kv, text_ok kv.1 = true ∧ returns kv.2) kvs → returns (JObj kvs).

Lemma max_digits_pos : (0 < MAX_STR_DIGITS)%nat.
Proof. apply Nat.ltb_lt. reflexivity. Qed.

Lemma dec_limit n : 0 ≤ n → n < INT_LIMIT ↔ (length (dec n) ≤ MAX_STR_DIGITS)%nat.
Proof. intros Hn. symmetry. apply dec_length, max_digits_pos. exact Hn. Qed.
#[global] Opaque INT_LIMIT MAX_STR_DIGITS.

(** ** Strings *)

Lemma hex_digit_value v :
  0 ≤ v < 16 → hex_digit (if v <? 10 then 48 + v else 87 + v) = Some v.
Proof.
  intros Hv. assert (Hall : forallb (λ v, bool_decide (hex_digit (if v <? 10 then 48 + v else 87 + v)
    = Some v)) (seqZ 0 16) = true) by (vm_compute; reflexivity).
  rewrite forallb_forall in Hall. specialize (Hall v).
  rewrite <- list_elem_of_In, elem_of_seqZ, bool_decide_eq_true in Hall. apply Hall. lia.
Qed.

Lemma read_hex4_hex4 n rest : 0 ≤ n < 65536 → read_hex4 (hex4 n ++ rest) = Some (n, rest).
Proof.
  intros Hn. unfold hex4. cbn [app read_hex4].
  assert (H16 : ∀ m, 0 ≤ m mod 16 < 16) by (intros m; apply Z.mod_pos_bound; lia).
  rewrite !hex_digit_value by apply H16. simpl. do 2 f_equal.
  pose proof (Z.div_mod n 16 ltac:(lia)). pose proof (Z.div_mod (n / 16) 16 ltac:(lia)).
  pose proof (Z.div_mod (n / 256) 16 ltac:(lia)).
  assert (n / 16 / 16 = n / 256) by (by rewrite Z.div_div by lia).
  assert (n / 256 / 16 = n / 4096) by (by rewrite Z.div_div by lia).
  assert (n / 4096 mod 16 = n / 4096).
  { apply Z.mod_small. split; [apply Z.div_pos|apply Z.div_lt_upper_bound]; lia. }
  lia.
Qed.

Lemma lor_surrogate base x :
  base = 55296 ∨ base = 56320 → 0 ≤ x < 1024 → Z.lor base x = base + x.
Proof.
  intros Hb Hx. assert (Hall : forallb (λ x, (Z.lor 55296 x =? 55296 + x) &&
    (Z.lor 56320 x =? 56320 + x)) (seqZ 0 1024) = true) by (vm_compute; reflexivity).
  rewrite forallb_forall in Hall. specialize (Hall x).
  rewrite <- list_elem_of_In, elem_of_seqZ, andb_true_iff, !Z.eqb_eq in Hall.
  destruct Hb as [-> | ->]; apply Hall; lia.
Qed.

(** One character of a string, read. *)
Definition read_char (s : pystr) : option (Z * pystr) :=
  match s with
  | c :: s => if (c =? 34) || (c <? 32) then None else if c =? 92 then escape s else Some (c, s)
  | [] => None
  end.

(** The next character is a low surrogate, written as an escape. *)
Definition low_next (s : pystr) : Prop :=
  ∃ s' l s'', s = 92 :: 117 :: s' ∧ read_hex4 s' = Some (l, s'') ∧ low_surrogate l = true.

Lemma escape_u h s s' :
  read_hex4 s = Some (h, s') → (high_surrogate h = true → ¬ low_next s') →
  (high_surrogate h = true → ∀ r, s' = 92 :: 117 :: r → is_Some (read_hex4 r)) →
  escape (117 :: s) = Some (h, s').
Proof.
  intros Hh Hn Hr. unfold escape. cbn [Z.eqb Pos.eqb]. rewrite Hh. cbn [mbind option_bind].
  destruct s' as [|a [|b r]]; [done|by destruct a as [|[]|]; repeat case_match|].
  destruct (decide (a = 92)) as [->|Ha]; [|by repeat case_match].
  destruct (decide (b = 117)) as [->|Hb]; [|by repeat case_match].
  destruct (high_surrogate h) eqn:Hhigh; [|done].
  destruct (Hr eq_refl r eq_refl) as [[l r'] Hl]. rewrite Hl. cbn.
  destruct (low_surrogate l) eqn:Hlow; [|done]. destruct (Hn eq_refl). by exists r, l, r'.
Qed.

#[local] Ltac simple_escape := split; [reflexivity|]; split; [discriminate|]; intros; reflexivity.

Lemma shape_json_char c :
  0 ≤ c ≤ 1114111 →
  (between 32 126 c = true ∧ c ≠ 34 ∧ c ≠ 92 ∧ json_char c = [c]) ∨
  (∃ e, json_char c = [92; e] ∧ e ≠ 117 ∧ ∀ rest, escape (e :: rest) = Some (c, rest)) ∨
  (0 ≤ c < 65536 ∧ json_char c = 92 :: 117 :: hex4 c) ∨
  (65536 ≤ c ∧ ∃ h l, high_surrogate h = true ∧ low_surrogate l = true ∧ join_surrogates h l = c ∧
     json_char c = (92 :: 117 :: hex4 h) ++ (92 :: 117 :: hex4 l)).
Proof.
  intros Hc. unfold json_char.
  destruct (Z.eqb_spec c 34) as [->|]; [right; left; exists 34; simple_escape|].
  destruct (Z.eqb_spec c 92) as [->|]; [right; left; exists 92; simple_escape|].
  destruct (Z.eqb_spec c 10) as [->|]; [right; left; exists 110; simple_escape|].
  destruct (Z.eqb_spec c 13) as [->|]; [right; left; exists 114; simple_escape|].
  destruct (Z.eqb_spec c 9) as [->|]; [right; left; exists 116; simple_escape|].
  destruct (Z.eqb_spec c 12) as [->|]; [right; left; exists 102; simple_escape|].
  destruct (Z.eqb_spec c 8) as [->|]; [right; left; exists 98; simple_escape|].
  destruct (between 32 126 c) eqn:Hb; [by left|].
  destruct (Z.ltb_spec c 65536); [right; right; left; split; [lia|done]|].
  right; right; right. split; [done|]. cbv zeta.
  set (m := c - 65536). assert (0 ≤ m < 1048576) by lia.
  change 1023 with (Z.ones 10). rewrite !Z.land_ones, Z.shiftr_div_pow2 by lia. change (2 ^ 10) with 1024.
  assert (Hhi : 0 ≤ m / 1024 < 1024) by (split; [apply Z.div_pos|apply Z.div_lt_upper_bound]; lia).
  pose proof (Z.mod_pos_bound m 1024 ltac:(lia)) as Hlo.
  rewrite (Z.mod_small (m / 1024)), !lor_surrogate by (auto; lia).
  exists (55296 + m / 1024), (56320 + m mod 1024).
  unfold high_surrogate, low_surrogate, between, join_surrogates.
  rewrite !andb_true_iff, !Z.leb_le. pose proof (Z.div_mod m 1024 ltac:(lia)). split_and!; try done; lia.
Qed.

Lemma surrogate_range c : high_surrogate c = true ∨ low_surrogate c = true → 0 ≤ c < 65536.
Proof. unfold high_surrogate, low_surrogate, between. intros [H|H]; bool_hyps; lia. Qed.

(** What may follow an escaped high surrogate. *)
Definition tame (s : pystr) : Prop := ∀ r, s = 92 :: 117 :: r → is_Some (read_hex4 r).

Lemma escape_hex4 c rest :
  0 ≤ c < 65536 → (high_surrogate c = true → ¬ low_next rest) → tame rest →
  read_char ((92 :: 117 :: hex4 c) ++ rest) = Some (c, rest).
Proof.
  intros Hc Hl Ht. cbn [app read_char]. cbn [Z.eqb Z.ltb Z.compare Pos.eqb Pos.compare Pos.compare_cont orb].
  apply escape_u; auto. by apply read_hex4_hex4.
Qed.

Lemma read_json_char c rest :
  0 ≤ c ≤ 1114111 → (high_surrogate c = true → ¬ low_next rest) → tame rest →
  read_char (json_char c ++ rest) = Some (c, rest).
Proof.
  intros Hc Hl Ht. destruct (shape_json_char c Hc)
    as [(Hb & H34 & H92 & ->)|[(e & -> & _ & He)|[(Hr & ->)|(Hbig & h & l & Hh & Hlow & Hj & ->)]]].
  - cbn [app read_char]. apply andb_true_iff in Hb as [Hb%Z.leb_le _].
    rewrite (proj2 (Z.eqb_neq c 34)), (proj2 (Z.ltb_ge c 32)), (proj2 (Z.eqb_neq c 92)) by lia. done.
  - cbn [app read_char]. exact (He rest).
  - by apply escape_hex4.
  - rewrite <- app_assoc. cbn [app read_char].
    cbn [Z.eqb Z.ltb Z.compare Pos.eqb Pos.compare Pos.compare_cont orb].
    unfold escape. cbn [Z.eqb Pos.eqb].
    rewrite read_hex4_hex4 by (apply surrogate_range; auto). cbn [mbind option_bind].
    rewrite Hh, read_hex4_hex4 by (apply surrogate_range; auto). cbn [mbind option_bind].
    by rewrite Hlow, Hj.
Qed.

Lemma u_inv n rest r : (92 :: 117 :: hex4 n) ++ rest = 92 :: 117 :: r → r = hex4 n ++ rest.
Proof. cbn [app]. congruence. Qed.

Lemma next_char c s :
  0 ≤ c ≤ 1114111 → tame (json_char c ++ s) ∧ (low_next (json_char c ++ s) → low_surrogate c = true).
Proof.
  intros Hc. destruct (shape_json_char c Hc)
    as [(Hb & H34 & H92 & ->)|[(e & -> & He & _)|[(Hr & ->)|(Hbig & h & l & Hh & Hlow & Hj & ->)]]].
  - split; [intros r [= ? _]; done|]. intros (? & ? & ? & [= ? _] & _). done.
  - split; [intros r [= ? _]; done|]. intros (? & ? & ? & [= ? _] & _). done.
  - split.
    + intros r ->%u_inv. rewrite read_hex4_hex4 by done. eauto.
    + intros (r & l & s'' & ->%u_inv & Hx & Hl). rewrite read_hex4_hex4 in Hx by done. by simplify_eq.
  - pose proof (surrogate_range h (or_introl Hh)). rewrite <- app_assoc. split.
    + intros r ->%u_inv. rewrite read_hex4_hex4 by done. eauto.
    + intros (r & l' & s'' & ->%u_inv & Hx & Hl). exfalso.
      rewrite read_hex4_hex4 in Hx by done. simplify_eq.
      unfold high_surrogate, low_surrogate, between in *. bool_hyps. lia.
Qed.

Lemma string_rest_step fuel s c s' :
  read_char s = Some (c, s') →
  string_rest (S fuel) s = ('(t, s) ← string_rest fuel s'; Some (c :: t, s)).
Proof.
  destruct s as [|a s]; [done|]. cbn [read_char string_rest].
  destruct (a =? 34), (a <? 32); try done. cbn [orb]. destruct (a =? 92); [|by intros [= -> ->]].
  intros ->. done.
Qed.

Lemma string_returns s rest fuel :
  text_ok s = true → (length s < fuel)%nat →
  string_rest fuel ((s ≫= json_char) ++ 34 :: rest) = Some (s, rest).
Proof.
  unfold text_ok. intros [Hall Hun]%andb_true_iff. revert fuel.
  induction s as [|c s IH]; intros [|fuel] Hf; simpl in Hf; try lia; [done|].
  change ((c :: s) ≫= json_char) with (json_char c ++ (s ≫= json_char)). rewrite <- app_assoc.
  simpl in Hall. apply andb_true_iff in Hall as [Hc Hall]. unfold between in Hc. bool_hyps.
  assert (Hnext : tame ((s ≫= json_char) ++ 34 :: rest) ∧
    (high_surrogate c = true → ¬ low_next ((s ≫= json_char) ++ 34 :: rest))).
  { destruct s as [|c' s].
    - split; [by intros r|]. intros _ (? & ? & ? & ? & _). done.
    - change ((c' :: s) ≫= json_char) with (json_char c' ++ (s ≫= json_char)). rewrite <- app_assoc.
      simpl in Hall. apply andb_true_iff in Hall as [Hc' _]. unfold between in Hc'. bool_hyps.
      destruct (next_char c' ((s ≫= json_char) ++ 34 :: rest)) as [Ht Hl]; [lia|].
      split; [done|]. intros Hh Hn. apply Hl in Hn. simpl in Hun. rewrite Hh, Hn in Hun. done. }
  destruct Hnext as [Ht Hl].
  erewrite string_rest_step by (apply read_json_char; [lia|done|done]).
  rewrite IH; [done|done| |lia]. destruct s; [done|]. simpl in Hun. by apply andb_true_iff in Hun as [_ ?].
Qed.

(** ** Numbers *)

(** What follows a value: nothing, or what separates and closes. *)
Definition follows (rest : pystr) : Prop :=
  match rest with [] => True | c :: _ => c = 44 ∨ c = 93 ∨ c = 125 end.

Lemma span_all p l rest :
  forallb p l = true → match rest with [] => True | c :: _ => p c = false end →
  span p (l ++ rest) = (l, rest).
Proof.
  intros Hl Hr. induction l as [|c l IH]; simpl in *.
  - destruct rest as [|c rest]; [done|]. simpl. by rewrite Hr.
  - apply andb_true_iff in Hl as [Hc Hl]. by rewrite Hc, IH.
Qed.

Lemma whole_dec n rest : 0 ≤ n → follows rest → whole (dec n ++ rest) = Some (dec n, rest).
Proof.
  intros Hn Hr. destruct (dec_denotes n Hn) as [_ [->|(c & l & He & Hc)]]; [done|].
  pose proof (dec_digits n Hn) as Hd. rewrite He in *. cbn [app whole].
  rewrite (proj2 (Z.eqb_neq c 48)) by lia.
  assert (digit c = true) as -> by (unfold digit, between; apply andb_true_iff; rewrite !Z.leb_le; lia).
  change (c :: l ++ rest) with ((c :: l) ++ rest). rewrite span_all; [done|exact Hd|].
  destruct rest; [done|]. by destruct Hr as [->|[->| ->]].
Qed.

Lemma scan_int `{Floats} n rest :
  Z.abs n < INT_LIMIT → follows rest → scan_number (str_of_int n ++ rest) = Some (JInt n, rest).
Proof.
  intros Hn Hr. unfold scan_number, str_of_int.
  assert (Hlen : ∀ m, 0 ≤ m < INT_LIMIT → (length (dec m) ≤ MAX_STR_DIGITS)%nat).
  { intros m Hm. apply dec_limit; lia. }
  assert (Hplain : ∀ s, follows s → fraction s = ([], s) ∧ exponent s = ([], s)).
  { intros [|c s]; [done|]. by intros [->|[->| ->]]. }
  destruct (Hplain rest Hr) as [Hf He].
  destruct (Z.ltb_spec n 0) as [Hneg|Hpos].
  - cbn [app]. rewrite whole_dec by (done || lia). cbn [mbind option_bind].
    rewrite Hf, He. cbn [app]. rewrite bool_decide_true by (apply Hlen; lia).
    rewrite bool_decide_false by done. rewrite dec_number by lia. do 3 f_equal. lia.
  - assert (Hhead : match dec n ++ rest with 45 :: s => ([45], s) | _ => ([], dec n ++ rest) end = ([], dec n ++ rest)).
    { destruct (dec_denotes n Hpos) as [_ [->|(c & l & He' & Hc)]]; [done|]. rewrite He'. cbn [app].
      destruct (decide (c = 45)) as [->|Hc']; [lia|]. by repeat case_match. }
    rewrite Hhead, whole_dec by (done || lia). cbn [mbind option_bind].
    rewrite Hf, He. cbn [app]. rewrite bool_decide_true by (apply Hlen; lia).
    rewrite bool_decide_true by done. by rewrite dec_number by lia.
Qed.

(** ** Items *)

(** Texts that begin a value: not white space, nor a closing bracket. *)
Definition begins (s : pystr) : Prop :=
  match s with [] => False | c :: _ => is_ws c = false ∧ c ≠ 93 ∧ c ≠ 125 end.

Lemma skip_begins s : begins s → skip s = s.
Proof. destruct s as [|c s]; [done|]. intros (Hc & _). unfold skip. simpl. by rewrite Hc. Qed.

Lemma skip_comma s : skip (44 :: s) = 44 :: s.
Proof. done. Qed.

Lemma begins_app s rest : begins s → begins (s ++ rest).
Proof. by destruct s. Qed.

Lemma items_join {A B} (print : B → pystr) (value : B → A) item close l rest fuel :
  close = 93 ∨ close = 125 →
  l ≠ [] → (length l ≤ fuel)%nat →
  Forall (λ x, begins (print x) ∧ ∀ rest, follows rest → item (print x ++ rest) = Some (value x, rest)) l →
  items item close fuel (join [44] (map print l) ++ close :: rest) = Some (map value l, rest).
Proof.
  intros Hclose Hne Hf Hl. revert fuel Hf. induction Hl as [|x l [Hb Hx] Hl IH]; [done|].
  intros [|fuel] Hf; simpl in Hf; [lia|]. cbn [items].
  assert (Hcl : is_ws close = false ∧ (close =? 44) = false) by (by destruct Hclose as [-> | ->]).
  destruct l as [|y l].
  - cbn [map join]. rewrite Hx by (destruct Hclose as [-> | ->]; simpl; auto).
    cbn [mbind option_bind]. unfold skip at 1. cbn [drop_while]. rewrite (proj1 Hcl).
    by rewrite Z.eqb_refl.
  - change (join [44] (map print (x :: y :: l)))
      with (print x ++ 44 :: join [44] (map print (y :: l))).
    rewrite <- app_assoc. cbn [app]. rewrite Hx by (simpl; auto). cbn [mbind option_bind].
    rewrite skip_comma, (Z.eqb_sym 44), (proj2 Hcl), Z.eqb_refl, skip_begins.
    + rewrite IH by (done || lia). done.
    + apply Forall_cons in Hl as [[Hy _] _]. apply begins_app.
      destruct l; [exact Hy|]. by apply begins_app.
Qed.

(** ** Documents *)

Lemma begins_dumps lvl j : returns j → begins (dumps_at Compact lvl j).
Proof.
  intros Hj. destruct Hj as [|[]|n Hn|s Hs|l Hl|kvs Hk Hl]; try done; simpl.
  - unfold str_of_int. destruct (Z.ltb_spec n 0); [done|].
    destruct (dec_denotes n ltac:(lia)) as [_ [->|(c & l & -> & Hc)]]; [done|].
    unfold begins, is_ws. rewrite !(proj2 (Z.eqb_neq c _)) by lia. split_and!; [done|lia..].
  - by destruct l.
  - unfold bracketed. by case_match.
Qed.

Lemma scan_begins_int `{Floats} fuel n rest :
  scan (S fuel) (str_of_int n ++ rest) = scan_number (str_of_int n ++ rest).
Proof.
  unfold str_of_int. destruct (Z.ltb_spec n 0); [done|].
  destruct (dec_denotes n ltac:(lia)) as [_ [->|(c & l & -> & Hc)]]; [done|].
  assert (c = 49 ∨ c = 50 ∨ c = 51 ∨ c = 52 ∨ c = 53 ∨ c = 54 ∨ c = 55 ∨ c = 56 ∨ c = 57) as Hd by lia.
  by repeat destruct Hd as [->|Hd]; subst.
Qed.

Lemma json_char_nonempty c : json_char c ≠ [].
Proof. unfold json_char. repeat case_match; try done. Qed.

Lemma length_chars s : (length s ≤ length (s ≫= json_char))%nat.
Proof.
  induction s as [|c s IH]; [done|]. change ((c :: s) ≫= json_char) with (json_char c ++ (s ≫= json_char)).
  rewrite length_app. simpl. pose proof (json_char_nonempty c). destruct (json_char c); [done|]. simpl. lia.
Qed.

Lemma length_join_items sep ss x : x ∈ ss → (length x ≤ length (join sep ss))%nat.
Proof.
  induction ss as [|y [|z ss] IH]; intros Hx; [by apply elem_of_nil in Hx|..].
  - by apply list_elem_of_singleton in Hx as ->.
  - cbn [join]. rewrite !length_app. apply elem_of_cons in Hx as [->|Hx]; [lia|].
    specialize (IH Hx). cbn [join] in IH. lia.
Qed.

Lemma length_join_count ss : Forall (λ x, x ≠ []) ss → (length ss ≤ length (join [44%Z] ss))%nat.
Proof.
  induction 1 as [|x [|y ss] Hx _ IH]; [done|by destruct x; simpl; [|lia]|].
  cbn [join] in *. rewrite !length_app. simpl in *. destruct x; [done|]. simpl. lia.
Qed.

Lemma bracketed_compact lvl o c ss :
  ss ≠ [] → bracketed Compact lvl o c ss = o :: join [44] ss ++ [c].
Proof. by destruct ss. Qed.

(** The members of an object, as they are printed and as they are read. *)
Definition print_member (lvl : nat) (kv : pystr * json) : pystr :=
  json_str kv.1 ++ 58 :: dumps_at Compact lvl kv.2.

Lemma dumps_obj lvl kvs :
  dumps_at Compact lvl (JObj kvs) =
  bracketed Compact lvl 123 125 (map (print_member (S lvl)) (sort_by key_leb kvs)).
Proof.
  simpl. f_equal. rewrite map_values, sort_by_value, map_map. done.
Qed.

Lemma sorted_obj kvs :
  sorted_json (JObj kvs) = JObj (map (on_value sorted_json) (sort_by key_leb kvs)).
Proof. simpl. by rewrite map_values, sort_by_value. Qed.

Lemma open_begins {A} b close (x : pystr → option A) (y : pystr → option A) :
  begins b → close = 93 ∨ close = 125 →
  match skip b with
  | c :: s' => if c =? close then x s' else y (c :: s')
  | [] => None
  end = y b.
Proof.
  intros Hb Hc. rewrite skip_begins by done. destruct b as [|c s']; [done|].
  destruct Hb as (_ & H93 & H125).
  destruct Hc as [-> | ->]; [by rewrite (proj2 (Z.eqb_neq c 93))|by rewrite (proj2 (Z.eqb_neq c 125))].
Qed.

Lemma begins_items {A} (print : A → pystr) l rest :
  l ≠ [] → Forall (λ x, begins (print x)) l → begins (join [44] (map print l) ++ rest).
Proof.
  intros Hne Hl. apply begins_app. destruct Hl as [|x [|y l] Hx Hl]; [done|done|].
  by apply begins_app.
Qed.

Lemma length_member lvl kv :
  (length (dumps_at Compact lvl kv.2) < length (print_member lvl kv))%nat.
Proof. unfold print_member. rewrite length_app. cbn [length]. lia. Qed.

Section returning.
Context `{Floats}.

(** [j] is read back from its text, whatever follows. *)
Definition read_back (fuel lvl : nat) (j : json) : Prop :=
  ∀ rest, follows rest →
    scan fuel (dumps_at Compact lvl j ++ rest) = Some (sorted_json j, rest).

Lemma member_returns fuel lvl kv rest :
  text_ok kv.1 = true → returns kv.2 → read_back fuel lvl kv.2 →
  (length (print_member lvl kv) ≤ fuel)%nat → follows rest →
  member (scan fuel) fuel (print_member lvl kv ++ rest) = Some (on_value sorted_json kv, rest).
Proof.
  intros Hk Hv Hr Hlen Hrest. destruct kv as [k v]. unfold print_member in *. simpl in *.
  rewrite length_app in Hlen. unfold json_str in *. simpl in Hlen. rewrite length_app in Hlen.
  simpl in Hlen. pose proof (length_chars k).
  cbn [app member]. rewrite <- !app_assoc. cbn [app].
  rewrite string_returns by (done || lia). cbn [mbind option_bind].
  change (skip (58 :: ?x)) with (58 :: x). unfold skip at 1. cbn [drop_while]. cbn [is_ws Z.eqb Pos.eqb orb].
  rewrite skip_begins by (apply begins_app, begins_dumps, Hv).
  rewrite Hr by done. done.
Qed.

Lemma scan_returns lvl j fuel :
  returns j → (length (dumps_at Compact lvl j) < fuel)%nat → read_back fuel lvl j.
Proof.
  intros Hj. revert lvl fuel.
  induction j as [|b|n|r|s|l IH|kvs IH] using json_deep_ind; intros lvl [|fuel] Hlen rest Hrest;
    try (simpl in Hlen; lia).
  - done.
  - by destruct b.
  - inversion Hj as [| |? Hn| | |]; subst. change (dumps_at Compact lvl (JInt n)) with (str_of_int n).
    rewrite scan_begins_int. by apply scan_int.
  - inversion Hj.
  - inversion Hj as [| | |? Hs| |]; subst. simpl. unfold json_str in *. simpl in Hlen.
    rewrite length_app in Hlen. pose proof (length_chars s).
    rewrite <- app_assoc. cbn [app]. rewrite string_returns by (done || lia). done.
  - inversion Hj as [| | | |? Hl|]; subst. change (dumps_at Compact lvl (JArr l))
      with (bracketed Compact lvl 91 93 (map (dumps_at Compact (S lvl)) l)) in *.
    destruct (decide (l = [])) as [->|Hne]; [done|].
    rewrite bracketed_compact in * by (by destruct l). cbn [length] in Hlen. rewrite length_app in Hlen.
    cbn [length] in Hlen. rewrite Forall_forall in IH, Hl. cbn [app]. rewrite <- app_assoc. cbn [scan].
    etrans; [apply (open_begins _ 93 (λ s, Some (JArr [], s))
      (λ s, '(l, s) ← items (scan fuel) 93 fuel s; Some (JArr l, s)));
      [apply begins_items; [done|]|by left]|cbn [app]].
    1: { apply Forall_forall. intros x Hx. by apply begins_dumps, Hl. }
    assert (Hin : ∀ x, x ∈ l → (length (dumps_at Compact (S lvl) x) ≤
      length (join [44%Z] (map (dumps_at Compact (S lvl)) l)))%nat).
    { intros x Hx. apply length_join_items. by apply list_elem_of_fmap_2. }
    rewrite (items_join _ sorted_json); [done|by left|done| |].
    + rewrite <- (length_map (dumps_at Compact (S lvl))). etrans; [apply length_join_count|lia].
      apply Forall_forall. intros t (x & -> & Hx)%list_elem_of_fmap.
      pose proof (begins_dumps (S lvl) x (Hl x Hx)). by destruct (dumps_at _ _ x).
    + apply Forall_forall. intros x Hx. split; [by apply begins_dumps, Hl|].
      intros r Hr. apply IH; [done|by apply Hl| |done]. specialize (Hin x Hx). lia.
  - inversion Hj as [| | | | |? Hnd Hl]; subst. rewrite dumps_obj, sorted_obj in *.
    destruct (decide (kvs = [])) as [->|Hne]; [done|].
    set (ms := sort_by key_leb kvs) in *.
    assert (Hp : ms ≡ₚ kvs) by apply sort_by_perm.
    assert (Hms : ms ≠ []) by (intros He; rewrite He in Hp; by apply Permutation_nil_l in Hp).
    rewrite <- Hp in IH, Hl, Hnd. clearbody ms. clear Hj Hp Hne kvs.
    rewrite bracketed_compact in * by (by destruct ms). cbn [length] in Hlen. rewrite length_app in Hlen.
    cbn [length] in Hlen. rewrite Forall_forall in IH, Hl. cbn [app]. rewrite <- app_assoc. cbn [scan].
    etrans; [apply (open_begins _ 125 (λ s, Some (JObj [], s))
      (λ s, '(kvs, s) ← items (member (scan fuel) fuel) 125 fuel s;
            if bool_decide (NoDup kvs.*1) then Some (JObj kvs, s) else None));
      [apply begins_items; [done|]|by right]|cbn [app]].
    1: { by apply Forall_forall. }
    assert (Hin : ∀ x, x ∈ ms → (length (print_member (S lvl) x) ≤
      length (join [44%Z] (map (print_member (S lvl)) ms)))%nat).
    { intros x Hx. apply length_join_items. by apply list_elem_of_fmap_2. }
    rewrite (items_join _ (on_value sorted_json)); [|by right|done| |].
    + cbn [mbind option_bind]. rewrite bool_decide_true; [done|].
      unfold on_value. rewrite <- list_fmap_compose. exact Hnd.
    + rewrite <- (length_map (print_member (S lvl))). etrans; [apply length_join_count|lia].
      apply Forall_forall. by intros t (x & -> & Hx)%list_elem_of_fmap.
    + apply Forall_forall. intros x Hx. split; [done|]. intros r Hr. destruct (Hl x Hx) as [Ht Hv].
      specialize (Hin x Hx). apply member_returns; try done; [|lia].
      apply IH; [done|done|]. pose proof (length_member (S lvl) x). lia.
Qed.

(** A document that returns is read back as its normal form. *)
Lemma loads_returns j : returns j → loads_text (dumps_compact j) = Some (sorted_json j).
Proof.
  intros Hj. unfold loads_text, dumps_compact.
  rewrite skip_begins by (by apply begins_dumps). rewrite <- (app_nil_r (dumps_at Compact 0 j)) at 2.
  rewrite scan_returns by (done || lia). done.
Qed.
End returning.

(** ** The text is ASCII *)

Definition printable (c : Z) : Prop := 32 ≤ c ≤ 126.

Lemma hex4_printable n : Forall printable (hex4 n).
Proof.
  unfold hex4, printable.
  assert (Hd : ∀ v, 0 ≤ v < 16 → 32 ≤ (if v <? 10 then 48 + v else 87 + v) ≤ 126).
  { intros v Hv. case_match; lia. }
  repeat constructor; apply Hd, Z.mod_pos_bound; lia.
Qed.

Lemma json_char_printable c : 0 ≤ c ≤ 1114111 → Forall printable (json_char c).
Proof.
  intros Hc. unfold json_char.
  repeat (case_match; [repeat constructor; done|]).
  destruct (between 32 126 c) eqn:Hb; [|case_match].
  - unfold between in Hb. bool_hyps. repeat constructor; lia.
  - do 2 (constructor; [done|]). apply hex4_printable.
  - apply Forall_app. split; do 2 (constructor; [done|]); apply hex4_printable.
Qed.

Lemma json_str_printable s : text_ok s = true → Forall printable (json_str s).
Proof.
  unfold text_ok. intros [Hs _]%andb_true_iff. constructor; [done|]. apply Forall_app.
  split; [|by repeat constructor]. apply Forall_bind. rewrite forallb_forall in Hs.
  apply Forall_forall. intros c Hc%list_elem_of_In%Hs. unfold between in Hc. bool_hyps.
  by apply json_char_printable.
Qed.

Lemma join_printable ss : Forall (Forall printable) ss → Forall printable (join [44] ss).
Proof.
  induction 1 as [|x [|y ss] Hx Hl IH]; [constructor|done|].
  cbn [join]. apply Forall_app. split; [done|]. constructor; [done|exact IH].
Qed.

Lemma dumps_printable lvl j : returns j → Forall printable (dumps_at Compact lvl j).
Proof.
  intros Hj. revert lvl.
  induction j as [|b|n|r|s|l IH|kvs IH] using json_deep_ind; intros lvl.
  - by repeat constructor.
  - destruct b; by repeat constructor.
  - assert (Hdec : ∀ m, 0 ≤ m → Forall printable (dec m)).
    { intros m Hm. pose proof (dec_digits m Hm) as Hd. rewrite forallb_forall in Hd.
      apply Forall_forall. intros c Hc%list_elem_of_In%Hd. unfold between, printable in *. bool_hyps. lia. }
    simpl. unfold str_of_int. destruct (Z.ltb_spec n 0); [constructor; [done|]|]; apply Hdec; lia.
  - inversion Hj.
  - inversion Hj. by apply json_str_printable.
  - inversion Hj as [| | | |? Hl|]; subst. destruct (decide (l = [])) as [->|Hne]; [by repeat constructor|].
    change (dumps_at Compact lvl (JArr l)) with (bracketed Compact lvl 91 93 (map (dumps_at Compact (S lvl)) l)).
    rewrite bracketed_compact by (by destruct l). constructor; [done|]. apply Forall_app.
    split; [|by repeat constructor]. apply join_printable, Forall_fmap.
    rewrite Forall_forall in *. intros x Hx. apply IH; auto.
  - inversion Hj as [| | | | |? Hnd Hl]; subst. rewrite dumps_obj.
    destruct (decide (kvs = [])) as [->|Hne]; [by repeat constructor|].
    assert (Hp : sort_by key_leb kvs ≡ₚ kvs) by apply sort_by_perm.
    rewrite bracketed_compact.
    2: { intros He%fmap_nil_inv. rewrite He in Hp. by apply Permutation_nil_l in Hp. }
    constructor; [done|]. apply Forall_app. split; [|by repeat constructor].
    apply join_printable, Forall_fmap. rewrite Hp. rewrite Forall_forall in *. intros [k v] Hx.
    destruct (Hl _ Hx) as [Hk Hv]. unfold print_member. cbn [fst snd] in *. apply Forall_app.
    split; [by apply json_str_printable|]. constructor; [done|]. by apply (IH _ Hx).
Qed.

Lemma utf8_ascii fuel s : Forall printable s → (length s ≤ fuel)%nat → utf8 fuel s = Some s.
Proof.
  revert fuel. induction s as [|c s IH]; intros [|fuel] Hs Hf; simpl in Hf; try lia; try done.
  apply Forall_cons in Hs as [Hc Hs]. cbn [utf8 utf8_next]. unfold printable in Hc.
  rewrite (proj2 (Z.ltb_lt c 128)) by lia. cbn [mbind option_bind]. by rewrite IH by (done || lia).
Qed.

Lemma decode_ascii s : Forall printable s → decode s = Some s.
Proof.
  intros Hs. pose proof (utf8_ascii (length s) s Hs ltac:(done)) as Hu.
  assert (Hz : ∀ c, printable c → (c =? 0) = false) by (unfold printable; intros; lia).
  assert (Hbom : ∀ c p, ¬ printable c → starts_with (c :: p) s = false).
  { intros c p Hc. destruct s as [|a s]; [done|]. apply Forall_cons in Hs as [Ha _]. simpl.
    destruct (Z.eqb_spec c a) as [->|]; done. }
  unfold decode. rewrite !Hbom by (unfold printable; lia). cbv zeta.
  destruct s as [|a [|b [|c [|d s]]]]; try done;
    rewrite !Hz by (repeat (apply Forall_cons in Hs as [? Hs]); done); exact Hu.
Qed.

(** ** Looking into a normal form *)

Lemma keys_value {A B} (f : A → B) (l : list (pystr * A)) : (map (on_value f) l).*1 = l.*1.
Proof. unfold on_value. rewrite <- list_fmap_compose. done. Qed.

Lemma dict_get_perm {V} (a b : list (pystr * V)) k :
  NoDup a.*1 → a ≡ₚ b → dict_get a k = dict_get b k.
Proof.
  intros Ha Hp. assert (Hb : NoDup b.*1) by (by rewrite <- Hp).
  destruct (dict_get b k) as [v|] eqn:Hk.
  - apply dict_get_Some in Hk. apply dict_get_NoDup; [done|by rewrite Hp].
  - apply dict_get_None. apply dict_get_None in Hk. by rewrite Hp.
Qed.

Lemma dict_get_value {A B} (f : A → B) (l : list (pystr * A)) k :
  dict_get (map (on_value f) l) k = f <$> dict_get l k.
Proof. induction l as [|[k' v] l IH]; [done|]. simpl. by case_bool_decide. Qed.

Lemma items_sorted kvs :
  ∃ kvs', sorted_json (JObj kvs) = JObj kvs' ∧ kvs' ≡ₚ map (on_value sorted_json) kvs.
Proof.
  rewrite sorted_obj. eexists. split; [done|]. by rewrite sort_by_perm.
Qed.

(** Objects with the same items, in any order, have one normal form. *)
Lemma sorted_obj_perm a b :
  NoDup a.*1 → map (on_value sorted_json) a ≡ₚ map (on_value sorted_json) b →
  sorted_json (JObj a) = sorted_json (JObj b).
Proof.
  intros Hnd Hp. rewrite !sorted_obj, <- !sort_by_value. f_equal. apply sort_by_unique;
    [intros ??; apply text_leb_total|intros ???; apply text_leb_trans| |exact Hp].
  intros [k v] [k' v'] Hx Hy H1 H2. unfold key_leb in *. simpl in *.
    assert (k = k') as -> by (by apply text_leb_antisym).
  f_equal. assert (Hk : NoDup (map (on_value sorted_json) a).*1) by (by rewrite keys_value).
  apply (dict_get_NoDup _ _ _ Hk) in Hx. apply (dict_get_NoDup _ _ _ Hk) in Hy. congruence.
Qed.

Lemma returns_sorted j : returns j → returns (sorted_json j).
Proof.
  intros Hj. induction j as [| | | | |l IH|kvs IH] using json_deep_ind; try done; simpl.
  - inversion Hj as [| | | |? Hl|]; subst. constructor. apply Forall_fmap.
    rewrite Forall_forall in *. intros x Hx. apply IH; auto.
  - inversion Hj as [| | | | |? Hnd Hl]; subst. rewrite map_values. constructor.
    + by rewrite sort_by_perm, keys_value.
    + rewrite sort_by_perm. apply Forall_fmap. rewrite Forall_forall in *.
      intros [k v] Hx. destruct (Hl _ Hx) as [Hk Hv]. split; [done|]. by apply (IH _ Hx).
Qed.

(** Values that are not lists or objects. *)
Definition scalar (j : json) : bool := match j with JArr _ | JObj _ => false | _ => true end.

Lemma sorted_scalar x y : scalar y = true → sorted_json x = y ↔ x = y.
Proof. intros Hy. by destruct x, y. Qed.

Lemma forallb_perm {A} (f : A → bool) l k : l ≡ₚ k → forallb f l = forallb f k.
Proof. intros Hp. apply eq_true_iff_eq. rewrite !forallb_forall. split; intros H x Hx;
  apply H, list_elem_of_In; apply list_elem_of_In in Hx; by rewrite Hp in * || rewrite <- Hp in *. Qed.

Lemma forallb_ext_all {A} (f g : A → bool) l : Forall (λ x, f x = g x) l → forallb f l = forallb g l.
Proof. induction 1 as [|x l Hx _ IH]; simpl; congruence. Qed.
