(* ===== verification/Tables.v ===== *)
(** * Database tables under one session

    A request runs in one transaction over a session state [S].  A table is a
    lens into that state, with its primary key and the columns of its unique
    constraint (the primary key again where it declares none).  A flush that
    breaks a key raises [IntegrityError]; a handler that raises leaves no
    state, because the transaction is rolled back. *)

From S2P Require Import Prelude PyText PyUuid.

#[local] Open Scope Z_scope.

(** A key picks out one element. *)
Lemma NoDup_key_eq {A B} (f : A → B) (l : list A) x y :
  NoDup (f <$> l) → x ∈ l → y ∈ l → f x = f y → x = y.
Proof.
  intros Hnd (i & Hi)%list_elem_of_lookup (j & Hj)%list_elem_of_lookup Heq.
  assert (i = j) as ->; [|congruence].
  eapply NoDup_lookup; [exact Hnd|..]; rewrite list_lookup_fmap.
  - by rewrite Hi.
  - rewrite Hj. simpl. by rewrite Heq.
Qed.

Section tables.
Context {S R K : Type} `{EqDecision K}.

Record table := Table {
  rows : S → list R;
  set_rows : list R → S → S;
  row_id : R → uuid;
  row_key : R → K;
}.

(** What a lens owes: a write is read back. *)
Class TableLaws (T : table) : Prop := {
  rows_set l s : rows T (set_rows T l s) = l;
}.

(** Keys are keys. *)
Record keyed (T : table) (s : S) : Prop := Keyed {
  keyed_id : NoDup (row_id T <$> rows T s);
  keyed_key : NoDup (row_key T <$> rows T s);
}.

(** [db.get(Model, id)]. *)
Definition db_get (T : table) (s : S) (i : uuid) : option R :=
  first_such (λ r, bool_decide (row_id T r = i)) (rows T s).

(** [db.add(row); db.flush()]. *)
Definition db_add (T : table) (r : R) (s : S) : res S :=
  _ ← insert_unique (row_id T) r (rows T s);
  l ← insert_unique (row_key T) r (rows T s);
  Ok (set_rows T l s).

(** Assignments to the attributes of a loaded row, then [db.flush()]. *)
Definition replace (T : table) (r : R) (l : list R) : list R :=
  (λ x, if bool_decide (row_id T x = row_id T r) then r else x) <$> l.
Definition db_update (T : table) (r : R) (s : S) : res S :=
  let l := replace T r (rows T s) in
  ensure (bool_decide (NoDup (row_key T <$> l)))
    (Exn IntegrityError "duplicate key value violates unique constraint");;
  Ok (set_rows T l s).

(** ** Lemmas *)

Context (T : table) `{!TableLaws T}.
Implicit Types (s : S) (r : R) (l : list R).

Lemma db_get_Some s i r : db_get T s i = Some r → r ∈ rows T s ∧ row_id T r = i.
Proof.
  intros [Hr Hi]%first_such_Some. by apply bool_decide_eq_true in Hi.
Qed.

Lemma db_get_elem s r : keyed T s → r ∈ rows T s → db_get T s (row_id T r) = Some r.
Proof.
  intros [Hk _] Hr.
  destruct (db_get T s (row_id T r)) as [r'|] eqn:Hg.
  - apply db_get_Some in Hg as [Hr' Hi]. f_equal.
    pose proof (filter_key_one _ _ _ Hk Hr) as H1.
    pose proof (filter_key_one _ _ _ Hk Hr') as H2.
    rewrite Hi, H1 in H2. by injection H2.
  - unfold db_get in Hg. rewrite first_such_None in Hg. specialize (Hg r Hr).
    by rewrite bool_decide_true in Hg.
Qed.

Lemma db_add_Ok r s s' :
  db_add T r s = Ok s' ↔
  s' = set_rows T (rows T s ++ [r]) s ∧
  (row_id T r ∉ row_id T <$> rows T s) ∧ (row_key T r ∉ row_key T <$> rows T s).
Proof.
  unfold db_add. split.
  - intros Ha. inv_res. match goal with H : insert_unique _ _ _ = _ |- _ => revert H end.
    repeat match goal with
    | H : insert_unique _ _ _ = Ok _ |- _ => apply insert_unique_Ok in H as [-> ?]
    end. intros [-> ?]%insert_unique_Ok. done.
  - intros (-> & Hi & Hk).
    rewrite (proj2 (insert_unique_Ok _ _ _ _) (conj eq_refl Hi)). simpl.
    by rewrite (proj2 (insert_unique_Ok _ _ _ _) (conj eq_refl Hk)).
Qed.

Lemma db_add_rows r s s' : db_add T r s = Ok s' → rows T s' = rows T s ++ [r].
Proof. intros (-> & _)%db_add_Ok. apply rows_set. Qed.

Lemma NoDup_snoc {B} (f : R → B) l r :
  NoDup (f <$> l) → (f r ∉ f <$> l) → NoDup (f <$> l ++ [r]).
Proof.
  intros Hl Hr. rewrite fmap_app. apply NoDup_app. split_and!; [done| |apply NoDup_singleton].
  intros x Hx ->%list_elem_of_singleton. done.
Qed.

Lemma db_add_keyed r s s' : keyed T s → db_add T r s = Ok s' → keyed T s'.
Proof.
  intros [Hi Hk] (-> & Hir & Hkr)%db_add_Ok.
  split; rewrite rows_set; by apply NoDup_snoc.
Qed.

Lemma replace_ids r l : row_id T <$> replace T r l = row_id T <$> l.
Proof.
  unfold replace. rewrite <- list_fmap_compose. apply list_fmap_ext.
  intros i x _. simpl. case_bool_decide; congruence.
Qed.

Lemma elem_of_replace r l x :
  x ∈ replace T r l →
  (x = r ∧ row_id T r ∈ row_id T <$> l) ∨ (x ∈ l ∧ row_id T x ≠ row_id T r).
Proof.
  unfold replace. intros (y & -> & Hy)%list_elem_of_fmap. case_bool_decide as Hid.
  - left. split; [done|]. rewrite <- Hid. by apply list_elem_of_fmap_2.
  - by right.
Qed.

Lemma replace_elem r l x : x ∈ l → row_id T x ≠ row_id T r → x ∈ replace T r l.
Proof.
  intros Hx Hid. unfold replace. apply list_elem_of_fmap. exists x.
  by rewrite bool_decide_false.
Qed.

Lemma replace_elem_new r l x : x ∈ l → row_id T x = row_id T r → r ∈ replace T r l.
Proof.
  intros Hx Hid. unfold replace. apply list_elem_of_fmap. exists x.
  by rewrite bool_decide_true.
Qed.

Lemma db_update_Ok r s s' :
  db_update T r s = Ok s' ↔
  s' = set_rows T (replace T r (rows T s)) s ∧
  NoDup (row_key T <$> replace T r (rows T s)).
Proof.
  unfold db_update. cbv zeta. split.
  - intros Hu. inv_res. bool_hyps. done.
  - intros [-> Hnd]. by rewrite bool_decide_true.
Qed.

Lemma db_update_rows r s s' :
  db_update T r s = Ok s' → rows T s' = replace T r (rows T s).
Proof. intros (-> & _)%db_update_Ok. apply rows_set. Qed.

Lemma db_update_keyed r s s' : keyed T s → db_update T r s = Ok s' → keyed T s'.
Proof.
  intros [Hi _] (-> & Hk)%db_update_Ok. split; rewrite rows_set; [|done].
  by rewrite replace_ids.
Qed.

(** An assignment that leaves the unique columns alone always flushes. *)
Lemma replace_same_key r x l :
  NoDup (row_id T <$> l) → x ∈ l → row_id T x = row_id T r → row_key T x = row_key T r →
  row_key T <$> replace T r l = row_key T <$> l.
Proof.
  intros Hnd Hx Hid Hk. unfold replace. rewrite <- list_fmap_compose.
  apply list_fmap_ext. intros i y Hy. simpl. case_bool_decide as Hyid; [|done].
  rewrite <- Hk. f_equal. apply list_elem_of_lookup_2 in Hy.
  pose proof (filter_key_one _ _ _ Hnd Hx) as H1.
  pose proof (filter_key_one _ _ _ Hnd Hy) as H2.
  rewrite Hid in H1. rewrite Hyid, H1 in H2. congruence.
Qed.

Lemma db_update_same_key r x s :
  keyed T s → x ∈ rows T s → row_id T x = row_id T r → row_key T x = row_key T r →
  db_update T r s = Ok (set_rows T (replace T r (rows T s)) s).
Proof.
  intros [Hi Hk] Hx Hid Hkey. apply db_update_Ok. split; [done|].
  by rewrite (replace_same_key r x).
Qed.
End tables.
Arguments table S R K : clear implicits.
