(* ===== verification/PyDate.v ===== *)
(** * Calendar dates

    What the code uses of Python's [datetime.date] and [calendar]: the checked
    constructor, month lengths, and the tuple ordering. *)

From S2P Require Import Prelude.

#[local] Open Scope Z_scope.

Record date := Date { year : Z; month : Z; day : Z }.

#[export] Instance date_eq_dec : EqDecision date.
Proof. solve_decision. Defined.

Definition isleap (y : Z) : bool :=
  (y mod 4 =? 0) && (negb (y mod 100 =? 0) || (y mod 400 =? 0)).

(** [calendar.monthrange(y, m)[1]], for [1 <= m <= 12]. *)
Definition monthrange (y m : Z) : Z :=
  if m =? 2 then (if isleap y then 29 else 28)
  else if (m =? 4) || (m =? 6) || (m =? 9) || (m =? 11) then 30 else 31.

(** [date(y, m, d)]. *)
Definition mk_date (y m d : Z) : res date :=
  ensure ((1 <=? y) && (y <=? 9999)) (Exn ValueError "year is out of range");;
  ensure ((1 <=? m) && (m <=? 12)) (Exn ValueError "month must be in 1..12");;
  ensure ((1 <=? d) && (d <=? monthrange y m))
    (Exn ValueError "day is out of range for month");;
  Ok (Date y m d).

(** [a < b]: tuple order. *)
Definition date_ltb (a b : date) : bool :=
  (year a <? year b) ||
  ((year a =? year b) &&
   ((month a <? month b) || ((month a =? month b) && (day a <? day b)))).

(** A [date] object that exists. *)
Definition valid_date (d : date) : Prop :=
  mk_date (year d) (month d) (day d) = Ok d.

(** Months since year 0. *)
Definition month_index (d : date) : Z := year d * 12 + (month d - 1).

Lemma monthrange_bounds y m : 28 ≤ monthrange y m ≤ 31.
Proof. unfold monthrange. repeat case_match; lia. Qed.

Lemma mk_date_Ok y m d x :
  mk_date y m d = Ok x ↔
  1 ≤ y ≤ 9999 ∧ 1 ≤ m ≤ 12 ∧ 1 ≤ d ≤ monthrange y m ∧ x = Date y m d.
Proof.
  unfold mk_date. split.
  - intros H. inv_res. bool_hyps. naive_solver.
  - intros (? & ? & ? & ->).
    rewrite !(proj2 (andb_true_iff _ _)) by (rewrite !Z.leb_le; lia). done.
Qed.

Lemma valid_date_spec d :
  valid_date d ↔
  1 ≤ year d ≤ 9999 ∧ 1 ≤ month d ≤ 12 ∧ 1 ≤ day d ≤ monthrange (year d) (month d).
Proof. unfold valid_date. rewrite mk_date_Ok. destruct d; naive_solver. Qed.

Lemma mk_date_valid y m d x : mk_date y m d = Ok x → valid_date x.
Proof. intros (? & ? & ? & ->)%mk_date_Ok. by apply valid_date_spec. Qed.

Lemma month_index_lt a b :
  1 ≤ month a ≤ 12 → 1 ≤ month b ≤ 12 → month_index a < month_index b →
  date_ltb a b = true.
Proof.
  unfold month_index, date_ltb. intros Ha Hb Hlt.
  destruct (Z.ltb_spec (year a) (year b)); [done|].
  assert (year a = year b) as -> by lia. rewrite Z.eqb_refl. simpl.
  rewrite (proj2 (Z.ltb_lt _ _)) by lia. done.
Qed.

Lemma month_index_inj y m y' m' :
  1 ≤ m ≤ 12 → 1 ≤ m' ≤ 12 → y * 12 + (m - 1) = y' * 12 + (m' - 1) →
  y = y' ∧ m = m'.
Proof. lia. Qed.

(** [date.fromordinal(d.toordinal() + 1)]: the next calendar day. *)
Definition next_day (d : date) : res date :=
  if day d <? monthrange (year d) (month d) then mk_date (year d) (month d) (day d + 1)
  else if month d <? 12 then mk_date (year d) (month d + 1) 1
  else mk_date (year d + 1) 1 1.

(** The proleptic ordinal, with 1 January of year 1 as day 1. *)
Definition days_before_year (y : Z) : Z :=
  (y - 1) * 365 + (y - 1) / 4 - (y - 1) / 100 + (y - 1) / 400.
Definition days_before_month (y m : Z) : Z :=
  foldr Z.add 0 (monthrange y <$> seqZ 1 (m - 1)).
Definition toordinal (d : date) : Z :=
  days_before_year (year d) + days_before_month (year d) (month d) + day d.

Lemma days_in_year y : days_before_month y 13 = if isleap y then 366 else 365.
Proof. unfold days_before_month. simpl. unfold monthrange. simpl. by destruct (isleap y). Qed.

Lemma days_before_year_succ y :
  days_before_year (y + 1) = days_before_year y + if isleap y then 366 else 365.
Proof.
  unfold days_before_year, isleap. replace (y + 1 - 1) with y by lia.
  assert (∀ k, 0 < k → y / k = (y - 1) / k + if y mod k =? 0 then 1 else 0) as Hk.
  { intros k Hk. pose proof (Z.div_mod y k). pose proof (Z.mod_pos_bound y k).
    destruct (Z.eqb_spec (y mod k) 0) as [Hz|Hz].
    - assert ((y - 1) / k = y / k - 1); [|lia]. symmetry.
      apply Z.div_unique with (k - 1); lia.
    - assert ((y - 1) / k = y / k); [|lia]. symmetry.
      apply Z.div_unique with (y mod k - 1); lia. }
  rewrite (Hk 4), (Hk 100), (Hk 400) by lia.
  assert (y mod 100 = 0 → y mod 4 = 0) by (intros; Z.to_euclidean_division_equations; lia).
  assert (y mod 400 = 0 → y mod 100 = 0)
    by (intros; Z.to_euclidean_division_equations; lia).
  destruct (Z.eqb_spec (y mod 4) 0), (Z.eqb_spec (y mod 100) 0),
    (Z.eqb_spec (y mod 400) 0); simpl; lia.
Qed.

Lemma days_before_month_succ y m :
  1 ≤ m → days_before_month y (m + 1) = days_before_month y m + monthrange y m.
Proof.
  intros Hm. unfold days_before_month.
  replace (m + 1 - 1) with ((m - 1) + 1) by lia.
  rewrite seqZ_app, fmap_app by lia. replace (1 + (m - 1)) with m by lia.
  change (monthrange y <$> seqZ m 1) with [monthrange y m].
  induction (monthrange y <$> seqZ 1 (m - 1)); simpl; lia.
Qed.

(** [next_day] adds one to the ordinal. *)
Lemma next_day_toordinal d e :
  valid_date d → next_day d = Ok e → toordinal e = toordinal d + 1.
Proof.
  intros (Hy & Hm & Hd)%valid_date_spec. unfold next_day, toordinal.
  destruct (Z.ltb_spec (day d) (monthrange (year d) (month d))) as [Hlt|Hge].
  - intros (_ & _ & _ & ->)%mk_date_Ok. simpl. lia.
  - assert (day d = monthrange (year d) (month d)) as Heq by lia.
    destruct (Z.ltb_spec (month d) 12) as [Hm12|Hm12];
      intros (_ & _ & _ & ->)%mk_date_Ok; cbn [year month day].
    + rewrite days_before_month_succ by lia. lia.
    + assert (month d = 12) as Hmd by lia. rewrite Hmd in *.
      pose proof (days_before_month_succ (year d) 12 ltac:(lia)) as H13.
      pose proof (days_in_year (year d)). pose proof (days_before_year_succ (year d)).
      change (12 + 1) with 13 in H13.
      change (days_before_month (year d + 1) 1) with 0. lia.
Qed.

Lemma next_day_valid d e : next_day d = Ok e → valid_date e.
Proof. unfold next_day. repeat case_match; apply mk_date_valid. Qed.

Lemma next_day_Raise d x :
  valid_date d → next_day d = Raise x ↔
  x = Exn ValueError "year is out of range" ∧ d = Date 9999 12 31.
Proof.
  intros (Hy & Hm & Hd)%valid_date_spec. destruct d as [y m dd]. unfold next_day.
  cbn [year month day] in *. destruct (Z.ltb_spec dd (monthrange y m)) as [Hlt|Hge].
  - rewrite (proj2 (mk_date_Ok y m (dd + 1) (Date y m (dd + 1)))) by (split_and!; try lia; done).
    split; [done|]. intros [_ [= -> -> ->]]. by vm_compute in Hlt.
  - destruct (Z.ltb_spec m 12).
    + rewrite (proj2 (mk_date_Ok y (m + 1) 1 (Date y (m + 1) 1))).
      2:{ pose proof (monthrange_bounds y (m + 1)). split_and!; try lia. done. }
      split; [done|]. intros [_ [= -> -> ->]]. lia.
    + assert (m = 12) as -> by lia. change (monthrange y 12) with 31 in *.
      assert (dd = 31) as -> by lia. destruct (decide (y = 9999)) as [->|Hy9].
      * vm_compute. naive_solver.
      * rewrite (proj2 (mk_date_Ok (y + 1) 1 1 (Date (y + 1) 1 1))).
        2:{ change (monthrange (y + 1) 1) with 31. split_and!; try lia. done. }
        split; [done|]. naive_solver.
Qed.
