(* ===== verification/PyTime.v ===== *)
(** * Instants

    Python's [datetime] in UTC as the deploy agent uses it: the clock's value,
    adding a [timedelta] of less than a day, [isoformat] with a [Z], the time
    stamps of a contract, and the linear scale on which times are compared. *)

From S2P Require Import Prelude PyText PyDate.

#[local] Open Scope Z_scope.

(** An aware [datetime] in UTC: its date and the microseconds since midnight. *)
Record moment := Moment { m_date : date; m_micro : Z }.

#[export] Instance moment_eq_dec : EqDecision moment.
Proof. solve_decision. Defined.

Definition SECOND : Z := 1000000.
Definition MINUTE : Z := 60 * SECOND.
Definition HOUR : Z := 60 * MINUTE.
Definition DAY : Z := 24 * HOUR.

Definition valid_moment (t : moment) : Prop := valid_date (m_date t) ∧ 0 ≤ m_micro t < DAY.

(** Microseconds since the beginning of the calendar: [a < b] on times, and
    [a - b], are on this scale. *)
Definition instant (t : moment) : Z := toordinal (m_date t) * DAY + m_micro t.

(** [t + d], for a [timedelta] of less than a day. *)
Definition later (t : moment) (d : Z) : res moment :=
  let u := m_micro t + d in
  if u <? DAY then Ok (Moment (m_date t) u)
  else match next_day (m_date t) with
       | Ok day_ => Ok (Moment day_ (u - DAY))
       | Raise _ => Raise (Exn OverflowError "date value out of range")
       end.

(** [t + d] of two instants; the calendar ends with the year 9999. *)
Definition CALENDAR_END : Z := 3652060 * DAY.
Definition shift (t d : Z) : res Z :=
  ensure (t + d <? CALENDAR_END) (Exn OverflowError "date value out of range");; Ok (t + d).

Lemma later_instant t d t' :
  valid_moment t → 0 ≤ d < DAY → later t d = Ok t' →
  valid_moment t' ∧ instant t' = instant t + d.
Proof.
  intros [Hd Hu] Hr. unfold later. cbv zeta. destruct (Z.ltb_spec (m_micro t + d) DAY).
  - intros [= <-]. unfold valid_moment, instant. simpl. split; [split; [done|lia]|lia].
  - destruct (next_day (m_date t)) as [e|] eqn:He; [|done]. intros [= <-].
    apply next_day_valid in He as Hv. apply next_day_toordinal in He; [|done].
    unfold valid_moment, instant. simpl. rewrite He. split; [split; [done|lia]|lia].
Qed.

(** ** Text *)

(** [n] in [k] digits, padded with zeros. *)
Fixpoint padded (k : nat) (n : Z) : pystr :=
  match k with
  | O => []
  | S k => padded k (n / 10) ++ [48 + n mod 10]
  end.

Definition clock_text (u : Z) : pystr :=
  padded 2 (u / HOUR) ++ 58 :: padded 2 (u / MINUTE mod 60) ++ 58 ::
  padded 2 (u / SECOND mod 60) ++
  (if u mod SECOND =? 0 then [] else 46 :: padded 6 (u mod SECOND)).

(** [t.isoformat().replace("+00:00", "Z")]. *)
Definition isoformat (t : moment) : pystr :=
  padded 4 (year (m_date t)) ++ 45 :: padded 2 (month (m_date t)) ++ 45 ::
  padded 2 (day (m_date t)) ++ 84 :: clock_text (m_micro t) ++ [90].

(** ** Reading a time stamp *)

(** Exactly [k] digits, and what follows. *)
Definition take_digits (k : nat) (s : pystr) : option (Z * pystr) :=
  if bool_decide (length (take k s) = k) && forallb (between 48 57) (take k s)
  then Some (number (take k s), drop k s) else None.
Definition expect (c : Z) (s : pystr) : option pystr :=
  match s with c' :: s => if c' =? c then Some s else None | [] => None end.

(** [(?:\.\d{1,6})?Z] and the microseconds it stands for. *)
Definition read_micro (s : pystr) : option Z :=
  match s with
  | [90] => Some 0
  | 46 :: s =>
      let ds := take (length s - 1) s in
      if bool_decide (drop (length s - 1) s = [90]) && bool_decide (1 ≤ length ds ≤ 6)%nat &&
         forallb (between 48 57) ds
      then Some (number ds * 10 ^ (6 - Z.of_nat (length ds))) else None
  | _ => None
  end.

(** [datetime.fromisoformat] on the layout of a time stamp. *)
Definition read_moment (s : pystr) : option moment :=
  '(y, s) ← take_digits 4 s; s ← expect 45 s;
  '(mo, s) ← take_digits 2 s; s ← expect 45 s;
  '(d, s) ← take_digits 2 s; s ← expect 84 s;
  '(h, s) ← take_digits 2 s; s ← expect 58 s;
  '(mi, s) ← take_digits 2 s; s ← expect 58 s;
  '(sec, s) ← take_digits 2 s;
  u ← read_micro s;
  match mk_date y mo d with
  | Ok day_ =>
      if (h <=? 23) && (mi <=? 59) && (sec <=? 59)
      then Some (Moment day_ (h * HOUR + mi * MINUTE + sec * SECOND + u)) else None
  | Raise _ => None
  end.

(** ** There and back *)

Lemma padded_digits k n : forallb (between 48 57) (padded k n) = true.
Proof.
  revert n. induction k as [|k IH]; intros n; [done|]. cbn [padded].
  rewrite forallb_app, IH. simpl. unfold between. pose proof (Z.mod_pos_bound n 10 ltac:(lia)).
  rewrite andb_true_r, andb_true_iff, !Z.leb_le. lia.
Qed.

Lemma padded_length k n : length (padded k n) = k.
Proof. revert n. induction k as [|k IH]; intros n; [done|]. cbn [padded]. rewrite length_app, IH. simpl. lia. Qed.

Lemma padded_number k n : 0 ≤ n < 10 ^ Z.of_nat k → number (padded k n) = n.
Proof.
  revert n. induction k as [|k IH]; intros n Hn; [simpl in *; unfold number; simpl; lia|].
  cbn [padded]. rewrite Nat2Z.inj_succ, Z.pow_succ_r in Hn by lia.
  rewrite number_snoc, IH; [pose proof (Z.div_mod n 10 ltac:(lia)); lia|].
  split; [apply Z.div_pos|apply Z.div_lt_upper_bound]; lia.
Qed.

Lemma take_padded k n rest :
  0 ≤ n < 10 ^ Z.of_nat k → take_digits k (padded k n ++ rest) = Some (n, rest).
Proof.
  intros Hn. unfold take_digits. rewrite take_app_length', drop_app_length' by (by rewrite padded_length).
  rewrite bool_decide_true by apply padded_length. rewrite padded_digits, padded_number by done. done.
Qed.

Lemma read_micro_text u :
  0 ≤ u < SECOND → read_micro ((if u =? 0 then [] else 46 :: padded 6 u) ++ [90]) = Some u.
Proof.
  intros Hu. destruct (Z.eqb_spec u 0) as [->|]; [done|].
  change ((46 :: padded 6 u) ++ [90]) with (46 :: (padded 6 u ++ [90])).
  unfold read_micro. rewrite length_app, padded_length. change (6 + length [90%Z] - 1)%nat with 6%nat.
  rewrite take_app_length', drop_app_length' by (by rewrite padded_length).
  rewrite padded_length, bool_decide_true, bool_decide_true, padded_digits by (done || lia).
  cbn [andb]. rewrite padded_number by (unfold SECOND in Hu; simpl; lia).
  change (10 ^ (6 - Z.of_nat 6)) with 1. f_equal. lia.
Qed.

Lemma read_isoformat t : valid_moment t → read_moment (isoformat t) = Some t.
Proof.
  intros [Hd Hu]. pose proof (proj1 (valid_date_spec _) Hd) as (Hy & Hm & Hday).
  pose proof (monthrange_bounds (year (m_date t)) (month (m_date t))).
  unfold isoformat, clock_text, DAY, HOUR, MINUTE, SECOND in *. set (u := m_micro t) in *.
  assert (0 ≤ u / (60 * (60 * 1000000)) < 24).
  { split; [apply Z.div_pos|apply Z.div_lt_upper_bound]; lia. }
  pose proof (Z.mod_pos_bound (u / (60 * 1000000)) 60 ltac:(lia)).
  pose proof (Z.mod_pos_bound (u / 1000000) 60 ltac:(lia)).
  pose proof (Z.mod_pos_bound u 1000000 ltac:(lia)).
  unfold read_moment. repeat (rewrite <- app_assoc; cbn [app]).
  repeat (rewrite take_padded by (simpl; lia); cbn [mbind option_bind];
    try (cbn [expect Z.eqb Pos.eqb]; cbn [mbind option_bind])).
  rewrite read_micro_text by (unfold SECOND; lia). cbn [mbind option_bind].
  rewrite (proj2 (mk_date_Ok (year (m_date t)) (month (m_date t)) (day (m_date t)) (m_date t)))
    by (split_and!; try lia; by destruct (m_date t)).
  rewrite !(proj2 (andb_true_iff _ _)) by (rewrite ?andb_true_iff, !Z.leb_le; lia).
  f_equal. destruct t as [dt m]. f_equal. simpl in u. subst u. unfold HOUR, MINUTE, SECOND.
  assert (m / (60 * 1000000) = m / 1000000 / 60) as -> by (rewrite Z.div_div by lia; f_equal; lia).
  assert (m / (60 * (60 * 1000000)) = m / 1000000 / 60 / 60) as -> by (rewrite !Z.div_div by lia; f_equal; lia).
  pose proof (Z.div_mod m 1000000 ltac:(lia)). pose proof (Z.div_mod (m / 1000000) 60 ltac:(lia)).
  pose proof (Z.div_mod (m / 1000000 / 60) 60 ltac:(lia)). lia.
Qed.
