(* ===== verification/Transforms.v ===== *)
(** * The five transformations

    [commercial_backfill/transforms.py]: each reads one source row and returns
    a member of its dimension's class, never a converted value. *)

From S2P Require Import Prelude PyText PyDate Digests Vocabulary.

#[local] Open Scope Z_scope.

Definition _PRODUCT_CODE : Regex.re :=
  Regex.Cat (Regex.Chr ascii_alnum)
    (Regex.Star (Regex.Chr (λ c, ascii_alnum c || (c =? 46) || (c =? 95) || (c =? 45)))).

Definition CURRENCY_MINOR_UNITS : list (pystr * nat) :=
  prod_map lit id <$>
  [("NGN", 2%nat); ("USD", 2%nat); ("EUR", 2%nat); ("GBP", 2%nat); ("ZAR", 2%nat);
   ("GHS", 2%nat); ("KES", 2%nat); ("CAD", 2%nat); ("AUD", 2%nat); ("CHF", 2%nat);
   ("ZMW", 2%nat);
   ("JPY", 0%nat); ("KRW", 0%nat); ("XOF", 0%nat); ("XAF", 0%nat); ("RWF", 0%nat);
   ("UGX", 0%nat); ("VND", 0%nat); ("CLP", 0%nat); ("ISK", 0%nat);
   ("BHD", 3%nat); ("IQD", 3%nat); ("JOD", 3%nat); ("KWD", 3%nat); ("LYD", 3%nat);
   ("OMR", 3%nat); ("TND", 3%nat)]%string.

Section transforms.
Context `{UnicodeDB}.

(** [len({x, *xs}) > 1]. *)
Definition names_several (x : pystr) (xs : list pystr) : bool :=
  (1 <? length (remove_dups (x :: xs)))%nat.

Definition product_identity_outcome (product_code : option pystr)
    (sibling_product_codes : list pystr) (declared_product_codes : gset pystr)
    : ProductIdentityOutcome.t :=
  match product_code with
  | None | Some [] => ProductIdentityOutcome.CODE_ABSENT
  | Some code =>
      if negb (bool_decide (code = strip code)) ||
         negb (Regex.fullmatch _PRODUCT_CODE code)
      then ProductIdentityOutcome.CODE_UNTRIMMED
      else if names_several code sibling_product_codes
      then ProductIdentityOutcome.MULTI_PRODUCT_AGREEMENT
      else if negb (bool_decide (code ∈ declared_product_codes))
      then ProductIdentityOutcome.CODE_UNDECLARED
      else ProductIdentityOutcome.QUALIFIED
  end.

(** [\d]: any decimal digit of the Unicode table. *)
Definition is_d (c : Z) : bool :=
  match ucd_decimal c with Some _ => true | None => false end.

Definition _PLAIN_DECIMAL : Regex.re :=
  Regex.Cat (Regex.opt (Regex.Chr (Z.eqb 45)))
    (Regex.Cat (Regex.plus (Regex.Chr is_d))
       (Regex.opt (Regex.Cat (Regex.Chr (Z.eqb 46)) (Regex.plus (Regex.Chr is_d))))).

(** [Decimal(s)] on the strings [_PLAIN_DECIMAL] accepts: sign, coefficient and
    exponent; anything else is [InvalidOperation]. *)
Record Decimal := mkDecimal { dec_neg : bool; dec_coeff : Z; dec_scale : nat }.

Fixpoint digits_value (s : pystr) (acc : Z) : option Z :=
  match s with
  | [] => Some acc
  | c :: s => match ucd_decimal c with
              | Some v => digits_value s (acc * 10 + v)
              | None => None
              end
  end.

Definition Decimal_of (s : pystr) : option Decimal :=
  let '(neg, body) :=
    match s with c :: s' => if c =? 45 then (true, s') else (false, s)
               | [] => (false, s) end in
  match split_on 46 body with
  | [int] =>
      v ← digits_value int 0; Some (mkDecimal neg v 0)
  | [int; frac] =>
      v ← digits_value (int ++ frac) 0; Some (mkDecimal neg v (length frac))
  | _ => None
  end.

(** [value < 0] and [value == 0]: negative zero equals zero. *)
Definition dec_ltb0 (v : Decimal) : bool := dec_neg v && negb (dec_coeff v =? 0).
Definition dec_eqb0 (v : Decimal) : bool := dec_coeff v =? 0.

Definition currency_outcome (amount currency_code : pystr)
    (sibling_currency_codes : list pystr) : CurrencyOutcome.t :=
  match dict_get CURRENCY_MINOR_UNITS currency_code with
  | None => CurrencyOutcome.CODE_UNKNOWN
  | Some exponent =>
      if names_several currency_code sibling_currency_codes
      then CurrencyOutcome.MIXED_CURRENCY_AGREEMENT
      else if negb (Regex.fullmatch _PLAIN_DECIMAL amount)
      then CurrencyOutcome.NOT_DECIMAL
      else match Decimal_of amount with
      | None => CurrencyOutcome.NOT_DECIMAL
      | Some value =>
          if dec_ltb0 value then CurrencyOutcome.NEGATIVE
          else
            let fractional_digits :=
              if existsb (Z.eqb 46) amount
              then length (nth 1 (split_on 46 amount) []) else 0%nat in
            if negb (bool_decide (fractional_digits = exponent))
            then CurrencyOutcome.NOT_QUANTIZED
            else if dec_eqb0 value then CurrencyOutcome.EXACT_ZERO_AMOUNT
            else CurrencyOutcome.EXACT
      end
  end.

End transforms.

Definition CADENCE_BY_WHOLE_MONTHS : list (Z * CadenceOutcome.t) :=
  [(1, CadenceOutcome.MONTHLY); (3, CadenceOutcome.QUARTERLY);
   (6, CadenceOutcome.SEMI_ANNUAL); (12, CadenceOutcome.ANNUAL)].

Definition _MAX_MONTHS : nat := 24.

Definition add_months (anchor : date) (months : Z) : res date :=
  let total := month anchor - 1 + months in
  let y := year anchor + total / 12 in
  let m := total mod 12 + 1 in
  let d := Z.min (day anchor) (monthrange y m) in
  mk_date y m d.

(** The search loop over the remaining candidates, with its early return. *)
Fixpoint whole_months_in (start exclusive_end : date) (candidates : list Z)
    : res (option Z) :=
  match candidates with
  | [] => Ok None
  | months :: rest =>
      d ← add_months start months;
      if bool_decide (d = exclusive_end) then Ok (Some months)
      else whole_months_in start exclusive_end rest
  end.

Definition whole_months (start exclusive_end : date) : res (option Z) :=
  whole_months_in start exclusive_end (seqZ 1 (Z.of_nat _MAX_MONTHS)).

Definition cadence_outcome (term_start term_end_exclusive : option date)
    : res CadenceOutcome.t :=
  match term_start, term_end_exclusive with
  | Some start, Some exclusive_end =>
      if negb (date_ltb start exclusive_end) then Ok CadenceOutcome.TERM_NOT_POSITIVE
      else
        months ← whole_months start exclusive_end;
        match months with
        | None => Ok CadenceOutcome.INDETERMINATE
        | Some m => Ok (default CadenceOutcome.INDETERMINATE
                          (dict_get CADENCE_BY_WHOLE_MONTHS m))
        end
  | _, _ => Ok CadenceOutcome.TERM_OPEN_ENDED
  end.

Definition LAST_UNIVERSAL_DAY : Z := 28.

Definition proration_outcome (term_start : option date) (cadence : CadenceOutcome.t)
    : ProrationOutcome.t :=
  match term_start with
  | None => ProrationOutcome.ANCHOR_INDETERMINATE
  | Some start =>
      if negb (bool_decide (cadence ∈ (snd <$> CADENCE_BY_WHOLE_MONTHS)))
      then ProrationOutcome.ANCHOR_INDETERMINATE
      else if LAST_UNIVERSAL_DAY <? day start
      then ProrationOutcome.TARGET_OWNED_MISALIGNED
      else ProrationOutcome.NONE_REQUIRED
  end.

Definition DIGEST_REJECTION_OUTCOMES : list (string * FrozenContentOutcome.t) :=
  [("empty", FrozenContentOutcome.DIGEST_EMPTY);
   ("already_prefixed", FrozenContentOutcome.DIGEST_ALREADY_PREFIXED);
   ("wrong_length", FrozenContentOutcome.DIGEST_WRONG_LENGTH);
   ("uppercase", FrozenContentOutcome.DIGEST_UPPERCASE);
   ("non_hex", FrozenContentOutcome.DIGEST_NON_HEX)]%string.

Definition frozen_content_outcome `{UnicodeDB}
    (content_hash activation_content_hash : option pystr)
    : res FrozenContentOutcome.t :=
  match content_hash with
  | None | Some [] => Ok FrozenContentOutcome.NOT_FROZEN
  | Some h =>
      match digest_rejection_reason h with
      | Some reason =>
          of_option (dict_get DIGEST_REJECTION_OUTCOMES reason) (Exn KeyError "")
      | None =>
          match activation_content_hash with
          | Some a => if bool_decide (a = h) then Ok FrozenContentOutcome.TRANSLATABLE
                      else Ok FrozenContentOutcome.STALE_AGAINST_ACTIVATION
          | None => Ok FrozenContentOutcome.TRANSLATABLE
          end
      end
  end.

(** ** Lemmas: dictionaries and sets of names *)

Lemma names_several_false x xs :
  names_several x xs = false ↔ ∀ y, y ∈ xs → y = x.
Proof.
  unfold names_several. rewrite Nat.ltb_ge.
  pose proof (NoDup_remove_dups (x :: xs)) as Hnd.
  assert (Hel : ∀ y, y ∈ remove_dups (x :: xs) ↔ y ∈ x :: xs)
    by (intros; apply elem_of_remove_dups).
  destruct (remove_dups (x :: xs)) as [|z [|z' l]].
  - exfalso. specialize (Hel x). rewrite elem_of_nil in Hel. apply Hel. by left.
  - split; [|simpl; lia]. intros _ y Hy.
    assert (x = z) as -> by (apply list_elem_of_singleton, Hel; by left).
    apply list_elem_of_singleton, Hel. by right.
  - split; [simpl; lia|]. intros Hall. exfalso.
    assert (Heq : ∀ y, y ∈ z :: z' :: l → y = x).
    { intros y [->|Hy]%Hel%elem_of_cons; auto. }
    assert (z = z') by (rewrite (Heq z), (Heq z'); [done|right; by left|by left]).
    subst. apply NoDup_cons in Hnd as [Hnd _]. apply Hnd. by left.
Qed.

Lemma forallb_impl {A} (p q : A → bool) l :
  (∀ x, p x = true → q x = true) → forallb p l = true → forallb q l = true.
Proof.
  intros Hpq. induction l as [|x l IH]; simpl; [done|]. intros H. bool_hyps.
  by rewrite Hpq, IH.
Qed.

(** The characters of a product code after the first. *)
Definition code_char (c : Z) : bool :=
  ascii_alnum c || (c =? 46) || (c =? 95) || (c =? 45).

Lemma code_char_ascii c : code_char c = true → 33 ≤ c < 128.
Proof.
  unfold code_char, ascii_alnum, between.
  rewrite !orb_true_iff, !andb_true_iff, !Z.leb_le, !Z.eqb_eq. lia.
Qed.

Lemma product_code_spec s :
  Regex.fullmatch _PRODUCT_CODE s = true ↔
  ∃ c t, s = c :: t ∧ ascii_alnum c = true ∧ forallb code_char t = true.
Proof. unfold _PRODUCT_CODE. by autorewrite with regex. Qed.

Lemma product_code_strip `{UnicodeDB} s :
  Regex.fullmatch _PRODUCT_CODE s = true → strip s = s.
Proof.
  intros (c & t & -> & Hc & Ht)%product_code_spec. apply strip_by_id.
  apply (forallb_impl code_char).
  - intros d Hd%code_char_ascii. rewrite ucd_space_ascii by lia.
    apply negb_true_iff, orb_false_iff. rewrite !andb_false_iff, !Z.leb_gt. lia.
  - simpl. by rewrite Ht, andb_true_r; unfold code_char; rewrite Hc.
Qed.

(** A row's product identity is QUALIFIED exactly when its code is present,
    is spelled [A-Za-z0-9][A-Za-z0-9._-]*, is the only code the agreement
    names, and is a declared product, compared character for character: no
    case folding and no white-space repair, for every Unicode table. *)
Lemma product_identity_qualified `{UnicodeDB} code siblings declared :
  product_identity_outcome code siblings declared = ProductIdentityOutcome.QUALIFIED ↔
  ∃ c t, code = Some (c :: t) ∧ ascii_alnum c = true ∧ forallb code_char t = true ∧
    (∀ s, s ∈ siblings → s = c :: t) ∧ (c :: t) ∈ declared.
Proof.
  unfold product_identity_outcome. split.
  - destruct code as [[|c0 t0]|]; [done| |done].
    destruct (_ || _) eqn:Hm; [done|]. destruct (names_several _ _) eqn:Hs; [done|].
    destruct (negb (bool_decide (_ ∈ _))) eqn:Hd; [done|]. intros _.
    apply orb_false_iff in Hm as [_ Hm]. bool_hyps.
    apply product_code_spec in Hm as (c & t & ? & ? & ?). simplify_eq.
    exists c, t. split_and!; try done. by apply names_several_false.
  - intros (c & t & -> & Hc & Ht & Hs & Hd).
    assert (Regex.fullmatch _PRODUCT_CODE (c :: t) = true) as Hm
      by (apply product_code_spec; eauto).
    rewrite (product_code_strip _ Hm), bool_decide_true, Hm by done. simpl negb.
    rewrite orb_false_r, (proj2 (names_several_false _ _) Hs).
    by rewrite bool_decide_true.
Qed.

(** ** Lemmas: amounts *)

Lemma split_on_none c s : c ∉ s → split_on c s = [s].
Proof.
  induction s as [|d s IH]; simpl; intros Hc; [done|].
  apply not_elem_of_cons in Hc as [Hd Hc].
  rewrite (proj2 (Z.eqb_neq d c)) by congruence. by rewrite IH.
Qed.

Lemma split_on_app c s t : c ∉ s → split_on c (s ++ c :: t) = s :: split_on c t.
Proof.
  induction s as [|d s IH]; simpl; intros Hc.
  - by rewrite Z.eqb_refl.
  - apply not_elem_of_cons in Hc as [Hd Hc].
    rewrite (proj2 (Z.eqb_neq d c)) by congruence. by rewrite IH.
Qed.

Lemma existsb_eqb c s : existsb (Z.eqb c) s = bool_decide (c ∈ s).
Proof.
  induction s as [|d s IH]; simpl; [done|]. rewrite IH.
  destruct (Z.eqb_spec c d) as [->|Hn]; simpl.
  - symmetry. apply bool_decide_true. by left.
  - apply bool_decide_ext. rewrite elem_of_cons. naive_solver.
Qed.

Section amounts.
Context `{UnicodeDB}.

Definition digits (s : pystr) : Prop := s ≠ [] ∧ forallb is_d s = true.

Lemma not_digit c : 0 ≤ c < 48 → is_d c = false.
Proof.
  intros Hc. unfold is_d. rewrite ucd_decimal_ascii by lia.
  by rewrite (proj2 (Z.leb_gt 48 c)) by lia.
Qed.

Lemma digits_not_elem c s : 0 ≤ c < 48 → forallb is_d s = true → c ∉ s.
Proof.
  intros Hc Hs Hin. pose proof (not_digit _ Hc) as Hf.
  apply list_elem_of_In in Hin. rewrite forallb_forall in Hs.
  rewrite Hs in Hf; done.
Qed.

Lemma digits_value_Some s acc :
  0 ≤ acc → forallb is_d s = true → ∃ v, digits_value s acc = Some v ∧ 0 ≤ v.
Proof.
  revert acc. induction s as [|c s IH]; simpl; intros acc Hacc Hs; [eauto|].
  bool_hyps. unfold is_d in *. destruct (ucd_decimal c) as [v|] eqn:Hv; [|done].
  apply IH; [|done]. apply ucd_decimal_range in Hv. lia.
Qed.

(** A plain decimal: sign, integer digits, and the fraction when there is one. *)
Definition plain (neg : bool) (int : pystr) (frac : option pystr) : pystr :=
  (if neg then [45] else []) ++ int ++
  match frac with Some f => 46 :: f | None => [] end.

Lemma plain_decimal_spec s :
  Regex.fullmatch _PLAIN_DECIMAL s = true ↔
  ∃ neg int frac, s = plain neg int frac ∧ digits int ∧ (∀ f, frac = Some f → digits f).
Proof.
  unfold _PLAIN_DECIMAL, Regex.plus, Regex.opt, plain, digits.
  rewrite Regex.fullmatch_matches, Regex.matches_cat_inv. split.
  - intros (sg & body & -> & Hsg & Hbody).
    apply Regex.matches_cat_inv in Hbody as (int & fr & -> & Hint & Hfr).
    apply Regex.matches_ident in Hint as (c & t & -> & Hc & Ht).
    apply Regex.matches_alt_inv in Hsg, Hfr.
    assert (∃ neg : bool, sg = if neg then [45] else []) as [neg ->].
    { destruct Hsg as [(d & -> & Hd)%Regex.matches_chr_inv| ->%Regex.matches_eps_inv].
      - apply Z.eqb_eq in Hd as <-. by exists true.
      - by exists false. }
    destruct Hfr as [Hfr| ->%Regex.matches_eps_inv].
    + apply Regex.matches_cat_inv in Hfr.
      destruct Hfr as (? & ? & -> & (d & -> & Hd)%Regex.matches_chr_inv & Hf).
      apply Regex.matches_ident in Hf as (e & f & -> & He & Hf).
      apply Z.eqb_eq in Hd as <-. exists neg, (c :: t), (Some (e :: f)).
      split_and!; [done|done|simpl; by rewrite Hc, Ht|].
      intros ? [= <-]. split; [done|]. simpl. by rewrite He, Hf.
    + exists neg, (c :: t), None. split_and!; [done|done|simpl; by rewrite Hc, Ht|done].
  - intros (neg & int & frac & -> & [Hi Hid] & Hf).
    eexists _, _. split_and!; [done| |].
    { destruct neg; [apply Regex.m_alt_l; by constructor|].
      apply Regex.m_alt_r. constructor. }
    destruct int as [|c int]; [done|]. simpl in Hid. bool_hyps.
    apply Regex.matches_cat_inv. eexists (c :: int), _.
    split_and!; [done|apply Regex.matches_ident; by exists c, int|].
    destruct frac as [[|d f]|]; [by destruct (Hf [])| |].
    2:{ apply Regex.m_alt_r. constructor. }
    apply Regex.m_alt_l. destruct (Hf (d :: f)) as [_ Hfd]; [done|]. simpl in Hfd. bool_hyps.
    apply Regex.matches_cat_inv. exists [46], (d :: f).
    split_and!; [done|by constructor|]. apply Regex.matches_ident. by exists d, f.
Qed.

Definition frac_digits (frac : option pystr) : pystr := default [] frac.

Lemma Decimal_of_plain neg int frac :
  digits int → (∀ f, frac = Some f → digits f) →
  ∃ v, digits_value (int ++ frac_digits frac) 0 = Some v ∧ 0 ≤ v ∧
    Decimal_of (plain neg int frac) = Some (mkDecimal neg v (length (frac_digits frac))).
Proof.
  intros [Hi Hid] Hf.
  assert (Hfd : forallb is_d (frac_digits frac) = true).
  { destruct frac as [f|]; [by apply Hf|done]. }
  destruct (digits_value_Some (int ++ frac_digits frac) 0) as (v & Hv & Hv0);
    [done|by rewrite forallb_app, Hid, Hfd|].
  exists v. split_and!; [done|done|].
  assert (Hbody : match split_on 46 (int ++ match frac with Some f => 46 :: f | None => [] end) with
    | [int] => v ← digits_value int 0; Some (mkDecimal neg v 0)
    | [int; frac] =>
        v ← digits_value (int ++ frac) 0; Some (mkDecimal neg v (length frac))
    | _ => None end = Some (mkDecimal neg v (length (frac_digits frac)))).
  { assert (46 ∉ int) by (by apply digits_not_elem).
    destruct frac as [f|]; simpl in *.
    - rewrite split_on_app by done.
      rewrite split_on_none by (by apply digits_not_elem). by rewrite Hv.
    - rewrite app_nil_r in *. rewrite split_on_none by done. by rewrite Hv. }
  unfold plain, Decimal_of. destruct neg; [exact Hbody|].
  destruct int as [|c int]; [done|]. simpl in Hid. bool_hyps.
  assert (c ≠ 45) as Hc%Z.eqb_neq by (intros ->; rewrite not_digit in *; done).
  cbn [app]. rewrite Hc. exact Hbody.
Qed.

(** The digits after the point, as [currency_outcome] counts them. *)
Lemma fractional_digits_plain neg int frac :
  digits int → (∀ f, frac = Some f → digits f) →
  (if existsb (Z.eqb 46) (plain neg int frac)
   then length (nth 1 (split_on 46 (plain neg int frac)) []) else 0%nat)
  = length (frac_digits frac).
Proof.
  intros [Hi Hid] Hf. unfold plain. rewrite existsb_eqb.
  assert (Hsi : 46 ∉ (if neg then [45] else []) ++ int).
  { rewrite elem_of_app. intros [Hs|Hs]; [|by apply (digits_not_elem 46) in Hs].
    destruct neg; [by apply list_elem_of_singleton in Hs|by apply elem_of_nil in Hs]. }
  rewrite app_assoc. destruct frac as [f|]; simpl.
  - rewrite bool_decide_true by (apply elem_of_app; right; by left).
    rewrite split_on_app by done.
    by rewrite split_on_none by (apply digits_not_elem; [done|by apply (Hf f)]).
  - rewrite app_nil_r. by rewrite bool_decide_false.
Qed.

(** The outcome of an amount spelled as a plain decimal, as a function of its
    parts. *)
Lemma currency_outcome_plain neg int frac code siblings exponent :
  dict_get CURRENCY_MINOR_UNITS code = Some exponent →
  names_several code siblings = false →
  digits int → (∀ f, frac = Some f → digits f) →
  ∃ v, digits_value (int ++ frac_digits frac) 0 = Some v ∧ 0 ≤ v ∧
    currency_outcome (plain neg int frac) code siblings =
      if neg && negb (v =? 0) then CurrencyOutcome.NEGATIVE
      else if negb (bool_decide (length (frac_digits frac) = exponent))
      then CurrencyOutcome.NOT_QUANTIZED
      else if v =? 0 then CurrencyOutcome.EXACT_ZERO_AMOUNT
      else CurrencyOutcome.EXACT.
Proof.
  intros Hc Hs Hi Hf. destruct (Decimal_of_plain neg int frac) as (v & Hv & Hv0 & Hd);
    [done|done|]. exists v. split_and!; [done|done|].
  unfold currency_outcome. rewrite Hc, Hs.
  rewrite (proj2 (plain_decimal_spec _)) by (by eexists _, _, _).
  cbn [negb]. rewrite Hd. by rewrite fractional_digits_plain.
Qed.

(** an amount is EXACT exactly when its currency is declared with [n] minor
    digits, is the only currency the agreement names, and the amount is spelled
    as unsigned digits with exactly [n] fractional digits (no point at all when
    [n] is 0) and denotes a positive number of minor units: never a rounding,
    a sign, an exponent or a separator. *)
Theorem currency_exact amount code siblings :
  currency_outcome amount code siblings = CurrencyOutcome.EXACT ↔
  ∃ n int frac units,
    dict_get CURRENCY_MINOR_UNITS code = Some n ∧
    (∀ s, s ∈ siblings → s = code) ∧
    digits int ∧ forallb is_d frac = true ∧ length frac = n ∧
    amount = int ++ (if (n =? 0)%nat then [] else 46 :: frac) ∧
    digits_value (int ++ frac) 0 = Some units ∧ 0 < units.
Proof.
  split.
  - intros Ho. pose proof Ho as Ho'. unfold currency_outcome in Ho'.
    destruct (dict_get _ _) as [n|] eqn:Hn; [|done].
    destruct (names_several _ _) eqn:Hs; [done|].
    destruct (Regex.fullmatch _ _) eqn:Hm; [clear Ho'|done].
    apply plain_decimal_spec in Hm as (neg & int & frac & -> & Hi & Hf).
    destruct (currency_outcome_plain neg int frac code siblings n) as (v & Hv & Hv0 & Hc);
      [done..|]. rewrite Hc in Ho. clear Hc.
    exists n, int, (frac_digits frac), v. rewrite <- names_several_false.
    destruct neg, (Z.eqb_spec v 0), (bool_decide _) eqn:Hl; simpl in Ho; try done.
    bool_hyps. split_and!; try done; [by destruct frac; [apply Hf|]| |lia].
    unfold plain. destruct frac as [[|d f]|]; simpl in *; subst; try done.
    by destruct (Hf []).
  - intros (n & int & frac & v & Hn & Hs & Hi & Hfd & Hl & -> & Hv & Hv0).
    apply names_several_false in Hs.
    set (fr := if (n =? 0)%nat then None else Some frac).
    assert (Hfr : frac_digits fr = frac).
    { unfold fr. destruct (Nat.eqb_spec n 0); [|done]. by destruct frac; simplify_eq/=. }
    assert (Hp : int ++ (if (n =? 0)%nat then [] else 46 :: frac) = plain false int fr).
    { unfold plain, fr. by destruct (n =? 0)%nat. }
    rewrite Hp.
    destruct (currency_outcome_plain false int fr code siblings n)
      as (v' & Hv' & _ & ->); [done|done|done| |].
    { unfold fr. destruct (Nat.eqb_spec n 0); [done|]. intros ? [= <-].
      split; [|done]. by destruct frac; simplify_eq/=. }
    rewrite Hfr in *. rewrite Hv in Hv'. injection Hv' as <-.
    rewrite bool_decide_true by done. simpl.
    by rewrite (proj2 (Z.eqb_neq v 0)) by lia.
Qed.

End amounts.

(** ** Lemmas: calendar months *)

Lemma add_months_Ok s k d :
  valid_date s →
  add_months s k = Ok d ↔
  12 ≤ month_index s + k < 120000 ∧
  month_index d = month_index s + k ∧ 1 ≤ month d ≤ 12 ∧
  day d = Z.min (day s) (monthrange (year d) (month d)).
Proof.
  rewrite valid_date_spec. intros (Hy & Hm & Hd). unfold add_months, month_index.
  rewrite mk_date_Ok.
  set (t := month s - 1 + k). pose proof (Z.div_mod t 12).
  pose proof (Z.mod_pos_bound t 12).
  pose proof (monthrange_bounds (year s + t / 12) (t mod 12 + 1)).
  destruct d as [y m dd]; cbn [year month day]. split.
  - intros (? & ? & ? & [= -> -> ->]). split_and!; lia.
  - intros (? & ? & ? & ->).
    assert (y = year s + t / 12 ∧ m = t mod 12 + 1) as [-> ->]
      by (apply month_index_inj; lia).
    split_and!; try lia. done.
Qed.

Lemma add_months_is_Ok s k :
  valid_date s → 12 ≤ month_index s + k < 120000 → ∃ d, add_months s k = Ok d.
Proof.
  intros Hs Hk. set (t := month_index s + k).
  pose proof (Z.div_mod t 12). pose proof (Z.mod_pos_bound t 12).
  exists (Date (t / 12) (t mod 12 + 1) (Z.min (day s) (monthrange (t / 12) (t mod 12 + 1)))).
  apply add_months_Ok; [done|].
  replace (month_index (Date _ _ _)) with t by (unfold month_index; cbn; lia).
  cbn [year month day]. split_and!; lia.
Qed.

Lemma add_months_is_Raise s k :
  valid_date s → 120000 ≤ month_index s + k →
  add_months s k = Raise (Exn ValueError "year is out of range").
Proof.
  rewrite valid_date_spec. intros (Hy & Hm & Hd) Hk. unfold add_months, month_index in *.
  set (t := month s - 1 + k) in *. pose proof (Z.div_mod t 12).
  pose proof (Z.mod_pos_bound t 12). unfold mk_date.
  rewrite (proj2 (Z.leb_gt (year s + t / 12) 9999)) by lia.
  by rewrite andb_false_r.
Qed.

Lemma add_months_valid s k d : add_months s k = Ok d → valid_date d.
Proof. apply mk_date_valid. Qed.

Lemma month_index_bound s : valid_date s → 12 ≤ month_index s < 120000.
Proof. rewrite valid_date_spec. unfold month_index. lia. Qed.

(** The month count is determined by the end date. *)
Lemma add_months_inj s j k e :
  valid_date s → add_months s j = Ok e → add_months s k = Ok e → j = k.
Proof. intros Hs. rewrite !add_months_Ok by done. lia. Qed.

Lemma add_months_after s k e :
  valid_date s → 1 ≤ k → add_months s k = Ok e → date_ltb s e = true.
Proof.
  intros Hs Hk Ha. pose proof (add_months_valid _ _ _ Ha) as He.
  apply add_months_Ok in Ha; [|done]. rewrite valid_date_spec in Hs, He.
  apply month_index_lt; lia.
Qed.

(** The search over an increasing run of candidates. *)
Definition reaches (s e : date) (k : Z) : bool := bool_decide (add_months s k = Ok e).

Lemma whole_months_in_seq s e i (n : nat) :
  valid_date s → 1 ≤ i →
  whole_months_in s e (seqZ i (Z.of_nat n)) =
    match first_such (reaches s e) (seqZ i (Z.of_nat n)) with
    | Some k => Ok (Some k)
    | None => if bool_decide ((0 < n)%nat ∧ 120000 ≤ month_index s + (i + Z.of_nat n - 1))
              then Raise (Exn ValueError "year is out of range") else Ok None
    end.
Proof.
  intros Hs. revert i. induction n as [|m IH]; intros i Hi; [done|].
  rewrite seqZ_cons by lia. cbn [whole_months_in first_such].
  replace (Z.pred (Z.of_nat (S m))) with (Z.of_nat m) by lia. unfold reaches at 1.
  destruct (Z.lt_ge_cases (month_index s + i) 120000) as [Hlt|Hge].
  - destruct (add_months_is_Ok s i) as [d Hd].
    { done. } { pose proof (month_index_bound s Hs). lia. }
    rewrite Hd. cbn [mbind res_bind]. case_bool_decide as Hde.
    + subst. by rewrite bool_decide_true.
    + rewrite bool_decide_false by congruence. rewrite IH by lia.
      destruct (first_such _ _); [done|]. erewrite bool_decide_ext; [done|].
      destruct m; lia.
  - rewrite add_months_is_Raise by (done || lia). rewrite bool_decide_false by done.
    cbn [mbind res_bind]. destruct (first_such _ _) as [k|] eqn:Hf.
    + apply first_such_Some in Hf as [[]%elem_of_seqZ Ha]. exfalso.
      apply bool_decide_eq_true, add_months_Ok in Ha; [lia|done].
    + by rewrite bool_decide_true by lia.
Qed.

Lemma whole_months_Some s e k :
  valid_date s →
  whole_months s e = Ok (Some k) ↔ 1 ≤ k ≤ 24 ∧ add_months s k = Ok e.
Proof.
  intros Hs. unfold whole_months, _MAX_MONTHS. rewrite whole_months_in_seq by (done || lia).
  split.
  - destruct (first_such _ _) eqn:Hf; [|by case_bool_decide]. intros [= ->].
    apply first_such_Some in Hf as [Hk%elem_of_seqZ Ha].
    split; [lia|by apply bool_decide_eq_true in Ha].
  - intros [Hk Ha].
    destruct (first_such_complete (reaches s e) (seqZ 1 (Z.of_nat 24)) k) as [j Hj].
    { apply elem_of_seqZ. lia. } { by apply bool_decide_eq_true. }
    rewrite Hj. apply first_such_Some in Hj as [_ Hj%bool_decide_eq_true].
    by rewrite (add_months_inj s j k e).
Qed.

(** The search fails, instead of answering, exactly when it runs past the last
    month of the calendar before it finds a match. *)
Lemma whole_months_Raise s e x :
  valid_date s →
  whole_months s e = Raise x ↔
  x = Exn ValueError "year is out of range" ∧ 120000 ≤ month_index s + 24 ∧
  ∀ k, 1 ≤ k ≤ 24 → add_months s k ≠ Ok e.
Proof.
  intros Hs. unfold whole_months, _MAX_MONTHS. rewrite whole_months_in_seq by (done || lia).
  destruct (first_such _ _) as [j|] eqn:Hf.
  - apply first_such_Some in Hf as [Hj%elem_of_seqZ Ha%bool_decide_eq_true].
    split; [done|]. intros (_ & _ & Hall). exfalso. apply (Hall j); [lia|done].
  - rewrite first_such_None in Hf.
    assert (∀ k, 1 ≤ k ≤ 24 → add_months s k ≠ Ok e) as Hall.
    { intros k Hk. eapply bool_decide_eq_false, Hf. apply elem_of_seqZ. lia. }
    case_bool_decide; split; intros; naive_solver lia.
Qed.

Lemma cadence_table k c :
  dict_get CADENCE_BY_WHOLE_MONTHS k = Some c ↔ (k, c) ∈ CADENCE_BY_WHOLE_MONTHS.
Proof.
  unfold CADENCE_BY_WHOLE_MONTHS. rewrite !elem_of_cons, elem_of_nil. simpl.
  repeat case_bool_decide; subst; naive_solver.
Qed.

Lemma cadence_table_inj j k c :
  (j, c) ∈ CADENCE_BY_WHOLE_MONTHS → (k, c) ∈ CADENCE_BY_WHOLE_MONTHS → j = k.
Proof. unfold CADENCE_BY_WHOLE_MONTHS. rewrite !elem_of_cons, !elem_of_nil. naive_solver. Qed.

Lemma cadence_table_bounds k c :
  (k, c) ∈ CADENCE_BY_WHOLE_MONTHS →
  1 ≤ k ≤ 24 ∧ c ≠ CadenceOutcome.INDETERMINATE ∧ c ≠ CadenceOutcome.TERM_NOT_POSITIVE ∧
  c ≠ CadenceOutcome.TERM_OPEN_ENDED.
Proof.
  unfold CADENCE_BY_WHOLE_MONTHS. rewrite !elem_of_cons, elem_of_nil.
  intros [?|[?|[?|[?|[]]]]]; simplify_eq; split_and!; done || lia.
Qed.

(** A term is given a cadence of the table exactly when that many calendar
    months lead from its start to its exclusive end. *)
Lemma cadence_outcome_table s e k c :
  valid_date s → (k, c) ∈ CADENCE_BY_WHOLE_MONTHS →
  cadence_outcome (Some s) (Some e) = Ok c ↔ add_months s k = Ok e.
Proof.
  intros Hs Hkc. destruct (cadence_table_bounds _ _ Hkc) as (Hk & Hni & Hnp & _).
  unfold cadence_outcome. split.
  - destruct (date_ltb s e); cbn [negb]; [|congruence].
    destruct (whole_months s e) as [[m|]|] eqn:Hw; cbn [mbind res_bind];
      [|congruence|done].
    destruct (dict_get CADENCE_BY_WHOLE_MONTHS m) as [c'|] eqn:Hm;
      intros Hc; simplify_eq/=.
    apply cadence_table in Hm. apply whole_months_Some in Hw as [_ Ha]; [|done].
    by rewrite (cadence_table_inj k m c).
  - intros Ha. rewrite (add_months_after s k e) by (done || lia). cbn [negb].
    rewrite (proj2 (whole_months_Some s e k Hs)) by done. cbn [negb mbind res_bind].
    by rewrite (proj2 (cadence_table k c)).
Qed.

(** Cadence is exact: a term is MONTHLY, QUARTERLY, SEMI_ANNUAL or ANNUAL
    exactly when adding 1, 3, 6 or 12 calendar months to its start, with the
    end-of-month clamping of [add_months], gives its exclusive end. *)
Theorem cadence_exact s e :
  valid_date s →
  (cadence_outcome (Some s) (Some e) = Ok CadenceOutcome.MONTHLY ↔
     add_months s 1 = Ok e) ∧
  (cadence_outcome (Some s) (Some e) = Ok CadenceOutcome.QUARTERLY ↔
     add_months s 3 = Ok e) ∧
  (cadence_outcome (Some s) (Some e) = Ok CadenceOutcome.SEMI_ANNUAL ↔
     add_months s 6 = Ok e) ∧
  (cadence_outcome (Some s) (Some e) = Ok CadenceOutcome.ANNUAL ↔
     add_months s 12 = Ok e).
Proof.
  intros Hs. split_and!; apply cadence_outcome_table; try done;
    apply (bool_decide_unpack _); vm_compute; exact I.
Qed.

Lemma cadence_exact_witness :
  cadence_outcome (Some (Date 2024 1 31)) (Some (Date 2024 2 29))
    = Ok CadenceOutcome.MONTHLY.
Proof.
  apply (proj1 (cadence_exact (Date 2024 1 31) (Date 2024 2 29) eq_refl)).
  vm_compute. reflexivity.
Defined.

(** The only failure of the cadence derivation: it raises [ValueError]
    exactly for a positive term that no month count up to 24 reaches and whose
    start is in the last 24 months of the calendar, because the search steps
    past year 9999; on every other pair of dates it returns an outcome. *)
Lemma cadence_raises s e x :
  valid_date s →
  cadence_outcome (Some s) (Some e) = Raise x ↔
  x = Exn ValueError "year is out of range" ∧ date_ltb s e = true ∧
  120000 ≤ month_index s + 24 ∧ ∀ k, 1 ≤ k ≤ 24 → add_months s k ≠ Ok e.
Proof.
  intros Hs. pose proof (whole_months_Raise s e x Hs) as Hw.
  unfold cadence_outcome. destruct (date_ltb s e); cbn [negb mbind res_bind];
    [|split; [done|naive_solver]].
  destruct (whole_months s e) as [[m|]|]; cbn [negb mbind res_bind]; split;
    try done; naive_solver.
Qed.

(** Below the end of the calendar the derivation always answers. *)
Lemma cadence_total s e :
  (∀ d, s = Some d → valid_date d ∧ year d ≤ 9997) →
  ∃ c, cadence_outcome s e = Ok c.
Proof.
  intros Hs. destruct s as [s|]; [|eexists; done].
  destruct e as [e|]; [|eexists; done].
  destruct (Hs s eq_refl) as [Hv Hy].
  destruct (cadence_outcome (Some s) (Some e)) as [c|x] eqn:Hc; [by exists c|].
  exfalso. unfold cadence_outcome in Hc.
  destruct (negb _); [done|].
  destruct (whole_months s e) as [[m|]|y] eqn:Hw; cbn [negb mbind res_bind] in Hc; try done.
  apply whole_months_Raise in Hw; [|done]. apply valid_date_spec in Hv.
  unfold month_index in Hw. lia.
Qed.

Lemma cadence_positive_member s e c :
  valid_date s → c ∈ (snd <$> CADENCE_BY_WHOLE_MONTHS) →
  cadence_outcome (Some s) (Some e) = Ok c → date_ltb s e = true.
Proof.
  intros Hs ([k c'] & -> & Hkc)%list_elem_of_fmap. unfold cadence_outcome.
  destruct (date_ltb s e); [done|]. simpl. intros [= Hc].
  by destruct (cadence_table_bounds _ _ Hkc) as (_ & _ & [] & _).
Qed.

(** ** Lemmas: anchors *)

(** Every calendar year span of 24 months from a start has a February that is
    too short for an anchor after the 28th. *)
Lemma short_february s :
  valid_date s → year s ≤ 9997 →
  ∃ k, 1 ≤ k ≤ 24 ∧ ∃ y, isleap y = false ∧ month_index s + k = y * 12 + 1 ∧ y ≤ 9999.
Proof.
  rewrite valid_date_spec. intros (Hy & Hm & Hd) Hy'. unfold month_index.
  assert (Hleap : ∀ y, isleap y = true → isleap (y + 1) = false).
  { intros y. unfold isleap. intros Hl. apply andb_true_iff in Hl as [Hl _].
    apply Z.eqb_eq in Hl. apply andb_false_iff. left. apply Z.eqb_neq.
    pose proof (Z.mod_pos_bound y 4). rewrite Z.add_mod, Hl by lia. done. }
  set (y0 := if month s <? 2 then year s else year s + 1).
  assert (Hy0 : (y0 = year s ∧ month s = 1) ∨ (y0 = year s + 1 ∧ 2 ≤ month s)).
  { unfold y0. case_match eqn:Hc; bool_hyps; lia. }
  clearbody y0.
  destruct (isleap y0) eqn:Hl.
  - exists ((y0 + 1) * 12 + 1 - (year s * 12 + (month s - 1))).
    split; [lia|]. exists (y0 + 1). split_and!; [auto|lia|lia].
  - exists (y0 * 12 + 1 - (year s * 12 + (month s - 1))).
    split; [lia|]. exists y0. split_and!; [done|lia|lia].
Qed.

(** proration is not needed exactly when the anchor recurs: for a term
    that has a billing cadence, [NONE_REQUIRED] holds if and only if every
    later month repeats the start's day of the month without clamping; so the
    declared last universal day, 28, is the right bound in both directions. *)
Theorem proration_anchor_recurs s c :
  valid_date s → year s ≤ 9997 → c ∈ (snd <$> CADENCE_BY_WHOLE_MONTHS) →
  proration_outcome (Some s) c = ProrationOutcome.NONE_REQUIRED ↔
  ∀ k d, 1 ≤ k → add_months s k = Ok d → day d = day s.
Proof.
  intros Hs Hy Hc. unfold proration_outcome, LAST_UNIVERSAL_DAY.
  rewrite bool_decide_true by done. simpl.
  destruct (Z.ltb_spec 28 (day s)) as [Hd|Hd]; split; try done.
  - intros Hall. exfalso.
    destruct (short_february s Hs Hy) as (k & Hk & y & Hl & Hi & Hy9).
    destruct (add_months_is_Ok s k) as [d Hd']; [done| |].
    { pose proof (month_index_bound s Hs). lia. }
    pose proof (Hall k d ltac:(lia) Hd') as Hdd.
    apply add_months_Ok in Hd' as (_ & Hmi & Hm & Hday); [|done].
    unfold month_index at 1 in Hmi. rewrite Hi in Hmi.
    assert (year d = y ∧ month d = 2) as [Hyd Hmd] by lia.
    rewrite Hyd, Hmd in Hday. unfold monthrange in Hday. rewrite Hl in Hday.
    simpl in Hday. lia.
  - intros _ k d Hk (_ & _ & _ & ->)%add_months_Ok; [|done].
    pose proof (monthrange_bounds (year d) (month d)). lia.
Qed.

Lemma proration_anchor_recurs_witness :
  ∃ d, add_months (Date 2024 2 28) 7 = Ok d ∧ day d = 28.
Proof.
  eexists. split; [reflexivity|].
  refine (proj1 (proration_anchor_recurs (Date 2024 2 28) CadenceOutcome.ANNUAL _ _ _) _
            7 _ _ _);
    [reflexivity|done|apply (bool_decide_unpack _); vm_compute; exact I|reflexivity|done|
     reflexivity].
Defined.

(** ** Frozen content *)

Lemma digest_reason_member `{UnicodeDB} h reason :
  digest_rejection_reason h = Some reason → reason ∈ DIGEST_REJECTION_REASONS.
Proof.
  unfold digest_rejection_reason. repeat case_match; intros; simplify_eq;
    apply (bool_decide_unpack _); vm_compute; exact I.
Qed.

Lemma rejection_outcomes_total reason :
  reason ∈ DIGEST_REJECTION_REASONS →
  ∃ o, dict_get DIGEST_REJECTION_OUTCOMES reason = Some o ∧
    o ≠ FrozenContentOutcome.TRANSLATABLE.
Proof.
  unfold DIGEST_REJECTION_REASONS. rewrite !elem_of_cons, elem_of_nil.
  intros [->|[->|[->|[->|[->|[]]]]]]; eexists; split; (reflexivity || done).
Qed.

(** The frozen-content dimension is total (the reason table covers every
    reason, so there is no [KeyError]) and a row is TRANSLATABLE exactly when
    [translate_digest] accepts its content hash and the activation, when there
    is one, is bound to that same hash. *)
Lemma frozen_content_translatable `{UnicodeDB} content activation :
  (∃ o, frozen_content_outcome content activation = Ok o) ∧
  (frozen_content_outcome content activation = Ok FrozenContentOutcome.TRANSLATABLE ↔
   ∃ h, content = Some h ∧ is_ok (translate_digest h) = true ∧
     ∀ a, activation = Some a → a = h).
Proof.
  unfold frozen_content_outcome.
  destruct content as [[|c h]|]; [split; [by eexists|naive_solver]| |
    split; [by eexists|naive_solver]].
  pose proof (translate_digest_Ok (c :: h)) as Ht.
  destruct (digest_rejection_reason (c :: h)) as [reason|] eqn:Hr.
  - destruct (rejection_outcomes_total reason) as (o & Ho & Hno);
      [by eapply digest_reason_member|].
    rewrite Ho. split; [by exists o|]. split; [naive_solver|].
    intros (? & [= <-] & Hok & _). unfold translate_digest in Hok.
    by rewrite Hr in Hok.
  - assert (is_ok (translate_digest (c :: h)) = true) as Hok.
    { unfold translate_digest. by rewrite Hr. }
    destruct activation as [a|]; [case_bool_decide|]; split; naive_solver.
Qed.
