(* ===== verification/Cohort.v ===== *)
(** * The cohort

    [commercial_backfill/cohort.py]: source rows and their construction
    checks, cohort membership, the five dimensions in declared order, and the
    classification of a row into exactly one bucket. *)

From S2P Require Import Prelude PyText PyDate Digests Vocabulary Transforms.

#[local] Open Scope Z_scope.

Definition PRE_COMMERCIAL_STATUSES : list pystr :=
  lit <$> ["DRAFT"; "PROPOSED"; "APPROVED"]%string.
Definition ENDED_STATUSES : list pystr :=
  lit <$> ["CANCELLED"; "TERMINATED"; "EXPIRED"]%string.
Definition SUPERSEDED_STATUSES : list pystr := lit <$> ["SUPERSEDED"]%string.
Definition LIVE_STATUSES : list pystr := lit <$> ["ACTIVE"; "SUSPENDED"]%string.
Definition KNOWN_AGREEMENT_STATUSES : list pystr :=
  PRE_COMMERCIAL_STATUSES ++ ENDED_STATUSES ++ LIVE_STATUSES ++ SUPERSEDED_STATUSES.

Definition _FINGERPRINT : Regex.re := Regex.times 64 (Regex.Chr hex_lower).

Record SourceRow := mkSourceRow {
  kind : SourceKind.t;
  fingerprint : pystr;
  amount : pystr;
  currency_code : pystr;
  product_code : option pystr;
  sibling_product_codes : list pystr;
  sibling_currency_codes : list pystr;
  quantity : Z;
  referenced_by_cohort_line : bool;
  agreement_status : option pystr;
  is_superseded : bool;
  content_hash : option pystr;
  activation_content_hash : option pystr;
  term_start : option date;
  term_end_exclusive : option date;
}.

(** [status in STATUSES], for a status that may be [None]. *)
Definition status_in (status : option pystr) (statuses : list pystr) : bool :=
  match status with Some s => bool_decide (s ∈ statuses) | None => false end.

(** [SourceRow.__post_init__]; its type checks hold of every typed row. *)
Definition SourceRow_post_init (self : SourceRow) : res unit :=
  ensure (Regex.fullmatch _FINGERPRINT (fingerprint self))
    (Exn SourceRowError "fingerprint is 64 lowercase hex characters");;
  ensure (negb (quantity self <? 0))
    (Exn SourceRowError "quantity is never negative");;
  ensure (negb (bool_decide (kind self = SourceKind.AGREEMENT_LINE) &&
                bool_decide (agreement_status self = None)))
    (Exn SourceRowError "an agreement line carries its agreement's status");;
  ensure (negb (bool_decide (kind self = SourceKind.OFFER_VERSION) &&
                bool_decide (agreement_status self ≠ None)))
    (Exn SourceRowError "a catalogue row has no agreement status");;
  ensure (negb (bool_decide (agreement_status self ≠ None) &&
                negb (status_in (agreement_status self) KNOWN_AGREEMENT_STATUSES)))
    (Exn SourceRowError "agreement status is outside the declared vocabulary").

(** [SourceRow(...)]: the constructor runs the checks. *)
Definition SourceRow_init (self : SourceRow) : res SourceRow :=
  SourceRow_post_init self;; Ok self.

Record RowVerdict := mkRowVerdict {
  bucket : Bucket.t;
  exclusion : option ExclusionReason.t;
  blocking_dimension : option Dimension.t;
  outcomes : list (Dimension.t * member);
}.

Definition RowVerdict_post_init (self : RowVerdict) : res unit :=
  match bucket self with
  | Bucket.EXCLUDED =>
      ensure (bool_decide (exclusion self ≠ None) &&
              bool_decide (blocking_dimension self = None))
        (Exn SourceRowError "an excluded row states a reason and nothing else")
  | Bucket.BLOCKED =>
      ensure (bool_decide (blocking_dimension self ≠ None) &&
              bool_decide (exclusion self = None))
        (Exn SourceRowError "a blocked row states a dimension and nothing else")
  | Bucket.MAPPED =>
      ensure (bool_decide (exclusion self = None) &&
              bool_decide (blocking_dimension self = None))
        (Exn SourceRowError "a mapped row states neither")
  end.

Definition RowVerdict_init (self : RowVerdict) : res RowVerdict :=
  RowVerdict_post_init self;; Ok self.

Record CohortRules := mkCohortRules { declared_product_codes : gset pystr }.

Definition exclusion_of (row : SourceRow) : option ExclusionReason.t :=
  if bool_decide (kind row = SourceKind.OFFER_VERSION) &&
     negb (referenced_by_cohort_line row)
  then Some ExclusionReason.OFFER_VERSION_NEVER_REFERENCED
  else
    let status := agreement_status row in
    if status_in status PRE_COMMERCIAL_STATUSES
    then Some ExclusionReason.NOT_COMMERCIAL_STATE_YET
    else if status_in status ENDED_STATUSES
    then Some ExclusionReason.TERMINATED_BEFORE_COHORT_START
    else if is_superseded row || status_in status SUPERSEDED_STATUSES
    then Some ExclusionReason.SUPERSEDED_AGREEMENT_VERSION
    else if bool_decide (kind row = SourceKind.AGREEMENT_LINE) && (quantity row =? 0)
    then Some ExclusionReason.ZERO_QUANTITY_LINE
    else None.

(** [outcome in BLOCKING_OUTCOMES]. *)
Definition blocks (m : member) : bool := bool_decide (m ∈ BLOCKING_OUTCOMES).

Section classification.
Context `{UnicodeDB}.

Definition dimension_outcomes (row : SourceRow) (rules : CohortRules)
    : res (list (Dimension.t * member)) :=
  cadence ← cadence_outcome (term_start row) (term_end_exclusive row);
  let identity := product_identity_outcome (product_code row)
                    (sibling_product_codes row) (declared_product_codes rules) in
  let currency := currency_outcome (amount row) (currency_code row)
                    (sibling_currency_codes row) in
  let proration := proration_outcome (term_start row) cadence in
  frozen ← frozen_content_outcome (content_hash row) (activation_content_hash row);
  let by_dimension (d : Dimension.t) : member :=
    match d with
    | Dimension.PRODUCT_IDENTITY => of_ProductIdentityOutcome identity
    | Dimension.CURRENCY => of_CurrencyOutcome currency
    | Dimension.CADENCE => of_CadenceOutcome cadence
    | Dimension.PRORATION => of_ProrationOutcome proration
    | Dimension.FROZEN_CONTENT => of_FrozenContentOutcome frozen
    end in
  Ok ((λ d, (d, by_dimension d)) <$> DIMENSIONS_BY_SOURCE_KIND (kind row)).

Definition classify (row : SourceRow) (rules : CohortRules) : res RowVerdict :=
  match exclusion_of row with
  | Some excluded =>
      RowVerdict_init (mkRowVerdict Bucket.EXCLUDED (Some excluded) None [])
  | None =>
      outcomes ← dimension_outcomes row rules;
      match first_such (λ p, blocks p.2) outcomes with
      | Some (dimension, _) =>
          RowVerdict_init (mkRowVerdict Bucket.BLOCKED None (Some dimension) outcomes)
      | None => RowVerdict_init (mkRowVerdict Bucket.MAPPED None None outcomes)
      end
  end.

(** What a verdict means, in terms of the row: the specification that
    [classify] refines. *)
Inductive classified (row : SourceRow) (rules : CohortRules) : RowVerdict → Prop :=
  | classified_excluded reason :
      exclusion_of row = Some reason →
      classified row rules (mkRowVerdict Bucket.EXCLUDED (Some reason) None [])
  | classified_blocked before d o after :
      exclusion_of row = None →
      dimension_outcomes row rules = Ok (before ++ (d, o) :: after) →
      o ∈ BLOCKING_OUTCOMES →
      (∀ p, p ∈ before → p.2 ∉ BLOCKING_OUTCOMES) →
      classified row rules
        (mkRowVerdict Bucket.BLOCKED None (Some d) (before ++ (d, o) :: after))
  | classified_mapped os :
      exclusion_of row = None →
      dimension_outcomes row rules = Ok os →
      (∀ p, p ∈ os → p.2 ∉ BLOCKING_OUTCOMES) →
      classified row rules (mkRowVerdict Bucket.MAPPED None None os).

(** A constructed row: its checks passed and its dates are [date] objects. *)
Definition well_formed_row (row : SourceRow) : Prop :=
  SourceRow_init row = Ok row ∧
  (∀ d, term_start row = Some d → valid_date d) ∧
  (∀ d, term_end_exclusive row = Some d → valid_date d).

(** ** Lemmas *)

Lemma first_such_split {A} (p : A → bool) l x :
  first_such p l = Some x →
  ∃ l1 l2, l = l1 ++ x :: l2 ∧ p x = true ∧ ∀ y, y ∈ l1 → p y = false.
Proof.
  induction l as [|y l IH]; simpl; [done|]. destruct (p y) eqn:Hy; intros Hf.
  - simplify_eq. exists [], l. split_and!; [done|done|].
    intros z Hz. by apply elem_of_nil in Hz.
  - destruct (IH Hf) as (l1 & l2 & -> & ? & Hl). exists (y :: l1), l2.
    split_and!; [done|done|]. intros z [->|Hz]%elem_of_cons; auto.
Qed.

Lemma first_such_app {A} (p : A → bool) l1 x l2 :
  p x = true → (∀ y, y ∈ l1 → p y = false) → first_such p (l1 ++ x :: l2) = Some x.
Proof.
  intros Hx. induction l1 as [|y l1 IH]; simpl; intros Hl; [by rewrite Hx|].
  rewrite (Hl y) by left. apply IH. intros; apply Hl; by right.
Qed.

Lemma blocks_false m : blocks m = false ↔ m ∉ BLOCKING_OUTCOMES.
Proof. unfold blocks. by rewrite bool_decide_eq_false. Qed.

Lemma blocks_true m : blocks m = true ↔ m ∈ BLOCKING_OUTCOMES.
Proof. unfold blocks. by rewrite bool_decide_eq_true. Qed.

(** [classify] refines its specification exactly: it returns [v] if and
    only if [v] is the row's verdict, that is the exclusion reason when
    membership excludes the row, otherwise the first blocking dimension in
    declared order, otherwise MAPPED; the evidence checks of the verdict's own
    constructor never fire. *)
Lemma classify_spec row rules v :
  classify row rules = Ok v ↔ classified row rules v.
Proof.
  unfold classify. split.
  - destruct (exclusion_of row) as [r|] eqn:He.
    + intros [= <-]. by constructor.
    + intros Hc. apply bind_Ok in Hc as (os & Hos & Hc).
      destruct (first_such _ _) as [[d o]|] eqn:Hf; injection Hc as <-.
      * apply first_such_split in Hf as (l1 & l2 & -> & Ho & Hl).
        apply classified_blocked; try done; [by apply blocks_true|].
        intros p Hp. by apply blocks_false, Hl.
      * constructor; try done. rewrite first_such_None in Hf.
        intros p Hp. by apply blocks_false, Hf.
  - destruct 1 as [r He|l1 d o l2 He Hos Ho Hl|os He Hos Hl]; rewrite He; [done| |].
    + rewrite Hos. cbn [mbind res_bind]. rewrite first_such_app; [done| |].
      * by apply blocks_true.
      * intros p Hp. by apply blocks_false, Hl.
    + rewrite Hos. cbn [mbind res_bind]. rewrite (proj2 (first_such_None _ _)); [done|].
      intros p Hp. by apply blocks_false, Hl.
Qed.

(** Which outcomes block, dimension by dimension. *)
Lemma blocks_product o :
  blocks (of_ProductIdentityOutcome o) = false ↔ o = ProductIdentityOutcome.QUALIFIED.
Proof. by destruct o; vm_compute. Qed.

Lemma blocks_currency o :
  blocks (of_CurrencyOutcome o) = false ↔
  o = CurrencyOutcome.EXACT ∨ o = CurrencyOutcome.EXACT_ZERO_AMOUNT.
Proof. destruct o; vm_compute; naive_solver. Qed.

Lemma blocks_cadence o :
  blocks (of_CadenceOutcome o) = false ↔ o ∈ (snd <$> CADENCE_BY_WHOLE_MONTHS).
Proof.
  unfold blocks. rewrite bool_decide_eq_false. destruct o; split; intros Ho;
    first [apply (bool_decide_unpack _); vm_compute; exact I
          |exfalso; apply (bool_decide_unpack _) in Ho; done
          |exfalso; apply Ho; apply (bool_decide_unpack _); vm_compute; exact I
          |exfalso; clear -Ho; apply (bool_decide_pack _) in Ho; done].
Qed.

Lemma blocks_proration o :
  blocks (of_ProrationOutcome o) = false ↔ o ≠ ProrationOutcome.ANCHOR_INDETERMINATE.
Proof. destruct o; vm_compute; naive_solver. Qed.

Lemma blocks_frozen o :
  blocks (of_FrozenContentOutcome o) = false ↔ o = FrozenContentOutcome.TRANSLATABLE.
Proof. by destruct o; vm_compute. Qed.

(** A cadence of the table means a whole number of months. *)
Lemma cadence_outcome_months row c :
  well_formed_row row →
  cadence_outcome (term_start row) (term_end_exclusive row) = Ok c →
  c ∈ (snd <$> CADENCE_BY_WHOLE_MONTHS) ↔
  ∃ s e k c', term_start row = Some s ∧ term_end_exclusive row = Some e ∧
    (k, c') ∈ CADENCE_BY_WHOLE_MONTHS ∧ add_months s k = Ok e.
Proof.
  intros (_ & Hs & _) Hc. split.
  - intros ([k c'] & -> & Hk)%list_elem_of_fmap. simpl in Hc.
    destruct (cadence_table_bounds _ _ Hk) as (_ & _ & _ & Hopen).
    destruct (term_start row) as [s|], (term_end_exclusive row) as [e|];
      try (exfalso; injection Hc as <-; exact (Hopen eq_refl)).
    exists s, e, k, c'. split_and!; try done.
    apply (cadence_outcome_table s e k c'); auto.
  - intros (s & e & k & c' & Hts & Hte & Hk & Ha). rewrite Hts, Hte in Hc.
    rewrite (proj2 (cadence_outcome_table s e k c' (Hs _ Hts) Hk) Ha) in Hc.
    injection Hc as <-. apply list_elem_of_fmap. by exists (k, c').
Qed.

Lemma status_partition s :
  s ∈ KNOWN_AGREEMENT_STATUSES →
  s ∉ PRE_COMMERCIAL_STATUSES → s ∉ ENDED_STATUSES → s ∉ SUPERSEDED_STATUSES →
  s ∈ LIVE_STATUSES.
Proof. unfold KNOWN_AGREEMENT_STATUSES. rewrite !elem_of_app. tauto. Qed.

Lemma live_not_others s :
  s ∈ LIVE_STATUSES →
  (s ∉ PRE_COMMERCIAL_STATUSES) ∧ (s ∉ ENDED_STATUSES) ∧ (s ∉ SUPERSEDED_STATUSES).
Proof.
  intros Hs. unfold LIVE_STATUSES in Hs. simpl in Hs.
  rewrite !elem_of_cons, elem_of_nil in Hs.
  destruct Hs as [->|[->|[]]]; split_and!; apply (bool_decide_unpack _);
    vm_compute; exact I.
Qed.

(** Membership of a well-formed agreement line. *)
Lemma exclusion_of_line row :
  SourceRow_init row = Ok row → kind row = SourceKind.AGREEMENT_LINE →
  exclusion_of row = None ↔
  (∃ s, agreement_status row = Some s ∧ s ∈ LIVE_STATUSES) ∧
  is_superseded row = false ∧ 0 < quantity row.
Proof.
  intros Hwf Hk. unfold SourceRow_init, SourceRow_post_init in Hwf. inv_res.
  unfold exclusion_of. rewrite Hk in *. simpl in *.
  destruct (agreement_status row) as [s|] eqn:Hs; [|by rewrite bool_decide_true in *].
  rewrite bool_decide_true in * by done. simpl in *. bool_hyps.
  destruct (is_superseded row); simpl; [by repeat case_bool_decide; naive_solver|].
  split.
  - repeat case_bool_decide; try done. destruct (Z.eqb_spec (quantity row) 0); [done|].
    intros _. split_and!; [|done|lia]. exists s. split; [done|].
    by apply status_partition.
  - intros ((s' & [= <-] & Hl) & _ & Hq).
    destruct (live_not_others s Hl) as (? & ? & ?). rewrite !bool_decide_false by done.
    by rewrite (proj2 (Z.eqb_neq _ _)) by lia.
Qed.

Lemma dimension_outcomes_line row rules os :
  kind row = SourceKind.AGREEMENT_LINE →
  dimension_outcomes row rules = Ok os ↔
  ∃ cadence frozen,
    cadence_outcome (term_start row) (term_end_exclusive row) = Ok cadence ∧
    frozen_content_outcome (content_hash row) (activation_content_hash row) = Ok frozen ∧
    os = [(Dimension.PRODUCT_IDENTITY,
           of_ProductIdentityOutcome
             (product_identity_outcome (product_code row) (sibling_product_codes row)
                (declared_product_codes rules)));
          (Dimension.CURRENCY,
           of_CurrencyOutcome (currency_outcome (amount row) (currency_code row)
             (sibling_currency_codes row)));
          (Dimension.CADENCE, of_CadenceOutcome cadence);
          (Dimension.PRORATION,
           of_ProrationOutcome (proration_outcome (term_start row) cadence));
          (Dimension.FROZEN_CONTENT, of_FrozenContentOutcome frozen)].
Proof.
  intros Hk. unfold dimension_outcomes. rewrite Hk. split.
  - intros H0. inv_res. eauto 10.
  - intros (cd & fr & -> & -> & ->). done.
Qed.

Lemma proration_not_indeterminate s c :
  c ∈ (snd <$> CADENCE_BY_WHOLE_MONTHS) →
  proration_outcome (Some s) c ≠ ProrationOutcome.ANCHOR_INDETERMINATE.
Proof.
  intros Hc. unfold proration_outcome. rewrite bool_decide_true by done. simpl.
  by case_match.
Qed.

Lemma translate_digest_is_ok h : is_ok (translate_digest h) = true ↔ is_content_hash h.
Proof.
  rewrite <- digest_rejection_reason_None. unfold translate_digest. by case_match.
Qed.

Lemma cadence_table_months k c :
  (k, c) ∈ CADENCE_BY_WHOLE_MONTHS → k ∈ [1; 3; 6; 12].
Proof. unfold CADENCE_BY_WHOLE_MONTHS. rewrite !elem_of_cons, !elem_of_nil. naive_solver. Qed.

Lemma months_cadence_table k :
  k ∈ [1; 3; 6; 12] → ∃ c, (k, c) ∈ CADENCE_BY_WHOLE_MONTHS.
Proof.
  unfold CADENCE_BY_WHOLE_MONTHS. rewrite !elem_of_cons, elem_of_nil.
  intros [->|[->|[->|[->|[]]]]]; eexists;
    rewrite !elem_of_cons, elem_of_nil; naive_solver.
Qed.

(** A line is MAPPED when membership keeps it and none of its five outcomes
    blocks. *)
Lemma classify_mapped_line row rules :
  kind row = SourceKind.AGREEMENT_LINE →
  (∃ os, classify row rules = Ok (mkRowVerdict Bucket.MAPPED None None os)) ↔
  ∃ cd fr, exclusion_of row = None ∧
    cadence_outcome (term_start row) (term_end_exclusive row) = Ok cd ∧
    frozen_content_outcome (content_hash row) (activation_content_hash row) = Ok fr ∧
    product_identity_outcome (product_code row) (sibling_product_codes row)
      (declared_product_codes rules) = ProductIdentityOutcome.QUALIFIED ∧
    (let money := currency_outcome (amount row) (currency_code row)
                    (sibling_currency_codes row) in
     money = CurrencyOutcome.EXACT ∨ money = CurrencyOutcome.EXACT_ZERO_AMOUNT) ∧
    cd ∈ (snd <$> CADENCE_BY_WHOLE_MONTHS) ∧ fr = FrozenContentOutcome.TRANSLATABLE.
Proof.
  intros Hk. setoid_rewrite classify_spec. cbn zeta. split.
  - intros [os Hc]. inversion Hc as [| |os' He Hos Hl]; subst os'.
    apply dimension_outcomes_line in Hos as (cd & fr & Hcd & Hfr & ->); [|done].
    exists cd, fr. setoid_rewrite <- blocks_false in Hl.
    rewrite <- blocks_currency, <- blocks_product, <- blocks_cadence, <- blocks_frozen.
    apply Forall_forall in Hl. rewrite !Forall_cons in Hl. naive_solver.
  - intros (cd & fr & He & Hcd & Hfr & Hp & Hm & Hc & ->).
    eexists. apply classified_mapped; [done| |].
    { apply dimension_outcomes_line; [done|]. by exists cd, FrozenContentOutcome.TRANSLATABLE. }
    assert (proration_outcome (term_start row) cd ≠ ProrationOutcome.ANCHOR_INDETERMINATE).
    { destruct (term_start row) as [s|]; [by apply proration_not_indeterminate|].
      exfalso. injection Hcd as <-. apply list_elem_of_fmap in Hc as ([k c] & Hc & Hkc).
      destruct (cadence_table_bounds _ _ Hkc) as (_ & _ & _ & Hno). by destruct Hno. }
    intros p. rewrite !elem_of_cons, elem_of_nil. setoid_rewrite <- blocks_false.
    intros [->|[->|[->|[->|[->|[]]]]]]; cbn [snd];
      [by apply blocks_product|by apply blocks_currency|by apply blocks_cadence|
       by apply blocks_proration|by apply blocks_frozen].
Qed.

(** Exactly which agreement lines go: a constructed line is MAPPED if and
    only if its agreement is live and not superseded, its quantity is positive,
    its product is QUALIFIED, its amount is exact money, its term is exactly
    1, 3, 6 or 12 calendar months, and its content hash is 64 lowercase hex
    characters that the activation, if any, is bound to. *)
Theorem mapped_line row rules :
  well_formed_row row → kind row = SourceKind.AGREEMENT_LINE →
  (∃ os, classify row rules = Ok (mkRowVerdict Bucket.MAPPED None None os)) ↔
  (∃ s, agreement_status row = Some s ∧ s ∈ LIVE_STATUSES) ∧
  is_superseded row = false ∧ 0 < quantity row ∧
  product_identity_outcome (product_code row) (sibling_product_codes row)
    (declared_product_codes rules) = ProductIdentityOutcome.QUALIFIED ∧
  (let money := currency_outcome (amount row) (currency_code row)
                  (sibling_currency_codes row) in
   money = CurrencyOutcome.EXACT ∨ money = CurrencyOutcome.EXACT_ZERO_AMOUNT) ∧
  (∃ s e k, term_start row = Some s ∧ term_end_exclusive row = Some e ∧
     k ∈ [1; 3; 6; 12] ∧ add_months s k = Ok e) ∧
  (∃ h, content_hash row = Some h ∧ is_content_hash h ∧
     ∀ a, activation_content_hash row = Some a → a = h).
Proof.
  intros Hwf Hk. pose proof (exclusion_of_line row (proj1 Hwf) Hk) as Hex.
  pose proof (λ c, cadence_outcome_months row c Hwf) as Hmonths.
  destruct (frozen_content_translatable (content_hash row) (activation_content_hash row))
    as [[fr Hfr] Htr].
  setoid_rewrite classify_mapped_line; [|done]. cbn zeta. split.
  - intros (cd & fr' & He & Hcd & Hfr' & Hp & Hm & Hc & Hf).
    apply Hex in He as (? & ? & ?).
    apply (Hmonths cd Hcd) in Hc as (s & e & k & c' & ? & ? & ?%cadence_table_months & ?).
    subst fr'. apply Htr in Hfr' as (h & ? & ?%translate_digest_is_ok & ?).
    split_and!; try done; [by exists s, e, k|by exists h].
  - intros (? & ? & ? & Hp & Hm & (s & e & k & Hs & He & Hk' & Ha) & (h & ? & ? & ?)).
    apply months_cadence_table in Hk' as [c' Hkc]. destruct Hwf as (_ & Hvs & _).
    exists c', FrozenContentOutcome.TRANSLATABLE. split_and!; try done.
    + apply Hex. done.
    + rewrite Hs, He. apply (cadence_outcome_table s e k); auto.
    + apply Htr. exists h. split_and!; [done|by apply translate_digest_is_ok|done].
    + apply list_elem_of_fmap. by exists (k, c').
Qed.

Lemma dimension_outcomes_Raise row rules x :
  dimension_outcomes row rules = Raise x ↔
  cadence_outcome (term_start row) (term_end_exclusive row) = Raise x.
Proof.
  unfold dimension_outcomes.
  destruct (frozen_content_translatable (content_hash row) (activation_content_hash row))
    as [[fr Hfr] _].
  destruct (cadence_outcome _ _); cbn [mbind res_bind]; [|naive_solver].
  rewrite Hfr. by split; intros [=].
Qed.

Lemma classify_Raise row rules x :
  classify row rules = Raise x ↔
  exclusion_of row = None ∧
  cadence_outcome (term_start row) (term_end_exclusive row) = Raise x.
Proof.
  rewrite <- (dimension_outcomes_Raise row rules). unfold classify.
  destruct (exclusion_of row) as [r|]; [split; [done|naive_solver]|].
  destruct (dimension_outcomes row rules) as [os|y]; cbn [mbind res_bind].
  - assert (Hi : ∀ v, v = mkRowVerdict Bucket.MAPPED None None os ∨
      (∃ d, v = mkRowVerdict Bucket.BLOCKED None (Some d) os) → RowVerdict_init v = Ok v)
      by (intros ? [->|[? ->]]; reflexivity).
    destruct (first_such _ _) as [[]|]; rewrite Hi by eauto;
      (split; [intros [=]|intros [_ [=]]]).
  - naive_solver.
Qed.

(** Rows whose term starts before the last two years of the calendar. *)
Definition tame (row : SourceRow) : Prop :=
  ∀ d, term_start row = Some d → valid_date d ∧ year d ≤ 9997.

Lemma classify_tame row rules : tame row → ∃ v, classify row rules = Ok v.
Proof.
  intros Ht. destruct (classify row rules) as [v|x] eqn:Hc; [by exists v|].
  apply classify_Raise in Hc as [_ Hc].
  destruct (cadence_total (term_start row) (term_end_exclusive row)) as [c Hc'].
  { exact Ht. }
  congruence.
Qed.

(** C36: classification is a partition with one gap: on a constructed row,
    [classify] returns exactly the verdict of its specification, and it raises
    exactly when the row is a member, its term is positive, starts in the last
    24 months of the calendar and is not a whole number of months up to 24. *)
Theorem classify_total row rules :
  well_formed_row row →
  (∀ v, classify row rules = Ok v ↔ classified row rules v) ∧
  (∀ x, classify row rules = Raise x ↔
     x = Exn ValueError "year is out of range" ∧ exclusion_of row = None ∧
     ∃ s e, term_start row = Some s ∧ term_end_exclusive row = Some e ∧
       date_ltb s e = true ∧ 120000 ≤ month_index s + 24 ∧
       ∀ k, 1 ≤ k ≤ 24 → add_months s k ≠ Ok e).
Proof.
  intros (_ & Hvs & _). split; [apply classify_spec|]. intros x. rewrite classify_Raise.
  destruct (term_start row) as [s|]; [|naive_solver].
  destruct (term_end_exclusive row) as [e|]; [|naive_solver].
  rewrite cadence_raises by auto. naive_solver.
Qed.

(** Every outcome a verdict carries is tallied in its dimension's own class. *)
Lemma dimension_outcomes_shape row rules os :
  dimension_outcomes row rules = Ok os →
  os.*1 = DIMENSIONS_BY_SOURCE_KIND (kind row) ∧
  ∀ d o, (d, o) ∈ os → class_of o = TALLY_DOMAIN (DIMENSION_SUBJECT d).
Proof.
  unfold dimension_outcomes. intros H0. inv_res. split.
  - induction (DIMENSIONS_BY_SOURCE_KIND (kind row)); csimpl; congruence.
  - intros d o (d' & Heq & _)%list_elem_of_fmap. simplify_eq. by destruct d'.
Qed.

Lemma classified_shape row rules v :
  classified row rules v →
  (outcomes v).*1 = (if bool_decide (bucket v = Bucket.EXCLUDED) then []
                     else DIMENSIONS_BY_SOURCE_KIND (kind row)) ∧
  (∀ d o, (d, o) ∈ outcomes v → class_of o = TALLY_DOMAIN (DIMENSION_SUBJECT d)) ∧
  (bucket v = Bucket.EXCLUDED ↔ exclusion v ≠ None) ∧
  (bucket v = Bucket.BLOCKED ↔ blocking_dimension v ≠ None).
Proof.
  destruct 1 as [r He|l1 d o l2 He Hos Ho Hl|os He Hos Hl];
    cbn [outcomes bucket exclusion blocking_dimension].
  - split_and!; [done| |done|done]. intros ?? []%elem_of_nil.
  - apply dimension_outcomes_shape in Hos as [? ?]. split_and!; done.
  - apply dimension_outcomes_shape in Hos as [? ?]. split_and!; done.
Qed.

End classification.

(** ** Concrete rows *)

Definition example_line (start end_ : date) : SourceRow :=
  {| kind := SourceKind.AGREEMENT_LINE; fingerprint := replicate 64 48;
     amount := lit "120.00"; currency_code := lit "USD";
     product_code := Some (lit "erp"); sibling_product_codes := [];
     sibling_currency_codes := []; quantity := 1; referenced_by_cohort_line := true;
     agreement_status := Some (lit "ACTIVE"); is_superseded := false;
     content_hash := Some (replicate 64 97);
     activation_content_hash := Some (replicate 64 97);
     term_start := Some start; term_end_exclusive := Some end_ |}.

Definition example_rules : CohortRules := mkCohortRules {[ lit "erp" ]}.

Lemma example_line_well_formed s e :
  valid_date s → valid_date e → well_formed_row (example_line s e).
Proof. intros Hs He. split_and!; [reflexivity|naive_solver|naive_solver]. Qed.

Lemma mapped_line_witness :
  ∃ os, classify (example_line (Date 2024 1 31) (Date 2024 2 29)) example_rules
    = Ok (mkRowVerdict Bucket.MAPPED None None os).
Proof.
  apply mapped_line; [by apply example_line_well_formed|done|].
  split_and!.
  - exists (lit "ACTIVE"). split; [done|by left].
  - done.
  - done.
  - vm_compute. reflexivity.
  - left. vm_compute. reflexivity.
  - exists (Date 2024 1 31), (Date 2024 2 29), 1. split_and!; [done..|by left|done].
  - exists (replicate 64 97). split_and!; [done|done|naive_solver].
Defined.

Lemma classify_total_witness :
  (∃ v, classify (example_line (Date 2024 1 31) (Date 2024 2 29)) example_rules = Ok v) ∧
  ∃ x, classify (example_line (Date 9999 1 1) (Date 9999 2 15)) example_rules = Raise x.
Proof.
  split.
  - eexists. apply classify_total; [by apply example_line_well_formed|].
    apply classified_mapped; [reflexivity|vm_compute; reflexivity|].
    intros p Hp. apply blocks_false.
    repeat (apply elem_of_cons in Hp as [->|Hp]; [vm_compute; reflexivity|]).
    by apply elem_of_nil in Hp.
  - eexists. apply classify_total; [by apply example_line_well_formed|].
    split_and!; [reflexivity|reflexivity|].
    exists (Date 9999 1 1), (Date 9999 2 15). split_and!; [done..|].
    intros k Hk Ha. apply add_months_Ok in Ha as (_ & Hm & _ & Hd); [|done].
    unfold month_index in Hm. simpl in *. lia.
Defined.
