(* ===== verification/Reports.v ===== *)
(** * Value-free reports

    [commercial_backfill/report.py]: counts, tallies over one closed class,
    parity lines, whole reports, and the renderer with its egress check. *)

From S2P Require Import Prelude PyText Vocabulary.

#[local] Open Scope Z_scope.

Record Count := mkCount { value : Z }.

#[export] Instance Count_eq_dec : EqDecision Count.
Proof. solve_decision. Defined.

(** [Count(v)]: the constructor refuses a negative number. *)
Definition Count_init (v : Z) : res Count :=
  ensure (negb (v <? 0)) (Exn UnsafeReportValue "a count is never negative");;
  Ok (mkCount v).

Definition Count_add (self other : Count) : res Count :=
  Count_init (value self + value other).

Definition ZERO : Count := mkCount 0.

Definition counted (v : Z) : res Count := Count_init v.

Record Tally := mkTally { subject : TallySubject.t; counts : list (member * Count) }.

#[export] Instance Tally_eq_dec : EqDecision Tally.
Proof. solve_decision. Defined.

(** The loop of [Tally.__post_init__], with the members it has seen. *)
Fixpoint Tally_check (domain : enum_type) (seen : list member)
    (counts : list (member * Count)) : res unit :=
  match counts with
  | [] => Ok tt
  | (member, _) :: counts =>
      ensure (isinstance member domain) (Exn UnsafeReportValue "");;
      ensure (negb (bool_decide (member ∈ seen)))
        (Exn UnsafeReportValue "a tally names each member once");;
      Tally_check domain (member :: seen) counts
  end.

Definition Tally_init (subject : TallySubject.t) (counts : list (member * Count))
    : res Tally :=
  Tally_check (TALLY_DOMAIN subject) [] counts;;
  Ok (mkTally subject counts).

(** [Tally.total]. *)
Fixpoint add_counts (result : Count) (counts : list (member * Count)) : res Count :=
  match counts with
  | [] => Ok result
  | (_, count) :: counts => r ← Count_add result count; add_counts r counts
  end.
Definition total (self : Tally) : res Count := add_counts ZERO (counts self).

(** [Tally.nonzero]. *)
Definition nonzero (self : Tally) : list (member * Count) :=
  filter (λ p, value p.2 ≠ 0) (counts self).

(** [Tally.of]. *)
Definition Tally_of (self : Tally) (m : member) : Count :=
  match first_such (λ p, bool_decide (p.1 = m)) (counts self) with
  | Some (_, count) => count
  | None => ZERO
  end.

(** The counting loop of [tally], over the members of the domain. *)
Fixpoint tally_counts (domain : list member) (tallied : list member)
    : res (list (member * Count)) :=
  match domain with
  | [] => Ok []
  | m :: domain =>
      let hits := filter (λ candidate, candidate = m) tallied in
      match hits with
      | [] => tally_counts domain tallied
      | _ :: _ =>
          c ← Count_init (Z.of_nat (length hits));
          rest ← tally_counts domain tallied;
          Ok ((m, c) :: rest)
      end
  end.

Definition tally (subject : TallySubject.t) (members : list member) : res Tally :=
  let domain := TALLY_DOMAIN subject in
  ensure (negb (existsb (λ candidate, negb (isinstance candidate domain)) members))
    (Exn UnsafeReportValue "");;
  counts ← tally_counts (class_members domain) members;
  Tally_init subject counts.

(** The comprehension of [counted_tally], over the members of the domain. *)
Fixpoint observed_counts (domain : list member) (counts : list (member * Z))
    : res (list (member * Count)) :=
  match domain with
  | [] => Ok []
  | m :: domain =>
      match dict_get counts m with
      | None => observed_counts domain counts
      | Some v =>
          c ← counted v;
          rest ← observed_counts domain counts;
          Ok ((m, c) :: rest)
      end
  end.

Definition counted_tally (subject : TallySubject.t) (counts : list (member * Z))
    : res Tally :=
  let domain := TALLY_DOMAIN subject in
  ensure (negb (existsb (λ m, negb (isinstance m domain)) counts.*1))
    (Exn UnsafeReportValue "");;
  cs ← observed_counts (class_members domain) counts;
  Tally_init subject cs.

Record ParityLine := mkParityLine {
  parity_subject : ParitySubject.t;
  verdict : ParityVerdict.t;
}.

Record Report := mkReport { parity : list ParityLine; tallies : list Tally }.

(** The loop of [Report.__post_init__], with the subjects it has seen. *)
Fixpoint Report_check (subjects : list TallySubject.t) (tallies : list Tally)
    : res unit :=
  match tallies with
  | [] => Ok tt
  | item :: tallies =>
      ensure (negb (bool_decide (subject item ∈ subjects)))
        (Exn UnsafeReportValue "a report names each tally subject once");;
      Report_check (subject item :: subjects) tallies
  end.

Definition Report_init (parity : list ParityLine) (tallies : list Tally) : res Report :=
  Report_check [] tallies;; Ok (mkReport parity tallies).

(** [Report.tally_for]. *)
Definition tally_for (self : Report) (s : TallySubject.t) : Tally :=
  match first_such (λ item, bool_decide (subject item = s)) (tallies self) with
  | Some item => item
  | None => mkTally s []
  end.

Definition render_vocabulary : list pystr :=
  ((λ s, lit (name s)) <$> @members TallySubject.t _ _) ++
  ((λ s, lit (name s)) <$> @members ParitySubject.t _ _) ++
  (enum_type ← REPORT_ENUMS;
   m ← class_members enum_type;
   [lit (member_name m)]).

(** [\[A-Z_\]]. *)
Definition name_char (c : Z) : bool := ascii_upper c || (c =? 95).

Definition _NAME : Regex.re :=
  Regex.Cat (Regex.Chr ascii_upper) (Regex.Star (Regex.Chr name_char)).

Definition _LINE : Regex.re :=
  Regex.Cat _NAME
    (Regex.Cat (Regex.Cat (Regex.Chr (Z.eqb 32)) _NAME)
       (Regex.opt (Regex.Cat (Regex.Chr (Z.eqb 32)) (Regex.plus (Regex.Chr ascii_digit))))).

(** [_NAME.findall(s)]: leftmost, greedy, not overlapping; [cur] is the match
    being extended, in reverse. *)
Fixpoint findall_name (cur : option pystr) (s : pystr) : list pystr :=
  match s, cur with
  | [], None => []
  | [], Some w => [reverse w]
  | c :: s, Some w =>
      if name_char c then findall_name (Some (c :: w)) s
      else reverse w :: findall_name None s
  | c :: s, None =>
      if ascii_upper c then findall_name (Some [c]) s else findall_name None s
  end.

(** Whether the loop counts a line as refused. *)
Definition line_refused (line : pystr) : bool :=
  if bool_decide (line = []) then false
  else if negb (Regex.fullmatch _LINE line) then true
  else existsb (λ n, negb (bool_decide (n ∈ render_vocabulary))) (findall_name None line).

Definition refuse_unless_in_vocabulary (text : pystr) : res unit :=
  let refused := count_if (λ line, line_refused line = true) (splitlines text) in
  ensure (bool_decide (refused = 0%nat)) (Exn UnsafeReportValue "").

Definition render_lines (report : Report) : list pystr :=
  ((λ line, lit (name (parity_subject line)) ++ [32] ++ lit (name (verdict line)))
     <$> parity report) ++
  (item ← tallies report;
   (λ p, lit (name (subject item)) ++ [32] ++ lit (member_name p.1) ++ [32] ++
         str_of_nat (Z.to_nat (value p.2))) <$> counts item).

Definition render (report : Report) : res pystr :=
  let text := join [10] (render_lines report) in
  refuse_unless_in_vocabulary text;;
  Ok text.

(** A report as its constructors leave it: every tally holds members of its
    own class, once each, with non-negative counts. *)
Definition well_formed_tally (t : Tally) : Prop :=
  (∀ m c, (m, c) ∈ counts t → class_of m = TALLY_DOMAIN (subject t) ∧ 0 ≤ value c) ∧
  NoDup (counts t).*1.
Definition well_formed_report (r : Report) : Prop :=
  (∀ t, t ∈ tallies r → well_formed_tally t) ∧ NoDup (subject <$> tallies r).

(** What an accepted line looks like. *)
Definition vocabulary_line (line : pystr) : Prop :=
  ∃ a b, a ∈ render_vocabulary ∧ b ∈ render_vocabulary ∧
    (line = a ++ [32] ++ b ∨
     ∃ n, n ≠ [] ∧ forallb ascii_digit n = true ∧ line = a ++ [32] ++ b ++ [32] ++ n).

(** ** Lemmas: tallies *)

Lemma Count_init_Ok v c : Count_init v = Ok c ↔ 0 ≤ v ∧ c = mkCount v.
Proof.
  unfold Count_init. split.
  - intros H. inv_res. bool_hyps. auto.
  - intros [Hv ->]. by rewrite (proj2 (Z.ltb_ge v 0)) by lia.
Qed.

Lemma Count_init_nat n : Count_init (Z.of_nat n) = Ok (mkCount (Z.of_nat n)).
Proof. apply Count_init_Ok. split; [lia|done]. Qed.

Lemma Tally_check_Ok dom seen cs :
  Tally_check dom seen cs = Ok tt ↔
  (∀ m, m ∈ cs.*1 → class_of m = dom ∧ m ∉ seen) ∧ NoDup cs.*1.
Proof.
  revert seen. induction cs as [|[m c] cs IH]; intros seen; csimpl.
  - split; [|done]. intros _. split; [by intros ? []%elem_of_nil|constructor].
  - rewrite NoDup_cons. split.
    + intros H. inv_res. bool_hyps. apply IH in H as [Hm Hnd].
      unfold isinstance in *. bool_hyps. split.
      * intros m' [->|Hm']%elem_of_cons; [done|]. apply Hm in Hm'. set_solver.
      * split; [|done]. intros Hin. apply Hm in Hin. set_solver.
    + intros (Hm & Hc & Hnd). destruct (Hm m) as [Hd Hs]; [by left|].
      unfold isinstance. rewrite (bool_decide_true (class_of m = dom)) by done.
      rewrite (bool_decide_false (m ∈ seen)) by done. cbn.
      apply IH. split; [|done]. intros m' Hm'. destruct (Hm m') as [? ?]; [by right|].
      split; [done|]. rewrite elem_of_cons. intros [->|?]; done.
Qed.

Lemma Tally_init_Ok s cs t :
  Tally_init s cs = Ok t ↔
  t = mkTally s cs ∧ (∀ m, m ∈ cs.*1 → class_of m = TALLY_DOMAIN s) ∧ NoDup cs.*1.
Proof.
  unfold Tally_init. pose proof (Tally_check_Ok (TALLY_DOMAIN s) [] cs) as Hc. split.
  - intros ([] & H & [= <-])%bind_Ok. apply Hc in H as [Hm ?].
    split_and!; try done. intros m Hin. by apply Hm.
  - intros (-> & Hm & Hnd). rewrite (proj2 Hc); [done|]. split; [|done].
    intros m Hin. split; [by apply Hm|]. by intros []%elem_of_nil.
Qed.

(** The histogram of a list, in the order of the domain. *)
Definition histogram (domain tallied : list member) : list (member * Count) :=
  omap (λ m, match count_if (λ c, c = m) tallied with
             | O => None
             | S n => Some (m, mkCount (Z.of_nat (S n)))
             end) domain.

Lemma tally_counts_histogram dom ms : tally_counts dom ms = Ok (histogram dom ms).
Proof.
  unfold histogram. induction dom as [|m dom IH]; [done|]. cbn [tally_counts].
  csimpl. unfold count_if at 1. destruct (filter _ ms) as [|h hs] eqn:Hf; [done|].
  rewrite Count_init_nat. cbn [mbind res_bind]. by rewrite IH.
Qed.

Lemma count_if_pos {A} `{EqDecision A} (m : A) ms :
  count_if (λ c, c = m) ms = 0%nat ↔ m ∉ ms.
Proof.
  split.
  - unfold count_if. intros Hl%nil_length_inv Hm.
    assert (m ∈ filter (λ c, c = m) ms) as Hin by (by apply list_elem_of_filter).
    rewrite Hl in Hin. by apply elem_of_nil in Hin.
  - intros Hm. apply count_if_zero. intros x Hx ->. done.
Qed.

Lemma histogram_elem dom ms m c :
  (m, c) ∈ histogram dom ms ↔
  m ∈ dom ∧ m ∈ ms ∧ c = mkCount (Z.of_nat (count_if (λ x, x = m) ms)).
Proof.
  unfold histogram. rewrite list_elem_of_omap. split.
  - intros (m' & Hm' & Hc). destruct (count_if _ _) eqn:Hn; simplify_eq.
    split_and!; [done| |by rewrite Hn]. destruct (decide (m ∈ ms)) as [|Hno]; [done|].
    apply count_if_pos in Hno. congruence.
  - intros (Hd & Hm & ->). exists m. split; [done|].
    destruct (count_if _ _) eqn:Hn; [|done]. by apply count_if_pos in Hn.
Qed.

Lemma histogram_NoDup dom ms : NoDup dom → NoDup (histogram dom ms).*1.
Proof.
  unfold histogram. induction 1 as [|m dom Hm Hd IH]; csimpl; [constructor|].
  destruct (count_if _ _); [exact IH|]. apply NoDup_cons. split; [|exact IH].
  intros ([m' c] & Hmm & Hin)%list_elem_of_fmap. simpl in Hmm. subst m'. apply Hm.
  by apply (histogram_elem dom ms m c) in Hin as [? _].
Qed.

(** [tally] of members of its own class never raises. *)
Lemma tally_Ok s ms :
  (∀ m, m ∈ ms → class_of m = TALLY_DOMAIN s) →
  tally s ms = Ok (mkTally s (histogram (class_members (TALLY_DOMAIN s)) ms)).
Proof.
  intros Hms. unfold tally.
  assert (existsb (λ c, negb (isinstance c (TALLY_DOMAIN s))) ms = false) as ->.
  { apply not_true_iff_false. intros (m & Hm & Hi)%existsb_exists.
    apply list_elem_of_In, Hms in Hm. unfold isinstance in Hi.
    by rewrite bool_decide_true in Hi. }
  cbn [negb ensure mbind res_bind]. rewrite tally_counts_histogram.
  cbn [mbind res_bind]. apply Tally_init_Ok. split_and!; [done| |].
  - intros m ([m' c] & -> & Hin)%list_elem_of_fmap.
    apply histogram_elem in Hin as (Hd & _). by apply class_members_spec.
  - apply histogram_NoDup, class_members_NoDup.
Qed.

Lemma Tally_of_histogram s dom ms m :
  m ∈ dom →
  Tally_of (mkTally s (histogram dom ms)) m
    = mkCount (Z.of_nat (count_if (λ x, x = m) ms)).
Proof.
  intros Hd. unfold Tally_of. cbn [counts].
  destruct (first_such _ _) as [[m' c]|] eqn:Hf.
  - apply first_such_Some in Hf as [Hin Hm]. simpl in Hm. bool_hyps. subst m'.
    by apply histogram_elem in Hin as (_ & _ & ->).
  - rewrite first_such_None in Hf.
    rewrite (proj2 (count_if_pos m ms)); [done|]. intros Hm.
    assert ((m, mkCount (Z.of_nat (count_if (λ x, x = m) ms))) ∈ histogram dom ms)
      as Hin%Hf by (by apply histogram_elem).
    simpl in Hin. by rewrite bool_decide_true in Hin.
Qed.

Lemma add_counts_Ok cs r :
  0 ≤ value r → (∀ m c, (m, c) ∈ cs → 0 ≤ value c) →
  add_counts r cs = Ok (mkCount (value r + foldr Z.add 0 ((value ∘ snd) <$> cs))).
Proof.
  revert r. induction cs as [|[m c] cs IH]; intros r Hr Hcs; csimpl.
  - by destruct r; rewrite Z.add_0_r.
  - assert (0 ≤ value c) by (apply (Hcs m c); by left).
    unfold Count_add. rewrite (proj2 (Count_init_Ok _ _)) by (split; [lia|done]).
    cbn [mbind res_bind]. rewrite IH; cbn [value]; [|lia|].
    + do 2 f_equal. lia.
    + intros m' c' Hin. apply (Hcs m' c'). by right.
Qed.

(** A tally counts every member it was given, once. *)
Lemma total_histogram s ms :
  (∀ m, m ∈ ms → class_of m = TALLY_DOMAIN s) →
  total (mkTally s (histogram (class_members (TALLY_DOMAIN s)) ms))
    = Ok (mkCount (Z.of_nat (length ms))).
Proof.
  intros Hms. unfold total. cbn [counts].
  rewrite add_counts_Ok; [|done|].
  2:{ intros m c (_ & _ & ->)%histogram_elem. simpl. lia. }
  cbn [value ZERO]. rewrite (count_if_split id (class_members (TALLY_DOMAIN s)) ms).
  - do 2 f_equal. unfold histogram.
    induction (class_members (TALLY_DOMAIN s)) as [|m dom IH]; [done|]. csimpl.
    unfold id at 1. destruct (count_if _ ms) as [|n]; cbn [app]; [exact IH|].
    csimpl. cbn [value]. unfold id in *. lia.
  - apply class_members_NoDup.
  - intros m Hm. by apply class_members_spec, Hms.
Qed.

(** The order of the input does not show. *)
Lemma histogram_perm dom ms ms' : ms ≡ₚ ms' → histogram dom ms = histogram dom ms'.
Proof.
  intros Hp. unfold histogram. apply list_omap_ext.
  apply Forall2_same_length_lookup_2; [done|]. intros i x y Hx Hy. simplify_eq.
  by rewrite (count_if_perm _ _ _ Hp).
Qed.

#[export] Instance histogram_proper dom : Proper ((≡ₚ) ==> (=)) (histogram dom).
Proof. intros ms ms'. apply histogram_perm. Qed.

(** ** Lemmas: rendered lines *)

Definition is_name (w : pystr) : Prop :=
  ∃ c t, w = c :: t ∧ ascii_upper c = true ∧ forallb name_char t = true.

Lemma name_spec w : Regex.matches _NAME w ↔ is_name w.
Proof. apply Regex.matches_ident. Qed.

Lemma ascii_upper_name c : ascii_upper c = true → name_char c = true.
Proof. unfold name_char. by intros ->. Qed.

Lemma is_name_chars w : is_name w → forallb name_char w = true.
Proof. intros (c & t & -> & Hc & Ht). simpl. by rewrite ascii_upper_name, Ht. Qed.

Lemma findall_extend w s t :
  forallb name_char w = true →
  findall_name (Some t) (w ++ s) = findall_name (Some (reverse w ++ t)) s.
Proof.
  revert t. induction w as [|c w IH]; simpl; intros t Hw; [done|]. bool_hyps.
  rewrite H, IH by done. by rewrite reverse_cons, <- app_assoc.
Qed.

Lemma findall_word w s :
  is_name w → findall_name None (w ++ 32 :: s) = w :: findall_name None s.
Proof.
  intros (c & t & -> & Hc & Ht). cbn [app findall_name]. rewrite Hc.
  rewrite findall_extend by done. cbn [findall_name name_char].
  change (name_char 32) with false. cbn match.
  by rewrite reverse_app, reverse_involutive.
Qed.

Lemma findall_word_end w : is_name w → findall_name None w = [w].
Proof.
  intros (c & t & -> & Hc & Ht). cbn [findall_name]. rewrite Hc.
  rewrite <- (app_nil_r t) at 1. rewrite findall_extend by done. cbn [findall_name].
  by rewrite reverse_app, reverse_involutive.
Qed.

Lemma digit_not_upper c : ascii_digit c = true → ascii_upper c = false.
Proof.
  unfold ascii_digit, ascii_upper, between. intros H. bool_hyps.
  apply andb_false_iff. left. apply Z.leb_gt. lia.
Qed.

Lemma findall_digits n : forallb ascii_digit n = true → findall_name None n = [].
Proof.
  induction n as [|c n IH]; simpl; intros Hn; [done|]. bool_hyps.
  by rewrite digit_not_upper, IH.
Qed.

(** The tail of a line: nothing, or a space and a number. *)
Definition line_tail (t : pystr) : Prop :=
  t = [] ∨ ∃ n, n ≠ [] ∧ forallb ascii_digit n = true ∧ t = 32 :: n.

Lemma line_spec line :
  Regex.fullmatch _LINE line = true ↔
  ∃ a b t, is_name a ∧ is_name b ∧ line_tail t ∧ line = a ++ 32 :: b ++ t.
Proof.
  unfold _LINE. rewrite Regex.fullmatch_matches, Regex.matches_cat_inv. split.
  - intros (a & rest & -> & Ha & Hr).
    apply Regex.matches_cat_inv in Hr as (sb & t & -> & Hsb & Ht).
    apply Regex.matches_cat_inv in Hsb as (sp & b & -> & Hsp & Hb).
    apply Regex.matches_chr_inv in Hsp as (? & -> & <-%Z.eqb_eq).
    apply name_spec in Ha, Hb. exists a, b, t. split_and!; try done.
    apply Regex.matches_alt_inv in Ht as [Ht| ->%Regex.matches_eps_inv]; [right|by left].
    apply Regex.matches_cat_inv in Ht as (sp & n & -> & Hsp & Hn).
    apply Regex.matches_chr_inv in Hsp as (? & -> & <-%Z.eqb_eq).
    apply Regex.matches_ident in Hn as (c & n' & -> & Hc & Hn).
    exists (c :: n'). split_and!; [done|simpl; by rewrite Hc|done].
  - intros (a & b & t & Ha & Hb & Ht & ->). apply name_spec in Ha, Hb.
    exists a, (32 :: b ++ t). split_and!; [done|done|].
    apply Regex.matches_cat_inv. exists (32 :: b), t. split_and!; [done| |].
    { apply Regex.matches_cat_inv. exists [32], b. by split_and!; [|constructor|]. }
    destruct Ht as [->|(n & Hne & Hn & ->)]; [apply Regex.m_alt_r; constructor|].
    apply Regex.m_alt_l, Regex.matches_cat_inv. exists [32], n.
    split_and!; [done|by constructor|]. destruct n as [|c n]; [done|].
    simpl in Hn. bool_hyps. apply Regex.matches_ident. by exists c, n.
Qed.

Lemma findall_line a b t :
  is_name a → is_name b → line_tail t → findall_name None (a ++ 32 :: b ++ t) = [a; b].
Proof.
  intros Ha Hb Ht. rewrite findall_word by done.
  destruct Ht as [->|(n & _ & Hn & ->)].
  - by rewrite app_nil_r, findall_word_end.
  - by rewrite findall_word, findall_digits.
Qed.

(** Every declared name is a name of the grammar. *)
Lemma vocabulary_names w : w ∈ render_vocabulary → is_name w.
Proof.
  intros Hw. apply name_spec, Regex.fullmatch_matches. revert w Hw.
  apply Forall_forall. apply (bool_decide_unpack _). vm_compute. exact I.
Qed.

Lemma vocabulary_member m : lit (member_name m) ∈ render_vocabulary.
Proof.
  unfold render_vocabulary. rewrite !elem_of_app. right. right.
  apply list_elem_of_bind. exists (class_of m). split; [|apply REPORT_ENUMS_complete].
  apply list_elem_of_bind. exists m. split; [by left|]. by apply class_members_spec.
Qed.

Lemma line_refused_false line :
  line_refused line = false ↔ line = [] ∨ vocabulary_line line.
Proof.
  unfold line_refused. case_bool_decide as Hl; [naive_solver|]. split.
  - destruct (Regex.fullmatch _ _) eqn:Hm; [|done]. cbn [negb].
    apply line_spec in Hm as (a & b & t & Ha & Hb & Ht & ->).
    rewrite findall_line by done. cbn [existsb]. intros Hv. right. bool_hyps.
    exists a, b. split_and!; [done..|].
    destruct Ht as [->|(n & ? & ? & ->)]; [left; by rewrite app_nil_r|eauto].
  - intros [?|(a & b & Ha & Hb & Hline)]; [done|].
    assert (∃ t, line_tail t ∧ line = a ++ 32 :: b ++ t) as (t & Ht & ->).
    { destruct Hline as [->|(n & ? & ? & ->)].
      - exists []. split; [by left|]. by rewrite app_nil_r.
      - exists (32 :: n). split; [right; eauto|done]. }
    rewrite (proj2 (line_spec _)) by eauto 10 using vocabulary_names.
    rewrite findall_line by eauto using vocabulary_names. cbn [negb existsb].
    by rewrite !bool_decide_true.
Qed.

(** The egress check is exactly the closed vocabulary: a text is let
    through if and only if each of its non-empty lines is two declared names,
    optionally followed by one ASCII number; everything else is refused. *)
Theorem egress_exact text :
  refuse_unless_in_vocabulary text = Ok tt ↔
  ∀ line, line ∈ splitlines text → line = [] ∨ vocabulary_line line.
Proof.
  unfold refuse_unless_in_vocabulary. rewrite ensure_Ok, bool_decide_eq_true.
  setoid_rewrite <- line_refused_false. split.
  - intros Hz line Hline. apply not_true_is_false. intros Hr.
    unfold count_if in Hz. apply nil_length_inv in Hz.
    assert (line ∈ filter (λ l, line_refused l = true) (splitlines text)) as Hin
      by (by apply list_elem_of_filter).
    rewrite Hz in Hin. by apply elem_of_nil in Hin.
  - intros Hall. apply count_if_zero. intros line Hline. by rewrite Hall.
Qed.

(** ** Lemmas: the rendered text splits back into its lines *)

(** The characters of the lines. *)
Definition line_char (c : Z) : bool := name_char c || (c =? 32) || ascii_digit c.

Lemma line_char_plain c : line_char c = true → negb (linebreak c) = true.
Proof.
  unfold line_char, linebreak, name_char, ascii_upper, ascii_digit, between.
  rewrite negb_true_iff, !orb_true_iff, !andb_true_iff, !orb_false_iff, !andb_false_iff.
  rewrite !Z.leb_le, !Z.eqb_eq, !Z.leb_gt, Z.eqb_neq. lia.
Qed.

Lemma forallb_weaken {A} (p q : A → bool) l :
  (∀ x, p x = true → q x = true) → forallb p l = true → forallb q l = true.
Proof. rewrite !forallb_forall. auto. Qed.

Lemma vocabulary_line_plain l : vocabulary_line l → plain_line l.
Proof.
  intros (a & b & Ha & Hb & Hl). apply vocabulary_names in Ha, Hb. split.
  - destruct Ha as (c & t & -> & _). by destruct Hl as [->|(n & _ & _ & ->)].
  - apply (forallb_weaken line_char); [exact line_char_plain|].
    assert (∀ w, is_name w → forallb line_char w = true) as Hname.
    { intros w Hw%is_name_chars. revert Hw. apply forallb_weaken.
      unfold line_char. by intros x ->. }
    destruct Hl as [->|(n & _ & Hn & ->)]; rewrite !forallb_app, (Hname a Ha), (Hname b Hb); [done|].
    simpl. revert Hn. apply forallb_weaken. unfold line_char.
    intros x ->. by rewrite orb_true_r.
Qed.

Lemma render_lines_vocabulary r l :
  well_formed_report r → l ∈ render_lines r → vocabulary_line l.
Proof.
  intros [Hwf _]. unfold render_lines. rewrite elem_of_app.
  intros [(line & -> & _)%list_elem_of_fmap|(t & Hl & Ht)%list_elem_of_bind].
  - exists (lit (name (parity_subject line))), (lit (name (verdict line))).
    split_and!; [apply (vocabulary_member (of_ParitySubject _))
                |apply (vocabulary_member (of_ParityVerdict _))|by left].
  - apply list_elem_of_fmap in Hl as ([m c] & -> & Hm).
    exists (lit (name (subject t))), (lit (member_name m)).
    split_and!; [apply (vocabulary_member (of_TallySubject _))|apply vocabulary_member|].
    right. eexists. split_and!; [apply str_of_nat_nonempty|apply str_of_nat_digits|done].
Qed.

(** Reports built through their constructors are well formed. *)
Lemma Tally_init_wf s cs t :
  (∀ m c, (m, c) ∈ cs → 0 ≤ value c) → Tally_init s cs = Ok t → well_formed_tally t.
Proof.
  intros Hcs (-> & Hm & Hnd)%Tally_init_Ok. split; [|done]. cbn [counts subject].
  intros m c Hin. split; [|by eapply Hcs]. apply Hm, list_elem_of_fmap. by exists (m, c).
Qed.

Lemma tally_wf s ms t : tally s ms = Ok t → well_formed_tally t.
Proof.
  unfold tally. intros H. inv_res. rewrite tally_counts_histogram in *. inv_res.
  eapply Tally_init_wf; [|done]. intros m c (_ & _ & ->)%histogram_elem. simpl. lia.
Qed.

Lemma Report_check_Ok seen ts :
  Report_check seen ts = Ok tt ↔
  (∀ t, t ∈ ts → subject t ∉ seen) ∧ NoDup (subject <$> ts).
Proof.
  revert seen. induction ts as [|t ts IH]; intros seen; csimpl.
  - split; [|done]. intros _. split; [by intros ? []%elem_of_nil|constructor].
  - rewrite NoDup_cons. split.
    + intros ([] & Hs & Hc)%bind_Ok. apply ensure_Ok in Hs. bool_hyps.
      apply IH in Hc as [Hts Hnd]. split_and!; [|intros (t' & Heq & Hin)%list_elem_of_fmap|done].
      * intros t' [->|Hin]%elem_of_cons; [done|]. apply Hts in Hin. set_solver.
      * apply Hts in Hin. set_solver.
    + intros (Hts & Ht & Hnd). rewrite bool_decide_false by (apply Hts; by left).
      cbn. apply IH. split; [|done]. intros t' Ht'. rewrite elem_of_cons.
      intros [Heq|Hin]; [|by apply (Hts t'); [right|]].
      apply Ht. rewrite <- Heq. by apply list_elem_of_fmap_2.
Qed.

Lemma Report_init_Ok p ts r :
  Report_init p ts = Ok r ↔ r = mkReport p ts ∧ NoDup (subject <$> ts).
Proof.
  unfold Report_init. split.
  - intros ([] & [_ Hc]%Report_check_Ok & [= <-])%bind_Ok. done.
  - intros [-> Hnd]. rewrite (proj2 (Report_check_Ok [] ts)); [done|].
    split; [|done]. by intros ? _ []%elem_of_nil.
Qed.

Lemma Report_init_one p t : Report_init p [t] = Ok (mkReport p [t]).
Proof. apply Report_init_Ok. split; [done|apply NoDup_singleton]. Qed.

(** The renderer never trips its own egress check: every report that its
    constructors let exist renders, and the text splits back into exactly the
    report's lines, so nothing of it is lost, merged or refused. *)
Theorem render_total r :
  well_formed_report r →
  ∃ text, render r = Ok text ∧ refuse_unless_in_vocabulary text = Ok tt ∧
    splitlines text = render_lines r.
Proof.
  intros Hwf. exists (join [10] (render_lines r)).
  assert (Hls : ∀ l, l ∈ render_lines r → vocabulary_line l)
    by (intros; by eapply render_lines_vocabulary).
  assert (Hsplit : splitlines (join [10] (render_lines r)) = render_lines r).
  { apply splitlines_join. intros l Hl. by apply vocabulary_line_plain, Hls. }
  assert (Hok : refuse_unless_in_vocabulary (join [10] (render_lines r)) = Ok tt).
  { unfold refuse_unless_in_vocabulary. rewrite Hsplit.
    apply ensure_Ok, bool_decide_eq_true, count_if_zero.
    intros l Hl. rewrite (proj2 (line_refused_false l)); [done|right; auto]. }
  split_and!; [|done|done]. unfold render. by rewrite Hok.
Qed.

Lemma render_total_witness :
  ∃ text,
    render (mkReport [mkParityLine ParitySubject.ROW_COUNT ParityVerdict.MATCHED]
                     [mkTally TallySubject.BUCKET
                        [(of_Bucket Bucket.MAPPED, mkCount 12)]]) = Ok text.
Proof.
  destruct (render_total
    (mkReport [mkParityLine ParitySubject.ROW_COUNT ParityVerdict.MATCHED]
              [mkTally TallySubject.BUCKET [(of_Bucket Bucket.MAPPED, mkCount 12)]]))
    as (text & Hr & _ & _); [|exists text; exact Hr].
  split.
  - intros t ->%list_elem_of_singleton. split.
    + intros m c [= -> ->]%list_elem_of_singleton. by split.
    + apply NoDup_singleton.
  - apply NoDup_singleton.
Defined.
