(* ===== verification/Planner.v ===== *)
(** * The dry-run planner

    [commercial_backfill/planner.py]: classify every row once, count, and check
    that the buckets account for every row. *)

From S2P Require Import Prelude PyText PyDate Vocabulary Transforms Cohort Reports.

#[local] Open Scope Z_scope.

Definition COVERAGE_MEMBERS
    : list (SourceKind.t * (SourceCoverage.t * SourceCoverage.t)) :=
  [(SourceKind.OFFER_VERSION,
     (SourceCoverage.OFFER_VERSION_ENUMERATED,
      SourceCoverage.OFFER_VERSION_NOT_ENUMERABLE));
   (SourceKind.AGREEMENT_LINE,
     (SourceCoverage.AGREEMENT_LINE_ENUMERATED,
      SourceCoverage.AGREEMENT_LINE_NOT_ENUMERABLE))].

Record PlanOutcome := mkPlanOutcome {
  report : Report;
  verdicts : list (SourceRow * RowVerdict);
}.

(** The outcomes a list of verdicts carries for one dimension, in order. *)
Definition dimension_members (dimension : Dimension.t)
    (vs : list (SourceRow * RowVerdict)) : list member :=
  p ← vs;
  co ← outcomes p.2;
  if bool_decide (co.1 = dimension) then [co.2] else [].

Definition mapped_dimension_tally (self : PlanOutcome) (dimension : Dimension.t)
    : res Tally :=
  tally (DIMENSION_SUBJECT dimension)
    (dimension_members dimension
       (filter (λ p, bucket p.2 = Bucket.MAPPED) (verdicts self))).

Definition coverage_tally (enumerated : list SourceKind.t) : res Tally :=
  tally TallySubject.SOURCE_COVERAGE
    ((λ '(kind, (yes, no)),
        of_SourceCoverage (if bool_decide (kind ∈ enumerated) then yes else no))
       <$> COVERAGE_MEMBERS).

(** [DIMENSION_ORDER.index(d)]. *)
Fixpoint index_of {A} `{EqDecision A} (x : A) (l : list A) : nat :=
  match l with
  | [] => 0
  | y :: l => if bool_decide (y = x) then 0%nat else S (index_of x l)
  end.

Definition plan `{UnicodeDB} (rows : list SourceRow) (rules : CohortRules)
    (enumerated : list SourceKind.t) : res PlanOutcome :=
  verdicts ← mapM (λ row, v ← classify row rules; Ok (row, v)) rows;
  ensure (bool_decide (length verdicts = length rows))
    (Exn PlanTotalityError "a row was lost between input and classification");;
  buckets ← tally TallySubject.BUCKET ((λ p, of_Bucket (bucket p.2)) <$> verdicts);
  exclusions ← tally TallySubject.EXCLUSION
                 (omap (λ p, of_ExclusionReason <$> exclusion p.2) verdicts);
  blocking ← tally TallySubject.BLOCKING_DIMENSION
               (omap (λ p, of_Dimension <$> blocking_dimension p.2) verdicts);
  kinds ← tally TallySubject.SOURCE_KIND ((λ p, of_SourceKind (kind p.1)) <$> verdicts);
  buckets_total ← total buckets;
  ensure (bool_decide (value buckets_total = Z.of_nat (length rows)))
    (Exn PlanTotalityError "the buckets do not account for every row");;
  exclusions_total ← total exclusions;
  ensure (bool_decide (exclusions_total = Tally_of buckets Bucket.EXCLUDED))
    (Exn PlanTotalityError "an excluded row carries no stated reason");;
  blocking_total ← total blocking;
  ensure (bool_decide (blocking_total = Tally_of buckets Bucket.BLOCKED))
    (Exn PlanTotalityError "a blocked row names no dimension");;
  transformed ← Count_add (Tally_of buckets Bucket.MAPPED) (Tally_of buckets Bucket.BLOCKED);
  dimension_tallies ←
    mapM (λ dimension, tally (DIMENSION_SUBJECT dimension)
                         (dimension_members dimension verdicts)) DIMENSION_ORDER;
  identity ← of_option (dimension_tallies !! index_of Dimension.PRODUCT_IDENTITY DIMENSION_ORDER)
               (Exn IndexError "tuple index out of range");
  identity_total ← total identity;
  ensure (bool_decide (identity_total = transformed))
    (Exn PlanTotalityError "a transformed row has no product-identity outcome");;
  coverage ← coverage_tally enumerated;
  report ← Report_init []
    ([coverage; kinds; buckets; exclusions; blocking] ++ dimension_tallies);
  Ok (mkPlanOutcome report verdicts).

Definition is_complete_cohort (report : Report) : bool :=
  let coverage := tally_for report TallySubject.SOURCE_COVERAGE in
  negb (existsb (λ '(_, (_, no)),
                   negb (bool_decide (value (Tally_of coverage (of_SourceCoverage no)) = 0)))
          COVERAGE_MEMBERS).

(** ** Lemmas *)

(** The tally of members of its own class. *)
Definition tallied (s : TallySubject.t) (ms : list member) : Tally :=
  mkTally s (histogram (class_members (TALLY_DOMAIN s)) ms).

Definition bucket_members (vs : list (SourceRow * RowVerdict)) : list member :=
  (λ p, of_Bucket (bucket p.2)) <$> vs.
Definition exclusion_members (vs : list (SourceRow * RowVerdict)) : list member :=
  omap (λ p, of_ExclusionReason <$> exclusion p.2) vs.
Definition blocking_members (vs : list (SourceRow * RowVerdict)) : list member :=
  omap (λ p, of_Dimension <$> blocking_dimension p.2) vs.
Definition kind_members (vs : list (SourceRow * RowVerdict)) : list member :=
  (λ p, of_SourceKind (kind p.1)) <$> vs.
Definition coverage_members (enumerated : list SourceKind.t) : list member :=
  (λ '(kind, (yes, no)),
        of_SourceCoverage (if bool_decide (kind ∈ enumerated) then yes else no))
       <$> COVERAGE_MEMBERS.

Section plan_lemmas.
Context `{UnicodeDB}.

(** The shape every verdict of [classify] has. *)
Definition sound_verdict (p : SourceRow * RowVerdict) : Prop :=
  (outcomes p.2).*1 = (if bool_decide (bucket p.2 = Bucket.EXCLUDED) then []
                       else DIMENSIONS_BY_SOURCE_KIND (kind p.1)) ∧
  (∀ d o, (d, o) ∈ outcomes p.2 → class_of o = TALLY_DOMAIN (DIMENSION_SUBJECT d)) ∧
  (bucket p.2 = Bucket.EXCLUDED ↔ exclusion p.2 ≠ None) ∧
  (bucket p.2 = Bucket.BLOCKED ↔ blocking_dimension p.2 ≠ None).

Lemma verdicts_of rows rules vs :
  mapM (λ row, v ← classify row rules; Ok (row, v)) rows = Ok vs ↔
  vs.*1 = rows ∧ ∀ row v, (row, v) ∈ vs → classified row rules v.
Proof.
  rewrite mapM_Ok. split.
  - induction 1 as [|row [row' v] rows vs Hv _ [IH1 IH2]]; csimpl.
    { split; [done|]. by intros ?? []%elem_of_nil. }
    apply bind_Ok in Hv as (v' & Hv & [= <- <-]). split; [by rewrite IH1|].
    intros r w [Heq|Hin]%elem_of_cons; [|auto]. simplify_eq. by apply classify_spec.
  - intros [<- Hv]. induction vs as [|[row v] vs IH]; csimpl; constructor.
    + rewrite (proj2 (classify_spec row rules v)); [done|]. apply Hv. by left.
    + apply IH. intros r w Hin. apply Hv. by right.
Qed.

Lemma sound_verdicts rules (vs : list (SourceRow * RowVerdict)) :
  (∀ row v, (row, v) ∈ vs → classified row rules v) → ∀ p, p ∈ vs → sound_verdict p.
Proof. intros Hv [row v] Hp. by apply (classified_shape row rules v), Hv. Qed.

Lemma dimension_members_class d vs m :
  (∀ p, p ∈ vs → sound_verdict p) → m ∈ dimension_members d vs →
  class_of m = TALLY_DOMAIN (DIMENSION_SUBJECT d).
Proof.
  unfold dimension_members. intros Hvs (p & Hm & Hp)%list_elem_of_bind.
  apply list_elem_of_bind in Hm as ([c o] & Hm & Hco). simpl in Hm.
  case_bool_decide as Hc; [|by apply elem_of_nil in Hm].
  apply list_elem_of_singleton in Hm as ->. subst c.
  by destruct (Hvs p Hp) as (_ & Hcl & _); apply Hcl.
Qed.

Lemma dimension_members_app d vs vs' :
  dimension_members d (vs ++ vs') = dimension_members d vs ++ dimension_members d vs'.
Proof. unfold dimension_members. apply bind_app. Qed.

(** One outcome of a dimension per verdict that carries the dimension. *)
Lemma length_dimension_members_one d p :
  length (dimension_members d [p]) = count_if (λ d', d' = d) (outcomes p.2).*1.
Proof.
  unfold dimension_members. cbn [mbind list_bind]. rewrite app_nil_r.
  induction (outcomes p.2) as [|[c o] os IH]; [done|]. csimpl.
  rewrite length_app, count_if_cons. rewrite IH. by case_bool_decide; case_decide.
Qed.

Lemma identity_members_length vs :
  (∀ p, p ∈ vs → sound_verdict p) →
  length (dimension_members Dimension.PRODUCT_IDENTITY vs) =
    (count_if (λ p, bucket p.2 = Bucket.MAPPED) vs +
     count_if (λ p, bucket p.2 = Bucket.BLOCKED) vs)%nat.
Proof.
  induction vs as [|p vs IH]; intros Hvs; [done|].
  change (p :: vs) with ([p] ++ vs). rewrite dimension_members_app, length_app.
  rewrite IH by (intros; apply Hvs; by right). rewrite length_dimension_members_one.
  destruct (Hvs p) as (-> & _); [by left|]. rewrite !count_if_app, !count_if_cons.
  assert (∀ k, count_if (λ d', d' = Dimension.PRODUCT_IDENTITY)
                 (DIMENSIONS_BY_SOURCE_KIND k) = 1%nat) as Hone by (by intros []).
  rewrite !count_if_nil.
  destruct (bucket p.2); repeat case_decide; try done; 
    cbn [bool_decide]; rewrite ?Hone, ?count_if_nil; lia.
Qed.

(** The report a set of verdicts gives. *)
Definition plan_report (vs : list (SourceRow * RowVerdict)) (enumerated : list SourceKind.t)
    : Report :=
  mkReport []
    ([tallied TallySubject.SOURCE_COVERAGE (coverage_members enumerated);
      tallied TallySubject.SOURCE_KIND (kind_members vs);
      tallied TallySubject.BUCKET (bucket_members vs);
      tallied TallySubject.EXCLUSION (exclusion_members vs);
      tallied TallySubject.BLOCKING_DIMENSION (blocking_members vs)] ++
     ((λ d, tallied (DIMENSION_SUBJECT d) (dimension_members d vs)) <$> DIMENSION_ORDER)).

Lemma length_exclusion_members vs :
  (∀ p, p ∈ vs → sound_verdict p) →
  length (exclusion_members vs) = count_if (λ p, bucket p.2 = Bucket.EXCLUDED) vs.
Proof.
  intros Hvs. unfold exclusion_members. rewrite length_omap. apply count_if_iff.
  intros p Hp. destruct (Hvs p Hp) as (_ & _ & -> & _).
  destruct (exclusion p.2); csimpl; naive_solver.
Qed.

Lemma length_blocking_members vs :
  (∀ p, p ∈ vs → sound_verdict p) →
  length (blocking_members vs) = count_if (λ p, bucket p.2 = Bucket.BLOCKED) vs.
Proof.
  intros Hvs. unfold blocking_members. rewrite length_omap. apply count_if_iff.
  intros p Hp. destruct (Hvs p Hp) as (_ & _ & _ & ->).
  destruct (blocking_dimension p.2); csimpl; naive_solver.
Qed.

Lemma bucket_count b vs :
  Tally_of (tallied TallySubject.BUCKET (bucket_members vs)) (of_Bucket b)
    = mkCount (Z.of_nat (count_if (λ p, bucket p.2 = b) vs)).
Proof.
  unfold tallied. rewrite Tally_of_histogram by (by apply class_members_spec).
  do 2 f_equal. unfold bucket_members. rewrite count_if_fmap. apply count_if_iff.
  intros p _. split; [by intros [= ->]|by intros ->].
Qed.

Lemma bucket_members_class vs m :
  m ∈ bucket_members vs → class_of m = TALLY_DOMAIN TallySubject.BUCKET.
Proof. by intros (p & -> & _)%list_elem_of_fmap. Qed.

Lemma exclusion_members_class vs m :
  m ∈ exclusion_members vs → class_of m = TALLY_DOMAIN TallySubject.EXCLUSION.
Proof.
  intros (p & _ & Hm)%list_elem_of_omap. by destruct (exclusion p.2); simplify_eq/=.
Qed.

Lemma blocking_members_class vs m :
  m ∈ blocking_members vs → class_of m = TALLY_DOMAIN TallySubject.BLOCKING_DIMENSION.
Proof.
  intros (p & _ & Hm)%list_elem_of_omap. by destruct (blocking_dimension p.2); simplify_eq/=.
Qed.

Lemma coverage_tally_Ok enumerated :
  coverage_tally enumerated =
    Ok (tallied TallySubject.SOURCE_COVERAGE (coverage_members enumerated)).
Proof.
  unfold coverage_tally. apply tally_Ok.
  by intros m ([k [y n]] & -> & _)%list_elem_of_fmap.
Qed.

Lemma length_bucket_members vs : length (bucket_members vs) = length vs.
Proof. apply length_fmap. Qed.

Lemma Count_add_nat a b :
  Count_add (mkCount (Z.of_nat a)) (mkCount (Z.of_nat b)) = Ok (mkCount (Z.of_nat (a + b))).
Proof. unfold Count_add. cbn [value]. rewrite <- Nat2Z.inj_add. apply Count_init_nat. Qed.

Lemma dimension_tallies_Ok vs :
  (∀ p, p ∈ vs → sound_verdict p) →
  mapM (λ d, tally (DIMENSION_SUBJECT d) (dimension_members d vs)) DIMENSION_ORDER =
    Ok ((λ d, tallied (DIMENSION_SUBJECT d) (dimension_members d vs)) <$> DIMENSION_ORDER).
Proof.
  intros Hs. apply mapM_Ok, Forall2_fmap_r, Forall_Forall2_diag, Forall_true.
  intros d. apply tally_Ok. intros m. by apply dimension_members_class.
Qed.

Lemma total_tallied s ms :
  (∀ m, m ∈ ms → class_of m = TALLY_DOMAIN s) →
  total (tallied s ms) = Ok (mkCount (Z.of_nat (length ms))).
Proof. apply total_histogram. Qed.

(** None of the planner's own checks can fail once every row is classified. *)
Lemma plan_of_verdicts rows rules enumerated vs :
  mapM (λ row, v ← classify row rules; Ok (row, v)) rows = Ok vs →
  plan rows rules enumerated = Ok (mkPlanOutcome (plan_report vs enumerated) vs).
Proof.
  intros Hvs. unfold plan. rewrite Hvs. cbn [mbind res_bind].
  apply verdicts_of in Hvs as [Hrows Hcl].
  pose proof (sound_verdicts rules vs Hcl) as Hs.
  assert (Hlen : length rows = length vs) by (by rewrite <- Hrows, length_fmap).
  rewrite bool_decide_true by done. cbn [ensure mbind res_bind].
  rewrite (tally_Ok _ (bucket_members vs)) by apply bucket_members_class.
  rewrite (tally_Ok _ (exclusion_members vs)) by apply exclusion_members_class.
  rewrite (tally_Ok _ (blocking_members vs)) by apply blocking_members_class.
  rewrite (tally_Ok _ (kind_members vs)) by (by intros m (p & -> & _)%list_elem_of_fmap).
  cbn [mbind res_bind].
  fold (tallied TallySubject.BUCKET (bucket_members vs)).
  fold (tallied TallySubject.EXCLUSION (exclusion_members vs)).
  fold (tallied TallySubject.BLOCKING_DIMENSION (blocking_members vs)).
  rewrite !total_tallied by
    (apply bucket_members_class || apply exclusion_members_class || apply blocking_members_class).
  cbn [mbind res_bind value].
  rewrite !(bucket_count _ vs).
  rewrite length_exclusion_members, length_blocking_members by done.
  rewrite length_bucket_members.
  rewrite !bool_decide_true by (done || congruence). cbn [ensure mbind res_bind].
  rewrite Count_add_nat. cbn [mbind res_bind].
  rewrite dimension_tallies_Ok by done. cbn [mbind res_bind].
  change (((λ d, tallied (DIMENSION_SUBJECT d) (dimension_members d vs)) <$> DIMENSION_ORDER)
            !! index_of Dimension.PRODUCT_IDENTITY DIMENSION_ORDER)
    with (Some (tallied TallySubject.PRODUCT_IDENTITY
                  (dimension_members Dimension.PRODUCT_IDENTITY vs))).
  cbn [of_option mbind res_bind]. rewrite total_tallied by (intros m; by apply (dimension_members_class Dimension.PRODUCT_IDENTITY)).
  cbn [mbind res_bind]. rewrite identity_members_length by done.
  rewrite bool_decide_true by done. cbn [ensure mbind res_bind].
  rewrite coverage_tally_Ok. cbn [mbind res_bind].
  rewrite (proj2 (Report_init_Ok _ _ (plan_report vs enumerated))); [done|].
  split; [done|]. apply (bool_decide_unpack _). vm_compute. exact I.
Qed.

Lemma plan_Ok rows rules enumerated out :
  plan rows rules enumerated = Ok out ↔
  ∃ vs, out = mkPlanOutcome (plan_report vs enumerated) vs ∧ vs.*1 = rows ∧
    ∀ row v, (row, v) ∈ vs → classified row rules v.
Proof.
  setoid_rewrite <- verdicts_of. split.
  - intros Hp. pose proof Hp as Hp'. unfold plan in Hp'.
    apply bind_Ok in Hp' as (vs & Hvs & _). exists vs. split; [|done].
    rewrite (plan_of_verdicts _ _ _ _ Hvs) in Hp. by injection Hp.
  - intros (vs & -> & Hvs). by apply plan_of_verdicts.
Qed.

#[local] Instance tallied_proper s : Proper ((≡ₚ) ==> (=)) (tallied s).
Proof. intros ms ms' Hp. unfold tallied. by rewrite Hp. Qed.

Lemma plan_report_perm vs vs' enumerated :
  vs ≡ₚ vs' → plan_report vs enumerated = plan_report vs' enumerated.
Proof.
  intros Hp. unfold plan_report, kind_members, bucket_members, exclusion_members,
    blocking_members. f_equal. f_equal.
  - by rewrite Hp.
  - apply list_fmap_ext. intros i d _. unfold dimension_members. by rewrite Hp.
Qed.

Lemma count_dimension_one d o (os : list (Dimension.t * member)) :
  NoDup os.*1 →
  count_if (λ m, m = o) (co ← os; if bool_decide (co.1 = d) then [co.2] else []) =
    if decide ((d, o) ∈ os) then 1%nat else 0%nat.
Proof.
  induction os as [|[c o'] os IH]; intros Hnd.
  { by rewrite decide_False by (by intros []%elem_of_nil). }
  apply NoDup_cons in Hnd as [Hc Hnd]. rewrite bind_cons, count_if_app, IH by done.
  cbn [fst snd]. case_bool_decide as Hcd.
  - subst c. rewrite count_if_cons, count_if_nil.
    rewrite (decide_False (P := (d, o) ∈ os))
      by (intros Hin; apply Hc, list_elem_of_fmap; by exists (d, o)).
    destruct (decide (o' = o)) as [->|Hne].
    + by rewrite decide_True by left.
    + rewrite decide_False; [done|]. intros [?|?]%elem_of_cons; [congruence|].
      apply Hc, list_elem_of_fmap. by exists (d, o).
  - rewrite count_if_nil. cbn [Nat.add]. apply decide_ext. rewrite elem_of_cons. naive_solver.
Qed.

Lemma sound_verdict_NoDup p : sound_verdict p → NoDup (outcomes p.2).*1.
Proof.
  intros [-> _]. case_match; [constructor|].
  destruct (kind p.1); apply (bool_decide_unpack _); vm_compute; exact I.
Qed.

Lemma count_dimension d o vs :
  (∀ p, p ∈ vs → sound_verdict p) →
  count_if (λ m, m = o) (dimension_members d vs) =
    count_if (λ p, (d, o) ∈ outcomes p.2) vs.
Proof.
  induction vs as [|p vs IH]; intros Hs; [done|].
  change (dimension_members d (p :: vs)) with
    ((co ← outcomes p.2; if bool_decide (co.1 = d) then [co.2] else []) ++
     dimension_members d vs).
  rewrite count_if_app, count_if_cons, IH by (intros; apply Hs; by right).
  f_equal. apply count_dimension_one, sound_verdict_NoDup, Hs. by left.
Qed.

Lemma mapM_classify_Raise rows rules x :
  mapM (λ row, v ← classify row rules; Ok (row, v)) rows = Raise x →
  ∃ row, row ∈ rows ∧ classify row rules = Raise x.
Proof.
  induction rows as [|row rows IH]; [done|]. cbn [mapM].
  destruct (classify row rules) as [v|y] eqn:Hc; cbn [mbind res_bind].
  - destruct (mapM _ rows) as [vs|y]; cbn [mbind res_bind]; [done|].
    intros Hx. destruct IH as (row' & ? & ?); [done|]. exists row'. split; [by right|done].
  - intros [= ->]. exists row. split; [by left|done].
Qed.

Lemma exclusion_count r vs :
  Tally_of (tallied TallySubject.EXCLUSION (exclusion_members vs)) (of_ExclusionReason r)
    = mkCount (Z.of_nat (count_if (λ p, exclusion p.2 = Some r) vs)).
Proof.
  unfold tallied. rewrite Tally_of_histogram by (by apply class_members_spec).
  do 2 f_equal. unfold exclusion_members. induction vs as [|p vs IH]; [done|].
  rewrite count_if_cons. cbn [omap list_omap].
  destruct (exclusion p.2) as [r'|]; cbn [fmap option_fmap option_map].
  - rewrite count_if_cons, IH. f_equal. by repeat case_decide; naive_solver.
  - rewrite IH. by case_decide.
Qed.

Lemma tally_for_dimension d vs enumerated :
  tally_for (plan_report vs enumerated) (DIMENSION_SUBJECT d) =
    tallied (DIMENSION_SUBJECT d) (dimension_members d vs).
Proof. by destruct d. Qed.

(** How many of a plan's verdicts satisfy [P], as a report counts it. *)
Definition cardinality (P : SourceRow * RowVerdict → Prop)
    `{!∀ p, Decision (P p)} (out : PlanOutcome) : Count :=
  mkCount (Z.of_nat (count_if P (verdicts out))).


(** a report does not depend on the order of the rows: planning any
    permutation of the rows succeeds or fails together, with the same report,
    byte for byte when rendered, and the same verdict for each row. *)
Theorem plan_permutation rows rows' rules enumerated out :
  rows ≡ₚ rows' → plan rows rules enumerated = Ok out →
  ∃ out', plan rows' rules enumerated = Ok out' ∧ report out' = report out ∧
    render (report out') = render (report out) ∧ verdicts out' ≡ₚ verdicts out.
Proof.
  intros Hp (vs & -> & <- & Hcl)%plan_Ok.
  destruct (Permutation_map_inv fst vs (symmetry Hp)) as (vs' & -> & Hvs).
  exists (mkPlanOutcome (plan_report vs' enumerated) vs'). cbn [report verdicts].
  rewrite (plan_report_perm vs' vs) by (by symmetry).
  split_and!; [|done|done|by symmetry]. apply plan_Ok. exists vs'. split_and!; [|done|].
  - by rewrite (plan_report_perm vs' vs) by (by symmetry).
  - intros row v Hin. apply Hcl. by rewrite Hvs.
Qed.

End plan_lemmas.

(** ** Concrete plans *)

Definition example_rows : list SourceRow :=
  [example_line (Date 2024 1 31) (Date 2024 2 29);
   example_line (Date 2024 1 31) (Date 2024 3 2)].


Lemma plan_permutation_witness :
  ∃ out out', plan example_rows example_rules [] = Ok out ∧
    plan (reverse example_rows) example_rules [] = Ok out' ∧ report out' = report out.
Proof.
  destruct (plan example_rows example_rules []) as [out|] eqn:Hp.
  - destruct (plan_permutation example_rows (reverse example_rows) example_rules [] out)
      as (out' & Hp' & Hr & _); [by rewrite reverse_Permutation|done|].
    by exists out, out'.
  - exfalso. vm_compute in Hp. discriminate Hp.
Defined.
