(* ===== verification/Comparator.v ===== *)
(** * The semantic comparator

    [commercial_backfill/comparator.py]: row-count parity and target semantic
    parity of a plan against an observation of the target, as two claims. *)

From S2P Require Import Prelude PyText PyDate Vocabulary Transforms Cohort Reports Planner.

#[local] Open Scope Z_scope.

Record TargetObservation := mkTargetObservation {
  row_count : Count;
  dimension_tallies : list Tally;
}.

(** [TargetObservation.tally_for]. *)
Definition observed_tally_for (self : TargetObservation) (dimension : Dimension.t)
    : option Tally :=
  let s := DIMENSION_SUBJECT dimension in
  first_such (λ item, bool_decide (subject item = s)) (dimension_tallies self).

Definition observe (row_count : Z)
    (dimension_counts : list (Dimension.t * list (member * Z))) : res TargetObservation :=
  n ← counted row_count;
  ts ← mapM (λ p, counted_tally (DIMENSION_SUBJECT p.1) p.2) dimension_counts;
  Ok (mkTargetObservation n ts).

Definition row_count_verdict (plan : PlanOutcome) (observation : TargetObservation)
    : ParityVerdict.t :=
  if negb (is_complete_cohort (report plan)) then ParityVerdict.NOT_COMPARABLE
  else
    let mapped := Tally_of (tally_for (report plan) TallySubject.BUCKET)
                    (of_Bucket Bucket.MAPPED) in
    if bool_decide (mapped = row_count observation) then ParityVerdict.MATCHED
    else ParityVerdict.DIVERGED.

Definition dimension_verdict (plan : PlanOutcome) (observation : TargetObservation)
    (dimension : Dimension.t) : res ParityVerdict.t :=
  if negb (is_complete_cohort (report plan)) then Ok ParityVerdict.NOT_COMPARABLE
  else
    match observed_tally_for observation dimension with
    | None => Ok ParityVerdict.NOT_COMPARABLE
    | Some observed =>
        expected ← mapped_dimension_tally plan dimension;
        Ok (if bool_decide (nonzero expected = nonzero observed)
            then ParityVerdict.MATCHED else ParityVerdict.DIVERGED)
    end.

Definition semantic_verdict (verdicts : list ParityVerdict.t) : ParityVerdict.t :=
  if bool_decide (ParityVerdict.DIVERGED ∈ verdicts) then ParityVerdict.DIVERGED
  else if bool_decide (ParityVerdict.NOT_COMPARABLE ∈ verdicts) ||
          bool_decide (verdicts = [])
  then ParityVerdict.NOT_COMPARABLE
  else ParityVerdict.MATCHED.

Definition compare (plan : PlanOutcome) (observation : TargetObservation) : res Report :=
  per_dimension ← mapM (dimension_verdict plan observation) DIMENSION_ORDER;
  parity_tally ← tally TallySubject.PARITY (of_ParityVerdict <$> per_dimension);
  Report_init
    [mkParityLine ParitySubject.ROW_COUNT (row_count_verdict plan observation);
     mkParityLine ParitySubject.TARGET_SEMANTIC (semantic_verdict per_dimension)]
    [parity_tally].

(** ** Lemmas: histograms as functions *)

(** The entries of a count function over a domain, zeroes left out. *)
Definition entries (f : member → Z) (domain : list member) : list (member * Count) :=
  omap (λ m, if bool_decide (f m = 0) then None else Some (m, mkCount (f m))) domain.

Lemma entries_elem f dom m c :
  (m, c) ∈ entries f dom ↔ m ∈ dom ∧ f m ≠ 0 ∧ c = mkCount (f m).
Proof.
  unfold entries. rewrite list_elem_of_omap. split.
  - intros (m' & ? & Hc). case_bool_decide; simplify_eq. done.
  - intros (? & ? & ->). exists m. split; [done|]. by rewrite bool_decide_false.
Qed.

Lemma entries_eq f g dom : entries f dom = entries g dom ↔ ∀ m, m ∈ dom → f m = g m.
Proof.
  split.
  - intros Heq m Hm. pose proof (λ c, entries_elem f dom m c) as Hf.
    pose proof (λ c, entries_elem g dom m c) as Hg. rewrite Heq in Hf.
    destruct (decide (f m = 0)) as [Hf0|Hf0].
    + destruct (decide (g m = 0)) as [|Hg0]; [congruence|].
      destruct (Hf (mkCount (g m))) as [Hf' _]. destruct Hf' as (_ & ? & _); [|done].
      by apply Hg.
    + destruct (Hg (mkCount (f m))) as [Hg' _]. destruct Hg' as (_ & _ & ?); [|congruence].
      by apply Hf.
  - intros Hfg. unfold entries. induction dom as [|m dom IH]; [done|]. csimpl.
    rewrite (Hfg m) by left. rewrite IH; [done|]. intros; apply Hfg; by right.
Qed.

Lemma nonzero_tallied s ms :
  nonzero (tallied s ms) =
    entries (λ m, Z.of_nat (count_if (λ x, x = m) ms)) (class_members (TALLY_DOMAIN s)).
Proof.
  unfold nonzero, tallied, histogram, entries. cbn [counts].
  induction (class_members _) as [|m dom IH]; [done|]. cbn [omap list_omap].
  destruct (count_if _ ms) as [|n] eqn:Hn.
  - rewrite bool_decide_true by done. exact IH.
  - rewrite filter_cons_True by (simpl; lia). rewrite bool_decide_false by lia.
    by rewrite IH.
Qed.

(** The count an observation states, zero when it states none. *)
Definition stated (counts : list (member * Z)) (m : member) : Z :=
  default 0 (dict_get counts m).

Lemma observed_counts_nonzero dom cs os :
  observed_counts dom cs = Ok os →
  filter (λ p, value p.2 ≠ 0) os = entries (stated cs) dom.
Proof.
  revert os. unfold entries, stated. induction dom as [|m dom IH]; intros os H.
  { by injection H as <-. }
  cbn [observed_counts] in H. cbn [omap list_omap].
  destruct (dict_get cs m) as [v|] eqn:Hv; cbn [default from_option id]; [|auto].
  unfold counted in H. inv_res.
  match goal with H' : Count_init _ = Ok _ |- _ => apply Count_init_Ok in H' as [Hv0 ->] end.
  rewrite filter_cons. cbn [snd value]. case_bool_decide; case_decide; try lia.
  - auto.
  - f_equal. auto.
Qed.

Lemma counted_tally_nonzero s cs t :
  counted_tally s cs = Ok t →
  subject t = s ∧ nonzero t = entries (stated cs) (class_members (TALLY_DOMAIN s)).
Proof.
  unfold counted_tally. intros ([] & _ & H)%bind_Ok.
  apply bind_Ok in H as (os & Hos & (-> & _)%Tally_init_Ok). split; [done|].
  by apply observed_counts_nonzero.
Qed.

(** ** Lemmas: observations and plans *)

Lemma observed_for n dcs obs d :
  observe n dcs = Ok obs →
  row_count obs = mkCount n ∧
  match dict_get dcs d with
  | None => observed_tally_for obs d = None
  | Some cs => ∃ t, observed_tally_for obs d = Some t ∧
      nonzero t = entries (stated cs) (class_members (TALLY_DOMAIN (DIMENSION_SUBJECT d)))
  end.
Proof.
  unfold observe. intros H.
  apply bind_Ok in H as (c & [_ ->]%Count_init_Ok & H).
  apply bind_Ok in H as (ts & Hts & [= <-]). split; [done|].
  apply mapM_Ok in Hts. unfold observed_tally_for. cbn [dimension_tallies].
  induction Hts as [|[d' cs] t dcs ts Ht _ IH]; [done|]. cbn [dict_get first_such].
  apply counted_tally_nonzero in Ht as [Hs Hn]. cbn [fst snd] in *.
  destruct (decide (d = d')) as [<-|Hne].
  - rewrite !bool_decide_true by done. eauto.
  - rewrite (bool_decide_false (d = d')) by done.
    rewrite bool_decide_false; [exact IH|]. rewrite Hs. by intros ?%(inj DIMENSION_SUBJECT).
Qed.

Section comparisons.
Context `{UnicodeDB}.

(** How many mapped rows carry an outcome. *)
Definition mapped_count (out : PlanOutcome) (d : Dimension.t) (o : member) : Z :=
  Z.of_nat (count_if (λ p, bucket p.2 = Bucket.MAPPED ∧ (d, o) ∈ outcomes p.2)
              (verdicts out)).

Lemma complete_cohort vs enumerated :
  is_complete_cohort (plan_report vs enumerated) = true ↔ ∀ k, k ∈ enumerated.
Proof.
  transitivity (SourceKind.OFFER_VERSION ∈ enumerated ∧
                SourceKind.AGREEMENT_LINE ∈ enumerated).
  - rewrite <- (bool_decide_eq_true (SourceKind.OFFER_VERSION ∈ enumerated)),
      <- (bool_decide_eq_true (SourceKind.AGREEMENT_LINE ∈ enumerated)), <- andb_true_iff.
    unfold is_complete_cohort.
    change (tally_for _ _) with
      (tallied TallySubject.SOURCE_COVERAGE (coverage_members enumerated)).
    unfold coverage_members, COVERAGE_MEMBERS. cbn [fmap list_fmap].
    destruct (bool_decide (SourceKind.OFFER_VERSION ∈ enumerated)),
      (bool_decide (SourceKind.AGREEMENT_LINE ∈ enumerated)); vm_compute; done.
  - split; [intros [? ?] []; done|auto].
Qed.

Lemma count_if_filter {A} (P Q : A → Prop)
    `{!∀ x, Decision (P x)} `{!∀ x, Decision (Q x)} l :
  count_if Q (filter P l) = count_if (λ x, P x ∧ Q x) l.
Proof.
  induction l as [|x l IH]; [done|]. rewrite filter_cons, count_if_cons.
  case_decide; rewrite ?count_if_cons, IH; repeat case_decide; naive_solver.
Qed.

Lemma mapped_dimension_tally_Ok rows rules enumerated out d :
  plan rows rules enumerated = Ok out →
  ∃ t, mapped_dimension_tally out d = Ok t ∧
    nonzero t = entries (mapped_count out d)
                  (class_members (TALLY_DOMAIN (DIMENSION_SUBJECT d))).
Proof.
  intros (vs & -> & _ & Hcl)%plan_Ok. pose proof (sound_verdicts _ _ Hcl) as Hs.
  unfold mapped_dimension_tally. cbn [verdicts].
  set (mapped := filter _ vs).
  assert (Hm : ∀ p, p ∈ mapped → sound_verdict p).
  { intros p [_ Hp]%list_elem_of_filter. auto. }
  rewrite tally_Ok by (intros m; by apply dimension_members_class).
  eexists. split; [done|]. fold (tallied (DIMENSION_SUBJECT d) (dimension_members d mapped)).
  rewrite nonzero_tallied. apply entries_eq. intros m _. unfold mapped_count.
  rewrite count_dimension by done. unfold mapped. by rewrite count_if_filter.
Qed.

(** One dimension's verdict against an observation of the target. *)
Lemma dimension_verdict_Ok rows rules enumerated out n dcs obs d :
  plan rows rules enumerated = Ok out → observe n dcs = Ok obs →
  ∃ v, dimension_verdict out obs d = Ok v ∧
  (v = ParityVerdict.MATCHED ↔ (∀ k, k ∈ enumerated) ∧
     ∃ cs, dict_get dcs d = Some cs ∧ ∀ m,
       m ∈ class_members (TALLY_DOMAIN (DIMENSION_SUBJECT d)) →
       mapped_count out d m = stated cs m) ∧
  (v = ParityVerdict.DIVERGED ↔ (∀ k, k ∈ enumerated) ∧
     ∃ cs, dict_get dcs d = Some cs ∧ ¬ ∀ m,
       m ∈ class_members (TALLY_DOMAIN (DIMENSION_SUBJECT d)) →
       mapped_count out d m = stated cs m).
Proof.
  intros Hp Ho. destruct (observed_for n dcs obs d Ho) as [_ Hobs].
  destruct (mapped_dimension_tally_Ok rows rules enumerated out d Hp) as (t & Ht & Hnz).
  apply plan_Ok in Hp as (vs & -> & _). unfold dimension_verdict. cbn [report].
  pose proof (complete_cohort vs enumerated) as Hc.
  destruct (is_complete_cohort _); cbn [negb].
  2:{ eexists. split; [done|]. split; split; try done; intros [Hall _];
        by apply Hc in Hall. }
  assert (∀ k, k ∈ enumerated) as Hall by (by apply Hc).
  destruct (dict_get dcs d) as [cs|].
  - destruct Hobs as (t' & -> & Hnz'). rewrite Ht. cbn [mbind res_bind].
    rewrite Hnz, Hnz'. eexists. split; [done|].
    case_bool_decide as Hm; rewrite entries_eq in Hm; split; split; try done;
      naive_solver.
  - rewrite Hobs. eexists. split; [done|]. split; split; try done; naive_solver.
Qed.

Lemma semantic_verdict_matched vs :
  semantic_verdict vs = ParityVerdict.MATCHED ↔
  vs ≠ [] ∧ ∀ v, v ∈ vs → v = ParityVerdict.MATCHED.
Proof.
  unfold semantic_verdict. split.
  - case_bool_decide as Hd; [done|]. case_bool_decide as Hn; [done|]. simpl.
    case_bool_decide as He; [done|]. intros _. split; [done|].
    intros [] Hv; [done|by destruct Hd|by destruct Hn].
  - intros [Hne Hall]. rewrite bool_decide_false by (intros Hd; by apply Hall in Hd).
    rewrite bool_decide_false by (intros Hd; by apply Hall in Hd).
    by rewrite bool_decide_false.
Qed.

Lemma semantic_verdict_diverged vs :
  semantic_verdict vs = ParityVerdict.DIVERGED ↔ ParityVerdict.DIVERGED ∈ vs.
Proof.
  unfold semantic_verdict. case_bool_decide as Hd; [done|].
  case_match; split; done.
Qed.

Lemma DIMENSION_ORDER_complete d : d ∈ DIMENSION_ORDER.
Proof. destruct d; apply (bool_decide_unpack _); vm_compute; exact I. Qed.

Lemma row_count_verdict_spec rows rules enumerated out n dcs obs :
  plan rows rules enumerated = Ok out → observe n dcs = Ok obs →
  (row_count_verdict out obs = ParityVerdict.MATCHED ↔
     (∀ k, k ∈ enumerated) ∧
     n = Z.of_nat (count_if (λ p, bucket p.2 = Bucket.MAPPED) (verdicts out))) ∧
  (row_count_verdict out obs = ParityVerdict.NOT_COMPARABLE ↔ ¬ ∀ k, k ∈ enumerated).
Proof.
  intros (vs & -> & _ & _)%plan_Ok Ho.
  destruct (observed_for n dcs obs Dimension.CADENCE Ho) as [Hrc _].
  unfold row_count_verdict. cbn [report verdicts].
  rewrite Hrc, <- (complete_cohort vs enumerated).
  change (tally_for _ _) with (tallied TallySubject.BUCKET (bucket_members vs)).
  rewrite bucket_count. destruct (is_complete_cohort _); simpl; [|naive_solver].
  case_bool_decide; naive_solver.
Qed.

(** The verdicts of the five dimensions. *)
Lemma per_dimension_elem out obs vs v :
  mapM (dimension_verdict out obs) DIMENSION_ORDER = Ok vs →
  v ∈ vs ↔ ∃ d, dimension_verdict out obs d = Ok v.
Proof.
  intros Hvs%mapM_Ok. split.
  - intros (i & Hi)%list_elem_of_lookup.
    destruct (Forall2_lookup_r _ _ _ _ _ Hvs Hi) as (d & _ & Hv). eauto.
  - intros [d Hv]. destruct (proj1 (list_elem_of_lookup _ _) (DIMENSION_ORDER_complete d))
      as [i Hi]. destruct (Forall2_lookup_l _ _ _ _ _ Hvs Hi) as (v' & Hv' & Hvv).
    apply list_elem_of_lookup. exists i. congruence.
Qed.

(** the comparator's two claims mean what they say, for any plan and any
    observation entered through [observe]: row counts MATCH exactly when the
    cohort is complete and the target holds as many rows as are MAPPED;
    semantics MATCH exactly when the cohort is complete and, in every one of
    the five dimensions, the target was observed and shows every category as
    often as the mapped rows carry it; semantics DIVERGE exactly when some
    observed dimension disagrees on some category; everything else is
    NOT_COMPARABLE. Matching counts never vouch for unobserved meaning. *)
Theorem compare_claims rows rules enumerated out n dcs obs :
  plan rows rules enumerated = Ok out → observe n dcs = Ok obs →
  let complete := ∀ k, k ∈ enumerated in
  let agrees d cs := ∀ m, m ∈ class_members (TALLY_DOMAIN (DIMENSION_SUBJECT d)) →
                       mapped_count out d m = stated cs m in
  ∃ rc sem t,
    compare out obs = Ok (mkReport [mkParityLine ParitySubject.ROW_COUNT rc;
                                    mkParityLine ParitySubject.TARGET_SEMANTIC sem] [t]) ∧
    (rc = ParityVerdict.MATCHED ↔ complete ∧
       n = Z.of_nat (count_if (λ p, bucket p.2 = Bucket.MAPPED) (verdicts out))) ∧
    (rc = ParityVerdict.NOT_COMPARABLE ↔ ¬ complete) ∧
    (sem = ParityVerdict.MATCHED ↔ complete ∧
       ∀ d, ∃ cs, dict_get dcs d = Some cs ∧ agrees d cs) ∧
    (sem = ParityVerdict.DIVERGED ↔ complete ∧
       ∃ d cs, dict_get dcs d = Some cs ∧ ¬ agrees d cs).
Proof.
  intros Hp Ho complete agrees.
  pose proof (λ d, dimension_verdict_Ok rows rules enumerated out n dcs obs d Hp Ho) as Hd.
  destruct (mapM_Ok_total (dimension_verdict out obs) DIMENSION_ORDER) as [vs Hvs].
  { intros d _. destruct (Hd d) as (v & Hv & _). eauto. }
  unfold compare. rewrite Hvs. cbn [mbind res_bind].
  rewrite tally_Ok by (by intros m (v & -> & _)%list_elem_of_fmap).
  cbn [mbind res_bind]. rewrite Report_init_one.
  eexists _, _, _. split; [done|].
  rewrite semantic_verdict_matched, semantic_verdict_diverged.
  pose proof (λ v, per_dimension_elem out obs vs v Hvs) as Hin.
  split_and!.
  - apply (row_count_verdict_spec rows rules enumerated out n dcs obs Hp Ho).
  - apply (row_count_verdict_spec rows rules enumerated out n dcs obs Hp Ho).
  - split.
    + intros [Hne Hall]. assert (Hv : ∀ d, complete ∧ ∃ cs, dict_get dcs d = Some cs ∧ agrees d cs).
      { intros d. destruct (Hd d) as (v & Hv & Hm & _). apply Hm, Hall, Hin. eauto. }
      split; [apply (Hv Dimension.CADENCE)|intros d; apply Hv].
    + intros [Hc Hall]. split.
      * intros ->. by apply mapM_Ok, Forall2_length in Hvs.
      * intros v [d Hv]%Hin. destruct (Hd d) as (v' & Hv' & Hm & _).
        assert (v' = ParityVerdict.MATCHED) by (apply Hm; auto). congruence.
  - rewrite Hin. split.
    + intros [d Hv]. destruct (Hd d) as (v' & Hv' & _ & Hm).
      assert (v' = ParityVerdict.DIVERGED) as [? (cs & ? & ?)]%Hm by congruence.
      split; [done|]. by exists d, cs.
    + intros (Hc & d & cs & Hg & Hna). exists d. destruct (Hd d) as (v' & Hv' & _ & Hm).
      rewrite Hv'. f_equal. apply Hm. eauto.
Qed.

End comparisons.

Lemma compare_claims_witness :
  ∃ out obs rc sem t,
    plan example_rows example_rules [SourceKind.AGREEMENT_LINE] = Ok out ∧
    observe 1 [] = Ok obs ∧
    compare out obs = Ok (mkReport [mkParityLine ParitySubject.ROW_COUNT rc;
                                    mkParityLine ParitySubject.TARGET_SEMANTIC sem] [t]).
Proof.
  destruct (plan example_rows example_rules [SourceKind.AGREEMENT_LINE]) as [out|] eqn:Hp.
  - destruct (compare_claims example_rows example_rules [SourceKind.AGREEMENT_LINE]
      out 1 [] (mkTargetObservation (mkCount 1) [])) as (rc & sem & t & Hc & _);
      [exact Hp|reflexivity|].
    exists out, (mkTargetObservation (mkCount 1) []), rc, sem, t. by split_and!.
  - exfalso. vm_compute in Hp. discriminate Hp.
Defined.
