(* ===== verification/Enumeration.v ===== *)
(** * Enumerating agreement lines

    [commercial_backfill/enumeration.py], with the pieces of
    [contracts/adapter.py] and [contracts/terms.py] it reads through: the
    bounded walk over the agreement owner's keyset pages, and the projection of
    an agreement into source rows.

    The owner's page reader, its status enumeration and [sha256] are not this
    program's code: they are the variables of the section. *)

From S2P Require Import Prelude PyText PyUuid PyDate Vocabulary Transforms Cohort.
From S2P Require Import Reports Planner Comparator.

#[local] Open Scope Z_scope.

Definition DEFAULT_MAX_AGREEMENT_PAGES : Z := 1000.

(** [terms.py]: inclusive to exclusive term end. *)
Definition end_exclusive_from_inclusive (end_inclusive : date) : res date :=
  match next_day end_inclusive with
  | Ok d => Ok d
  | Raise _ => Raise (Exn TermEndNotRepresentable
      "the inclusive term end has no representable exclusive successor")
  end.

Record LineView := mkLineView {
  line_no : Z;
  line_product_code : pystr;
  capability_code : pystr;
  line_quantity : Z;
  unit_amount : pystr;
  unit_currency_code : pystr;
  offer_ref : option pystr;
  release_ref : option pystr;
}.

Record ContractView := mkContractView {
  agreement_id : uuid;
  reference : pystr;
  agreement_family_id : uuid;
  agreement_version : Z;
  view_product_code : pystr;
  counterparty_ref : pystr;
  agreement_type : pystr;
  view_term_start : date;
  view_term_end_exclusive : date;
  status : pystr;
  view_content_hash : option pystr;
  record_version : Z;
  activation_rule : option pystr;
  superseded_by_id : option uuid;
  approval_request_id : option uuid;
  lines : list LineView;
}.

Record ContractPage := mkContractPage {
  items : list ContractView;
  next_after : option uuid;
}.

(** What the owner's reader returns: its own view of an agreement, with an
    inclusive end, and its page. *)
Record AgreementView := mkAgreementView {
  av_id : uuid;
  av_reference : pystr;
  av_family_id : uuid;
  av_version : Z;
  av_counterparty_ref : pystr;
  av_type : pystr;
  av_effective_date : date;
  av_expiry_date : date;
  av_status : pystr;
  av_content_hash : option pystr;
  av_record_version : Z;
  av_activation_rule : option pystr;
  av_superseded_by_id : option uuid;
  av_lines : list LineView;
}.
Record AgreementPage := mkAgreementPage {
  av_items : list AgreementView;
  av_next_after : option uuid;
}.

Definition _single_product (view : AgreementView) : res pystr :=
  match remove_dups (line_product_code <$> av_lines view) with
  | [product] => Ok product
  | _ => Raise (Exn ConflictError "Vendor agreements must name exactly one product; found ")
  end.

(** [_view(value)], for a page: no approval request id. *)
Definition _view (value : AgreementView) : res ContractView :=
  term_end_exclusive ←
    match end_exclusive_from_inclusive (av_expiry_date value) with
    | Ok d => Ok d
    | Raise (Exn TermEndNotRepresentable _) =>
        Raise (Exn ConflictError
          "the agreement expiry cannot be represented by Vendor's end-exclusive commercial contract")
    | Raise e => Raise e
    end;
  product ← _single_product value;
  Ok (mkContractView (av_id value) (av_reference value) (av_family_id value)
        (av_version value) product (av_counterparty_ref value) (av_type value)
        (av_effective_date value) term_end_exclusive (av_status value)
        (av_content_hash value) (av_record_version value) (av_activation_rule value)
        (av_superseded_by_id value) None (av_lines value)).

Record AgreementLineEnumeration := mkEnumeration {
  rows : list SourceRow;
  coverage : SourceCoverage.t;
  pages_read : Z;
}.

(** [AgreementLineEnumeration.__post_init__]. *)
Definition AgreementLineEnumeration_init (self : AgreementLineEnumeration)
    : res AgreementLineEnumeration :=
  ensure (bool_decide (coverage self ∈ [SourceCoverage.AGREEMENT_LINE_ENUMERATED;
                                        SourceCoverage.AGREEMENT_LINE_NOT_ENUMERABLE]))
    (Exn AgreementEnumerationError "an agreement-line walk carries agreement-line coverage");;
  ensure (negb (pages_read self <? 1))
    (Exn AgreementEnumerationError "an agreement-line walk reads a page");;
  ensure (negb (existsb (λ row, negb (bool_decide (kind row = SourceKind.AGREEMENT_LINE)))
                  (rows self)))
    (Exn AgreementEnumerationError "an agreement-line walk carries agreement lines only");;
  Ok self.

Definition complete (self : AgreementLineEnumeration) : bool :=
  bool_decide (coverage self = SourceCoverage.AGREEMENT_LINE_ENUMERATED).

Section enumeration.
Context `{UDB : UnicodeDB}.
(** [sha256(s.encode()).hexdigest()]. *)
Context (sha256_hexdigest : pystr → pystr).
(** The owner's [AgreementStatus] values and names. *)
Context (AGREEMENT_STATUS_NAMES : list (pystr * pystr)).
Context (SUPERSEDED_AGREEMENT_STATUS : pystr).
(** The owner's page reader over one read-only snapshot. *)
Context (module_list_agreements : option uuid → Z → res AgreementPage).

Definition list_agreements (after : option uuid) (limit : Z) : res ContractPage :=
  page ← module_list_agreements after limit;
  items ← mapM _view (av_items page);
  Ok (mkContractPage items (av_next_after page)).

Definition _line_fingerprint (agreement_id : uuid) (line_no : Z) : res pystr :=
  ensure (negb (line_no <? 1))
    (Exn AgreementEnumerationError "an agreement line has a positive line number");;
  Ok (sha256_hexdigest (lit "agreement-line-v1:" ++ uuid_hex agreement_id ++ lit ":" ++
                        str_of_nat (Z.to_nat line_no))).

Definition _status_name (v : pystr) : res pystr :=
  of_option (dict_get AGREEMENT_STATUS_NAMES v)
    (Exn AgreementEnumerationError
      "an agreement status is outside the exact-pinned owner vocabulary").

Definition _source_row (agreement : ContractView) (line : LineView)
    (sibling_product_codes sibling_currency_codes : list pystr) : res SourceRow :=
  status ← _status_name (status agreement);
  fp ← _line_fingerprint (agreement_id agreement) (line_no line);
  SourceRow_init
    {| kind := SourceKind.AGREEMENT_LINE;
       fingerprint := fp;
       amount := unit_amount line;
       currency_code := unit_currency_code line;
       product_code := Some (line_product_code line);
       sibling_product_codes := sibling_product_codes;
       sibling_currency_codes := sibling_currency_codes;
       quantity := line_quantity line;
       referenced_by_cohort_line := true;
       agreement_status := Some status;
       is_superseded := bool_decide (superseded_by_id agreement ≠ None) ||
                        bool_decide (status = SUPERSEDED_AGREEMENT_STATUS);
       content_hash := view_content_hash agreement;
       activation_content_hash := None;
       term_start := Some (view_term_start agreement);
       term_end_exclusive := Some (view_term_end_exclusive agreement) |}.

Definition _project_agreement (agreement : ContractView) : res (list SourceRow) :=
  let products := line_product_code <$> lines agreement in
  let currencies := unit_currency_code <$> lines agreement in
  rows ← mapM (λ line, _source_row agreement line products currencies) (lines agreement);
  let fingerprints := remove_dups (fingerprint <$> rows) in
  ensure (bool_decide (length fingerprints = length rows))
    (Exn AgreementEnumerationError
      "an agreement page repeats an agreement-line natural key");;
  Ok rows.

(** The loop over one page's agreements. *)
Fixpoint walk_items (seen_agreements : list uuid) (rows : list SourceRow)
    (items : list ContractView) : res (list uuid * list SourceRow) :=
  match items with
  | [] => Ok (seen_agreements, rows)
  | agreement :: items =>
      ensure (negb (bool_decide (agreement_id agreement ∈ seen_agreements)))
        (Exn AgreementEnumerationError "the agreement page stream repeated an agreement");;
      new ← _project_agreement agreement;
      walk_items (agreement_id agreement :: seen_agreements) (rows ++ new) items
  end.

(** The variables of the walk. *)
Record walk_state := mkWalk {
  after : option uuid;
  seen_cursors : list uuid;
  seen_agreements : list uuid;
  walk_rows : list SourceRow;
  walk_pages : Z;
}.

(** [for _ in range(max_pages)], with its break; the result says whether the
    final page was reached. *)
Fixpoint walk_loop (page_size : Z) (max_pages : nat) (s : walk_state)
    : res (walk_state * bool) :=
  match max_pages with
  | O => Ok (s, false)
  | S max_pages =>
      page ← list_agreements (after s) page_size;
      ensure (negb (page_size <? Z.of_nat (length (items page))))
        (Exn AgreementEnumerationError "the agreement reader exceeded its page bound");;
      '(seen, rows) ← walk_items (seen_agreements s) (walk_rows s) (items page);
      match next_after page with
      | None => Ok (mkWalk (after s) (seen_cursors s) seen rows (walk_pages s + 1), true)
      | Some cursor =>
          ensure (negb (bool_decide (items page = [])))
            (Exn AgreementEnumerationError
              "an empty agreement page cannot advertise a successor");;
          ensure (negb (bool_decide (cursor ∈ seen_cursors s)))
            (Exn AgreementEnumerationError "the agreement page stream repeated a cursor");;
          walk_loop page_size max_pages
            (mkWalk (Some cursor) (cursor :: seen_cursors s) seen rows (walk_pages s + 1))
      end
  end.

Definition walk_agreement_lines (page_size max_pages : Z) : res AgreementLineEnumeration :=
  ensure (negb (page_size <? 1))
    (Exn AgreementEnumerationError "page_size is a positive whole number");;
  ensure (negb (max_pages <? 1))
    (Exn AgreementEnumerationError "max_pages is a positive whole number");;
  '(s, complete) ← walk_loop page_size (Z.to_nat max_pages) (mkWalk None [] [] [] 0);
  let coverage := if (complete : bool) then SourceCoverage.AGREEMENT_LINE_ENUMERATED
                  else SourceCoverage.AGREEMENT_LINE_NOT_ENUMERABLE in
  AgreementLineEnumeration_init (mkEnumeration (walk_rows s) coverage (walk_pages s)).

Definition plan_sources (agreements : AgreementLineEnumeration)
    (offer_versions : list SourceRow) (rules : CohortRules)
    (offer_versions_enumerated : bool) : res PlanOutcome :=
  ensure (negb (existsb (λ row, negb (bool_decide (kind row = SourceKind.OFFER_VERSION)))
                  offer_versions))
    (Exn AgreementEnumerationError "the offer-version input carries offer versions only");;
  let enumerated :=
    (if complete agreements then [SourceKind.AGREEMENT_LINE] else []) ++
    (if offer_versions_enumerated then [SourceKind.OFFER_VERSION] else []) in
  plan (offer_versions ++ rows agreements) rules enumerated.

(** ** Lemmas: what a successful walk has read *)

(** Consecutive pages, each asked for with the previous page's cursor. *)
Inductive page_chain (page_size : Z) : option uuid → list ContractPage → Prop :=
  | chain_last after p :
      list_agreements after page_size = Ok p → page_chain page_size after [p]
  | chain_next after p cursor ps :
      list_agreements after page_size = Ok p → next_after p = Some cursor →
      page_chain page_size (Some cursor) ps → page_chain page_size after (p :: ps).

Definition ids (views : list ContractView) : list uuid := agreement_id <$> views.
Definition page_items (ps : list ContractPage) : list ContractView := ps ≫= items.
Definition projects (views : list ContractView) (rss : list (list SourceRow)) : Prop :=
  Forall2 (λ a r, _project_agreement a = Ok r) views rss.

(** Whether the chain reached the final page. *)
Definition reaches_end (ps : list ContractPage) : bool :=
  match last ps with Some p => bool_decide (next_after p = None) | None => false end.

Lemma walk_items_Ok seen rs its seen' rs' :
  walk_items seen rs its = Ok (seen', rs') ↔
  seen' = reverse (ids its) ++ seen ∧ NoDup (ids its) ∧
  (∀ i, i ∈ ids its → i ∉ seen) ∧ ∃ rss, projects its rss ∧ rs' = rs ++ concat rss.
Proof.
  unfold ids, projects. revert seen rs. induction its as [|a its IH]; intros seen rs; csimpl.
  - split.
    + intros [= <- <-]. split_and!; [done|constructor|by intros ? []%elem_of_nil|].
      exists []. by rewrite app_nil_r.
    + intros (-> & _ & _ & rss & Hr%Forall2_nil_inv_l & ->). subst. by rewrite app_nil_r.
  - rewrite NoDup_cons, reverse_cons, <- app_assoc. cbn [app]. split.
    + intros ([] & Ha%ensure_Ok & H)%bind_Ok. bool_hyps.
      apply bind_Ok in H as (new & Hnew & H). apply IH in H as (-> & Hnd & Hdis & rss & Hr & ->).
      split_and!; [done| |done| |].
      * intros Hin. apply Hdis in Hin. apply Hin. by left.
      * intros i [->|Hi]%elem_of_cons; [done|]. apply Hdis in Hi. set_solver.
      * exists (new :: rss). split; [by constructor|]. by rewrite <- app_assoc.
    + intros (-> & [Ha Hnd] & Hdis & rss & Hr & ->).
      apply Forall2_cons_inv_l in Hr as (new & rss' & Hnew & Hr & ->).
      rewrite bool_decide_false by (apply Hdis; by left). cbn [negb ensure mbind res_bind].
      rewrite Hnew. cbn [mbind res_bind]. apply IH. split_and!; [done|done| |].
      * intros i Hi [->|?]%elem_of_cons; [done|]. by apply (Hdis i); [right|].
      * exists rss'. split; [done|]. cbn [concat]. by rewrite <- app_assoc.
Qed.

Lemma walk_loop_evidence page_size n s s' b :
  (0 < n)%nat → NoDup (seen_agreements s) → walk_loop page_size n s = Ok (s', b) →
  ∃ ps rss, page_chain page_size (after s) ps ∧ (1 ≤ length ps ≤ n)%nat ∧
    walk_pages s' = walk_pages s + Z.of_nat (length ps) ∧
    Forall (λ p, Z.of_nat (length (items p)) ≤ page_size) ps ∧
    (∀ i, i ∈ ids (page_items ps) → i ∉ seen_agreements s) ∧ NoDup (ids (page_items ps)) ∧
    projects (page_items ps) rss ∧ walk_rows s' = walk_rows s ++ concat rss ∧
    b = reaches_end ps.
Proof.
  revert s. induction n as [|n IH]; intros s Hn Hnd; [lia|]. cbn [walk_loop].
  intros (p & Hp & H)%bind_Ok. apply bind_Ok in H as ([] & Hsz%ensure_Ok & H). bool_hyps.
  apply bind_Ok in H as ([seen rs] & Hit & H).
  apply walk_items_Ok in Hit as (-> & Hndp & Hdis & rss & Hr & ->).
  assert (Hone : ∀ q : ContractPage, page_items [q] = items q)
    by (intros q; unfold page_items; cbn; by rewrite app_nil_r).
  destruct (next_after p) as [cursor|] eqn:Hnx.
  2:{ injection H as <- <-. exists [p], rss. cbn [walk_pages walk_rows]. rewrite Hone.
      split_and!; try done; try (simpl; lia); [by constructor|by repeat constructor|].
      unfold reaches_end. simpl. by rewrite Hnx. }
  apply bind_Ok in H as ([] & _ & H). apply bind_Ok in H as ([] & _ & H).
  destruct n as [|n].
  { injection H as <- <-. exists [p], rss. cbn [walk_pages walk_rows]. rewrite Hone.
    split_and!; try done; try (simpl; lia); [by constructor|by repeat constructor|].
    unfold reaches_end. simpl. by rewrite Hnx. }
  apply IH in H as (ps & rss' & Hch & Hlen & Hpg & Hf & Hdis' & Hnd' & Hr' & Hrs & ->); [|lia|].
  2:{ cbn [seen_agreements]. apply NoDup_app. rewrite reverse_Permutation. split_and!; [done| |done].
      intros i Hi. apply Hdis. by rewrite <- elem_of_reverse. }
  cbn [after seen_agreements walk_rows walk_pages] in *.
  exists (p :: ps), (rss ++ rss').
  assert (Hpi : page_items (p :: ps) = items p ++ page_items ps) by done.
  rewrite Hpi. unfold ids in *. rewrite fmap_app.
  split_and!; [by eapply chain_next|simpl; lia|simpl; lia|simpl; lia|by constructor| | | | |].
  - intros i [Hi|Hi]%elem_of_app; [by apply Hdis|]. apply Hdis' in Hi. set_solver.
  - apply NoDup_app. split_and!; [done| |done]. intros i Hi Hi'.
    apply Hdis' in Hi'. apply Hi', elem_of_app. left. by apply elem_of_reverse.
  - by apply Forall2_app.
  - rewrite Hrs, concat_app. by rewrite app_assoc.
  - unfold reaches_end. destruct ps; [simpl in Hlen; lia|done].
Qed.

(** C25: a walk's report of itself is evidence, whatever the owner's reader
    does: a walk that returns has read between 1 and [max_pages] pages, each
    asked for with the cursor of the one before and within the page bound, has
    met no agreement twice, returns exactly the projected lines of those pages
    in order, and calls itself complete exactly when the last page it read has
    no successor. *)
Theorem walk_evidence page_size max_pages e :
  walk_agreement_lines page_size max_pages = Ok e →
  ∃ ps rss, page_chain page_size None ps ∧
    pages_read e = Z.of_nat (length ps) ∧ 1 ≤ pages_read e ≤ max_pages ∧
    Forall (λ p, Z.of_nat (length (items p)) ≤ page_size) ps ∧
    NoDup (ids (page_items ps)) ∧
    projects (page_items ps) rss ∧ rows e = concat rss ∧
    complete e = reaches_end ps.
Proof.
  unfold walk_agreement_lines. intros ([] & _ & H)%bind_Ok.
  apply bind_Ok in H as ([] & Hm%ensure_Ok & H). bool_hyps.
  apply bind_Ok in H as ([s b] & Hl & H).
  apply walk_loop_evidence in Hl as (ps & rss & Hch & Hlen & Hpg & Hf & _ & Hnd & Hr & Hrs & Hb);
    [|lia|constructor].
  unfold AgreementLineEnumeration_init in H.
  apply bind_Ok in H as ([] & _ & H). apply bind_Ok in H as ([] & _ & H).
  apply bind_Ok in H as ([] & _ & [= <-]). cbn in *. exists ps, rss.
  split_and!; try done; try lia. rewrite Hb. by destruct (reaches_end ps).
Qed.

(** ** Refinement: a keyset pager over a fixed estate *)

(** The agreements after a cursor. *)
Definition cursor_before (after : option uuid) (a : AgreementView) : bool :=
  match after with Some c => c <? av_id a | None => true end.
Definition beyond (after : option uuid) (estate : list AgreementView) : list AgreementView :=
  filter (λ a, cursor_before after a = true) estate.

(** The owner's documented contract: over one snapshot, a page holds the first
    [limit] agreements beyond the cursor in id order, and names its last id as
    the next cursor when there are more. *)
Definition keyset_reader (estate : list AgreementView) : Prop :=
  ∀ after limit, 1 ≤ limit →
    let rest := beyond after estate in
    let page := take (Z.to_nat limit) rest in
    module_list_agreements after limit =
      Ok (mkAgreementPage page
            (if (Z.to_nat limit <? length rest)%nat then av_id <$> last page else None)).

(** Each agreement of the estate and the rows it projects to. *)
Definition estate_projects (estate : list AgreementView) (views : list ContractView)
    (rss : list (list SourceRow)) : Prop :=
  Forall2 (λ a v, _view a = Ok v) estate views ∧ projects views rss.

Lemma view_id a v : _view a = Ok v → agreement_id v = av_id a.
Proof.
  unfold _view. intros (t & _ & H)%bind_Ok.
  apply bind_Ok in H as (p & _ & [= <-]). done.
Qed.

Lemma estate_ids estate views rss :
  estate_projects estate views rss → ids views = av_id <$> estate.
Proof.
  intros [Hv _]. unfold ids. induction Hv as [|a v estate views Ha _ IH]; csimpl; [done|].
  by rewrite (view_id a v), IH.
Qed.

Lemma sorted_NoDup (estate : list AgreementView) :
  StronglySorted (λ a b, av_id a < av_id b) estate → NoDup (av_id <$> estate).
Proof.
  induction 1 as [|a l Hl IH Ha]; csimpl; constructor; [|done].
  intros (b & Heq & Hb)%list_elem_of_fmap. rewrite Forall_forall in Ha.
  specialize (Ha b Hb). lia.
Qed.

Lemma beyond_at (l1 l2 : list AgreementView) a :
  StronglySorted (λ a b, av_id a < av_id b) (l1 ++ a :: l2) →
  beyond (Some (av_id a)) (l1 ++ a :: l2) = l2.
Proof.
  unfold beyond. induction l1 as [|b l1 IH]; cbn [app]; intros Hs; inversion Hs; subst.
  - rewrite filter_cons_False by (simpl; rewrite Z.ltb_lt; lia). rewrite Forall_forall in *.
    clear Hs H1. induction l2 as [|c l2 IH]; [done|].
    rewrite filter_cons_True by (simpl; rewrite Z.ltb_lt; apply H2; by left). f_equal.
    apply IH. intros; apply H2; by right.
  - rewrite filter_cons_False; [auto|]. simpl. rewrite Z.ltb_lt. rewrite Forall_forall in *.
    assert (av_id b < av_id a); [|lia]. apply H2, elem_of_app. right. by left.
Qed.

(** The position of the walk after [k] agreements. *)
Definition at_position (estate : list AgreementView) (k : nat) (s : walk_state) : Prop :=
  beyond (after s) estate = drop k estate ∧
  (∀ i, i ∈ seen_cursors s → i ∈ av_id <$> take k estate) ∧
  (∀ i, i ∈ seen_agreements s ↔ i ∈ av_id <$> take k estate).

Lemma page_next sz (rest : list AgreementView) :
  (0 < sz < length rest)%nat →
  ∃ l a l', rest = l ++ a :: l' ∧ length l = (sz - 1)%nat ∧ take sz rest = l ++ [a] ∧
    drop sz rest = l'.
Proof.
  intros Hsz. destruct (lookup_lt_is_Some_2 rest (sz - 1)) as [a Ha]; [lia|].
  exists (take (sz - 1) rest), a, (drop sz rest).
  pose proof (take_drop_middle _ _ _ Ha) as Hm. replace (S (sz - 1)) with sz in Hm by lia.
  split_and!; [done|rewrite length_take; lia| |done].
  rewrite <- (take_S_r _ _ _ Ha). f_equal. lia.
Qed.

Lemma beyond_none estate : beyond None estate = estate.
Proof.
  unfold beyond. induction estate as [|a estate IH]; [done|].
  by rewrite filter_cons_True, IH.
Qed.

Lemma take_plus {A} (i j : nat) (l : list A) :
  take (i + j) l = take i l ++ take j (drop i l).
Proof.
  revert l. induction i as [|i IH]; intros l; [done|].
  destruct l as [|x l]; cbn; [by rewrite take_nil|]. by rewrite IH.
Qed.

Lemma reader_page (estate : list AgreementView) views rss k sz s :
  keyset_reader estate → estate_projects estate views rss → (0 < sz)%nat →
  at_position estate k s →
  list_agreements (after s) (Z.of_nat sz) =
    Ok (mkContractPage (take sz (drop k views))
          (if (sz <? length (drop k estate))%nat
           then av_id <$> last (take sz (drop k estate)) else None)).
Proof.
  intros Hk [Hv _] Hsz [Hb _]. unfold list_agreements. rewrite Hk by lia.
  rewrite Nat2Z.id, Hb. cbn [mbind res_bind av_items av_next_after].
  rewrite (proj2 (mapM_Ok _ _ (take sz (drop k views)))); [done|].
  by apply Forall2_take, Forall2_drop.
Qed.

Lemma loop_items (estate : list AgreementView) views rss k sz s :
  StronglySorted (λ a b, av_id a < av_id b) estate →
  estate_projects estate views rss → at_position estate k s →
  walk_items (seen_agreements s) (walk_rows s) (take sz (drop k views)) =
    Ok (reverse (ids (take sz (drop k views))) ++ seen_agreements s,
        walk_rows s ++ concat (take sz (drop k rss))).
Proof.
  intros Hs Hp (_ & _ & Hseen). apply walk_items_Ok.
  pose proof (estate_ids _ _ _ Hp) as Hids. pose proof (sorted_NoDup _ Hs) as Hnd.
  unfold ids in *. rewrite fmap_take, fmap_drop, Hids.
  rewrite <- (take_drop k (av_id <$> estate)) in Hnd.
  apply NoDup_app in Hnd as (Hnd1 & Hdis & Hnd2).
  rewrite <- (take_drop sz (drop k (av_id <$> estate))) in Hnd2.
  split_and!.
  - done.
  - by apply NoDup_app in Hnd2 as (? & _).
  - intros i Hi. rewrite Hseen, fmap_take. intros Hi'. apply (Hdis i Hi').
    eapply subseteq_take, Hi.
  - exists (take sz (drop k rss)). split; [|done].
    apply Forall2_take, Forall2_drop, Hp.
Qed.

Lemma next_position (estate : list AgreementView) k sz s l a l' rows pages :
  StronglySorted (λ a b, av_id a < av_id b) estate → at_position estate k s →
  drop k estate = l ++ a :: l' → take sz (drop k estate) = l ++ [a] →
  drop sz (drop k estate) = l' →
  ∀ views rss, estate_projects estate views rss →
  (av_id a ∉ seen_cursors s) ∧
  at_position estate (k + sz)
    (mkWalk (Some (av_id a)) (av_id a :: seen_cursors s)
       (reverse (ids (take sz (drop k views))) ++ seen_agreements s) rows pages).
Proof.
  intros Hs (Hb & Hcur & Hseen) Hd Ht Hl' views rss Hp.
  pose proof (sorted_NoDup _ Hs) as Hnd.
  rewrite <- (take_drop k estate), fmap_app in Hnd.
  apply NoDup_app in Hnd as (_ & Hdis & _).
  assert (Ha : av_id a ∈ av_id <$> take sz (drop k estate)).
  { rewrite Ht. apply list_elem_of_fmap_2, elem_of_app. right. by left. }
  assert (Hsplit : av_id <$> take (k + sz) estate =
    (av_id <$> take k estate) ++ (av_id <$> take sz (drop k estate)))
    by (by rewrite take_plus, fmap_app).
  split.
  { intros Hin%Hcur. apply (Hdis _ Hin). eapply list_elem_of_fmap.
    apply list_elem_of_fmap in Ha as (b & ? & Hb'). exists b. split; [done|].
    eapply subseteq_take, Hb'. }
  unfold at_position. cbn [after seen_cursors seen_agreements]. rewrite Hsplit. split_and!.
  - rewrite <- drop_drop, Hl'. rewrite <- (take_drop k estate), Hd in Hs |- *.
    rewrite app_assoc in Hs |- *. by apply beyond_at.
  - intros i [->|Hi]%elem_of_cons; apply elem_of_app; [by right|left; auto].
  - intros i. rewrite !elem_of_app, elem_of_reverse, Hseen.
    unfold ids. rewrite fmap_take, fmap_drop.
    pose proof (estate_ids _ _ _ Hp) as Hids. unfold ids in Hids. rewrite Hids.
    rewrite <- fmap_drop, <- fmap_take. tauto.
Qed.

Lemma walk_loop_keyset (estate : list AgreementView) views rss sz n k s :
  keyset_reader estate → StronglySorted (λ a b, av_id a < av_id b) estate →
  estate_projects estate views rss → (0 < sz)%nat →
  at_position estate k s → walk_rows s = concat (take k rss) →
  (n = 0 → k < length estate)%nat →
  ∃ s', walk_loop (Z.of_nat sz) n s = Ok (s', bool_decide (length estate ≤ k + n * sz)%nat) ∧
    walk_rows s' = concat (take (k + n * sz) rss) ∧ walk_pages s ≤ walk_pages s' ∧
    ((0 < n)%nat → walk_pages s < walk_pages s').
Proof.
  intros Hk Hs Hp Hsz. revert k s. induction n as [|n IH]; intros k s Hat Hrows Hn.
  { exists s. cbn [walk_loop]. rewrite bool_decide_false by lia.
    split_and!; [done| |lia|lia]. rewrite Hrows. do 2 f_equal. lia. }
  cbn [walk_loop]. rewrite (reader_page estate views rss k sz) by done.
  cbn [mbind res_bind items next_after].
  rewrite (proj2 (Z.ltb_ge _ _)) by (rewrite length_take; lia). cbn [negb ensure mbind res_bind].
  rewrite (loop_items estate views rss k sz) by done. cbn [mbind res_bind].
  assert (Hlen : length views = length estate ∧ length rss = length estate).
  { destruct Hp as [Hv Hr]. apply Forall2_length in Hv, Hr. lia. }
  assert (Hacc : walk_rows s ++ concat (take sz (drop k rss)) = concat (take (k + sz) rss)).
  { by rewrite Hrows, <- concat_app, <- take_plus. }
  destruct (Nat.ltb_spec sz (length (drop k estate))) as [Hlt|Hge].
  - destruct (page_next sz (drop k estate)) as (l & a & l' & Hd & _ & Ht & Hl'); [lia|].
    rewrite Ht, last_snoc. cbn [fmap option_fmap option_map].
    destruct (next_position estate k sz s l a l' (concat (take (k + sz) rss))
      (walk_pages s + 1) Hs Hat Hd Ht Hl' views rss Hp) as [Hnew Hat'].
    rewrite (bool_decide_false (take sz (drop k views) = [])).
    2:{ intros Hnil. apply (f_equal length) in Hnil. revert Hnil.
        rewrite length_take, !length_drop in *. simpl. lia. }
    rewrite bool_decide_false by done. cbn [negb ensure mbind res_bind]. rewrite Hacc.
    destruct (IH (k + sz)%nat _ Hat') as (s' & Hw & Hr & Hpg & _); [done| |].
    { rewrite length_drop in Hlt. lia. }
    cbn [walk_pages] in Hpg. exists s'. rewrite Hw, Hr.
    split_and!; [|do 2 f_equal; lia|lia|lia]. do 2 f_equal. apply bool_decide_ext. lia.
  - eexists. split; [|split_and!].
    + do 2 f_equal. symmetry. apply bool_decide_true. rewrite length_drop in Hge. lia.
    + cbn [walk_rows]. rewrite Hacc. rewrite length_drop in Hge.
      f_equal. by rewrite !take_ge by lia.
    + cbn [walk_pages]. lia.
    + cbn [walk_pages]. lia.
Qed.

Lemma source_row_kind a line ps cs r :
  _source_row a line ps cs = Ok r → kind r = SourceKind.AGREEMENT_LINE.
Proof.
  unfold _source_row, SourceRow_init. intros (st & _ & H)%bind_Ok.
  apply bind_Ok in H as (fp & _ & H). apply bind_Ok in H as ([] & _ & [= <-]). done.
Qed.

Lemma project_kind a rs r :
  _project_agreement a = Ok rs → r ∈ rs → kind r = SourceKind.AGREEMENT_LINE.
Proof.
  unfold _project_agreement. intros (rs' & Hm & H)%bind_Ok.
  apply bind_Ok in H as ([] & _ & [= <-]). intros [i Hi]%list_elem_of_lookup.
  apply mapM_Ok in Hm. destruct (Forall2_lookup_r _ _ _ _ _ Hm Hi) as (l & _ & Hl).
  by eapply source_row_kind.
Qed.

Lemma projects_kind views rss n r :
  projects views rss → r ∈ concat (take n rss) → kind r = SourceKind.AGREEMENT_LINE.
Proof.
  intros Hp Hr. apply list_elem_of_In, in_concat in Hr as (rs & Hrs & Hr).
  apply list_elem_of_In in Hrs, Hr.
  assert (rs ∈ rss) as [i Hi]%list_elem_of_lookup by (by eapply subseteq_take).
  destruct (Forall2_lookup_r _ _ _ _ _ Hp Hi) as (a & _ & Ha). by eapply project_kind.
Qed.

Lemma existsb_negb_false {A} (P : A → Prop) `{!∀ x, Decision (P x)} l :
  (∀ x, x ∈ l → P x) → existsb (λ x, negb (bool_decide (P x))) l = false.
Proof.
  intros Hl. apply not_true_iff_false. intros (x & Hx & Hn)%existsb_exists.
  apply list_elem_of_In, Hl in Hx. by rewrite bool_decide_true in Hn.
Qed.

(** C24: over the owner's documented keyset reader the walk is complete and
    exact: with pages of [page_size] over one snapshot of [estate], it returns
    the rows of the first [max_pages * page_size] agreements in id order, no
    row skipped or repeated at a page border, and it claims completeness
    exactly when that is the whole estate; it never fails. *)
Theorem walk_complete estate views rss page_size max_pages :
  keyset_reader estate → StronglySorted (λ a b, av_id a < av_id b) estate →
  estate_projects estate views rss → 1 ≤ page_size → 1 ≤ max_pages →
  ∃ e, walk_agreement_lines page_size max_pages = Ok e ∧
    rows e = concat (take (Z.to_nat max_pages * Z.to_nat page_size) rss) ∧
    (complete e = true ↔ Z.of_nat (length estate) ≤ max_pages * page_size) ∧
    (complete e = true → rows e = concat rss).
Proof.
  intros Hk Hs Hp Hsz Hm. unfold walk_agreement_lines.
  rewrite (proj2 (Z.ltb_ge page_size 1)), (proj2 (Z.ltb_ge max_pages 1)) by lia.
  cbn [negb ensure mbind res_bind].
  destruct (walk_loop_keyset estate views rss (Z.to_nat page_size) (Z.to_nat max_pages) 0
    (mkWalk None [] [] [] 0)) as (s & Hw & Hr & _ & Hpg); [done|done|done|lia| |done|lia|].
  { split_and!; [apply beyond_none|by intros ? []%elem_of_nil|done]. }
  rewrite Z2Nat.id in Hw by lia. rewrite Hw. cbn [mbind res_bind].
  cbn [walk_pages] in Hpg. rewrite Nat.add_0_l in *.
  assert (Hfits : (length estate ≤ Z.to_nat max_pages * Z.to_nat page_size)%nat ↔
    Z.of_nat (length estate) ≤ max_pages * page_size) by nia.
  unfold AgreementLineEnumeration_init. cbn [coverage pages_read rows].
  rewrite (bool_decide_true (_ ∈ [_; _])) by (case_match; set_solver).
  rewrite (proj2 (Z.ltb_ge (walk_pages s) 1)) by lia.
  rewrite existsb_negb_false.
  2:{ intros r. rewrite Hr. apply (projects_kind views), Hp. }
  cbn [negb ensure mbind res_bind]. eexists. split; [done|]. cbn [rows].
  split_and!; [done| |].
  - rewrite <- Hfits. unfold complete. cbn [coverage]. by case_bool_decide.
  - intros Hc. rewrite Hr. unfold complete in Hc. cbn [coverage] in Hc.
    case_bool_decide as Hcov; [|done]. case_bool_decide as Hle; [|done].
    rewrite take_ge; [done|].
    destruct Hp as [Hv Hpr]. apply Forall2_length in Hv, Hpr.
    by rewrite <- Hpr, <- Hv.
Qed.

End enumeration.

(** A plan's claim to cover the whole cohort comes only from the walk: the
    report of [plan_sources] is a complete cohort exactly when the walk reached
    its final page and the offer export was declared complete. *)
Theorem plan_sources_coverage `{UnicodeDB} e offers rules flag out :
  plan_sources e offers rules flag = Ok out →
  is_complete_cohort (report out) = complete e && flag.
Proof.
  unfold plan_sources. intros ([] & _ & Hplan)%bind_Ok.
  apply plan_Ok in Hplan as (vs & -> & _ & _). cbn [report].
  apply eq_true_iff_eq. rewrite complete_cohort, andb_true_iff. split.
  - intros Hall. pose proof (Hall SourceKind.AGREEMENT_LINE) as Ha.
    pose proof (Hall SourceKind.OFFER_VERSION) as Ho. rewrite elem_of_app in Ha, Ho.
    destruct (complete e), flag; try done; exfalso; set_solver.
  - intros [-> ->] []; set_solver.
Qed.

(** ** A concrete owner *)

(** An owner that serves a list by keyset. *)
Definition list_reader (estate : list AgreementView) (after : option uuid) (limit : Z)
    : res AgreementPage :=
  let rest := beyond after estate in
  let page := take (Z.to_nat limit) rest in
  Ok (mkAgreementPage page
        (if (Z.to_nat limit <? length rest)%nat then av_id <$> last page else None)).

Definition example_agreement (id : uuid) : AgreementView :=
  {| av_id := id; av_reference := lit "A"; av_family_id := id; av_version := 1;
     av_counterparty_ref := lit "c"; av_type := lit "order";
     av_effective_date := Date 2024 1 1; av_expiry_date := Date 2024 12 31;
     av_status := lit "active"; av_content_hash := None; av_record_version := 1;
     av_activation_rule := None; av_superseded_by_id := None;
     av_lines := [mkLineView 1 (lit "erp") (lit "seats") 5 (lit "9.00") (lit "USD")
                    None None] |}.
Definition example_estate : list AgreementView := example_agreement <$> [1; 2; 5].

Definition example_statuses : list (pystr * pystr) :=
  [(lit "active", lit "ACTIVE"); (lit "superseded", lit "SUPERSEDED")].

(** A digest that is 64 hexadecimal characters, as [hexdigest] returns. *)
Definition example_digest (s : pystr) : pystr := hex_digits 64 (foldr Z.add 0 s).

Definition example_walk : Z → Z → res AgreementLineEnumeration :=
  walk_agreement_lines example_digest example_statuses (lit "SUPERSEDED")
    (list_reader example_estate).

Lemma walk_evidence_witness : ∃ e, example_walk 2 5 = Ok e ∧ pages_read e ≤ 5.
Proof.
  destruct (example_walk 2 5) as [e|x] eqn:He.
  - exists e. split; [done|].
    destruct (walk_evidence example_digest example_statuses (lit "SUPERSEDED")
      (list_reader example_estate) 2 5 e He) as (ps & rss & _ & _ & Hpg & _).
    exact (proj2 Hpg).
  - exfalso. vm_compute in He. discriminate He.
Defined.

Lemma walk_complete_witness :
  ∃ e, example_walk 2 2 = Ok e ∧ complete e = true ∧ length (rows e) = 3%nat.
Proof.
  destruct (mapM _view example_estate) as [views|] eqn:Hv;
    [|exfalso; vm_compute in Hv; discriminate Hv].
  destruct (mapM (_project_agreement example_digest example_statuses (lit "SUPERSEDED"))
    views) as [rss|] eqn:Hr;
    [|exfalso; vm_compute in Hv; injection Hv as <-; vm_compute in Hr; discriminate Hr].
  destruct (walk_complete example_digest example_statuses (lit "SUPERSEDED")
    (list_reader example_estate) example_estate views rss 2 2)
    as (e & He & Hrows & Hc & _).
  - intros after limit _. reflexivity.
  - repeat constructor; simpl; lia.
  - split; [by apply mapM_Ok|by apply mapM_Ok].
  - lia.
  - lia.
  - exists e. split_and!; [exact He|apply Hc; vm_compute; discriminate|].
    vm_compute in Hv. injection Hv as <-. vm_compute in Hr. injection Hr as <-.
    rewrite Hrows. reflexivity.
Defined.

Lemma plan_sources_coverage_witness :
  ∃ out, plan_sources (mkEnumeration [] SourceCoverage.AGREEMENT_LINE_ENUMERATED 1) []
           example_rules true = Ok out ∧ is_complete_cohort (report out) = true.
Proof.
  destruct (plan_sources (mkEnumeration [] SourceCoverage.AGREEMENT_LINE_ENUMERATED 1) []
    example_rules true) as [out|] eqn:Hp; [|exfalso; vm_compute in Hp; discriminate Hp].
  exists out. split; [done|]. exact (plan_sources_coverage _ _ _ _ _ Hp).
Defined.
