(* ===== verification/Gates.v ===== *)
(** * Cutover gates

    [commercial_backfill/gates.py]: gate conditions and their construction
    rules, the derived state of a gate, and the two declared gates. *)

From S2P Require Import Prelude PyText.

#[local] Open Scope Z_scope.

Module EvidenceKind.
Inductive t :=
  | LOCAL_FACT
  | RELEASE_RUN
  | PEELED_TAG
  | DEPLOYMENT_RUN
  | ADOPTION_EVIDENCE.
#[global] Instance t_eq_dec : EqDecision t.
Proof. solve_decision. Defined.
End EvidenceKind.

Module GateState.
Inductive t := CLOSED | OPEN.
#[global] Instance t_eq_dec : EqDecision t.
Proof. solve_decision. Defined.
End GateState.

Record GateCondition := mkGateCondition {
  code : pystr;
  evidence : EvidenceKind.t;
  owner : pystr;
  statement : pystr;
  discharged : bool;
}.

Record Gate := mkGate { gate_name : pystr; conditions : list GateCondition }.

(** [GateCondition.__post_init__]. *)
Definition GateCondition_post_init `{UnicodeDB} (self : GateCondition) : res unit :=
  ensure (isupper (code self) && negb (existsb (Z.eqb 32) (code self)))
    (Exn ValueError "a condition code is an upper-case identifier");;
  ensure (negb (bool_decide (strip (owner self) = []))) (Exn ValueError "");;
  ensure (negb (length (statement self) <? 40)%nat) (Exn ValueError "");;
  ensure (negb (discharged self &&
                negb (bool_decide (evidence self = EvidenceKind.LOCAL_FACT))))
    (Exn ValueError "").

(** [Gate.state]. *)
Definition state (self : Gate) : GateState.t :=
  if negb (bool_decide (length (conditions self) = 0%nat)) &&
     forallb discharged (conditions self)
  then GateState.OPEN else GateState.CLOSED.

(** [Gate.outstanding]. *)
Definition outstanding (self : Gate) : list pystr :=
  code <$> filter (λ c, discharged c = false) (conditions self).

Definition INCUMBENT_WRITER_RETIREMENT_GATE : Gate :=
  mkGate (lit "incumbent_commercial_writer_retirement") [
    mkGateCondition (lit "TYPED_PAGINATED_AGREEMENT_READER_RELEASED")
      EvidenceKind.RELEASE_RUN
      (lit "dotmac-commercial-agreements release owner")
      (lit "a dotmac-commercial-agreements release publishes and verifies an installable typed paginated agreement reader; repository source or a local replacement is not release evidence.")
      false;
    mkGateCondition (lit "COHORT_FULLY_ENUMERABLE")
      EvidenceKind.LOCAL_FACT
      (lit "vendor control plane")
      (lit "every source kind is enumerable through Vendor's adapter over an exactly pinned typed paginated owner reader, without raw module-table access or a locally invented reader.")
      true;
    mkGateCondition (lit "ZERO_BLOCKED_ROWS")
      EvidenceKind.LOCAL_FACT
      (lit "vendor control plane")
      (lit "the dry-run plan over the full cohort reports no blocked rows, and every excluded row carries a reason a reviewer accepted.")
      false;
    mkGateCondition (lit "SEMANTIC_PARITY_PROVEN")
      EvidenceKind.LOCAL_FACT
      (lit "vendor control plane")
      (lit "the comparator reports TARGET_SEMANTIC MATCHED, not merely ROW_COUNT MATCHED, across every dimension. Equal counts with unequal meaning is the failure this condition exists for.")
      false;
    mkGateCondition (lit "TARGET_AUTHORITY_ACCEPTED")
      EvidenceKind.ADOPTION_EVIDENCE
      (lit "the owning repository's extraction dossier")
      (lit "an accepted, checked-in contract names the owner of subscription and billing decisions after the move. THIS REPOSITORY DOES NOT CHOOSE IT and cannot observe it.")
      false;
    mkGateCondition (lit "BACKFILL_EXECUTED_IN_PRODUCTION")
      EvidenceKind.DEPLOYMENT_RUN
      (lit "the operator, against a host Michael names explicitly")
      (lit "the backfill has actually run against production, evidenced by a deploy run id and an immutable image digest. No test in this repository discharges it and none pretends to.")
      false].

Definition FINAL_DML_GRANT_GATE : Gate :=
  mkGate (lit "final_dml_grant") [
    mkGateCondition (lit "INCUMBENT_RETIREMENT_GATE_OPEN")
      EvidenceKind.LOCAL_FACT
      (lit "vendor control plane")
      (lit "the incumbent-writer retirement gate is OPEN. Granting the runtime role DML while a second writer is still live is how a cutover acquires two authorities instead of moving one.")
      false;
    mkGateCondition (lit "NO_VENDOR_RUNTIME_DML_ADDED")
      EvidenceKind.LOCAL_FACT
      (lit "vendor control plane")
      (lit "this work grants Vendor's runtime role no privilege it did not already hold. The rehearsal reconciler emits no GRANT at all and runs through the migrator role in a disposable database.")
      true;
    mkGateCondition (lit "REHEARSAL_REPLAY_PROVEN")
      EvidenceKind.LOCAL_FACT
      (lit "vendor control plane")
      (lit "the reconciler has been replayed in a disposable PostgreSQL and left identical state and an identical report, so a half-finished run can be repeated rather than reasoned about.")
      false;
    mkGateCondition (lit "EFFECTIVE_PRIVILEGES_VERIFIED_BOTH_WAYS")
      EvidenceKind.LOCAL_FACT
      (lit "vendor control plane")
      (lit "the grant is verified as an EFFECTIVE outcome in both directions " ++ [8212] ++ lit " the role holds what it needs and nothing beyond it " ++ [8212] ++ lit " the shape ADR-0006 s 3 used for mod_ealloc.")
      false;
    mkGateCondition (lit "GRANT_APPLIED_IN_PRODUCTION")
      EvidenceKind.DEPLOYMENT_RUN
      (lit "the operator, against a host Michael names explicitly")
      (lit "the grant has been applied to production, evidenced by a deploy run id and an immutable image digest. A privilege claim about a database this repository cannot see needs an oracle.")
      false].

Definition GATES : list Gate := [INCUMBENT_WRITER_RETIREMENT_GATE; FINAL_DML_GRANT_GATE].

(** Two versions of a gate that differ only in what has been discharged. *)
Definition same_obligations (g g' : Gate) : Prop :=
  gate_name g = gate_name g' ∧
  Forall2 (λ c c', code c = code c' ∧ evidence c = evidence c' ∧
                   owner c = owner c' ∧ statement c = statement c')
    (conditions g) (conditions g').

(** ** Lemmas *)

Lemma state_open g :
  state g = GateState.OPEN ↔
  conditions g ≠ [] ∧ ∀ c, c ∈ conditions g → discharged c = true.
Proof.
  unfold state. destruct (conditions g) as [|c cs]; [naive_solver|].
  rewrite bool_decide_false by done. cbn [negb andb]. split.
  - destruct (forallb _ _) eqn:Hf; [|done]. intros _. split; [done|].
    intros d Hd%list_elem_of_In. by eapply forallb_forall in Hf.
  - intros [_ Hall]. replace (forallb _ _) with true; [done|]. symmetry.
    apply forallb_forall. intros d Hd%list_elem_of_In. auto.
Qed.

Lemma accepted_oracle `{UnicodeDB} c :
  GateCondition_post_init c = Ok tt → evidence c ≠ EvidenceKind.LOCAL_FACT →
  discharged c = false.
Proof.
  unfold GateCondition_post_init. intros Hc He. inv_res.
  destruct (discharged c); [|done]. by rewrite bool_decide_false in *.
Qed.

Lemma oracle_gate_closed `{UnicodeDB} g g' c :
  c ∈ conditions g → evidence c ≠ EvidenceKind.LOCAL_FACT → same_obligations g g' →
  (∀ d, d ∈ conditions g' → GateCondition_post_init d = Ok tt) →
  state g' = GateState.CLOSED.
Proof.
  intros Hc He [_ Hsame] Hok. destruct (state g') eqn:Hs; [done|].
  apply state_open in Hs as [_ Hall].
  apply list_elem_of_lookup in Hc as [i Hi].
  destruct (Forall2_lookup_l _ _ _ _ _ Hsame Hi) as (d & Hd & _ & Hev & _).
  apply list_elem_of_lookup_2 in Hd. pose proof (Hall d Hd) as Ht.
  rewrite (accepted_oracle d) in Ht; [done|auto|congruence].
Qed.

(** neither declared gate can be opened from inside the repository: whatever
    set of its conditions is marked discharged, now or later, as long as the
    constructor accepts each condition, the gate is CLOSED and lists an
    outstanding condition. *)
Theorem gates_need_oracles `{UnicodeDB} g g' :
  g ∈ GATES → same_obligations g g' →
  (∀ c, c ∈ conditions g' → GateCondition_post_init c = Ok tt) →
  state g' = GateState.CLOSED ∧ outstanding g' ≠ [].
Proof.
  intros Hg Hsame Hok.
  assert (∃ c, c ∈ conditions g ∧ evidence c ≠ EvidenceKind.LOCAL_FACT) as (c & Hc & He).
  { unfold GATES in Hg. rewrite !elem_of_cons, elem_of_nil in Hg.
    destruct Hg as [->|[->|[]]]; eexists; (split; [by left|done]) ||
      (split; [do 4 right; by left|done]). }
  split; [by eapply oracle_gate_closed|].
  destruct Hsame as [_ Hsame]. apply list_elem_of_lookup in Hc as [i Hi].
  destruct (Forall2_lookup_l _ _ _ _ _ Hsame Hi) as (d & Hd & _ & Hev & _).
  apply list_elem_of_lookup_2 in Hd. unfold outstanding. intros Ho.
  apply fmap_nil_inv in Ho.
  assert (d ∈ filter (λ c, discharged c = false) (conditions g')) as Hin.
  { apply list_elem_of_filter. split; [|done]. apply accepted_oracle; [auto|congruence]. }
  rewrite Ho in Hin. by apply elem_of_nil in Hin.
Qed.

Lemma gates_need_oracles_witness :
  state FINAL_DML_GRANT_GATE = GateState.CLOSED.
Proof.
  apply (gates_need_oracles FINAL_DML_GRANT_GATE FINAL_DML_GRANT_GATE).
  - right. left.
  - split; [reflexivity|]. apply Forall2_same_length_lookup_2; [reflexivity|].
    intros i x y Hx Hy. rewrite Hx in Hy. injection Hy as <-. by split_and!.
  - intros c Hc. unfold FINAL_DML_GRANT_GATE in Hc. cbn [conditions] in Hc.
    repeat (apply elem_of_cons in Hc as [->|Hc]; [vm_compute; reflexivity|]).
    by apply elem_of_nil in Hc.
Defined.
