(* ===== verification/Shadow.v ===== *)
(** * The rehearsal shadow

    [commercial_backfill/shadow.py]: the SQL text that repairs the rehearsal
    table, and its effect on the table.  The text is built as the code builds
    it; [stmt] names the statement forms it is made of, [stmt_text] prints
    them, and [exec] is what each form does to the one table. *)

From S2P Require Import Prelude PyText PyDate Vocabulary Transforms Cohort Reports.

#[local] Open Scope Z_scope.

Definition SHADOW_SCHEMA : pystr := lit "bf_rehearsal".
Definition SHADOW_TABLE : pystr := lit "shadow_verdicts".
Definition RUNTIME_ROLE : pystr := lit "platform_api".

Definition DIMENSION_COLUMNS (d : Dimension.t) : pystr :=
  lit match d with
      | Dimension.PRODUCT_IDENTITY => "product_identity"
      | Dimension.CURRENCY => "currency"
      | Dimension.CADENCE => "cadence"
      | Dimension.PRORATION => "proration"
      | Dimension.FROZEN_CONTENT => "frozen_content"
      end.

Definition COLUMNS : list pystr :=
  (lit <$> ["fingerprint"; "source_kind"; "bucket"; "exclusion";
            "blocking_dimension"]%string) ++
  (DIMENSION_COLUMNS <$> DIMENSION_ORDER).

Definition _MEMBER_NAME : Regex.re := _NAME.

(** [_literal]. *)
Definition _literal (v : option pystr) : res pystr :=
  match v with
  | None => Ok (lit "NULL")
  | Some v =>
      ensure (Regex.fullmatch _MEMBER_NAME v || Regex.fullmatch _FINGERPRINT v)
        (Exn UnsafeShadowValue "only declared member names and fingerprints");;
      Ok ([39] ++ v ++ [39])
  end.

Definition nl : pystr := [10].

Definition CREATE_SQL : list pystr :=
  [lit "CREATE SCHEMA IF NOT EXISTS " ++ SHADOW_SCHEMA;
   lit "CREATE TABLE IF NOT EXISTS " ++ SHADOW_SCHEMA ++ lit "." ++ SHADOW_TABLE ++
   lit " (" ++ nl ++
   lit "    fingerprint        char(64) PRIMARY KEY," ++ nl ++
   lit "    source_kind        text NOT NULL," ++ nl ++
   lit "    bucket             text NOT NULL," ++ nl ++
   lit "    exclusion          text," ++ nl ++
   lit "    blocking_dimension text," ++ nl ++
   lit "    product_identity   text," ++ nl ++
   lit "    currency           text," ++ nl ++
   lit "    cadence            text," ++ nl ++
   lit "    proration          text," ++ nl ++
   lit "    frozen_content     text" ++ nl ++ lit ")"].

Definition REVOKE_SQL : pystr :=
  lit "DO $$" ++ nl ++ lit "BEGIN" ++ nl ++
  lit "    IF EXISTS (SELECT 1 FROM pg_roles WHERE rolname = '" ++ RUNTIME_ROLE ++
  lit "') THEN" ++ nl ++
  lit "        REVOKE ALL ON SCHEMA " ++ SHADOW_SCHEMA ++ lit " FROM " ++ RUNTIME_ROLE ++
  lit ";" ++ nl ++
  lit "        REVOKE ALL ON ALL TABLES IN SCHEMA " ++ SHADOW_SCHEMA ++ lit " FROM " ++
  RUNTIME_ROLE ++ lit ";" ++ nl ++
  lit "    END IF;" ++ nl ++ lit "END" ++ nl ++ lit "$$".

(** The values of one row, before they are quoted. *)
Definition row_names (row : SourceRow) (verdict : RowVerdict) : list (option pystr) :=
  let outcomes := outcomes verdict in
  [Some (fingerprint row);
   Some (lit (name (kind row)));
   Some (lit (name (bucket verdict)));
   (λ r, lit (name r)) <$> exclusion verdict;
   (λ d, lit (name d)) <$> blocking_dimension verdict] ++
  ((λ d, (λ o, lit (member_name o)) <$> dict_get outcomes d) <$> DIMENSION_ORDER).

Definition _row_values (row : SourceRow) (verdict : RowVerdict) : res (list pystr) :=
  mapM _literal (row_names row verdict).

(** [sorted(verdicts, key=lambda pair: pair\[0\].fingerprint)]. *)
Definition by_fingerprint (p q : SourceRow * RowVerdict) : bool :=
  text_leb (fingerprint p.1) (fingerprint q.1).

Definition comma : pystr := lit ", ".

Definition repair_statements (verdicts : list (SourceRow * RowVerdict))
    : res (list pystr) :=
  let table := SHADOW_SCHEMA ++ lit "." ++ SHADOW_TABLE in
  let ordered := sort_by by_fingerprint verdicts in
  keep ← mapM (λ p, _literal (Some (fingerprint p.1))) ordered;
  let delete :=
    match keep with
    | _ :: _ => lit "DELETE FROM " ++ table ++ lit " WHERE fingerprint NOT IN (" ++
                join comma keep ++ lit ")"
    | [] => lit "DELETE FROM " ++ table
    end in
  let columns := join comma COLUMNS in
  let updates :=
    join comma ((λ column, column ++ lit " = EXCLUDED." ++ column) <$>
                filter (λ column, column ≠ lit "fingerprint") COLUMNS) in
  inserts ← mapM (λ p,
      values ← _row_values p.1 p.2;
      Ok (lit "INSERT INTO " ++ table ++ lit " (" ++ columns ++ lit ") VALUES (" ++
          join comma values ++ lit ") " ++
          lit "ON CONFLICT (fingerprint) DO UPDATE SET " ++ updates)) ordered;
  Ok (CREATE_SQL ++ [REVOKE_SQL; delete] ++ inserts).

(** ** What the statements do *)

(** The statement forms. *)
Inductive stmt :=
  | CreateSchema
  | CreateTable
  | Revoke
  | DeleteAll
  | DeleteNotIn (keep : list pystr)
  | Upsert (fingerprint : pystr) (values : list (option pystr)).

(** A literal that needs no refusal. *)
Definition quoted (v : option pystr) : pystr :=
  match v with None => lit "NULL" | Some v => [39] ++ v ++ [39] end.

Definition table_name : pystr := SHADOW_SCHEMA ++ lit "." ++ SHADOW_TABLE.

Definition stmt_text (s : stmt) : pystr :=
  match s with
  | CreateSchema => nth 0 CREATE_SQL []
  | CreateTable => nth 1 CREATE_SQL []
  | Revoke => REVOKE_SQL
  | DeleteAll => lit "DELETE FROM " ++ table_name
  | DeleteNotIn keep =>
      lit "DELETE FROM " ++ table_name ++ lit " WHERE fingerprint NOT IN (" ++
      join comma (quoted ∘ Some <$> keep) ++ lit ")"
  | Upsert fp values =>
      lit "INSERT INTO " ++ table_name ++ lit " (" ++ join comma COLUMNS ++
      lit ") VALUES (" ++ join comma (quoted <$> Some fp :: values) ++ lit ") " ++
      lit "ON CONFLICT (fingerprint) DO UPDATE SET " ++
      join comma ((λ column, column ++ lit " = EXCLUDED." ++ column) <$>
                  filter (λ column, column ≠ lit "fingerprint") COLUMNS)
  end.

(** The shadow table: absent, or its rows by primary key. *)
Definition shadow := option (gmap pystr (list (option pystr))).

(** One statement: [None] is an SQL error.  The conflict clause updates every
    column but the key, so an upsert replaces the row. *)
Definition exec (s : stmt) (t : shadow) : option shadow :=
  match s, t with
  | CreateSchema, _ | Revoke, _ => Some t
  | CreateTable, None => Some (Some ∅)
  | CreateTable, Some _ => Some t
  | _, None => None
  | DeleteAll, Some _ => Some (Some ∅)
  | DeleteNotIn keep, Some rows => Some (Some (filter (λ p, p.1 ∈ keep) rows))
  | Upsert fp values, Some rows => Some (Some (<[fp := values]> rows))
  end.

Fixpoint exec_all (ss : list stmt) (t : shadow) : option shadow :=
  match ss with [] => Some t | s :: ss => t' ← exec s t; exec_all ss t' end.

(** The statements [repair_statements] prints. *)
Definition repair_program (verdicts : list (SourceRow * RowVerdict)) : list stmt :=
  let ordered := sort_by by_fingerprint verdicts in
  [CreateSchema; CreateTable; Revoke;
   match ordered with
   | [] => DeleteAll
   | _ => DeleteNotIn ((λ p, fingerprint p.1) <$> ordered)
   end] ++
  ((λ p, Upsert (fingerprint p.1) (tail (row_names p.1 p.2))) <$> ordered).

(** The table a cohort stands for. *)
Definition cohort_table (verdicts : list (SourceRow * RowVerdict))
    : gmap pystr (list (option pystr)) :=
  list_to_map ((λ p, (fingerprint p.1, tail (row_names p.1 p.2))) <$> verdicts).

Definition fingerprints (verdicts : list (SourceRow * RowVerdict)) : list pystr :=
  (λ p, fingerprint p.1) <$> verdicts.
Definition fingerprinted (verdicts : list (SourceRow * RowVerdict)) : Prop :=
  ∀ p, p ∈ verdicts → Regex.fullmatch _FINGERPRINT (fingerprint p.1) = true.

(** ** Lemmas *)

Lemma literal_fingerprint v :
  Regex.fullmatch _FINGERPRINT v = true → _literal (Some v) = Ok (quoted (Some v)).
Proof. intros Hv. unfold _literal. by rewrite Hv, orb_true_r. Qed.

Lemma literal_member m : _literal (Some (lit (member_name m))) = Ok (quoted (Some (lit (member_name m)))).
Proof.
  unfold _literal, _MEMBER_NAME. rewrite (proj2 (Regex.fullmatch_matches _ _)); [done|].
  apply name_spec, vocabulary_names, vocabulary_member.
Qed.

(** Every value of a constructed row is accepted. *)
Lemma row_values_Ok row v :
  Regex.fullmatch _FINGERPRINT (fingerprint row) = true →
  _row_values row v = Ok (quoted <$> row_names row v).
Proof.
  intros Hf. unfold _row_values, row_names.
  assert (∀ o : option member,
    _literal ((λ m, lit (member_name m)) <$> o) =
    Ok (quoted ((λ m, lit (member_name m)) <$> o))) as Hopt
    by (intros [m|]; [apply literal_member|done]).
  apply mapM_Ok, Forall2_fmap_r, Forall_Forall2_diag.
  rewrite Forall_app, !Forall_cons, Forall_fmap. split_and!; try by constructor.
  - by apply literal_fingerprint.
  - apply (literal_member (of_SourceKind _)).
  - apply (literal_member (of_Bucket _)).
  - destruct (exclusion v) as [r|]; [apply (literal_member (of_ExclusionReason r))|done].
  - destruct (blocking_dimension v) as [d|]; [apply (literal_member (of_Dimension d))|done].
  - apply Forall_true. intros d. apply Hopt.
Qed.

(** The emitted text is the program's text. *)
Lemma repair_statements_program vs :
  fingerprinted vs →
  repair_statements vs = Ok (stmt_text <$> repair_program vs).
Proof.
  intros Hvs. unfold repair_statements, repair_program.
  assert (Ho : fingerprinted (sort_by by_fingerprint vs)).
  { intros p. rewrite sort_by_perm. apply Hvs. }
  set (ordered := sort_by by_fingerprint vs) in *.
  rewrite (proj2 (mapM_Ok (λ p, _literal (Some (fingerprint p.1))) ordered ((λ p, quoted (Some (fingerprint p.1))) <$> ordered))).
  2:{ apply Forall2_fmap_r, Forall_Forall2_diag, Forall_forall. intros p Hp.
      apply literal_fingerprint. by apply Ho. }
  cbn [mbind res_bind].
  rewrite (proj2 (mapM_Ok _ ordered
    ((λ p, stmt_text (Upsert (fingerprint p.1) (tail (row_names p.1 p.2)))) <$> ordered))).
  2:{ apply Forall2_fmap_r, Forall_Forall2_diag, Forall_forall. intros p Hp.
      by rewrite row_values_Ok by (by apply Ho). }
  cbn [mbind res_bind]. f_equal. rewrite fmap_app, <- list_fmap_compose.
  destruct ordered as [|p ordered]; [done|].
  cbn [stmt_text fmap list_fmap]. unfold CREATE_SQL at 2 3. cbn [nth].
  rewrite <- list_fmap_compose. done.
Qed.

Abbreviation pairs vs := ((λ p, (fingerprint p.1, tail (row_names p.1 p.2))) <$> vs).

Lemma pairs_keys (vs : list (SourceRow * RowVerdict)) : (pairs vs).*1 = fingerprints vs.
Proof. unfold fingerprints. by rewrite <- list_fmap_compose. Qed.

(** A run of upserts overlays its rows. *)
Lemma exec_upserts (vs : list (SourceRow * RowVerdict)) rows :
  NoDup (fingerprints vs) →
  exec_all ((λ p, Upsert (fingerprint p.1) (tail (row_names p.1 p.2))) <$> vs) (Some rows)
    = Some (Some (cohort_table vs ∪ rows)).
Proof.
  unfold cohort_table. revert rows.
  induction vs as [|p vs IH]; intros rows Hnd; csimpl.
  - by rewrite (left_id_L ∅ (∪)).
  - apply NoDup_cons in Hnd as [Hp Hnd]. rewrite IH by done. do 2 f_equal.
    rewrite <- insert_union_r; [by rewrite insert_union_l|].
    apply not_elem_of_list_to_map_1. by rewrite pairs_keys.
Qed.

Lemma cohort_table_perm vs vs' :
  NoDup (fingerprints vs) → vs ≡ₚ vs' → cohort_table vs = cohort_table vs'.
Proof.
  intros Hnd Hp. unfold cohort_table. apply list_to_map_proper; [by rewrite pairs_keys|].
  by rewrite Hp.
Qed.

Lemma by_fingerprint_total p q : by_fingerprint p q = false → by_fingerprint q p = true.
Proof. apply text_leb_total. Qed.
Lemma by_fingerprint_trans p q r :
  by_fingerprint p q = true → by_fingerprint q r = true → by_fingerprint p r = true.
Proof. apply text_leb_trans. Qed.

Lemma exec_all_app p q t : exec_all (p ++ q) t = exec_all p t ≫= exec_all q.
Proof.
  revert t. induction p as [|s p IH]; intros t; [done|]. cbn [app exec_all].
  destruct (exec s t); cbn [mbind option_bind]; [apply IH|done].
Qed.

(** The program, from any state of the table, leaves exactly the cohort. *)
Lemma exec_repair_program vs t :
  NoDup (fingerprints vs) → exec_all (repair_program vs) t = Some (Some (cohort_table vs)).
Proof.
  intros Hnd. unfold repair_program.
  set (ordered := sort_by by_fingerprint vs).
  assert (Hp : ordered ≡ₚ vs) by apply sort_by_perm.
  assert (Hnd' : NoDup (fingerprints ordered)) by (unfold fingerprints; by rewrite Hp).
  rewrite <- (cohort_table_perm ordered vs) by done.
  cbn [app exec_all exec mbind option_bind].
  assert (∃ rows, match t with None => Some (Some ∅) | Some _ => Some t end =
    Some (Some rows : shadow)) as [rows Hr] by (destruct t; eauto).
  assert (match t with Some _ => Some t | None => Some (Some ∅) end = Some (Some rows))
    as -> by (by destruct t).
  cbn [mbind option_bind].
  destruct ordered as [|p ordered'] eqn:Ho; [done|]. rewrite <- Ho in *. clear Ho.
  cbn [exec mbind option_bind]. rewrite exec_upserts by done. do 2 f_equal.
  apply map_eq. intros k. rewrite lookup_union.
  destruct (cohort_table ordered !! k) as [v|] eqn:Hk; [by rewrite union_Some_l|].
  rewrite (left_id_L None (∪)). apply map_lookup_filter_None. right. intros v _ Hin.
  apply not_elem_of_list_to_map in Hk. rewrite pairs_keys in Hk. by destruct Hk.
Qed.

(** C37: the repair is what its comment promises: its SQL text is refused by
    none of its own literal checks, and running it from any prior state of the
    rehearsal table, absent, stale, half repaired or already repaired, succeeds
    and leaves exactly one row per cohort row with that row's categories, so a
    second run changes nothing. *)
Theorem shadow_repair vs :
  fingerprinted vs → NoDup (fingerprints vs) →
  ∃ program, repair_statements vs = Ok (stmt_text <$> program) ∧
    ∀ before, exec_all program before = Some (Some (cohort_table vs)) ∧
      exec_all (program ++ program) before = exec_all program before.
Proof.
  intros Hf Hnd. exists (repair_program vs).
  split; [by apply repair_statements_program|]. intros before.
  rewrite exec_repair_program by done. split; [done|].
  rewrite exec_all_app, exec_repair_program by done. cbn [mbind option_bind].
  by apply exec_repair_program.
Qed.

(** The emitted text does not depend on the order in which the rows were
    read: two runs over the same rows print identical statements. *)
Theorem repair_deterministic vs vs' :
  NoDup (fingerprints vs) → vs ≡ₚ vs' → repair_statements vs = repair_statements vs'.
Proof.
  intros Hnd Hp. unfold repair_statements.
  rewrite (sort_by_unique by_fingerprint by_fingerprint_total by_fingerprint_trans vs vs');
    [done| |done].
  intros p q Hin Hin' Hpq Hqp.
  pose proof (text_leb_antisym _ _ Hpq Hqp) as Hfp.
  apply list_elem_of_lookup in Hin as [i Hi], Hin' as [j Hj].
  assert (i = j) as ->; [|congruence].
  apply (NoDup_lookup (fingerprints vs) i j (fingerprint p.1)); [done| |];
    unfold fingerprints; rewrite list_lookup_fmap, ?Hi, ?Hj; simpl; congruence.
Qed.

(** ** A concrete repair *)

Definition example_verdicts : list (SourceRow * RowVerdict) :=
  [(example_line (Date 2024 1 31) (Date 2024 2 29),
    mkRowVerdict Bucket.EXCLUDED (Some ExclusionReason.ZERO_QUANTITY_LINE) None []);
   ({| kind := SourceKind.OFFER_VERSION; fingerprint := replicate 64 49;
       amount := lit "1.00"; currency_code := lit "USD"; product_code := None;
       sibling_product_codes := []; sibling_currency_codes := []; quantity := 1;
       referenced_by_cohort_line := true; agreement_status := None;
       is_superseded := false; content_hash := None; activation_content_hash := None;
       term_start := None; term_end_exclusive := None |},
    mkRowVerdict Bucket.BLOCKED None (Some Dimension.PRODUCT_IDENTITY)
      [(Dimension.PRODUCT_IDENTITY,
        of_ProductIdentityOutcome ProductIdentityOutcome.CODE_ABSENT)])].

Lemma shadow_repair_witness :
  ∃ program, repair_statements example_verdicts = Ok (stmt_text <$> program) ∧
    exec_all program None = Some (Some (cohort_table example_verdicts)).
Proof.
  destruct (shadow_repair example_verdicts) as (program & Ht & He).
  - intros p Hp.
    repeat (apply elem_of_cons in Hp as [->|Hp]; [vm_compute; reflexivity|]).
    by apply elem_of_nil in Hp.
  - apply (bool_decide_unpack _). vm_compute. exact I.
  - exists program. split; [exact Ht|]. apply (He None).
Defined.

Lemma repair_deterministic_witness :
  repair_statements example_verdicts = repair_statements (reverse example_verdicts).
Proof.
  apply repair_deterministic; [|by rewrite reverse_Permutation].
  apply (bool_decide_unpack _). vm_compute. exact I.
Defined.
