(* ===== verification/DeliveryStore.v ===== *)
(** * Licence delivery tables

    The rows of [licensing/delivery_models.py] and [licensing/intent_models.py],
    the session a handler runs in, and the calls into the modules composed
    beside this code.  Those modules (licensing, deployment control) and the
    kernel are not this repository's source: the class [Modules] holds what is
    read from them and what they are told, with no law but that the standings
    of a deployment target are distinct. *)

From S2P Require Import Prelude PyText PyUuid Json Tables.

#[local] Open Scope Z_scope.

(** ** Stored vocabularies *)

Module DeliveryState.
Inductive t := DELIVERED | ACTIVE | PARKED.
Definition value (x : t) : pystr :=
  match x with
  | DELIVERED => lit "delivered"
  | ACTIVE => lit "active"
  | PARKED => lit "parked"
  end.
End DeliveryState.

Module AckStatus.
Inductive t := APPLIED | REJECTED.
Definition value (x : t) : pystr :=
  match x with
  | APPLIED => lit "applied"
  | REJECTED => lit "rejected"
  end.
End AckStatus.

Module AckDisposition.
Inductive t :=
  | ACCEPTED | DUPLICATE | UNVERIFIED_IDENTITY | REJECTED_BY_RECEIVER | STALE
  | UNKNOWN_LICENCE | UNKNOWN_DIGEST | DEPLOYMENT_MISMATCH.
Definition value (x : t) : pystr :=
  match x with
  | ACCEPTED => lit "accepted"
  | DUPLICATE => lit "duplicate"
  | UNVERIFIED_IDENTITY => lit "unverified_identity"
  | REJECTED_BY_RECEIVER => lit "rejected_by_receiver"
  | STALE => lit "stale"
  | UNKNOWN_LICENCE => lit "unknown_licence"
  | UNKNOWN_DIGEST => lit "unknown_digest"
  | DEPLOYMENT_MISMATCH => lit "deployment_mismatch"
  end.
Definition members : list t :=
  [ACCEPTED; DUPLICATE; UNVERIFIED_IDENTITY; REJECTED_BY_RECEIVER; STALE;
   UNKNOWN_LICENCE; UNKNOWN_DIGEST; DEPLOYMENT_MISMATCH].
Definition is_quarantined (x : t) : bool :=
  match x with
  | UNKNOWN_LICENCE | UNKNOWN_DIGEST | DEPLOYMENT_MISMATCH => true
  | _ => false
  end.
#[global] Instance t_eq_dec : EqDecision t.
Proof. solve_decision. Defined.
End AckDisposition.

Module AttemptOutcome.
Inductive t := SENT | EXPORTED | SIMULATED | FAILED | TERMINAL.
Definition value (x : t) : pystr :=
  match x with
  | SENT => lit "sent"
  | EXPORTED => lit "exported"
  | SIMULATED => lit "simulated"
  | FAILED => lit "failed"
  | TERMINAL => lit "terminal"
  end.
End AttemptOutcome.

Module TargetStatus.
Inductive t := ACTIVE | SUSPENDED | RETIRED.
Definition value (x : t) : pystr :=
  match x with
  | ACTIVE => lit "active"
  | SUSPENDED => lit "suspended"
  | RETIRED => lit "retired"
  end.
End TargetStatus.

Module IntentStatus.
Inductive t := OPEN | ACKNOWLEDGED.
Definition value (x : t) : pystr :=
  match x with
  | OPEN => lit "open"
  | ACKNOWLEDGED => lit "acknowledged"
  end.
End IntentStatus.

(** ** Rows *)

Module LicenceDelivery.
Record t := Row {
  id : uuid;
  issuance_id : uuid;
  target_ref : pystr;
  target_id : option uuid;
  created_at : option Z;
}.
Definition ukey (r : t) : uuid * pystr := (issuance_id r, target_ref r).
End LicenceDelivery.

Module LicenceDeliveryState.
Record t := Row {
  id : uuid;
  delivery_id : uuid;
  state : pystr;
  activating_ack_id : option uuid;
  replay_generation : Z;
}.
End LicenceDeliveryState.

Module LicenceDeliveryTarget.
Record t := Row {
  id : uuid;
  target_ref : pystr;
  customer_ref : pystr;
  connection_ref : option pystr;
  status : pystr;
}.
End LicenceDeliveryTarget.

Module LicenceDeliveryAttempt.
Record t := Row {
  id : uuid;
  delivery_id : uuid;
  replay_generation : Z;
  attempt_no : Z;
  transport : pystr;
  outcome : pystr;
  error_code : option pystr;
}.
Definition ukey (r : t) : uuid * Z * Z := (delivery_id r, replay_generation r, attempt_no r).
End LicenceDeliveryAttempt.

Module LicenceAckRecord.
Record t := Row {
  id : uuid;
  delivery_id : option uuid;
  licence_id : pystr;
  licence_version : Z;
  digest : pystr;
  status : pystr;
  reason : option pystr;
  deployment_id : option pystr;
  authenticated_deployment_ref : option pystr;
  disposition : pystr;
  created_at : option Z;
}.
End LicenceAckRecord.

Module LicenceDeliveryIntent.
Record t := Row {
  id : uuid;
  issuance_id : uuid;
  licence_id : uuid;
  licence_version : Z;
  artifact_digest : pystr;
  deployment_target_ref : pystr;
  status : pystr;
  integrator_receipt_ref : option pystr;
  acknowledged_at : option Z;
  applied_outcome : option pystr;
}.
Definition ukey (r : t) : uuid * pystr := (issuance_id r, deployment_target_ref r).
End LicenceDeliveryIntent.

(** ** What the kernel's writers are told *)

Record AuditEvent := Audit {
  actor_admin_id : option uuid;
  action : pystr;
  entity_type : pystr;
  entity_id : pystr;
  details : dict;
}.
Record PlatformEvent := Event { event_type : pystr; payload : dict }.

Definition jopt (o : option pystr) : json :=
  match o with Some s => JStr s | None => JNull end.

(** ** The modules composed beside this code *)

(** [dotmac_licensing]'s views, as far as they are read. *)
Record IssuanceView := {
  iv_id : uuid;
  iv_licence_id : uuid;
  iv_version : Z;
  iv_digest : pystr;
  iv_deployment_ref : option pystr;
  iv_envelope : dict;
}.
Record LicenceView := { lv_subject_ref : pystr; lv_issuances : list IssuanceView }.

Module InstallationReport.
Record t := Report {
  licence_ref : pystr;
  licence_version : Z;
  digest : pystr;
  outcome : pystr;
  reason : option pystr;
  reported_at : Z;
  authenticated_deployment_ref : pystr;
}.
End InstallationReport.
Record ModuleAcknowledgeCommand := {
  command_id : pystr;
  report : InstallationReport.t;
  actor_ref : option pystr;
}.

(** The [LicensingError] subclasses the adapter tells apart. *)
Inductive LicensingError :=
  | ExpectedStateError | TransitionRefusedError | AcknowledgementRefusedError
  | OtherLicensingError.
Inductive module_failure :=
  | Licensing (e : LicensingError)
  | Foreign (e : exn).

(** The seam's own view of an issuance. *)
Module DeliveryIssuanceView.
Record t := View {
  id : uuid;
  licence_id : uuid;
  subject_ref : pystr;
  version : Z;
  digest : pystr;
  deployment_ref : option pystr;
  envelope : dict;
}.
End DeliveryIssuanceView.

(** [dotmac_deployment_control]'s view of a target. *)
Record TargetView := {
  tv_id : uuid;
  tv_target_ref : pystr;
  tv_subject_ref : pystr;
  tv_status : pystr;
}.

Class Modules := {
  (** the modules' own tables, in the same transaction *)
  modules : Type;
  module_get_issuance : modules → uuid → option IssuanceView;
  module_licence_view : modules → uuid → option LicenceView;
  module_acknowledge :
    modules → ModuleAcknowledgeCommand → (modules * IssuanceView) + module_failure;
  revocation_list_versions : modules → list Z;
  get_target : modules → uuid → option TargetView;
  (** [dotmac_deployment_control.TargetStatus] *)
  MTS_ACTIVE : pystr;
  MTS_SUSPENDED : pystr;
  MTS_DECOMMISSIONED : pystr;
  MTS_REGISTERED : pystr;
  MTS_NoDup : NoDup [MTS_ACTIVE; MTS_SUSPENDED; MTS_DECOMMISSIONED; MTS_REGISTERED];
  (** [hashlib.sha256(s.encode()).hexdigest()] *)
  sha256_hexdigest : pystr → pystr;
  (** the n-th primary key drawn by [uuid_pk()] *)
  uuid_pk : nat → uuid;
}.

(** ** The session *)

Section session.
Context `{MS : Modules}.

Record Session := {
  deliveries : list LicenceDelivery.t;
  states : list LicenceDeliveryState.t;
  targets : list LicenceDeliveryTarget.t;
  attempts : list LicenceDeliveryAttempt.t;
  acks : list LicenceAckRecord.t;
  intents : list LicenceDeliveryIntent.t;
  audit : list AuditEvent;
  outbox : list PlatformEvent;
  owners : modules;
  (** primary keys drawn so far *)
  draws : nat;
  (** what [TimestampMixin] writes in this transaction, in microseconds *)
  created_now : option Z;
  (** [datetime.now(UTC)] *)
  wall : Z;
  (** the dialect is postgresql *)
  postgresql : bool;
  (** delivery rows other transactions hold locked *)
  locked : list uuid;
}.

Definition set_deliveries (v : list LicenceDelivery.t) (s : Session) : Session :=
  {| deliveries := v; states := states s; targets := targets s;
     attempts := attempts s; acks := acks s; intents := intents s;
     audit := audit s; outbox := outbox s; owners := owners s;
     draws := draws s; created_now := created_now s; wall := wall s;
     postgresql := postgresql s; locked := locked s |}.
Definition set_states (v : list LicenceDeliveryState.t) (s : Session) : Session :=
  {| deliveries := deliveries s; states := v; targets := targets s;
     attempts := attempts s; acks := acks s; intents := intents s;
     audit := audit s; outbox := outbox s; owners := owners s;
     draws := draws s; created_now := created_now s; wall := wall s;
     postgresql := postgresql s; locked := locked s |}.
Definition set_targets (v : list LicenceDeliveryTarget.t) (s : Session) : Session :=
  {| deliveries := deliveries s; states := states s; targets := v;
     attempts := attempts s; acks := acks s; intents := intents s;
     audit := audit s; outbox := outbox s; owners := owners s;
     draws := draws s; created_now := created_now s; wall := wall s;
     postgresql := postgresql s; locked := locked s |}.
Definition set_attempts (v : list LicenceDeliveryAttempt.t) (s : Session) : Session :=
  {| deliveries := deliveries s; states := states s; targets := targets s;
     attempts := v; acks := acks s; intents := intents s;
     audit := audit s; outbox := outbox s; owners := owners s;
     draws := draws s; created_now := created_now s; wall := wall s;
     postgresql := postgresql s; locked := locked s |}.
Definition set_acks (v : list LicenceAckRecord.t) (s : Session) : Session :=
  {| deliveries := deliveries s; states := states s; targets := targets s;
     attempts := attempts s; acks := v; intents := intents s;
     audit := audit s; outbox := outbox s; owners := owners s;
     draws := draws s; created_now := created_now s; wall := wall s;
     postgresql := postgresql s; locked := locked s |}.
Definition set_intents (v : list LicenceDeliveryIntent.t) (s : Session) : Session :=
  {| deliveries := deliveries s; states := states s; targets := targets s;
     attempts := attempts s; acks := acks s; intents := v;
     audit := audit s; outbox := outbox s; owners := owners s;
     draws := draws s; created_now := created_now s; wall := wall s;
     postgresql := postgresql s; locked := locked s |}.
Definition set_audit (v : list AuditEvent) (s : Session) : Session :=
  {| deliveries := deliveries s; states := states s; targets := targets s;
     attempts := attempts s; acks := acks s; intents := intents s;
     audit := v; outbox := outbox s; owners := owners s;
     draws := draws s; created_now := created_now s; wall := wall s;
     postgresql := postgresql s; locked := locked s |}.
Definition set_outbox (v : list PlatformEvent) (s : Session) : Session :=
  {| deliveries := deliveries s; states := states s; targets := targets s;
     attempts := attempts s; acks := acks s; intents := intents s;
     audit := audit s; outbox := v; owners := owners s;
     draws := draws s; created_now := created_now s; wall := wall s;
     postgresql := postgresql s; locked := locked s |}.
Definition set_owners (v : modules) (s : Session) : Session :=
  {| deliveries := deliveries s; states := states s; targets := targets s;
     attempts := attempts s; acks := acks s; intents := intents s;
     audit := audit s; outbox := outbox s; owners := v;
     draws := draws s; created_now := created_now s; wall := wall s;
     postgresql := postgresql s; locked := locked s |}.
Definition set_draws (v : nat) (s : Session) : Session :=
  {| deliveries := deliveries s; states := states s; targets := targets s;
     attempts := attempts s; acks := acks s; intents := intents s;
     audit := audit s; outbox := outbox s; owners := owners s;
     draws := v; created_now := created_now s; wall := wall s;
     postgresql := postgresql s; locked := locked s |}.

Definition Deliveries : table Session LicenceDelivery.t (uuid * pystr) :=
  Table deliveries set_deliveries LicenceDelivery.id LicenceDelivery.ukey.
Definition States : table Session LicenceDeliveryState.t uuid :=
  Table states set_states LicenceDeliveryState.id LicenceDeliveryState.delivery_id.
Definition Targets : table Session LicenceDeliveryTarget.t pystr :=
  Table targets set_targets LicenceDeliveryTarget.id LicenceDeliveryTarget.target_ref.
Definition Attempts : table Session LicenceDeliveryAttempt.t (uuid * Z * Z) :=
  Table attempts set_attempts LicenceDeliveryAttempt.id LicenceDeliveryAttempt.ukey.
Definition Acks : table Session LicenceAckRecord.t uuid :=
  Table acks set_acks LicenceAckRecord.id LicenceAckRecord.id.
Definition Intents : table Session LicenceDeliveryIntent.t (uuid * pystr) :=
  Table intents set_intents LicenceDeliveryIntent.id LicenceDeliveryIntent.ukey.

#[global] Instance Deliveries_laws : TableLaws Deliveries.
Proof. done. Qed.
#[global] Instance States_laws : TableLaws States.
Proof. done. Qed.
#[global] Instance Targets_laws : TableLaws Targets.
Proof. done. Qed.
#[global] Instance Attempts_laws : TableLaws Attempts.
Proof. done. Qed.
#[global] Instance Acks_laws : TableLaws Acks.
Proof. done. Qed.
#[global] Instance Intents_laws : TableLaws Intents.
Proof. done. Qed.

(** [deliveries JOIN states ON states.delivery_id = deliveries.id]. *)
Definition joined (s : Session) : list (LicenceDelivery.t * LicenceDeliveryState.t) :=
  deliveries s ≫= λ d,
    pair d <$> filter (λ st, LicenceDeliveryState.delivery_id st = LicenceDelivery.id d) (states s).

(** The next primary key. *)
Definition draw (s : Session) : Session * uuid :=
  (set_draws (S (draws s)) s, uuid_pk (draws s)).

(** [write_platform_audit_event(db, ...)] and [enqueue_platform_event(db, ...)]. *)
Definition write_platform_audit_event (actor : option uuid) (action entity_type entity_id : pystr)
    (details : dict) (s : Session) : Session :=
  set_audit (audit s ++ [Audit actor action entity_type entity_id details]) s.
Definition enqueue_platform_event (event_type : pystr) (payload : dict) (s : Session) : Session :=
  set_outbox (outbox s ++ [Event event_type payload]) s.

(** ** The licensing seam *)

Definition licensing_domain_error (e : LicensingError) : exn :=
  match e with
  | ExpectedStateError | TransitionRefusedError | AcknowledgementRefusedError =>
      Exn ConflictError ""
  | OtherLicensingError => Exn BadRequestError ""
  end.

Definition _delivery_view (issuance : IssuanceView) (lineage : LicenceView)
    : DeliveryIssuanceView.t :=
  {| DeliveryIssuanceView.id := iv_id issuance;
     DeliveryIssuanceView.licence_id := iv_licence_id issuance;
     DeliveryIssuanceView.subject_ref := lv_subject_ref lineage;
     DeliveryIssuanceView.version := iv_version issuance;
     DeliveryIssuanceView.digest := iv_digest issuance;
     DeliveryIssuanceView.deployment_ref := iv_deployment_ref issuance;
     DeliveryIssuanceView.envelope := iv_envelope issuance |}.

Definition issuance_for_delivery (db : Session) (issuance_id : uuid)
    : res (option DeliveryIssuanceView.t) :=
  match module_get_issuance (owners db) issuance_id with
  | None => Ok None
  | Some issuance =>
      match module_licence_view (owners db) (iv_licence_id issuance) with
      | None => Raise (Exn RuntimeError "issuance ")
      | Some lineage => Ok (Some (_delivery_view issuance lineage))
      end
  end.

Definition find_issuance (db : Session) (licence : uuid) (v : Z) : option DeliveryIssuanceView.t :=
  match module_licence_view (owners db) licence with
  | None => None
  | Some lineage =>
      (λ issuance, _delivery_view issuance lineage) <$>
      first_such (λ value, iv_version value =? v) (lv_issuances lineage)
  end.

Definition latest_revocation_list_version (db : Session) : option Z :=
  match revocation_list_versions (owners db) with
  | [] => None
  | v :: vs => Some (foldr Z.max v vs)
  end.

Definition acknowledge_installation (db : Session) (issuance : DeliveryIssuanceView.t)
    (outcome : pystr) (reason : option pystr) (reported_at : option Z)
    (authenticated_deployment_ref : pystr) (actor_admin_id : option uuid)
    : res (Session * IssuanceView) :=
  let reporter_digest := take 16 (sha256_hexdigest authenticated_deployment_ref) in
  let stable_command_id :=
    lit "vendor:licence:ack:" ++ uuid_str (DeliveryIssuanceView.id issuance) ++ lit ":" ++
    outcome ++ lit ":" ++ reporter_digest in
  match module_acknowledge (owners db)
    {| command_id := stable_command_id;
       report :=
         {| InstallationReport.licence_ref := uuid_str (DeliveryIssuanceView.licence_id issuance);
            InstallationReport.licence_version := DeliveryIssuanceView.version issuance;
            InstallationReport.digest := DeliveryIssuanceView.digest issuance;
            InstallationReport.outcome := outcome;
            InstallationReport.reason := reason;
            InstallationReport.reported_at := default (wall db) reported_at;
            InstallationReport.authenticated_deployment_ref := authenticated_deployment_ref |};
       actor_ref := uuid_str <$> actor_admin_id |}
  with
  | inl (m, view) => Ok (set_owners m db, view)
  | inr (Licensing e) => Raise (licensing_domain_error e)
  | inr (Foreign e) => Raise e
  end.

(** ** The deployment seam *)

Definition _STATUS : list (pystr * TargetStatus.t) :=
  [(MTS_ACTIVE, TargetStatus.ACTIVE);
   (MTS_SUSPENDED, TargetStatus.SUSPENDED);
   (MTS_DECOMMISSIONED, TargetStatus.RETIRED);
   (MTS_REGISTERED, TargetStatus.SUSPENDED)].

Record DeploymentTargetFacts := {
  facts_target_id : uuid;
  facts_target_ref : pystr;
  facts_customer_ref : pystr;
  facts_status : TargetStatus.t;
}.

Definition resolve_target (db : Session) (target_id : uuid) : res DeploymentTargetFacts :=
  view ← of_option (get_target (owners db) target_id)
    (Exn NotFoundError "deployment target ");
  status ← of_option (dict_get _STATUS (tv_status view))
    (Exn NotFoundError "deployment target ");
  Ok {| facts_target_id := tv_id view;
        facts_target_ref := tv_target_ref view;
        facts_customer_ref := tv_subject_ref view;
        facts_status := status |}.
End session.
