(* ===== verification/Projection.v ===== *)
(** * Delivery staging and acknowledgement truth

    [licensing/projection.py]: the delivery targets reconciled from the fleet
    owner, staging, and the ingestion of acknowledgements.  Each handler takes
    the session and returns the session after it, or raises; the definitions
    follow the functions of the file one by one. *)

From S2P Require Import Prelude PyText PyUuid Json Tables DeliveryStore.

#[local] Open Scope Z_scope.

Module AcknowledgementInput.
Record t := Input {
  licence_id : pystr;
  licence_version : Z;
  digest : pystr;
  status : pystr;
  reason : option pystr;
  deployment_id : option pystr;
}.
End AcknowledgementInput.

Module StageDeliveryCommand.
Record t := Command {
  issuance_id : uuid;
  target_ref : pystr;
  actor_admin_id : option uuid;
}.
End StageDeliveryCommand.

Module DeliveryView.
Record t := View {
  id : uuid;
  issuance_id : uuid;
  target_ref : pystr;
  state : pystr;
  activating_ack_id : option uuid;
}.
End DeliveryView.

Module AckOutcome.
Record t := Outcome {
  ack_id : uuid;
  disposition : pystr;
  activated : bool;
  delivery_id : option uuid;
}.
(** [AckDisposition(self.disposition).is_quarantined] *)
Definition quarantined (o : t) : res bool :=
  AckDisposition.is_quarantined <$>
  of_option (first_such (λ d, bool_decide (AckDisposition.value d = disposition o))
               AckDisposition.members)
    (Exn ValueError "").
End AckOutcome.

Section projection.
Context `{MS : Modules} `{UDB : UnicodeDB}.

Definition _EVENT_DELIVERED : pystr := lit "licence.delivered".

(** ** Reads *)

Definition _state_of (db : Session) (delivery_id : uuid) : res LicenceDeliveryState.t :=
  row ← scalar_one_or_none
    (filter (λ r, LicenceDeliveryState.delivery_id r = delivery_id) (states db));
  of_option row (Exn RuntimeError "delivery ").

Definition _view (db : Session) (delivery : LicenceDelivery.t) : res DeliveryView.t :=
  state ← _state_of db (LicenceDelivery.id delivery);
  Ok {| DeliveryView.id := LicenceDelivery.id delivery;
        DeliveryView.issuance_id := LicenceDelivery.issuance_id delivery;
        DeliveryView.target_ref := LicenceDelivery.target_ref delivery;
        DeliveryView.state := LicenceDeliveryState.state state;
        DeliveryView.activating_ack_id := LicenceDeliveryState.activating_ack_id state |}.

Definition delivery_status (db : Session) (delivery_id : uuid) : res DeliveryView.t :=
  delivery ← of_option (db_get Deliveries db delivery_id)
    (Exn NotFoundError "licence delivery ");
  _view db delivery.

(** ** Delivery targets *)

Definition reconcile_delivery_target (db : Session) (facts : DeploymentTargetFacts)
    (actor_admin_id : option uuid) : res (Session * LicenceDeliveryTarget.t) :=
  found ← scalar_one_or_none
    (filter (λ r, LicenceDeliveryTarget.target_ref r = facts_target_ref facts) (targets db));
  '(db, row) ←
    match found with
    | None =>
        let '(db, i) := draw db in
        let row :=
          {| LicenceDeliveryTarget.id := i;
             LicenceDeliveryTarget.target_ref := facts_target_ref facts;
             LicenceDeliveryTarget.customer_ref := facts_customer_ref facts;
             LicenceDeliveryTarget.connection_ref := None;
             LicenceDeliveryTarget.status := TargetStatus.value (facts_status facts) |} in
        db ← db_add Targets row db;
        Ok (db, row)
    | Some row =>
        let row :=
          {| LicenceDeliveryTarget.id := LicenceDeliveryTarget.id row;
             LicenceDeliveryTarget.target_ref := LicenceDeliveryTarget.target_ref row;
             LicenceDeliveryTarget.customer_ref := facts_customer_ref facts;
             LicenceDeliveryTarget.connection_ref := None;
             LicenceDeliveryTarget.status := TargetStatus.value (facts_status facts) |} in
        db ← db_update Targets row db;
        Ok (db, row)
    end;
  Ok (write_platform_audit_event actor_admin_id
        (lit "vendor.licence.delivery_target_reconciled") (lit "licence_delivery_target")
        (uuid_str (LicenceDeliveryTarget.id row))
        [(lit "target_ref", JStr (LicenceDeliveryTarget.target_ref row));
         (lit "customer_ref", JStr (LicenceDeliveryTarget.customer_ref row));
         (lit "status", JStr (LicenceDeliveryTarget.status row));
         (lit "deployment_target_id", JStr (uuid_str (facts_target_id facts)))] db,
      row).

Definition list_delivery_targets (db : Session) : list LicenceDeliveryTarget.t :=
  sort_by (λ a b, text_leb (LicenceDeliveryTarget.target_ref a) (LicenceDeliveryTarget.target_ref b))
    (targets db).

Definition _issued_deployment_id (issuance : DeliveryIssuanceView.t) : option pystr :=
  DeliveryIssuanceView.deployment_ref issuance.

Definition _authorised_target (db : Session) (target_ref : pystr)
    (issuance : DeliveryIssuanceView.t) : res LicenceDeliveryTarget.t :=
  found ← scalar_one_or_none
    (filter (λ r, LicenceDeliveryTarget.target_ref r = target_ref) (targets db));
  target ← of_option found (Exn NotFoundError "delivery target ");
  ensure (bool_decide (LicenceDeliveryTarget.status target = TargetStatus.value TargetStatus.ACTIVE))
    (Exn BadRequestError "delivery target ");;
  ensure (bool_decide (LicenceDeliveryTarget.customer_ref target =
                       DeliveryIssuanceView.subject_ref issuance))
    (Exn BadRequestError "refusing cross-customer delivery: the licence lineage belongs to ");;
  ensure (match _issued_deployment_id issuance with
          | None => true
          | Some bound_to => bool_decide (bound_to = LicenceDeliveryTarget.target_ref target)
          end)
    (Exn BadRequestError "licence is bound to deployment ");;
  Ok target.

Definition map_legacy_delivery (db : Session) (delivery_id : uuid) (target_ref : pystr)
    (actor_admin_id : option uuid) : res (Session * DeliveryView.t) :=
  delivery ← of_option (db_get Deliveries db delivery_id)
    (Exn NotFoundError "licence delivery ");
  ensure (bool_decide (LicenceDelivery.target_id delivery = None))
    (Exn BadRequestError "delivery ");;
  found ← issuance_for_delivery db (LicenceDelivery.issuance_id delivery);
  issuance ← of_option found (Exn RuntimeError "delivery ");
  target ← _authorised_target db target_ref issuance;
  let delivery :=
    {| LicenceDelivery.id := LicenceDelivery.id delivery;
       LicenceDelivery.issuance_id := LicenceDelivery.issuance_id delivery;
       LicenceDelivery.target_ref := LicenceDeliveryTarget.target_ref target;
       LicenceDelivery.target_id := Some (LicenceDeliveryTarget.id target);
       LicenceDelivery.created_at := LicenceDelivery.created_at delivery |} in
  db ← db_update Deliveries delivery db;
  let db := write_platform_audit_event actor_admin_id
    (lit "vendor.licence.delivery_mapped") (lit "licence_delivery")
    (uuid_str (LicenceDelivery.id delivery))
    [(lit "target_ref", JStr (LicenceDeliveryTarget.target_ref target))] db in
  view ← _view db delivery;
  Ok (db, view).

(** ** Delivery staging *)

Definition stage_delivery (db : Session) (command : StageDeliveryCommand.t)
    : res (Session * DeliveryView.t) :=
  found ← issuance_for_delivery db (StageDeliveryCommand.issuance_id command);
  issuance ← of_option found (Exn NotFoundError "licence issuance ");
  target ← _authorised_target db (StageDeliveryCommand.target_ref command) issuance;
  existing ← scalar_one_or_none
    (filter (λ r, LicenceDelivery.issuance_id r = StageDeliveryCommand.issuance_id command ∧
                  LicenceDelivery.target_ref r = StageDeliveryCommand.target_ref command)
       (deliveries db));
  match existing with
  | Some existing => view ← _view db existing; Ok (db, view)
  | None =>
      let '(db, i) := draw db in
      let delivery :=
        {| LicenceDelivery.id := i;
           LicenceDelivery.issuance_id := DeliveryIssuanceView.id issuance;
           LicenceDelivery.target_ref := StageDeliveryCommand.target_ref command;
           LicenceDelivery.target_id := Some (LicenceDeliveryTarget.id target);
           LicenceDelivery.created_at := created_now db |} in
      db ← db_add Deliveries delivery db;
      let '(db, j) := draw db in
      db ← db_add States
        {| LicenceDeliveryState.id := j;
           LicenceDeliveryState.delivery_id := LicenceDelivery.id delivery;
           LicenceDeliveryState.state := DeliveryState.value DeliveryState.DELIVERED;
           LicenceDeliveryState.activating_ack_id := None;
           LicenceDeliveryState.replay_generation := 1 |} db;
      let facts :=
        [(lit "issuance_id", JStr (uuid_str (DeliveryIssuanceView.id issuance)));
         (lit "licence_id", JStr (uuid_str (DeliveryIssuanceView.licence_id issuance)));
         (lit "licence_version", JInt (DeliveryIssuanceView.version issuance));
         (lit "digest", JStr (DeliveryIssuanceView.digest issuance));
         (lit "target_ref", JStr (StageDeliveryCommand.target_ref command))] in
      let db := write_platform_audit_event (StageDeliveryCommand.actor_admin_id command)
        (lit "vendor.licence.delivered") (lit "licence_delivery")
        (uuid_str (LicenceDelivery.id delivery)) facts db in
      let db := enqueue_platform_event _EVENT_DELIVERED
        ((lit "delivery_id", JStr (uuid_str (LicenceDelivery.id delivery))) :: facts) db in
      view ← _view db delivery;
      Ok (db, view)
  end.

(** ** Acknowledgement ingestion *)

Definition _record (db : Session) (ack : AcknowledgementInput.t)
    (disposition : AckDisposition.t) (delivery_id : option uuid)
    (authenticated_deployment_ref : option pystr) : res (Session * LicenceAckRecord.t) :=
  let '(db, i) := draw db in
  let row :=
    {| LicenceAckRecord.id := i;
       LicenceAckRecord.delivery_id := delivery_id;
       LicenceAckRecord.licence_id := AcknowledgementInput.licence_id ack;
       LicenceAckRecord.licence_version := AcknowledgementInput.licence_version ack;
       LicenceAckRecord.digest := AcknowledgementInput.digest ack;
       LicenceAckRecord.status := AcknowledgementInput.status ack;
       LicenceAckRecord.reason := AcknowledgementInput.reason ack;
       LicenceAckRecord.deployment_id := AcknowledgementInput.deployment_id ack;
       LicenceAckRecord.authenticated_deployment_ref := authenticated_deployment_ref;
       LicenceAckRecord.disposition := AckDisposition.value disposition;
       LicenceAckRecord.created_at := created_now db |} in
  db ← db_add Acks row db;
  Ok (db, row).

Definition ack_action (disposition : AckDisposition.t) : pystr :=
  if AckDisposition.is_quarantined disposition
  then lit "vendor.licence.ack_quarantined"
  else lit "vendor.licence.ack_received".

Definition _audit_ack (db : Session) (ack : AcknowledgementInput.t)
    (record : LicenceAckRecord.t) (disposition : AckDisposition.t)
    (actor_admin_id : option uuid) : Session :=
  write_platform_audit_event actor_admin_id (ack_action disposition) (lit "licence_ack")
    (uuid_str (LicenceAckRecord.id record))
    [(lit "licence_id", JStr (AcknowledgementInput.licence_id ack));
     (lit "licence_version", JInt (AcknowledgementInput.licence_version ack));
     (lit "digest", JStr (AcknowledgementInput.digest ack));
     (lit "status", JStr (AcknowledgementInput.status ack));
     (lit "reason", jopt (AcknowledgementInput.reason ack));
     (lit "claimed_deployment_id", jopt (AcknowledgementInput.deployment_id ack));
     (lit "authenticated_deployment_ref",
      jopt (LicenceAckRecord.authenticated_deployment_ref record));
     (lit "disposition", JStr (AckDisposition.value disposition))] db.

(** [max(xs, default=0)]. *)
Definition max_default (xs : list Z) : Z :=
  match xs with
  | [] => 0
  | x :: xs => foldl Z.max x xs
  end.

Definition _highest_active_version (db : Session) (licence_id : uuid) : res Z :=
  let issuance_ids :=
    (λ p, LicenceDelivery.issuance_id p.1) <$>
    filter (λ p, LicenceDeliveryState.state p.2 = DeliveryState.value DeliveryState.ACTIVE)
      (joined db) in
  found ← mapM (issuance_for_delivery db) issuance_ids;
  Ok (max_default
        (DeliveryIssuanceView.version <$>
         filter (λ issuance, DeliveryIssuanceView.licence_id issuance = licence_id)
           (omap (λ o, o) found))).

Definition _acknowledge_issuer (db : Session) (ack : AcknowledgementInput.t)
    (record : LicenceAckRecord.t) (issuance : DeliveryIssuanceView.t)
    (authenticated_deployment_ref : pystr) (actor_admin_id : option uuid) : res Session :=
  if bool_decide (AcknowledgementInput.status ack = AckStatus.value AckStatus.APPLIED ∨
                  AcknowledgementInput.status ack = AckStatus.value AckStatus.REJECTED) then
    r ← acknowledge_installation db issuance (AcknowledgementInput.status ack)
          (AcknowledgementInput.reason ack) (LicenceAckRecord.created_at record)
          authenticated_deployment_ref actor_admin_id;
    Ok r.1
  else Ok db.

(** Record the acknowledgement, audit it, and answer; [issuer] is the report
    forwarded to the licence authority in between, when there is one. *)
Definition close_ack (db : Session) (ack : AcknowledgementInput.t)
    (disposition : AckDisposition.t) (delivery_id : option uuid)
    (authenticated_deployment_ref : option pystr) (actor_admin_id : option uuid)
    (issuer : option (DeliveryIssuanceView.t * pystr)) : res (Session * AckOutcome.t) :=
  '(db, record) ← _record db ack disposition delivery_id authenticated_deployment_ref;
  db ← match issuer with
       | None => Ok db
       | Some (issuance, ref) => _acknowledge_issuer db ack record issuance ref actor_admin_id
       end;
  Ok (_audit_ack db ack record disposition actor_admin_id,
      {| AckOutcome.ack_id := LicenceAckRecord.id record;
         AckOutcome.disposition := AckDisposition.value disposition;
         AckOutcome.activated := false;
         AckOutcome.delivery_id := delivery_id |}).

(** From the proven identity on: the delivery to this deployment, and what the
    report does to it. *)
Definition ingest_proven (db : Session) (ack : AcknowledgementInput.t)
    (issuance : DeliveryIssuanceView.t) (ref : pystr) (actor_admin_id : option uuid)
    : res (Session * AckOutcome.t) :=
  let delivery := head
    (filter (λ d, LicenceDelivery.issuance_id d = DeliveryIssuanceView.id issuance ∧
                  LicenceDelivery.target_ref d = ref) (deliveries db)) in
  if negb (bool_decide (AcknowledgementInput.status ack = AckStatus.value AckStatus.APPLIED)) then
    close_ack db ack AckDisposition.REJECTED_BY_RECEIVER (LicenceDelivery.id <$> delivery)
      (Some ref) actor_admin_id (Some (issuance, ref))
  else
  highest_active ← _highest_active_version db (DeliveryIssuanceView.licence_id issuance);
  if AcknowledgementInput.licence_version ack <? highest_active then
    close_ack db ack AckDisposition.STALE (LicenceDelivery.id <$> delivery)
      (Some ref) actor_admin_id (Some (issuance, ref))
  else
  match delivery with
  | None =>
      close_ack db ack AckDisposition.UNKNOWN_LICENCE None (Some ref) actor_admin_id
        (Some (issuance, ref))
  | Some delivery =>
      state ← _state_of db (LicenceDelivery.id delivery);
      if bool_decide (LicenceDeliveryState.state state = DeliveryState.value DeliveryState.ACTIVE)
      then
        close_ack db ack AckDisposition.DUPLICATE (Some (LicenceDelivery.id delivery))
          (Some ref) actor_admin_id (Some (issuance, ref))
      else
      '(db, record) ← _record db ack AckDisposition.ACCEPTED (Some (LicenceDelivery.id delivery))
        (Some ref);
      db ← _acknowledge_issuer db ack record issuance ref actor_admin_id;
      db ← db_update States
        {| LicenceDeliveryState.id := LicenceDeliveryState.id state;
           LicenceDeliveryState.delivery_id := LicenceDeliveryState.delivery_id state;
           LicenceDeliveryState.state := DeliveryState.value DeliveryState.ACTIVE;
           LicenceDeliveryState.activating_ack_id := Some (LicenceAckRecord.id record);
           LicenceDeliveryState.replay_generation := LicenceDeliveryState.replay_generation state
        |} db;
      Ok (_audit_ack db ack record AckDisposition.ACCEPTED actor_admin_id,
          {| AckOutcome.ack_id := LicenceAckRecord.id record;
             AckOutcome.disposition := AckDisposition.value AckDisposition.ACCEPTED;
             AckOutcome.activated := true;
             AckOutcome.delivery_id := Some (LicenceDelivery.id delivery) |})
  end.

(** The lineage an acknowledgement names, when it names one. *)
Definition claimed_issuance (db : Session) (ack : AcknowledgementInput.t)
    : option DeliveryIssuanceView.t :=
  match UUID (AcknowledgementInput.licence_id ack) with
  | Ok licence_uuid => find_issuance db licence_uuid (AcknowledgementInput.licence_version ack)
  | Raise _ => None
  end.

Definition ingest_acknowledgement (db : Session) (ack : AcknowledgementInput.t)
    (authenticated_deployment_ref : option pystr) (actor_admin_id : option uuid)
    : res (Session * AckOutcome.t) :=
  match claimed_issuance db ack with
  | None =>
      close_ack db ack AckDisposition.UNKNOWN_LICENCE None authenticated_deployment_ref
        actor_admin_id None
  | Some issuance =>
  if negb (bool_decide (AcknowledgementInput.digest ack = DeliveryIssuanceView.digest issuance))
  then
    close_ack db ack AckDisposition.UNKNOWN_DIGEST None authenticated_deployment_ref
      actor_admin_id None
  else
  match authenticated_deployment_ref with
  | None =>
      close_ack db ack AckDisposition.UNVERIFIED_IDENTITY None None actor_admin_id None
  | Some ref =>
  if match AcknowledgementInput.deployment_id ack with
     | Some claimed => negb (bool_decide (claimed = ref))
     | None => false
     end
  then
    close_ack db ack AckDisposition.DEPLOYMENT_MISMATCH None (Some ref) actor_admin_id None
  else
  if match _issued_deployment_id issuance with
     | Some bound_to => negb (bool_decide (ref = bound_to))
     | None => false
     end
  then
    close_ack db ack AckDisposition.DEPLOYMENT_MISMATCH None (Some ref) actor_admin_id None
  else ingest_proven db ack issuance ref actor_admin_id
  end
  end.

(** The log of one licence, oldest first. *)
Definition opt_leb (a b : option Z) : bool :=
  match a, b with
  | Some x, Some y => x <=? y
  | Some _, None => true
  | None, None => true
  | None, Some _ => false
  end.
Definition ack_entry (r : LicenceAckRecord.t) : dict :=
  [(lit "id", JStr (uuid_str (LicenceAckRecord.id r)));
   (lit "licence_version", JInt (LicenceAckRecord.licence_version r));
   (lit "digest", JStr (LicenceAckRecord.digest r));
   (lit "status", JStr (LicenceAckRecord.status r));
   (lit "reason", jopt (LicenceAckRecord.reason r));
   (lit "claimed_deployment_id", jopt (LicenceAckRecord.deployment_id r));
   (lit "authenticated_deployment_ref", jopt (LicenceAckRecord.authenticated_deployment_ref r));
   (lit "disposition", JStr (LicenceAckRecord.disposition r))].
Definition list_acknowledgements (db : Session) (licence_id : pystr) : list dict :=
  ack_entry <$>
  sort_by (λ a b, opt_leb (LicenceAckRecord.created_at a) (LicenceAckRecord.created_at b))
    (filter (λ r, LicenceAckRecord.licence_id r = licence_id) (acks db)).
End projection.
