(* ===== verification/Transport.v ===== *)
(** * Delivery transports and at-least-once replay

    [licensing/transport.py].  A transport is any type with the protocol's
    three members; [send] may change the transport object, raise a
    [TransportError], or raise something else, which the replay loop does not
    catch. *)

From S2P Require Import Prelude PyText PyUuid Json Tables DeliveryStore.

#[local] Open Scope Z_scope.

Definition LOGGING_MODE : pystr := lit "logging".
Definition OFFLINE_MODE : pystr := lit "offline_bundle".

(** ** Failure codes *)

Module TransportErrorCode.
Inductive t :=
  | UNSPECIFIED | TRANSPORT_FAILED | TRANSPORT_TERMINAL | ENDPOINT_UNREACHABLE
  | ENDPOINT_TIMEOUT | AUTHENTICATION_FAILED | REJECTED_BY_TARGET
  | TARGET_NOT_CONFIGURED | PAYLOAD_TOO_LARGE | RETRY_EXHAUSTED.
Definition value (x : t) : pystr :=
  match x with
  | UNSPECIFIED => lit "unspecified"
  | TRANSPORT_FAILED => lit "transport_failed"
  | TRANSPORT_TERMINAL => lit "transport_terminal"
  | ENDPOINT_UNREACHABLE => lit "endpoint_unreachable"
  | ENDPOINT_TIMEOUT => lit "endpoint_timeout"
  | AUTHENTICATION_FAILED => lit "authentication_failed"
  | REJECTED_BY_TARGET => lit "rejected_by_target"
  | TARGET_NOT_CONFIGURED => lit "target_not_configured"
  | PAYLOAD_TOO_LARGE => lit "payload_too_large"
  | RETRY_EXHAUSTED => lit "retry_exhausted"
  end.
Definition members : list t :=
  [UNSPECIFIED; TRANSPORT_FAILED; TRANSPORT_TERMINAL; ENDPOINT_UNREACHABLE;
   ENDPOINT_TIMEOUT; AUTHENTICATION_FAILED; REJECTED_BY_TARGET;
   TARGET_NOT_CONFIGURED; PAYLOAD_TOO_LARGE; RETRY_EXHAUSTED].
End TransportErrorCode.

(** [TransportErrorCode | str]. *)
Inductive code_arg :=
  | Member (c : TransportErrorCode.t)
  | Text (s : pystr).

Definition _closed_code (code : code_arg) : pystr :=
  match code with
  | Member c => TransportErrorCode.value c
  | Text s =>
      match first_such (λ c, bool_decide (TransportErrorCode.value c = s))
              TransportErrorCode.members with
      | Some c => TransportErrorCode.value c
      | None => TransportErrorCode.value TransportErrorCode.UNSPECIFIED
      end
  end.

(** [TransportError(code=...)], or [TerminalTransportError(code=...)]. *)
Inductive TransportError := Error (terminal : bool) (given : option code_arg).
Definition retryable (e : TransportError) : bool :=
  let 'Error terminal _ := e in negb terminal.
Definition default_code (terminal : bool) : TransportErrorCode.t :=
  if terminal then TransportErrorCode.TRANSPORT_TERMINAL
  else TransportErrorCode.TRANSPORT_FAILED.
Definition code (e : TransportError) : pystr :=
  let 'Error terminal given := e in
  _closed_code (default (Member (default_code terminal)) given).

(** ** Transports *)

Module DeliveryPacket.
Record t := Packet {
  delivery_id : uuid;
  licence_id : uuid;
  licence_version : Z;
  digest : pystr;
  target_ref : pystr;
  envelope : dict;
}.
End DeliveryPacket.

Inductive send_result := Handled | Failed (e : TransportError) | Crashed (e : exn).

Class LicenceDeliveryTransport (T : Type) := {
  name : T → pystr;
  performs_external_handoff : T → bool;
  send : T → DeliveryPacket.t → T * send_result;
}.

Module LoggingTransport.
Record t := Transport { sent : list DeliveryPacket.t; _fail_with : option TransportError }.
Definition init (fail_with : option TransportError) : t := Transport [] fail_with.
Definition send (self : t) (packet : DeliveryPacket.t) : t * send_result :=
  match _fail_with self with
  | Some e => (self, Failed e)
  | None => (Transport (sent self ++ [packet]) None, Handled)
  end.
End LoggingTransport.

Module OfflineBundleTransport.
Record t := Transport { bundles : list pystr; _revocation_envelope : option dict }.
Definition init (revocation_envelope : option dict) : t := Transport [] revocation_envelope.
Definition render (packet : DeliveryPacket.t) (revocation_envelope : option dict) : pystr :=
  dumps_indented (JObj (
    [(lit "bundle", JStr (lit "dotmac-licence-envelope-bundle/1"));
     (lit "licence_id", JStr (uuid_str (DeliveryPacket.licence_id packet)));
     (lit "licence_version", JInt (DeliveryPacket.licence_version packet));
     (lit "digest", JStr (DeliveryPacket.digest packet));
     (lit "target_ref", JStr (DeliveryPacket.target_ref packet));
     (lit "envelope", JObj (DeliveryPacket.envelope packet));
     (lit "requires",
      JArr [JStr (lit "verification-keyring-provisioned-out-of-band");
            JStr (lit "receiver-applies-revocation-list");
            JStr (lit "no-import-receipt")])] ++
    match revocation_envelope with
    | Some e => [(lit "revocation_list", JObj e)]
    | None => []
    end)).
Definition send (self : t) (packet : DeliveryPacket.t) : t * send_result :=
  (Transport (bundles self ++ [render packet (_revocation_envelope self)])
     (_revocation_envelope self), Handled).
End OfflineBundleTransport.

#[export] Instance logging_transport : LicenceDeliveryTransport LoggingTransport.t := {|
  name _ := LOGGING_MODE;
  performs_external_handoff _ := false;
  send := LoggingTransport.send;
|}.
#[export] Instance offline_transport : LicenceDeliveryTransport OfflineBundleTransport.t := {|
  name _ := OFFLINE_MODE;
  performs_external_handoff _ := false;
  send := OfflineBundleTransport.send;
|}.
(** One of two transports. *)
#[export] Instance either_transport {A B} `{LicenceDeliveryTransport A} `{LicenceDeliveryTransport B}
    : LicenceDeliveryTransport (A + B) := {|
  name t := match t with inl a => name a | inr b => name b end;
  performs_external_handoff t :=
    match t with
    | inl a => performs_external_handoff a
    | inr b => performs_external_handoff b
    end;
  send t packet :=
    match t with
    | inl a => let '(a, r) := send a packet in (inl a, r)
    | inr b => let '(b, r) := send b packet in (inr b, r)
    end;
|}.

(** [mode] is [vendor_settings.licence_delivery_mode]. *)
Definition build_delivery_transport (mode : pystr)
    : res (LoggingTransport.t + OfflineBundleTransport.t) :=
  if bool_decide (mode = LOGGING_MODE) then Ok (inl (LoggingTransport.init None))
  else if bool_decide (mode = OFFLINE_MODE) then Ok (inr (OfflineBundleTransport.init None))
  else Raise (Exn TransportModeNotPermittedError "VENDOR_LICENCE_DELIVERY_MODE=").

(** ** Replay *)

Module DispatchReport.
Record t := Report {
  attempted : nat;
  sent : nat;
  failed : nat;
  parked_terminal : nat;
  parked_exhausted : nat;
}.
Definition add (a b : t) : t :=
  {| attempted := attempted a + attempted b; sent := sent a + sent b;
     failed := failed a + failed b; parked_terminal := parked_terminal a + parked_terminal b;
     parked_exhausted := parked_exhausted a + parked_exhausted b |}%nat.
End DispatchReport.

Section replay.
Context `{MS : Modules}.

Definition _packet (db : Session) (delivery : LicenceDelivery.t) : res DeliveryPacket.t :=
  found ← issuance_for_delivery db (LicenceDelivery.issuance_id delivery);
  issuance ← of_option found (Exn RuntimeError "delivery ");
  Ok {| DeliveryPacket.delivery_id := LicenceDelivery.id delivery;
        DeliveryPacket.licence_id := DeliveryIssuanceView.licence_id issuance;
        DeliveryPacket.licence_version := DeliveryIssuanceView.version issuance;
        DeliveryPacket.digest := DeliveryIssuanceView.digest issuance;
        DeliveryPacket.target_ref := LicenceDelivery.target_ref delivery;
        DeliveryPacket.envelope := DeliveryIssuanceView.envelope issuance |}.

Definition _current_generation (db : Session) (delivery_id : uuid) : res Z :=
  state ← scalar_one
    (filter (λ r, LicenceDeliveryState.delivery_id r = delivery_id) (states db));
  Ok (LicenceDeliveryState.replay_generation state).

Definition _attempt_count (db : Session) (delivery_id : uuid) (generation : Z) : Z :=
  Z.of_nat (count_if (λ r, LicenceDeliveryAttempt.delivery_id r = delivery_id ∧
                           LicenceDeliveryAttempt.replay_generation r = generation)
              (attempts db)).

(** Oldest first, a missing time last. *)
Definition created_leb (a b : LicenceDelivery.t) : bool :=
  match LicenceDelivery.created_at a, LicenceDelivery.created_at b with
  | Some x, Some y => x <=? y
  | Some _, None => true
  | None, None => true
  | None, Some _ => false
  end.

Definition pending_deliveries (db : Session) (limit : nat) (claim : bool)
    : list LicenceDelivery.t :=
  let eligible :=
    filter (λ p, LicenceDeliveryState.state p.2 ≠ DeliveryState.value DeliveryState.ACTIVE ∧
                 LicenceDeliveryState.state p.2 ≠ DeliveryState.value DeliveryState.PARKED ∧
                 LicenceDelivery.target_id p.1 ≠ None) (joined db) in
  let ordered := sort_by created_leb eligible.*1 in
  take limit
    (if claim && postgresql db
     then filter (λ d, LicenceDelivery.id d ∉ locked db) ordered
     else ordered).

Definition _park (db : Session) (delivery : LicenceDelivery.t) (reason_code : pystr)
    (actor_admin_id : option uuid) : res Session :=
  state ← scalar_one
    (filter (λ r, LicenceDeliveryState.delivery_id r = LicenceDelivery.id delivery) (states db));
  db ← db_update States
    {| LicenceDeliveryState.id := LicenceDeliveryState.id state;
       LicenceDeliveryState.delivery_id := LicenceDeliveryState.delivery_id state;
       LicenceDeliveryState.state := DeliveryState.value DeliveryState.PARKED;
       LicenceDeliveryState.activating_ack_id := LicenceDeliveryState.activating_ack_id state;
       LicenceDeliveryState.replay_generation := LicenceDeliveryState.replay_generation state |} db;
  Ok (write_platform_audit_event actor_admin_id
        (lit "vendor.licence.delivery_parked") (lit "licence_delivery")
        (uuid_str (LicenceDelivery.id delivery))
        [(lit "reason_code", JStr reason_code);
         (lit "target_ref", JStr (LicenceDelivery.target_ref delivery))] db).

Definition resume_delivery (db : Session) (delivery_id : uuid) (actor_admin_id : option uuid)
    : res Session :=
  delivery ← of_option (db_get Deliveries db delivery_id)
    (Exn NotFoundError "licence delivery ");
  ensure (negb (bool_decide (LicenceDelivery.target_id delivery = None)))
    (Exn BadRequestError "delivery ");;
  found ← scalar_one_or_none
    (filter (λ r, LicenceDeliveryState.delivery_id r = delivery_id) (states db));
  state ← of_option found (Exn NotFoundError "licence delivery ");
  if negb (bool_decide (LicenceDeliveryState.state state = DeliveryState.value DeliveryState.PARKED))
  then Ok db
  else
  let state :=
    {| LicenceDeliveryState.id := LicenceDeliveryState.id state;
       LicenceDeliveryState.delivery_id := LicenceDeliveryState.delivery_id state;
       LicenceDeliveryState.state := DeliveryState.value DeliveryState.DELIVERED;
       LicenceDeliveryState.activating_ack_id := LicenceDeliveryState.activating_ack_id state;
       LicenceDeliveryState.replay_generation := LicenceDeliveryState.replay_generation state + 1 |} in
  db ← db_update States state db;
  Ok (write_platform_audit_event actor_admin_id
        (lit "vendor.licence.delivery_resumed") (lit "licence_delivery") (uuid_str delivery_id)
        [(lit "replay_generation", JInt (LicenceDeliveryState.replay_generation state))] db).

(** Append one attempt row. *)
Definition add_attempt (db : Session) (delivery_id : uuid) (generation attempt_no : Z)
    (transport outcome : pystr) (error_code : option pystr) : res Session :=
  let '(db, i) := draw db in
  db_add Attempts
    {| LicenceDeliveryAttempt.id := i;
       LicenceDeliveryAttempt.delivery_id := delivery_id;
       LicenceDeliveryAttempt.replay_generation := generation;
       LicenceDeliveryAttempt.attempt_no := attempt_no;
       LicenceDeliveryAttempt.transport := transport;
       LicenceDeliveryAttempt.outcome := outcome;
       LicenceDeliveryAttempt.error_code := error_code |} db.

Section dispatch.
Context {T : Type} `{LicenceDeliveryTransport T}.
Context (max_attempts : Z) (sent_outcome : AttemptOutcome.t) (actor_admin_id : option uuid).

(** The handler of [except TransportError]. *)
Definition attempt_failed (db : Session) (transport : T) (delivery : LicenceDelivery.t)
    (generation attempt_no : Z) (e : TransportError) : res (Session * DispatchReport.t) :=
  let terminal := negb (retryable e) in
  db ← add_attempt db (LicenceDelivery.id delivery) generation attempt_no (name transport)
    (AttemptOutcome.value (if terminal then AttemptOutcome.TERMINAL else AttemptOutcome.FAILED))
    (Some (code e));
  let db := write_platform_audit_event actor_admin_id
    (lit "vendor.licence.delivery_attempt_failed") (lit "licence_delivery")
    (uuid_str (LicenceDelivery.id delivery))
    [(lit "attempt_no", JInt attempt_no);
     (lit "transport", JStr (name transport));
     (lit "retryable", JBool (retryable e));
     (lit "error_code", JStr (code e))] db in
  if terminal then
    db ← _park db delivery (code e) actor_admin_id;
    Ok (db, DispatchReport.Report 1 0 1 1 0)
  else Ok (db, DispatchReport.Report 1 0 1 0 0).

(** One turn of the replay loop, and what it adds to the report. *)
Definition dispatch_one (db : Session) (transport : T) (delivery : LicenceDelivery.t)
    : res (Session * T * DispatchReport.t) :=
  generation ← _current_generation db (LicenceDelivery.id delivery);
  let prior := _attempt_count db (LicenceDelivery.id delivery) generation in
  if max_attempts <=? prior then
    db ← _park db delivery (TransportErrorCode.value TransportErrorCode.RETRY_EXHAUSTED)
           actor_admin_id;
    Ok (db, transport, DispatchReport.Report 0 0 0 0 1)
  else
  let attempt_no := prior + 1 in
  packet ← _packet db delivery;
  let '(transport, result) := send transport packet in
  match result with
  | Crashed e => Raise e
  | Failed e =>
      '(db, report) ← attempt_failed db transport delivery generation attempt_no e;
      Ok (db, transport, report)
  | Handled =>
      db ← add_attempt db (LicenceDelivery.id delivery) generation attempt_no (name transport)
             (AttemptOutcome.value sent_outcome) None;
      Ok (db, transport, DispatchReport.Report 1 1 0 0 0)
  end.

Fixpoint dispatch_all (db : Session) (transport : T) (work : list LicenceDelivery.t)
    : res (Session * T * DispatchReport.t) :=
  match work with
  | [] => Ok (db, transport, DispatchReport.Report 0 0 0 0 0)
  | delivery :: work =>
      '(db, transport, r) ← dispatch_one db transport delivery;
      '(db, transport, rs) ← dispatch_all db transport work;
      Ok (db, transport, DispatchReport.add r rs)
  end.
End dispatch.

Definition dispatch_through {T} `{LicenceDeliveryTransport T} (db : Session) (transport : T)
    (limit : nat) (max_attempts : Z) (simulate : bool) (actor_admin_id : option uuid)
    : res (Session * T * DispatchReport.t) :=
  ensure (performs_external_handoff transport || simulate)
    (Exn TransportModeNotPermittedError "transport ");;
  let sent_outcome :=
    if negb (performs_external_handoff transport) then AttemptOutcome.SIMULATED
    else AttemptOutcome.SENT in
  dispatch_all max_attempts sent_outcome actor_admin_id db transport
    (pending_deliveries db limit true).

Definition dispatch_pending {T} `{LicenceDeliveryTransport T} (mode : pystr) (db : Session)
    (transport : option T) (limit : nat) (max_attempts : Z) (simulate : bool)
    (actor_admin_id : option uuid) : res (Session * DispatchReport.t) :=
  match transport with
  | Some transport =>
      '(db, _, report) ← dispatch_through db transport limit max_attempts simulate actor_admin_id;
      Ok (db, report)
  | None =>
      transport ← build_delivery_transport mode;
      '(db, _, report) ← dispatch_through db transport limit max_attempts simulate actor_admin_id;
      Ok (db, report)
  end.

Definition export_delivery_bundle (db : Session) (delivery_id : uuid)
    (revocation_envelope : option dict) (actor_admin_id : option uuid)
    : res (Session * pystr) :=
  delivery ← of_option (db_get Deliveries db delivery_id)
    (Exn NotFoundError "licence delivery ");
  ensure (negb (bool_decide (LicenceDelivery.target_id delivery = None)))
    (Exn BadRequestError "delivery ");;
  packet ← _packet db delivery;
  let bundle := OfflineBundleTransport.render packet revocation_envelope in
  generation ← _current_generation db (LicenceDelivery.id delivery);
  let attempt_no := _attempt_count db (LicenceDelivery.id delivery) generation + 1 in
  db ← add_attempt db (LicenceDelivery.id delivery) generation attempt_no OFFLINE_MODE
    (AttemptOutcome.value AttemptOutcome.EXPORTED) None;
  Ok (write_platform_audit_event actor_admin_id
        (lit "vendor.licence.bundle_exported") (lit "licence_delivery")
        (uuid_str (LicenceDelivery.id delivery))
        [(lit "licence_id", JStr (uuid_str (DeliveryPacket.licence_id packet)));
         (lit "licence_version", JInt (DeliveryPacket.licence_version packet));
         (lit "digest", JStr (DeliveryPacket.digest packet));
         (lit "target_ref", JStr (DeliveryPacket.target_ref packet));
         (lit "attempt_no", JInt attempt_no)] db,
      bundle).
End replay.
