(* ===== verification/SourcePorts.v ===== *)
(** * The licence source ports

    [licensing/source_ports.py]: a delivery intent is opened for one issuance
    and one deployment target, its artifact is read for dispatch, and one
    correlated, authenticated acknowledgement completes it.  The declared
    contract of the ports is [licensing/source_contract.py], at the end. *)

From S2P Require Import Prelude PyText PyUuid Json Tables DeliveryStore.

#[local] Open Scope Z_scope.

Module DeliveryIntentView.
Record t := View {
  delivery_intent_id : uuid;
  issuance_id : uuid;
  deployment_target_ref : pystr;
  licence_version : Z;
  artifact_digest : pystr;
  status : pystr;
  integrator_receipt_ref : option pystr;
  acknowledged_at : option Z;
}.
End DeliveryIntentView.

Module ExactArtifact.
Record t := Artifact {
  delivery_intent_id : uuid;
  artifact_digest : pystr;
  envelope : dict;
}.
End ExactArtifact.

Module AcknowledgeIntentCommand.
Record t := Command {
  delivery_intent_id : uuid;
  deployment_target_ref : pystr;
  licence_version : Z;
  artifact_digest : pystr;
  integrator_receipt_ref : pystr;
  authenticated_deployment_ref : pystr;
  outcome : pystr;
  reason : option pystr;
  reported_at : option Z;
  actor_admin_id : option uuid;
}.
End AcknowledgeIntentCommand.

Section ports.
Context `{MS : Modules}.

Definition intent_view (row : LicenceDeliveryIntent.t) : DeliveryIntentView.t :=
  {| DeliveryIntentView.delivery_intent_id := LicenceDeliveryIntent.id row;
     DeliveryIntentView.issuance_id := LicenceDeliveryIntent.issuance_id row;
     DeliveryIntentView.deployment_target_ref := LicenceDeliveryIntent.deployment_target_ref row;
     DeliveryIntentView.licence_version := LicenceDeliveryIntent.licence_version row;
     DeliveryIntentView.artifact_digest := LicenceDeliveryIntent.artifact_digest row;
     DeliveryIntentView.status := LicenceDeliveryIntent.status row;
     DeliveryIntentView.integrator_receipt_ref := LicenceDeliveryIntent.integrator_receipt_ref row;
     DeliveryIntentView.acknowledged_at := LicenceDeliveryIntent.acknowledged_at row |}.

Definition _intent (db : Session) (delivery_intent_id : uuid) : res LicenceDeliveryIntent.t :=
  of_option (db_get Intents db delivery_intent_id) (Exn NotFoundError "delivery intent ").

Definition open_delivery_intent (db : Session) (issuance_id deployment_target_id : uuid)
    (actor_admin_id : option uuid) : res (Session * DeliveryIntentView.t) :=
  found ← issuance_for_delivery db issuance_id;
  issuance ← of_option found (Exn NotFoundError "licence issuance ");
  target ← resolve_target db deployment_target_id;
  ensure (bool_decide (DeliveryIssuanceView.subject_ref issuance = facts_customer_ref target))
    (Exn BadRequestError
       "refusing cross-customer delivery intent: the licence lineage belongs to ");;
  ensure (match DeliveryIssuanceView.deployment_ref issuance with
          | None => true
          | Some bound_to => bool_decide (bound_to = facts_target_ref target)
          end)
    (Exn BadRequestError "licence is bound to deployment ");;
  existing ← scalar_one_or_none
    (filter (λ r, LicenceDeliveryIntent.issuance_id r = DeliveryIssuanceView.id issuance ∧
                  LicenceDeliveryIntent.deployment_target_ref r = facts_target_ref target)
       (intents db));
  match existing with
  | Some existing => Ok (db, intent_view existing)
  | None =>
      let '(db, i) := draw db in
      let row :=
        {| LicenceDeliveryIntent.id := i;
           LicenceDeliveryIntent.issuance_id := DeliveryIssuanceView.id issuance;
           LicenceDeliveryIntent.licence_id := DeliveryIssuanceView.licence_id issuance;
           LicenceDeliveryIntent.licence_version := DeliveryIssuanceView.version issuance;
           LicenceDeliveryIntent.artifact_digest := DeliveryIssuanceView.digest issuance;
           LicenceDeliveryIntent.deployment_target_ref := facts_target_ref target;
           LicenceDeliveryIntent.status := IntentStatus.value IntentStatus.OPEN;
           LicenceDeliveryIntent.integrator_receipt_ref := None;
           LicenceDeliveryIntent.acknowledged_at := None;
           LicenceDeliveryIntent.applied_outcome := None |} in
      db ← db_add Intents row db;
      Ok (write_platform_audit_event actor_admin_id
            (lit "vendor.licence.delivery_intent_opened") (lit "licence_delivery_intent")
            (uuid_str (LicenceDeliveryIntent.id row))
            [(lit "issuance_id", JStr (uuid_str (LicenceDeliveryIntent.issuance_id row)));
             (lit "deployment_target_ref", JStr (LicenceDeliveryIntent.deployment_target_ref row));
             (lit "licence_version", JInt (LicenceDeliveryIntent.licence_version row));
             (lit "artifact_digest", JStr (LicenceDeliveryIntent.artifact_digest row))] db,
          intent_view row)
  end.

Definition read_exact_artifact (db : Session) (delivery_intent_id : uuid)
    (actor_admin_id : option uuid) : res (Session * ExactArtifact.t) :=
  row ← _intent db delivery_intent_id;
  found ← issuance_for_delivery db (LicenceDeliveryIntent.issuance_id row);
  issuance ← of_option found (Exn NotFoundError "delivery intent ");
  ensure (bool_decide (DeliveryIssuanceView.digest issuance =
                       LicenceDeliveryIntent.artifact_digest row))
    (Exn ConflictError "artifact digest for issuance ");;
  Ok (write_platform_audit_event actor_admin_id
        (lit "vendor.licence.source_artifact_read") (lit "licence_delivery_intent")
        (uuid_str (LicenceDeliveryIntent.id row))
        [(lit "issuance_id", JStr (uuid_str (LicenceDeliveryIntent.issuance_id row)));
         (lit "artifact_digest", JStr (LicenceDeliveryIntent.artifact_digest row))] db,
      {| ExactArtifact.delivery_intent_id := LicenceDeliveryIntent.id row;
         ExactArtifact.artifact_digest := LicenceDeliveryIntent.artifact_digest row;
         ExactArtifact.envelope := DeliveryIssuanceView.envelope issuance |}).

(** The names of the correlation fields on which the acknowledgement disagrees
    with the intent. *)
Definition mismatches (row : LicenceDeliveryIntent.t) (command : AcknowledgeIntentCommand.t)
    : list pystr :=
  omap (λ o : pystr * bool, if o.2 then None else Some o.1)
    [(lit "deployment_target_ref",
      bool_decide (LicenceDeliveryIntent.deployment_target_ref row =
                   AcknowledgeIntentCommand.deployment_target_ref command));
     (lit "licence_version",
      bool_decide (LicenceDeliveryIntent.licence_version row =
                   AcknowledgeIntentCommand.licence_version command));
     (lit "artifact_digest",
      bool_decide (LicenceDeliveryIntent.artifact_digest row =
                   AcknowledgeIntentCommand.artifact_digest command))].

(** From the owner's decision on: the report is forwarded and the intent closed. *)
Definition complete_intent (db : Session) (row : LicenceDeliveryIntent.t)
    (command : AcknowledgeIntentCommand.t) : res (Session * DeliveryIntentView.t) :=
  found ← issuance_for_delivery db (LicenceDeliveryIntent.issuance_id row);
  issuance ← of_option found (Exn NotFoundError "delivery intent ");
  '(db, _) ← acknowledge_installation db issuance
    (AcknowledgeIntentCommand.outcome command) (AcknowledgeIntentCommand.reason command)
    (AcknowledgeIntentCommand.reported_at command)
    (AcknowledgeIntentCommand.authenticated_deployment_ref command)
    (AcknowledgeIntentCommand.actor_admin_id command);
  let row :=
    {| LicenceDeliveryIntent.id := LicenceDeliveryIntent.id row;
       LicenceDeliveryIntent.issuance_id := LicenceDeliveryIntent.issuance_id row;
       LicenceDeliveryIntent.licence_id := LicenceDeliveryIntent.licence_id row;
       LicenceDeliveryIntent.licence_version := LicenceDeliveryIntent.licence_version row;
       LicenceDeliveryIntent.artifact_digest := LicenceDeliveryIntent.artifact_digest row;
       LicenceDeliveryIntent.deployment_target_ref :=
         LicenceDeliveryIntent.deployment_target_ref row;
       LicenceDeliveryIntent.status := IntentStatus.value IntentStatus.ACKNOWLEDGED;
       LicenceDeliveryIntent.integrator_receipt_ref :=
         Some (AcknowledgeIntentCommand.integrator_receipt_ref command);
       LicenceDeliveryIntent.acknowledged_at :=
         Some (default (wall db) (AcknowledgeIntentCommand.reported_at command));
       LicenceDeliveryIntent.applied_outcome := Some (AcknowledgeIntentCommand.outcome command)
    |} in
  db ← db_update Intents row db;
  Ok (write_platform_audit_event (AcknowledgeIntentCommand.actor_admin_id command)
        (lit "vendor.licence.delivery_intent_acknowledged") (lit "licence_delivery_intent")
        (uuid_str (LicenceDeliveryIntent.id row))
        [(lit "integrator_receipt_ref",
          JStr (AcknowledgeIntentCommand.integrator_receipt_ref command));
         (lit "authenticated_deployment_ref",
          JStr (AcknowledgeIntentCommand.authenticated_deployment_ref command));
         (lit "outcome", JStr (AcknowledgeIntentCommand.outcome command));
         (lit "artifact_digest", JStr (LicenceDeliveryIntent.artifact_digest row))] db,
      intent_view row).

Definition acknowledge_delivery_intent (db : Session) (command : AcknowledgeIntentCommand.t)
    : res (Session * DeliveryIntentView.t) :=
  row ← _intent db (AcknowledgeIntentCommand.delivery_intent_id command);
  ensure (bool_decide (mismatches row command = []))
    (Exn BadRequestError "refusing an acknowledgement that does not correlate to the intent ");;
  ensure (bool_decide (AcknowledgeIntentCommand.authenticated_deployment_ref command =
                       LicenceDeliveryIntent.deployment_target_ref row))
    (Exn BadRequestError "the transport authenticated ");;
  if bool_decide (LicenceDeliveryIntent.status row = IntentStatus.value IntentStatus.ACKNOWLEDGED)
  then
    if bool_decide (LicenceDeliveryIntent.integrator_receipt_ref row =
                    Some (AcknowledgeIntentCommand.integrator_receipt_ref command))
    then Ok (db, intent_view row)
    else Raise (Exn ConflictError "delivery intent ")
  else complete_intent db row command.

Definition get_delivery_intent (db : Session) (delivery_intent_id : uuid)
    : res DeliveryIntentView.t :=
  intent_view <$> _intent db delivery_intent_id.

(** ** The declared contract *)

Definition CONTRACT_SCHEMA : pystr := lit "dotmac.io/licence-source-contract/v1".
Definition CONTRACT_VERSION : Z := 1.
Definition APPLICATION : pystr := lit "dotmac-vendor-control-plane".
Definition LIFECYCLE_OWNER : pystr := lit "dotmac-licensing".
Definition CORRELATION_FIELDS : list pystr :=
  lit <$> ["delivery_intent_id"; "deployment_target_ref"; "licence_version"; "artifact_digest"]%string.

Record SourceOperation := {
  op_name : pystr;
  op_method : pystr;
  op_path : pystr;
  op_summary : pystr;
  op_request_fields : list pystr;
  op_response_fields : list pystr;
}.

Definition OPERATIONS : list SourceOperation :=
  [{| op_name := lit "open_delivery_intent"; op_method := lit "POST";
      op_path := lit "/platform/vendor/licences/source/intents";
      op_summary := lit "Durably record that an exact licence artifact is to be delivered to one Deployment Control target. Returns the correlation fields and NOT the signed envelope.";
      op_request_fields := lit <$> ["issuance_id"; "deployment_target_id"]%string;
      op_response_fields := lit <$> ["delivery_intent_id"; "deployment_target_ref";
        "licence_version"; "artifact_digest"; "issuance_id"; "status"]%string |};
   {| op_name := lit "read_exact_artifact"; op_method := lit "GET";
      op_path := lit "/platform/vendor/licences/source/intents/{delivery_intent_id}/artifact";
      op_summary := lit "Return the immutable signed envelope for this intent's artifact, for dispatch only. Never copied into an event, retry row or log.";
      op_request_fields := lit <$> ["delivery_intent_id"]%string;
      op_response_fields := lit <$> ["delivery_intent_id"; "artifact_digest"; "envelope"]%string |};
   {| op_name := lit "acknowledge_delivery_intent"; op_method := lit "POST";
      op_path := lit "/platform/vendor/licences/source/intents/{delivery_intent_id}/acknowledgement";
      op_summary := lit "Complete an already-correlated intent. Carries the transport-authenticated deployment identity and the durable Integrator receipt identity. Idempotent on the receipt.";
      op_request_fields := lit <$> ["deployment_target_ref"; "licence_version"; "artifact_digest";
        "integrator_receipt_ref"; "authenticated_deployment_ref"; "outcome"; "reason";
        "reported_at"]%string;
      op_response_fields := lit <$> ["delivery_intent_id"; "status"; "acknowledged_at";
        "integrator_receipt_ref"]%string |}].

Definition jstrs (l : list pystr) : json := JArr (JStr <$> l).
Definition asdict (operation : SourceOperation) : json :=
  JObj [(lit "name", JStr (op_name operation)); (lit "method", JStr (op_method operation));
        (lit "path", JStr (op_path operation)); (lit "summary", JStr (op_summary operation));
        (lit "request_fields", jstrs (op_request_fields operation));
        (lit "response_fields", jstrs (op_response_fields operation))].
Definition declaration : dict :=
  [(lit "schema", JStr CONTRACT_SCHEMA);
   (lit "application", JStr APPLICATION);
   (lit "contract_version", JInt CONTRACT_VERSION);
   (lit "lifecycle_owner", JStr LIFECYCLE_OWNER);
   (lit "correlation_fields", jstrs CORRELATION_FIELDS);
   (lit "operations", JArr (asdict <$> OPERATIONS))].
Definition contract_digest : pystr :=
  lit "sha256:" ++ sha256_hexdigest (dumps_compact (JObj declaration)).
End ports.
