(* ===== verification/DeliverySafety.v ===== *)
(** * Safety of the delivery tables

    The well-formedness of the delivery tables, that every handler keeps it,
    the handlers as a step relation over the session, and what holds of every
    reachable session: the records only grow, an activated delivery stays
    activated, and it was activated by an accepted report of the deployment it
    was staged for. *)

From S2P Require Import Prelude PyText PyUuid Json Tables DeliveryStore Projection Transport SourcePorts.

#[local] Open Scope Z_scope.

(** The draws of [uuid_pk] do not collide. *)
Class FreshKeys `{MS : Modules} : Prop := { uuid_pk_inj : Inj (=) (=) uuid_pk }.
#[export] Existing Instance uuid_pk_inj.

Section safety.
Context `{MS : Modules}.

(** ** Well-formed tables *)

(** Distinct primary and unique keys, and no key yet to be drawn. *)
Record sound {R K} (idf : R → uuid) (key : R → K) (n : nat) (l : list R) : Prop := Sound {
  sound_id : NoDup (idf <$> l);
  sound_key : NoDup (key <$> l);
  sound_fresh k : (n ≤ k)%nat → uuid_pk k ∉ idf <$> l;
}.

(** The attempt numbers of one delivery in one generation. *)
Definition numbers (i : uuid) (g : Z) (l : list LicenceDeliveryAttempt.t) : list Z :=
  LicenceDeliveryAttempt.attempt_no <$>
  filter (λ r, LicenceDeliveryAttempt.delivery_id r = i ∧
               LicenceDeliveryAttempt.replay_generation r = g) l.

Definition is_state (s : pystr) : Prop := ∃ x, s = DeliveryState.value x.
Definition is_code (c : option pystr) : Prop :=
  ∀ s, c = Some s → ∃ x, s = TransportErrorCode.value x.

Record tables_ok (ds : list LicenceDelivery.t) (ss : list LicenceDeliveryState.t)
    (ts : list LicenceDeliveryTarget.t) (ats : list LicenceDeliveryAttempt.t)
    (ks : list LicenceAckRecord.t) (ns : list LicenceDeliveryIntent.t) (n : nat) : Prop := {
  ok_deliveries : sound LicenceDelivery.id LicenceDelivery.ukey n ds;
  ok_states : sound LicenceDeliveryState.id LicenceDeliveryState.delivery_id n ss;
  ok_targets : sound LicenceDeliveryTarget.id LicenceDeliveryTarget.target_ref n ts;
  ok_attempts : sound LicenceDeliveryAttempt.id LicenceDeliveryAttempt.ukey n ats;
  ok_acks : sound LicenceAckRecord.id LicenceAckRecord.id n ks;
  ok_intents : sound LicenceDeliveryIntent.id LicenceDeliveryIntent.ukey n ns;
  (** one projection per delivery *)
  ok_projected : LicenceDelivery.id <$> ds = LicenceDeliveryState.delivery_id <$> ss;
  ok_vocabulary st : st ∈ ss → is_state (LicenceDeliveryState.state st);
  (** attempts are numbered 1, 2, 3, ... within a generation *)
  ok_numbered i g : numbers i g ats = seqZ 1 (Z.of_nat (length (numbers i g ats)));
  ok_generation a : a ∈ ats → ∃ st, st ∈ ss ∧
    LicenceDeliveryState.delivery_id st = LicenceDeliveryAttempt.delivery_id a ∧
    LicenceDeliveryAttempt.replay_generation a ≤ LicenceDeliveryState.replay_generation st;
  ok_codes a : a ∈ ats → is_code (LicenceDeliveryAttempt.error_code a);
}.

Definition wf (db : Session) : Prop :=
  tables_ok (deliveries db) (states db) (targets db) (attempts db) (acks db) (intents db)
    (draws db).

(** ** Keys *)

Section keys.
Context {R K : Type} `{EqDecision K} (idf : R → uuid) (key : R → K).
Implicit Types (l : list R).

Lemma sound_mono n m l : (n ≤ m)%nat → sound idf key n l → sound idf key m l.
Proof. intros Hnm [Hi Hk Hf]. split; [done..|]. intros k Hm. apply Hf. lia. Qed.

Lemma sound_S n l : sound idf key n l → sound idf key (S n) l.
Proof. apply sound_mono. lia. Qed.

Lemma sound_snoc `{!FreshKeys} n l r :
  sound idf key n l → idf r = uuid_pk n → (key r ∉ key <$> l) →
  sound idf key (S n) (l ++ [r]).
Proof.
  intros [Hi Hk Hf] Hr Hkr. split.
  - apply (NoDup_snoc idf); [done|]. rewrite Hr. by apply Hf.
  - by apply (NoDup_snoc key).
  - intros k Hnk. rewrite fmap_app, elem_of_app. csimpl. rewrite Hr. intros [Hin|Hin].
    + apply (Hf k); [lia|done].
    + apply list_elem_of_singleton in Hin. apply (inj _) in Hin. lia.
Qed.
End keys.
#[local] Hint Resolve sound_S : tables.

(** One row at most answers to a delivery. *)
Lemma state_lookup db i :
  NoDup (LicenceDeliveryState.delivery_id <$> states db) →
  (∃ st, st ∈ states db ∧ LicenceDeliveryState.delivery_id st = i ∧
     scalar_one_or_none (filter (λ r, LicenceDeliveryState.delivery_id r = i) (states db)) =
       Ok (Some st) ∧
     scalar_one (filter (λ r, LicenceDeliveryState.delivery_id r = i) (states db)) = Ok st) ∨
  ((i ∉ LicenceDeliveryState.delivery_id <$> states db) ∧
     scalar_one_or_none (filter (λ r, LicenceDeliveryState.delivery_id r = i) (states db)) =
       Ok None).
Proof. apply scalar_key. Qed.

Lemma scalar_one_or_none_elem {A} (l : list A) x :
  scalar_one_or_none l = Ok (Some x) → x ∈ l.
Proof. destruct l as [|y [|z l]]; simpl; intros; simplify_eq. by left. Qed.

Lemma scalar_one_elem {A} (l : list A) x : scalar_one l = Ok x → x ∈ l.
Proof. destruct l as [|y [|z l]]; simpl; intros; simplify_eq. by left. Qed.

(** ** Attempt numbers *)

Lemma numbers_app i g l k : numbers i g (l ++ k) = numbers i g l ++ numbers i g k.
Proof. unfold numbers. by rewrite filter_app, fmap_app. Qed.

Lemma attempt_count_numbers db i g :
  _attempt_count db i g = Z.of_nat (length (numbers i g (attempts db))).
Proof. unfold _attempt_count, numbers, count_if. by rewrite length_fmap. Qed.

(** The next number is free, and taking it keeps the numbering. *)
Lemma next_number_free i g no a l :
  (∀ i g, numbers i g l = seqZ 1 (Z.of_nat (length (numbers i g l)))) →
  no = Z.of_nat (length (numbers i g l)) + 1 →
  LicenceDeliveryAttempt.ukey a = (i, g, no) →
  LicenceDeliveryAttempt.ukey a ∉ LicenceDeliveryAttempt.ukey <$> l.
Proof.
  intros Hl -> Ha (b & Hb & Hin)%list_elem_of_fmap.
  rewrite Ha in Hb. unfold LicenceDeliveryAttempt.ukey in Hb. injection Hb as Hi Hg Hno.
  assert (Hn : LicenceDeliveryAttempt.attempt_no b ∈ numbers i g l).
  { apply list_elem_of_fmap_2, list_elem_of_filter. done. }
  rewrite Hl, elem_of_seqZ in Hn. lia.
Qed.

Lemma next_number_numbered i g no a l :
  (∀ i g, numbers i g l = seqZ 1 (Z.of_nat (length (numbers i g l)))) →
  no = Z.of_nat (length (numbers i g l)) + 1 →
  LicenceDeliveryAttempt.ukey a = (i, g, no) →
  ∀ i g, numbers i g (l ++ [a]) = seqZ 1 (Z.of_nat (length (numbers i g (l ++ [a])))).
Proof.
  intros Hl Hno Ha i' g'. unfold LicenceDeliveryAttempt.ukey in Ha. injection Ha as Hi Hg Hn.
  rewrite numbers_app. unfold numbers at 2 4. rewrite filter_cons, filter_nil.
  case_decide as Hd.
  - destruct Hd as [Hd1 Hd2]. assert (i' = i) as -> by congruence.
    assert (g' = g) as -> by congruence. simpl. rewrite length_app. simpl.
    rewrite Nat.add_1_r, seqZ_S, <- Hl. do 2 f_equal. lia.
  - simpl. rewrite app_nil_r. apply Hl.
Qed.

(** ** What each write keeps *)

Section writes.
Context `{!FreshKeys}.
Context (ds : list LicenceDelivery.t) (ss : list LicenceDeliveryState.t)
  (ts : list LicenceDeliveryTarget.t) (ats : list LicenceDeliveryAttempt.t)
  (ks : list LicenceAckRecord.t) (ns : list LicenceDeliveryIntent.t) (n : nat).
Context (Hok : tables_ok ds ss ts ats ks ns n).

Lemma ok_draw m : (n ≤ m)%nat → tables_ok ds ss ts ats ks ns m.
Proof. intros Hm. destruct Hok. split; eauto using sound_mono. Qed.

Lemma ok_ack r :
  LicenceAckRecord.id r = uuid_pk n → tables_ok ds ss ts ats (ks ++ [r]) ns (S n).
Proof.
  intros Hr. destruct Hok. split; eauto with tables.
  apply sound_snoc; [done..|]. rewrite Hr. by apply (sound_fresh _ _ _ _ ok_acks0).
Qed.

Lemma ok_attempt a st :
  LicenceDeliveryAttempt.id a = uuid_pk n → st ∈ ss →
  LicenceDeliveryAttempt.ukey a =
    (LicenceDeliveryState.delivery_id st, LicenceDeliveryState.replay_generation st,
     Z.of_nat (length (numbers (LicenceDeliveryState.delivery_id st)
                         (LicenceDeliveryState.replay_generation st) ats)) + 1) →
  is_code (LicenceDeliveryAttempt.error_code a) →
  tables_ok ds ss ts (ats ++ [a]) ks ns (S n).
Proof.
  intros Hi Hst Hkey Hc. destruct Hok. split; eauto with tables.
  - apply sound_snoc; [done..|]. by eapply next_number_free.
  - by eapply next_number_numbered.
  - intros b [Hb| ->%list_elem_of_singleton]%elem_of_app; [eauto|].
    exists st. unfold LicenceDeliveryAttempt.ukey in Hkey. injection Hkey as H1 H2 H3.
    split_and!; [done|done|lia].
  - intros b [Hb| ->%list_elem_of_singleton]%elem_of_app; eauto.
Qed.

Lemma ok_state_update st st' :
  st ∈ ss →
  LicenceDeliveryState.id st = LicenceDeliveryState.id st' →
  LicenceDeliveryState.delivery_id st = LicenceDeliveryState.delivery_id st' →
  is_state (LicenceDeliveryState.state st') →
  LicenceDeliveryState.replay_generation st ≤ LicenceDeliveryState.replay_generation st' →
  tables_ok ds (replace States st' ss) ts ats ks ns n.
Proof.
  intros Hst Hid Hdel Hv Hg. destruct Hok as [?[Hi Hk Hf]].
  pose proof (replace_same_key States st' st ss Hi Hst Hid Hdel) as Hkeys.
  pose proof (replace_ids States st' ss) as Hids. simpl in Hkeys, Hids.
  split; try done.
  - split; [by rewrite Hids|by rewrite Hkeys|]. intros k Hn. rewrite Hids. by apply Hf.
  - by rewrite Hkeys.
  - intros x [[-> _]|[Hx _]]%elem_of_replace; eauto.
  - intros a Ha. destruct (ok_generation0 a Ha) as (x & Hx & Hxd & Hxg).
    destruct (decide (LicenceDeliveryState.id x = LicenceDeliveryState.id st')) as [Heq|Hne].
    + exists st'. split; [by eapply (replace_elem_new States)|].
      pose proof (filter_key_one _ _ _ Hi Hx) as H1.
      pose proof (filter_key_one _ _ _ Hi Hst) as H2.
      rewrite Heq, <- Hid, H2 in H1. injection H1 as ->. split; [congruence|lia].
    + exists x. split; [by apply (replace_elem States)|done].
Qed.

Lemma ok_target_add r :
  LicenceDeliveryTarget.id r = uuid_pk n →
  (LicenceDeliveryTarget.target_ref r ∉ LicenceDeliveryTarget.target_ref <$> ts) →
  tables_ok ds ss (ts ++ [r]) ats ks ns (S n).
Proof. intros Hr Hk. destruct Hok. split; eauto with tables. by apply sound_snoc. Qed.

Lemma ok_target_update r :
  NoDup (LicenceDeliveryTarget.target_ref <$> replace Targets r ts) →
  tables_ok ds ss (replace Targets r ts) ats ks ns n.
Proof.
  intros Hk. destruct Hok as [??[Hi _ Hf]]. split; try done.
  pose proof (replace_ids Targets r ts) as Hids. simpl in Hids.
  split; [by rewrite Hids|done|]. intros k Hn. rewrite Hids. by apply Hf.
Qed.

Lemma ok_delivery_update r :
  NoDup (LicenceDelivery.ukey <$> replace Deliveries r ds) →
  tables_ok (replace Deliveries r ds) ss ts ats ks ns n.
Proof.
  intros Hk. destruct Hok as [[Hi _ Hf]]. pose proof (replace_ids Deliveries r ds) as Hids.
  simpl in Hids. split; try done.
  - split; [by rewrite Hids|done|]. intros k Hn. rewrite Hids. by apply Hf.
  - by rewrite Hids.
Qed.

Lemma ok_intent_add r :
  LicenceDeliveryIntent.id r = uuid_pk n →
  (LicenceDeliveryIntent.ukey r ∉ LicenceDeliveryIntent.ukey <$> ns) →
  tables_ok ds ss ts ats ks (ns ++ [r]) (S n).
Proof. intros Hr Hk. destruct Hok. split; eauto with tables. by apply sound_snoc. Qed.

Lemma ok_intent_update r :
  NoDup (LicenceDeliveryIntent.ukey <$> replace Intents r ns) →
  tables_ok ds ss ts ats ks (replace Intents r ns) n.
Proof.
  intros Hk. destruct Hok as [?????[Hi _ Hf]]. split; try done.
  pose proof (replace_ids Intents r ns) as Hids. simpl in Hids.
  split; [by rewrite Hids|done|]. intros k Hn. rewrite Hids. by apply Hf.
Qed.

Lemma ok_staged d st :
  LicenceDelivery.id d = uuid_pk n → LicenceDeliveryState.id st = uuid_pk (S n) →
  LicenceDeliveryState.delivery_id st = LicenceDelivery.id d →
  is_state (LicenceDeliveryState.state st) →
  (LicenceDelivery.ukey d ∉ LicenceDelivery.ukey <$> ds) →
  tables_ok (ds ++ [d]) (ss ++ [st]) ts ats ks ns (S (S n)).
Proof.
  intros Hd Hst Hdel Hv Hk. pose proof (ok_draw (S n) ltac:(lia)) as Hn.
  destruct Hok, Hn. split; eauto with tables.
  - eapply sound_mono; [|by apply sound_snoc]. lia.
  - apply sound_snoc; [done..|]. rewrite Hdel, <- ok_projected0, Hd.
    apply (sound_fresh _ _ _ _ ok_deliveries0). lia.
  - rewrite !fmap_app, ok_projected0. simpl. by rewrite Hdel.
  - intros x [?| ->%list_elem_of_singleton]%elem_of_app; eauto.
  - intros a Ha. destruct (ok_generation0 a Ha) as (x & Hx & ?). exists x.
    rewrite elem_of_app. auto.
Qed.
End writes.

(** ** What each handler does to the session *)

Section effects.
Context `{UDB : UnicodeDB}.
Implicit Types (db : Session) (ack : AcknowledgementInput.t).

(** The row an acknowledgement leaves: the report word for word, the claimed
    and the proven identity apart. *)
Definition ack_row db ack (d : AckDisposition.t) (did : option uuid) (auth : option pystr)
    : LicenceAckRecord.t :=
  {| LicenceAckRecord.id := uuid_pk (draws db);
     LicenceAckRecord.delivery_id := did;
     LicenceAckRecord.licence_id := AcknowledgementInput.licence_id ack;
     LicenceAckRecord.licence_version := AcknowledgementInput.licence_version ack;
     LicenceAckRecord.digest := AcknowledgementInput.digest ack;
     LicenceAckRecord.status := AcknowledgementInput.status ack;
     LicenceAckRecord.reason := AcknowledgementInput.reason ack;
     LicenceAckRecord.deployment_id := AcknowledgementInput.deployment_id ack;
     LicenceAckRecord.authenticated_deployment_ref := auth;
     LicenceAckRecord.disposition := AckDisposition.value d;
     LicenceAckRecord.created_at := created_now db |}.

(** The session once an acknowledgement is logged and audited: one ack row and
    one audit event more, and the modules' tables as [m]. *)
Definition logged db ack (d : AckDisposition.t) (did : option uuid) (auth : option pystr)
    (actor : option uuid) (m : modules) : Session :=
  _audit_ack
    (set_owners m (set_acks (acks db ++ [ack_row db ack d did auth]) (set_draws (S (draws db)) db)))
    ack (ack_row db ack d did auth) d actor.

Lemma record_inv db ack d did auth db' row :
  _record db ack d did auth = Ok (db', row) →
  row = ack_row db ack d did auth ∧
  db' = set_acks (acks db ++ [row]) (set_draws (S (draws db)) db).
Proof.
  unfold _record, draw. intros H. inv_res.
  match goal with H : db_add _ _ _ = Ok _ |- _ => apply db_add_Ok in H as (-> & _) end. done.
Qed.

Lemma set_owners_id db : set_owners (owners db) db = db.
Proof. by destruct db. Qed.

Lemma acknowledge_installation_inv db issuance o r t ref actor db' v :
  acknowledge_installation db issuance o r t ref actor = Ok (db', v) →
  ∃ m, db' = set_owners m db.
Proof.
  unfold acknowledge_installation. cbv zeta. intros H. case_in H. eauto.
Qed.

Lemma acknowledge_issuer_inv db ack record issuance ref actor db' :
  _acknowledge_issuer db ack record issuance ref actor = Ok db' →
  ∃ m, db' = set_owners m db.
Proof.
  unfold _acknowledge_issuer. case_bool_decide; intros Hr; inv_res.
  - match goal with x : Session * _ |- _ => destruct x end.
    by eapply acknowledge_installation_inv.
  - exists (owners db'). by rewrite set_owners_id.
Qed.

Lemma close_ack_inv db ack d did auth actor issuer db' o :
  close_ack db ack d did auth actor issuer = Ok (db', o) →
  (∃ m, db' = logged db ack d did auth actor m ∧ (issuer = None → m = owners db)) ∧
  o = {| AckOutcome.ack_id := uuid_pk (draws db);
         AckOutcome.disposition := AckDisposition.value d;
         AckOutcome.activated := false;
         AckOutcome.delivery_id := did |}.
Proof.
  unfold close_ack. intros H. inv_res.
  match goal with x : Session * LicenceAckRecord.t |- _ => destruct x as [db1 row] end.
  inv_res. match goal with H : _record _ _ _ _ _ = _ |- _ => apply record_inv in H as [-> ->] end.
  split; [|done]. destruct issuer as [[i ref]|]; inv_res.
  - match goal with H : _acknowledge_issuer _ _ _ _ _ _ = _ |- _ =>
      apply acknowledge_issuer_inv in H as [m ->] end. by exists m.
  - exists (owners db). done.
Qed.

(** An activation: what [ingest_proven] does on its last branch. *)
Definition activated_state (st : LicenceDeliveryState.t) (ack_id : uuid)
    : LicenceDeliveryState.t :=
  {| LicenceDeliveryState.id := LicenceDeliveryState.id st;
     LicenceDeliveryState.delivery_id := LicenceDeliveryState.delivery_id st;
     LicenceDeliveryState.state := DeliveryState.value DeliveryState.ACTIVE;
     LicenceDeliveryState.activating_ack_id := Some ack_id;
     LicenceDeliveryState.replay_generation := LicenceDeliveryState.replay_generation st |}.

(** Everything an acknowledgement has to show to activate [delivery]. *)
Record activates db ack (auth : option pystr) (act_issuance : DeliveryIssuanceView.t)
    (delivery : LicenceDelivery.t) (st : LicenceDeliveryState.t) : Prop := Activates {
  act_claimed : claimed_issuance db ack = Some act_issuance;
  act_digest : AcknowledgementInput.digest ack = DeliveryIssuanceView.digest act_issuance;
  act_proven : auth = Some (LicenceDelivery.target_ref delivery);
  act_claim ref : AcknowledgementInput.deployment_id ack = Some ref → auth = Some ref;
  act_bound ref : DeliveryIssuanceView.deployment_ref act_issuance = Some ref → auth = Some ref;
  act_applied : AcknowledgementInput.status ack = AckStatus.value AckStatus.APPLIED;
  act_delivery : delivery ∈ deliveries db;
  act_staged : LicenceDelivery.issuance_id delivery = DeliveryIssuanceView.id act_issuance;
  act_state : st ∈ states db;
  act_state_of : LicenceDeliveryState.delivery_id st = LicenceDelivery.id delivery;
  act_inactive : LicenceDeliveryState.state st ≠ DeliveryState.value DeliveryState.ACTIVE;
  act_newest h : _highest_active_version db (DeliveryIssuanceView.licence_id act_issuance) = Ok h →
    h ≤ AcknowledgementInput.licence_version ack;
}.

(** The session after an activation. *)
Definition activation db ack (auth : option pystr) (actor : option uuid) (m : modules)
    (delivery : LicenceDelivery.t) (st : LicenceDeliveryState.t) : Session :=
  set_states (replace States (activated_state st (uuid_pk (draws db))) (states db))
    (logged db ack AckDisposition.ACCEPTED (Some (LicenceDelivery.id delivery)) auth actor m).

Definition outcome_of db (d : AckDisposition.t) (activated : bool) (did : option uuid)
    : AckOutcome.t :=
  {| AckOutcome.ack_id := uuid_pk (draws db);
     AckOutcome.disposition := AckDisposition.value d;
     AckOutcome.activated := activated;
     AckOutcome.delivery_id := did |}.

(** The two ways an acknowledgement ends: logged only, or activating. *)
Inductive ack_result db ack (auth : option pystr) (actor : option uuid)
    : Session → AckOutcome.t → Prop :=
  | ack_logged d did m :
      d ≠ AckDisposition.ACCEPTED →
      (∀ i, did = Some i → i ∈ LicenceDelivery.id <$> deliveries db) →
      (auth = None → m = owners db) →
      ack_result db ack auth actor (logged db ack d did auth actor m) (outcome_of db d false did)
  | ack_activated issuance delivery st m :
      activates db ack auth issuance delivery st →
      ack_result db ack auth actor (activation db ack auth actor m delivery st)
        (outcome_of db AckDisposition.ACCEPTED true (Some (LicenceDelivery.id delivery))).

Lemma state_of_inv db i st :
  _state_of db i = Ok st → st ∈ states db ∧ LicenceDeliveryState.delivery_id st = i.
Proof.
  unfold _state_of. intros H. inv_res.
  match goal with H : scalar_one_or_none _ = _ |- _ => apply scalar_one_or_none_elem in H end.
  match goal with H : _ ∈ filter _ _ |- _ => apply list_elem_of_filter in H as [??] end. done.
Qed.

Lemma staged_delivery_elem db issuance ref d :
  head (filter (λ d, LicenceDelivery.issuance_id d = DeliveryIssuanceView.id issuance ∧
                     LicenceDelivery.target_ref d = ref) (deliveries db)) = Some d →
  d ∈ deliveries db ∧ LicenceDelivery.issuance_id d = DeliveryIssuanceView.id issuance ∧
  LicenceDelivery.target_ref d = ref.
Proof. intros Hd%head_Some_elem_of. apply list_elem_of_filter in Hd as [[??]?]. done. Qed.

Lemma ack_closed db ack d did auth actor issuer db' o :
  d ≠ AckDisposition.ACCEPTED →
  (∀ i, did = Some i → i ∈ LicenceDelivery.id <$> deliveries db) →
  (auth = None → issuer = None) →
  close_ack db ack d did auth actor issuer = Ok (db', o) →
  ack_result db ack auth actor db' o.
Proof.
  intros Hd Hdid Hauth [(m & -> & Hm) ->]%close_ack_inv. constructor; auto.
Qed.

(** The handler only ever ends in one of the two ways. *)
Lemma ingest_proven_inv db ack issuance ref actor db' o :
  claimed_issuance db ack = Some issuance →
  AcknowledgementInput.digest ack = DeliveryIssuanceView.digest issuance →
  (∀ r, AcknowledgementInput.deployment_id ack = Some r → r = ref) →
  (∀ r, DeliveryIssuanceView.deployment_ref issuance = Some r → r = ref) →
  ingest_proven db ack issuance ref actor = Ok (db', o) →
  ack_result db ack (Some ref) actor db' o.
Proof.
  intros Hc Hdig Hclaim Hbound. unfold ingest_proven. cbv zeta.
  destruct (head _) as [d|] eqn:Hd.
  1: apply staged_delivery_elem in Hd as (Hd & Hdi & Hdr).
  all: case_bool_decide as Happ; cbn [negb];
    [|intros Hr; eapply ack_closed; [..|exact Hr]; [done| |done];
      intros i [= <-]; by apply list_elem_of_fmap_2].
  all: intros Hr; apply bind_Ok in Hr as (h & Hh & Hr); destruct (_ <? h) eqn:Hlt;
    [eapply ack_closed; [..|exact Hr]; [done| |done];
      intros i [= <-]; by apply list_elem_of_fmap_2|].
  2:{ eapply ack_closed; [..|exact Hr]; done. }
  inv_res. rename x into st. case_bool_decide as Hact.
  { eapply ack_closed; [..|exact Hr]; [done| |done].
    intros i [= <-]. by apply list_elem_of_fmap_2. }
  inv_res. destruct x as [db1 row]. inv_res.
  match goal with H : _record _ _ _ _ _ = _ |- _ => apply record_inv in H as [-> ->] end.
  match goal with H : _acknowledge_issuer _ _ _ _ _ _ = _ |- _ =>
    apply acknowledge_issuer_inv in H as [m ->] end.
  match goal with H : db_update _ _ _ = _ |- _ => apply db_update_Ok in H as [-> _] end.
  match goal with H : _state_of _ _ = _ |- _ => apply state_of_inv in H as [Hst Hsd] end.
  apply (ack_activated db ack (Some (LicenceDelivery.target_ref d)) actor issuance d st m).
  split; try done.
  - intros r Hr. f_equal. symmetry. auto.
  - intros r Hr. f_equal. symmetry. auto.
  - intros h' Hh'. match goal with H : (_ <? _) = false |- _ => apply Z.ltb_ge in H end.
    congruence.
Qed.

Lemma ingest_inv db ack auth actor db' o :
  ingest_acknowledgement db ack auth actor = Ok (db', o) → ack_result db ack auth actor db' o.
Proof.
  unfold ingest_acknowledgement. destruct (claimed_issuance db ack) as [issuance|] eqn:Hc.
  2:{ intros Hr. eapply ack_closed; [..|exact Hr]; done. }
  case_bool_decide as Hdig; cbn [negb].
  2:{ intros Hr. eapply ack_closed; [..|exact Hr]; done. }
  destruct auth as [ref|]; [|intros Hr; eapply ack_closed; [..|exact Hr]; done].
  destruct (match AcknowledgementInput.deployment_id ack with Some _ => _ | None => _ end) eqn:Hcl;
    [intros Hr; eapply ack_closed; [..|exact Hr]; done|].
  destruct (match _issued_deployment_id issuance with Some _ => _ | None => _ end) eqn:Hb;
    [intros Hr; eapply ack_closed; [..|exact Hr]; done|].
  apply ingest_proven_inv; [done|done|..].
  - intros r Hr. rewrite Hr in Hcl. by bool_hyps.
  - intros r Hr. unfold _issued_deployment_id in Hb. rewrite Hr in Hb. by bool_hyps.
Qed.

(** ** Every handler keeps the tables well formed *)

Context `{!FreshKeys}.

Lemma wf_ack_result db ack auth actor db' o :
  wf db → ack_result db ack auth actor db' o → wf db'.
Proof.
  unfold wf. intros Hwf [d did m _ _ _|issuance delivery st m []].
  - by apply ok_ack.
  - pose proof (ok_ack _ _ _ _ _ _ _ Hwf
      (ack_row db ack AckDisposition.ACCEPTED (Some (LicenceDelivery.id delivery)) auth) eq_refl)
      as Hok.
    apply (ok_state_update _ _ _ _ _ _ _ Hok st); try done.
    by exists DeliveryState.ACTIVE.
Qed.

Lemma wf_reconcile db facts actor db' row :
  wf db → reconcile_delivery_target db facts actor = Ok (db', row) → wf db'.
Proof.
  unfold wf, reconcile_delivery_target. intros Hwf Hr. inv_res.
  rename x into found. destruct x0 as [db1 row1]. inv_res.
  destruct found as [r|]; unfold draw in *; inv_res.
  - match goal with H : db_update _ _ _ = _ |- _ => apply db_update_Ok in H as [-> Hk] end.
    by apply ok_target_update.
  - match goal with H : db_add _ _ _ = _ |- _ => apply db_add_Ok in H as (-> & _ & Hk) end.
    by apply ok_target_add.
Qed.

Lemma wf_map db did ref actor db' v :
  wf db → map_legacy_delivery db did ref actor = Ok (db', v) → wf db'.
Proof.
  unfold wf, map_legacy_delivery. intros Hwf Hr. inv_res.
  match goal with H : db_update _ _ _ = _ |- _ => apply db_update_Ok in H as [-> Hk] end.
  by apply ok_delivery_update.
Qed.

Lemma wf_stage db command db' v :
  wf db → stage_delivery db command = Ok (db', v) → wf db'.
Proof.
  unfold wf, stage_delivery. intros Hwf Hr. inv_res. case_match; unfold draw in *; inv_res; [done|].
  repeat match goal with H : db_add _ _ _ = _ |- _ => apply db_add_Ok in H as (-> & ? & ?) end.
  apply ok_staged; try done. by exists DeliveryState.DELIVERED.
Qed.

Lemma current_generation_inv db i g :
  _current_generation db i = Ok g →
  ∃ st, st ∈ states db ∧ LicenceDeliveryState.delivery_id st = i ∧
        LicenceDeliveryState.replay_generation st = g.
Proof.
  unfold _current_generation. intros Hr. inv_res.
  match goal with H : scalar_one _ = _ |- _ => apply scalar_one_elem in H end.
  match goal with H : _ ∈ filter _ _ |- _ => apply list_elem_of_filter in H as [??] end. eauto.
Qed.

(** The row one attempt leaves. *)
Definition attempt_row db (i : uuid) (g no : Z) (tr out : pystr) (c : option pystr)
    : LicenceDeliveryAttempt.t :=
  {| LicenceDeliveryAttempt.id := uuid_pk (draws db);
     LicenceDeliveryAttempt.delivery_id := i;
     LicenceDeliveryAttempt.replay_generation := g;
     LicenceDeliveryAttempt.attempt_no := no;
     LicenceDeliveryAttempt.transport := tr;
     LicenceDeliveryAttempt.outcome := out;
     LicenceDeliveryAttempt.error_code := c |}.
Definition with_attempt db (a : LicenceDeliveryAttempt.t) : Session :=
  set_attempts (attempts db ++ [a]) (set_draws (S (draws db)) db).

Lemma add_attempt_inv db i g no tr out c db' :
  add_attempt db i g no tr out c = Ok db' →
  db' = with_attempt db (attempt_row db i g no tr out c).
Proof. unfold add_attempt, draw. by intros (-> & _)%db_add_Ok. Qed.

Lemma wf_attempt db i g tr out c :
  wf db → _current_generation db i = Ok g → is_code c →
  wf (with_attempt db (attempt_row db i g (_attempt_count db i g + 1) tr out c)).
Proof.
  intros Hwf (st & Hst & <- & <-)%current_generation_inv Hc.
  rewrite attempt_count_numbers. by apply (ok_attempt _ _ _ _ _ _ _ Hwf _ st).
Qed.

(** Under well-formed tables the next attempt always has a free number. *)
Lemma add_attempt_Ok db i g tr out c :
  wf db → _current_generation db i = Ok g →
  add_attempt db i g (_attempt_count db i g + 1) tr out c =
    Ok (with_attempt db (attempt_row db i g (_attempt_count db i g + 1) tr out c)).
Proof.
  intros Hwf Hg. unfold add_attempt, draw. apply db_add_Ok. split; [done|].
  destruct Hwf as [???[_ _ Hf]]. split; [by apply Hf|].
  eapply next_number_free; [exact ok_numbered0| |done].
  by rewrite attempt_count_numbers.
Qed.

(** [state.state := s] on the row of one delivery. *)
Definition set_state (st : LicenceDeliveryState.t) (s : DeliveryState.t) (g : Z)
    : LicenceDeliveryState.t :=
  {| LicenceDeliveryState.id := LicenceDeliveryState.id st;
     LicenceDeliveryState.delivery_id := LicenceDeliveryState.delivery_id st;
     LicenceDeliveryState.state := DeliveryState.value s;
     LicenceDeliveryState.activating_ack_id := LicenceDeliveryState.activating_ack_id st;
     LicenceDeliveryState.replay_generation := g |}.

Lemma wf_set_state db st s g :
  wf db → st ∈ states db → LicenceDeliveryState.replay_generation st ≤ g →
  wf (set_states (replace States (set_state st s g) (states db)) db).
Proof.
  intros Hwf Hst Hg. apply (ok_state_update _ _ _ _ _ _ _ Hwf st); try done. by exists s.
Qed.

Lemma park_inv db delivery c actor db' :
  _park db delivery c actor = Ok db' →
  ∃ st ev, st ∈ states db ∧
    LicenceDeliveryState.delivery_id st = LicenceDelivery.id delivery ∧
    db' = set_audit (audit db ++ [ev])
      (set_states (replace States
         (set_state st DeliveryState.PARKED (LicenceDeliveryState.replay_generation st))
         (states db)) db).
Proof.
  unfold _park. intros Hr. inv_res.
  match goal with H : scalar_one _ = _ |- _ => apply scalar_one_elem in H end.
  match goal with H : _ ∈ filter _ _ |- _ => apply list_elem_of_filter in H as [??] end.
  match goal with H : db_update _ _ _ = _ |- _ => apply db_update_Ok in H as [-> _] end.
  eauto 6.
Qed.

Lemma wf_park db delivery c actor db' :
  wf db → _park db delivery c actor = Ok db' → wf db'.
Proof. intros Hwf (st & ev & Hst & _ & ->)%park_inv. by apply wf_set_state. Qed.

Lemma resume_inv db i actor db' :
  resume_delivery db i actor = Ok db' →
  db' = db ∨ ∃ st ev, st ∈ states db ∧ LicenceDeliveryState.delivery_id st = i ∧
    LicenceDeliveryState.state st = DeliveryState.value DeliveryState.PARKED ∧
    db' = set_audit (audit db ++ [ev])
      (set_states (replace States
         (set_state st DeliveryState.DELIVERED (LicenceDeliveryState.replay_generation st + 1))
         (states db)) db).
Proof.
  unfold resume_delivery. intros Hr. inv_res. case_bool_decide as Hp; simpl in *; inv_res; [|by left].
  match goal with H : scalar_one_or_none _ = _ |- _ => apply scalar_one_or_none_elem in H end.
  match goal with H : _ ∈ filter _ _ |- _ => apply list_elem_of_filter in H as [??] end.
  match goal with H : db_update _ _ _ = _ |- _ => apply db_update_Ok in H as [-> _] end.
  right. eauto 8.
Qed.

Lemma wf_resume db i actor db' :
  wf db → resume_delivery db i actor = Ok db' → wf db'.
Proof.
  intros Hwf [->|(st & ev & Hst & _ & _ & ->)]%resume_inv; [done|].
  apply wf_set_state; [done|done|lia].
Qed.

Lemma wf_open_intent db i t actor db' v :
  wf db → open_delivery_intent db i t actor = Ok (db', v) → wf db'.
Proof.
  unfold wf, open_delivery_intent. intros Hwf Hr. inv_res.
  case_match; unfold draw in *; inv_res; [done|].
  match goal with H : db_add _ _ _ = _ |- _ => apply db_add_Ok in H as (-> & _ & Hk) end.
  by apply ok_intent_add.
Qed.

Lemma acknowledge_intent_inv db command db' v :
  acknowledge_delivery_intent db command = Ok (db', v) →
  ∃ row, row ∈ intents db ∧
    LicenceDeliveryIntent.id row = AcknowledgeIntentCommand.delivery_intent_id command ∧
    mismatches row command = [] ∧
    AcknowledgeIntentCommand.authenticated_deployment_ref command =
      LicenceDeliveryIntent.deployment_target_ref row ∧
    ((LicenceDeliveryIntent.status row = IntentStatus.value IntentStatus.ACKNOWLEDGED ∧
      LicenceDeliveryIntent.integrator_receipt_ref row =
        Some (AcknowledgeIntentCommand.integrator_receipt_ref command) ∧
      db' = db ∧ v = intent_view row) ∨
     (LicenceDeliveryIntent.status row ≠ IntentStatus.value IntentStatus.ACKNOWLEDGED ∧
      complete_intent db row command = Ok (db', v))).
Proof.
  unfold acknowledge_delivery_intent, _intent. intros Hr. inv_res. bool_hyps.
  match goal with H : db_get _ _ _ = _ |- _ => apply db_get_Some in H as [Hin Hid] end.
  exists x. split_and!; try done.
  case_bool_decide as Hack; [|by right]. left. case_bool_decide; by simplify_eq.
Qed.

(** The completed intent: correlation as it was opened. *)
Definition completed db (row : LicenceDeliveryIntent.t) (command : AcknowledgeIntentCommand.t)
    : LicenceDeliveryIntent.t :=
  {| LicenceDeliveryIntent.id := LicenceDeliveryIntent.id row;
     LicenceDeliveryIntent.issuance_id := LicenceDeliveryIntent.issuance_id row;
     LicenceDeliveryIntent.licence_id := LicenceDeliveryIntent.licence_id row;
     LicenceDeliveryIntent.licence_version := LicenceDeliveryIntent.licence_version row;
     LicenceDeliveryIntent.artifact_digest := LicenceDeliveryIntent.artifact_digest row;
     LicenceDeliveryIntent.deployment_target_ref :=
       LicenceDeliveryIntent.deployment_target_ref row;
     LicenceDeliveryIntent.status := IntentStatus.value IntentStatus.ACKNOWLEDGED;
     LicenceDeliveryIntent.integrator_receipt_ref :=
       Some (AcknowledgeIntentCommand.integrator_receipt_ref command);
     LicenceDeliveryIntent.acknowledged_at :=
       Some (default (wall db) (AcknowledgeIntentCommand.reported_at command));
     LicenceDeliveryIntent.applied_outcome := Some (AcknowledgeIntentCommand.outcome command) |}.

Lemma complete_intent_inv db row command db' v :
  complete_intent db row command = Ok (db', v) →
  v = intent_view (completed db row command) ∧
  ∃ m ev, db' = set_audit (audit db ++ [ev])
    (set_owners m (set_intents (replace Intents (completed db row command) (intents db)) db)) ∧
  NoDup (LicenceDeliveryIntent.ukey <$> replace Intents (completed db row command) (intents db)).
Proof.
  unfold complete_intent. intros Hr. inv_res. destruct x1 as [db1 view]. inv_res.
  match goal with H : acknowledge_installation _ _ _ _ _ _ _ = _ |- _ =>
    apply acknowledge_installation_inv in H as [m ->] end.
  match goal with H : db_update _ _ _ = _ |- _ => apply db_update_Ok in H as [-> Hk] end.
  split; [done|]. exists m. eexists. split; [reflexivity|exact Hk].
Qed.

Lemma wf_acknowledge_intent db command db' v :
  wf db → acknowledge_delivery_intent db command = Ok (db', v) → wf db'.
Proof.
  intros Hwf (row & _ & _ & _ & _ & [(_ & _ & -> & _)|(_ & Hc)])%acknowledge_intent_inv; [done|].
  apply complete_intent_inv in Hc as (_ & m & ev & -> & Hk).
  by apply (ok_intent_update _ _ _ _ _ _ _ Hwf).
Qed.

(** ** How a session may evolve

    Records are append-only; the row of a delivery with a destination, of an
    activated projection and of a completed intent never changes again; the
    correlation of an intent never changes. *)
Definition correlation (r : LicenceDeliveryIntent.t) : uuid * uuid * Z * pystr * pystr :=
  (LicenceDeliveryIntent.id r, LicenceDeliveryIntent.issuance_id r,
   LicenceDeliveryIntent.licence_version r, LicenceDeliveryIntent.artifact_digest r,
   LicenceDeliveryIntent.deployment_target_ref r).

Record evolves db db' : Prop := Evolves {
  ev_acks : acks db `prefix_of` acks db';
  ev_attempts : attempts db `prefix_of` attempts db';
  ev_audit : audit db `prefix_of` audit db';
  ev_outbox : outbox db `prefix_of` outbox db';
  ev_ids : LicenceDelivery.id <$> deliveries db `prefix_of` LicenceDelivery.id <$> deliveries db';
  ev_mapped d : d ∈ deliveries db → LicenceDelivery.target_id d ≠ None → d ∈ deliveries db';
  ev_active st : st ∈ states db →
    LicenceDeliveryState.state st = DeliveryState.value DeliveryState.ACTIVE → st ∈ states db';
  ev_completed r : r ∈ intents db →
    LicenceDeliveryIntent.status r = IntentStatus.value IntentStatus.ACKNOWLEDGED →
    r ∈ intents db';
  ev_correlation : correlation <$> intents db `prefix_of` correlation <$> intents db';
}.

#[export] Instance evolves_preorder : PreOrder evolves.
Proof.
  split.
  - intros db. by split.
  - intros a b c [] []. split; try (by etrans); eauto.
Qed.

(** A change of the environment and of the records alone. *)
Lemma evolves_records db db' ks ats au out :
  deliveries db' = deliveries db → states db' = states db → intents db' = intents db →
  acks db' = acks db ++ ks → attempts db' = attempts db ++ ats →
  audit db' = audit db ++ au → outbox db' = outbox db ++ out → evolves db db'.
Proof.
  intros Hd Hs Hi Hk Ha Hau Ho.
  split; rewrite ?Hd, ?Hs, ?Hi, ?Hk, ?Ha, ?Hau, ?Ho; auto with tables.
Qed.

Lemma replace_other {R K} (T : table Session R K) r l x :
  x ∈ l → (row_id T x = row_id T r → x = r) → x ∈ replace T r l.
Proof.
  intros Hx Hr. destruct (decide (row_id T x = row_id T r)) as [Heq|Hne].
  - rewrite (Hr Heq). by eapply replace_elem_new.
  - by apply replace_elem.
Qed.

(** Two rows with one key are one row. *)
Lemma same_row {R K} (idf : R → uuid) (key : R → K) n l x y :
  sound idf key n l → x ∈ l → y ∈ l → idf x = idf y → x = y.
Proof.
  intros [Hi _ _]. by apply NoDup_key_eq.
Qed.

(** A write to a projection that is not active. *)
Lemma evolves_state db st st' :
  wf db → st ∈ states db →
  LicenceDeliveryState.state st ≠ DeliveryState.value DeliveryState.ACTIVE →
  LicenceDeliveryState.id st' = LicenceDeliveryState.id st →
  evolves db (set_states (replace States st' (states db)) db).
Proof.
  intros Hwf Hst Hna Hid. split; try done. intros x Hx Hact. simpl.
  apply replace_elem; [done|]. simpl. rewrite Hid. intros Heq.
  by assert (x = st) as -> by (eapply same_row; [apply Hwf|done..]).
Qed.

(** ** The replay loop *)

(** No projection becomes active. *)
Definition no_activation db db' : Prop := ∀ st, st ∈ states db' →
  st ∈ states db ∨ LicenceDeliveryState.state st ≠ DeliveryState.value DeliveryState.ACTIVE.
Definition inactive db (i : uuid) : Prop := ∀ st, st ∈ states db →
  LicenceDeliveryState.delivery_id st = i →
  LicenceDeliveryState.state st ≠ DeliveryState.value DeliveryState.ACTIVE.

#[export] Instance no_activation_preorder : PreOrder no_activation.
Proof.
  split; [by left|]. intros a b c Hab Hbc st [Hst|?]%Hbc; [|by right]. by apply Hab.
Qed.

Lemma inactive_step db db' i : no_activation db db' → inactive db i → inactive db' i.
Proof. intros Hna Hi st [Hst|?]%Hna Hd; auto. Qed.

Record kept db db' : Prop := Kept {
  kept_wf : wf db';
  kept_evolves : evolves db db';
  kept_inactive : no_activation db db';
  kept_deliveries : deliveries db' = deliveries db;
}.

Lemma kept_trans a b c : kept a b → kept b c → kept a c.
Proof. intros [] []. split; [done|by etrans..|congruence]. Qed.

Lemma kept_audit db db' ev : kept db db' → kept db (set_audit (audit db' ++ [ev]) db').
Proof.
  intros [Hw He Hn Hd]. split; [done| |done|done]. etrans; [exact He|].
  apply (evolves_records _ _ [] [] [ev] []); by rewrite ?app_nil_r.
Qed.

Lemma kept_attempt db i g tr out c :
  wf db → _current_generation db i = Ok g → is_code c →
  kept db (with_attempt db (attempt_row db i g (_attempt_count db i g + 1) tr out c)).
Proof.
  intros Hwf Hg Hc. split; [by apply wf_attempt| |by left|done].
  by apply (evolves_records _ _ [] [attempt_row db i g (_attempt_count db i g + 1) tr out c] [] []);
    rewrite ?app_nil_r.
Qed.

Lemma kept_park db delivery c actor db' :
  wf db → inactive db (LicenceDelivery.id delivery) →
  _park db delivery c actor = Ok db' → kept db db'.
Proof.
  intros Hwf Hna Hp. pose proof (wf_park _ _ _ _ _ Hwf Hp) as Hwf'.
  apply park_inv in Hp as (st & ev & Hst & Hd & ->).
  set (st' := set_state st DeliveryState.PARKED (LicenceDeliveryState.replay_generation st)).
  apply (kept_audit db (set_states (replace States st' (states db)) db)).
  split; [done|apply (evolves_state db st); auto| |done].
  intros x [[-> _]|[Hx _]]%elem_of_replace; [by right|by left].
Qed.

Lemma kept_resume db i actor db' :
  wf db → resume_delivery db i actor = Ok db' → kept db db'.
Proof.
  intros Hwf Hr. pose proof (wf_resume _ _ _ _ Hwf Hr) as Hwf'.
  apply resume_inv in Hr as [->|(st & ev & Hst & Hd & Hp & ->)]; [by split|].
  set (st' := set_state st DeliveryState.DELIVERED (LicenceDeliveryState.replay_generation st + 1)).
  apply (kept_audit db (set_states (replace States st' (states db)) db)).
  split; [done|apply (evolves_state db st); [done..|by rewrite Hp|done]| |done].
  intros x [[-> _]|[Hx _]]%elem_of_replace; [by right|by left].
Qed.

Lemma closed_code_is_code a : is_code (Some (_closed_code a)).
Proof.
  intros s [= <-]. unfold _closed_code. destruct a as [c|s]; [by exists c|].
  case_match; eauto.
Qed.
Lemma code_is_code e : is_code (Some (code e)).
Proof. destruct e. apply closed_code_is_code. Qed.

Lemma elem_of_joined db d st :
  (d, st) ∈ joined db ↔
  d ∈ deliveries db ∧ st ∈ states db ∧
  LicenceDeliveryState.delivery_id st = LicenceDelivery.id d.
Proof.
  unfold joined. rewrite list_elem_of_bind. split.
  - intros (d' & (st' & [= <- <-] & [??]%list_elem_of_filter)%list_elem_of_fmap & Hd). done.
  - intros (Hd & Hst & Heq). exists d. split; [|done].
    apply list_elem_of_fmap_2, list_elem_of_filter. done.
Qed.

Lemma state_of_delivery db d :
  wf db → d ∈ deliveries db →
  ∃ st, st ∈ states db ∧ LicenceDeliveryState.delivery_id st = LicenceDelivery.id d.
Proof.
  intros Hwf Hd. assert (Hin : LicenceDelivery.id d ∈ LicenceDelivery.id <$> deliveries db)
    by (by apply list_elem_of_fmap_2).
  rewrite (ok_projected _ _ _ _ _ _ _ Hwf) in Hin.
  apply list_elem_of_fmap in Hin as (st & ? & ?). eauto.
Qed.

(** One projection row per delivery. *)
Lemma one_state db x y :
  wf db → x ∈ states db → y ∈ states db →
  LicenceDeliveryState.delivery_id x = LicenceDeliveryState.delivery_id y → x = y.
Proof. intros Hwf. apply NoDup_key_eq, Hwf. Qed.

(** What the replay claims. *)
Lemma pending_elem db limit claim d :
  d ∈ pending_deliveries db limit claim →
  d ∈ deliveries db ∧ LicenceDelivery.target_id d ≠ None ∧
  ∃ st, st ∈ states db ∧ LicenceDeliveryState.delivery_id st = LicenceDelivery.id d ∧
    LicenceDeliveryState.state st ≠ DeliveryState.value DeliveryState.ACTIVE ∧
    LicenceDeliveryState.state st ≠ DeliveryState.value DeliveryState.PARKED.
Proof.
  unfold pending_deliveries. cbv zeta. intros Hd.
  apply elem_of_take in Hd as (j & Hd & _). apply list_elem_of_lookup_2 in Hd.
  assert (Hs : d ∈ (filter (λ p, LicenceDeliveryState.state p.2 ≠ DeliveryState.value DeliveryState.ACTIVE ∧
                 LicenceDeliveryState.state p.2 ≠ DeliveryState.value DeliveryState.PARKED ∧
                 LicenceDelivery.target_id p.1 ≠ None) (joined db)).*1).
  { rewrite <- (sort_by_perm created_leb). case_match; [|done].
    by apply list_elem_of_filter in Hd as [_ Hd]. }
  apply list_elem_of_fmap in Hs as ([d' st] & -> & [Hp Hj]%list_elem_of_filter).
  apply elem_of_joined in Hj as (Hd' & Hst & Heq). naive_solver.
Qed.

Lemma pending_inactive db limit claim d :
  wf db → d ∈ pending_deliveries db limit claim → inactive db (LicenceDelivery.id d).
Proof.
  intros Hwf (_ & _ & st & Hst & Hd & Hna & _)%pending_elem st' Hst' Hd'.
  assert (st' = st) as -> by
    (eapply (one_state _ _ _ Hwf); [done|done|congruence]).
  done.
Qed.

Section loop.
Context {T : Type} `{LT : !LicenceDeliveryTransport T}.
Context (max_attempts : Z) (sent_outcome : AttemptOutcome.t) (actor : option uuid).

Lemma kept_attempt_failed db (t : T) d g e db' r :
  wf db → inactive db (LicenceDelivery.id d) →
  _current_generation db (LicenceDelivery.id d) = Ok g →
  attempt_failed actor db t d g (_attempt_count db (LicenceDelivery.id d) g + 1) e = Ok (db', r) →
  kept db db'.
Proof.
  intros Hwf Hna Hg. unfold attempt_failed. intros Hr. inv_res.
  match goal with H : add_attempt _ _ _ _ _ _ _ = _ |- _ => apply add_attempt_inv in H as -> end.
  match type of Hr with context [write_platform_audit_event ?a ?b ?c ?d ?e ?db1] =>
    assert (Hk : kept db (write_platform_audit_event a b c d e db1))
      by (apply (kept_audit db db1), kept_attempt; [done|done|apply code_is_code]) end.
  case_match; inv_res; [|done].
  eapply kept_trans; [exact Hk|].
  match goal with H : _park _ _ _ _ = _ |- _ => eapply kept_park; [..|exact H] end.
  - apply Hk.
  - by eapply inactive_step; [apply Hk|].
Qed.

Lemma kept_dispatch_one db (t : T) d db' t' r :
  wf db → inactive db (LicenceDelivery.id d) →
  dispatch_one max_attempts sent_outcome actor db t d = Ok (db', t', r) → kept db db'.
Proof.
  intros Hwf Hna. unfold dispatch_one. cbv zeta. intros Hr.
  apply bind_Ok in Hr as (g & Hg & Hr). destruct (max_attempts <=? _).
  { inv_res. by eapply kept_park. }
  apply bind_Ok in Hr as (p & _ & Hr). destruct (send t p) as [t1 []].
  - inv_res. match goal with H : add_attempt _ _ _ _ _ _ _ = _ |- _ =>
      apply add_attempt_inv in H as -> end.
    by apply kept_attempt.
  - inv_res. destruct x as [db1 r1]. inv_res. by eapply kept_attempt_failed.
  - done.
Qed.

Lemma kept_dispatch_all db (t : T) work db' t' r :
  wf db → (∀ d, d ∈ work → inactive db (LicenceDelivery.id d)) →
  dispatch_all max_attempts sent_outcome actor db t work = Ok (db', t', r) → kept db db'.
Proof.
  revert db t r. induction work as [|d work IH]; intros db t r Hwf Hna Hr; simpl in Hr.
  { inv_res. by split. }
  apply bind_Ok in Hr as ([[db1 t1] r1] & H1 & Hr). simpl in Hr.
  apply bind_Ok in Hr as ([[db2 t2] r2] & H2 & Hr). simpl in Hr. inv_res.
  apply kept_dispatch_one in H1; [|done|apply Hna; by left].
  eapply kept_trans; [exact H1|]. eapply IH; [apply H1| |exact H2].
  intros d' Hd'. eapply inactive_step; [apply H1|]. apply Hna. by right.
Qed.

End loop.

Lemma kept_dispatch_through {T} `{!LicenceDeliveryTransport T} db (t : T) limit max_attempts
    simulate actor db' t' r :
  wf db → dispatch_through db t limit max_attempts simulate actor = Ok (db', t', r) →
  kept db db'.
Proof.
  intros Hwf. unfold dispatch_through. cbv zeta. intros Hr. inv_res.
  eapply kept_dispatch_all; [done| |exact Hr]. intros d Hd. by eapply pending_inactive.
Qed.

Lemma kept_dispatch {T} `{!LicenceDeliveryTransport T} mode db (t : option T) limit max_attempts
    simulate actor db' r :
  wf db → dispatch_pending mode db t limit max_attempts simulate actor = Ok (db', r) →
  kept db db'.
Proof.
  intros Hwf. unfold dispatch_pending. intros Hr.
  destruct t; inv_res; match goal with x : Session * _ * _ |- _ => destruct x as [[] ] end;
    inv_res; match goal with H : dispatch_through _ _ _ _ _ _ = _ |- _ =>
      by apply kept_dispatch_through in H end.
Qed.

Lemma kept_export db i env actor db' b :
  wf db → export_delivery_bundle db i env actor = Ok (db', b) → kept db db'.
Proof.
  intros Hwf. unfold export_delivery_bundle. cbv zeta. intros Hr. inv_res.
  match goal with H : add_attempt _ _ _ _ _ _ _ = _ |- _ => apply add_attempt_inv in H as -> end.
  eapply kept_audit, kept_attempt; done.
Qed.

(** ** The system *)

(** One transaction: a handler that returned, the modules acting on their own
    tables, or a change of the clock and of the locks others hold. *)
Inductive step db : Session → Prop :=
  | step_reconcile facts actor db' row :
      reconcile_delivery_target db facts actor = Ok (db', row) → step db db'
  | step_map i ref actor db' v : map_legacy_delivery db i ref actor = Ok (db', v) → step db db'
  | step_stage command db' v : stage_delivery db command = Ok (db', v) → step db db'
  | step_ingest ack auth actor db' o :
      ingest_acknowledgement db ack auth actor = Ok (db', o) → step db db'
  | step_resume i actor db' : resume_delivery db i actor = Ok db' → step db db'
  | step_dispatch (T : Type) (LT : LicenceDeliveryTransport T) mode (t : option T) limit max_attempts
      simulate actor db' r :
      dispatch_pending mode db t limit max_attempts simulate actor = Ok (db', r) → step db db'
  | step_export i env actor db' b :
      export_delivery_bundle db i env actor = Ok (db', b) → step db db'
  | step_open_intent i t actor db' v :
      open_delivery_intent db i t actor = Ok (db', v) → step db db'
  | step_read_artifact i actor db' a : read_exact_artifact db i actor = Ok (db', a) → step db db'
  | step_acknowledge_intent command db' v :
      acknowledge_delivery_intent db command = Ok (db', v) → step db db'
  | step_owners m : step db (set_owners m db)
  | step_environment db' :
      deliveries db' = deliveries db → states db' = states db → targets db' = targets db →
      attempts db' = attempts db → acks db' = acks db → intents db' = intents db →
      audit db' = audit db → outbox db' = outbox db → draws db' = draws db →
      step db db'.

Lemma kept_read_artifact db i actor db' a :
  wf db → read_exact_artifact db i actor = Ok (db', a) → kept db db'.
Proof.
  intros Hwf. unfold read_exact_artifact. intros Hr. inv_res.
  eapply (kept_audit db db). by split.
Qed.
End effects.
End safety.
