(* ===== verification/DeliveryHistory.v ===== *)
(** * What holds of every reachable delivery session

    First a composition to run the pipeline on: one customer, one issued
    licence, one deployment target, the concrete instance of [Modules] and the
    sessions at which the properties of the pipeline are exercised.  Then the
    properties over any sequence of transactions, proved from the per-handler
    lemmas of [DeliverySafety]. *)

From S2P Require Import Prelude PyText PyUuid Json Tables DeliveryStore Projection Transport SourcePorts DeliverySafety.

#[local] Open Scope Z_scope.

Definition demo_issuance : IssuanceView :=
  {| iv_id := 100; iv_licence_id := 7; iv_version := 1; iv_digest := lit "d1";
     iv_deployment_ref := None; iv_envelope := [(lit "v", JInt 1)] |}.

(** The licensing module refuses every report when its state is [true]. *)
#[export] Program Instance demo : Modules := {|
  modules := bool;
  module_get_issuance _ i := if i =? 100 then Some demo_issuance else None;
  module_licence_view _ i :=
    if i =? 7 then Some {| lv_subject_ref := lit "acme"; lv_issuances := [demo_issuance] |}
    else None;
  module_acknowledge refuses _ :=
    if refuses then inr (Licensing AcknowledgementRefusedError)
    else inl (refuses, demo_issuance);
  revocation_list_versions _ := [3; 1];
  get_target _ i :=
    if i =? 5 then Some {| tv_id := 5; tv_target_ref := lit "site-1"; tv_subject_ref := lit "acme";
                           tv_status := lit "active" |}
    else None;
  MTS_ACTIVE := lit "active";
  MTS_SUSPENDED := lit "suspended";
  MTS_DECOMMISSIONED := lit "decommissioned";
  MTS_REGISTERED := lit "registered";
  sha256_hexdigest s := s;
  uuid_pk n := 1000 + Z.of_nat n;
|}.
Next Obligation. apply (bool_decide_unpack _). vm_compute. exact I. Qed.

#[export] Instance demo_fresh : FreshKeys.
Proof. split. intros x y. simpl. lia. Qed.

Definition demo_empty : Session :=
  {| deliveries := []; states := []; targets := []; attempts := []; acks := []; intents := [];
     audit := []; outbox := []; owners := false; draws := 0; created_now := Some 10;
     wall := 11; postgresql := true; locked := [] |}.

Definition unwrap {A} (m : res (Session * A)) : Session :=
  match m with Ok (db, _) => db | Raise _ => demo_empty end.

(** The target reconciled, the licence staged for it, and applied there. *)
Definition demo_facts : DeploymentTargetFacts :=
  {| facts_target_id := 5; facts_target_ref := lit "site-1"; facts_customer_ref := lit "acme";
     facts_status := TargetStatus.ACTIVE |}.
Definition demo_command : StageDeliveryCommand.t :=
  {| StageDeliveryCommand.issuance_id := 100; StageDeliveryCommand.target_ref := lit "site-1";
     StageDeliveryCommand.actor_admin_id := None |}.
Definition demo_ack : AcknowledgementInput.t :=
  {| AcknowledgementInput.licence_id := lit "00000000-0000-0000-0000-000000000007";
     AcknowledgementInput.licence_version := 1; AcknowledgementInput.digest := lit "d1";
     AcknowledgementInput.status := lit "applied"; AcknowledgementInput.reason := None;
     AcknowledgementInput.deployment_id := Some (lit "site-1") |}.
Definition demo_reconciled : Session := unwrap (reconcile_delivery_target demo_empty demo_facts None).
Definition demo_staged : Session := unwrap (stage_delivery demo_reconciled demo_command).
Definition demo_applied : Session :=
  unwrap (ingest_acknowledgement demo_staged demo_ack (Some (lit "site-1")) None).

Lemma wf_empty `{MS : Modules} db :
  deliveries db = [] → states db = [] → targets db = [] → attempts db = [] → acks db = [] →
  intents db = [] → wf db.
Proof.
  intros H1 H2 H3 H4 H5 H6. unfold wf. rewrite H1, H2, H3, H4, H5, H6.
  assert (Hnil : ∀ R K (idf : R → uuid) (key : R → K) n, sound idf key n []).
  { intros. split; [apply NoDup_nil_2..|]. intros k _ Hk. by apply elem_of_nil in Hk. }
  split; auto; intros x Hx; by apply elem_of_nil in Hx.
Qed.

Example demo_activated :
  (λ st, LicenceDeliveryState.state st) <$> states demo_applied = [lit "active"].
Proof. vm_compute. reflexivity. Qed.

Section history.
Context `{MS : Modules} `{UDB : UnicodeDB} `{!FreshKeys}.
Implicit Types (db : Session).

(** ** One step *)

Lemma step_wf db db' : wf db → step db db' → wf db'.
Proof.
  intros Hwf [facts actor db1 row Hr|i ref actor db1 v Hr|command db1 v Hr
    |ack auth actor db1 o Hr|i actor db1 Hr|T LT mode t limit mx simulate actor db1 r Hr
    |i env actor db1 b Hr|i t actor db1 v Hr|i actor db1 a Hr|command db1 v Hr|m
    |db1 H1 H2 H3 H4 H5 H6 H7 H8 H9].
  - by eapply wf_reconcile.
  - by eapply wf_map.
  - by eapply wf_stage.
  - eapply wf_ack_result; [done|by eapply ingest_inv].
  - by eapply wf_resume.
  - by eapply kept_wf, kept_dispatch.
  - by eapply kept_wf, kept_export.
  - by eapply wf_open_intent.
  - by eapply kept_wf, kept_read_artifact.
  - by eapply wf_acknowledge_intent.
  - done.
  - unfold wf. by rewrite H1, H2, H3, H4, H5, H6, H9.
Qed.

Lemma evolves_ack_result db ack auth actor db' o :
  wf db → ack_result db ack auth actor db' o → evolves db db'.
Proof.
  intros Hwf [d did m _ _ _|issuance delivery st m []].
  - unfold logged, _audit_ack, write_platform_audit_event.
    by eapply (evolves_records _ _ [_] [] [_] []); simpl; rewrite ?app_nil_r.
  - etrans; [eapply (evolves_state db st (activated_state st (uuid_pk (draws db)))); done|].
    unfold activation, logged, _audit_ack, write_platform_audit_event.
    by eapply (evolves_records _ _ [_] [] [_] []); simpl; rewrite ?app_nil_r.
Qed.

Lemma evolves_reconcile db facts actor db' row :
  reconcile_delivery_target db facts actor = Ok (db', row) → evolves db db'.
Proof.
  unfold reconcile_delivery_target. intros Hr. inv_res.
  rename x into found. destruct x0 as [db1 row1]. inv_res.
  destruct found as [r|]; unfold draw in *; inv_res;
    [match goal with H : db_update _ _ _ = _ |- _ => apply db_update_Ok in H as [-> _] end
    |match goal with H : db_add _ _ _ = _ |- _ => apply db_add_Ok in H as (-> & _) end];
    by eapply (evolves_records _ _ [] [] [_] []); simpl; rewrite ?app_nil_r.
Qed.

Lemma map_inv db i ref actor db' v :
  map_legacy_delivery db i ref actor = Ok (db', v) →
  ∃ d issuance target ev, d ∈ deliveries db ∧ LicenceDelivery.id d = i ∧
    LicenceDelivery.target_id d = None ∧
    issuance_for_delivery db (LicenceDelivery.issuance_id d) = Ok (Some issuance) ∧
    _authorised_target db ref issuance = Ok target ∧
    db' = set_audit (audit db ++ [ev]) (set_deliveries (replace Deliveries
      {| LicenceDelivery.id := i;
         LicenceDelivery.issuance_id := LicenceDelivery.issuance_id d;
         LicenceDelivery.target_ref := LicenceDeliveryTarget.target_ref target;
         LicenceDelivery.target_id := Some (LicenceDeliveryTarget.id target);
         LicenceDelivery.created_at := LicenceDelivery.created_at d |} (deliveries db)) db).
Proof.
  unfold map_legacy_delivery. intros Hr. inv_res. bool_hyps.
  match goal with H : db_get _ _ _ = _ |- _ => apply db_get_Some in H as [Hin <-] end.
  match goal with H : db_update _ _ _ = _ |- _ => apply db_update_Ok in H as [-> _] end.
  do 3 eexists. eexists. split_and!; try done.
Qed.

Lemma evolves_map db i ref actor db' v :
  wf db → map_legacy_delivery db i ref actor = Ok (db', v) → evolves db db'.
Proof.
  intros Hwf (d & issuance & target & ev & Hd & <- & Hnone & _ & _ & ->)%map_inv.
  set (d' := LicenceDelivery.Row _ _ _ _ _).
  split; try done; simpl.
  - by eexists.
  - by rewrite (replace_ids Deliveries).
  - intros x Hx Hm. apply (replace_elem Deliveries); [done|]. simpl. intros Heq.
    assert (x = d) as -> by (eapply same_row; [apply Hwf|done..]). done.
Qed.

Lemma stage_inv db command db' v :
  stage_delivery db command = Ok (db', v) →
  ∃ issuance target,
    issuance_for_delivery db (StageDeliveryCommand.issuance_id command) = Ok (Some issuance) ∧
    _authorised_target db (StageDeliveryCommand.target_ref command) issuance = Ok target ∧
  ((db' = db ∧ ∃ d, d ∈ deliveries db ∧
      LicenceDelivery.issuance_id d = StageDeliveryCommand.issuance_id command ∧
      LicenceDelivery.target_ref d = StageDeliveryCommand.target_ref command ∧
      _view db d = Ok v) ∨
   (let d :=
      {| LicenceDelivery.id := uuid_pk (draws db);
         LicenceDelivery.issuance_id := DeliveryIssuanceView.id issuance;
         LicenceDelivery.target_ref := StageDeliveryCommand.target_ref command;
         LicenceDelivery.target_id := Some (LicenceDeliveryTarget.id target);
         LicenceDelivery.created_at := created_now db |} in
    let st :=
      {| LicenceDeliveryState.id := uuid_pk (S (draws db));
         LicenceDeliveryState.delivery_id := uuid_pk (draws db);
         LicenceDeliveryState.state := DeliveryState.value DeliveryState.DELIVERED;
         LicenceDeliveryState.activating_ack_id := None;
         LicenceDeliveryState.replay_generation := 1 |} in
    ∃ ev e, db' = set_outbox (outbox db ++ [e]) (set_audit (audit db ++ [ev])
      (set_states (states db ++ [st]) (set_deliveries (deliveries db ++ [d])
        (set_draws (S (S (draws db))) db)))) ∧
     event_type e = _EVENT_DELIVERED ∧ _view db' d = Ok v ∧
     (LicenceDelivery.ukey d ∉ LicenceDelivery.ukey <$> deliveries db) ∧
     (uuid_pk (draws db) ∉ LicenceDelivery.id <$> deliveries db))).
Proof.
  unfold stage_delivery. intros Hr. inv_res.
  do 2 eexists. split_and!; [done..|].
  case_match; unfold draw in *; inv_res.
  - left. split; [done|]. eexists. split; [|split; [|split; [|done]]];
    match goal with H : scalar_one_or_none _ = _ |- _ =>
      apply scalar_one_or_none_elem, list_elem_of_filter in H as [[??]?]; done end.
  - right.
    repeat match goal with H : db_add _ _ _ = _ |- _ => apply db_add_Ok in H as (-> & ? & ?) end.
    do 2 eexists. split_and!; [reflexivity|done..].
Qed.

Lemma evolves_stage db command db' v :
  stage_delivery db command = Ok (db', v) → evolves db db'.
Proof.
  intros (issuance & target & _ & _ & [[-> _]|(ev & e & -> & _)])%stage_inv; [done|].
  split; simpl; auto with tables; try (by eexists).
  - rewrite fmap_app. by apply prefix_app_r.
  - intros d Hd _. rewrite elem_of_app. by left.
  - intros st Hst _. rewrite elem_of_app. by left.
Qed.

Lemma evolves_open_intent db i t actor db' v :
  open_delivery_intent db i t actor = Ok (db', v) → evolves db db'.
Proof.
  unfold open_delivery_intent. intros Hr. inv_res.
  case_match; unfold draw in *; inv_res; [done|].
  match goal with H : db_add _ _ _ = _ |- _ => apply db_add_Ok in H as (-> & _) end.
  split; simpl; try done; try (by eexists).
  - intros r Hr _. rewrite elem_of_app. by left.
  - rewrite fmap_app. by apply prefix_app_r.
Qed.

Lemma evolves_acknowledge_intent db command db' v :
  wf db → acknowledge_delivery_intent db command = Ok (db', v) → evolves db db'.
Proof.
  intros Hwf (row & Hrow & Hid & _ & _ & [(_ & _ & -> & _)|(Hopen & Hc)])%acknowledge_intent_inv;
    [done|].
  apply complete_intent_inv in Hc as (_ & m & ev & -> & _).
  split; simpl; try done; try (by eexists).
  - intros r Hr Hack. apply (replace_elem Intents); [done|]. simpl. intros Heq.
    assert (r = row) as -> by (eapply same_row; [apply Hwf|done..]). done.
  - exists []. rewrite app_nil_r. unfold replace. rewrite <- list_fmap_compose.
    apply list_fmap_ext. intros j r Hj. simpl. case_bool_decide as Heq; [|done].
    apply list_elem_of_lookup_2 in Hj.
    by assert (r = row) as -> by (eapply same_row; [apply Hwf|done..]).
Qed.

Lemma step_evolves db db' : wf db → step db db' → evolves db db'.
Proof.
  intros Hwf [facts actor db1 row Hr|i ref actor db1 v Hr|command db1 v Hr
    |ack auth actor db1 o Hr|i actor db1 Hr|T LT mode t limit mx simulate actor db1 r Hr
    |i env actor db1 b Hr|i t actor db1 v Hr|i actor db1 a Hr|command db1 v Hr|m
    |db1 H1 H2 H3 H4 H5 H6 H7 H8 H9].
  - by eapply evolves_reconcile.
  - by eapply evolves_map.
  - by eapply evolves_stage.
  - eapply evolves_ack_result; [done|by eapply ingest_inv].
  - by eapply kept_evolves, kept_resume.
  - by eapply kept_evolves, kept_dispatch.
  - by eapply kept_evolves, kept_export.
  - by eapply evolves_open_intent.
  - by eapply kept_evolves, kept_read_artifact.
  - by eapply evolves_acknowledge_intent.
  - by split.
  - by apply (evolves_records _ _ [] [] [] []); rewrite ?app_nil_r.
Qed.

Lemma reachable_kept db db' : wf db → rtc step db db' → wf db' ∧ evolves db db'.
Proof.
  intros Hwf Hr. induction Hr as [|db1 db2 db3 Hs Hr IH]; [done|].
  destruct IH as [Hwf' He]; [by eapply step_wf|]. split; [done|].
  etrans; [|exact He]. by apply step_evolves.
Qed.

(** ** Who activated a delivery *)

Definition all_mapped db : Prop :=
  ∀ d, d ∈ deliveries db → LicenceDelivery.target_id d ≠ None.

(** [k] is the report that activated [d]: accepted, from the deployment [d] was
    staged for, and saying that the licence was applied. *)
Record activating (d : LicenceDelivery.t) (st : LicenceDeliveryState.t) (k : LicenceAckRecord.t)
    : Prop := Activating {
  act_id : LicenceDeliveryState.activating_ack_id st = Some (LicenceAckRecord.id k);
  act_for : LicenceAckRecord.delivery_id k = Some (LicenceDelivery.id d);
  act_accepted : LicenceAckRecord.disposition k = AckDisposition.value AckDisposition.ACCEPTED;
  act_status : LicenceAckRecord.status k = AckStatus.value AckStatus.APPLIED;
  act_identity :
    LicenceAckRecord.authenticated_deployment_ref k = Some (LicenceDelivery.target_ref d);
  act_consistent ref :
    LicenceAckRecord.deployment_id k = Some ref → ref = LicenceDelivery.target_ref d;
}.

Definition proven db : Prop := ∀ d st,
  d ∈ deliveries db → st ∈ states db →
  LicenceDeliveryState.delivery_id st = LicenceDelivery.id d →
  LicenceDeliveryState.state st = DeliveryState.value DeliveryState.ACTIVE →
  ∃ k, k ∈ acks db ∧ activating d st k.

Lemma proven_weaken db db' :
  proven db → deliveries db' = deliveries db → no_activation db db' →
  acks db `prefix_of` acks db' → proven db'.
Proof.
  intros Hp Hd Hn [ks Hk] d st Hdin Hst Hid Hact. rewrite Hd in Hdin.
  destruct (Hn st Hst) as [Hst'|?]; [|done].
  destruct (Hp d st Hdin Hst' Hid Hact) as (k & Hkin & Hka). exists k. split; [|done].
  rewrite Hk, elem_of_app. by left.
Qed.

Lemma proven_ack_result db ack auth actor db' o :
  wf db → proven db → ack_result db ack auth actor db' o → proven db'.
Proof.
  intros Hwf Hp [d did m _ _ _|issuance delivery st m Hact].
  { eapply proven_weaken; [exact Hp|done|by left|by eexists]. }
  intros d x Hd Hx Hid Hxa. simpl in *.
  apply elem_of_replace in Hx as [[-> _]|[Hx Hne]].
  - assert (d = delivery) as ->.
    { eapply (NoDup_key_eq LicenceDelivery.id); [apply Hwf|done|apply Hact|].
      rewrite <- Hid. apply Hact. }
    exists (ack_row db ack AckDisposition.ACCEPTED (Some (LicenceDelivery.id delivery)) auth).
    rewrite elem_of_app, list_elem_of_singleton. split; [by right|].
    destruct Hact. split; try done. intros ref Href.
    specialize (act_claim ref Href). congruence.
  - destruct (Hp d x Hd Hx Hid Hxa) as (k & Hk & Hka). exists k.
    rewrite elem_of_app. auto.
Qed.

Lemma proven_stage db command db' v :
  wf db → proven db → stage_delivery db command = Ok (db', v) → proven db'.
Proof.
  intros Hwf Hp (issuance & target & _ & _ & [[-> _]|(ev & e & -> & _ & _ & _ & Hnew)])%stage_inv;
    [done|].
  intros d st Hd Hst Hid Hact. simpl in *.
  apply elem_of_app in Hst as [Hst| ->%list_elem_of_singleton]; [|done].
  apply elem_of_app in Hd as [Hd| ->%list_elem_of_singleton].
  - by apply Hp.
  - exfalso. apply Hnew. rewrite (ok_projected _ _ _ _ _ _ _ Hwf). simpl in Hid. rewrite <- Hid.
    by apply list_elem_of_fmap_2.
Qed.

Lemma mapped_ids db db' :
  all_mapped db → (∀ d, d ∈ deliveries db' → d ∈ deliveries db ∨ LicenceDelivery.target_id d ≠ None) →
  all_mapped db'.
Proof. intros Hm Hd d [?|?]%Hd; auto. Qed.

Lemma kept_proven db db' :
  kept db db' → all_mapped db ∧ proven db → all_mapped db' ∧ proven db'.
Proof.
  intros [Hw He Hn Hd] [Hm Hp]. split.
  - intros d. rewrite Hd. apply Hm.
  - eapply proven_weaken; [done..|apply He].
Qed.

Lemma map_refused db i ref actor :
  all_mapped db → ¬ is_ok (map_legacy_delivery db i ref actor) = true.
Proof.
  intros Hm. destruct (map_legacy_delivery db i ref actor) as [[db' v]|e] eqn:Hr; [|done].
  apply map_inv in Hr as (d & ? & ? & ? & Hd & _ & Hnone & _). by apply Hm in Hd.
Qed.

Lemma proven_step db db' :
  wf db → step db db' → all_mapped db ∧ proven db → all_mapped db' ∧ proven db'.
Proof.
  intros Hwf Hs Hmp. pose proof (step_evolves _ _ Hwf Hs) as He.
  destruct Hs as [facts actor db1 row Hr|i ref actor db1 v Hr|command db1 v Hr
    |ack auth actor db1 o Hr|i actor db1 Hr|T LT mode t limit mx simulate actor db1 r Hr
    |i env actor db1 b Hr|i t actor db1 v Hr|i actor db1 a Hr|command db1 v Hr|m
    |db1 H1 H2 H3 H4 H5 H6 H7 H8 H9].
  - enough (deliveries db1 = deliveries db ∧ states db1 = states db ∧ acks db1 = acks db)
      as (Hd & Hs & Hk).
    { unfold all_mapped, proven. by rewrite Hd, Hs, Hk. }
    revert Hr. unfold reconcile_delivery_target. intros Hr. inv_res.
    destruct x0 as [db2 row2]. inv_res. unfold draw in *.
    case_match; inv_res;
      [match goal with H : db_update _ _ _ = _ |- _ => apply db_update_Ok in H as [-> _] end
      |match goal with H : db_add _ _ _ = _ |- _ => apply db_add_Ok in H as (-> & _) end]; done.
  - apply map_inv in Hr as (d & ? & ? & ? & Hd & _ & Hnone & _). exfalso.
    destruct Hmp as [Hm _]. by apply (Hm d).
  - split; [|eapply proven_stage; [done|apply Hmp|done]].
    apply stage_inv in Hr as (issuance & target & _ & _ & [[-> _]|(ev & e & -> & _)]); [apply Hmp|].
    intros d [Hd| ->%list_elem_of_singleton]%elem_of_app; [by apply Hmp|done].
  - apply ingest_inv in Hr. split; [|eapply proven_ack_result; [done|apply Hmp|done]].
    destruct Hr; apply Hmp.
  - apply kept_resume in Hr; [|done]. by eapply kept_proven.
  - apply kept_dispatch in Hr; [|done]. by eapply kept_proven.
  - apply kept_export in Hr; [|done]. by eapply kept_proven.
  - enough (deliveries db1 = deliveries db ∧ states db1 = states db ∧ acks db1 = acks db)
      as (Hd & Hs & Hk).
    { unfold all_mapped, proven. by rewrite Hd, Hs, Hk. }
    revert Hr. unfold open_delivery_intent. intros Hr. inv_res.
    case_match; unfold draw in *; inv_res; [done|].
    match goal with H : db_add _ _ _ = _ |- _ => apply db_add_Ok in H as (-> & _) end. done.
  - apply kept_read_artifact in Hr; [|done]. by eapply kept_proven.
  - apply acknowledge_intent_inv in Hr as (row & _ & _ & _ & _ & [(_ & _ & -> & _)|(_ & Hc)]);
      [done|].
    by apply complete_intent_inv in Hc as (_ & m & ev & -> & _).
  - done.
  - unfold all_mapped, proven. by rewrite H1, H2, H5.
Qed.

Lemma reachable_proven db db' :
  wf db → rtc step db db' → all_mapped db ∧ proven db → all_mapped db' ∧ proven db'.
Proof.
  intros Hwf Hr. induction Hr as [|db1 db2 db3 Hs Hr IH]; [done|]. intros Hmp.
  apply IH; [by eapply step_wf|by eapply proven_step].
Qed.

(** ** Activation, exactly *)

Lemma mapM_Ok_elem {A B} (f : A → res B) l k x :
  mapM f l = Ok k → x ∈ l → ∃ y, y ∈ k ∧ f x = Ok y.
Proof.
  intros Hm%mapM_Ok Hx. apply list_elem_of_lookup in Hx as [i Hi].
  destruct (Forall2_lookup_l _ _ _ _ _ Hm Hi) as (y & Hy & Hf). exists y.
  split; [by eapply list_elem_of_lookup_2|done].
Qed.

Lemma foldl_max_ge xs a : a ≤ foldl Z.max a xs ∧ ∀ x, x ∈ xs → x ≤ foldl Z.max a xs.
Proof.
  revert a. induction xs as [|y xs IH]; intros a; simpl.
  - split; [lia|]. intros x Hx. by apply elem_of_nil in Hx.
  - destruct (IH (Z.max a y)) as [H1 H2]. split; [lia|].
    intros x [->|Hx]%elem_of_cons; [lia|auto].
Qed.

Lemma max_default_ge xs x : x ∈ xs → x ≤ max_default xs.
Proof.
  destruct xs as [|y xs]; [by intros Hx%elem_of_nil|]. simpl.
  destruct (foldl_max_ge xs y) as [H1 H2]. intros [->|Hx]%elem_of_cons; auto.
Qed.

(** Nothing of the lineage that is active is newer. *)
Lemma highest_active_ge db licence h d st i :
  _highest_active_version db licence = Ok h →
  d ∈ deliveries db → st ∈ states db →
  LicenceDeliveryState.delivery_id st = LicenceDelivery.id d →
  LicenceDeliveryState.state st = DeliveryState.value DeliveryState.ACTIVE →
  issuance_for_delivery db (LicenceDelivery.issuance_id d) = Ok (Some i) →
  DeliveryIssuanceView.licence_id i = licence → DeliveryIssuanceView.version i ≤ h.
Proof.
  unfold _highest_active_version. cbv zeta. intros Hh Hd Hst Hid Hact Hi Hl. inv_res.
  match goal with H : mapM _ _ = Ok _ |- _ =>
    destruct (mapM_Ok_elem _ _ _ (LicenceDelivery.issuance_id d) H) as (y & Hy & Hf) end.
  { apply list_elem_of_fmap. exists (d, st). split; [done|]. apply list_elem_of_filter.
    split; [done|]. by apply elem_of_joined. }
  rewrite Hi in Hf. injection Hf as <-.
  apply max_default_ge, list_elem_of_fmap_2, list_elem_of_filter. split; [done|].
  apply list_elem_of_omap. by exists (Some i).
Qed.

Lemma state_of_Ok db st i :
  wf db → st ∈ states db → LicenceDeliveryState.delivery_id st = i → _state_of db i = Ok st.
Proof.
  intros Hwf Hst Hid. unfold _state_of.
  destruct (state_lookup db i) as [(st' & Hst' & Hid' & -> & _)|[Hn _]]; [apply Hwf|..].
  - simpl. f_equal. eapply (one_state _ _ _ Hwf); [done|done|congruence].
  - exfalso. apply Hn. rewrite <- Hid. by apply list_elem_of_fmap_2.
Qed.

Lemma staged_head db d issuance :
  wf db → d ∈ deliveries db →
  LicenceDelivery.issuance_id d = DeliveryIssuanceView.id issuance →
  head (filter (λ x, LicenceDelivery.issuance_id x = DeliveryIssuanceView.id issuance ∧
                     LicenceDelivery.target_ref x = LicenceDelivery.target_ref d)
          (deliveries db)) = Some d.
Proof.
  intros Hwf Hd Hi.
  rewrite (list_filter_iff _ (λ x, LicenceDelivery.ukey x = LicenceDelivery.ukey d)).
  - by rewrite (filter_key_one LicenceDelivery.ukey) by (done || apply Hwf).
  - intros x. unfold LicenceDelivery.ukey. rewrite <- Hi. split; [by intros [-> ->]|].
    by intros [= -> ->].
Qed.

Lemma activates_result db ack auth actor db' o issuance d st :
  wf db → ingest_acknowledgement db ack auth actor = Ok (db', o) →
  activates db ack auth issuance d st → AckOutcome.activated o = true.
Proof.
  intros Hwf Hr [Hc Hdig -> Hclaim Hbound Happ Hd Hi Hst Hid Hna Hnew].
  unfold ingest_acknowledgement in Hr. rewrite Hc in Hr.
  rewrite bool_decide_true in Hr by done. cbn [negb] in Hr.
  assert (Hcl : (match AcknowledgementInput.deployment_id ack with
    | Some claimed => negb (bool_decide (claimed = LicenceDelivery.target_ref d))
    | None => false end) = false).
  { destruct (AcknowledgementInput.deployment_id ack) as [r|]; [|done].
    specialize (Hclaim r eq_refl). injection Hclaim as <-. by rewrite bool_decide_true. }
  rewrite Hcl in Hr.
  assert (Hb : (match _issued_deployment_id issuance with
    | Some bound_to => negb (bool_decide (LicenceDelivery.target_ref d = bound_to))
    | None => false end) = false).
  { unfold _issued_deployment_id. destruct (DeliveryIssuanceView.deployment_ref issuance) as [r|];
      [|done]. specialize (Hbound r eq_refl). injection Hbound as ->. by rewrite bool_decide_true. }
  rewrite Hb in Hr. unfold ingest_proven in Hr. cbv zeta in Hr.
  rewrite staged_head in Hr by done. rewrite Happ, bool_decide_true in Hr by done.
  cbn [negb] in Hr. apply bind_Ok in Hr as (h & Hh & Hr).
  rewrite (proj2 (Z.ltb_ge _ _)) in Hr by auto.
  rewrite (state_of_Ok db st) in Hr by done. cbn [mbind res_bind] in Hr.
  rewrite bool_decide_false in Hr by done. inv_res.
  destruct x as [db1 row]. by inv_res.
Qed.

(** ** Ingestion fails only with its owner *)

Lemma record_Ok db ack d did auth :
  wf db → _record db ack d did auth =
    Ok (set_acks (acks db ++ [ack_row db ack d did auth]) (set_draws (S (draws db)) db),
        ack_row db ack d did auth).
Proof.
  intros Hwf. unfold _record, draw. cbv zeta.
  match goal with |- context [db_add Acks ?r ?s] =>
    assert (Ha : db_add Acks r s = Ok (set_acks (acks db ++ [r]) s)) end.
  { apply db_add_Ok. split; [done|]. destruct Hwf as [????[_ _ Hf]]. split; by apply Hf. }
  by rewrite Ha.
Qed.

Section total.
(** The licensing module takes every report, and every issuance has a lineage. *)
Context (m0 : modules) (accepts : ∀ c, ∃ r, module_acknowledge m0 c = inl r).
Context (lineage : ∀ i v, module_get_issuance m0 i = Some v →
  module_licence_view m0 (iv_licence_id v) ≠ None).

Lemma issuance_for_delivery_Ok db i :
  owners db = m0 → ∃ o, issuance_for_delivery db i = Ok o.
Proof.
  intros Hm. unfold issuance_for_delivery. rewrite Hm. destruct (module_get_issuance _ i) as [v|] eqn:Hv; [|eauto].
  apply lineage in Hv. destruct (module_licence_view _ _); [eauto|done].
Qed.

Lemma acknowledge_issuer_Ok db ack record issuance ref actor :
  owners db = m0 → ∃ m, _acknowledge_issuer db ack record issuance ref actor = Ok (set_owners m db).
Proof.
  intros Hm. unfold _acknowledge_issuer. case_bool_decide.
  - unfold acknowledge_installation. cbv zeta. rewrite Hm.
    match goal with |- context [module_acknowledge _ ?c] => destruct (accepts c) as [[m' v] ->] end.
    simpl. eauto.
  - exists (owners db). by rewrite set_owners_id.
Qed.

Lemma close_ack_Ok db ack d did auth actor issuer :
  wf db → owners db = m0 → ∃ r, close_ack db ack d did auth actor issuer = Ok r.
Proof.
  intros Hwf Hm. unfold close_ack. rewrite record_Ok by done. cbn [mbind res_bind].
  destruct issuer as [[issuance ref]|]; [|eauto].
  destruct (acknowledge_issuer_Ok
    (set_acks (acks db ++ [ack_row db ack d did auth]) (set_draws (S (draws db)) db))
    ack (ack_row db ack d did auth) issuance ref actor Hm) as [m ->]. cbn. eauto.
Qed.

Lemma ingest_Ok db ack auth actor :
  wf db → owners db = m0 → ∃ r, ingest_acknowledgement db ack auth actor = Ok r.
Proof.
  intros Hwf Hm. unfold ingest_acknowledgement.
  destruct (claimed_issuance db ack) as [issuance|]; [|by apply close_ack_Ok].
  destruct (negb _); [by apply close_ack_Ok|]. destruct auth as [ref|]; [|by apply close_ack_Ok].
  destruct (match AcknowledgementInput.deployment_id ack with Some _ => _ | None => _ end);
    [by apply close_ack_Ok|].
  destruct (match _issued_deployment_id issuance with Some _ => _ | None => _ end);
    [by apply close_ack_Ok|].
  unfold ingest_proven. cbv zeta. destruct (negb _); [by apply close_ack_Ok|].
  unfold _highest_active_version. cbv zeta.
  match goal with |- context [mapM ?f ?l] => destruct (mapM_Ok_total f l) as [k ->] end.
  { intros x _. by apply issuance_for_delivery_Ok. }
  cbn [mbind res_bind]. destruct (_ <? _); [by apply close_ack_Ok|].
  destruct (head _) as [d|] eqn:Hd; [|by apply close_ack_Ok].
  apply staged_delivery_elem in Hd as (Hd & _ & _).
  destruct (state_of_delivery db d Hwf Hd) as (st & Hst & Hid).
  rewrite (state_of_Ok db st) by done. cbn [mbind res_bind].
  destruct (bool_decide _); [by apply close_ack_Ok|]. rewrite record_Ok by done.
  cbn [mbind res_bind].
  match goal with |- context [_acknowledge_issuer ?a ?b ?c ?d ?e ?f] =>
    destruct (acknowledge_issuer_Ok a b c d e f Hm) as [m ->] end.
  cbn [mbind res_bind]. rewrite (db_update_same_key States _ st); [cbn; eauto| |done..].
  destruct Hwf as [?[]]. by split.
Qed.
End total.
End history.

(** ** The properties *)

Section properties.
Context `{MS : Modules} `{UDB : UnicodeDB} `{!FreshKeys}.

(** C26: The verdict on an acknowledgement, exactly.  A delivery is activated
    precisely when the report names a version the vendor issued with that very
    digest, comes from a proven deployment identity which contradicts neither
    the claim in the report nor the binding of the document, says [applied],
    and that deployment is where a not yet active delivery of the issuance was
    staged, with nothing newer of the lineage active.  The session then differs
    in one projection row, one log row, one audit event and the licensing
    module's own tables.  Every other report leaves only the log row and the
    audit event, and without a proven identity the licensing module is not
    even told. *)
Theorem ingest_activation db ack auth actor db' o :
  wf db → ingest_acknowledgement db ack auth actor = Ok (db', o) →
  (AckOutcome.activated o = true ↔ ∃ issuance d st, activates db ack auth issuance d st) ∧
  (AckOutcome.activated o = true → ∃ issuance d st m,
     activates db ack auth issuance d st ∧ db' = activation db ack auth actor m d st ∧
     ∀ d' st' i, d' ∈ deliveries db → st' ∈ states db →
       LicenceDeliveryState.delivery_id st' = LicenceDelivery.id d' →
       LicenceDeliveryState.state st' = DeliveryState.value DeliveryState.ACTIVE →
       issuance_for_delivery db (LicenceDelivery.issuance_id d') = Ok (Some i) →
       DeliveryIssuanceView.licence_id i = DeliveryIssuanceView.licence_id issuance →
       (∀ j, ∃ v, issuance_for_delivery db j = Ok v) →
       DeliveryIssuanceView.version i ≤ AcknowledgementInput.licence_version ack) ∧
  (AckOutcome.activated o = false → ∃ d did m,
     AckOutcome.disposition o = AckDisposition.value d ∧ d ≠ AckDisposition.ACCEPTED ∧
     db' = logged db ack d did auth actor m ∧ (auth = None → m = owners db)).
Proof.
  intros Hwf Hr. pose proof (ingest_inv _ _ _ _ _ _ Hr) as Hres. split_and!.
  - split.
    + intros Ha. destruct Hres as [|issuance d st m Hact]; [done|eauto].
    + intros (issuance & d & st & Hact). by eapply activates_result.
  - intros Ha. destruct Hres as [|issuance d st m Hact]; [done|].
    exists issuance, d, st, m. split_and!; [done..|].
    intros d' st' i Hd' Hst' Hid Hsta Hi Hl Hlin.
    destruct (mapM_Ok_total (issuance_for_delivery db)
      ((λ p : LicenceDelivery.t * LicenceDeliveryState.t, LicenceDelivery.issuance_id p.1) <$>
       filter (λ p, LicenceDeliveryState.state p.2 = DeliveryState.value DeliveryState.ACTIVE)
         (joined db))) as [k Hk]; [intros; apply Hlin|].
    assert (Hh : ∃ h, _highest_active_version db (DeliveryIssuanceView.licence_id issuance) = Ok h).
    { unfold _highest_active_version. cbv zeta. rewrite Hk. cbn. eauto. }
    destruct Hh as [h Hh]. etrans; [|by eapply act_newest].
    by eapply highest_active_ge.
  - intros Ha. destruct Hres as [d did m Hd _ Hm|]; [|done]. eauto 10.
Qed.

(** C27: Whatever the sequence of transactions, an active delivery was activated
    by a report in the log that the vendor accepted, that says [applied], and
    whose proven identity is the target the delivery is staged for.  (Started
    from tables without activations and without legacy deliveries.) *)
Theorem active_is_proven db0 db :
  wf db0 → all_mapped db0 →
  (∀ st, st ∈ states db0 → LicenceDeliveryState.state st ≠ DeliveryState.value DeliveryState.ACTIVE) →
  rtc step db0 db →
  ∀ d st, d ∈ deliveries db → st ∈ states db →
    LicenceDeliveryState.delivery_id st = LicenceDelivery.id d →
    LicenceDeliveryState.state st = DeliveryState.value DeliveryState.ACTIVE →
    ∃ k, k ∈ acks db ∧ activating d st k.
Proof.
  intros Hwf Hm Hna Hr.
  apply (reachable_proven db0 db Hwf Hr). split; [done|].
  intros d st _ Hst _ Hact. by apply Hna in Hst.
Qed.

(** C35: The tables stay well formed under every sequence of transactions, the
    acknowledgement log, the attempt log, the audit trail and the outbox only
    grow, and the facts that must not change do not: a delivery that has its
    destination, an activated projection, a completed intent, and the
    correlation of any intent. *)
Theorem delivery_history db0 db :
  wf db0 → rtc step db0 db → wf db ∧ evolves db0 db.
Proof. apply reachable_kept. Qed.

(** An acknowledgement is refused only by the licensing module: when it
    takes every report and knows the lineage of every issuance, every
    acknowledgement gets a verdict. *)
Theorem ingest_total db ack auth actor :
  (∀ c, ∃ r, module_acknowledge (owners db) c = inl r) →
  (∀ i v, module_get_issuance (owners db) i = Some v →
     module_licence_view (owners db) (iv_licence_id v) ≠ None) →
  wf db → ∃ db' o, ingest_acknowledgement db ack auth actor = Ok (db', o).
Proof.
  intros Ha Hl Hwf. destruct (ingest_Ok _ Ha Hl db ack auth actor Hwf eq_refl) as [[db' o] Hr]. eauto.
Qed.
End properties.

(** ** Witnesses *)

Lemma demo_empty_wf : wf demo_empty.
Proof. by apply wf_empty. Qed.

Lemma demo_run : rtc step demo_empty demo_applied.
Proof.
  eapply rtc_l; [eapply (step_reconcile demo_empty demo_facts None); vm_compute; reflexivity|].
  eapply rtc_l; [eapply (step_stage _ demo_command); vm_compute; reflexivity|].
  eapply rtc_l; [eapply (step_ingest _ demo_ack (Some (lit "site-1")) None); vm_compute; reflexivity|].
  apply rtc_refl.
Qed.

Lemma demo_staged_wf : wf demo_staged.
Proof.
  apply (reachable_kept demo_empty demo_staged demo_empty_wf).
  eapply rtc_l; [eapply (step_reconcile demo_empty demo_facts None); vm_compute; reflexivity|].
  eapply rtc_l; [eapply (step_stage _ demo_command); vm_compute; reflexivity|].
  apply rtc_refl.
Qed.

Lemma ingest_activation_witness :
  ∃ o, ingest_acknowledgement demo_staged demo_ack (Some (lit "site-1")) None = Ok (demo_applied, o) ∧
    ∃ issuance d st, activates demo_staged demo_ack (Some (lit "site-1")) issuance d st.
Proof.
  eexists. split; [vm_compute; reflexivity|].
  eapply (proj1 (ingest_activation demo_staged demo_ack (Some (lit "site-1")) None
    demo_applied _ demo_staged_wf ltac:(vm_compute; reflexivity))).
  reflexivity.
Defined.

Lemma active_is_proven_witness :
  ∃ d st k, d ∈ deliveries demo_applied ∧ st ∈ states demo_applied ∧ k ∈ acks demo_applied ∧
    activating d st k.
Proof.
  destruct (deliveries demo_applied) as [|d ds] eqn:Hd; [by vm_compute in Hd|].
  destruct (states demo_applied) as [|st ss] eqn:Hs; [by vm_compute in Hs|].
  destruct (active_is_proven demo_empty demo_applied demo_empty_wf
    ltac:(intros x Hx; by apply elem_of_nil in Hx)
    ltac:(intros x Hx; by apply elem_of_nil in Hx) demo_run d st) as (k & Hk & Ha).
  - rewrite Hd. by left.
  - rewrite Hs. by left.
  - vm_compute in Hd, Hs. injection Hd as <- _. injection Hs as <- _. reflexivity.
  - vm_compute in Hs. injection Hs as <- _. reflexivity.
  - exists d, st, k. split; [by left|]. split; [by left|]. by split.
Defined.

Lemma delivery_history_witness :
  wf demo_applied ∧ acks demo_empty `prefix_of` acks demo_applied.
Proof.
  destruct (delivery_history demo_empty demo_applied demo_empty_wf demo_run) as [Hwf He].
  split; [exact Hwf|apply He].
Defined.

Lemma ingest_total_witness :
  ∃ db' o, ingest_acknowledgement demo_staged demo_ack None None = Ok (db', o).
Proof.
  apply (ingest_total demo_staged demo_ack None None); [| |exact demo_staged_wf].
  - intros c. eexists. reflexivity.
  - intros i v. simpl. case_match; [|done]. intros [= <-]. by vm_compute.
Defined.

(** ** Two consequences the texts of the code deny *)

(** A refusal of the licensing module leaves no trace of the acknowledgement:
    the log row is written in the transaction that is rolled back. *)
Example refused_ack_leaves_no_record :
  ingest_acknowledgement (set_owners (true : @modules demo) demo_staged) demo_ack
    (Some (lit "site-1")) None =
  Raise (Exn ConflictError "").
Proof. vm_compute. reflexivity. Qed.

(** A legacy delivery that was activated by its old target and is then mapped
    shows as active at a target that never reported anything. *)
Definition demo_legacy : Session :=
  set_deliveries [LicenceDelivery.Row 50 100 (lit "old") None None]
    (set_states [LicenceDeliveryState.Row 51 50 (lit "parked") None 1] demo_reconciled).
Definition demo_legacy_ack : AcknowledgementInput.t :=
  {| AcknowledgementInput.licence_id := AcknowledgementInput.licence_id demo_ack;
     AcknowledgementInput.licence_version := 1; AcknowledgementInput.digest := lit "d1";
     AcknowledgementInput.status := lit "applied"; AcknowledgementInput.reason := None;
     AcknowledgementInput.deployment_id := None |}.
Example legacy_active_elsewhere :
  (db ← ingest_acknowledgement demo_legacy demo_legacy_ack (Some (lit "old")) None;
   r ← map_legacy_delivery db.1 50 (lit "site-1") None;
   Ok (DeliveryView.target_ref r.2, DeliveryView.state r.2,
       LicenceAckRecord.authenticated_deployment_ref <$> acks r.1)) =
  Ok (lit "site-1", lit "active", [Some (lit "old")]).
Proof. vm_compute. reflexivity. Qed.
