(* ===== verification/Replay.v ===== *)
(** * At-least-once replay and staging

    What one replay pass does, delivery by delivery, that it always comes to
    its report, and what staging a delivery promises. *)

From S2P Require Import Prelude PyText PyUuid Json Tables DeliveryStore Projection Transport SourcePorts DeliverySafety DeliveryHistory.

#[local] Open Scope Z_scope.

Section replay.
Context `{MS : Modules} `{UDB : UnicodeDB} `{!FreshKeys}.
Implicit Types (db : Session).

(** ** One turn of the loop *)

(** How a delivery left the pass. *)
Inductive turn := Exhausted | Accepted | Refused (e : TransportError).

Definition turn_report (t : turn) : DispatchReport.t :=
  match t with
  | Exhausted => DispatchReport.Report 0 0 0 0 1
  | Accepted => DispatchReport.Report 1 1 0 0 0
  | Refused e => DispatchReport.Report 1 0 1 (if retryable e then 0 else 1) 0
  end.

Definition total_report (ts : list turn) : DispatchReport.t :=
  foldr (λ t r, DispatchReport.add (turn_report t) r) (DispatchReport.Report 0 0 0 0 0) ts.

(** The turn ended with the delivery parked. *)
Definition parks (t : turn) : bool :=
  match t with
  | Exhausted => true
  | Accepted => false
  | Refused e => negb (retryable e)
  end.

(** The attempt row a turn leaves behind, in generation [g] after [prior]
    attempts: none when the budget is spent. *)
Definition turn_row (sent_outcome : AttemptOutcome.t) (d : LicenceDelivery.t) (g prior : Z)
    (t : turn) (rows : list LicenceDeliveryAttempt.t) : Prop :=
  match t with
  | Exhausted => rows = []
  | Accepted => ∃ i tr, rows =
      [LicenceDeliveryAttempt.Row i (LicenceDelivery.id d) g (prior + 1) tr
         (AttemptOutcome.value sent_outcome) None]
  | Refused e => ∃ i tr, rows =
      [LicenceDeliveryAttempt.Row i (LicenceDelivery.id d) g (prior + 1) tr
         (AttemptOutcome.value
            (if retryable e then AttemptOutcome.FAILED else AttemptOutcome.TERMINAL))
         (Some (code e))]
  end.

Record turn_ok (max_attempts : Z) (sent_outcome : AttemptOutcome.t) db db'
    (d : LicenceDelivery.t) (t : turn) (rows : list LicenceDeliveryAttempt.t) : Prop := {
  turn_budget g : _current_generation db (LicenceDelivery.id d) = Ok g →
    t = Exhausted ↔ max_attempts ≤ _attempt_count db (LicenceDelivery.id d) g;
  turn_logged g : _current_generation db (LicenceDelivery.id d) = Ok g →
    turn_row sent_outcome d g (_attempt_count db (LicenceDelivery.id d) g) t rows;
  turn_parked st : st ∈ states db' → LicenceDeliveryState.delivery_id st = LicenceDelivery.id d →
    LicenceDeliveryState.state st = DeliveryState.value DeliveryState.PARKED ↔
    parks t = true;
}.

(** The rows of delivery [i] are as they were. *)
Definition same_for (i : uuid) db db' : Prop :=
  (∀ st, LicenceDeliveryState.delivery_id st = i → st ∈ states db ↔ st ∈ states db') ∧
  (∀ g, numbers i g (attempts db') = numbers i g (attempts db)).

Lemma generation_Ok db i st :
  wf db → st ∈ states db → LicenceDeliveryState.delivery_id st = i →
  _current_generation db i = Ok (LicenceDeliveryState.replay_generation st).
Proof.
  intros Hwf Hst Hid. unfold _current_generation.
  destruct (state_lookup db i) as [(st' & Hst' & Hid' & _ & ->)|[Hn _]]; [apply Hwf|..].
  - simpl. do 2 f_equal. eapply (one_state _ _ _ Hwf); [done|done|congruence].
  - exfalso. apply Hn. rewrite <- Hid. by apply list_elem_of_fmap_2.
Qed.

Lemma same_for_generation i db db' :
  wf db → wf db' → same_for i db db' → _current_generation db' i = _current_generation db i.
Proof.
  intros Hwf Hwf' [Hs _].
  destruct (state_lookup db i) as [(st & Hst & Hid & _ & _)|[Hn _]]; [apply Hwf|..].
  - rewrite (generation_Ok db i st), (generation_Ok db' i st); try done. by apply Hs.
  - assert (Hn' : i ∉ LicenceDeliveryState.delivery_id <$> states db').
    { intros (st & Hid & Hst)%list_elem_of_fmap. apply Hn. rewrite Hid.
      apply list_elem_of_fmap_2. by apply Hs. }
    unfold _current_generation. by rewrite !(filter_key_nil LicenceDeliveryState.delivery_id).
Qed.

Lemma same_for_count i db db' g :
  same_for i db db' → _attempt_count db' i g = _attempt_count db i g.
Proof. intros [_ Ha]. by rewrite !attempt_count_numbers, Ha. Qed.

Lemma same_for_refl i db : same_for i db db.
Proof. by split. Qed.

Lemma same_for_trans i a b c : same_for i a b → same_for i b c → same_for i a c.
Proof.
  intros [H1 H2] [H3 H4]. split.
  - intros st Hst. rewrite H1 by done. by apply H3.
  - intros g. by rewrite H4, H2.
Qed.

Lemma same_for_attempt db i j g no tr out c :
  i ≠ j → same_for i db (with_attempt db (attempt_row db j g no tr out c)).
Proof.
  intros Hij. split; [done|]. intros g'. simpl. rewrite numbers_app. unfold numbers at 2.
  rewrite filter_cons_False by (intros [? _]; simpl in *; congruence).
  by rewrite filter_nil, fmap_nil, app_nil_r.
Qed.

(** Parking one delivery always succeeds, and touches that delivery alone. *)
Lemma park_Ok db d c actor :
  wf db → d ∈ deliveries db → ∃ db', _park db d c actor = Ok db' ∧
    (∀ st, st ∈ states db' → LicenceDeliveryState.delivery_id st = LicenceDelivery.id d →
       LicenceDeliveryState.state st = DeliveryState.value DeliveryState.PARKED) ∧
    (∀ i, i ≠ LicenceDelivery.id d → same_for i db db') ∧
    deliveries db' = deliveries db ∧ attempts db' = attempts db ∧ owners db' = owners db.
Proof.
  intros Hwf Hd. destruct (state_of_delivery db d Hwf Hd) as (st & Hst & Hid).
  pose proof (ok_states _ _ _ _ _ _ _ Hwf) as Hsound.
  unfold _park. destruct (state_lookup db (LicenceDelivery.id d)) as
    [(st' & Hst' & Hid' & _ & ->)|[Hn _]]; [apply Hwf| |].
  2:{ exfalso. apply Hn. rewrite <- Hid. by apply list_elem_of_fmap_2. }
  assert (st' = st) as -> by (eapply (one_state _ _ _ Hwf); [done|done|congruence]).
  cbn [mbind res_bind]. rewrite (db_update_same_key States _ st); [| |done..].
  2:{ destruct Hsound. by split. }
  cbn [mbind res_bind]. eexists. split; [reflexivity|]. split_and!; try done.
  - intros x [[-> _]|[Hx Hne]]%elem_of_replace Hxd; [done|]. exfalso. apply Hne. simpl.
    f_equal. eapply (one_state _ _ _ Hwf); [done|done|congruence].
  - intros i Hi. split; [|done]. intros x Hx. simpl. split.
    + intros Hin. apply (replace_elem States); [done|]. simpl. intros Heq.
      assert (x = st) as -> by (eapply same_row; [exact Hsound|done..]). congruence.
    + intros [[-> _]|[Hin _]]%elem_of_replace; [|done]. simpl in Hx. congruence.
Qed.

Lemma current_generation_total db d :
  wf db → d ∈ deliveries db → ∃ g, _current_generation db (LicenceDelivery.id d) = Ok g.
Proof.
  intros Hwf Hd. destruct (state_of_delivery db d Hwf Hd) as (st & Hst & Hid).
  eexists. by eapply generation_Ok.
Qed.

(** The delivery is up for replay. *)
Record eligible db (d : LicenceDelivery.t) : Prop := Eligible {
  el_delivery : d ∈ deliveries db;
  el_state st : st ∈ states db → LicenceDeliveryState.delivery_id st = LicenceDelivery.id d →
    LicenceDeliveryState.state st ≠ DeliveryState.value DeliveryState.ACTIVE ∧
    LicenceDeliveryState.state st ≠ DeliveryState.value DeliveryState.PARKED;
  el_issuance : ∃ i,
    issuance_for_delivery db (LicenceDelivery.issuance_id d) = Ok (Some i);
}.

Lemma eligible_inactive db d : eligible db d → inactive db (LicenceDelivery.id d).
Proof. intros [_ Hs _] st Hst Hid. by apply Hs. Qed.

Lemma eligible_packet db d : eligible db d → ∃ p, _packet db d = Ok p.
Proof. intros [_ _ [i Hi]]. unfold _packet. rewrite Hi. cbn. eauto. Qed.

Section pass.
Context {T : Type} `{LT : !LicenceDeliveryTransport T}.
Context (max_attempts : Z) (sent_outcome : AttemptOutcome.t) (actor : option uuid).
Context (no_crash : ∀ (t : T) p e, (send t p).2 ≠ Crashed e).

Lemma attempt_failed_Ok db (t : T) d g e :
  wf db → eligible db d → _current_generation db (LicenceDelivery.id d) = Ok g →
  ∃ db' i, attempt_failed actor db t d g (_attempt_count db (LicenceDelivery.id d) g + 1) e =
      Ok (db', turn_report (Refused e)) ∧
    (∀ st, st ∈ states db' → LicenceDeliveryState.delivery_id st = LicenceDelivery.id d →
       LicenceDeliveryState.state st = DeliveryState.value DeliveryState.PARKED ↔
       retryable e = false) ∧
    (∀ j, j ≠ LicenceDelivery.id d → same_for j db db') ∧
    deliveries db' = deliveries db ∧ owners db' = owners db ∧
    attempts db' = attempts db ++
      [LicenceDeliveryAttempt.Row i (LicenceDelivery.id d) g
         (_attempt_count db (LicenceDelivery.id d) g + 1) (name t)
         (AttemptOutcome.value
            (if retryable e then AttemptOutcome.FAILED else AttemptOutcome.TERMINAL))
         (Some (code e))].
Proof.
  intros Hwf Hel Hg. unfold attempt_failed. cbv zeta. rewrite add_attempt_Ok by done.
  cbn [mbind res_bind].
  match goal with |- context [with_attempt db ?a] => set (row := a) end.
  assert (Hwf1 : wf (with_attempt db row)) by (apply wf_attempt; [done|done|apply code_is_code]).
  assert (Hother : ∀ j, j ≠ LicenceDelivery.id d → same_for j db (with_attempt db row))
    by (intros; by apply same_for_attempt).
  destruct (retryable e) eqn:Hre; cbn [negb].
  - eexists _, (uuid_pk (draws db)). split; [unfold turn_report; by rewrite Hre|].
    split_and!; try done.
    intros st Hst Hid. split; [|done]. intros Hp. by destruct (el_state _ _ Hel st Hst Hid).
  - match goal with |- context [_park ?db1 d ?c ?a] =>
      destruct (park_Ok db1 d c a) as (db' & Hp & Hst & Hsame & Hds & Hat & How) end;
      [exact Hwf1|apply Hel|].
    rewrite Hp. cbn [mbind res_bind]. exists db', (uuid_pk (draws db)).
    split; [unfold turn_report; by rewrite Hre|]. split_and!; try done.
    { intros st Hin Hid. split; [done|]. intros _. by apply Hst. }
    intros j Hj. eapply same_for_trans; [by apply Hother|]. by apply Hsame.
Qed.

Lemma dispatch_one_Ok db (t : T) d :
  wf db → eligible db d →
  ∃ db' t' tn rows,
    dispatch_one max_attempts sent_outcome actor db t d = Ok (db', t', turn_report tn) ∧
    turn_ok max_attempts sent_outcome db db' d tn rows ∧
    (∀ j, j ≠ LicenceDelivery.id d → same_for j db db') ∧
    deliveries db' = deliveries db ∧ owners db' = owners db ∧
    attempts db' = attempts db ++ rows.
Proof.
  intros Hwf Hel. destruct (current_generation_total db d Hwf) as [g Hg]; [apply Hel|].
  destruct (eligible_packet db d Hel) as [p Hp].
  unfold dispatch_one. rewrite Hg. cbn [mbind res_bind].
  destruct (Z.leb_spec max_attempts (_attempt_count db (LicenceDelivery.id d) g)) as [Hmax|Hmax].
  - match goal with |- context [_park db d ?c ?a] =>
      destruct (park_Ok db d c a) as (db' & Hpk & Hst & Hsame & Hds & Hat & How) end;
      [done|apply Hel|].
    rewrite Hpk. cbn [mbind res_bind]. exists db', t, Exhausted, [].
    split; [done|]. split_and!; try done; [|by rewrite app_nil_r].
    split; [|done|by intros; split; auto]. intros g' Hg'. rewrite Hg in Hg'. by injection Hg' as <-.
  - rewrite Hp. cbn [mbind res_bind].
    destruct (send t p) as [t1 result] eqn:Hsend. destruct result as [|e|e].
    + rewrite add_attempt_Ok by done. cbn [mbind res_bind].
      match goal with |- context [with_attempt db ?a] => exists (with_attempt db a), t1, Accepted, [a] end.
      split; [done|]. split_and!; try done; [|intros; by apply same_for_attempt].
      split.
      * intros g' Hg'. rewrite Hg in Hg'. injection Hg' as <-. split; [done|lia].
      * intros g' Hg'. rewrite Hg in Hg'. injection Hg' as <-. by do 2 eexists.
      * intros st Hst Hid. split; [|done]. intros Hpk. by destruct (el_state _ _ Hel st Hst Hid).
    + destruct (attempt_failed_Ok db t1 d g e Hwf Hel Hg)
        as (db' & i & Hf & Hst & Hsame & Hds & How & Hat).
      rewrite Hf. cbn [mbind res_bind]. eexists db', t1, (Refused e), _.
      split; [done|]. split_and!; try done. split.
      * intros g' Hg'. rewrite Hg in Hg'. injection Hg' as <-. split; [done|lia].
      * intros g' Hg'. rewrite Hg in Hg'. injection Hg' as <-. by do 2 eexists.
      * intros st Hin Hid. rewrite Hst by done. simpl. by rewrite negb_true_iff.
    + exfalso. apply (no_crash t p e). by rewrite Hsend.
Qed.

(** Nothing a turn of another delivery does changes what this one is owed. *)
Lemma eligible_same db db' d :
  deliveries db' = deliveries db → owners db' = owners db →
  same_for (LicenceDelivery.id d) db db' → eligible db d → eligible db' d.
Proof.
  intros Hd Ho [Hs _] [H1 H2 H3]. split.
  - by rewrite Hd.
  - intros st Hst Hid. apply H2; [|done]. by apply Hs.
  - unfold issuance_for_delivery in *. by rewrite Ho.
Qed.

Lemma turn_ok_same db0 db db1 db2 d tn rows :
  wf db0 → wf db → same_for (LicenceDelivery.id d) db0 db →
  same_for (LicenceDelivery.id d) db1 db2 →
  turn_ok max_attempts sent_outcome db db1 d tn rows →
  turn_ok max_attempts sent_outcome db0 db2 d tn rows.
Proof.
  intros Hwf0 Hwf Hs1 Hs2 [H1 H2 H3]. split.
  - intros g Hg. rewrite <- (same_for_count _ db0 db) by done. apply H1.
    by rewrite (same_for_generation _ db0 db).
  - intros g Hg. rewrite <- (same_for_count _ db0 db) by done. apply H2.
    by rewrite (same_for_generation _ db0 db).
  - intros st Hst Hid. apply H3; [|done]. by apply Hs2.
Qed.

Lemma dispatch_all_Ok db (t : T) work :
  wf db → (∀ d, d ∈ work → eligible db d) → NoDup (LicenceDelivery.id <$> work) →
  ∃ db' t' (log : list (LicenceDelivery.t * turn * list LicenceDeliveryAttempt.t)),
    dispatch_all max_attempts sent_outcome actor db t work =
      Ok (db', t', total_report ((λ x, x.1.2) <$> log)) ∧
    (λ x, x.1.1) <$> log = work ∧
    (∀ d tn rows, (d, tn, rows) ∈ log → turn_ok max_attempts sent_outcome db db' d tn rows) ∧
    attempts db' = attempts db ++ concat (snd <$> log) ∧
    (∀ j, j ∉ LicenceDelivery.id <$> work → same_for j db db').
Proof.
  revert db t. induction work as [|d work IH]; intros db t Hwf Hel Hnd.
  { exists db, t, []. csimpl. rewrite app_nil_r. split_and!; try done.
    intros d tn rows Hin. by apply elem_of_nil in Hin. }
  rewrite fmap_cons in Hnd. apply NoDup_cons in Hnd as [Hnew Hnd].
  destruct (dispatch_one_Ok db t d Hwf (Hel d ltac:(by left)))
    as (db1 & t1 & tn & rows & H1 & Hturn & Hsame & Hds & How & Hat).
  assert (Hwf1 : wf db1).
  { eapply kept_wf, kept_dispatch_one; [done| |exact H1]. apply eligible_inactive, Hel. by left. }
  destruct (IH db1 t1 Hwf1) as (db2 & t2 & log & H2 & Hlog & Hturns & Hat2 & Hsame2); [|done|].
  { intros d' Hd'. eapply eligible_same; [done..| |apply Hel; by right].
    apply Hsame. intros Heq. apply Hnew. rewrite <- Heq. by apply list_elem_of_fmap_2. }
  assert (Hwf2 : wf db2).
  { eapply kept_wf, kept_dispatch_all; [exact Hwf1| |exact H2]. intros d' Hd'.
    apply eligible_inactive. eapply eligible_same; [done..| |apply Hel; by right].
    apply Hsame. intros Heq. apply Hnew. rewrite <- Heq. by apply list_elem_of_fmap_2. }
  exists db2, t2, ((d, tn, rows) :: log). csimpl. rewrite H1. cbn [mbind res_bind].
  rewrite H2. cbn [mbind res_bind]. rewrite Hlog. split_and!; [done|done| |..].
  - intros d' tn' rows' [[= -> -> ->]|Hin]%elem_of_cons.
    + eapply turn_ok_same; [exact Hwf|exact Hwf|apply same_for_refl|by apply Hsame2|done].
    + eapply turn_ok_same; [exact Hwf|exact Hwf1| |apply same_for_refl|by apply Hturns].
      apply Hsame. intros Heq. apply Hnew. rewrite <- Heq.
      apply list_elem_of_fmap_2. rewrite <- Hlog.
      apply list_elem_of_fmap. by exists (d', tn', rows').
  - by rewrite Hat2, Hat, app_assoc.
  - intros j Hj. apply not_elem_of_cons in Hj as [Hjd Hj].
    eapply same_for_trans; [by apply Hsame|by apply Hsame2].
Qed.
End pass.

(** ** The work of one pass *)

Lemma joined_sublist db : wf db → (joined db).*1 `sublist_of` deliveries db.
Proof.
  intros Hwf. unfold joined. induction (deliveries db) as [|d ds IH]; [done|].
  csimpl. rewrite fmap_app.
  destruct (state_lookup db (LicenceDelivery.id d)) as [(st & Hst & Hid & _)|[Hn _]];
    [apply Hwf|..].
  - rewrite <- Hid, (filter_key_one LicenceDeliveryState.delivery_id) by (done || apply Hwf).
    csimpl. by apply sublist_skip.
  - rewrite (filter_key_nil LicenceDeliveryState.delivery_id) by done. csimpl.
    by apply sublist_cons.
Qed.

Lemma pending_NoDup db limit claim :
  wf db → NoDup (LicenceDelivery.id <$> pending_deliveries db limit claim).
Proof.
  intros Hwf. unfold pending_deliveries. cbv zeta.
  set (p := filter _ (joined db)).
  assert (Hp : NoDup (LicenceDelivery.id <$> p.*1)).
  { eapply sublist_NoDup; [apply Hwf|]. apply fmap_sublist.
    etrans; [|by apply joined_sublist]. apply fmap_sublist, sublist_filter. }
  assert (Hs : NoDup (LicenceDelivery.id <$> sort_by created_leb p.*1))
    by (by rewrite (sort_by_perm created_leb)).
  eapply sublist_NoDup; [exact Hs|]. apply fmap_sublist.
  etrans; [apply sublist_take|]. case_match; [apply sublist_filter|done].
Qed.

Lemma pending_eligible db limit claim d :
  wf db →
  (∀ d, d ∈ deliveries db → ∃ i,
     issuance_for_delivery db (LicenceDelivery.issuance_id d) = Ok (Some i)) →
  d ∈ pending_deliveries db limit claim → eligible db d.
Proof.
  intros Hwf Hi Hp. apply pending_elem in Hp as (Hd & _ & st & Hst & Hid & Hna & Hnp).
  split; [done| |auto]. intros x Hx Hxd.
  assert (x = st) as -> by (eapply (one_state _ _ _ Hwf); [done|done|congruence]). done.
Qed.

Lemma total_report_counts ts :
  let r := total_report ts in
  (DispatchReport.attempted r = DispatchReport.sent r + DispatchReport.failed r ∧
   DispatchReport.attempted r + DispatchReport.parked_exhausted r = length ts ∧
   DispatchReport.parked_terminal r + DispatchReport.parked_exhausted r =
     length (filter (λ t, parks t = true) ts))%nat.
Proof.
  induction ts as [|t ts IH]; [done|]. csimpl in *. destruct IH as (H1 & H2 & H3).
  rewrite filter_cons. destruct t as [| |e]; csimpl; [lia|lia|].
  destruct (retryable e); csimpl; lia.
Qed.

Lemma turn_row_outcome sent_outcome d g prior t rows a :
  turn_row sent_outcome d g prior t rows → a ∈ rows →
  LicenceDeliveryAttempt.outcome a ∈
    AttemptOutcome.value <$> [sent_outcome; AttemptOutcome.FAILED; AttemptOutcome.TERMINAL].
Proof.
  destruct t as [| |e]; simpl.
  - intros -> Ha. by apply elem_of_nil in Ha.
  - intros (i & tr & ->) ->%list_elem_of_singleton. by left.
  - intros (i & tr & ->) ->%list_elem_of_singleton. simpl.
    destruct (retryable e); [right; by left|do 2 right; by left].
Qed.

(** ** Resuming *)

Lemma fresh_generation db st :
  wf db → st ∈ states db →
  _attempt_count db (LicenceDeliveryState.delivery_id st)
    (LicenceDeliveryState.replay_generation st + 1) = 0.
Proof.
  intros Hwf Hst. unfold _attempt_count. rewrite count_if_zero; [done|].
  intros a Ha [Hid Hg]. destruct (ok_generation _ _ _ _ _ _ _ Hwf a Ha) as (x & Hx & Hxd & Hxg).
  assert (x = st) as -> by (eapply (one_state _ _ _ Hwf); [done|done|congruence]). lia.
Qed.

(** ** Staging *)

Lemma authorised_inv db ref issuance target :
  _authorised_target db ref issuance = Ok target →
  target ∈ targets db ∧ LicenceDeliveryTarget.target_ref target = ref ∧
  LicenceDeliveryTarget.status target = TargetStatus.value TargetStatus.ACTIVE ∧
  LicenceDeliveryTarget.customer_ref target = DeliveryIssuanceView.subject_ref issuance ∧
  (∀ b, DeliveryIssuanceView.deployment_ref issuance = Some b → b = ref).
Proof.
  unfold _authorised_target, _issued_deployment_id. intros Hr. inv_res. bool_hyps.
  match goal with H : scalar_one_or_none _ = _ |- _ =>
    apply scalar_one_or_none_elem, list_elem_of_filter in H as [<- Hin] end.
  split_and!; try done. intros b Hb. rewrite Hb in *. by bool_hyps.
Qed.
End replay.

(** ** The properties *)

Section properties.
Context `{MS : Modules} `{UDB : UnicodeDB} `{!FreshKeys}.

(** C34: A replay pass through any transport that fails only with transport
    errors comes to its report.  Every pending delivery gets exactly one turn:
    one attempt numbered after those of its current generation, with the
    outcome the transport gave, or none when its budget is spent; it ends
    parked exactly when the budget was spent or the error was terminal.  The
    report counts those turns, the attempt log grows by those rows alone, and
    a pass that hands nothing over records no [sent]. *)
Theorem dispatch_accounts {T} `{!LicenceDeliveryTransport T} db (t : T) limit max_attempts
    simulate actor :
  wf db → (∀ (t : T) p e, (send t p).2 ≠ Crashed e) →
  (∀ d, d ∈ deliveries db → ∃ i,
     issuance_for_delivery db (LicenceDelivery.issuance_id d) = Ok (Some i)) →
  performs_external_handoff t || simulate = true →
  let sent_outcome :=
    if performs_external_handoff t then AttemptOutcome.SENT else AttemptOutcome.SIMULATED in
  ∃ db' t' r (log : list (LicenceDelivery.t * turn * list LicenceDeliveryAttempt.t)),
    dispatch_through db t limit max_attempts simulate actor = Ok (db', t', r) ∧
    (λ x, x.1.1) <$> log = pending_deliveries db limit true ∧
    (∀ d tn rows, (d, tn, rows) ∈ log → turn_ok max_attempts sent_outcome db db' d tn rows) ∧
    attempts db' = attempts db ++ concat (snd <$> log) ∧
    r = total_report ((λ x, x.1.2) <$> log) ∧
    (DispatchReport.attempted r = DispatchReport.sent r + DispatchReport.failed r ∧
     DispatchReport.attempted r + DispatchReport.parked_exhausted r =
       length (pending_deliveries db limit true))%nat ∧
    (performs_external_handoff t = false → ∀ a, a ∈ concat (snd <$> log) →
       LicenceDeliveryAttempt.outcome a ≠ AttemptOutcome.value AttemptOutcome.SENT).
Proof.
  intros Hwf Hcrash Hi Hallow sent_outcome. unfold dispatch_through. rewrite Hallow.
  cbn [ensure mbind res_bind]. cbv zeta.
  replace (if negb (performs_external_handoff t) then _ else _) with sent_outcome
    by (unfold sent_outcome; by destruct (performs_external_handoff t)).
  destruct (dispatch_all_Ok max_attempts sent_outcome actor Hcrash db t
    (pending_deliveries db limit true) Hwf) as (db' & t' & log & Hd & Hlog & Hturns & Hat & _).
  { intros d Hp. by eapply pending_eligible. }
  { by apply pending_NoDup. }
  do 2 eexists. eexists. exists log. rewrite Hd. split_and!; [done..| | |].
  - apply (total_report_counts ((λ x, x.1.2) <$> log)).
  - rewrite <- Hlog, length_fmap.
    destruct (total_report_counts ((λ x, x.1.2) <$> log)) as (_ & H2 & _).
    by rewrite length_fmap in H2.
  - intros Hno a Ha. apply list_elem_of_In, in_concat in Ha as (rows & Hrows%list_elem_of_In & Ha%list_elem_of_In).
    apply list_elem_of_fmap in Hrows as ([[d tn] rows'] & -> & Hin).
    specialize (Hturns d tn rows' Hin). simpl in Ha.
    destruct (current_generation_total db d Hwf) as [g Hg].
    { assert (Hp : d ∈ pending_deliveries db limit true).
      { rewrite <- Hlog. apply list_elem_of_fmap. by exists (d, tn, rows'). }
      by apply pending_elem in Hp as [? _]. }
    pose proof (turn_row_outcome _ _ _ _ _ _ _ (turn_logged _ _ _ _ _ _ _ Hturns g Hg) Ha) as Ho.
    unfold sent_outcome in Ho. rewrite Hno in Ho.
    intros Heq. rewrite Heq in Ho. by apply (bool_decide_pack _) in Ho.
Qed.

(** Staging delivers only to a registered, active target of the licence's
    own customer, and of the very deployment the document is bound to.  It
    records one delivery with its destination, and its [delivered] projection,
    one audit event and one [licence.delivered] event, or nothing when the
    delivery was already staged; a repeat returns the same view and changes
    nothing.  (The licensing module answers for the issuance it was asked.) *)
Theorem stage_contract db command db' v :
  (∀ m i x, module_get_issuance m i = Some x → iv_id x = i) →
  wf db → stage_delivery db command = Ok (db', v) →
  (∃ issuance target,
     issuance_for_delivery db (StageDeliveryCommand.issuance_id command) = Ok (Some issuance) ∧
     target ∈ targets db ∧
     LicenceDeliveryTarget.target_ref target = StageDeliveryCommand.target_ref command ∧
     LicenceDeliveryTarget.status target = TargetStatus.value TargetStatus.ACTIVE ∧
     LicenceDeliveryTarget.customer_ref target = DeliveryIssuanceView.subject_ref issuance ∧
     (∀ b, DeliveryIssuanceView.deployment_ref issuance = Some b →
        b = StageDeliveryCommand.target_ref command)) ∧
  (∃ d, d ∈ deliveries db' ∧
     LicenceDelivery.ukey d =
       (StageDeliveryCommand.issuance_id command, StageDeliveryCommand.target_ref command) ∧
     _view db' d = Ok v) ∧
  (db' = db ∨
   ∃ d st ev e, deliveries db' = deliveries db ++ [d] ∧ states db' = states db ++ [st] ∧
     LicenceDelivery.target_id d ≠ None ∧
     LicenceDeliveryState.delivery_id st = LicenceDelivery.id d ∧
     LicenceDeliveryState.state st = DeliveryState.value DeliveryState.DELIVERED ∧
     audit db' = audit db ++ [ev] ∧ outbox db' = outbox db ++ [e] ∧
     event_type e = _EVENT_DELIVERED ∧ acks db' = acks db ∧ attempts db' = attempts db) ∧
  stage_delivery db' command = Ok (db', v).
Proof.
  intros Hlaw Hwf Hr. pose proof (wf_stage _ _ _ _ Hwf Hr) as Hwf'.
  assert (Hid : ∀ i issuance, issuance_for_delivery db i = Ok (Some issuance) →
    DeliveryIssuanceView.id issuance = i).
  { intros i issuance. unfold issuance_for_delivery.
    destruct (module_get_issuance _ i) as [x|] eqn:Hx; [|done].
    case_match; [|done]. intros [= <-]. simpl. by eapply Hlaw. }
  apply stage_inv in Hr as (issuance & target & Hi & Ht & Hcase).
  pose proof (Hid _ _ Hi) as Hiid.
  pose proof (authorised_inv _ _ _ _ Ht) as (Hin & Href & Hact & Hcust & Hbound).
  split; [by exists issuance, target|].
  enough (Hd : ∃ d, d ∈ deliveries db' ∧ LicenceDelivery.ukey d =
       (StageDeliveryCommand.issuance_id command, StageDeliveryCommand.target_ref command) ∧
     _view db' d = Ok v).
  { split; [done|]. split.
    - destruct Hcase as [[-> _]|(ev & e & -> & He & _)]; [by left|right].
      eexists _, _, ev, e. split_and!; done.
    - destruct Hd as (d & Hdin & Hkey & Hv). unfold stage_delivery.
      assert (Hsame : owners db' = owners db ∧ targets db' = targets db)
        by (destruct Hcase as [[-> _]|(? & ? & -> & _)]; done).
      destruct Hsame as [Ho Htg].
      unfold issuance_for_delivery in *. rewrite Ho, Hi. cbn [mbind res_bind of_option].
      unfold _authorised_target in *. rewrite Htg, Ht. cbn [mbind res_bind].
      rewrite (list_filter_iff _ (λ x, LicenceDelivery.ukey x = LicenceDelivery.ukey d)).
      + rewrite (filter_key_one LicenceDelivery.ukey) by (done || apply Hwf').
        cbn [scalar_one_or_none mbind res_bind]. by rewrite Hv.
      + intros x. rewrite Hkey. unfold LicenceDelivery.ukey. split; [by intros [-> ->]|].
        by intros [= -> ->]. }
  destruct Hcase as [[-> (d & Hd & Hdi & Hdr & Hv)]|(ev & e & -> & _ & Hv & _)].
  - exists d. split_and!; [done| |done]. unfold LicenceDelivery.ukey. by rewrite Hdi, Hdr.
  - eexists. split; [simpl; rewrite elem_of_app, list_elem_of_singleton; by right|].
    split; [|exact Hv]. unfold LicenceDelivery.ukey. simpl. by rewrite Hiid.
Qed.

(** Resuming a parked delivery opens a fresh budget: the next generation
    has no attempts, so with any positive limit the next pass tries it again
    rather than parking it; the attempt history is untouched.  A delivery that
    is not parked is left alone. *)
Theorem resume_budget db i actor db' st max_attempts :
  wf db → resume_delivery db i actor = Ok db' → 0 < max_attempts →
  st ∈ states db → LicenceDeliveryState.delivery_id st = i →
  (LicenceDeliveryState.state st ≠ DeliveryState.value DeliveryState.PARKED → db' = db) ∧
  (LicenceDeliveryState.state st = DeliveryState.value DeliveryState.PARKED →
   ∃ g, _current_generation db' i = Ok g ∧ g = LicenceDeliveryState.replay_generation st + 1 ∧
     _attempt_count db' i g = 0 ∧ _attempt_count db' i g < max_attempts ∧
     attempts db' = attempts db ∧
     ∃ st', st' ∈ states db' ∧ LicenceDeliveryState.delivery_id st' = i ∧
       LicenceDeliveryState.state st' = DeliveryState.value DeliveryState.DELIVERED).
Proof.
  intros Hwf Hr Hmax Hst Hid. pose proof (wf_resume _ _ _ _ Hwf Hr) as Hwf'.
  pose proof Hr as Hr0. apply resume_inv in Hr as [->|(x & ev & Hx & Hxd & Hp & ->)].
  - split; [done|]. intros Hp. exfalso. revert Hr0. unfold resume_delivery. intros Hr. inv_res.
    match goal with H : scalar_one_or_none _ = _ |- _ =>
      apply scalar_one_or_none_elem, list_elem_of_filter in H as [Hyd Hy] end.
    match goal with y : LicenceDeliveryState.t |- _ => match type of Hy with y ∈ _ =>
      assert (y = st) as -> by (eapply (one_state _ _ _ Hwf); [done|done|congruence]) end end.
    rewrite bool_decide_true in Hr by done. cbn [negb] in Hr. cbv zeta in Hr.
    apply bind_Ok in Hr as (db1 & [-> _]%db_update_Ok & Hr). injection Hr as Hr.
    apply (f_equal (λ s, length (audit s))) in Hr. revert Hr. simpl. rewrite length_app. simpl. lia.
  - assert (x = st) as -> by (eapply (one_state _ _ _ Hwf); [done|done|congruence]).
    split; [done|]. intros _.
    set (st' := set_state st DeliveryState.DELIVERED (LicenceDeliveryState.replay_generation st + 1)).
    set (db' := set_audit _ _).
    assert (Hst' : st' ∈ states db') by (by eapply (replace_elem_new States)).
    assert (Hc : _attempt_count db' i (LicenceDeliveryState.replay_generation st + 1) = 0)
      by (rewrite <- Hid; by apply (fresh_generation db)).
    exists (LicenceDeliveryState.replay_generation st + 1).
    rewrite Hc. split_and!; try done; [by apply (generation_Ok db' i st')|by exists st'].
Qed.
End properties.

(** ** Witnesses *)

Lemma dispatch_accounts_witness :
  ∃ db' t' r, dispatch_through demo_staged (LoggingTransport.init None) 100 10 true None =
      Ok (db', t', r) ∧
    (DispatchReport.attempted r + DispatchReport.parked_exhausted r =
       length (pending_deliveries demo_staged 100 true))%nat.
Proof.
  destruct (dispatch_accounts demo_staged (LoggingTransport.init None) 100 10 true None)
    as (db' & t' & r & log & Hd & _ & _ & _ & _ & [_ Hc] & _).
  - exact demo_staged_wf.
  - intros t p e. simpl. unfold LoggingTransport.send. by case_match.
  - intros d Hd. vm_compute in Hd. apply list_elem_of_singleton in Hd as ->.
    eexists. vm_compute. reflexivity.
  - reflexivity.
  - exists db', t', r. split; [exact Hd|exact Hc].
Defined.

Lemma stage_contract_witness :
  ∃ v, stage_delivery demo_reconciled demo_command = Ok (demo_staged, v) ∧
    stage_delivery demo_staged demo_command = Ok (demo_staged, v).
Proof.
  eexists. split; [vm_compute; reflexivity|].
  assert (Hwf : wf demo_reconciled).
  { apply (reachable_kept demo_empty demo_reconciled demo_empty_wf).
    eapply rtc_l; [eapply (step_reconcile demo_empty demo_facts None); vm_compute; reflexivity|].
    apply rtc_refl. }
  assert (Hlaw : ∀ (m : modules) i x, module_get_issuance m i = Some x → iv_id x = i).
  { intros m i x. simpl. destruct (Z.eqb_spec i 100) as [->|]; [|done]. by intros [= <-]. }
  apply (stage_contract demo_reconciled demo_command demo_staged _ Hlaw Hwf).
  vm_compute. reflexivity.
Defined.

(** A delivery parked by a terminal failure. *)
Definition demo_parked : Session :=
  match dispatch_through demo_staged (LoggingTransport.init (Some (Error true None))) 100 10 true None with
  | Ok (db, _, _) => db
  | Raise _ => demo_empty
  end.

Lemma resume_budget_witness :
  ∃ db', resume_delivery demo_parked 1001 None = Ok db' ∧
    ∃ g, _current_generation db' 1001 = Ok g ∧ g = 2 ∧ _attempt_count db' 1001 g = 0.
Proof.
  destruct (resume_delivery demo_parked 1001 None) as [db'|e] eqn:Hr; [|by vm_compute in Hr].
  exists db'. split; [reflexivity|].
  assert (Hwf : wf demo_parked).
  { eapply step_wf; [exact demo_staged_wf|].
    eapply (step_dispatch demo_staged _ _ [] (Some (LoggingTransport.init (Some (Error true None))))
      100 10 true None). vm_compute. reflexivity. }
  destruct (states demo_parked) as [|st ss] eqn:Hs; [by vm_compute in Hs|].
  destruct (resume_budget demo_parked 1001 None db' st 10 Hwf Hr) as [_ Hp].
  - reflexivity.
  - rewrite Hs. by left.
  - vm_compute in Hs. by injection Hs as <- _.
  - destruct Hp as (g & Hg & Hg' & Hc & _).
    + vm_compute in Hs. by injection Hs as <- _.
    + exists g. split; [exact Hg|]. split; [|exact Hc].
      vm_compute in Hs. injection Hs as <- _. exact Hg'.
Defined.
