(* ===== verification/Intents.v ===== *)
(** * Properties of the licence source ports

    An intent is opened from its owners' facts, hands out only the artifact it
    was opened for, and is completed once, by one correlated acknowledgement,
    however the transactions interleave. *)

From S2P Require Import Prelude PyText PyUuid Json Tables DeliveryStore Projection Transport SourcePorts DeliverySafety DeliveryHistory.

#[local] Open Scope Z_scope.

Section intents.
Context `{MS : Modules} `{UDB : UnicodeDB} `{!FreshKeys}.
Implicit Types (db : Session).

Lemma intent_lookup db r :
  wf db → r ∈ intents db → _intent db (LicenceDeliveryIntent.id r) = Ok r.
Proof.
  intros Hwf Hr. unfold _intent. destruct (ok_intents _ _ _ _ _ _ _ Hwf) as [Hi Hk _].
  assert (Hkeyed : keyed Intents db) by (by split).
  pose proof (db_get_elem Intents _ r Hkeyed Hr) as Hg. simpl in Hg. by rewrite Hg.
Qed.

Lemma mismatches_nil row command :
  mismatches row command = [] ↔
  LicenceDeliveryIntent.deployment_target_ref row =
    AcknowledgeIntentCommand.deployment_target_ref command ∧
  LicenceDeliveryIntent.licence_version row = AcknowledgeIntentCommand.licence_version command ∧
  LicenceDeliveryIntent.artifact_digest row = AcknowledgeIntentCommand.artifact_digest command.
Proof.
  unfold mismatches. simpl. repeat case_bool_decide; split; naive_solver.
Qed.

(** Any command aimed at a completed intent. *)
Lemma completed_answer db r command :
  wf db → r ∈ intents db →
  LicenceDeliveryIntent.status r = IntentStatus.value IntentStatus.ACKNOWLEDGED →
  LicenceDeliveryIntent.id r = AcknowledgeIntentCommand.delivery_intent_id command →
  mismatches r command = [] →
  AcknowledgeIntentCommand.authenticated_deployment_ref command =
    LicenceDeliveryIntent.deployment_target_ref r →
  acknowledge_delivery_intent db command =
    if bool_decide (LicenceDeliveryIntent.integrator_receipt_ref r =
                    Some (AcknowledgeIntentCommand.integrator_receipt_ref command))
    then Ok (db, intent_view r) else Raise (Exn ConflictError "delivery intent ").
Proof.
  intros Hwf Hr Hs Hid Hm Ha. unfold acknowledge_delivery_intent.
  rewrite <- Hid, intent_lookup by done. cbn [mbind res_bind].
  rewrite (bool_decide_true (mismatches r command = [])) by done. cbn [ensure mbind res_bind].
  rewrite (bool_decide_true (_ = LicenceDeliveryIntent.deployment_target_ref r)) by done.
  cbn [ensure mbind res_bind].
  by rewrite (bool_decide_true (LicenceDeliveryIntent.status r = _)) by done.
Qed.

Lemma acknowledged_row db command db' v :
  wf db → acknowledge_delivery_intent db command = Ok (db', v) →
  ∃ r, r ∈ intents db' ∧ v = intent_view r ∧
    LicenceDeliveryIntent.status r = IntentStatus.value IntentStatus.ACKNOWLEDGED ∧
    LicenceDeliveryIntent.id r = AcknowledgeIntentCommand.delivery_intent_id command ∧
    LicenceDeliveryIntent.integrator_receipt_ref r =
      Some (AcknowledgeIntentCommand.integrator_receipt_ref command) ∧
    mismatches r command = [] ∧
    AcknowledgeIntentCommand.authenticated_deployment_ref command =
      LicenceDeliveryIntent.deployment_target_ref r.
Proof.
  intros Hwf (row & Hrow & Hid & Hm & Ha & [(Hs & Hrec & -> & ->)|(_ & Hc)])%acknowledge_intent_inv.
  { by exists row. }
  apply complete_intent_inv in Hc as (-> & m & ev & -> & _).
  exists (completed db row command). split_and!; try done.
  simpl. by eapply (replace_elem_new Intents).
Qed.

(** The correlation of a row is for ever. *)
Lemma correlation_kept db db' r r' :
  wf db → wf db' → evolves db db' → r ∈ intents db → r' ∈ intents db' →
  LicenceDeliveryIntent.id r' = LicenceDeliveryIntent.id r → correlation r' = correlation r.
Proof.
  intros Hwf Hwf' He Hr Hr' Hid.
  destruct (ev_correlation _ _ He) as [k Hk].
  assert (Hin : correlation r ∈ correlation <$> intents db').
  { rewrite Hk, elem_of_app. left. by apply list_elem_of_fmap_2. }
  apply list_elem_of_fmap in Hin as (x & Hx & Hxin). rewrite Hx. f_equal.
  eapply same_row; [apply Hwf'|done|done|]. unfold correlation in Hx. congruence.
Qed.

Lemma open_intent_inv db i t actor db' v :
  wf db → open_delivery_intent db i t actor = Ok (db', v) →
  ∃ issuance facts r, issuance_for_delivery db i = Ok (Some issuance) ∧
    resolve_target db t = Ok facts ∧
    DeliveryIssuanceView.subject_ref issuance = facts_customer_ref facts ∧
    (∀ b, DeliveryIssuanceView.deployment_ref issuance = Some b → b = facts_target_ref facts) ∧
    r ∈ intents db' ∧ v = intent_view r ∧
    LicenceDeliveryIntent.issuance_id r = DeliveryIssuanceView.id issuance ∧
    LicenceDeliveryIntent.deployment_target_ref r = facts_target_ref facts ∧
    owners db' = owners db ∧
    ((db' = db ∧ r ∈ intents db) ∨
     (intents db' = intents db ++ [r] ∧
      LicenceDeliveryIntent.licence_version r = DeliveryIssuanceView.version issuance ∧
      LicenceDeliveryIntent.artifact_digest r = DeliveryIssuanceView.digest issuance ∧
      LicenceDeliveryIntent.status r = IntentStatus.value IntentStatus.OPEN)).
Proof.
  intros Hwf. unfold open_delivery_intent. intros Hr. inv_res. bool_hyps.
  do 2 eexists.
  match goal with Hm : (match DeliveryIssuanceView.deployment_ref ?x with Some _ => _ | None => _ end) = true,
                  Hf : resolve_target _ _ = Ok ?f |- _ =>
    assert (Hb : ∀ b, DeliveryIssuanceView.deployment_ref x = Some b → b = facts_target_ref f)
      by (intros b Hb; rewrite Hb in Hm; by bool_hyps); clear Hm end.
  case_match; unfold draw in *; inv_res.
  - match goal with H : scalar_one_or_none _ = _ |- _ =>
      apply scalar_one_or_none_elem, list_elem_of_filter in H as [[??]?] end.
    eexists. split_and!; try done. by left.
  - match goal with H : db_add _ _ _ = _ |- _ => apply db_add_Ok in H as (-> & _) end.
    eexists. split_and!; try done; [|by right].
    simpl. rewrite elem_of_app, list_elem_of_singleton. by right.
Qed.
End intents.

(** ** The properties *)

Section properties.
Context `{MS : Modules} `{UDB : UnicodeDB} `{!FreshKeys}.

(** An intent is completed once.  A successful acknowledgement carried the
    recorded target, version and digest, and came from the recorded target; in
    every later session the same receipt is answered with the same completion
    and changes nothing, and any other receipt for that intent is refused as a
    second completion. *)
Theorem intent_completed_once db command db' v db'' again :
  wf db → acknowledge_delivery_intent db command = Ok (db', v) →
  rtc step db' db'' →
  AcknowledgeIntentCommand.delivery_intent_id again =
    AcknowledgeIntentCommand.delivery_intent_id command →
  AcknowledgeIntentCommand.deployment_target_ref again =
    AcknowledgeIntentCommand.deployment_target_ref command →
  AcknowledgeIntentCommand.licence_version again =
    AcknowledgeIntentCommand.licence_version command →
  AcknowledgeIntentCommand.artifact_digest again =
    AcknowledgeIntentCommand.artifact_digest command →
  AcknowledgeIntentCommand.authenticated_deployment_ref again =
    AcknowledgeIntentCommand.authenticated_deployment_ref command →
  DeliveryIntentView.deployment_target_ref v =
    AcknowledgeIntentCommand.deployment_target_ref command ∧
  DeliveryIntentView.licence_version v = AcknowledgeIntentCommand.licence_version command ∧
  DeliveryIntentView.artifact_digest v = AcknowledgeIntentCommand.artifact_digest command ∧
  AcknowledgeIntentCommand.authenticated_deployment_ref command =
    DeliveryIntentView.deployment_target_ref v ∧
  acknowledge_delivery_intent db'' again =
    if bool_decide (AcknowledgeIntentCommand.integrator_receipt_ref command =
                    AcknowledgeIntentCommand.integrator_receipt_ref again)
    then Ok (db'', v) else Raise (Exn ConflictError "delivery intent ").
Proof.
  intros Hwf Hr Hrtc E1 E2 E3 E4 E5.
  pose proof (wf_acknowledge_intent _ _ _ _ Hwf Hr) as Hwf'.
  destruct (acknowledged_row _ _ _ _ Hwf Hr) as (r & Hin & -> & Hs & Hid & Hrec & Hm & Ha).
  destruct (reachable_kept _ _ Hwf' Hrtc) as [Hwf'' He].
  apply (ev_completed _ _ He) in Hin; [|done].
  pose proof Hm as (H1 & H2 & H3)%mismatches_nil. split_and!; try done.
  rewrite (completed_answer _ r); try done; try congruence.
  - rewrite Hrec. by do 2 case_bool_decide; try congruence.
  - apply mismatches_nil. by rewrite E2, E3, E4.
Qed.

(** The artifact an intent hands out is the one it was opened for.  Opening
    takes every correlation fact from its owner, refuses another customer's
    target and a document bound elsewhere, and repeats itself without a second
    row; in any later session, reading the artifact of that intent yields the
    envelope of its issuance under the digest recorded at opening, or fails. *)
Theorem artifact_as_opened db i t actor db' v db'' actor' db3 a :
  wf db → open_delivery_intent db i t actor = Ok (db', v) → rtc step db' db'' →
  read_exact_artifact db'' (DeliveryIntentView.delivery_intent_id v) actor' = Ok (db3, a) →
  (∃ issuance facts, issuance_for_delivery db i = Ok (Some issuance) ∧
     resolve_target db t = Ok facts ∧
     DeliveryIssuanceView.subject_ref issuance = facts_customer_ref facts ∧
     (∀ b, DeliveryIssuanceView.deployment_ref issuance = Some b → b = facts_target_ref facts) ∧
     DeliveryIntentView.issuance_id v = DeliveryIssuanceView.id issuance ∧
     DeliveryIntentView.deployment_target_ref v = facts_target_ref facts ∧
     (db' = db ∨
      DeliveryIntentView.licence_version v = DeliveryIssuanceView.version issuance ∧
      DeliveryIntentView.artifact_digest v = DeliveryIssuanceView.digest issuance)) ∧
  open_delivery_intent db' i t actor = Ok (db', v) ∧
  ExactArtifact.artifact_digest a = DeliveryIntentView.artifact_digest v ∧
  ∃ issuance, issuance_for_delivery db'' (DeliveryIntentView.issuance_id v) = Ok (Some issuance) ∧
    DeliveryIssuanceView.digest issuance = DeliveryIntentView.artifact_digest v ∧
    ExactArtifact.envelope a = DeliveryIssuanceView.envelope issuance.
Proof.
  intros Hwf Ho Hrtc Hread. pose proof (wf_open_intent _ _ _ _ _ _ Hwf Ho) as Hwf'.
  destruct (open_intent_inv _ _ _ _ _ _ Hwf Ho)
    as (issuance & facts & r & Hi & Hf & Hc & Hb & Hr & -> & Hri & Hrt & How & Hcase).
  destruct (reachable_kept _ _ Hwf' Hrtc) as [Hwf'' He].
  split_and!.
  - exists issuance, facts. split_and!; try done.
    destruct Hcase as [[-> _]|(_ & H1 & H2 & _)]; [by left|by right].
  - unfold open_delivery_intent.
    replace (issuance_for_delivery db' i) with (issuance_for_delivery db i)
      by (unfold issuance_for_delivery; by rewrite How).
    replace (resolve_target db' t) with (resolve_target db t)
      by (unfold resolve_target; by rewrite How).
    rewrite Hi. cbn [mbind res_bind of_option]. rewrite Hf. cbn [mbind res_bind].
    rewrite bool_decide_true by done. cbn [ensure mbind res_bind].
    destruct (DeliveryIssuanceView.deployment_ref issuance) as [b|];
      [rewrite (Hb b eq_refl), bool_decide_true by done|]; cbn [ensure mbind res_bind].
    all: rewrite (list_filter_iff _
      (λ x, LicenceDeliveryIntent.ukey x = LicenceDeliveryIntent.ukey r));
      [|intros x; unfold LicenceDeliveryIntent.ukey; rewrite Hri, Hrt; split;
        [by intros [-> ->]|by intros [= -> ->]]].
    all: by rewrite (filter_key_one LicenceDeliveryIntent.ukey) by (done || apply Hwf').
  - revert Hread. unfold read_exact_artifact, _intent. intros Hread. inv_res. bool_hyps.
    match goal with H : db_get _ _ _ = Some ?x |- _ =>
      apply db_get_Some in H as [Hx Hid];
      pose proof (correlation_kept _ _ r x Hwf' Hwf'' He Hr Hx Hid) as Hcor end.
    unfold correlation in Hcor. simpl in *. congruence.
  - revert Hread. unfold read_exact_artifact, _intent. intros Hread. inv_res. bool_hyps.
    match goal with H : db_get _ _ _ = Some ?x |- _ =>
      apply db_get_Some in H as [Hx Hid];
      pose proof (correlation_kept _ _ r x Hwf' Hwf'' He Hr Hx Hid) as Hcor end.
    unfold correlation in Hcor. injection Hcor as _ Hc1 _ Hc2 _. simpl in *. rewrite <- Hc1, <- Hc2.
    eexists. split_and!; done.
Qed.
End properties.

(** ** Witnesses *)

Definition demo_opened : Session := unwrap (open_delivery_intent demo_empty 100 5 None).
Definition demo_complete (receipt : pystr) : AcknowledgeIntentCommand.t :=
  {| AcknowledgeIntentCommand.delivery_intent_id := 1000;
     AcknowledgeIntentCommand.deployment_target_ref := lit "site-1";
     AcknowledgeIntentCommand.licence_version := 1;
     AcknowledgeIntentCommand.artifact_digest := lit "d1";
     AcknowledgeIntentCommand.integrator_receipt_ref := receipt;
     AcknowledgeIntentCommand.authenticated_deployment_ref := lit "site-1";
     AcknowledgeIntentCommand.outcome := lit "applied";
     AcknowledgeIntentCommand.reason := None;
     AcknowledgeIntentCommand.reported_at := Some 3;
     AcknowledgeIntentCommand.actor_admin_id := None |}.

Lemma demo_opened_wf : wf demo_opened.
Proof.
  eapply step_wf; [exact demo_empty_wf|].
  eapply (step_open_intent demo_empty 100 5 None). vm_compute. reflexivity.
Qed.

Lemma intent_completed_once_witness :
  ∃ db' v, acknowledge_delivery_intent demo_opened (demo_complete (lit "r1")) = Ok (db', v) ∧
    acknowledge_delivery_intent db' (demo_complete (lit "r1")) = Ok (db', v) ∧
    acknowledge_delivery_intent db' (demo_complete (lit "r2")) =
      Raise (Exn ConflictError "delivery intent ").
Proof.
  destruct (acknowledge_delivery_intent demo_opened (demo_complete (lit "r1"))) as [[db' v]|e] eqn:Hr;
    [|by vm_compute in Hr].
  exists db', v. split; [reflexivity|]. split.
  - apply (intent_completed_once demo_opened (demo_complete (lit "r1")) db' v db'
      (demo_complete (lit "r1")) demo_opened_wf Hr); reflexivity.
  - apply (intent_completed_once demo_opened (demo_complete (lit "r1")) db' v db'
      (demo_complete (lit "r2")) demo_opened_wf Hr); reflexivity.
Defined.

Lemma artifact_as_opened_witness :
  ∃ v a db3, read_exact_artifact demo_opened 1000 None = Ok (db3, a) ∧
    open_delivery_intent demo_opened 100 5 None = Ok (demo_opened, v) ∧
    ExactArtifact.artifact_digest a = DeliveryIntentView.artifact_digest v.
Proof.
  destruct (open_delivery_intent demo_empty 100 5 None) as [[db' v]|e] eqn:Ho; [|by vm_compute in Ho].
  destruct (read_exact_artifact demo_opened 1000 None) as [[db3 a]|e] eqn:Hr; [|by vm_compute in Hr].
  exists v, a, db3. split; [reflexivity|].
  destruct (artifact_as_opened demo_empty 100 5 None demo_opened v demo_opened None db3 a)
    as (_ & Hopen & Hdig & _).
  - exact demo_empty_wf.
  - unfold demo_opened. rewrite Ho. reflexivity.
  - reflexivity.
  - vm_compute in Ho. injection Ho as _ <-. exact Hr.
  - split; [exact Hopen|exact Hdig].
Defined.
