(* ===== verification/PipelineHealth.v ===== *)
(** * Operational signals of the licence pipeline

    [licensing/delivery_ops.py].  Times are instants in microseconds (a naive
    column value is read in the zone of [now]); [GROUP BY] returns its groups
    in an order of the database's choosing, the argument [group_order]. *)

From S2P Require Import Prelude PyText PyUuid Json Tables DeliveryStore Projection Transport SourcePorts DeliverySafety DeliveryHistory.

#[local] Open Scope Z_scope.

Definition DEFAULT_ACK_SLA : Z := 24 * 3600 * 1000000.
Definition DEFAULT_ACK_WINDOW : Z := 24 * 3600 * 1000000.

Module LicencePipelineHealth.
Record t := Health {
  never_attempted : nat;
  attempted_never_sent : nat;
  sent_unacknowledged : nat;
  oldest_unacknowledged_age_seconds : option Z;
  parked_total : nat;
  rejected_by_reason : list (pystr * nat);
  unknown_digest_acks : nat;
  unknown_licence_acks : nat;
  deployment_mismatch_acks : nat;
  unverified_identity_acks : nat;
  latest_revocation_list_version : option Z;
  keyring_uptake_lag_measurable : bool;
  revocation_application_lag_measurable : bool;
}.
Definition critical_acks (h : t) : nat :=
  unknown_digest_acks h + unknown_licence_acks h + deployment_mismatch_acks h.
Definition unacknowledged_total (h : t) : nat :=
  never_attempted h + attempted_never_sent h + sent_unacknowledged h.
End LicencePipelineHealth.

Definition revocation_application_lag_supported : bool := false.
Definition keyring_uptake_lag_supported : bool := false.

(** [a <= b] and [a >= b] on a nullable column: NULL is not true. *)
Definition col_le (a : option Z) (b : Z) : Prop := match a with Some x => x ≤ b | None => False end.
Definition col_ge (a : option Z) (b : Z) : Prop := match a with Some x => b ≤ x | None => False end.
#[export] Instance col_le_dec a b : Decision (col_le a b).
Proof. destruct a; unfold col_le, col_ge; apply _. Defined.
#[export] Instance col_ge_dec a b : Decision (col_ge a b).
Proof. destruct a; unfold col_le, col_ge; apply _. Defined.

(** [SELECT key, count( * ) ... GROUP BY key], in order of first appearance. *)
Fixpoint group_count {K} `{EqDecision K} (l : list K) : list (K * nat) :=
  match l with
  | [] => []
  | k :: l =>
      let d := group_count l in
      (k, S (default 0%nat (dict_get d k))) :: filter (λ p, p.1 ≠ k) d
  end.

Section health.
Context `{MS : Modules}.
Implicit Types (db : Session).

(** Not acknowledged, not parked, and staged before the cutoff. *)
Definition overdue db (cutoff : Z) : list LicenceDelivery.t :=
  (filter (λ p, LicenceDeliveryState.state p.2 ≠ DeliveryState.value DeliveryState.ACTIVE ∧
                LicenceDeliveryState.state p.2 ≠ DeliveryState.value DeliveryState.PARKED ∧
                col_le (LicenceDelivery.created_at p.1) cutoff) (joined db)).*1.

Definition total_attempts db (delivery_id : uuid) : nat :=
  count_if (λ r, LicenceDeliveryAttempt.delivery_id r = delivery_id) (attempts db).
Definition sent_attempts db (delivery_id : uuid) : nat :=
  count_if (λ r, LicenceDeliveryAttempt.delivery_id r = delivery_id ∧
                 (LicenceDeliveryAttempt.outcome r = AttemptOutcome.value AttemptOutcome.SENT ∨
                  LicenceDeliveryAttempt.outcome r = AttemptOutcome.value AttemptOutcome.EXPORTED))
    (attempts db).

(** The loop over the overdue deliveries. *)
Record ageing := Ageing { never : nat; unsent : nat; unacked : nat; oldest : option Z }.
Definition age_one db (now : Z) (acc : ageing) (d : LicenceDelivery.t) : ageing :=
  let acc :=
    if bool_decide (total_attempts db (LicenceDelivery.id d) = 0%nat)
    then Ageing (S (never acc)) (unsent acc) (unacked acc) (oldest acc)
    else if bool_decide (sent_attempts db (LicenceDelivery.id d) = 0%nat)
    then Ageing (never acc) (S (unsent acc)) (unacked acc) (oldest acc)
    else Ageing (never acc) (unsent acc) (S (unacked acc)) (oldest acc) in
  match LicenceDelivery.created_at d with
  | None => acc
  | Some reference =>
      let age := Z.quot (now - reference) 1000000 in
      Ageing (never acc) (unsent acc) (unacked acc)
        (Some (match oldest acc with None => age | Some o => Z.max o age end))
  end.

(** [SELECT reason, count( * ) ... WHERE disposition = 'rejected_by_receiver'
    AND created_at >= cutoff GROUP BY reason]. *)
Definition rejected_rows db (ack_cutoff : Z) : list (option pystr * nat) :=
  group_count (LicenceAckRecord.reason <$>
    filter (λ r, LicenceAckRecord.disposition r =
                   AckDisposition.value AckDisposition.REJECTED_BY_RECEIVER ∧
                 col_ge (LicenceAckRecord.created_at r) ack_cutoff) (acks db)).

(** [reason or "unspecified"]. *)
Definition reason_key (reason : option pystr) : pystr :=
  match reason with
  | None | Some [] => lit "unspecified"
  | Some s => s
  end.
Definition rejected_by_reason_of (groups : list (option pystr * nat)) : list (pystr * nat) :=
  foldl (λ d g, dict_set d (reason_key g.1) g.2) [] groups.

Definition _count db (ack_cutoff : Z) (disposition : AckDisposition.t) : nat :=
  count_if (λ r, LicenceAckRecord.disposition r = AckDisposition.value disposition ∧
                 col_ge (LicenceAckRecord.created_at r) ack_cutoff) (acks db).

Definition pipeline_health
    (group_order : list (option pystr * nat) → list (option pystr * nat))
    db (now ack_sla ack_window : Z) : LicencePipelineHealth.t :=
  let cutoff := now - ack_sla in
  let ack_cutoff := now - ack_window in
  let parked_total :=
    count_if (λ st, LicenceDeliveryState.state st = DeliveryState.value DeliveryState.PARKED)
      (states db) in
  let a := foldl (age_one db now) (Ageing 0 0 0 None) (overdue db cutoff) in
  let rejected := rejected_by_reason_of (group_order (rejected_rows db ack_cutoff)) in
  {| LicencePipelineHealth.never_attempted := never a;
     LicencePipelineHealth.attempted_never_sent := unsent a;
     LicencePipelineHealth.sent_unacknowledged := unacked a;
     LicencePipelineHealth.oldest_unacknowledged_age_seconds := oldest a;
     LicencePipelineHealth.parked_total := parked_total;
     LicencePipelineHealth.rejected_by_reason := rejected;
     LicencePipelineHealth.unknown_digest_acks := _count db ack_cutoff AckDisposition.UNKNOWN_DIGEST;
     LicencePipelineHealth.unknown_licence_acks := _count db ack_cutoff AckDisposition.UNKNOWN_LICENCE;
     LicencePipelineHealth.deployment_mismatch_acks :=
       _count db ack_cutoff AckDisposition.DEPLOYMENT_MISMATCH;
     LicencePipelineHealth.unverified_identity_acks :=
       _count db ack_cutoff AckDisposition.UNVERIFIED_IDENTITY;
     LicencePipelineHealth.latest_revocation_list_version := latest_revocation_list_version db;
     LicencePipelineHealth.keyring_uptake_lag_measurable := keyring_uptake_lag_supported;
     LicencePipelineHealth.revocation_application_lag_measurable :=
       revocation_application_lag_supported |}.

(** ** Lemmas *)

(** The three ageing classes of an overdue delivery. *)
Definition never_tried db (d : LicenceDelivery.t) : Prop :=
  ∀ a, a ∈ attempts db → LicenceDeliveryAttempt.delivery_id a ≠ LicenceDelivery.id d.
Definition handed_off db (d : LicenceDelivery.t) : Prop :=
  ∃ a, a ∈ attempts db ∧ LicenceDeliveryAttempt.delivery_id a = LicenceDelivery.id d ∧
    (LicenceDeliveryAttempt.outcome a = AttemptOutcome.value AttemptOutcome.SENT ∨
     LicenceDeliveryAttempt.outcome a = AttemptOutcome.value AttemptOutcome.EXPORTED).

Lemma count_if_zero_iff {A} (P : A → Prop) `{!∀ x, Decision (P x)} l :
  count_if P l = 0%nat ↔ ∀ x, x ∈ l → ¬ P x.
Proof.
  split; [|apply count_if_zero]. unfold count_if. intros Hl x Hx HP.
  apply length_zero_iff_nil in Hl. assert (Hin : x ∈ filter P l) by (by apply list_elem_of_filter).
  rewrite Hl in Hin. by apply elem_of_nil in Hin.
Qed.

Lemma never_tried_iff db d : never_tried db d ↔ total_attempts db (LicenceDelivery.id d) = 0%nat.
Proof. unfold never_tried, total_attempts. by rewrite count_if_zero_iff. Qed.
Lemma handed_off_iff db d : handed_off db d ↔ sent_attempts db (LicenceDelivery.id d) ≠ 0%nat.
Proof.
  unfold handed_off, sent_attempts. rewrite count_if_zero_iff. split.
  - intros (a & Ha & Hd & Ho) Hn. by apply (Hn a).
  - intros Hn. destruct (decide (Exists (λ a, LicenceDeliveryAttempt.delivery_id a = LicenceDelivery.id d ∧
      (LicenceDeliveryAttempt.outcome a = AttemptOutcome.value AttemptOutcome.SENT ∨
       LicenceDeliveryAttempt.outcome a = AttemptOutcome.value AttemptOutcome.EXPORTED)) (attempts db)))
      as [He|He].
    + apply Exists_exists in He as (a & ? & ? & ?). by exists a.
    + exfalso. apply Hn. intros a Ha HP. apply He, Exists_exists. eauto.
Qed.
#[export] Instance never_tried_dec db d : Decision (never_tried db d).
Proof.
  refine (cast_if (decide (total_attempts db (LicenceDelivery.id d) = 0%nat)));
    by rewrite never_tried_iff.
Defined.
#[export] Instance handed_off_dec db d : Decision (handed_off db d).
Proof.
  refine (cast_if (decide (sent_attempts db (LicenceDelivery.id d) ≠ 0%nat)));
    by rewrite handed_off_iff.
Defined.

(** The age of the oldest, over deliveries that all have a time. *)
Lemma ageing_fold db now l acc :
  let r := foldl (age_one db now) acc l in
  (never r = never acc + count_if (never_tried db) l ∧
   unsent r = unsent acc + count_if (λ d, ¬ never_tried db d ∧ ¬ handed_off db d) l ∧
   unacked r = unacked acc + count_if (λ d, ¬ never_tried db d ∧ handed_off db d) l)%nat.
Proof.
  revert acc. induction l as [|d l IH]; intros acc; cbn [foldl].
  { rewrite !count_if_nil. simpl. lia. }
  destruct (IH (age_one db now acc d)) as (H1 & H2 & H3). cbv zeta. rewrite H1, H2, H3. clear.
  rewrite !count_if_cons. unfold age_one. cbv zeta.
  pose proof (never_tried_iff db d) as Hn. pose proof (handed_off_iff db d) as Hh.
  repeat case_decide; repeat case_bool_decide; destruct (LicenceDelivery.created_at d); simpl;
    try lia; tauto.
Qed.

Definition age_of (now : Z) (d : LicenceDelivery.t) : option Z :=
  (λ t, Z.quot (now - t) 1000000) <$> LicenceDelivery.created_at d.

Lemma oldest_fold db now l acc :
  let r := oldest (foldl (age_one db now) acc l) in
  (∀ a, oldest acc = Some a → ∃ b, r = Some b ∧ a ≤ b) ∧
  (∀ d a, d ∈ l → age_of now d = Some a → ∃ b, r = Some b ∧ a ≤ b) ∧
  (∀ b, r = Some b → oldest acc = Some b ∨ ∃ d, d ∈ l ∧ age_of now d = Some b).
Proof.
  revert acc. induction l as [|d l IH]; intros acc; cbn [foldl].
  { split_and!; [eauto using Z.le_refl| |eauto]. intros d a Hd. by apply elem_of_nil in Hd. }
  destruct (IH (age_one db now acc d)) as (H1 & H2 & H3). clear IH. cbv zeta.
  set (r := oldest (foldl _ _ l)) in *.
  assert (Hold : oldest (age_one db now acc d) =
    match LicenceDelivery.created_at d with
    | None => oldest acc
    | Some t => Some (match oldest acc with
                      | None => Z.quot (now - t) 1000000
                      | Some o => Z.max o (Z.quot (now - t) 1000000)
                      end)
    end).
  { unfold age_one. cbv zeta. repeat case_bool_decide; by destruct (LicenceDelivery.created_at d). }
  rewrite Hold in H1, H3. clear Hold. unfold age_of in *. split_and!.
  - intros a Ha. rewrite Ha in H1. destruct (LicenceDelivery.created_at d) as [t|].
    + destruct (H1 _ eq_refl) as (b & -> & Hb). exists b. split; [done|lia].
    + by apply H1.
  - intros x a [->|Hx]%elem_of_cons Ha; [|by eapply H2].
    destruct (LicenceDelivery.created_at d) as [t|]; simpl in Ha; [|done]. injection Ha as <-.
    destruct (H1 _ eq_refl) as (b & -> & Hb). exists b. split; [done|].
    destruct (oldest acc); lia.
  - intros b Hb. destruct (H3 b Hb) as [Ho|(x & Hx & Ha)].
    + destruct (LicenceDelivery.created_at d) as [t|] eqn:Ht; [|by left].
      destruct (oldest acc) as [o|].
      * injection Ho as Ho. destruct (Z.max_spec o (Z.quot (now - t) 1000000)) as [[_ Hm]|[_ Hm]].
        -- right. exists d. rewrite Ht. split; [by left|]. simpl. congruence.
        -- left. congruence.
      * right. exists d. rewrite Ht. split; [by left|]. exact Ho.
    + right. exists x. split; [by right|done].
Qed.

Lemma overdue_elem db cutoff d :
  d ∈ overdue db cutoff ↔
  d ∈ deliveries db ∧ col_le (LicenceDelivery.created_at d) cutoff ∧
  ∃ st, st ∈ states db ∧ LicenceDeliveryState.delivery_id st = LicenceDelivery.id d ∧
    LicenceDeliveryState.state st ≠ DeliveryState.value DeliveryState.ACTIVE ∧
    LicenceDeliveryState.state st ≠ DeliveryState.value DeliveryState.PARKED.
Proof.
  unfold overdue. rewrite list_elem_of_fmap. split.
  - intros ([d' st] & -> & [(? & ? & ?) (? & ? & ?)%elem_of_joined]%list_elem_of_filter). eauto 10.
  - intros (Hd & Hc & st & Hst & Hid & H1 & H2). exists (d, st). split; [done|].
    apply list_elem_of_filter. split; [done|]. by apply elem_of_joined.
Qed.

(** *** Reasons *)

Lemma dict_get_filter_ne {K V} `{EqDecision K} (d : list (K * V)) k k' :
  k ≠ k' → dict_get (filter (λ p, p.1 ≠ k') d) k = dict_get d k.
Proof.
  intros Hk. induction d as [|[x v] d IH]; [done|]. rewrite filter_cons. simpl.
  case_decide; simpl; rewrite IH; [done|]. rewrite bool_decide_false; [done|]. naive_solver.
Qed.

Lemma group_count_get {K} `{EqDecision K} (l : list K) k :
  dict_get (group_count l) k =
    if decide (k ∈ l) then Some (count_if (λ x, x = k) l) else None.
Proof.
  induction l as [|x l IH]; cbn [group_count dict_get].
  { case_decide as Hk; [by apply elem_of_nil in Hk|done]. }
  rewrite count_if_cons. case_bool_decide as Hkx.
  - subst x. rewrite IH. repeat case_decide; try (exfalso; rewrite ?elem_of_cons in *; tauto).
    + done.
    + simpl. rewrite count_if_zero; [done|]. by intros y Hy ->.
  - rewrite dict_get_filter_ne, IH by done.
    repeat case_decide; try done; exfalso; rewrite ?elem_of_cons in *; naive_solver.
Qed.

Lemma group_count_keys {K} `{EqDecision K} (l : list K) : NoDup (group_count l).*1.
Proof.
  induction l as [|x l IH]; csimpl; [constructor|]. apply NoDup_cons. split.
  - intros (p & Hp & [Hne _]%list_elem_of_filter)%list_elem_of_fmap. congruence.
  - eapply sublist_NoDup; [exact IH|]. apply fmap_sublist, sublist_filter.
Qed.

(** A key of one group alone keeps that group's count. *)
Lemma rejected_get (groups : list (option pystr * nat)) reason n acc :
  NoDup groups.*1 → (reason, n) ∈ groups →
  (∀ r, reason_key r = reason_key reason → r = reason) →
  dict_get (foldl (λ d g, dict_set d (reason_key g.1) g.2) acc groups) (reason_key reason) = Some n.
Proof.
  intros Hnd Hin Hone. revert acc. induction groups as [|[r m] groups IH] using rev_ind; intros acc.
  { by apply elem_of_nil in Hin. }
  rewrite foldl_app. simpl. rewrite dict_get_set.
  rewrite fmap_app in Hnd. apply NoDup_app in Hnd as (Hnd & Hdis & _). csimpl in Hdis.
  apply elem_of_app in Hin as [Hin|Hin%list_elem_of_singleton].
  - rewrite bool_decide_false; [by apply IH|]. intros Hk. symmetry in Hk. apply Hone in Hk as ->.
    apply (Hdis reason); [|by left]. by apply (list_elem_of_fmap_2 fst) in Hin.
  - injection Hin as -> ->. by rewrite bool_decide_true.
Qed.

Lemma rejected_absent (groups : list (option pystr * nat)) k acc :
  (∀ r n, (r, n) ∈ groups → reason_key r ≠ k) →
  dict_get (foldl (λ d g, dict_set d (reason_key g.1) g.2) acc groups) k = dict_get acc k.
Proof.
  revert acc. induction groups as [|[r m] groups IH]; intros acc Hk; [done|]. simpl.
  rewrite IH, dict_get_set by (intros; eapply Hk; by right).
  rewrite bool_decide_false; [done|]. intros ->. apply (Hk r m); [by left|done].
Qed.

Lemma reason_key_named k r :
  k ≠ lit "unspecified" → k ≠ [] → reason_key r = k → r = Some k.
Proof. unfold reason_key. destruct r as [[|c s]|]; naive_solver. Qed.

Definition quarantined_row (r : LicenceAckRecord.t) : Prop :=
  LicenceAckRecord.disposition r ∈ AckDisposition.value <$>
    filter (λ d, AckDisposition.is_quarantined d = true) AckDisposition.members.
End health.

(** ** The property *)

Section properties.
Context `{MS : Modules}.

(** What the health report says of the pipeline.  The three ageing counts
    split the overdue deliveries exactly: nothing was ever tried, attempts but
    no real handoff ([simulated] is none), or handed off and unacknowledged;
    the reported age is that of the oldest.  The paging number counts exactly
    the quarantined acknowledgements of the window, and each named rejection
    reason counts exactly the rejections of the window that gave it. *)
Theorem health_signals group_order db now sla window :
  (∀ l, group_order l ≡ₚ l) →
  let h := pipeline_health group_order db now sla window in
  let late := overdue db (now - sla) in
  LicencePipelineHealth.never_attempted h = count_if (never_tried db) late ∧
  LicencePipelineHealth.attempted_never_sent h =
    count_if (λ d, ¬ never_tried db d ∧ ¬ handed_off db d) late ∧
  LicencePipelineHealth.sent_unacknowledged h =
    count_if (λ d, ¬ never_tried db d ∧ handed_off db d) late ∧
  LicencePipelineHealth.unacknowledged_total h = length late ∧
  (∀ d, d ∈ late → ∃ a b, age_of now d = Some a ∧
     LicencePipelineHealth.oldest_unacknowledged_age_seconds h = Some b ∧ a ≤ b) ∧
  (∀ b, LicencePipelineHealth.oldest_unacknowledged_age_seconds h = Some b →
     ∃ d, d ∈ late ∧ age_of now d = Some b) ∧
  LicencePipelineHealth.critical_acks h =
    count_if (λ r, quarantined_row r ∧ col_ge (LicenceAckRecord.created_at r) (now - window))
      (acks db) ∧
  (∀ k, k ≠ lit "unspecified" → k ≠ [] →
     dict_get (LicencePipelineHealth.rejected_by_reason h) k =
       let n := count_if (λ r, LicenceAckRecord.reason r = Some k ∧
         LicenceAckRecord.disposition r =
           AckDisposition.value AckDisposition.REJECTED_BY_RECEIVER ∧
         col_ge (LicenceAckRecord.created_at r) (now - window)) (acks db) in
       if bool_decide (n = 0%nat) then None else Some n).
Proof.
  intros Hord h late.
  destruct (ageing_fold db now late (Ageing 0 0 0 None)) as (H1 & H2 & H3).
  destruct (oldest_fold db now late (Ageing 0 0 0 None)) as (_ & H4 & H5).
  split_and!; [exact H1|exact H2|exact H3| | | | |].
  - unfold LicencePipelineHealth.unacknowledged_total, h, pipeline_health. cbv zeta. simpl.
    fold late. rewrite H1, H2, H3. simpl. clear. induction late as [|d l IH]; [done|].
    rewrite !count_if_cons. simpl.
    destruct (decide (handed_off db d)); repeat case_decide; first [lia|tauto].
  - intros d Hd. pose proof Hd as (_ & Hc & _)%overdue_elem.
    destruct (LicenceDelivery.created_at d) as [t|] eqn:Ht; [|done].
    assert (Ha : age_of now d = Some (Z.quot (now - t) 1000000)) by (unfold age_of; by rewrite Ht).
    destruct (H4 d _ Hd Ha) as (b & Hb & Hle). eauto.
  - intros b Hb. by destruct (H5 b Hb) as [|?].
  - unfold LicencePipelineHealth.critical_acks, h, pipeline_health, _count. cbv zeta. simpl.
    induction (acks db) as [|r l IH]; [done|]. rewrite !count_if_cons, <- IH. clear.
    assert (Hq : quarantined_row r ↔
      LicenceAckRecord.disposition r = AckDisposition.value AckDisposition.UNKNOWN_LICENCE ∨
      LicenceAckRecord.disposition r = AckDisposition.value AckDisposition.UNKNOWN_DIGEST ∨
      LicenceAckRecord.disposition r = AckDisposition.value AckDisposition.DEPLOYMENT_MISMATCH).
    { unfold quarantined_row. rewrite list_elem_of_fmap. split.
      - intros (d & Hd & [Hdq _]%list_elem_of_filter). rewrite Hd. destruct d; naive_solver.
      - intros [Hd|[Hd|Hd]]; rewrite Hd; eexists; (split; [reflexivity|]);
          by apply (bool_decide_unpack _). }
    destruct (decide (col_ge (LicenceAckRecord.created_at r) (now - window)));
      repeat case_decide; try lia; exfalso;
      repeat match goal with H : _ ∧ _ |- _ => destruct H end;
      try match goal with H1 : LicenceAckRecord.disposition r = _,
                          H2 : LicenceAckRecord.disposition r = _ |- _ =>
        rewrite H1 in H2; by vm_compute in H2 end; tauto.
  - intros k Hk Hk0. cbv zeta. unfold h, pipeline_health. cbv zeta. simpl.
    set (rows := rejected_rows db (now - window)).
    set (n := count_if _ (acks db)).
    assert (Hn : n = count_if (λ x, x = Some k) (LicenceAckRecord.reason <$>
      filter (λ r, LicenceAckRecord.disposition r =
                   AckDisposition.value AckDisposition.REJECTED_BY_RECEIVER ∧
                 col_ge (LicenceAckRecord.created_at r) (now - window)) (acks db))).
    { rewrite count_if_fmap, list_filter_filter. done. }
    assert (Hget : dict_get rows (Some k) = if bool_decide (n = 0%nat) then None else Some n).
    { unfold rows, rejected_rows. rewrite group_count_get, <- Hn. case_decide as Hin.
      - rewrite bool_decide_false; [done|]. rewrite Hn, count_if_zero_iff. intros Hz.
        by apply (Hz _ Hin).
      - rewrite bool_decide_true; [done|]. rewrite Hn. apply count_if_zero. by intros x Hx ->. }
    assert (Hnd : NoDup rows.*1) by apply group_count_keys.
    unfold rejected_by_reason_of. case_bool_decide as Hz.
    + rewrite rejected_absent; [done|]. intros r m Hrm. rewrite Hord in Hrm.
      intros ->%reason_key_named; [|done|done]. apply dict_get_None in Hget. apply Hget.
      by apply (list_elem_of_fmap_2 fst) in Hrm.
    + assert (Hkk : reason_key (Some k) = k) by (destruct k; done).
      rewrite <- Hkk at 1. apply rejected_get.
      * by rewrite Hord.
      * rewrite Hord. by apply dict_get_Some.
      * rewrite Hkk. intros r Hr. by apply reason_key_named.
Qed.
End properties.

(** ** Witness *)

Lemma health_signals_witness :
  LicencePipelineHealth.unacknowledged_total
    (pipeline_health (λ l, l) demo_staged 100 0 1000) =
  length (overdue demo_staged 100).
Proof.
  assert (Hord : ∀ l : list (option pystr * nat), l ≡ₚ l) by done.
  destruct (health_signals (λ l, l) demo_staged 100 0 1000 Hord) as (_ & _ & _ & H & _).
  exact H.
Defined.

Example demo_staged_overdue : length (overdue demo_staged 100) = 1%nat.
Proof. vm_compute. reflexivity. Qed.

(** Rejections without a reason, with an empty one, and with the reason
    [unspecified] share one key of the report: the last group read wins and the
    other counts are lost. *)
Definition demo_rejection (i : uuid) (reason : option pystr) : LicenceAckRecord.t :=
  LicenceAckRecord.Row i None (lit "x") 1 (lit "d") (lit "rejected") reason None None
    (lit "rejected_by_receiver") (Some 50).
Definition demo_rejections : Session :=
  set_acks [demo_rejection 1 None; demo_rejection 2 None; demo_rejection 3 (Some [])] demo_empty.
Example rejections_lost :
  rejected_rows demo_rejections 0 = [(None, 2%nat); (Some [], 1%nat)] ∧
  LicencePipelineHealth.rejected_by_reason (pipeline_health (λ l, l) demo_rejections 100 0 100) =
    [(lit "unspecified", 1%nat)].
Proof. vm_compute. done. Qed.
