(* ===== verification/RelayStore.v ===== *)
(** * The relay's tables, and a composition to run the relay on

    The rows of [relay/models.py], [relay/withdrawal_outcomes.py] and
    [deployment/issuer_receipts.py], with the database constraints of their
    migrations, and the session the relay's functions run in.  The kernel's
    outbox rows are read as far as the code reads them.  The kernel and the
    modules composed beside this code are the class [RelayModules].

    Then a small Deployment Control (one plan, its issued authorizations) and a
    small Commercial Agreements (one recorded withdrawal or none): the concrete
    instance of [RelayModules], and a session, at which the properties of the
    relay are exercised. *)

From S2P Require Import Prelude PyText PyUuid Json Tables.

#[local] Open Scope Z_scope.

(** ** Stored vocabularies *)

Module WithdrawalDisposition.
Inductive t :=
  | APPLIED | ALREADY_APPLIED | NOT_CARRIED | CANCELLED_BEFORE_EXECUTION
  | SUPERSEDED_BY_REVOCATION | SECURITY_CONFLICT.
Definition value (x : t) : pystr :=
  match x with
  | APPLIED => lit "applied"
  | ALREADY_APPLIED => lit "already_applied"
  | NOT_CARRIED => lit "not_carried"
  | CANCELLED_BEFORE_EXECUTION => lit "cancelled_before_execution"
  | SUPERSEDED_BY_REVOCATION => lit "superseded_by_revocation"
  | SECURITY_CONFLICT => lit "security_conflict"
  end.
Definition members : list t :=
  [APPLIED; ALREADY_APPLIED; NOT_CARRIED; CANCELLED_BEFORE_EXECUTION;
   SUPERSEDED_BY_REVOCATION; SECURITY_CONFLICT].
#[global] Instance t_eq_dec : EqDecision t.
Proof. solve_decision. Defined.
(** [WithdrawalDisposition(text)]. *)
Definition parse (s : pystr) : res t :=
  of_option (first_such (λ x, bool_decide (value x = s)) members)
    (Exn ValueError " is not a valid WithdrawalDisposition").
Lemma parse_value x : parse (value x) = Ok x.
Proof. by destruct x. Qed.
Lemma value_inj x y : value x = value y → x = y.
Proof. destruct x, y; intros H; try done; vm_compute in H; discriminate. Qed.
End WithdrawalDisposition.

Module WithdrawalResolution.
Inductive t := DISMISSED | REDRIVEN.
Definition value (x : t) : pystr :=
  match x with DISMISSED => lit "dismissed" | REDRIVEN => lit "redriven" end.
#[global] Instance t_eq_dec : EqDecision t.
Proof. solve_decision. Defined.
End WithdrawalResolution.

(** ** Rows *)

Module RelayHeartbeat.
Record t := Row {
  worker_id : pystr;
  started_at : Z;
  last_polled_at : Z;
  last_claimed_at : option Z;
}.
End RelayHeartbeat.

(** The kernel's outbox row, as far as it is read. *)
Module PlatformOutboxEvent.
Record t := Row {
  event_type : pystr;
  status : pystr;
  available_at : Z;
  leased_at : option Z;
  attempts : Z;
  sent_at : option Z;
}.
End PlatformOutboxEvent.

Module ApprovalWithdrawalOutcome.
Record t := Row {
  id : uuid;
  event_id : uuid;
  payload_digest : pystr;
  event_type : pystr;
  subject_type : pystr;
  subject_id : pystr;
  approval_request_id : option uuid;
  plan_id : option uuid;
  agreement_id : option uuid;
  withdrawal_ref : option pystr;
  disposition : pystr;
  reason_code : pystr;
  evidence : dict;
  recorded_at : Z;
}.
(** [uq_approval_withdrawal_outcomes_event_digest]. *)
Definition ukey (r : t) : uuid * pystr := (event_id r, payload_digest r).
Definition is_conflict (r : t) : bool :=
  bool_decide (disposition r = WithdrawalDisposition.value WithdrawalDisposition.SECURITY_CONFLICT).
End ApprovalWithdrawalOutcome.

Module ApprovalWithdrawalConflictResolution.
Record t := Row {
  id : uuid;
  outcome_id : uuid;
  resolution : pystr;
  actor_ref : pystr;
  reason : pystr;
  redrive_ref : option pystr;
  recorded_at : Z;
}.
End ApprovalWithdrawalConflictResolution.

Module IssuerCommandReceipt.
Record t := Row {
  id : uuid;
  command_id : pystr;
  verb : pystr;
  request_fingerprint : pystr;
  plan_id : uuid;
  approval_request_id : uuid;
  control_ref : pystr;
  recorded_at : Z;
}.
End IssuerCommandReceipt.

Module Outcome := ApprovalWithdrawalOutcome.
Module Resolution := ApprovalWithdrawalConflictResolution.

(** ** The modules composed beside this code *)

(** [PlanFacts] of deployment/protected_rehearsal_issuer.py: what is read of
    Deployment Control's plan. *)
Module PlanFacts.
Record t := Facts {
  id : uuid;
  purpose : pystr;
  operation : option pystr;
  execution_plan_digest : option pystr;
  plan_digest : option pystr;
  approval_policy_code : option pystr;
  approval_policy_version : option Z;
  approval_decision_ref : option pystr;
  status : pystr;
  approval_decision_status : option pystr;
  approval_revocation_ref : option pystr;
}.
End PlanFacts.

Record RevokePlanApprovalCommand := {
  rpa_command_id : pystr;
  rpa_plan_id : uuid;
  rpa_revocation_ref : pystr;
  rpa_reason : pystr;
}.
Inductive plan_refusal :=
  | TransitionRefusedError
  | ExpectedStateError (actual_status : pystr)
  | PlanForeign (e : exn).
(** [RehearsalIssuerIssuanceRefusedError]: whether its code is NOT_REVOCABLE,
    [str(exc.code)] and [str(exc)]. *)
Inductive issuance_refusal :=
  | IssuanceRefused (not_revocable : bool) (code detail : pystr)
  | IssuanceForeign (e : exn).

Record RecordApprovalWithdrawalCommand := {
  raw_command_id : pystr;
  raw_agreement_id : uuid;
  raw_approval_request_ref : pystr;
  raw_approval_decision_ref : pystr;
  raw_policy_code : pystr;
  raw_policy_version : Z;
  raw_subject_ref : pystr;
  raw_content_hash : pystr;
  raw_withdrawal_ref : pystr;
  raw_reason : pystr;
  (** the clock time in microseconds, and whether it carries a zone *)
  raw_withdrawn_at : Z * bool;
}.
(** [AgreementError]: [str(exc)] and [repr(exc)]; anything else that leaves the
    owner's call. *)
Inductive agreement_refusal :=
  | AgreementError (str repr : pystr)
  | AgreementForeign (e : exn).

Class RelayModules := {
  (** [dotmac_kernel.messaging.OutboxStatus] values *)
  PENDING : pystr;
  CLAIMED : pystr;
  DEAD : pystr;
  OutboxStatus_NoDup : NoDup [PENDING; CLAIMED; DEAD];
  (** [dotmac_commercial_agreements.AGREEMENT_ACTIVATED_V1] *)
  ACTIVATED_EVENT_TYPE : pystr;
  (** [hashlib.sha256(s.encode()).hexdigest()] *)
  sha256_hexdigest : pystr → pystr;
  (** the n-th primary key drawn by [uuid_pk()] *)
  uuid_pk : nat → uuid;
  (** [datetime.fromisoformat], and [repr(exc)] of an exception raised while
      reading a payload *)
  fromisoformat : pystr → res (Z * bool);
  error_repr : dict → exn → pystr;
  (** [str.isprintable] of one code point, which [repr] of a text asks *)
  printable : Z → bool;
  (** Deployment Control, in the same transaction *)
  control : Type;
  get_plan : control → uuid → res (option PlanFacts.t);
  revoke_plan_approval :
    control → RevokePlanApprovalCommand → control * (unit + plan_refusal);
  revoke_rehearsal_issuer_authorization :
    control → pystr → pystr → option pystr → control * (unit + issuance_refusal);
  (** Commercial Agreements, in the same transaction *)
  agreements : Type;
  CA_outcome : Type;
  #[global] CA_outcome_eq_dec :: EqDecision CA_outcome;
  CA_RECORDED : CA_outcome;
  CA_ALREADY_RECORDED : CA_outcome;
  CA_DECISION_NOT_CARRIED : CA_outcome;
  CA_CONTENT_NOT_BOUND : CA_outcome;
  CA_EVIDENCE_CONFLICT : CA_outcome;
  CA_NoDup : NoDup [CA_RECORDED; CA_ALREADY_RECORDED; CA_DECISION_NOT_CARRIED;
                    CA_CONTENT_NOT_BOUND; CA_EVIDENCE_CONFLICT];
  (** the command's own checks: [None], or what its constructor raises *)
  command_refusal : RecordApprovalWithdrawalCommand → option exn;
  (** outcome, status, approval_carried, withdrawal_id *)
  module_record_approval_withdrawal :
    agreements → RecordApprovalWithdrawalCommand →
    agreements * (CA_outcome * pystr * bool * option uuid + agreement_refusal);
}.

(** ** The session *)

(** What a statement of the relay reads or writes. *)
Inductive relation := Heartbeats | OutboxEvents | Outcomes | Resolutions | Receipts.

Section session.
Context `{RM : RelayModules}.

Record Session := {
  heartbeats : list RelayHeartbeat.t;
  events : list PlatformOutboxEvent.t;
  outcomes : list Outcome.t;
  resolutions : list Resolution.t;
  receipts : list IssuerCommandReceipt.t;
  (** resolutions other transactions commit while this one runs: they are seen
      from its flush on *)
  racing : list Resolution.t;
  plans : control;
  agreement_owner : agreements;
  draws : nat;
  (** [func.now()] of this transaction *)
  clock : Z;
  (** what a statement on a relation raises *)
  fault : relation → option exn;
  (** the server answers at all *)
  reachable : bool;
  (** the dialect is postgresql: a failed statement aborts the transaction *)
  postgresql : bool;
  aborted : bool;
}.

Definition set_heartbeats (v : list RelayHeartbeat.t) (s : Session) : Session :=
  {| heartbeats := v; events := events s; outcomes := outcomes s;
     resolutions := resolutions s; receipts := receipts s; racing := racing s;
     plans := plans s; agreement_owner := agreement_owner s; draws := draws s;
     clock := clock s; fault := fault s; reachable := reachable s;
     postgresql := postgresql s; aborted := aborted s |}.
Definition set_outcomes (v : list Outcome.t) (s : Session) : Session :=
  {| heartbeats := heartbeats s; events := events s; outcomes := v;
     resolutions := resolutions s; receipts := receipts s; racing := racing s;
     plans := plans s; agreement_owner := agreement_owner s; draws := draws s;
     clock := clock s; fault := fault s; reachable := reachable s;
     postgresql := postgresql s; aborted := aborted s |}.
Definition set_resolutions (v r : list Resolution.t) (s : Session) : Session :=
  {| heartbeats := heartbeats s; events := events s; outcomes := outcomes s;
     resolutions := v; receipts := receipts s; racing := r;
     plans := plans s; agreement_owner := agreement_owner s; draws := draws s;
     clock := clock s; fault := fault s; reachable := reachable s;
     postgresql := postgresql s; aborted := aborted s |}.
Definition set_plans (v : control) (s : Session) : Session :=
  {| heartbeats := heartbeats s; events := events s; outcomes := outcomes s;
     resolutions := resolutions s; receipts := receipts s; racing := racing s;
     plans := v; agreement_owner := agreement_owner s; draws := draws s;
     clock := clock s; fault := fault s; reachable := reachable s;
     postgresql := postgresql s; aborted := aborted s |}.
Definition set_agreements (v : agreements) (s : Session) : Session :=
  {| heartbeats := heartbeats s; events := events s; outcomes := outcomes s;
     resolutions := resolutions s; receipts := receipts s; racing := racing s;
     plans := plans s; agreement_owner := v; draws := draws s;
     clock := clock s; fault := fault s; reachable := reachable s;
     postgresql := postgresql s; aborted := aborted s |}.
Definition set_draws (v : nat) (s : Session) : Session :=
  {| heartbeats := heartbeats s; events := events s; outcomes := outcomes s;
     resolutions := resolutions s; receipts := receipts s; racing := racing s;
     plans := plans s; agreement_owner := agreement_owner s; draws := v;
     clock := clock s; fault := fault s; reachable := reachable s;
     postgresql := postgresql s; aborted := aborted s |}.
Definition abort (s : Session) : Session :=
  {| heartbeats := heartbeats s; events := events s; outcomes := outcomes s;
     resolutions := resolutions s; receipts := receipts s; racing := racing s;
     plans := plans s; agreement_owner := agreement_owner s; draws := draws s;
     clock := clock s; fault := fault s; reachable := reachable s;
     postgresql := postgresql s; aborted := postgresql s || aborted s |}.

(** What a statement on [R] raises: the server is gone, the transaction is
    aborted, or the relation cannot be used. *)
Definition statement_error (R : relation) (s : Session) : option exn :=
  if negb (reachable s) then Some (Exn OperationalError "")
  else if aborted s then Some (Exn InternalError "current transaction is aborted")
  else fault s R.

(** A statement on [R] that gives [v]. *)
Definition query {A} (R : relation) (s : Session) (v : A) : res A :=
  match statement_error R s with None => Ok v | Some e => Raise e end.

(** ** Inserts *)

Definition OutcomeRows : table Session Outcome.t (uuid * pystr) :=
  Table outcomes set_outcomes Outcome.id Outcome.ukey.
#[global] Instance OutcomeRows_laws : TableLaws OutcomeRows.
Proof. done. Qed.

(** The unique constraints and CHECKs of [v020_withdrawal_outcomes] on
    outcomes: the primary key, [(event_id, payload_digest)], and at most one
    row per event that is not a conflict. *)
Definition insert_outcome (r : Outcome.t) (s : Session) : res Session :=
  query Outcomes s tt;;
  ensure (is_ok (WithdrawalDisposition.parse (Outcome.disposition r)))
    (Exn IntegrityError "ck_approval_withdrawal_outcomes_disposition");;
  ensure (Outcome.is_conflict r ||
          forallb (λ x, Outcome.is_conflict x ||
                        negb (bool_decide (Outcome.event_id x = Outcome.event_id r)))
            (outcomes s))
    (Exn IntegrityError "uq_approval_withdrawal_outcomes_event_id_non_conflict");;
  db_add OutcomeRows r s.

(** On resolutions: the foreign key, one per outcome, one per cited proof, a
    reason.  What other transactions committed meanwhile is there already. *)
Definition insert_resolution (r : Resolution.t) (s : Session) : res Session :=
  query Resolutions s tt;;
  let seen := resolutions s ++ racing s in
  ensure (existsb (λ o, bool_decide (Outcome.id o = Resolution.outcome_id r)) (outcomes s))
    (Exn IntegrityError "approval_withdrawal_conflict_resolutions_outcome_id_fkey");;
  ensure (negb (bool_decide (Resolution.reason r = [])))
    (Exn IntegrityError "ck_approval_withdrawal_conflict_resolutions_reason_not_blank");;
  ensure (bool_decide (Resolution.resolution r ∈
            [WithdrawalResolution.value WithdrawalResolution.DISMISSED;
             WithdrawalResolution.value WithdrawalResolution.REDRIVEN]))
    (Exn IntegrityError "ck_approval_withdrawal_conflict_resolutions_resolution");;
  ensure (forallb (λ x, negb (bool_decide (Resolution.redrive_ref r ≠ None ∧
                                Resolution.redrive_ref x = Resolution.redrive_ref r))) seen)
    (Exn IntegrityError "uq_approval_withdrawal_conflict_resolutions_redrive_ref");;
  l ← insert_unique Resolution.id r seen;
  l ← insert_unique Resolution.outcome_id r seen;
  Ok (set_resolutions l [] s).
End session.

(** ** Lemmas *)

Section lemmas.
Context `{RM : RelayModules}.
Implicit Types (s : Session).

Lemma query_Ok {A} R s (v w : A) : query R s v = Ok w ↔ statement_error R s = None ∧ w = v.
Proof. unfold query. case_match; naive_solver. Qed.

Lemma query_readable {A} R s (v : A) : statement_error R s = None → query R s v = Ok v.
Proof. intros H. by apply query_Ok. Qed.

Lemma insert_outcome_Ok r s s' :
  insert_outcome r s = Ok s' ↔
  statement_error Outcomes s = None ∧
  is_ok (WithdrawalDisposition.parse (Outcome.disposition r)) = true ∧
  (Outcome.is_conflict r = false →
   ∀ x, x ∈ outcomes s → Outcome.event_id x = Outcome.event_id r →
        Outcome.is_conflict x = true) ∧
  s' = set_outcomes (outcomes s ++ [r]) s ∧
  (Outcome.id r ∉ Outcome.id <$> outcomes s) ∧
  (Outcome.ukey r ∉ Outcome.ukey <$> outcomes s).
Proof.
  unfold insert_outcome. rewrite bind_Ok. setoid_rewrite query_Ok.
  setoid_rewrite bind_Ok. setoid_rewrite ensure_Ok.
  setoid_rewrite bind_Ok. setoid_rewrite ensure_Ok. setoid_rewrite db_add_Ok.
  assert (Hb : Outcome.is_conflict r ||
      forallb (λ x, Outcome.is_conflict x ||
        negb (bool_decide (Outcome.event_id x = Outcome.event_id r))) (outcomes s) = true ↔
    (Outcome.is_conflict r = false → ∀ x, x ∈ outcomes s →
      Outcome.event_id x = Outcome.event_id r → Outcome.is_conflict x = true)).
  { destruct (Outcome.is_conflict r); cbn [orb]; [done|].
    rewrite forallb_forall. split.
    - intros H _ x Hx%list_elem_of_In Hid. specialize (H x Hx).
      rewrite bool_decide_true, orb_false_r in H; done.
    - intros H x Hx%list_elem_of_In. destruct (Outcome.is_conflict x) eqn:Hc; [done|].
      case_bool_decide as Hid; [|done]. rewrite (H eq_refl x Hx Hid) in Hc. done. }
  rewrite <- Hb. split.
  - intros (? & [? ->] & ? & ? & ? & ? & ?). done.
  - intros (? & ? & ? & ?). exists tt. split; [done|]. exists tt. split; [done|]. by exists tt.
Qed.

Lemma insert_resolution_Ok r s s' :
  insert_resolution r s = Ok s' ↔
  statement_error Resolutions s = None ∧
  (∃ o, o ∈ outcomes s ∧ Outcome.id o = Resolution.outcome_id r) ∧
  Resolution.reason r ≠ [] ∧
  Resolution.resolution r ∈ [WithdrawalResolution.value WithdrawalResolution.DISMISSED;
                             WithdrawalResolution.value WithdrawalResolution.REDRIVEN] ∧
  (∀ x, x ∈ resolutions s ++ racing s → Resolution.redrive_ref r ≠ None →
        Resolution.redrive_ref x ≠ Resolution.redrive_ref r) ∧
  (Resolution.id r ∉ Resolution.id <$> resolutions s ++ racing s) ∧
  (Resolution.outcome_id r ∉ Resolution.outcome_id <$> resolutions s ++ racing s) ∧
  s' = set_resolutions ((resolutions s ++ racing s) ++ [r]) [] s.
Proof.
  assert (H1 : existsb (λ o, bool_decide (Outcome.id o = Resolution.outcome_id r)) (outcomes s)
    = true ↔ ∃ o, o ∈ outcomes s ∧ Outcome.id o = Resolution.outcome_id r).
  { rewrite existsb_exists. setoid_rewrite <- list_elem_of_In.
    by setoid_rewrite bool_decide_eq_true. }
  assert (H2 : forallb (λ x, negb (bool_decide (Resolution.redrive_ref r ≠ None ∧
      Resolution.redrive_ref x = Resolution.redrive_ref r))) (resolutions s ++ racing s) = true ↔
    ∀ x, x ∈ resolutions s ++ racing s → Resolution.redrive_ref r ≠ None →
        Resolution.redrive_ref x ≠ Resolution.redrive_ref r).
  { rewrite forallb_forall. setoid_rewrite <- list_elem_of_In.
    setoid_rewrite negb_true_iff. setoid_rewrite bool_decide_eq_false.
    split; [intros H x Hx Hn He; by apply (H x Hx)|intros H x Hx [Hn He]; by apply (H x Hx)]. }
  rewrite <- H1, <- H2. clear H1 H2. unfold insert_resolution. cbv zeta. split.
  - intros H. apply bind_Ok in H as (u & [Hq _]%query_Ok & H). inv_res.
    repeat match goal with
    | H : insert_unique _ _ _ = Ok _ |- _ => apply insert_unique_Ok in H as [-> ?]
    end. bool_hyps. done.
  - intros (Hq & Ho & Hr & Hv & Hc & Hi & Hk & ->).
    rewrite (query_readable _ _ _ Hq). cbn [mbind res_bind].
    rewrite Ho, (bool_decide_false _ Hr), (bool_decide_true _ Hv), Hc. cbn [negb ensure mbind res_bind].
    rewrite (proj2 (insert_unique_Ok _ _ _ _) (conj eq_refl Hi)). cbn [mbind res_bind].
    by rewrite (proj2 (insert_unique_Ok _ _ _ _) (conj eq_refl Hk)).
Qed.
End lemmas.

(** A plan's standing: revoked or not, by which reference; and the
    authorizations still open. *)
Record demo_control := DemoControl {
  dc_plan : PlanFacts.t;
  dc_issued : list pystr;
}.

Definition demo_digest : pystr := lit "sha256:" ++ replicate 64 97.

Definition demo_plan : PlanFacts.t :=
  {| PlanFacts.id := 7;
     PlanFacts.purpose := lit "rehearsal_issuer_operation";
     PlanFacts.operation := Some (lit "deploy");
     PlanFacts.execution_plan_digest := Some demo_digest;
     PlanFacts.plan_digest := Some (lit "pd");
     PlanFacts.approval_policy_code := Some (lit "policy");
     PlanFacts.approval_policy_version := Some 1;
     PlanFacts.approval_decision_ref := Some (uuid_str 9);
     PlanFacts.status := lit "approved";
     PlanFacts.approval_decision_status := Some (lit "standing");
     PlanFacts.approval_revocation_ref := None |}.

Definition demo_revoke (p : PlanFacts.t) (ref : pystr) : PlanFacts.t :=
  {| PlanFacts.id := PlanFacts.id p;
     PlanFacts.purpose := PlanFacts.purpose p;
     PlanFacts.operation := PlanFacts.operation p;
     PlanFacts.execution_plan_digest := PlanFacts.execution_plan_digest p;
     PlanFacts.plan_digest := PlanFacts.plan_digest p;
     PlanFacts.approval_policy_code := PlanFacts.approval_policy_code p;
     PlanFacts.approval_policy_version := PlanFacts.approval_policy_version p;
     PlanFacts.approval_decision_ref := PlanFacts.approval_decision_ref p;
     PlanFacts.status := PlanFacts.status p;
     PlanFacts.approval_decision_status := Some (lit "revoked");
     PlanFacts.approval_revocation_ref := Some ref |}.

Inductive demo_ca := Recorded | AlreadyRecorded | NotCarried | NotBound | Conflicting.
#[export] Instance demo_ca_eq_dec : EqDecision demo_ca.
Proof. solve_decision. Defined.

#[export] Program Instance relay_demo : RelayModules := {|
  PENDING := lit "pending";
  CLAIMED := lit "claimed";
  DEAD := lit "dead";
  ACTIVATED_EVENT_TYPE := lit "agreement.activated.v1";
  sha256_hexdigest s := s;
  uuid_pk n := 1000 + Z.of_nat n;
  fromisoformat s := if bool_decide (s = []) then Raise (Exn ValueError "Invalid isoformat string: ")
                     else Ok (0, true);
  error_repr _ e := lit (exn_text e);
  printable _ := true;
  control := demo_control;
  get_plan c i := Ok (if bool_decide (PlanFacts.id (dc_plan c) = i) then Some (dc_plan c) else None);
  revoke_plan_approval c cmd :=
    (DemoControl (demo_revoke (dc_plan c) (rpa_revocation_ref cmd)) (dc_issued c), inl tt);
  revoke_rehearsal_issuer_authorization c ref _ _ :=
    if bool_decide (ref ∈ dc_issued c)
    then (DemoControl (dc_plan c) (filter (λ x, x ≠ ref) (dc_issued c)), inl tt)
    else (c, inr (IssuanceRefused true (lit "NOT_REVOCABLE") []));
  agreements := unit;
  CA_outcome := demo_ca;
  CA_RECORDED := Recorded;
  CA_ALREADY_RECORDED := AlreadyRecorded;
  CA_DECISION_NOT_CARRIED := NotCarried;
  CA_CONTENT_NOT_BOUND := NotBound;
  CA_EVIDENCE_CONFLICT := Conflicting;
  command_refusal _ := None;
  module_record_approval_withdrawal c _ :=
    (c, inl (Recorded, lit "suspended", false, Some 77));
|}.
Next Obligation. apply (bool_decide_unpack _). vm_compute. exact I. Qed.
Next Obligation. apply (bool_decide_unpack _). vm_compute. exact I. Qed.

Definition relay_empty : Session :=
  {| heartbeats := []; events := []; outcomes := []; resolutions := []; receipts := [];
     racing := []; plans := DemoControl demo_plan [lit "auth-1"];
     agreement_owner := tt; draws := 0; clock := 100; fault := λ _, None;
     reachable := true; postgresql := true; aborted := false |}.

(** A worker that polled a second ago, and one withdrawal that failed once. *)
Definition relay_failing : Session :=
  {| heartbeats := [{| RelayHeartbeat.worker_id := lit "w"; RelayHeartbeat.started_at := 0;
                       RelayHeartbeat.last_polled_at := 99000000;
                       RelayHeartbeat.last_claimed_at := None |}];
     events := [{| PlatformOutboxEvent.event_type := lit "approval.withdrawn";
                   PlatformOutboxEvent.status := lit "claimed";
                   PlatformOutboxEvent.available_at := 0;
                   PlatformOutboxEvent.leased_at := Some 99000000;
                   PlatformOutboxEvent.attempts := 1;
                   PlatformOutboxEvent.sent_at := None |}];
     outcomes := []; resolutions := []; receipts := []; racing := [];
     plans := DemoControl demo_plan []; agreement_owner := tt; draws := 0;
     clock := 100000000; fault := λ _, None; reachable := true; postgresql := true;
     aborted := false |}.

(** An authorization issued for the plan. *)
Definition relay_issued : Session :=
  {| heartbeats := []; events := []; outcomes := []; resolutions := [];
     receipts := [{| IssuerCommandReceipt.id := 3; IssuerCommandReceipt.command_id := lit "c";
                     IssuerCommandReceipt.verb := lit "issue_authorization";
                     IssuerCommandReceipt.request_fingerprint := lit "f";
                     IssuerCommandReceipt.plan_id := 7;
                     IssuerCommandReceipt.approval_request_id := 9;
                     IssuerCommandReceipt.control_ref := lit "auth-1";
                     IssuerCommandReceipt.recorded_at := 1 |}];
     racing := []; plans := DemoControl demo_plan [lit "auth-1"];
     agreement_owner := tt; draws := 0; clock := 100; fault := λ _, None;
     reachable := true; postgresql := true; aborted := false |}.

(** The withdrawal of request 9, which carries plan 7. *)
Definition issuer_payload (reason : pystr) : dict :=
  [(lit "subject_type", JStr (lit "rehearsal_issuer_plan.v1"));
   (lit "subject_id", JStr (lit "v1|" ++ uuid_str 7 ++ lit "|rehearsal_issuer_operation|deploy|" ++
                            demo_digest));
   (lit "content_digest", JStr (lit "pd")); (lit "request_id", JStr (uuid_str 9));
   (lit "withdrawal_id", JStr (uuid_str 5)); (lit "policy_code", JStr (lit "policy"));
   (lit "policy_version", JInt 1); (lit "reason", JStr reason)].
Definition agreement_payload (reason : pystr) : dict :=
  [(lit "subject_type", JStr (lit "commercial_agreement"));
   (lit "subject_id", JStr (uuid_str 21));
   (lit "content_digest", JStr demo_digest); (lit "request_id", JStr (uuid_str 22));
   (lit "withdrawal_id", JStr (uuid_str 6)); (lit "policy_code", JStr (lit "policy"));
   (lit "policy_version", JStr (lit "1")); (lit "reason", JStr reason);
   (lit "effective_at", JStr (lit "2026-01-01T00:00:00Z"))].
