(* ===== verification/Withdrawals.v ===== *)
(** * Withdrawal outcomes and their resolution

    [relay/withdrawal_outcomes.py]: the append-only record of how each
    [approval.withdrawn] event was settled, and the human decision that closes
    a recorded conflict; and [relay/withdrawal_router.py], which hands that
    decision over from HTTP. *)

From S2P Require Import Prelude PyText PyUuid Json Tables RelayStore.

#[local] Open Scope Z_scope.

Module RecordedOutcome.
Record t := Recorded {
  id : uuid;
  event_id : uuid;
  payload_digest : pystr;
  event_type : pystr;
  subject_type : pystr;
  subject_id : pystr;
  approval_request_id : option uuid;
  plan_id : option uuid;
  agreement_id : option uuid;
  withdrawal_ref : option pystr;
  disposition : WithdrawalDisposition.t;
  reason_code : pystr;
  evidence : dict;
  recorded_at : Z;
}.

Definition _from_row (row : Outcome.t) : res t :=
  d ← WithdrawalDisposition.parse (Outcome.disposition row);
  Ok {| id := Outcome.id row;
        event_id := Outcome.event_id row;
        payload_digest := Outcome.payload_digest row;
        event_type := Outcome.event_type row;
        subject_type := Outcome.subject_type row;
        subject_id := Outcome.subject_id row;
        approval_request_id := Outcome.approval_request_id row;
        plan_id := Outcome.plan_id row;
        agreement_id := Outcome.agreement_id row;
        withdrawal_ref := Outcome.withdrawal_ref row;
        disposition := d;
        reason_code := Outcome.reason_code row;
        evidence := Outcome.evidence row;
        recorded_at := Outcome.recorded_at row |}.
End RecordedOutcome.

Module RecordedConflictResolution.
Record t := Recorded {
  id : uuid;
  outcome_id : uuid;
  resolution : WithdrawalResolution.t;
  actor_ref : pystr;
  reason : pystr;
  redrive_ref : option pystr;
  recorded_at : Z;
}.

Definition _from_row (row : Resolution.t) : res t :=
  r ← of_option
        (first_such (λ x, bool_decide (WithdrawalResolution.value x = Resolution.resolution row))
          [WithdrawalResolution.DISMISSED; WithdrawalResolution.REDRIVEN])
        (Exn ValueError " is not a valid WithdrawalResolution");
  Ok {| id := Resolution.id row;
        outcome_id := Resolution.outcome_id row;
        resolution := r;
        actor_ref := Resolution.actor_ref row;
        reason := Resolution.reason row;
        redrive_ref := Resolution.redrive_ref row;
        recorded_at := Resolution.recorded_at row |}.
End RecordedConflictResolution.

Section withdrawals.
Context `{RM : RelayModules} `{UDB : UnicodeDB}.
Implicit Types (db : Session).

(** A claimed payload is JSON already: [_normalize] meets nothing else. *)
Definition payload_digest (event_type : pystr) (payload : dict) : pystr :=
  lit "sha256:" ++ sha256_hexdigest
    (dumps_compact (JObj [(lit "event_type", JStr event_type); (lit "payload", JObj payload)])).

Definition recorded_outcome db (event_id : uuid) (digest : pystr)
    : res (option RecordedOutcome.t) :=
  row ← query Outcomes db
    (first_such (λ r, bool_decide (Outcome.event_id r = event_id ∧
                                   Outcome.payload_digest r = digest)) (outcomes db));
  match row with
  | None => Ok None
  | Some row => Some <$> RecordedOutcome._from_row row
  end.

(** [ORDER BY recorded_at]; rows of one instant in table order, a choice the
    database makes. *)
Definition by_recorded_at (x y : Outcome.t) : bool :=
  Outcome.recorded_at x <=? Outcome.recorded_at y.

Definition outcomes_for_event db (event_id : uuid) : res (list RecordedOutcome.t) :=
  rows ← query Outcomes db
    (sort_by by_recorded_at (filter (λ r, Outcome.event_id r = event_id) (outcomes db)));
  mapM RecordedOutcome._from_row rows.

(** The columns only some callers give. *)
Record Coordinates := {
  c_approval_request_id : option uuid;
  c_plan_id : option uuid;
  c_agreement_id : option uuid;
  c_withdrawal_ref : option pystr;
}.
Definition no_coordinates : Coordinates :=
  {| c_approval_request_id := None; c_plan_id := None; c_agreement_id := None;
     c_withdrawal_ref := None |}.

Definition record_outcome db (event_id : uuid) (digest event_type subject_type subject_id : pystr)
    (disposition : WithdrawalDisposition.t) (reason_code : pystr) (evidence : dict)
    (c : Coordinates) : res (Session * RecordedOutcome.t) :=
  let row :=
    {| Outcome.id := uuid_pk (draws db);
       Outcome.event_id := event_id;
       Outcome.payload_digest := digest;
       Outcome.event_type := event_type;
       Outcome.subject_type := subject_type;
       Outcome.subject_id := subject_id;
       Outcome.approval_request_id := c_approval_request_id c;
       Outcome.plan_id := c_plan_id c;
       Outcome.agreement_id := c_agreement_id c;
       Outcome.withdrawal_ref := c_withdrawal_ref c;
       Outcome.disposition := WithdrawalDisposition.value disposition;
       Outcome.reason_code := reason_code;
       Outcome.evidence := evidence;
       Outcome.recorded_at := clock db |} in
  db ← insert_outcome row (set_draws (S (draws db)) db);
  view ← RecordedOutcome._from_row row;
  Ok (db, view).

(** A [security_conflict] row no resolution names. *)
Definition unresolved db (o : Outcome.t) : bool :=
  Outcome.is_conflict o &&
  negb (bool_decide (Outcome.id o ∈ Resolution.outcome_id <$> resolutions db)).

Definition unresolved_conflicts db : res Z :=
  query Resolutions db tt;;
  query Outcomes db (Z.of_nat (count_if (λ o, unresolved db o = true) (outcomes db))).

Definition list_unresolved_conflicts db : res (list RecordedOutcome.t) :=
  query Resolutions db tt;;
  rows ← query Outcomes db
    (sort_by by_recorded_at (filter (λ o, unresolved db o = true) (outcomes db)));
  mapM RecordedOutcome._from_row rows.

Definition _REDRIVE_PROOF_DISPOSITIONS : list pystr :=
  WithdrawalDisposition.value <$>
  [WithdrawalDisposition.APPLIED; WithdrawalDisposition.ALREADY_APPLIED;
   WithdrawalDisposition.SUPERSEDED_BY_REVOCATION].

Definition _resolution_exists db (outcome_id : uuid) : res bool :=
  query Resolutions db
    (existsb (λ r, bool_decide (Resolution.outcome_id r = outcome_id)) (resolutions db)).

(** The row [redriven] does not prove that [conflict] was redriven. *)
Definition proves_nothing (conflict redriven : Outcome.t) : bool :=
  bool_decide (Outcome.id redriven = Outcome.id conflict) ||
  negb (bool_decide (Outcome.disposition redriven ∈ _REDRIVE_PROOF_DISPOSITIONS)) ||
  negb (bool_decide (Outcome.subject_type redriven = Outcome.subject_type conflict)) ||
  negb (bool_decide (Outcome.subject_id redriven = Outcome.subject_id conflict)) ||
  (Outcome.recorded_at redriven <? Outcome.recorded_at conflict) ||
  (negb (bool_decide (Outcome.approval_request_id conflict = None)) &&
   negb (bool_decide (Outcome.approval_request_id redriven =
                      Outcome.approval_request_id conflict))).

Definition _require_redrive_evidence db (conflict : Outcome.t)
    (resolution : WithdrawalResolution.t) (redrive_ref : option pystr)
    : res (option pystr) :=
  match resolution with
  | WithdrawalResolution.DISMISSED =>
      ensure (bool_decide (redrive_ref = None))
        (Exn ConflictNotResolvable "a dismissal cites no redrive_ref");;
      Ok None
  | WithdrawalResolution.REDRIVEN =>
      ref ← of_option redrive_ref
        (Exn ConflictNotResolvable "a redriven resolution must cite the redriven outcome as redrive_ref");
      ensure (negb (bool_decide (strip ref = [])))
        (Exn ConflictNotResolvable "a redriven resolution must cite the redriven outcome as redrive_ref");;
      redriven_id ←
        match UUID ref with
        | Ok u => Ok u
        | Raise e =>
            if bool_decide (exn_kind e = ValueError)
            then Raise (Exn ConflictNotResolvable
                   "redrive_ref must be the id of the redriven withdrawal outcome")
            else Raise e
        end;
      redriven ← query Outcomes db (db_get OutcomeRows db redriven_id);
      ensure (match redriven with
              | None => false
              | Some redriven => negb (proves_nothing conflict redriven)
              end)
        (Exn ConflictNotResolvable "redrive_ref ");;
      let canonical_ref := uuid_str redriven_id in
      already_cited ← query Resolutions db
        (existsb (λ r, bool_decide (Resolution.redrive_ref r = Some canonical_ref))
          (resolutions db));
      ensure (negb already_cited) (Exn ConflictNotResolvable "redrive_ref ");;
      Ok (Some canonical_ref)
  end.

Definition resolve_conflict db (outcome_id : uuid) (resolution : WithdrawalResolution.t)
    (actor_ref reason : pystr) (redrive_ref : option pystr)
    : res (Session * RecordedConflictResolution.t) :=
  outcome ← query Outcomes db (db_get OutcomeRows db outcome_id);
  outcome ← of_option outcome (Exn ConflictOutcomeNotFound "no withdrawal outcome ");
  ensure (Outcome.is_conflict outcome) (Exn ConflictNotResolvable "withdrawal outcome ");;
  ensure (negb (bool_decide (strip reason = [])))
    (Exn ConflictNotResolvable "a conflict resolution must state a reason");;
  exists_ ← _resolution_exists db outcome_id;
  ensure (negb exists_) (Exn ConflictAlreadyResolved "withdrawal outcome ");;
  canonical_ref ← _require_redrive_evidence db outcome resolution redrive_ref;
  let row :=
    {| Resolution.id := uuid_pk (draws db);
       Resolution.outcome_id := outcome_id;
       Resolution.resolution := WithdrawalResolution.value resolution;
       Resolution.actor_ref := actor_ref;
       Resolution.reason := reason;
       Resolution.redrive_ref := canonical_ref;
       Resolution.recorded_at := clock db |} in
  db' ← match insert_resolution row (set_draws (S (draws db)) db) with
        | Ok db' => Ok db'
        | Raise e =>
            if bool_decide (exn_kind e = IntegrityError) then
              exists_ ← _resolution_exists
                (set_resolutions (resolutions db ++ racing db) [] db) outcome_id;
              if exists_ : bool
              then Raise (Exn ConflictAlreadyResolved "withdrawal outcome ")
              else Raise (Exn ConflictNotResolvable "redrive_ref ")
            else Raise e
        end;
  view ← RecordedConflictResolution._from_row row;
  Ok (db', view).

(** [POST /platform/relay/withdrawal-conflicts/{outcome_id}/resolve]. *)
Definition resolve db (outcome_id : uuid) (resolution : WithdrawalResolution.t)
    (reason : pystr) (redrive_ref : option pystr) (admin_id : uuid)
    : res (Session * RecordedConflictResolution.t) :=
  match resolve_conflict db outcome_id resolution
          (lit "platform_admin:" ++ uuid_str admin_id) reason redrive_ref with
  | Ok v => Ok v
  | Raise e =>
      match exn_kind e with
      | ConflictOutcomeNotFound => Raise (Exn NotFoundError (exn_text e))
      | ConflictNotResolvable | ConflictAlreadyResolved =>
          Raise (Exn ConflictError (exn_text e))
      | _ => Raise e
      end
  end.
End withdrawals.
