(* ===== verification/RelayHealth.v ===== *)
(** * Whether the outbox is being drained

    [relay/heartbeat.py], [relay/health.py] and [readiness/service.py]: the
    relay's liveness stamp, the verdict formed from the heartbeat and the
    outbox, and the readiness answer that restates it.  Times are instants in
    microseconds, durations too. *)

From S2P Require Import Prelude PyText PyUuid Json Tables RelayStore Withdrawals.

#[local] Open Scope Z_scope.

Module RelayVerdict.
Inductive t :=
  | DRAINING | RELAY_NOT_RUNNING | RELAY_WEDGED | ACTIVATION_BACKLOG_OVERDUE
  | ACTIVATION_LEASE_STALE | ACTIVATION_DEAD_LETTERED | RELAY_STATE_UNKNOWN
  | WITHDRAWAL_CONFLICT_UNRESOLVED | APPROVAL_EVENT_UNROUTED
  | WITHDRAWAL_DEAD_LETTERED | WITHDRAWAL_DELIVERY_FAILING.
Definition value (x : t) : pystr :=
  match x with
  | DRAINING => lit "relay_draining"
  | RELAY_NOT_RUNNING => lit "relay_not_running"
  | RELAY_WEDGED => lit "relay_wedged"
  | ACTIVATION_BACKLOG_OVERDUE => lit "activation_backlog_overdue"
  | ACTIVATION_LEASE_STALE => lit "activation_lease_stale"
  | ACTIVATION_DEAD_LETTERED => lit "activation_dead_lettered"
  | RELAY_STATE_UNKNOWN => lit "relay_state_unknown"
  | WITHDRAWAL_CONFLICT_UNRESOLVED => lit "withdrawal_conflict_unresolved"
  | APPROVAL_EVENT_UNROUTED => lit "approval_event_unrouted"
  | WITHDRAWAL_DEAD_LETTERED => lit "withdrawal_dead_lettered"
  | WITHDRAWAL_DELIVERY_FAILING => lit "withdrawal_delivery_failing"
  end.
#[global] Instance t_eq_dec : EqDecision t.
Proof. solve_decision. Defined.
End RelayVerdict.

Definition VERDICT_PRECEDENCE : list RelayVerdict.t :=
  [RelayVerdict.RELAY_STATE_UNKNOWN;
   RelayVerdict.WITHDRAWAL_CONFLICT_UNRESOLVED;
   RelayVerdict.WITHDRAWAL_DEAD_LETTERED;
   RelayVerdict.WITHDRAWAL_DELIVERY_FAILING;
   RelayVerdict.APPROVAL_EVENT_UNROUTED;
   RelayVerdict.ACTIVATION_DEAD_LETTERED;
   RelayVerdict.RELAY_NOT_RUNNING;
   RelayVerdict.ACTIVATION_LEASE_STALE;
   RelayVerdict.RELAY_WEDGED;
   RelayVerdict.ACTIVATION_BACKLOG_OVERDUE;
   RelayVerdict.DRAINING].

Definition APPROVAL_WITHDRAWN_EVENT_TYPE : pystr := lit "approval.withdrawn".

Module RelayHealth.
Record t := Health {
  verdict : RelayVerdict.t;
  pending_total : option Z;
  overdue_total : option Z;
  oldest_overdue_age_seconds : option Z;
  stale_lease_total : option Z;
  dead_total : option Z;
  activation_pending : option Z;
  activation_overdue : option Z;
  activation_dead : option Z;
  withdrawal_failing : option Z;
  withdrawal_dead : option Z;
  unresolved_withdrawal_conflicts : option Z;
  unrouted_approval_events : option Z;
  heartbeat_age_seconds : option Z;
  last_settled_age_seconds : option Z;
  relay_ever_reported : option bool;
  relay_liveness_during_quiescence_measurable : bool;
}.
(** Built from the verdict alone: every other field its default. *)
Definition of_verdict (v : RelayVerdict.t) : t :=
  {| verdict := v; pending_total := None; overdue_total := None;
     oldest_overdue_age_seconds := None; stale_lease_total := None; dead_total := None;
     activation_pending := None; activation_overdue := None; activation_dead := None;
     withdrawal_failing := None; withdrawal_dead := None;
     unresolved_withdrawal_conflicts := None; unrouted_approval_events := None;
     heartbeat_age_seconds := None; last_settled_age_seconds := None;
     relay_ever_reported := None; relay_liveness_during_quiescence_measurable := true |}.
Definition health_observed (h : t) : bool :=
  negb (bool_decide (verdict h = RelayVerdict.RELAY_STATE_UNKNOWN)).
End RelayHealth.

(** ** The heartbeat *)

Record HeartbeatState := {
  observed : bool;
  freshest_poll : option Z;
  freshest_claim : option Z;
}.
Definition ever_reported (s : HeartbeatState) : bool :=
  bool_decide (freshest_poll s ≠ None).

(** SQL [max] over the values that are not NULL. *)
Definition sql_max (l : list (option Z)) : option Z :=
  foldr (λ x m, match x, m with
                | None, _ => m
                | Some a, None => Some a
                | Some a, Some b => Some (Z.max a b)
                end) None l.
Definition sql_min (l : list Z) : option Z :=
  foldr (λ a m, match m with None => Some a | Some b => Some (Z.min a b) end) None l.

Section relay.
Context `{RM : RelayModules} `{UDB : UnicodeDB}.
Implicit Types (db : Session).

(** [INSERT ... ON CONFLICT (worker_id) DO UPDATE]. *)
Definition stamp db (worker_id : pystr) (now : Z) (claimed : bool) : res Session :=
  let excluded :=
    {| RelayHeartbeat.worker_id := worker_id;
       RelayHeartbeat.started_at := now;
       RelayHeartbeat.last_polled_at := now;
       RelayHeartbeat.last_claimed_at := if claimed then Some now else None |} in
  query Heartbeats db
    (if existsb (λ r, bool_decide (RelayHeartbeat.worker_id r = worker_id)) (heartbeats db)
     then
       set_heartbeats
         ((λ r, if bool_decide (RelayHeartbeat.worker_id r = worker_id)
                then {| RelayHeartbeat.worker_id := RelayHeartbeat.worker_id r;
                        RelayHeartbeat.started_at := RelayHeartbeat.started_at r;
                        RelayHeartbeat.last_polled_at := RelayHeartbeat.last_polled_at excluded;
                        RelayHeartbeat.last_claimed_at :=
                          match RelayHeartbeat.last_claimed_at excluded with
                          | Some t => Some t
                          | None => RelayHeartbeat.last_claimed_at r
                          end |}
                else r) <$> heartbeats db) db
     else set_heartbeats (heartbeats db ++ [excluded]) db).

(** A failed read leaves the transaction as the failed statement left it. *)
Definition read db : Session * HeartbeatState :=
  match query Heartbeats db
          (sql_max (Some ∘ RelayHeartbeat.last_polled_at <$> heartbeats db),
           sql_max (RelayHeartbeat.last_claimed_at <$> heartbeats db)) with
  | Ok (poll, claim) =>
      (db, {| observed := true; freshest_poll := poll; freshest_claim := claim |})
  | Raise _ =>
      (abort db, {| observed := false; freshest_poll := None; freshest_claim := None |})
  end.

(** ** Counting outbox rows *)

Record filters := {
  f_status : pystr;
  f_event_type : option pystr;
  f_due_at_or_before : option Z;
  f_leased_at_or_before : option Z;
  f_attempts_greater_than : option Z;
}.
Definition with_status (s : pystr) : filters :=
  {| f_status := s; f_event_type := None; f_due_at_or_before := None;
     f_leased_at_or_before := None; f_attempts_greater_than := None |}.
Definition of_type (t : pystr) (f : filters) : filters :=
  {| f_status := f_status f; f_event_type := Some t;
     f_due_at_or_before := f_due_at_or_before f;
     f_leased_at_or_before := f_leased_at_or_before f;
     f_attempts_greater_than := f_attempts_greater_than f |}.
Definition due_by (t : Z) (f : filters) : filters :=
  {| f_status := f_status f; f_event_type := f_event_type f;
     f_due_at_or_before := Some t;
     f_leased_at_or_before := f_leased_at_or_before f;
     f_attempts_greater_than := f_attempts_greater_than f |}.
Definition leased_by (t : Z) (f : filters) : filters :=
  {| f_status := f_status f; f_event_type := f_event_type f;
     f_due_at_or_before := f_due_at_or_before f;
     f_leased_at_or_before := Some t;
     f_attempts_greater_than := f_attempts_greater_than f |}.
Definition attempted_over (n : Z) (f : filters) : filters :=
  {| f_status := f_status f; f_event_type := f_event_type f;
     f_due_at_or_before := f_due_at_or_before f;
     f_leased_at_or_before := f_leased_at_or_before f;
     f_attempts_greater_than := Some n |}.

(** A comparison with a bound that is not given holds; with NULL it does not. *)
Definition given {A} (o : option A) (p : A → bool) : bool :=
  match o with Some a => p a | None => true end.
Definition selects (f : filters) (e : PlatformOutboxEvent.t) : bool :=
  bool_decide (PlatformOutboxEvent.status e = f_status f) &&
  given (f_event_type f) (λ t, bool_decide (PlatformOutboxEvent.event_type e = t)) &&
  given (f_due_at_or_before f) (λ t, PlatformOutboxEvent.available_at e <=? t) &&
  given (f_leased_at_or_before f)
    (λ t, match PlatformOutboxEvent.leased_at e with Some l => l <=? t | None => false end) &&
  given (f_attempts_greater_than f) (λ n, n <? PlatformOutboxEvent.attempts e).

Definition rows_where (p : PlatformOutboxEvent.t → bool) db : Z :=
  Z.of_nat (count_if (λ e, p e = true) (events db)).

Definition _count db (f : filters) : res Z := query OutboxEvents db (rows_where (selects f) db).

(** [LIKE 'approval.%'] and not the withdrawal; failing, or dead. *)
Definition unrouted (e : PlatformOutboxEvent.t) : bool :=
  starts_with (lit "approval.") (PlatformOutboxEvent.event_type e) &&
  negb (bool_decide (PlatformOutboxEvent.event_type e = APPROVAL_WITHDRAWN_EVENT_TYPE)) &&
  (bool_decide (PlatformOutboxEvent.status e = PENDING) && (0 <? PlatformOutboxEvent.attempts e) ||
   bool_decide (PlatformOutboxEvent.status e = CLAIMED) && (0 <? PlatformOutboxEvent.attempts e) ||
   bool_decide (PlatformOutboxEvent.status e = DEAD)).

Definition _unrouted_approval_events_total db : res Z :=
  query OutboxEvents db (rows_where unrouted db).

(** [int((now - moment).total_seconds())]: towards zero. *)
Definition _age_seconds (moment : option Z) (now : Z) : option Z :=
  (λ m, (now - m) `quot` 1000000) <$> moment.

(** ** The verdict *)

(** The keyword arguments of [_verdict]. *)
Record signals := {
  dead_total : Z;
  stale_lease_total : Z;
  overdue_total : Z;
  heartbeat_age : option Z;
  settled_age : option Z;
  heartbeat_stale_after : Z;
  settled_within : Z;
  relay_expected : bool;
  withdrawal_failing : Z;
  withdrawal_dead : Z;
  unresolved_withdrawal_conflicts : Z;
  unrouted_approval_events : Z;
}.

(** An age in seconds past a duration, compared as numbers of seconds. *)
Definition older (age : Z) (duration : Z) : bool := duration <? age * 1000000.

Definition _verdict (s : signals) : RelayVerdict.t :=
  if 0 <? unresolved_withdrawal_conflicts s then RelayVerdict.WITHDRAWAL_CONFLICT_UNRESOLVED
  else if 0 <? withdrawal_dead s then RelayVerdict.WITHDRAWAL_DEAD_LETTERED
  else if 0 <? withdrawal_failing s then RelayVerdict.WITHDRAWAL_DELIVERY_FAILING
  else if 0 <? unrouted_approval_events s then RelayVerdict.APPROVAL_EVENT_UNROUTED
  else if 0 <? dead_total s then RelayVerdict.ACTIVATION_DEAD_LETTERED
  else if relay_expected s &&
          match heartbeat_age s with
          | None => true
          | Some age => older age (heartbeat_stale_after s)
          end
  then RelayVerdict.RELAY_NOT_RUNNING
  else if 0 <? stale_lease_total s then RelayVerdict.ACTIVATION_LEASE_STALE
  else if 0 <? overdue_total s then
    if negb (relay_expected s) then RelayVerdict.ACTIVATION_BACKLOG_OVERDUE
    else if match settled_age s with
            | None => false
            | Some age => negb (older age (settled_within s))
            end
    then RelayVerdict.ACTIVATION_BACKLOG_OVERDUE
    else RelayVerdict.RELAY_WEDGED
  else RelayVerdict.DRAINING.

(** The configuration both entry points pass on. *)
Record windows := {
  w_overdue_after : Z;
  w_stale_lease_after : Z;
  w_heartbeat_stale_after : Z;
  w_settled_within : Z;
  w_relay_expected : bool;
}.

(** The statements of the [try] block. *)
Definition observe db (now : Z) (w : windows) (beat : HeartbeatState) : res RelayHealth.t :=
  let overdue_before := now - w_overdue_after w in
  let stale_before := now - w_stale_lease_after w in
  pending_total ← _count db (with_status PENDING);
  dead_total ← _count db (with_status DEAD);
  overdue_total ← _count db (due_by overdue_before (with_status PENDING));
  stale_lease_total ← _count db (leased_by stale_before (with_status CLAIMED));
  oldest ← query OutboxEvents db
    (sql_min (PlatformOutboxEvent.available_at <$>
       filter (λ e, selects (due_by overdue_before (with_status PENDING)) e = true) (events db)));
  last_settled ← query OutboxEvents db (sql_max (PlatformOutboxEvent.sent_at <$> events db));
  activation_pending ← _count db (of_type ACTIVATED_EVENT_TYPE (with_status PENDING));
  activation_overdue ← _count db
    (due_by overdue_before (of_type ACTIVATED_EVENT_TYPE (with_status PENDING)));
  activation_dead ← _count db (of_type ACTIVATED_EVENT_TYPE (with_status DEAD));
  failing_pending ← _count db
    (attempted_over 0 (of_type APPROVAL_WITHDRAWN_EVENT_TYPE (with_status PENDING)));
  failing_claimed ← _count db
    (attempted_over 0 (of_type APPROVAL_WITHDRAWN_EVENT_TYPE (with_status CLAIMED)));
  withdrawal_dead ← _count db (of_type APPROVAL_WITHDRAWN_EVENT_TYPE (with_status DEAD));
  unresolved_withdrawal_conflicts ← unresolved_conflicts db;
  unrouted_approval_events ← _unrouted_approval_events_total db;
  let heartbeat_age := _age_seconds (freshest_poll beat) now in
  let settled_age := _age_seconds last_settled now in
  Ok {| RelayHealth.verdict := _verdict
          {| dead_total := dead_total;
             stale_lease_total := stale_lease_total;
             overdue_total := overdue_total;
             heartbeat_age := heartbeat_age;
             settled_age := settled_age;
             heartbeat_stale_after := w_heartbeat_stale_after w;
             settled_within := w_settled_within w;
             relay_expected := w_relay_expected w;
             withdrawal_failing := failing_pending + failing_claimed;
             withdrawal_dead := withdrawal_dead;
             unresolved_withdrawal_conflicts := unresolved_withdrawal_conflicts;
             unrouted_approval_events := unrouted_approval_events |};
        RelayHealth.pending_total := Some pending_total;
        RelayHealth.overdue_total := Some overdue_total;
        RelayHealth.oldest_overdue_age_seconds := _age_seconds oldest now;
        RelayHealth.stale_lease_total := Some stale_lease_total;
        RelayHealth.dead_total := Some dead_total;
        RelayHealth.activation_pending := Some activation_pending;
        RelayHealth.activation_overdue := Some activation_overdue;
        RelayHealth.activation_dead := Some activation_dead;
        RelayHealth.withdrawal_failing := Some (failing_pending + failing_claimed);
        RelayHealth.withdrawal_dead := Some withdrawal_dead;
        RelayHealth.unresolved_withdrawal_conflicts := Some unresolved_withdrawal_conflicts;
        RelayHealth.unrouted_approval_events := Some unrouted_approval_events;
        RelayHealth.heartbeat_age_seconds := heartbeat_age;
        RelayHealth.last_settled_age_seconds := settled_age;
        RelayHealth.relay_ever_reported :=
          if observed beat then Some (ever_reported beat) else None;
        RelayHealth.relay_liveness_during_quiescence_measurable := w_relay_expected w |}.

Definition relay_health db (now : Z) (w : windows) : RelayHealth.t :=
  let '(db, beat) := read db in
  if w_relay_expected w && negb (observed beat)
  then RelayHealth.of_verdict RelayVerdict.RELAY_STATE_UNKNOWN
  else match observe db now w beat with
       | Ok h => h
       | Raise _ => RelayHealth.of_verdict RelayVerdict.RELAY_STATE_UNKNOWN
       end.
End relay.

(** ** Readiness *)

Module ReadinessDetail.
Inductive t :=
  | READY | DATABASE_UNREACHABLE | RELAY_NOT_RUNNING | RELAY_WEDGED
  | ACTIVATION_BACKLOG_OVERDUE | ACTIVATION_LEASE_STALE | ACTIVATION_DEAD_LETTERED
  | RELAY_STATE_UNKNOWN | WITHDRAWAL_CONFLICT_UNRESOLVED | APPROVAL_EVENT_UNROUTED
  | WITHDRAWAL_DEAD_LETTERED | WITHDRAWAL_DELIVERY_FAILING.
Definition value (x : t) : pystr :=
  match x with
  | READY => lit "ready"
  | DATABASE_UNREACHABLE => lit "database_unreachable"
  | RELAY_NOT_RUNNING => RelayVerdict.value RelayVerdict.RELAY_NOT_RUNNING
  | RELAY_WEDGED => RelayVerdict.value RelayVerdict.RELAY_WEDGED
  | ACTIVATION_BACKLOG_OVERDUE => RelayVerdict.value RelayVerdict.ACTIVATION_BACKLOG_OVERDUE
  | ACTIVATION_LEASE_STALE => RelayVerdict.value RelayVerdict.ACTIVATION_LEASE_STALE
  | ACTIVATION_DEAD_LETTERED => RelayVerdict.value RelayVerdict.ACTIVATION_DEAD_LETTERED
  | RELAY_STATE_UNKNOWN => RelayVerdict.value RelayVerdict.RELAY_STATE_UNKNOWN
  | WITHDRAWAL_CONFLICT_UNRESOLVED =>
      RelayVerdict.value RelayVerdict.WITHDRAWAL_CONFLICT_UNRESOLVED
  | APPROVAL_EVENT_UNROUTED => RelayVerdict.value RelayVerdict.APPROVAL_EVENT_UNROUTED
  | WITHDRAWAL_DEAD_LETTERED => RelayVerdict.value RelayVerdict.WITHDRAWAL_DEAD_LETTERED
  | WITHDRAWAL_DELIVERY_FAILING => RelayVerdict.value RelayVerdict.WITHDRAWAL_DELIVERY_FAILING
  end.
#[global] Instance t_eq_dec : EqDecision t.
Proof. solve_decision. Defined.
End ReadinessDetail.

Definition _FROM_RELAY : list (RelayVerdict.t * ReadinessDetail.t) :=
  [(RelayVerdict.DRAINING, ReadinessDetail.READY);
   (RelayVerdict.RELAY_NOT_RUNNING, ReadinessDetail.RELAY_NOT_RUNNING);
   (RelayVerdict.RELAY_WEDGED, ReadinessDetail.RELAY_WEDGED);
   (RelayVerdict.ACTIVATION_BACKLOG_OVERDUE, ReadinessDetail.ACTIVATION_BACKLOG_OVERDUE);
   (RelayVerdict.ACTIVATION_LEASE_STALE, ReadinessDetail.ACTIVATION_LEASE_STALE);
   (RelayVerdict.ACTIVATION_DEAD_LETTERED, ReadinessDetail.ACTIVATION_DEAD_LETTERED);
   (RelayVerdict.RELAY_STATE_UNKNOWN, ReadinessDetail.RELAY_STATE_UNKNOWN);
   (RelayVerdict.WITHDRAWAL_CONFLICT_UNRESOLVED,
    ReadinessDetail.WITHDRAWAL_CONFLICT_UNRESOLVED);
   (RelayVerdict.APPROVAL_EVENT_UNROUTED, ReadinessDetail.APPROVAL_EVENT_UNROUTED);
   (RelayVerdict.WITHDRAWAL_DEAD_LETTERED, ReadinessDetail.WITHDRAWAL_DEAD_LETTERED);
   (RelayVerdict.WITHDRAWAL_DELIVERY_FAILING, ReadinessDetail.WITHDRAWAL_DELIVERY_FAILING)].

Record ReadinessReport := { ready : bool; detail : ReadinessDetail.t }.

Section readiness.
Context `{RM : RelayModules}.

(** [SELECT 1]: answered whenever the server is, outside an aborted
    transaction. *)
Definition PROBE (db : Session) : bool := reachable db && negb (aborted db).

Definition check_readiness (db : Session) (now : Z) (w : windows) : res ReadinessReport :=
  if negb (PROBE db)
  then Ok {| ready := false; detail := ReadinessDetail.DATABASE_UNREACHABLE |}
  else
    let health := relay_health db now w in
    detail ← of_option (dict_get _FROM_RELAY (RelayHealth.verdict health)) (Exn KeyError "");
    Ok {| ready := bool_decide (detail = ReadinessDetail.READY); detail := detail |}.
End readiness.
