(* ===== verification/RelayVerdicts.v ===== *)
(** * What the relay's verdict says of the rows

    The verdict is the first member of the declared precedence that the
    heartbeat, outbox and withdrawal rows bear out; readiness is exactly the
    absence of every red condition; a heartbeat row tells a worker's first
    poll, last poll and last claim. *)

From S2P Require Import Prelude PyText PyUuid Json Tables RelayStore Withdrawals RelayHealth.

#[local] Open Scope Z_scope.

(** ** Aggregates *)

Lemma sql_max_spec l :
  match sql_max l with
  | None => ∀ x, Some x ∉ l
  | Some m => Some m ∈ l ∧ ∀ x, Some x ∈ l → x ≤ m
  end.
Proof.
  induction l as [|o l IH]; simpl; [intros x Hx; by apply elem_of_nil in Hx|].
  destruct o as [a|], (sql_max l) as [b|].
  - destruct IH as [Hb Hl]. split.
    + destruct (Z.max_spec a b) as [[_ ->]|[_ ->]]; [by right|by left].
    + intros x [Hx|Hx]%elem_of_cons; [injection Hx as ->; lia|]. specialize (Hl x Hx). lia.
  - split; [by left|]. intros x [Hx|Hx]%elem_of_cons; [injection Hx as ->; lia|].
    by apply IH in Hx.
  - destruct IH as [Hb Hl]. split; [by right|].
    intros x [Hx|Hx]%elem_of_cons; [done|by apply Hl].
  - intros x [Hx|Hx]%elem_of_cons; [done|by apply (IH x)].
Qed.

Lemma older_mono now a b d :
  b ≤ a → older ((now - a) `quot` 1000000) d = true → older ((now - b) `quot` 1000000) d = true.
Proof.
  unfold older. rewrite !Z.ltb_lt. intros Hab Ha.
  pose proof (Z.quot_le_mono (now - a) (now - b) 1000000 ltac:(lia) ltac:(lia)). lia.
Qed.

(** No value is there, or the greatest is old: every value is old. *)
Lemma all_old now l d :
  match _age_seconds (sql_max l) now with None => true | Some age => older age d end = true ↔
  ∀ x, Some x ∈ l → older ((now - x) `quot` 1000000) d = true.
Proof.
  pose proof (sql_max_spec l) as Hm. destruct (sql_max l) as [m|]; simpl.
  - destruct Hm as [Hm Hle]. split; [|by auto]. intros H x Hx. by eapply older_mono; [apply Hle|].
  - split; [|done]. intros _ x Hx. by apply Hm in Hx.
Qed.

(** ** First in the order *)

Definition first_holding {A} (P : A → Prop) (l : list A) (x : A) : Prop :=
  ∃ before after, l = before ++ x :: after ∧ P x ∧ ∀ y, y ∈ before → ¬ P y.

Lemma first_such_first_holding {A} (p : A → bool) (P : A → Prop) l x :
  (∀ y, p y = true ↔ P y) → first_such p l = Some x → first_holding P l x.
Proof.
  intros Hp. induction l as [|y l IH]; simpl; [done|]. destruct (p y) eqn:Hy; intros Hx.
  - injection Hx as ->. exists [], l. split_and!; [done|by apply Hp|].
    intros z Hz. by apply elem_of_nil in Hz.
  - destruct (IH Hx) as (before & after & -> & HP & Hb). exists (y :: before), after.
    split_and!; [done|done|]. intros z [->|Hz]%elem_of_cons; [|by apply Hb].
    rewrite <- Hp, Hy. done.
Qed.

Section verdicts.
Context `{RM : RelayModules} `{UDB : UnicodeDB}.
Implicit Types (db : Session).

(** ** When each verdict applies *)

Definition settled_long_ago db now w : Prop :=
  ∀ e t, e ∈ events db → PlatformOutboxEvent.sent_at e = Some t →
         older ((now - t) `quot` 1000000) (w_settled_within w) = true.
Definition overdue db now w (e : PlatformOutboxEvent.t) : Prop :=
  e ∈ events db ∧ PlatformOutboxEvent.status e = PENDING ∧
  PlatformOutboxEvent.available_at e ≤ now - w_overdue_after w.
Definition failing_or_dead (e : PlatformOutboxEvent.t) : Prop :=
  PlatformOutboxEvent.status e = DEAD ∨
  (PlatformOutboxEvent.status e = PENDING ∨ PlatformOutboxEvent.status e = CLAIMED) ∧
  0 < PlatformOutboxEvent.attempts e.
Definition outbox_readable db : Prop :=
  statement_error OutboxEvents db = None ∧ statement_error Outcomes db = None ∧
  statement_error Resolutions db = None.
Definition heartbeat_readable db : Prop := statement_error Heartbeats db = None.
(** The heartbeat's failed statement also costs the outbox on PostgreSQL. *)
Definition unknown db w : Prop :=
  ¬ outbox_readable db ∨
  ¬ heartbeat_readable db ∧ (w_relay_expected w = true ∨ postgresql db = true).

Definition holds db now w (v : RelayVerdict.t) : Prop :=
  match v with
  | RelayVerdict.RELAY_STATE_UNKNOWN => unknown db w
  | RelayVerdict.WITHDRAWAL_CONFLICT_UNRESOLVED =>
      ∃ o, o ∈ outcomes db ∧ Outcome.is_conflict o = true ∧
           Outcome.id o ∉ Resolution.outcome_id <$> resolutions db
  | RelayVerdict.WITHDRAWAL_DEAD_LETTERED =>
      ∃ e, e ∈ events db ∧ PlatformOutboxEvent.event_type e = APPROVAL_WITHDRAWN_EVENT_TYPE ∧
           PlatformOutboxEvent.status e = DEAD
  | RelayVerdict.WITHDRAWAL_DELIVERY_FAILING =>
      ∃ e, e ∈ events db ∧ PlatformOutboxEvent.event_type e = APPROVAL_WITHDRAWN_EVENT_TYPE ∧
           (PlatformOutboxEvent.status e = PENDING ∨ PlatformOutboxEvent.status e = CLAIMED) ∧
           0 < PlatformOutboxEvent.attempts e
  | RelayVerdict.APPROVAL_EVENT_UNROUTED =>
      ∃ e, e ∈ events db ∧ (∃ s, PlatformOutboxEvent.event_type e = lit "approval." ++ s) ∧
           PlatformOutboxEvent.event_type e ≠ APPROVAL_WITHDRAWN_EVENT_TYPE ∧ failing_or_dead e
  | RelayVerdict.ACTIVATION_DEAD_LETTERED =>
      ∃ e, e ∈ events db ∧ PlatformOutboxEvent.status e = DEAD
  | RelayVerdict.RELAY_NOT_RUNNING =>
      w_relay_expected w = true ∧
      ∀ h, h ∈ heartbeats db →
           older ((now - RelayHeartbeat.last_polled_at h) `quot` 1000000)
             (w_heartbeat_stale_after w) = true
  | RelayVerdict.ACTIVATION_LEASE_STALE =>
      ∃ e t, e ∈ events db ∧ PlatformOutboxEvent.status e = CLAIMED ∧
             PlatformOutboxEvent.leased_at e = Some t ∧ t ≤ now - w_stale_lease_after w
  | RelayVerdict.RELAY_WEDGED =>
      w_relay_expected w = true ∧ (∃ e, overdue db now w e) ∧ settled_long_ago db now w
  | RelayVerdict.ACTIVATION_BACKLOG_OVERDUE => ∃ e, overdue db now w e
  | RelayVerdict.DRAINING => True
  end.

(** ** The same over the signals *)

Definition signal_holds (s : signals) (v : RelayVerdict.t) : bool :=
  match v with
  | RelayVerdict.RELAY_STATE_UNKNOWN => false
  | RelayVerdict.WITHDRAWAL_CONFLICT_UNRESOLVED => 0 <? unresolved_withdrawal_conflicts s
  | RelayVerdict.WITHDRAWAL_DEAD_LETTERED => 0 <? withdrawal_dead s
  | RelayVerdict.WITHDRAWAL_DELIVERY_FAILING => 0 <? withdrawal_failing s
  | RelayVerdict.APPROVAL_EVENT_UNROUTED => 0 <? unrouted_approval_events s
  | RelayVerdict.ACTIVATION_DEAD_LETTERED => 0 <? dead_total s
  | RelayVerdict.RELAY_NOT_RUNNING =>
      relay_expected s &&
      match heartbeat_age s with
      | None => true
      | Some age => older age (heartbeat_stale_after s)
      end
  | RelayVerdict.ACTIVATION_LEASE_STALE => 0 <? stale_lease_total s
  | RelayVerdict.RELAY_WEDGED =>
      relay_expected s && (0 <? overdue_total s) &&
      match settled_age s with None => true | Some age => older age (settled_within s) end
  | RelayVerdict.ACTIVATION_BACKLOG_OVERDUE => 0 <? overdue_total s
  | RelayVerdict.DRAINING => true
  end.

Lemma verdict_first s : first_such (signal_holds s) VERDICT_PRECEDENCE = Some (_verdict s).
Proof.
  unfold VERDICT_PRECEDENCE, _verdict. cbn [first_such signal_holds].
  repeat (match goal with |- context [if (0 <? ?x) then _ else _] => destruct (0 <? x) end; [done|]).
  destruct (relay_expected s); cbn [andb negb].
  - case_match; [case_match|]; try done; destruct (0 <? stale_lease_total s); try done;
      destruct (0 <? overdue_total s); try done; cbn [andb];
      destruct (settled_age s); cbn [negb]; try done; by destruct (older _ (settled_within s)).
  - destruct (0 <? stale_lease_total s); [done|]. by destruct (0 <? overdue_total s).
Qed.

(** ** Counts as existence *)

Lemma rows_where_pos p db : (0 <? rows_where p db) = true ↔ ∃ e, e ∈ events db ∧ p e = true.
Proof.
  unfold rows_where, count_if. rewrite Z.ltb_lt. split.
  - intros H. destruct (filter _ (events db)) as [|e l] eqn:Hf; [simpl in H; lia|].
    exists e. assert (He : e ∈ filter (λ e, p e = true) (events db)) by (rewrite Hf; by left).
    apply list_elem_of_filter in He. tauto.
  - intros (e & He & Hp).
    assert (Hf : e ∈ filter (λ e, p e = true) (events db)) by (by apply list_elem_of_filter).
    destruct (filter _ (events db)); [by apply elem_of_nil in Hf|simpl; lia].
Qed.

Lemma rows_where_nonneg p db : 0 ≤ rows_where p db.
Proof. unfold rows_where. lia. Qed.

Lemma exists_iff {A} (l : list A) (P Q : A → Prop) :
  (∀ x, P x ↔ Q x) → (∃ x, x ∈ l ∧ P x) ↔ (∃ x, x ∈ l ∧ Q x).
Proof. intros H. split; intros (x & Hx & HP); exists x; (split; [done|by apply H]). Qed.

(** What each statement's WHERE clause selects. *)
Lemma selects_spec f e :
  selects f e = true ↔
  PlatformOutboxEvent.status e = f_status f ∧
  (∀ t, f_event_type f = Some t → PlatformOutboxEvent.event_type e = t) ∧
  (∀ t, f_due_at_or_before f = Some t → PlatformOutboxEvent.available_at e ≤ t) ∧
  (∀ t, f_leased_at_or_before f = Some t →
        ∃ l, PlatformOutboxEvent.leased_at e = Some l ∧ l ≤ t) ∧
  (∀ n, f_attempts_greater_than f = Some n → n < PlatformOutboxEvent.attempts e).
Proof.
  unfold selects, given. rewrite !andb_true_iff, bool_decide_eq_true.
  assert (Hg : ∀ A (o : option A) (p : A → bool) (P : A → Prop),
    (∀ a, p a = true ↔ P a) →
    match o with Some a => p a | None => true end = true ↔ (∀ a, o = Some a → P a)).
  { intros A [a|] p P H; [rewrite H|]; split; [by intros ? ? [= <-]|by intros H'; apply H'|done|done]. }
  rewrite (Hg _ (f_event_type f) _ (λ t, PlatformOutboxEvent.event_type e = t)) by (intros; apply bool_decide_eq_true).
  rewrite (Hg _ (f_due_at_or_before f) _ (λ t, PlatformOutboxEvent.available_at e ≤ t)) by (intros; apply Z.leb_le).
  rewrite (Hg _ (f_attempts_greater_than f) _ (λ n, n < PlatformOutboxEvent.attempts e)) by (intros; apply Z.ltb_lt).
  rewrite (Hg _ (f_leased_at_or_before f) _ (λ t, ∃ l, PlatformOutboxEvent.leased_at e = Some l ∧ l ≤ t)); [tauto|].
  intros t. destruct (PlatformOutboxEvent.leased_at e) as [l|].
  - rewrite Z.leb_le. split; [by eauto|]. by intros (? & [= <-] & ?).
  - split; [done|]. by intros (? & ? & ?).
Qed.

Lemma unrouted_spec e :
  unrouted e = true ↔
  (∃ s, PlatformOutboxEvent.event_type e = lit "approval." ++ s) ∧
  PlatformOutboxEvent.event_type e ≠ APPROVAL_WITHDRAWN_EVENT_TYPE ∧ failing_or_dead e.
Proof.
  unfold unrouted, failing_or_dead.
  rewrite !andb_true_iff, !orb_true_iff, !andb_true_iff, negb_true_iff, bool_decide_eq_false,
    !bool_decide_eq_true, Z.ltb_lt, starts_with_spec. tauto.
Qed.

Lemma unresolved_pos db :
  (0 <? Z.of_nat (count_if (λ o, unresolved db o = true) (outcomes db))) = true ↔
  ∃ o, o ∈ outcomes db ∧ Outcome.is_conflict o = true ∧
       Outcome.id o ∉ Resolution.outcome_id <$> resolutions db.
Proof.
  unfold count_if. rewrite Z.ltb_lt.
  assert (Hf : ∀ o, o ∈ filter (λ o, unresolved db o = true) (outcomes db) ↔
    o ∈ outcomes db ∧ Outcome.is_conflict o = true ∧
    Outcome.id o ∉ Resolution.outcome_id <$> resolutions db).
  { intros o. rewrite list_elem_of_filter. unfold unresolved.
    rewrite andb_true_iff, negb_true_iff, bool_decide_eq_false. tauto. }
  split.
  - intros H. destruct (filter _ (outcomes db)) as [|o l] eqn:Hl; [simpl in H; lia|].
    exists o. apply Hf. by left.
  - intros (o & Ho%Hf). destruct (filter _ (outcomes db)); [by apply elem_of_nil in Ho|simpl; lia].
Qed.

(** ** The two ways an observation ends *)

Definition signals_of db now w (beat : HeartbeatState) : signals :=
  {| dead_total := rows_where (selects (with_status DEAD)) db;
     stale_lease_total :=
       rows_where (selects (leased_by (now - w_stale_lease_after w) (with_status CLAIMED))) db;
     overdue_total :=
       rows_where (selects (due_by (now - w_overdue_after w) (with_status PENDING))) db;
     heartbeat_age := _age_seconds (freshest_poll beat) now;
     settled_age := _age_seconds (sql_max (PlatformOutboxEvent.sent_at <$> events db)) now;
     heartbeat_stale_after := w_heartbeat_stale_after w;
     settled_within := w_settled_within w;
     relay_expected := w_relay_expected w;
     withdrawal_failing :=
       rows_where (selects (attempted_over 0
         (of_type APPROVAL_WITHDRAWN_EVENT_TYPE (with_status PENDING)))) db +
       rows_where (selects (attempted_over 0
         (of_type APPROVAL_WITHDRAWN_EVENT_TYPE (with_status CLAIMED)))) db;
     withdrawal_dead :=
       rows_where (selects (of_type APPROVAL_WITHDRAWN_EVENT_TYPE (with_status DEAD))) db;
     unresolved_withdrawal_conflicts :=
       Z.of_nat (count_if (λ o, unresolved db o = true) (outcomes db));
     unrouted_approval_events := rows_where unrouted db |}.

Lemma observe_readable db now w beat :
  outbox_readable db →
  ∃ h, observe db now w beat = Ok h ∧ RelayHealth.verdict h = _verdict (signals_of db now w beat) ∧
    RelayHealth.dead_total h = Some (dead_total (signals_of db now w beat)) ∧
    RelayHealth.overdue_total h = Some (overdue_total (signals_of db now w beat)) ∧
    RelayHealth.pending_total h = Some (rows_where (selects (with_status PENDING)) db).
Proof.
  intros (He & Ho & Hr). unfold observe, _count, unresolved_conflicts, _unrouted_approval_events_total.
  repeat (rewrite query_readable by done; cbn [mbind res_bind]).
  eexists. split; [reflexivity|]. done.
Qed.

Lemma observe_unreadable db now w beat : ¬ outbox_readable db → ∃ e, observe db now w beat = Raise e.
Proof.
  intros Hu. destruct (observe db now w beat) as [h|e] eqn:Ho; [|by eauto].
  exfalso. apply Hu. unfold observe, _count, unresolved_conflicts, _unrouted_approval_events_total in Ho.
  repeat match type of Ho with
  | mbind _ _ = Ok _ =>
      let v := fresh "v" in let H := fresh "H" in
      apply bind_Ok in Ho as (v & H & Ho)
  end.
  repeat match goal with
  | H : mbind _ _ = Ok _ |- _ =>
      let v := fresh "v" in let H1 := fresh "H" in apply bind_Ok in H as (v & H1 & H)
  | H : query _ _ _ = Ok _ |- _ => apply query_Ok in H as [? _]
  end. done.
Qed.

Lemma statement_error_abort R db :
  statement_error R (abort db) = None → statement_error R db = None.
Proof.
  unfold statement_error. simpl. destruct (reachable db), (postgresql db), (aborted db); done.
Qed.

Lemma abort_postgresql R db : postgresql db = true → statement_error R (abort db) ≠ None.
Proof. intros H. unfold statement_error. simpl. rewrite H. by destruct (reachable db). Qed.

Lemma abort_sqlite R db :
  postgresql db = false → statement_error R db = None → statement_error R (abort db) = None.
Proof. intros H. unfold statement_error. simpl. by rewrite H. Qed.

(** ** Each signal is its row condition *)

Definition beat_of db : HeartbeatState :=
  {| observed := true;
     freshest_poll := sql_max (Some ∘ RelayHeartbeat.last_polled_at <$> heartbeats db);
     freshest_claim := sql_max (RelayHeartbeat.last_claimed_at <$> heartbeats db) |}.

Lemma read_spec db :
  (heartbeat_readable db ∧ read db = (db, beat_of db)) ∨
  (¬ heartbeat_readable db ∧
   read db = (abort db, {| observed := false; freshest_poll := None; freshest_claim := None |})).
Proof.
  unfold read, heartbeat_readable, query. destruct (statement_error Heartbeats db); [right|left]; done.
Qed.

Lemma overdue_signal db now w :
  (0 <? rows_where (selects (due_by (now - w_overdue_after w) (with_status PENDING))) db) = true ↔
  ∃ e, overdue db now w e.
Proof.
  rewrite rows_where_pos. unfold overdue. apply exists_iff. intros e. rewrite selects_spec. simpl.
  split; [|intros [? ?]; split_and!; try done; intros ? [= <-]; done].
  intros (? & _ & H & _). split; [done|]. by apply H.
Qed.

Lemma typed_signal t st db :
  (0 <? rows_where (selects (of_type t (with_status st))) db) = true ↔
  ∃ e, e ∈ events db ∧ PlatformOutboxEvent.event_type e = t ∧ PlatformOutboxEvent.status e = st.
Proof.
  rewrite rows_where_pos. apply exists_iff. intros e. rewrite selects_spec. simpl.
  split; [|intros [? ?]; split_and!; try done; intros ? [= <-]; done].
  intros (? & H & _). split; [by apply H|done].
Qed.

Lemma failing_signal t st db :
  (0 <? rows_where (selects (attempted_over 0 (of_type t (with_status st)))) db) = true ↔
  ∃ e, e ∈ events db ∧ PlatformOutboxEvent.event_type e = t ∧
       PlatformOutboxEvent.status e = st ∧ 0 < PlatformOutboxEvent.attempts e.
Proof.
  rewrite rows_where_pos. apply exists_iff. intros e. rewrite selects_spec. simpl.
  split; [|intros (? & ? & ?); split_and!; try done; intros ? [= <-]; done].
  intros (? & H & _ & _ & Ha). split_and!; [by apply H|done|by apply Ha].
Qed.

Lemma status_signal st db :
  (0 <? rows_where (selects (with_status st)) db) = true ↔
  ∃ e, e ∈ events db ∧ PlatformOutboxEvent.status e = st.
Proof.
  rewrite rows_where_pos. apply exists_iff. intros e. rewrite selects_spec. simpl. naive_solver.
Qed.

Lemma leased_signal st t db :
  (0 <? rows_where (selects (leased_by t (with_status st))) db) = true ↔
  ∃ e l, e ∈ events db ∧ PlatformOutboxEvent.status e = st ∧
         PlatformOutboxEvent.leased_at e = Some l ∧ l ≤ t.
Proof.
  rewrite rows_where_pos. split.
  - intros (e & He & Hs). rewrite selects_spec in Hs. simpl in Hs.
    destruct Hs as (? & _ & _ & Hl & _). destruct (Hl t eq_refl) as (l & ? & ?). by exists e, l.
  - intros (e & l & He & Hs & Hl & Ht). exists e. split; [done|]. rewrite selects_spec. simpl.
    split_and!; try done. intros ? [= <-]. by exists l.
Qed.

Lemma sum_pos a b : 0 ≤ a → 0 ≤ b → (0 <? a + b) = true ↔ (0 <? a) = true ∨ (0 <? b) = true.
Proof. rewrite !Z.ltb_lt. lia. Qed.

Lemma signal_holds_spec db now w beat v :
  v ≠ RelayVerdict.RELAY_STATE_UNKNOWN →
  (w_relay_expected w = true → freshest_poll beat = freshest_poll (beat_of db)) →
  signal_holds (signals_of db now w beat) v = true ↔ holds db now w v.
Proof.
  intros Hv Hb. destruct v; cbn [signal_holds holds signals_of dead_total stale_lease_total
    overdue_total heartbeat_age settled_age heartbeat_stale_after settled_within relay_expected
    withdrawal_failing withdrawal_dead unresolved_withdrawal_conflicts unrouted_approval_events].
  - done.
  - rewrite andb_true_iff. destruct (w_relay_expected w); [|naive_solver].
    rewrite Hb by done. simpl. rewrite all_old.
    split; (intros [_ H]; split; [done|]).
    + intros h Hh. apply H. by apply (list_elem_of_fmap_2 (Some ∘ RelayHeartbeat.last_polled_at)).
    + intros x (h & [= ->] & Hh)%list_elem_of_fmap. by apply H.
  - rewrite !andb_true_iff, overdue_signal, all_old. unfold settled_long_ago.
    split; (intros H; split_and!; [apply H|apply H|]); destruct H as [H1 H2].
    + intros e t He Ht. apply H2. rewrite <- Ht. by apply list_elem_of_fmap_2.
    + destruct H2 as [_ H2]. intros x (e & Ht & He)%list_elem_of_fmap. by eapply H2.
  - apply overdue_signal.
  - apply leased_signal.
  - apply status_signal.
  - done.
  - apply unresolved_pos.
  - rewrite rows_where_pos. apply exists_iff, unrouted_spec.
  - apply typed_signal.
  - rewrite sum_pos by apply rows_where_nonneg. rewrite !failing_signal.
    split; [naive_solver|]. intros (e & He & Ht & [Hs|Hs] & Ha); [left|right]; by exists e.
Qed.

(** What [relay_health] answers, in both cases. *)
Lemma relay_health_spec db now w :
  (unknown db w ∧ relay_health db now w = RelayHealth.of_verdict RelayVerdict.RELAY_STATE_UNKNOWN) ∨
  (¬ unknown db w ∧ ∃ beat,
     (w_relay_expected w = true → freshest_poll beat = freshest_poll (beat_of db)) ∧
     RelayHealth.verdict (relay_health db now w) = _verdict (signals_of db now w beat) ∧
     RelayHealth.dead_total (relay_health db now w) =
       Some (rows_where (selects (with_status DEAD)) db) ∧
     RelayHealth.overdue_total (relay_health db now w) =
       Some (rows_where (selects (due_by (now - w_overdue_after w) (with_status PENDING))) db) ∧
     RelayHealth.pending_total (relay_health db now w) =
       Some (rows_where (selects (with_status PENDING)) db)).
Proof.
  unfold relay_health, unknown. destruct (decide (outbox_readable db)) as [Ho|Ho].
  2:{ left. split; [by left|]. destruct (read_spec db) as [[_ ->]|[_ ->]]; case_match; try done.
      - by destruct (observe_unreadable db now w (beat_of db) Ho) as [e ->].
      - match goal with |- context [observe _ _ _ ?b] =>
          destruct (observe_unreadable (abort db) now w b) as [e ->]; [|done] end.
        contradict Ho. destruct Ho as (? & ? & ?). split_and!; by apply statement_error_abort. }
  destruct (read_spec db) as [[Hh ->]|[Hh ->]]; cbn [observed negb].
  - rewrite andb_false_r. right. split; [tauto|]. exists (beat_of db).
    destruct (observe_readable db now w (beat_of db) Ho) as (h & -> & ? & ? & ? & ?). done.
  - rewrite andb_true_r. destruct (w_relay_expected w) eqn:Hw; [left; tauto|].
    destruct (postgresql db) eqn:Hpg.
    + left. split; [right; tauto|]. match goal with |- context [observe _ _ _ ?b] =>
        destruct (observe_unreadable (abort db) now w b) as [e ->]; [|done] end.
      intros (H & _). by eapply abort_postgresql in H.
    + right. split; [intros [?|[_ [?|?]]]; done|].
      eexists {| observed := false; freshest_poll := None; freshest_claim := None |}.
      assert (Ho' : outbox_readable (abort db)).
      { destruct Ho as (? & ? & ?). split_and!; by apply abort_sqlite. }
      match goal with |- context [observe _ _ _ ?b] =>
        destruct (observe_readable (abort db) now w b Ho') as (h & -> & ? & ? & ? & ?) end.
      done.
Qed.

Lemma unknown_first db now w :
  unknown db w → first_holding (holds db now w) VERDICT_PRECEDENCE RelayVerdict.RELAY_STATE_UNKNOWN.
Proof.
  intros Hu. exists [], (tail VERDICT_PRECEDENCE). split_and!; [done|done|].
  intros y Hy. by apply elem_of_nil in Hy.
Qed.

Lemma first_holding_known db now w s :
  ¬ unknown db w →
  (∀ v, v ≠ RelayVerdict.RELAY_STATE_UNKNOWN → signal_holds s v = true ↔ holds db now w v) →
  first_holding (holds db now w) VERDICT_PRECEDENCE (_verdict s).
Proof.
  intros Hu Hs. eapply first_such_first_holding; [|apply verdict_first].
  intros v. destruct (decide (v = RelayVerdict.RELAY_STATE_UNKNOWN)) as [->|Hv]; [done|by apply Hs].
Qed.

Lemma relay_health_first db now w :
  first_holding (holds db now w) VERDICT_PRECEDENCE (RelayHealth.verdict (relay_health db now w)).
Proof.
  destruct (relay_health_spec db now w) as [[Hu ->]|(Hu & beat & Hb & -> & _)].
  - by apply unknown_first.
  - apply first_holding_known; [done|]. intros v Hv. by apply signal_holds_spec.
Qed.

Lemma verdict_known s : _verdict s ≠ RelayVerdict.RELAY_STATE_UNKNOWN.
Proof.
  pose proof (verdict_first s) as H. intros Hv. rewrite Hv in H.
  by apply first_such_Some in H as [_ H].
Qed.

(** Every verdict has its place in the order, the relay draining last. *)
Lemma draining_last db now w v :
  first_holding (holds db now w) VERDICT_PRECEDENCE v →
  v = RelayVerdict.DRAINING ↔ ∀ u, u ≠ RelayVerdict.DRAINING → ¬ holds db now w u.
Proof.
  intros (before & after & Hl & Hv & Hb). split.
  - intros -> u Hu. apply Hb.
    assert (Hin : u ∈ VERDICT_PRECEDENCE) by (destruct u; set_solver).
    assert (Hb' : before = take 10 VERDICT_PRECEDENCE).
    { destruct (decide (length before = 10%nat)) as [Hlen|Hlen].
      - rewrite Hl, <- Hlen. by rewrite take_app_length.
      - exfalso. assert (Hat : VERDICT_PRECEDENCE !! length before = Some RelayVerdict.DRAINING).
        { rewrite Hl. by apply list_lookup_middle. }
        do 10 (destruct before as [|? before]; [discriminate|]). simpl in Hlen, Hat.
        destruct before; [done|discriminate]. }
    rewrite Hb'. destruct u; try done; vm_compute; set_solver.
  - intros Hn. destruct (decide (v = RelayVerdict.DRAINING)) as [|Hd]; [done|].
    exfalso. by apply (Hn v).
Qed.
End verdicts.

(** ** Stamping *)

Section heartbeat.
Context `{RM : RelayModules}.
Implicit Types (db : Session).

Record poll := Poll { p_worker : pystr; p_now : Z; p_claimed : bool }.

Fixpoint run_polls (polls : list poll) db : res Session :=
  match polls with
  | [] => Ok db
  | p :: polls => db ← stamp db (p_worker p) (p_now p) (p_claimed p); run_polls polls db
  end.

(** What a worker's row says after its polls: the first, the last, and the last
    that claimed. *)
Definition tells (polls : list poll) (r : RelayHeartbeat.t) : Prop :=
  let mine := filter (λ p, p_worker p = RelayHeartbeat.worker_id r) polls in
  head (p_now <$> mine) = Some (RelayHeartbeat.started_at r) ∧
  last (p_now <$> mine) = Some (RelayHeartbeat.last_polled_at r) ∧
  last (p_now <$> filter (λ p, p_claimed p = true) mine) = RelayHeartbeat.last_claimed_at r.

Definition one_row_each (polls : list poll) db : Prop :=
  NoDup (RelayHeartbeat.worker_id <$> heartbeats db) ∧
  (∀ r, r ∈ heartbeats db → tells polls r) ∧
  (∀ p, p ∈ polls → p_worker p ∈ RelayHeartbeat.worker_id <$> heartbeats db).

Lemma run_polls_snoc polls p db :
  run_polls (polls ++ [p]) db =
    (db ← run_polls polls db; stamp db (p_worker p) (p_now p) (p_claimed p)).
Proof.
  revert db. induction polls as [|q polls IH]; intros db; simpl.
  - by destruct (stamp _ _ _ _).
  - destruct (stamp _ _ _ _); simpl; [apply IH|done].
Qed.

(** One more element, at the end of what is filtered. *)
Lemma filter_more {E} (kept : E → Prop) `{∀ e, Decision (kept e)} e es :
  filter kept (es ++ [e]) = filter kept es ++ if decide (kept e) then [e] else [].
Proof. rewrite filter_app. reflexivity. Qed.

Lemma tells_other polls p r :
  p_worker p ≠ RelayHeartbeat.worker_id r → tells polls r → tells (polls ++ [p]) r.
Proof.
  intros Hp. unfold tells. cbv zeta. rewrite filter_more, decide_False by done.
  by rewrite app_nil_r.
Qed.

Lemma tells_again polls p r :
  p_worker p = RelayHeartbeat.worker_id r → tells polls r →
  tells (polls ++ [p])
    {| RelayHeartbeat.worker_id := RelayHeartbeat.worker_id r;
       RelayHeartbeat.started_at := RelayHeartbeat.started_at r;
       RelayHeartbeat.last_polled_at := p_now p;
       RelayHeartbeat.last_claimed_at :=
         match (if p_claimed p then Some (p_now p) else None) with
         | Some t => Some t
         | None => RelayHeartbeat.last_claimed_at r
         end |}.
Proof.
  intros Hp (Hs & Hl & Hc). unfold tells in *. cbv zeta in *. simpl.
  rewrite filter_more, decide_True by done. rewrite fmap_app, filter_more. split_and!.
  - destruct (p_now <$> filter _ polls); [done|exact Hs].
  - csimpl. by rewrite last_snoc.
  - case_decide as Hd.
    + rewrite Hd, fmap_app. csimpl. by rewrite last_snoc.
    + rewrite app_nil_r. destruct (p_claimed p); [done|exact Hc].
Qed.

Lemma tells_first polls p :
  (∀ q, q ∈ polls → p_worker q ≠ p_worker p) →
  tells (polls ++ [p])
    {| RelayHeartbeat.worker_id := p_worker p; RelayHeartbeat.started_at := p_now p;
       RelayHeartbeat.last_polled_at := p_now p;
       RelayHeartbeat.last_claimed_at := if p_claimed p then Some (p_now p) else None |}.
Proof.
  intros Hn. unfold tells. cbv zeta. simpl.
  assert (Hf : filter (λ q, p_worker q = p_worker p) polls = []).
  { destruct (filter _ polls) as [|q l] eqn:Hq; [done|]. exfalso.
    assert (Hin : q ∈ filter (λ q, p_worker q = p_worker p) polls) by (rewrite Hq; by left).
    apply list_elem_of_filter in Hin as [He Hin]. by apply (Hn q). }
  rewrite filter_more, Hf, decide_True by done. cbn [app]. split_and!; [done|done|].
  rewrite filter_cons. case_decide as Hd; [by rewrite Hd|]. by destruct (p_claimed p).
Qed.

Lemma stamp_step polls p db db' :
  one_row_each polls db → stamp db (p_worker p) (p_now p) (p_claimed p) = Ok db' →
  one_row_each (polls ++ [p]) db' ∧ fault db' = fault db ∧ statement_error Heartbeats db' = None.
Proof.
  intros (Hnd & Ht & Hall) [Hq ->]%query_Ok. destruct (existsb _ _) eqn:Hex.
  - split; [|done]. apply existsb_exists in Hex as (r0 & Hr0%list_elem_of_In & Hw).
    apply bool_decide_eq_true in Hw.
    assert (Hids : ∀ f : RelayHeartbeat.t → RelayHeartbeat.t,
      (∀ r, RelayHeartbeat.worker_id (f r) = RelayHeartbeat.worker_id r) →
      RelayHeartbeat.worker_id <$> (f <$> heartbeats db) = RelayHeartbeat.worker_id <$> heartbeats db).
    { intros f Hf. rewrite <- list_fmap_compose. apply list_fmap_ext. intros i r _. apply Hf. }
    unfold one_row_each. simpl. rewrite Hids by (intros r; by case_bool_decide).
    split_and!; [done| |].
    + intros x (r & -> & Hr)%list_elem_of_fmap. case_bool_decide as Hwr.
      * apply tells_again; [done|by apply Ht].
      * apply tells_other; [done|by apply Ht].
    + intros q [Hq'| ->%list_elem_of_singleton]%elem_of_app; [by apply Hall|].
      rewrite <- Hw. by apply (list_elem_of_fmap_2 RelayHeartbeat.worker_id).
  - split; [|done]. assert (Hnew : ∀ r, r ∈ heartbeats db → RelayHeartbeat.worker_id r ≠ p_worker p).
    { intros r Hr Hw. apply not_true_iff_false in Hex. apply Hex, existsb_exists. exists r.
      split; [by apply list_elem_of_In|by apply bool_decide_eq_true]. }
    unfold one_row_each. simpl. rewrite fmap_app. split_and!.
    + apply NoDup_app. split_and!; [done| |apply NoDup_singleton].
      intros x (r & -> & Hr)%list_elem_of_fmap Hx%list_elem_of_singleton. by apply (Hnew r).
    + intros x [Hx| ->%list_elem_of_singleton]%elem_of_app.
      * apply tells_other; [|by apply Ht]. intros Hp. by apply (Hnew x).
      * apply tells_first. intros q Hq' Hw.
        apply Hall, list_elem_of_fmap in Hq' as (r & Hr & Hin). apply (Hnew r Hin). congruence.
    + intros q [Hq'| ->%list_elem_of_singleton]%elem_of_app; apply elem_of_app;
        [left; by apply Hall|right; by left].
Qed.

Lemma run_polls_rows polls db :
  statement_error Heartbeats db = None → heartbeats db = [] →
  ∃ db', run_polls polls db = Ok db' ∧ one_row_each polls db' ∧
         statement_error Heartbeats db' = None.
Proof.
  intros Hq He. induction polls as [|p polls IH] using rev_ind.
  - exists db. split; [done|]. split; [|done]. unfold one_row_each. rewrite He. simpl.
    split_and!; [constructor| |]; intros x Hx; by apply elem_of_nil in Hx.
  - destruct IH as (db1 & Hr & Ho & Hq1). rewrite run_polls_snoc, Hr. cbn [mbind res_bind].
    destruct (stamp db1 (p_worker p) (p_now p) (p_claimed p)) as [db2|e] eqn:Hs.
    + exists db2. split; [done|]. by apply (stamp_step polls p db1) in Hs as (? & _ & ?).
    + unfold stamp in Hs. rewrite query_readable in Hs; done.
Qed.
End heartbeat.

(** ** Properties *)

Section properties.
Context `{RM : RelayModules} `{UDB : UnicodeDB}.

(** the relay's verdict is the first member of the declared precedence
    that the rows bear out, whatever the tables hold; it is unknown exactly
    when a source could not be read, and then nothing else is claimed,
    otherwise the counts are the counts of the rows. *)
Theorem relay_verdict_exact db now w :
  let h := relay_health db now w in
  first_holding (holds db now w) VERDICT_PRECEDENCE (RelayHealth.verdict h) ∧
  (RelayHealth.health_observed h = true ↔ ¬ unknown db w) ∧
  (unknown db w → h = RelayHealth.of_verdict RelayVerdict.RELAY_STATE_UNKNOWN) ∧
  (¬ unknown db w →
   RelayHealth.dead_total h = Some (rows_where (selects (with_status DEAD)) db) ∧
   RelayHealth.pending_total h = Some (rows_where (selects (with_status PENDING)) db) ∧
   RelayHealth.overdue_total h =
     Some (rows_where (selects (due_by (now - w_overdue_after w) (with_status PENDING))) db)).
Proof.
  cbv zeta. split; [apply relay_health_first|]. unfold RelayHealth.health_observed.
  destruct (relay_health_spec db now w) as [[Hu ->]|(Hu & beat & Hb & Hv & Hd & Ho & Hp)].
  - simpl. split_and!; [by split|done|done].
  - rewrite Hv, negb_true_iff, bool_decide_eq_false. split_and!; [|done|by intros _].
    split; [done|]. intros _. apply verdict_known.
Qed.

(** Readiness always answers; it says ready exactly when the database
    answers and none of the relay's red conditions holds of the rows; and its
    one word is the verdict's own, or that the database is unreachable. *)
Theorem readiness_exact db now w :
  ∃ rep, check_readiness db now w = Ok rep ∧
    (ready rep = true ↔
     PROBE db = true ∧ ∀ v, v ≠ RelayVerdict.DRAINING → ¬ holds db now w v) ∧
    ReadinessDetail.value (detail rep) =
      (if negb (PROBE db) then lit "database_unreachable"
       else if ready rep then lit "ready"
       else RelayVerdict.value (RelayHealth.verdict (relay_health db now w))).
Proof.
  unfold check_readiness. destruct (PROBE db); cbn [negb].
  2:{ eexists. split_and!; [done|simpl; naive_solver|done]. }
  pose proof (draining_last _ _ _ _ (relay_health_first db now w)) as Hd.
  destruct (RelayHealth.verdict (relay_health db now w)) eqn:Hv; cbv zeta;
    (eexists; split; [reflexivity|]; split; [|reflexivity]); simpl;
    rewrite <- Hd; split; try done; naive_solver.
Qed.

(** After any polls of any workers, the heartbeat table has one row per
    worker that polled, telling its first poll, its last poll, and its last
    poll that claimed something: an idle poll never erases a claim. *)
Theorem heartbeat_rows polls db :
  statement_error Heartbeats db = None → heartbeats db = [] →
  ∃ db', run_polls polls db = Ok db' ∧
    NoDup (RelayHeartbeat.worker_id <$> heartbeats db') ∧
    (∀ x, x ∈ RelayHeartbeat.worker_id <$> heartbeats db' ↔ x ∈ p_worker <$> polls) ∧
    (∀ r, r ∈ heartbeats db' → tells polls r) ∧
    freshest_poll (read db').2 =
      sql_max (Some ∘ RelayHeartbeat.last_polled_at <$> heartbeats db').
Proof.
  intros Hq He. destruct (run_polls_rows polls db Hq He) as (db' & Hr & (Hn & Ht & Ha) & Hq').
  exists db'. split_and!; [done|done| |done|].
  - intros x. split.
    + intros (r & -> & Hin)%list_elem_of_fmap. destruct (Ht r Hin) as [Hs _].
      destruct (filter _ polls) as [|p l] eqn:Hf; [done|].
      assert (Hp : p ∈ filter (λ p, p_worker p = RelayHeartbeat.worker_id r) polls)
        by (rewrite Hf; by left).
      apply list_elem_of_filter in Hp as [<- Hp]. by apply list_elem_of_fmap_2.
    + intros (p & -> & Hp)%list_elem_of_fmap. by apply Ha.
  - destruct (read_spec db') as [[_ ->]|[Hh _]]; [done|done].
Qed.
End properties.

Lemma relay_verdict_exact_witness :
  unknown (abort relay_failing)
    {| w_overdue_after := 1; w_stale_lease_after := 5000000; w_heartbeat_stale_after := 5000000;
       w_settled_within := 1; w_relay_expected := true |} ∧
  first_holding
    (holds relay_failing 100000000
      {| w_overdue_after := 1; w_stale_lease_after := 5000000; w_heartbeat_stale_after := 5000000;
         w_settled_within := 1; w_relay_expected := true |})
    VERDICT_PRECEDENCE RelayVerdict.WITHDRAWAL_DELIVERY_FAILING.
Proof.
  split.
  - left. intros (H & _). vm_compute in H. discriminate.
  - apply (relay_verdict_exact relay_failing 100000000
      {| w_overdue_after := 1; w_stale_lease_after := 5000000; w_heartbeat_stale_after := 5000000;
         w_settled_within := 1; w_relay_expected := true |}).
Defined.

Lemma heartbeat_rows_witness :
  ∃ db', run_polls [Poll (lit "w") 5 true; Poll (lit "v") 6 false; Poll (lit "w") 7 false]
           relay_empty = Ok db' ∧
    (λ r, RelayHeartbeat.last_claimed_at r) <$> heartbeats db' = [Some 5; None].
Proof.
  destruct (heartbeat_rows
    [Poll (lit "w") 5 true; Poll (lit "v") 6 false; Poll (lit "w") 7 false] relay_empty
    eq_refl eq_refl) as (db' & Hr & _).
  exists db'. split; [done|]. vm_compute in Hr. injection Hr as <-. reflexivity.
Defined.

Lemma readiness_exact_witness :
  ∃ rep, check_readiness relay_failing 100000000
    {| w_overdue_after := 1; w_stale_lease_after := 5000000; w_heartbeat_stale_after := 5000000;
       w_settled_within := 1; w_relay_expected := true |} = Ok rep ∧
    ReadinessDetail.value (detail rep) = lit "withdrawal_delivery_failing".
Proof.
  destruct (readiness_exact relay_failing 100000000
    {| w_overdue_after := 1; w_stale_lease_after := 5000000; w_heartbeat_stale_after := 5000000;
       w_settled_within := 1; w_relay_expected := true |}) as (rep & Hrep & _ & Hw).
  exists rep. split; [exact Hrep|]. rewrite Hw. vm_compute in Hrep. injection Hrep as <-. reflexivity.
Defined.
