(* ===== verification/WithdrawalHandlers.v ===== *)
(** * The withdrawal handlers and the router of approval events

    What one [approval.withdrawn] event means for the subject it names:
    [classify_approval_withdrawal] of [deployment/protected_rehearsal_issuer.py]
    for a rehearsal-issuer plan, with the authorizations recorded by
    [deployment/issuer_receipts.py], and [record_agreement_approval_withdrawal]
    of [contracts/adapter.py] for an agreement.  Both answer a disposition to
    record, or raise.

    [relay/approval_router.py]: one claimed [approval.*] event is refused,
    recognised as a replay, recorded as a conflict, or settled by the handler
    of its subject and recorded, all inside the caller's transaction. *)

From S2P Require Import Prelude PyText Digests PyUuid Json Tables RelayStore Withdrawals RelayHealth.

#[local] Open Scope Z_scope.

(** ** Results *)

(** A value of a handler's [coordinates]. *)
Inductive coordinate := CUuid (u : uuid) | CText (s : pystr) | CNone | COther.

Record ApprovalWithdrawalResult := mkResult {
  disposition : WithdrawalDisposition.t;
  reason_code : pystr;
  coordinates : list (pystr * coordinate);
  evidence : dict;
}.

(** The kernel's claimed row, as far as it is read. *)
Record ClaimedPlatformEvent := {
  ce_id : uuid;
  ce_event_type : pystr;
  ce_payload : dict;
}.

Definition payload_get (payload : dict) (k : string) : option json := dict_get payload (lit k).
(** [payload.get(k)]. *)
Definition payload_or_none (payload : dict) (k : string) : json :=
  default JNull (payload_get payload k).
(** [payload[k]]. *)
Definition payload_item (payload : dict) (k : string) : res json :=
  of_option (payload_get payload k) (Exn KeyError k).

(** [payload.get(k) == text] and [== number], of a value that may be [None]:
    [True == 1] holds. *)
Definition equals_text (j : json) (o : option pystr) : bool :=
  match j, o with
  | JNull, None => true
  | JStr s, Some t => bool_decide (s = t)
  | _, _ => false
  end.
Definition equals_int (j : json) (o : option Z) : bool :=
  match j, o with
  | JNull, None => true
  | JInt n, Some m => n =? m
  | JBool b, Some m => (if b then 1 else 0) =? m
  | _, _ => false
  end.

Definition PLAN_PURPOSE : pystr := lit "rehearsal_issuer_operation".
Definition ISSUER_OPERATION : pystr := lit "deploy".
Definition SUBJECT_TYPE : pystr := lit "rehearsal_issuer_plan.v1".
Definition ISSUE_AUTHORIZATION : pystr := lit "issue_authorization".

(** Canonical, bounded Approvals subject of a plan. *)
Definition _subject (plan : PlanFacts.t) : res pystr :=
  ensure (bool_decide (PlanFacts.purpose plan = PLAN_PURPOSE))
    (Exn ValueError "expected a rehearsal-issuer Control plan");;
  digest ←
    match PlanFacts.operation plan, PlanFacts.execution_plan_digest plan with
    | Some operation, Some digest =>
        if bool_decide (operation = ISSUER_OPERATION) then Ok digest
        else Raise (Exn ValueError "issuer plan lacks its explicit execution binding")
    | _, _ => Raise (Exn ValueError "issuer plan lacks its explicit execution binding")
    end;
  ensure (bool_decide (length digest = 71%nat) && starts_with (lit "sha256:") digest &&
          forallb (λ c, bool_decide (c ∈ lit "0123456789abcdef")) (drop 7 digest))
    (Exn ValueError "issuer plan has no canonical execution-plan digest");;
  let subject :=
    lit "v1|" ++ uuid_str (PlanFacts.id plan) ++ lit "|" ++ PLAN_PURPOSE ++ lit "|" ++
    ISSUER_OPERATION ++ lit "|" ++ digest in
  ensure (bool_decide (length subject ≤ 200)%nat)
    (Exn ValueError "issuer approval subject exceeds Approvals' 200-character limit");;
  Ok subject.

Definition _conflict (reason : string) (coordinates : list (pystr * coordinate)) (evidence : dict)
    : ApprovalWithdrawalResult :=
  mkResult WithdrawalDisposition.SECURITY_CONFLICT (lit reason) coordinates evidence.

Definition _APPROVAL_NO_LONGER_STANDS : list pystr :=
  lit <$> ["applied"; "already_applied"; "superseded_by_revocation";
           "cancelled_before_execution"; "plan_superseded"]%string.

Record _RevocationAttempt := {
  revoked : list pystr;
  not_revocable : list pystr;
  conflicts : list dict;
}.

Section handlers.
Context `{RM : RelayModules} `{UDB : UnicodeDB}.
Implicit Types (db : Session).

Definition receipt_leb (x y : IssuerCommandReceipt.t) : bool :=
  let tx := IssuerCommandReceipt.recorded_at x in
  let ty := IssuerCommandReceipt.recorded_at y in
  (tx <? ty) || ((tx =? ty) && (IssuerCommandReceipt.id x <=? IssuerCommandReceipt.id y)).

Definition issued_authorization_refs db (plan_id : uuid) : res (list pystr) :=
  query Receipts db
    (IssuerCommandReceipt.control_ref <$>
     sort_by receipt_leb
       (filter (λ r, IssuerCommandReceipt.plan_id r = plan_id ∧
                     IssuerCommandReceipt.verb r = ISSUE_AUTHORIZATION) (receipts db))).

Definition own_ref (event_id : uuid) : pystr := lit "approval.withdrawn:" ++ uuid_str event_id.

(** One turn of the loop: every reference is attempted, whatever the ones
    before it answered. *)
Definition revoke_one (revocation_ref : pystr) (actor_ref : option pystr)
    (acc : control * _RevocationAttempt) (ref : pystr) : res (control * _RevocationAttempt) :=
  let '(c, a) := acc in
  match revoke_rehearsal_issuer_authorization c ref revocation_ref actor_ref with
  | (c, inl _) =>
      Ok (c, {| revoked := revoked a ++ [ref]; not_revocable := not_revocable a;
                conflicts := conflicts a |})
  | (c, inr (IssuanceRefused true _ _)) =>
      Ok (c, {| revoked := revoked a; not_revocable := not_revocable a ++ [ref];
                conflicts := conflicts a |})
  | (c, inr (IssuanceRefused false code detail)) =>
      Ok (c, {| revoked := revoked a; not_revocable := not_revocable a;
                conflicts := conflicts a ++
                  [[(lit "authorization_id", JStr ref); (lit "code", JStr code);
                    (lit "detail", JStr detail)]] |})
  | (_, inr (IssuanceForeign e)) => Raise e
  end.

Fixpoint revoke_all (revocation_ref : pystr) (actor_ref : option pystr) (refs : list pystr)
    (acc : control * _RevocationAttempt) : res (control * _RevocationAttempt) :=
  match refs with
  | [] => Ok acc
  | ref :: refs =>
      acc ← revoke_one revocation_ref actor_ref acc ref;
      revoke_all revocation_ref actor_ref refs acc
  end.

Definition _revoke_issued_authorizations db (plan_id event_id : uuid) (actor_ref : option pystr)
    : res (Session * _RevocationAttempt) :=
  refs ← issued_authorization_refs db plan_id;
  '(c, attempt) ← revoke_all (own_ref event_id) actor_ref refs
    (plans db, {| revoked := []; not_revocable := []; conflicts := [] |});
  Ok (set_plans c db, attempt).

(** [{**d, k: v, ...}]. *)
Definition dict_update (d kvs : dict) : dict := foldl (λ d kv, dict_set d kv.1 kv.2) d kvs.

Definition _with_authorization_revocation db (result : ApprovalWithdrawalResult)
    (plan_id event_id : uuid) : res (Session * ApprovalWithdrawalResult) :=
  if negb (bool_decide (reason_code result ∈ _APPROVAL_NO_LONGER_STANDS)) then Ok (db, result)
  else
    '(db, attempt) ← _revoke_issued_authorizations db plan_id event_id None;
    let attempted :=
      [(lit "authorizations_revoked", JArr (JStr <$> revoked attempt));
       (lit "authorizations_not_revocable", JArr (JStr <$> not_revocable attempt))] in
    match conflicts attempt with
    | [] =>
        Ok (db, mkResult (disposition result) (reason_code result) (coordinates result)
                  (dict_update (evidence result) attempted))
    | _ =>
        Ok (db, _conflict "authorization_revocation_refused" (coordinates result)
                  (dict_update (evidence result)
                    (attempted ++
                     [(lit "authorization_conflicts", JArr (JObj <$> conflicts attempt));
                      (lit "withdrawal_disposition",
                       JStr (WithdrawalDisposition.value (disposition result)));
                      (lit "withdrawal_reason_code", JStr (reason_code result))])))
    end.

Definition plan_coordinates (plan_id request_id event_id : uuid) : list (pystr * coordinate) :=
  [(lit "plan_id", CUuid plan_id); (lit "approval_request_id", CUuid request_id);
   (lit "withdrawal_ref", CText (uuid_str event_id))].

Definition _revoked_pre_read (plan : PlanFacts.t) (plan_id request_id event_id : uuid)
    : option ApprovalWithdrawalResult :=
  if negb (bool_decide (PlanFacts.approval_decision_status plan = Some (lit "revoked"))) then None
  else
    let coordinates := plan_coordinates plan_id request_id event_id in
    if bool_decide (PlanFacts.approval_revocation_ref plan = Some (own_ref event_id))
    then Some (mkResult WithdrawalDisposition.ALREADY_APPLIED (lit "already_applied") coordinates
           [(lit "approval_revocation_ref", default JNull (JStr <$> PlanFacts.approval_revocation_ref plan))])
    else Some (mkResult WithdrawalDisposition.SUPERSEDED_BY_REVOCATION
           (lit "superseded_by_revocation") coordinates
           [(lit "approval_revocation_ref", default JNull (JStr <$> PlanFacts.approval_revocation_ref plan));
            (lit "withdrawal_ref", JStr (own_ref event_id))]).

(** [except OperationalError as exc: raise RetryableWithdrawal(...)]. *)
Definition retryable (e : exn) : exn :=
  if bool_decide (exn_kind e = OperationalError)
  then Exn RetryableWithdrawal "database_unavailable" else e.

(** [except (KeyError, ValueError): return ...]. *)
Definition caught {A B} (kinds : list exn_class) (m : res A) (k : A → res B) (h : exn → res B)
    : res B :=
  match m with
  | Ok a => k a
  | Raise e => if bool_decide (exn_kind e ∈ kinds) then h e else Raise e
  end.

(** What the subject text must split into. *)
Definition read_subject (payload : dict) : res (pystr * uuid * pystr) :=
  j ← payload_item payload "subject_id";
  let subject_id := py_str printable j in
  match split_on 124 subject_id with
  | [version; plan_id_text; purpose; operation; digest] =>
      ensure (bool_decide (version = lit "v1") && bool_decide (purpose = PLAN_PURPOSE) &&
              bool_decide (operation = ISSUER_OPERATION))
        (Exn ValueError "unexpected issuer approval subject");;
      plan_id ← UUID plan_id_text;
      Ok (subject_id, plan_id, digest)
  | _ => Raise (Exn ValueError "values to unpack")
  end.

Definition read_ids (payload : dict) : res (uuid * uuid) :=
  r ← payload_item payload "request_id";
  request_id ← UUID (py_str printable r);
  w ← payload_item payload "withdrawal_id";
  withdrawal_id ← UUID (py_str printable w);
  Ok (request_id, withdrawal_id).

(** The last part: the one consequence this handler owns. *)
Definition revoke_plan db (event : ClaimedPlatformEvent) (plan_id request_id : uuid)
    (reason : pystr) : res (Session * ApprovalWithdrawalResult) :=
  let coordinates := plan_coordinates plan_id request_id (ce_id event) in
  let settle db d code ev :=
    _with_authorization_revocation db (mkResult d (lit code) coordinates ev) plan_id (ce_id event) in
  let '(c, answer) := revoke_plan_approval (plans db)
    {| rpa_command_id := lit "rehearsal-issuer:withdrawal:" ++ uuid_str (ce_id event);
       rpa_plan_id := plan_id;
       rpa_revocation_ref := own_ref (ce_id event);
       rpa_reason := reason |} in
  let db := set_plans c db in
  match answer with
  | inl _ => settle db WithdrawalDisposition.APPLIED "applied"%string []
  | inr TransitionRefusedError =>
      reread ← get_plan (plans db) plan_id;
      reread ← of_option reread (Exn AttributeError "'NoneType' object has no attribute ");
      match _revoked_pre_read reread plan_id request_id (ce_id event) with
      | Some raced => _with_authorization_revocation db raced plan_id (ce_id event)
      | None => Ok (db, _conflict "unexpected_plan_state" coordinates
                          [(lit "status", JStr (PlanFacts.status reread))])
      end
  | inr (ExpectedStateError status) =>
      if bool_decide (status = lit "cancelled") then
        settle db WithdrawalDisposition.CANCELLED_BEFORE_EXECUTION
          "cancelled_before_execution"%string [(lit "status", JStr status)]
      else if bool_decide (status = lit "proposed") then
        Ok (db, mkResult WithdrawalDisposition.NOT_CARRIED (lit "never_approved") coordinates
                  [(lit "status", JStr status)])
      else if bool_decide (status = lit "superseded") then
        settle db WithdrawalDisposition.NOT_CARRIED "plan_superseded"%string
          [(lit "status", JStr status)]
      else Ok (db, _conflict "unexpected_plan_state" coordinates [(lit "status", JStr status)])
  | inr (PlanForeign e) => Raise (retryable e)
  end.

(** The event belongs to the plan: is there anything left to revoke? *)
Definition settle_plan db (event : ClaimedPlatformEvent) (plan : PlanFacts.t)
    (plan_id request_id : uuid) (reason : pystr) : res (Session * ApprovalWithdrawalResult) :=
  match _revoked_pre_read plan plan_id request_id (ce_id event) with
  | Some pre_read => _with_authorization_revocation db pre_read plan_id (ce_id event)
  | None =>
      if bool_decide (PlanFacts.status plan = lit "approved") &&
         negb (bool_decide (PlanFacts.approval_decision_ref plan = Some (uuid_str request_id)))
      then Ok (db, mkResult WithdrawalDisposition.NOT_CARRIED (lit "decision_not_carried")
                 (plan_coordinates plan_id request_id (ce_id event))
                 [(lit "approval_decision_ref",
                   default JNull (JStr <$> PlanFacts.approval_decision_ref plan))])
      else revoke_plan db event plan_id request_id reason
  end.

(** The middle part: the event against the plan it names. *)
Definition classify_plan db (event : ClaimedPlatformEvent) (plan : PlanFacts.t)
    (subject_id : pystr) (plan_id : uuid) (digest expected : pystr)
    : res (Session * ApprovalWithdrawalResult) :=
  let payload := ce_payload event in
  let p := [(lit "plan_id", CUuid plan_id)] in
  if negb (bool_decide (subject_id = expected)) ||
     negb (bool_decide (PlanFacts.execution_plan_digest plan = Some digest))
  then Ok (db, _conflict "subject_mismatch" p
                 [(lit "subject_id", JStr subject_id); (lit "expected_subject", JStr expected)])
  else
    let content_digest := payload_or_none payload "content_digest" in
    if bool_decide (PlanFacts.plan_digest plan = None ∨ PlanFacts.plan_digest plan = Some []) ||
       negb (equals_text content_digest (PlanFacts.plan_digest plan))
    then Ok (db, _conflict "digest_mismatch" p
                   [(lit "content_digest", content_digest);
                    (lit "plan_digest", default JNull (JStr <$> PlanFacts.plan_digest plan))])
    else
      caught [KeyError; ValueError] (read_ids payload)
        (λ '(request_id, withdrawal_id),
           let pr := p ++ [(lit "approval_request_id", CUuid request_id)] in
           if negb (withdrawal_id =? ce_id event) then
             Ok (db, _conflict "withdrawal_id_mismatch" pr
                       [(lit "withdrawal_id", JStr (uuid_str withdrawal_id));
                        (lit "event_id", JStr (uuid_str (ce_id event)))])
           else if negb (equals_text (payload_or_none payload "policy_code")
                           (PlanFacts.approval_policy_code plan)) ||
                   negb (equals_int (payload_or_none payload "policy_version")
                           (PlanFacts.approval_policy_version plan))
           then Ok (db, _conflict "policy_mismatch" pr [])
           else
             match payload_or_none payload "reason" with
             | JStr reason =>
                 if bool_decide (strip reason = []) then Ok (db, _conflict "missing_reason" pr [])
                 else settle_plan db event plan plan_id request_id reason
             | _ => Ok (db, _conflict "missing_reason" pr [])
             end)
        (λ _, Ok (db, _conflict "missing_ids" p [])).

Definition classify_approval_withdrawal db (event : ClaimedPlatformEvent)
    : res (Session * ApprovalWithdrawalResult) :=
  let payload := ce_payload event in
  if negb (equals_text (payload_or_none payload "subject_type") (Some SUBJECT_TYPE))
  then Ok (db, _conflict "subject_type_mismatch" []
                 [(lit "subject_type", payload_or_none payload "subject_type")])
  else
    caught [KeyError; ValueError] (read_subject payload)
      (λ '(subject_id, plan_id, digest),
         match get_plan (plans db) plan_id with
         | Raise e => Raise (retryable e)
         | Ok None => Ok (db, _conflict "plan_not_found" [(lit "plan_id", CUuid plan_id)] [])
         | Ok (Some plan) =>
             caught [ValueError] (_subject plan)
               (classify_plan db event plan subject_id plan_id digest)
               (λ _, Ok (db, _conflict "plan_not_found" [(lit "plan_id", CUuid plan_id)] []))
         end)
      (λ _, Ok (db, _conflict "malformed_subject" []
                      [(lit "subject_id", payload_or_none payload "subject_id")])).

(** ** Agreements *)

Definition _WITHDRAWAL_OUTCOME_MAP : list (CA_outcome * (WithdrawalDisposition.t * pystr)) :=
  [(CA_RECORDED, (WithdrawalDisposition.APPLIED, lit "recorded"));
   (CA_ALREADY_RECORDED, (WithdrawalDisposition.ALREADY_APPLIED, lit "already_recorded"));
   (CA_DECISION_NOT_CARRIED, (WithdrawalDisposition.NOT_CARRIED, lit "decision_not_carried"));
   (CA_CONTENT_NOT_BOUND, (WithdrawalDisposition.NOT_CARRIED, lit "content_not_bound"));
   (CA_EVIDENCE_CONFLICT, (WithdrawalDisposition.SECURITY_CONFLICT, lit "evidence_conflict"))].

Record withdrawal_facts := {
  wf_agreement_id : uuid;
  wf_request_id : uuid;
  wf_withdrawal_id : uuid;
  wf_policy_code : pystr;
  wf_policy_version : Z;
  wf_content_hash : pystr;
  wf_reason : pystr;
  wf_withdrawn_at : Z * bool;
}.

(** The body of the first [try]. *)
Definition read_withdrawal (payload : dict) : res withdrawal_facts :=
  s ← payload_item payload "subject_id";
  agreement_id ← UUID (py_str printable s);
  r ← payload_item payload "request_id";
  request_id ← UUID (py_str printable r);
  w ← payload_item payload "withdrawal_id";
  withdrawal_id ← UUID (py_str printable w);
  policy_code ← payload_item payload "policy_code";
  raw_version ← payload_item payload "policy_version";
  policy_version ←
    match raw_version with
    | JInt n => Ok n
    | JStr t => of_option (int10 t) (Exn ValueError "invalid literal for int() with base 10: ")
    | _ => Raise (Exn TypeError "policy_version must be an integer")
    end;
  d ← payload_item payload "content_digest";
  bound_content_hash ← bare_content_hash (py_str printable d);
  reason ←
    match payload_or_none payload "reason" with
    | JStr t => if bool_decide (strip t = []) then Raise (Exn ValueError "withdrawal has no reason")
                else Ok t
    | _ => Raise (Exn ValueError "withdrawal has no reason")
    end;
  e ← payload_item payload "effective_at";
  withdrawn_at ← fromisoformat (py_str printable e);
  Ok {| wf_agreement_id := agreement_id;
        wf_request_id := request_id;
        wf_withdrawal_id := withdrawal_id;
        wf_policy_code := py_str printable policy_code;
        wf_policy_version := policy_version;
        wf_content_hash := bound_content_hash;
        wf_reason := reason;
        wf_withdrawn_at := withdrawn_at |}.

Definition withdrawal_command (event_id : uuid) (f : withdrawal_facts)
    : RecordApprovalWithdrawalCommand :=
  {| raw_command_id := lit "approval-withdrawal:" ++ uuid_str event_id;
     raw_agreement_id := wf_agreement_id f;
     raw_approval_request_ref := uuid_str (wf_request_id f);
     raw_approval_decision_ref := uuid_str (wf_request_id f);
     raw_policy_code := wf_policy_code f;
     raw_policy_version := wf_policy_version f;
     raw_subject_ref := uuid_str (wf_agreement_id f);
     raw_content_hash := wf_content_hash f;
     raw_withdrawal_ref := uuid_str (wf_withdrawal_id f);
     raw_reason := wf_reason f;
     raw_withdrawn_at := wf_withdrawn_at f |}.

Definition malformed (payload : dict) (c : list (pystr * coordinate)) (e : exn)
    : ApprovalWithdrawalResult :=
  _conflict "malformed_withdrawal_payload" c [(lit "error", JStr (error_repr payload e))].

(** From the identity check on. *)
Definition record_withdrawal db (event_id : uuid) (payload : dict) (f : withdrawal_facts)
    : res (Session * ApprovalWithdrawalResult) :=
  let coordinates :=
    [(lit "agreement_id", CUuid (wf_agreement_id f));
     (lit "approval_request_id", CUuid (wf_request_id f));
     (lit "withdrawal_ref", CText (uuid_str (wf_withdrawal_id f)))] in
  if negb (wf_withdrawal_id f =? event_id) then
    Ok (db, _conflict "withdrawal_id_mismatch" coordinates
              [(lit "withdrawal_id", JStr (uuid_str (wf_withdrawal_id f)));
               (lit "event_id", JStr (uuid_str event_id))])
  else
    let command := withdrawal_command event_id f in
    match command_refusal command with
    | Some e =>
        if bool_decide (exn_kind e ∈ [ValueError; TypeError])
        then Ok (db, malformed payload coordinates e) else Raise e
    | None =>
        let '(a, answer) := module_record_approval_withdrawal (agreement_owner db) command in
        let db := set_agreements a db in
        match answer with
        | inr (AgreementError str repr) =>
            Ok (db, _conflict
                      (if contains (lit "not found") str
                       then "agreement_not_found" else "agreement_error")
                      coordinates [(lit "error", JStr repr)])
        | inr (AgreementForeign e) => Raise (retryable e)
        | inl (outcome, status, carried, withdrawal_id) =>
            '(d, code) ← of_option (dict_get _WITHDRAWAL_OUTCOME_MAP outcome) (Exn KeyError "");
            Ok (db, mkResult d code coordinates
                      [(lit "status", JStr status); (lit "approval_carried", JBool carried);
                       (lit "withdrawal_id",
                        default JNull ((λ u, JStr (uuid_str u)) <$> withdrawal_id))])
        end
    end.

Definition record_agreement_approval_withdrawal db (event_id : uuid) (payload : dict)
    : res (Session * ApprovalWithdrawalResult) :=
  caught [KeyError; ValueError; TypeError] (read_withdrawal payload)
    (record_withdrawal db event_id payload)
    (λ e, Ok (db, malformed payload [] e)).
End handlers.

(** [contracts_authority.APPROVAL_SUBJECT_TYPE]. *)
Definition APPROVAL_SUBJECT_TYPE : pystr := lit "commercial_agreement".

Definition _UUID_COORDINATES : list pystr :=
  lit <$> ["approval_request_id"; "plan_id"; "agreement_id"]%string.

(** [_uuid_coordinate] on a key that is given. *)
Definition _uuid_coordinate (given : list (pystr * coordinate)) (key : string) : res (option uuid) :=
  match dict_get given (lit key) with
  | None | Some CNone => Ok None
  | Some (CUuid u) => Ok (Some u)
  | Some (CText _ | COther) => Raise (Exn TypeError "withdrawal coordinate ")
  end.

Definition _coordinates (given : list (pystr * coordinate)) : res Coordinates :=
  ensure (forallb (λ k, bool_decide (k ∈ _UUID_COORDINATES ++ [lit "withdrawal_ref"])) given.*1)
    (Exn TypeError "unknown withdrawal coordinates: ");;
  approval_request_id ← _uuid_coordinate given "approval_request_id";
  plan_id ← _uuid_coordinate given "plan_id";
  agreement_id ← _uuid_coordinate given "agreement_id";
  ref ← match dict_get given (lit "withdrawal_ref") with
        | None | Some CNone => Ok None
        | Some (CText t) => Ok (Some t)
        | Some (CUuid _ | COther) =>
            Raise (Exn TypeError "withdrawal coordinate withdrawal_ref must be a str")
        end;
  Ok {| c_approval_request_id := approval_request_id; c_plan_id := plan_id;
        c_agreement_id := agreement_id; c_withdrawal_ref := ref |}.

Section router.
Context `{RM : RelayModules} `{UDB : UnicodeDB}.
Implicit Types (db : Session).

Definition WithdrawalHandler : Type :=
  Session → ClaimedPlatformEvent → res (Session * ApprovalWithdrawalResult).

Definition _agreement_handler_adapter
    (fn : Session → uuid → dict → res (Session * ApprovalWithdrawalResult)) : WithdrawalHandler :=
  λ db event, fn db (ce_id event) (ce_payload event).

(** Which handler owns the event, if any does. *)
Definition handler_of (event : ClaimedPlatformEvent) : res WithdrawalHandler :=
  let subject_type := payload_or_none (ce_payload event) "subject_type" in
  if equals_text subject_type (Some SUBJECT_TYPE) then Ok classify_approval_withdrawal
  else if equals_text subject_type (Some APPROVAL_SUBJECT_TYPE)
  then Ok (_agreement_handler_adapter record_agreement_approval_withdrawal)
  else Raise (Exn UnroutableApprovalEvent "subject_type").

Definition _deliver db (event : ClaimedPlatformEvent) : res Session :=
  ensure (bool_decide (ce_event_type event = APPROVAL_WITHDRAWN_EVENT_TYPE))
    (Exn UnroutableApprovalEvent "event_type");;
  handler ← handler_of event;
  let payload := ce_payload event in
  let digest := payload_digest (ce_event_type event) payload in
  prior ← outcomes_for_event db (ce_id event);
  let subject_type := py_str printable (payload_or_none payload "subject_type") in
  let subject_id := py_str printable (default (JStr []) (payload_get payload "subject_id")) in
  if existsb (λ row, bool_decide (RecordedOutcome.payload_digest row = digest)) prior then Ok db
  else
    match prior with
    | _ :: _ =>
        '(db, _) ← record_outcome db (ce_id event) digest (ce_event_type event) subject_type
          subject_id WithdrawalDisposition.SECURITY_CONFLICT (lit "payload_changed_under_event_id")
          [(lit "prior_digests", JArr (JStr <$> (RecordedOutcome.payload_digest <$> prior)))]
          no_coordinates;
        Ok db
    | [] =>
        '(db, result) ← handler db event;
        c ← _coordinates (coordinates result);
        '(db, _) ← record_outcome db (ce_id event) digest (ce_event_type event) subject_type
          subject_id (disposition result) (reason_code result) (evidence result) c;
        Ok db
    end.

(** [except OperationalError] around every read and write of the path. *)
Definition deliver db (event : ClaimedPlatformEvent) : res Session :=
  match _deliver db event with
  | Ok db => Ok db
  | Raise e => Raise (retryable e)
  end.
End router.
