(* ===== verification/WithdrawalSafety.v ===== *)
(** * Safety of the withdrawal record

    What a handler may change, the invariant of the two append-only tables,
    that routing and resolving keep it, and the exact effect of each. *)

From S2P Require Import Prelude PyText PyUuid Json Tables RelayStore Withdrawals RelayHealth.
From S2P Require Import WithdrawalHandlers.

#[local] Open Scope Z_scope.

(** The draws of [uuid_pk] do not collide. *)
Class FreshIds `{RM : RelayModules} : Prop := { ids_inj : Inj (=) (=) uuid_pk }.
#[export] Existing Instance ids_inj.

Section frame.
Context `{RM : RelayModules} `{UDB : UnicodeDB}.
Implicit Types (db : Session).

(** Only the composed modules moved. *)
Definition owners_only db db' : Prop :=
  ∃ c a, db' = set_agreements a (set_plans c db).

#[export] Instance owners_only_refl : Reflexive owners_only.
Proof. intros db. exists (plans db), (agreement_owner db). by destruct db. Qed.

Lemma owners_only_plans c db : owners_only db (set_plans c db).
Proof. exists c, (agreement_owner db). by destruct db. Qed.
Lemma owners_only_agreements a db : owners_only db (set_agreements a db).
Proof. exists (plans db), a. by destruct db. Qed.
#[export] Instance owners_only_trans : Transitive owners_only.
Proof. intros db1 db2 db3 (c & a & ->) (c' & a' & ->). by exists c', a'. Qed.

(** ** What a handler answers

    On every path it takes, a handler moves nothing but the modules, and its
    coordinates are ones the record takes. *)

Definition good_coordinates (c : list (pystr * coordinate)) : Prop := is_ok (_coordinates c) = true.

Definition settles db (m : res (Session * ApprovalWithdrawalResult)) : Prop :=
  ∀ db' r, m = Ok (db', r) → owners_only db db' ∧ good_coordinates (coordinates r).

Lemma settles_ok db r : good_coordinates (coordinates r) → settles db (Ok (db, r)).
Proof. by intros Hr db' w [= <- <-]. Qed.
Lemma settles_raise db e : settles db (Raise e).
Proof. by intros db' v. Qed.
Lemma settles_caught {B} db ks (m : res B) k h :
  (∀ b, settles db (k b)) → (∀ e, settles db (h e)) → settles db (caught ks m k h).
Proof. intros Hk Hh. unfold caught. destruct m; [apply Hk|]. case_match; [apply Hh|apply settles_raise]. Qed.
Lemma settles_plans db c m : settles (set_plans c db) m → settles db m.
Proof.
  intros H db' v Hm. destruct (H db' v Hm) as [Ho Hg]. split; [|done].
  etrans; [apply (owners_only_plans c)|done].
Qed.
Lemma settles_agreements db c m : settles (set_agreements c db) m → settles db m.
Proof.
  intros H db' v Hm. destruct (H db' v Hm) as [Ho Hg]. split; [|done].
  etrans; [apply (owners_only_agreements c)|done].
Qed.

Lemma revocation_settles db r p e :
  good_coordinates (coordinates r) → settles db (_with_authorization_revocation db r p e).
Proof.
  intros Hr. unfold _with_authorization_revocation. case_match; [by apply settles_ok|].
  unfold _revoke_issued_authorizations.
  destruct (issued_authorization_refs db p); [|apply settles_raise]. cbn [mbind res_bind].
  destruct (revoke_all _ _ _ _) as [[c1 att]|]; [|apply settles_raise]. cbn [mbind res_bind].
  case_match; by apply (settles_plans _ c1), settles_ok.
Qed.
#[local] Hint Resolve settles_raise revocation_settles settles_ok : core.
#[local] Hint Extern 1 (good_coordinates _) => reflexivity : core.

Lemma pre_read_good pl p q i r :
  _revoked_pre_read pl p q i = Some r → good_coordinates (coordinates r).
Proof. unfold _revoked_pre_read. intros H. repeat case_match; simplify_eq; auto. Qed.
#[local] Hint Resolve pre_read_good : core.

Lemma revoke_plan_settles db ev p r reason : settles db (revoke_plan db ev p r reason).
Proof.
  unfold revoke_plan. cbv zeta. destruct (revoke_plan_approval _ _) as [c [u|[|st|e]]];
    apply (settles_plans _ c); auto.
  - destruct (get_plan _ _) as [[pl|]|]; cbn [mbind res_bind of_option]; [|auto..].
    case_match; eauto.
  - repeat case_bool_decide; auto.
Qed.

Lemma settle_plan_settles db ev pl p r reason : settles db (settle_plan db ev pl p r reason).
Proof. unfold settle_plan. repeat (case_match; eauto). apply revoke_plan_settles. Qed.

Lemma classify_plan_settles db ev pl s p d x : settles db (classify_plan db ev pl s p d x).
Proof.
  unfold classify_plan. cbv zeta. case_match; [auto|]. case_match; [auto|].
  apply settles_caught; [|auto]. intros [q w].
  repeat (case_match; eauto). apply settle_plan_settles.
Qed.

Lemma classify_settles db ev : settles db (classify_approval_withdrawal db ev).
Proof.
  unfold classify_approval_withdrawal. cbv zeta. case_match; [auto|].
  apply settles_caught; [|auto]. intros [[s p] d].
  destruct (get_plan _ _) as [[pl|]|]; [|auto..].
  apply settles_caught; [|auto]. intros x. apply classify_plan_settles.
Qed.

Lemma agreement_settles db i payload :
  settles db (record_agreement_approval_withdrawal db i payload).
Proof.
  apply settles_caught; [|auto]. intros f. unfold record_withdrawal. cbv zeta.
  case_match; [auto|]. case_match; [case_match; auto|].
  destruct (module_record_approval_withdrawal _ _) as [a1 [[[[o st] c] w]|[? ?|e]]]; [|auto..].
  - destruct (dict_get _ _) as [[dd code]|]; cbn [of_option mbind res_bind]; [|auto].
    apply (settles_agreements _ a1). auto.
  - apply (settles_agreements _ a1). auto.
Qed.

Lemma handler_settles ev h : handler_of ev = Ok h → ∀ db, settles db (h db ev).
Proof.
  unfold handler_of. repeat case_match; intros [= <-] db;
    [apply classify_settles|apply agreement_settles].
Qed.
End frame.

(** ** The invariant of the record *)

Definition non_conflict (o : Outcome.t) : Prop := Outcome.is_conflict o = false.

(** What a resolution must have had before it. *)
Definition justified `{UDB : UnicodeDB} (os : list Outcome.t) (r : Resolution.t) : Prop :=
  strip (Resolution.reason r) ≠ [] ∧
  ∃ o, o ∈ os ∧ Outcome.id o = Resolution.outcome_id r ∧ Outcome.is_conflict o = true ∧
    ((Resolution.resolution r = WithdrawalResolution.value WithdrawalResolution.DISMISSED ∧
      Resolution.redrive_ref r = None) ∨
     (Resolution.resolution r = WithdrawalResolution.value WithdrawalResolution.REDRIVEN ∧
      ∃ p, p ∈ os ∧ Resolution.redrive_ref r = Some (uuid_str (Outcome.id p)) ∧
           proves_nothing o p = false)).

Section invariant.
Context `{RM : RelayModules} `{UDB : UnicodeDB}.
Implicit Types (db : Session).

Record withdrawals_ok db : Prop := {
  ok_keyed : keyed OutcomeRows db;
  ok_dispositions o : o ∈ outcomes db →
    ∃ d, Outcome.disposition o = WithdrawalDisposition.value d;
  ok_one o p : o ∈ outcomes db → p ∈ outcomes db → non_conflict o → non_conflict p →
    Outcome.event_id o = Outcome.event_id p → o = p;
  ok_fresh_outcomes k : (draws db ≤ k)%nat → uuid_pk k ∉ Outcome.id <$> outcomes db;
  ok_fresh_resolutions k : (draws db ≤ k)%nat → uuid_pk k ∉ Resolution.id <$> resolutions db;
  ok_once : NoDup (Resolution.outcome_id <$> resolutions db);
  ok_proofs : NoDup (omap Resolution.redrive_ref (resolutions db));
  ok_justified r : r ∈ resolutions db → justified (outcomes db) r;
}.

Lemma owners_only_ok db db' : owners_only db db' → withdrawals_ok db → withdrawals_ok db'.
Proof.
  intros (c & a & ->) [[Hi Hk] ? ? ? ? ? ? ?]. by constructor.
Qed.

Lemma justified_mono os os' r : os ⊆ os' → justified os r → justified os' r.
Proof.
  intros Hsub (Hs & o & Ho & Hid & Hc & Hr). split; [done|]. exists o. split_and!; auto.
  destruct Hr as [?|(? & p & ? & ? & ?)]; [by left|]. right. split; [done|]. exists p. auto.
Qed.

(** ** Reading the record *)

Lemma from_row_ok db o :
  withdrawals_ok db → o ∈ outcomes db →
  ∃ v, RecordedOutcome._from_row o = Ok v ∧
       RecordedOutcome.payload_digest v = Outcome.payload_digest o ∧ RecordedOutcome.id v = Outcome.id o.
Proof.
  intros Hok Ho. destruct (ok_dispositions db Hok o Ho) as [d Hd].
  unfold RecordedOutcome._from_row. rewrite Hd, WithdrawalDisposition.parse_value.
  cbn [mbind res_bind]. by eexists.
Qed.

(** The rows of an event, oldest first. *)
Definition rows_of db (i : uuid) : list Outcome.t :=
  sort_by by_recorded_at (filter (λ r, Outcome.event_id r = i) (outcomes db)).

Lemma elem_of_rows_of db i o : o ∈ rows_of db i ↔ o ∈ outcomes db ∧ Outcome.event_id o = i.
Proof. unfold rows_of. rewrite sort_by_perm, list_elem_of_filter. tauto. Qed.

Lemma outcomes_for_event_ok db i :
  withdrawals_ok db → statement_error Outcomes db = None →
  ∃ prior, outcomes_for_event db i = Ok prior ∧
    RecordedOutcome.payload_digest <$> prior = Outcome.payload_digest <$> rows_of db i.
Proof.
  intros Hok Hq. unfold outcomes_for_event. rewrite query_readable by done. cbn [mbind res_bind].
  fold (rows_of db i).
  assert (Hin : ∀ o, o ∈ rows_of db i → o ∈ outcomes db) by (intros o Ho%elem_of_rows_of; tauto).
  revert Hin. generalize (rows_of db i). intros l. induction l as [|o l IH]; intros Hin.
  - by exists [].
  - destruct (from_row_ok db o Hok) as (v & Hv & Hd & _); [apply Hin; by left|].
    destruct IH as (prior & Hp & Hds); [intros x Hx; apply Hin; by right|].
    exists (v :: prior). cbn [mapM]. rewrite Hv. cbn [mbind res_bind]. rewrite Hp.
    split; [done|]. csimpl. by rewrite Hd, Hds.
Qed.

(** ** Recording one outcome *)

Definition outcome_row (i clock : Z) (event_id : uuid) (digest event_type subject_type subject_id : pystr)
    (d : WithdrawalDisposition.t) (code : pystr) (ev : dict) (c : Coordinates) : Outcome.t :=
  {| Outcome.id := i; Outcome.event_id := event_id; Outcome.payload_digest := digest;
     Outcome.event_type := event_type; Outcome.subject_type := subject_type;
     Outcome.subject_id := subject_id;
     Outcome.approval_request_id := c_approval_request_id c; Outcome.plan_id := c_plan_id c;
     Outcome.agreement_id := c_agreement_id c; Outcome.withdrawal_ref := c_withdrawal_ref c;
     Outcome.disposition := WithdrawalDisposition.value d; Outcome.reason_code := code;
     Outcome.evidence := ev; Outcome.recorded_at := clock |}.

(** The session after a row is recorded. *)
Definition appended db (o : Outcome.t) : Session :=
  set_outcomes (outcomes db ++ [o]) (set_draws (S (draws db)) db).

(** A row may join the record: new for its event and payload, and the event has
    no settled row yet unless this one is a conflict. *)
Definition joins db (o : Outcome.t) : Prop :=
  Outcome.id o = uuid_pk (draws db) ∧
  (∃ d, Outcome.disposition o = WithdrawalDisposition.value d) ∧
  (∀ p, p ∈ outcomes db → Outcome.event_id p = Outcome.event_id o →
        Outcome.payload_digest p ≠ Outcome.payload_digest o) ∧
  (non_conflict o → ∀ p, p ∈ outcomes db → Outcome.event_id p = Outcome.event_id o → ¬ non_conflict p).

Lemma ukey_new db o :
  (∀ p, p ∈ outcomes db → Outcome.event_id p = Outcome.event_id o →
        Outcome.payload_digest p ≠ Outcome.payload_digest o) ↔
  (Outcome.ukey o ∉ Outcome.ukey <$> outcomes db).
Proof.
  unfold Outcome.ukey. split.
  - intros H (p & [= He Hd] & Hp)%list_elem_of_fmap. by apply (H p).
  - intros H p Hp He Hd. apply H, list_elem_of_fmap. exists p. by rewrite He, Hd.
Qed.

Lemma record_outcome_ok db i digest et st si d code ev c :
  withdrawals_ok db → statement_error Outcomes db = None →
  joins db (outcome_row (uuid_pk (draws db)) (clock db) i digest et st si d code ev c) →
  ∃ v, record_outcome db i digest et st si d code ev c =
    Ok (appended db (outcome_row (uuid_pk (draws db)) (clock db) i digest et st si d code ev c), v).
Proof.
  intros Hok Hq (_ & _ & Hd & Hone). unfold record_outcome. cbv zeta.
  fold (outcome_row (uuid_pk (draws db)) (clock db) i digest et st si d code ev c).
  set (o := outcome_row _ _ _ _ _ _ _ _ _ _ _) in *.
  rewrite (proj2 (insert_outcome_Ok o (set_draws (S (draws db)) db) (appended db o))).
  - cbn [mbind res_bind]. unfold RecordedOutcome._from_row. simpl.
    rewrite WithdrawalDisposition.parse_value. cbn [mbind res_bind]. by eexists.
  - split_and!; [done| | |done| |by apply ukey_new].
    + simpl. by rewrite WithdrawalDisposition.parse_value.
    + intros Hn x Hx He. specialize (Hone Hn x Hx He). unfold non_conflict in Hone.
      by destruct (Outcome.is_conflict x).
    + by apply (ok_fresh_outcomes db Hok).
Qed.

Context `{!FreshIds}.

Lemma appended_ok db o : withdrawals_ok db → joins db o → withdrawals_ok (appended db o).
Proof.
  intros Hok (Hid & Hd & Hk & Hone). destruct Hok as [[Hi Hu] Hds Ho Hf Hr Hon Hp Hj].
  constructor; simpl.
  - split; simpl; rewrite fmap_app; (apply NoDup_app; split_and!; [done| |apply NoDup_singleton]).
    + intros x Hx ->%list_elem_of_singleton. rewrite Hid in Hx. by apply (Hf (draws db)) in Hx.
    + intros x Hx ->%list_elem_of_singleton. by apply ukey_new in Hx.
  - intros p [Hp'| ->%list_elem_of_singleton]%elem_of_app; auto.
  - intros p q [Hp'| ->%list_elem_of_singleton]%elem_of_app
      [Hq'| ->%list_elem_of_singleton]%elem_of_app Hnp Hnq He; [by apply Ho| | |done].
    + exfalso. by eapply Hone.
    + exfalso. by eapply Hone.
  - intros k Hk'. rewrite fmap_app. intros [Hx|Hx%list_elem_of_singleton]%elem_of_app.
    + by apply (Hf k) in Hx; [|lia].
    + rewrite Hid in Hx. apply (inj uuid_pk) in Hx. lia.
  - intros k Hk'. apply Hr. lia.
  - done.
  - done.
  - intros r Hr'. eapply justified_mono; [|by apply Hj]. intros x Hx. apply elem_of_app. by left.
Qed.
End invariant.
