(* ===== verification/WithdrawalHistory.v ===== *)
(** * What holds of every history of withdrawals

    The exact effect of routing an event and of resolving a conflict, and what
    holds of the two tables after any sequence of both. *)

From S2P Require Import Prelude PyText PyUuid Json Tables RelayStore Withdrawals RelayHealth.
From S2P Require Import RelayVerdicts.
From S2P Require Import WithdrawalHandlers WithdrawalSafety.

#[local] Open Scope Z_scope.

Section deliver.
Context `{RM : RelayModules} `{UDB : UnicodeDB}.
Implicit Types (db : Session).

(** The row the router writes for an event. *)
Definition event_row db (ev : ClaimedPlatformEvent) (d : WithdrawalDisposition.t) (code : pystr)
    (evidence : dict) (c : Coordinates) : Outcome.t :=
  outcome_row (uuid_pk (draws db)) (clock db) (ce_id ev)
    (payload_digest (ce_event_type ev) (ce_payload ev)) (ce_event_type ev)
    (py_str printable (payload_or_none (ce_payload ev) "subject_type"))
    (py_str printable (default (JStr []) (payload_get (ce_payload ev) "subject_id")))
    d code evidence c.

Definition conflict_row db ev : Outcome.t :=
  event_row db ev WithdrawalDisposition.SECURITY_CONFLICT (lit "payload_changed_under_event_id")
    [(lit "prior_digests", JArr (JStr <$> (Outcome.payload_digest <$> rows_of db (ce_id ev))))]
    no_coordinates.

Definition digest_of (ev : ClaimedPlatformEvent) : pystr :=
  payload_digest (ce_event_type ev) (ce_payload ev).
Definition replayed db ev : Prop :=
  ∃ o, o ∈ outcomes db ∧ Outcome.event_id o = ce_id ev ∧ Outcome.payload_digest o = digest_of ev.
Definition first_seen db ev : Prop := ∀ o, o ∈ outcomes db → Outcome.event_id o ≠ ce_id ev.

Lemma rows_of_nil db i : rows_of db i = [] ↔ ∀ o, o ∈ outcomes db → Outcome.event_id o ≠ i.
Proof.
  split.
  - intros Hr o Ho He. assert (Hin : o ∈ rows_of db i) by (by apply elem_of_rows_of).
    rewrite Hr in Hin. by apply elem_of_nil in Hin.
  - intros H. destruct (rows_of db i) as [|o l] eqn:Hr; [done|]. exfalso.
    assert (Hin : o ∈ rows_of db i) by (rewrite Hr; by left).
    apply elem_of_rows_of in Hin as [Ho He]. by apply (H o).
Qed.

Lemma replayed_spec db ev prior :
  RecordedOutcome.payload_digest <$> prior = Outcome.payload_digest <$> rows_of db (ce_id ev) →
  existsb (λ row, bool_decide (RecordedOutcome.payload_digest row = digest_of ev)) prior = true ↔
  replayed db ev.
Proof.
  intros Hp. transitivity (digest_of ev ∈ RecordedOutcome.payload_digest <$> prior).
  - rewrite existsb_exists, list_elem_of_fmap. setoid_rewrite <- list_elem_of_In.
    setoid_rewrite bool_decide_eq_true. naive_solver.
  - rewrite Hp, list_elem_of_fmap. unfold replayed. setoid_rewrite elem_of_rows_of. naive_solver.
Qed.

Lemma conflict_joins db ev : ¬ replayed db ev → joins db (conflict_row db ev).
Proof.
  intros Hr. split_and!; [done|by eexists| |by intros ?].
  intros p Hp He Hd. apply Hr. by exists p.
Qed.

Lemma settled_joins db ev d code evd c :
  first_seen db ev → joins db (event_row db ev d code evd c).
Proof.
  intros Hf. split_and!; [done|by eexists| |]; intros; exfalso; by eapply Hf.
Qed.

(** What routing a recognised event does. *)
Lemma deliver_cases db ev h :
  withdrawals_ok db → statement_error Outcomes db = None →
  ce_event_type ev = APPROVAL_WITHDRAWN_EVENT_TYPE → handler_of ev = Ok h →
  (replayed db ev ∧ deliver db ev = Ok db) ∨
  (¬ replayed db ev ∧ ¬ first_seen db ev ∧ deliver db ev = Ok (appended db (conflict_row db ev))) ∨
  (first_seen db ev ∧
   match h db ev with
   | Raise e => deliver db ev = Raise (retryable e)
   | Ok (db1, r) =>
       owners_only db db1 ∧
       ∃ c, _coordinates (coordinates r) = Ok c ∧
         deliver db ev =
           Ok (appended db1 (event_row db ev (disposition r) (reason_code r) (evidence r) c))
   end).
Proof.
  intros Hok Hq Ht Hh. unfold deliver, _deliver. rewrite bool_decide_true by done.
  cbn [ensure mbind res_bind]. rewrite Hh. cbn [mbind res_bind].
  destruct (outcomes_for_event_ok db (ce_id ev) Hok Hq) as (prior & -> & Hp).
  cbn [mbind res_bind]. fold (digest_of ev).
  pose proof (replayed_spec db ev prior Hp) as Hrep.
  destruct (existsb _ prior).
  { left. split; [by apply Hrep|done]. }
  right. assert (Hnr : ¬ replayed db ev) by (rewrite <- Hrep; done). destruct prior as [|v prior].
  - right. assert (Hf : first_seen db ev).
    { unfold first_seen. apply (proj1 (rows_of_nil db (ce_id ev))). by destruct (rows_of db (ce_id ev)). }
    split; [done|]. destruct (h db ev) as [[db1 r]|e] eqn:Hhd; [|done]. cbn [mbind res_bind].
    destruct (handler_settles ev h Hh db db1 r Hhd) as [Ho Hg]. split; [done|].
    unfold good_coordinates in Hg. destruct (_coordinates (coordinates r)) as [c|]; [|done].
    exists c. split; [done|]. cbn [mbind res_bind].
    pose proof (owners_only_ok _ _ Ho Hok) as Hok1. destruct Ho as (x & y & ->).
    match goal with |- context [record_outcome ?d ?i ?g ?et ?st ?si ?dd ?co ?e ?cc] =>
      destruct (record_outcome_ok d i g et st si dd co e cc Hok1 Hq) as [w ->] end; [|done].
    by apply (settled_joins db ev).
  - left. split; [done|]. split.
    { intros Hf. apply (proj2 (rows_of_nil db (ce_id ev))) in Hf. by rewrite Hf in Hp. }
    unfold conflict_row. rewrite <- Hp.
    match goal with |- context [record_outcome ?d ?i ?g ?et ?st ?si ?dd ?co ?e ?cc] =>
      destruct (record_outcome_ok d i g et st si dd co e cc Hok Hq) as [w ->] end; [|done].
    rewrite Hp. by apply (conflict_joins db ev).
Qed.
End deliver.

(** ** Resolving *)

Section resolve.
Context `{RM : RelayModules} `{UDB : UnicodeDB}.
Implicit Types (db : Session).

(** The evidence a resolution must bring, and the reference it is stored
    under. *)
Definition evidence_ok db (o : Outcome.t) (resolution : WithdrawalResolution.t)
    (ref canonical : option pystr) : Prop :=
  match resolution with
  | WithdrawalResolution.DISMISSED => ref = None ∧ canonical = None
  | WithdrawalResolution.REDRIVEN =>
      ∃ s p, ref = Some s ∧ strip s ≠ [] ∧ UUID s = Ok (Outcome.id p) ∧ p ∈ outcomes db ∧
             proves_nothing o p = false ∧ canonical = Some (uuid_str (Outcome.id p)) ∧
             ∀ r, r ∈ resolutions db → Resolution.redrive_ref r ≠ canonical
  end.

Lemma UUID_raises s e : UUID s = Raise e → exn_kind e = ValueError.
Proof.
  unfold UUID. intros H. repeat (apply bind_Raise in H as [H|(? & ? & H)]; cbv beta in H).
  - apply ensure_Raise in H as [_ ->]. done.
  - unfold of_option in H. by case_match; simplify_eq.
  - apply ensure_Raise in H as [_ ->]. done.
  - done.
Qed.

Lemma evidence_spec db o resolution ref :
  withdrawals_ok db → statement_error Outcomes db = None → statement_error Resolutions db = None →
  match _require_redrive_evidence db o resolution ref with
  | Ok c => evidence_ok db o resolution ref c
  | Raise e => exn_kind e = ConflictNotResolvable ∧ ∀ c, ¬ evidence_ok db o resolution ref c
  end.
Proof.
  intros Hok Hq Hr. unfold _require_redrive_evidence, evidence_ok. destruct resolution.
  { case_bool_decide; cbn [ensure mbind res_bind]; [done|]. split; [done|]. by intros c [? _]. }
  destruct ref as [s|]; cbn [of_option mbind res_bind]; [|split; [done|by intros c (? & ? & ? & _)]].
  case_bool_decide as Hs; cbn [negb ensure mbind res_bind].
  { split; [done|]. intros c (? & ? & [= <-] & ? & _). done. }
  destruct (UUID s) as [u|e] eqn:Hu; cbn [mbind res_bind].
  2:{ rewrite bool_decide_true by (by eapply UUID_raises). split; [done|].
      intros c (? & ? & [= <-] & _ & ? & _). congruence. }
  rewrite !query_readable by done. cbn [mbind res_bind].
  destruct (db_get OutcomeRows db u) as [p|] eqn:Hp.
  2:{ split; [done|]. intros c (? & p & [= <-] & _ & Hup & Hin & _).
      rewrite Hu in Hup. injection Hup as ->.
      pose proof (db_get_elem OutcomeRows db p (ok_keyed db Hok) Hin) as Hg. simpl in Hg. congruence. }
  apply db_get_Some in Hp as [Hin Hid]. simpl in Hid, Hin.
  destruct (proves_nothing o p) eqn:Hpn; cbn [negb ensure mbind res_bind].
  { split; [done|]. intros c (? & p' & [= <-] & _ & Hup & Hin' & Hpn' & _).
    assert (p' = p) as -> by (apply (NoDup_key_eq Outcome.id (outcomes db)); [apply Hok|done|done|congruence]).
    congruence. }
  destruct (existsb _ _) eqn:Hex; cbn [negb ensure mbind res_bind].
  - split; [done|]. intros c (? & p' & [= <-] & _ & Hup & _ & _ & -> & Hall).
    apply existsb_exists in Hex as (r & Hrin%list_elem_of_In & Hre%bool_decide_eq_true).
    rewrite Hu in Hup. injection Hup as ->. by apply (Hall r).
  - exists s, p. rewrite Hid. split_and!; try done. intros r Hrin Hre.
    apply not_true_iff_false in Hex. apply Hex, existsb_exists. exists r.
    split; [by apply list_elem_of_In|by apply bool_decide_eq_true].
Qed.

Definition resolution_row db (oid : uuid) (resolution : WithdrawalResolution.t)
    (actor reason : pystr) (canonical : option pystr) : Resolution.t :=
  {| Resolution.id := uuid_pk (draws db); Resolution.outcome_id := oid;
     Resolution.resolution := WithdrawalResolution.value resolution;
     Resolution.actor_ref := actor; Resolution.reason := reason;
     Resolution.redrive_ref := canonical; Resolution.recorded_at := clock db |}.

(** Everything the other transactions committed, and this row. *)
Definition resolved db (r : Resolution.t) : Session :=
  set_resolutions ((resolutions db ++ racing db) ++ [r]) [] (set_draws (S (draws db)) db).

(** The outcome can be closed by this request. *)
Definition closable db (oid : uuid) (resolution : WithdrawalResolution.t) (reason : pystr)
    (ref canonical : option pystr) : Prop :=
  ∃ o, o ∈ outcomes db ∧ Outcome.id o = oid ∧ Outcome.is_conflict o = true ∧ strip reason ≠ [] ∧
    (oid ∉ Resolution.outcome_id <$> resolutions db) ∧ evidence_ok db o resolution ref canonical.

(** Nothing another transaction committed meanwhile took its place. *)
Definition unraced db (oid : uuid) (canonical : option pystr) : Prop :=
  (oid ∉ Resolution.outcome_id <$> racing db) ∧
  ∀ r, r ∈ racing db → canonical ≠ None → Resolution.redrive_ref r ≠ canonical.

Lemma strip_nil : strip [] = [].
Proof. done. Qed.

Lemma resolution_exists_spec db oid :
  statement_error Resolutions db = None →
  _resolution_exists db oid = Ok (bool_decide (oid ∈ Resolution.outcome_id <$> resolutions db)).
Proof.
  intros Hq. unfold _resolution_exists. rewrite query_readable by done. f_equal.
  apply eq_true_iff_eq. rewrite existsb_exists, bool_decide_eq_true, list_elem_of_fmap.
  setoid_rewrite <- list_elem_of_In. setoid_rewrite bool_decide_eq_true. naive_solver.
Qed.

Lemma insert_resolved db oid resolution actor reason canonical o :
  statement_error Resolutions db = None →
  (uuid_pk (draws db) ∉ Resolution.id <$> resolutions db ++ racing db) →
  o ∈ outcomes db → Outcome.id o = oid → strip reason ≠ [] →
  (oid ∉ Resolution.outcome_id <$> resolutions db) →
  (∀ r, r ∈ resolutions db → canonical ≠ None → Resolution.redrive_ref r ≠ canonical) →
  match insert_resolution (resolution_row db oid resolution actor reason canonical)
          (set_draws (S (draws db)) db) with
  | Ok db' => unraced db oid canonical ∧
              db' = resolved db (resolution_row db oid resolution actor reason canonical)
  | Raise e => exn_kind e = IntegrityError ∧ ¬ unraced db oid canonical
  end.
Proof.
  intros Hq Hid Ho Hoid Hs Hn Hc. set (row := resolution_row _ _ _ _ _ _).
  destruct (insert_resolution row (set_draws (S (draws db)) db)) as [db'|e] eqn:Hi.
  - apply insert_resolution_Ok in Hi as (_ & _ & _ & _ & Href & _ & Hk & ->). simpl in *.
    split; [|done]. split; [intros Hin; apply Hk; rewrite fmap_app; apply elem_of_app; by right|].
    intros r Hr. apply Href. apply elem_of_app. by right.
  - split.
    + unfold insert_resolution in Hi. rewrite query_readable in Hi by done.
      cbn [mbind res_bind] in Hi. cbv zeta in Hi. unfold insert_unique in Hi.
      repeat (apply bind_Raise in Hi as [Hi|(? & ? & Hi)]; cbv beta in Hi);
        try (apply ensure_Raise in Hi as [_ ->]; done); done.
    + intros [Hr1 Hr2]. pose proof (insert_resolution_Ok row (set_draws (S (draws db)) db)
        (resolved db row)) as H.
      rewrite Hi in H. destruct H as [_ H]. discriminate H. simpl. split_and!; try done.
      * by exists o.
      * intros ->. by rewrite strip_nil in Hs.
      * destruct resolution; set_solver.
      * intros r [Hr|Hr]%elem_of_app; auto.
      * rewrite fmap_app. intros [?|?]%elem_of_app; done.
Qed.

(** Everything [resolve_conflict] can answer. *)
Lemma resolve_conflict_spec db oid resolution actor reason ref :
  withdrawals_ok db → statement_error Outcomes db = None → statement_error Resolutions db = None →
  (uuid_pk (draws db) ∉ Resolution.id <$> resolutions db ++ racing db) →
  match resolve_conflict db oid resolution actor reason ref with
  | Ok (db', v) => ∃ c,
      closable db oid resolution reason ref c ∧ unraced db oid c ∧
      db' = resolved db (resolution_row db oid resolution actor reason c) ∧
      RecordedConflictResolution._from_row (resolution_row db oid resolution actor reason c) = Ok v
  | Raise e =>
      (exn_kind e = ConflictOutcomeNotFound ∧ (oid ∉ Outcome.id <$> outcomes db)) ∨
      (exn_kind e = ConflictAlreadyResolved ∧
       oid ∈ Resolution.outcome_id <$> resolutions db ++ racing db) ∨
      (exn_kind e = ConflictNotResolvable ∧
       ∀ c, closable db oid resolution reason ref c → ¬ unraced db oid c)
  end.
Proof.
  intros Hok Hq Hr Hid. unfold resolve_conflict. rewrite query_readable by done.
  cbn [mbind res_bind]. destruct (db_get OutcomeRows db oid) as [o|] eqn:Ho; cbn [of_option mbind res_bind].
  2:{ left. split; [done|]. intros (o & -> & Hin)%list_elem_of_fmap.
      pose proof (db_get_elem OutcomeRows db o (ok_keyed db Hok) Hin) as Hg. simpl in Hg. congruence. }
  apply db_get_Some in Ho as [Hin Hoid]. simpl in Hin, Hoid.
  assert (Huniq : ∀ o', o' ∈ outcomes db → Outcome.id o' = oid → o' = o).
  { intros o' Ho' Hi. apply (NoDup_key_eq Outcome.id (outcomes db)); [apply Hok|done|done|congruence]. }
  destruct (Outcome.is_conflict o) eqn:Hc; cbn [ensure mbind res_bind].
  2:{ right. right. split; [done|]. intros c (o' & Ho' & Hi & Hc' & _).
      rewrite (Huniq o' Ho' Hi) in Hc'. congruence. }
  case_bool_decide as Hs; cbn [negb ensure mbind res_bind].
  { right. right. split; [done|]. by intros c (o' & _ & _ & _ & ? & _). }
  rewrite (resolution_exists_spec db oid) by done. cbn [mbind res_bind].
  case_bool_decide as Hex; cbn [negb ensure mbind res_bind].
  { right. left. split; [done|]. rewrite fmap_app. apply elem_of_app. by left. }
  pose proof (evidence_spec db o resolution ref Hok Hq Hr) as Hev.
  destruct (_require_redrive_evidence db o resolution ref) as [c|e]; cbn [mbind res_bind].
  2:{ right. right. split; [apply Hev|]. intros c (o' & Ho' & Hi & _ & _ & _ & Hev').
      rewrite (Huniq o' Ho' Hi) in Hev'. by apply Hev in Hev'. }
  assert (Hcl : closable db oid resolution reason ref c) by (by exists o).
  fold (resolution_row db oid resolution actor reason c).
  assert (Hrefs : ∀ r, r ∈ resolutions db → c ≠ None → Resolution.redrive_ref r ≠ c).
  { intros r Hrin Hcn. unfold evidence_ok in Hev. destruct resolution.
    - by destruct Hev as [_ ->].
    - destruct Hev as (s & p & _ & _ & _ & _ & _ & _ & Hall). by apply Hall. }
  pose proof (insert_resolved db oid resolution actor reason c o Hr Hid Hin Hoid Hs Hex Hrefs) as Hins.
  destruct (insert_resolution _ _) as [db'|e]; cbn [mbind res_bind].
  - destruct Hins as [Hu ->].
    destruct (RecordedConflictResolution._from_row _) as [v|e] eqn:Hv; cbn [mbind res_bind].
    + exists c. done.
    + exfalso. revert Hv. by destruct resolution.
  - destruct Hins as [He Hu]. rewrite bool_decide_true by done.
    rewrite resolution_exists_spec by done. cbn [mbind res_bind resolutions set_resolutions].
    case_bool_decide as Hex'.
    + right. left. done.
    + right. right. split; [done|]. intros c' (o' & Ho' & Hi & _ & _ & _ & Hev').
      rewrite (Huniq o' Ho' Hi) in Hev'. intros Hu'. apply Hu. replace c with c'; [done|].
      revert Hev Hev'. unfold evidence_ok. destruct resolution; [by intros [_ ->] [_ ->]|].
      intros (s & p & -> & _ & Hp & _ & _ & -> & _) (s' & p' & [= <-] & _ & Hp' & _ & _ & -> & _).
      congruence.
Qed.

(** A closed outcome is no longer counted, and nothing else changes colour. *)
Lemma resolved_unresolved db r o :
  unresolved (resolved db r) o =
  unresolved db o && negb (bool_decide (Outcome.id o ∈ Resolution.outcome_id <$> racing db)) &&
  negb (bool_decide (Outcome.id o = Resolution.outcome_id r)).
Proof.
  unfold unresolved, resolved. cbn [resolutions set_resolutions].
  rewrite !fmap_app, <- !andb_assoc. f_equal. rewrite <- !negb_orb. f_equal.
  apply eq_true_iff_eq. rewrite !orb_true_iff, !bool_decide_eq_true, !elem_of_app.
  csimpl. rewrite list_elem_of_singleton. tauto.
Qed.
End resolve.

(** ** Histories *)

Section history.
Context `{RM : RelayModules} `{UDB : UnicodeDB} {FI : FreshIds}.
Implicit Types (db : Session).

(** The rest of the system moves; the record does not. *)
Definition same_record db db' : Prop :=
  outcomes db' = outcomes db ∧ resolutions db' = resolutions db ∧ (draws db ≤ draws db')%nat.

Lemma same_record_ok db db' : same_record db db' → withdrawals_ok db → withdrawals_ok db'.
Proof.
  intros (Ho & Hr & Hd) [[Hi Hk] Hds H1 Hf Hfr Hon Hp Hj].
  constructor; [split; simpl|..]; rewrite ?Ho, ?Hr; auto; intros k Hk'; [apply Hf|apply Hfr]; lia.
Qed.

(** One resolution with no other transaction in its way. *)
Inductive alone db : Session → Prop :=
  | Alone oid resolution actor reason ref db' v :
      racing db = [] → resolve_conflict db oid resolution actor reason ref = Ok (db', v) →
      alone db db'.

(** What other transactions commit between this one's checks and its flush:
    their resolutions, and the keys they drew. *)
Definition with_race db db1 race : Session :=
  set_resolutions (resolutions db) race (set_draws (draws db1) db).

Inductive wstep db : Session → Prop :=
  | Elsewhere db' : same_record db db' → wstep db db'
  | Delivers ev db' : deliver db ev = Ok db' → wstep db db'
  | Resolves race db1 oid resolution actor reason ref db' v :
      rtc alone (set_resolutions (resolutions db) [] db) db1 →
      resolutions db1 = resolutions db ++ race →
      resolve_conflict (with_race db db1 race) oid resolution actor reason ref = Ok (db', v) →
      wstep db db'.

Lemma resolve_readable db oid resolution actor reason ref x :
  resolve_conflict db oid resolution actor reason ref = Ok x →
  statement_error Outcomes db = None ∧ statement_error Resolutions db = None.
Proof.
  unfold resolve_conflict, _resolution_exists. intros H.
  apply bind_Ok in H as (? & [Hq _]%query_Ok & H).
  apply bind_Ok in H as (? & _ & H). apply bind_Ok in H as (? & _ & H).
  apply bind_Ok in H as (? & _ & H). apply bind_Ok in H as (? & [Hr _]%query_Ok & H). done.
Qed.

Lemma deliver_routed db ev db' :
  deliver db ev = Ok db' →
  ce_event_type ev = APPROVAL_WITHDRAWN_EVENT_TYPE ∧ (∃ h, handler_of ev = Ok h) ∧
  statement_error Outcomes db = None.
Proof.
  unfold deliver. destruct (_deliver db ev) as [db1|] eqn:Hd; [|done]. intros _.
  unfold _deliver in Hd. apply bind_Ok in Hd as (? & Ht%ensure_Ok & Hd).
  apply bind_Ok in Hd as (h & Hh & Hd). apply bind_Ok in Hd as (prior & Hp & _).
  unfold outcomes_for_event in Hp. apply bind_Ok in Hp as (? & [Hq _]%query_Ok & _).
  apply bool_decide_eq_true in Ht. eauto.
Qed.

(** A row joins the record of a session that other transactions extended. *)
Lemma resolved_ok db oid resolution actor reason ref c :
  withdrawals_ok (set_resolutions (resolutions db ++ racing db) [] db) →
  closable db oid resolution reason ref c → unraced db oid c →
  withdrawals_ok (resolved db (resolution_row db oid resolution actor reason c)).
Proof.
  intros [[Hi Hk] Hds H1 Hf Hfr Hon Hp Hj] (o & Ho & Hoid & Hc & Hs & Hn & Hev) [Hu1 Hu2].
  cbn [outcomes resolutions draws set_resolutions] in *.
  assert (Hnew : ∀ r, r ∈ resolutions db ++ racing db → c ≠ None → Resolution.redrive_ref r ≠ c).
  { intros r [Hr|Hr]%elem_of_app Hcn; [|by apply Hu2]. unfold evidence_ok in Hev.
    destruct resolution; [by destruct Hev as [_ ->]|].
    destruct Hev as (s & p & _ & _ & _ & _ & _ & _ & Hall). by apply Hall. }
  constructor; cbn [outcomes resolutions draws set_resolutions resolved set_draws];
    [by split|done|done|intros k Hk'; apply Hf; lia|..].
  - intros k Hk'. rewrite fmap_app. intros [Hx|Hx%list_elem_of_singleton]%elem_of_app.
    + by apply (Hfr k) in Hx; [|lia].
    + apply (inj uuid_pk) in Hx. lia.
  - rewrite fmap_app. apply NoDup_app. split_and!; [done| |apply NoDup_singleton].
    intros x Hx ->%list_elem_of_singleton. rewrite fmap_app in Hx. by apply elem_of_app in Hx as [?|?].
  - rewrite omap_app. apply NoDup_app. split_and!; [done| |].
    + intros x (r & Hr & Hrx)%list_elem_of_omap Hx. simpl in Hx. destruct c as [c|]; [|by apply elem_of_nil in Hx].
      apply list_elem_of_singleton in Hx as ->. by apply (Hnew r).
    + simpl. destruct c; [apply NoDup_singleton|constructor].
  - intros r [Hr| ->%list_elem_of_singleton]%elem_of_app; [by apply Hj|].
    split; [done|]. exists o. split_and!; [done|done|done|]. unfold evidence_ok in Hev.
    destruct resolution; [by left; destruct Hev as [_ ->]|]. right. split; [done|].
    destruct Hev as (s & p & _ & _ & _ & Hpin & Hpn & -> & _). by exists p.
Qed.

Lemma resolve_step db db' oid resolution actor reason ref v :
  withdrawals_ok db → withdrawals_ok (set_resolutions (resolutions db ++ racing db) [] db) →
  resolve_conflict db oid resolution actor reason ref = Ok (db', v) →
  withdrawals_ok db' ∧ outcomes db' = outcomes db ∧ racing db' = [] ∧
  draws db' = S (draws db) ∧ ∃ r, resolutions db' = (resolutions db ++ racing db) ++ [r].
Proof.
  intros Hok Hok' Hres. destruct (resolve_readable _ _ _ _ _ _ _ Hres) as [Hq Hr].
  pose proof (resolve_conflict_spec db oid resolution actor reason ref Hok Hq Hr) as Hs.
  rewrite Hres in Hs. destruct Hs as (c & Hc & Hu & -> & _).
  { by apply (ok_fresh_resolutions _ Hok'). }
  split_and!; [by eapply resolved_ok|done|done|done|by eexists].
Qed.

Lemma resolutions_alone db r : racing db = [] → withdrawals_ok db →
  withdrawals_ok (set_resolutions (resolutions db ++ racing db) r db).
Proof. intros ->. rewrite app_nil_r. apply same_record_ok. by split_and!. Qed.

Lemma alone_history db db' :
  rtc alone db db' → withdrawals_ok db → racing db = [] →
  withdrawals_ok db' ∧ outcomes db' = outcomes db ∧ (draws db ≤ draws db')%nat.
Proof.
  induction 1 as [db|db db1 db2 [oid resolution actor reason ref db1' v Hrace Hres] _ IH];
    intros Hok He; [done|].
  destruct (resolve_step db db1' oid resolution actor reason ref v)
    as (Hok1 & Ho & Hr1 & Hd & _); [done|by apply resolutions_alone|done|].
  destruct (IH Hok1 Hr1) as (? & Ho2 & Hd2). split_and!; [done|congruence|lia].
Qed.

Lemma deliver_step db db' ev :
  deliver db ev = Ok db' → withdrawals_ok db →
  withdrawals_ok db' ∧ outcomes db `prefix_of` outcomes db' ∧ resolutions db' = resolutions db.
Proof.
  intros Hd Hok. destruct (deliver_routed db ev db' Hd) as (Ht & [h Hh] & Hq).
  destruct (deliver_cases db ev h Hok Hq Ht Hh) as [[_ Hx]|[(Hnr & _ & Hx)|(Hf & Hx)]].
  - rewrite Hd in Hx. by injection Hx as ->.
  - rewrite Hd in Hx. injection Hx as ->. split_and!; [|by apply prefix_app_r|done].
    by apply appended_ok, conflict_joins.
  - destruct (h db ev) as [[db2 r]|]; [|by rewrite Hd in Hx].
    destruct Hx as (Ho & c & Hc & Hx). rewrite Hd in Hx. injection Hx as ->.
    pose proof (owners_only_ok _ _ Ho Hok) as Hok2. destruct Ho as (x & y & ->).
    split_and!; [|by apply prefix_app_r|done]. apply appended_ok; [done|].
    by apply (settled_joins db ev).
Qed.

Lemma wstep_ok db db' :
  wstep db db' → withdrawals_ok db →
  withdrawals_ok db' ∧ outcomes db `prefix_of` outcomes db' ∧
  resolutions db `prefix_of` resolutions db'.
Proof.
  intros [db1 Hs|ev db1 Hd|race db1 oid resolution actor reason ref db2 v Hal Hrace Hres] Hok.
  - split; [by eapply same_record_ok|]. destruct Hs as (-> & -> & _). done.
  - destruct (deliver_step db db1 ev Hd Hok) as (? & ? & ->). done.
  - destruct (alone_history _ _ Hal) as (Hok1 & Ho1 & Hd1); [|done|].
    { eapply same_record_ok; [|done]. by split_and!. }
    destruct (resolve_step (with_race db db1 race) db2 oid resolution actor reason ref v)
      as (Hok2 & Ho & _ & _ & r & Hr).
    + by eapply (same_record_ok db).
    + eapply (same_record_ok db1); [|done]. by split_and!.
    + done.
    + split_and!; [done|by rewrite Ho|]. rewrite Hr, <- app_assoc. by apply prefix_app_r.
Qed.

Lemma history_ok db db' :
  rtc wstep db db' → withdrawals_ok db →
  withdrawals_ok db' ∧ outcomes db `prefix_of` outcomes db' ∧
  resolutions db `prefix_of` resolutions db'.
Proof.
  induction 1 as [db|db db1 db2 Hs _ IH]; intros Hok; [done|].
  destruct (wstep_ok _ _ Hs Hok) as (Hok1 & Ho1 & Hr1). destruct (IH Hok1) as (? & ? & ?).
  split_and!; [done|by etrans..].
Qed.

(** A delivery leaves a row behind for its event. *)
Lemma delivered_seen db db' ev :
  withdrawals_ok db → deliver db ev = Ok db' → ¬ first_seen db' ev.
Proof.
  intros Hok Hd Hf. destruct (deliver_routed db ev db' Hd) as (Ht & [h Hh] & Hq).
  destruct (deliver_cases db ev h Hok Hq Ht Hh) as [[(o & Ho & He & _) Hx]|[(_ & Hnf & Hx)|(_ & Hx)]].
  - rewrite Hd in Hx. injection Hx as ->. by apply (Hf o).
  - rewrite Hd in Hx. injection Hx as ->. apply Hnf. intros o Ho. apply Hf, elem_of_app. by left.
  - destruct (h db ev) as [[db2 r]|]; [|by rewrite Hd in Hx].
    destruct Hx as (_ & c & _ & Hx). rewrite Hd in Hx. injection Hx as ->.
    eapply Hf; [apply elem_of_app; right; by left|done].
Qed.

(** Redelivery of a seen event does not reach its handler. *)
Lemma seen_stays db db' ev :
  outcomes db `prefix_of` outcomes db' → ¬ first_seen db ev → ¬ first_seen db' ev.
Proof.
  intros [l Hl] Hn Hf. apply Hn. intros o Ho. apply Hf. rewrite Hl. apply elem_of_app. by left.
Qed.

(** A recorded conflict nobody resolved is red. *)
Lemma conflict_is_red db ev now w :
  withdrawals_ok db → ¬ replayed db ev →
  holds (appended db (conflict_row db ev)) now w RelayVerdict.WITHDRAWAL_CONFLICT_UNRESOLVED.
Proof.
  intros Hok Hnr. exists (conflict_row db ev). split_and!; [apply elem_of_app; right; by left|done|].
  simpl. intros (r & Hr & Hin)%list_elem_of_fmap.
  destruct (ok_justified db Hok r Hin) as (_ & o & Ho & Hid & _).
  apply (ok_fresh_outcomes db Hok (draws db)); [done|]. apply list_elem_of_fmap. exists o.
  split; [congruence|done].
Qed.
End history.

(** ** Properties *)

Section properties.
Context `{RM : RelayModules} `{UDB : UnicodeDB} {FI : FreshIds}.
Implicit Types (db : Session).

(** C28: routing an event has exactly three outcomes besides refusing it. A
    payload already recorded changes nothing; a different payload under a
    recorded event adds one conflict row, leaves the modules alone and turns
    health red; the first delivery runs the handler of the subject and records
    what it decided beside its consequence. Everything else is refused. *)
Theorem deliver_exact db ev :
  withdrawals_ok db → statement_error Outcomes db = None →
  (ce_event_type ev ≠ APPROVAL_WITHDRAWN_EVENT_TYPE →
   deliver db ev = Raise (Exn UnroutableApprovalEvent "event_type")) ∧
  (ce_event_type ev = APPROVAL_WITHDRAWN_EVENT_TYPE →
   match handler_of ev with
   | Raise e => e = Exn UnroutableApprovalEvent "subject_type" ∧ deliver db ev = Raise e
   | Ok h =>
      (replayed db ev → deliver db ev = Ok db) ∧
      (¬ replayed db ev → ¬ first_seen db ev →
       deliver db ev = Ok (appended db (conflict_row db ev)) ∧
       ∀ now w, holds (appended db (conflict_row db ev)) now w
                  RelayVerdict.WITHDRAWAL_CONFLICT_UNRESOLVED) ∧
      (first_seen db ev →
       match h db ev with
       | Raise e => deliver db ev = Raise (retryable e)
       | Ok (db1, r) =>
          owners_only db db1 ∧
          ∃ c, _coordinates (coordinates r) = Ok c ∧
            deliver db ev =
              Ok (appended db1 (event_row db ev (disposition r) (reason_code r) (evidence r) c))
       end)
   end).
Proof.
  intros Hok Hq. split.
  - intros Ht. unfold deliver, _deliver. by rewrite bool_decide_false.
  - intros Ht. destruct (handler_of ev) as [h|e] eqn:Hh.
    + pose proof (deliver_cases db ev h Hok Hq Ht Hh) as Hc. split_and!.
      * intros Hr. destruct Hc as [[_ ?]|[[Hn _]|[Hf _]]]; [done|done|].
        destruct Hr as (o & Ho & He & _). by apply Hf in Ho.
      * intros Hn Hf. destruct Hc as [[? _]|[(_ & _ & ?)|[? _]]]; [done| |done].
        split; [done|]. intros. by apply conflict_is_red.
      * intros Hf. destruct Hc as [[(o & Ho & He & _) _]|[(_ & Hn & _)|[_ ?]]];
          [by apply Hf in Ho|done|done].
    + assert (e = Exn UnroutableApprovalEvent "subject_type") as ->.
      { unfold handler_of in Hh. repeat case_match; by simplify_eq. }
      split; [done|]. unfold deliver, _deliver. rewrite bool_decide_true by done.
      cbn [ensure mbind res_bind]. by rewrite Hh.
Qed.

(** C29: an event is settled once. After one delivery of it, and whatever
    happens in between, no delivery under the same event id reaches the
    composed modules again: it changes nothing, or adds one conflict row. *)
Theorem settled_once db ev db1 db2 ev2 db3 :
  withdrawals_ok db → deliver db ev = Ok db1 → rtc wstep db1 db2 →
  ce_id ev2 = ce_id ev → deliver db2 ev2 = Ok db3 →
  plans db3 = plans db2 ∧ agreement_owner db3 = agreement_owner db2 ∧
  (db3 = db2 ∨ outcomes db3 = outcomes db2 ++ [conflict_row db2 ev2]) ∧
  (digest_of ev2 = digest_of ev → db3 = db2).
Proof.
  intros Hok Hd Hr Hid Hd2. destruct (deliver_step db db1 ev Hd Hok) as (Hok1 & _ & _).
  destruct (history_ok _ _ Hr Hok1) as (Hok2 & Ho & _).
  assert (Hseen : ∃ o, o ∈ outcomes db2 ∧ Outcome.event_id o = ce_id ev ∧
                       Outcome.payload_digest o = digest_of ev).
  { destruct Ho as [l ->]. destruct (deliver_routed db ev db1 Hd) as (Ht & [h Hh] & Hq).
    destruct (deliver_cases db ev h Hok Hq Ht Hh) as [[(o & Hin & ? & ?) Hx]|[(_ & _ & Hx)|(_ & Hx)]].
    - rewrite Hd in Hx. injection Hx as ->. exists o. rewrite elem_of_app. auto.
    - rewrite Hd in Hx. injection Hx as ->. exists (conflict_row db ev).
      split; [|done]. simpl. rewrite !elem_of_app, list_elem_of_singleton. auto.
    - destruct (h db ev) as [[db' r]|]; [|by rewrite Hd in Hx].
      destruct Hx as (_ & c & _ & Hx). rewrite Hd in Hx. injection Hx as ->.
      eexists. split; [simpl; rewrite !elem_of_app, list_elem_of_singleton; auto|done]. }
  destruct Hseen as (o & Hin & Ho1 & Ho2).
  destruct (deliver_routed db2 ev2 db3 Hd2) as (Ht & [h Hh] & Hq).
  destruct (deliver_cases db2 ev2 h Hok2 Hq Ht Hh) as [[Hrep Hx]|[(Hnr & _ & Hx)|(Hf & _)]].
  - rewrite Hd2 in Hx. injection Hx as ->. auto.
  - rewrite Hd2 in Hx. injection Hx as ->. split_and!; [done|done|by right|].
    intros Hdg. exfalso. apply Hnr. exists o. by rewrite Hdg, Hid.
  - exfalso. apply (Hf o Hin). congruence.
Qed.

(** C40: under any interleaving of deliveries, resolutions racing each other
    and the rest of the system, both tables only grow, an event has at most
    one settled row, a conflict at most one resolution, and every resolution
    states a reason and is a dismissal or cites its own proof: a later applied
    outcome of the same subject, cited once. *)
Theorem withdrawal_history db db' :
  outcomes db = [] → resolutions db = [] → rtc wstep db db' →
  NoDup (Outcome.ukey <$> outcomes db') ∧
  (∀ o p, o ∈ outcomes db' → p ∈ outcomes db' → non_conflict o → non_conflict p →
          Outcome.event_id o = Outcome.event_id p → o = p) ∧
  NoDup (Resolution.outcome_id <$> resolutions db') ∧
  NoDup (omap Resolution.redrive_ref (resolutions db')) ∧
  (∀ r, r ∈ resolutions db' → justified (outcomes db') r) ∧
  ∀ db'', wstep db' db'' →
    outcomes db' `prefix_of` outcomes db'' ∧ resolutions db' `prefix_of` resolutions db''.
Proof.
  intros Ho Hr Hs.
  assert (Hok : withdrawals_ok db).
  { constructor; [split; simpl|..]; rewrite ?Ho, ?Hr; try constructor; intros;
      by match goal with H : _ ∈ [] |- _ => apply elem_of_nil in H | |- _ ∉ _ => apply not_elem_of_nil end. }
  destruct (history_ok _ _ Hs Hok) as (Hok' & _ & _).
  split_and!; try apply Hok'. intros db'' Hst. by destruct (wstep_ok _ _ Hst Hok').
Qed.

(** C30: a conflict is closed exactly when it exists unresolved, the request
    states a reason and brings its evidence, and no other transaction closed
    it or cited the proof meanwhile; then one row is added and exactly that
    conflict stops being counted. Every other request is refused, by name. *)
Theorem resolve_exact db oid resolution actor reason ref :
  withdrawals_ok db → statement_error Outcomes db = None → statement_error Resolutions db = None →
  (uuid_pk (draws db) ∉ Resolution.id <$> resolutions db ++ racing db) →
  match resolve_conflict db oid resolution actor reason ref with
  | Ok (db', v) => ∃ c,
      closable db oid resolution reason ref c ∧ unraced db oid c ∧
      resolutions db' = (resolutions db ++ racing db) ++
        [resolution_row db oid resolution actor reason c] ∧
      outcomes db' = outcomes db ∧
      ∀ o, unresolved db' o = true ↔
           unresolved db o = true ∧ Outcome.id o ≠ oid ∧
           Outcome.id o ∉ Resolution.outcome_id <$> racing db
  | Raise e =>
      (exn_kind e = ConflictOutcomeNotFound ∧ (oid ∉ Outcome.id <$> outcomes db)) ∨
      (exn_kind e = ConflictAlreadyResolved ∧
       oid ∈ Resolution.outcome_id <$> resolutions db ++ racing db) ∨
      (exn_kind e = ConflictNotResolvable ∧
       ∀ c, closable db oid resolution reason ref c → ¬ unraced db oid c)
  end.
Proof.
  intros Hok Hq Hr Hid.
  pose proof (resolve_conflict_spec db oid resolution actor reason ref Hok Hq Hr Hid) as Hs.
  destruct (resolve_conflict db oid resolution actor reason ref) as [[db' v]|e]; [|done].
  destruct Hs as (c & Hc & Hu & -> & _). exists c. split_and!; [done..|].
  intros o. rewrite resolved_unresolved, !andb_true_iff, !negb_true_iff, !bool_decide_eq_false.
  simpl. tauto.
Qed.
End properties.

(** ** Witnesses *)

#[export] Instance demo_FreshIds : FreshIds (RM:=relay_demo).
Proof. constructor. intros n m. simpl. lia. Qed.

Definition issuer_event (reason : string) : ClaimedPlatformEvent :=
  {| ce_id := 5; ce_event_type := lit "approval.withdrawn";
     ce_payload := issuer_payload (lit reason) |}.

Lemma relay_issued_ok : withdrawals_ok relay_issued.
Proof.
  constructor; [split; simpl|..]; simpl; try constructor; intros;
    by match goal with H : _ ∈ [] |- _ => apply elem_of_nil in H | |- _ ∉ _ => apply not_elem_of_nil end.
Qed.

(** The first delivery revokes the plan's approval and its authorization; a
    second under the same id with another reason is a conflict; an
    administrator dismisses it. *)
Definition demo_delivered : Session :=
  match deliver relay_issued (issuer_event "a") with Ok db => db | Raise _ => relay_empty end.

Lemma deliver_exact_witness :
  (∃ h, handler_of (issuer_event "a") = Ok h ∧
    match h relay_issued (issuer_event "a") with
    | Raise e => deliver relay_issued (issuer_event "a") = Raise (retryable e)
    | Ok (db1, r) => owners_only relay_issued db1
    end) ∧
  Outcome.disposition <$> outcomes demo_delivered = [lit "applied"] ∧
  dc_issued (plans demo_delivered) = [].
Proof.
  split.
  - pose proof (proj2 (deliver_exact relay_issued (issuer_event "a") relay_issued_ok eq_refl)
      eq_refl) as H.
    destruct (handler_of (issuer_event "a")) as [h|e] eqn:Hh.
    + exists h. split; [done|]. destruct H as (_ & _ & H).
      specialize (H (λ o Ho, match not_elem_of_nil o Ho with end)).
      destruct (h relay_issued (issuer_event "a")) as [[db1 r]|e]; [apply H|exact H].
    + exfalso. assert (Hk : is_ok (handler_of (issuer_event "a")) = true) by (vm_compute; reflexivity).
      by rewrite Hh in Hk.
  - split; vm_compute; reflexivity.
Defined.

Lemma demo_delivers : deliver relay_issued (issuer_event "a") = Ok demo_delivered.
Proof.
  unfold demo_delivered. destruct (deliver relay_issued (issuer_event "a")) as [db|e] eqn:Hd; [done|].
  assert (Hk : is_ok (deliver relay_issued (issuer_event "a")) = true) by (vm_compute; reflexivity).
  by rewrite Hd in Hk.
Qed.

Definition demo_conflicted : Session :=
  match deliver demo_delivered (issuer_event "changed") with Ok db => db | Raise _ => relay_empty end.

Lemma demo_conflicts : deliver demo_delivered (issuer_event "changed") = Ok demo_conflicted.
Proof.
  unfold demo_conflicted.
  destruct (deliver demo_delivered (issuer_event "changed")) as [db|e] eqn:Hd; [done|].
  assert (Hk : is_ok (deliver demo_delivered (issuer_event "changed")) = true)
    by (vm_compute; reflexivity).
  by rewrite Hd in Hk.
Qed.

Lemma settled_once_witness :
  plans demo_conflicted = plans demo_delivered ∧ length (outcomes demo_conflicted) = 2%nat.
Proof.
  split; [|vm_compute; reflexivity].
  apply (settled_once relay_issued (issuer_event "a") demo_delivered demo_delivered
    (issuer_event "changed") demo_conflicted relay_issued_ok demo_delivers (rtc_refl _ _) eq_refl
    demo_conflicts).
Defined.

Lemma withdrawal_history_witness :
  NoDup (Outcome.ukey <$> outcomes demo_conflicted) ∧ length (outcomes demo_conflicted) = 2%nat.
Proof.
  split; [|vm_compute; reflexivity].
  apply (withdrawal_history relay_issued demo_conflicted eq_refl eq_refl).
  eapply rtc_l; [exact (Delivers _ _ _ demo_delivers)|].
  apply rtc_once. exact (Delivers _ _ _ demo_conflicts).
Defined.

Lemma demo_conflicted_ok : withdrawals_ok demo_conflicted.
Proof.
  apply (deliver_step demo_delivered demo_conflicted (issuer_event "changed") demo_conflicts).
  apply (deliver_step relay_issued demo_delivered (issuer_event "a") demo_delivers).
  apply relay_issued_ok.
Qed.

(** Dismissing the recorded conflict. *)
Definition demo_closed : res Z :=
  '(db, _) ← resolve_conflict demo_conflicted 1001 WithdrawalResolution.DISMISSED
    (lit "a") (lit "r") None;
  unresolved_conflicts db.

Lemma resolve_exact_witness :
  unresolved_conflicts demo_conflicted = Ok 1 ∧ demo_closed = Ok 0 ∧
  ¬ (closable demo_conflicted 1000 WithdrawalResolution.DISMISSED (lit "r") None None ∧
     unraced demo_conflicted 1000 None).
Proof.
  split; [vm_compute; reflexivity|]. split; [vm_compute; reflexivity|].
  assert (Hx : resolve_conflict demo_conflicted 1000 WithdrawalResolution.DISMISSED (lit "a") (lit "r")
    None = Raise (Exn ConflictNotResolvable "withdrawal outcome ")) by (vm_compute; reflexivity).
  assert (Hn : uuid_pk (draws demo_conflicted)
               ∉ Resolution.id <$> resolutions demo_conflicted ++ racing demo_conflicted).
  { replace (resolutions demo_conflicted ++ racing demo_conflicted) with (@nil Resolution.t)
      by (vm_compute; reflexivity). apply not_elem_of_nil. }
  assert (Ho : statement_error Outcomes demo_conflicted = None) by (vm_compute; reflexivity).
  assert (Hr : statement_error Resolutions demo_conflicted = None) by (vm_compute; reflexivity).
  pose proof (resolve_exact demo_conflicted 1000 WithdrawalResolution.DISMISSED (lit "a") (lit "r")
    None demo_conflicted_ok Ho Hr Hn) as Hs.
  rewrite Hx in Hs. destruct Hs as [[Hs _]|[[Hs _]|[_ Hs]]]; [discriminate Hs..|].
  intros [Hc Hu]. exact (Hs None Hc Hu).
Defined.
