(* ===== verification/WithdrawalConsequences.v ===== *)
(** * What a withdrawal brings about

    A handler touches a module only for an event bound to it, and a rehearsal
    plan whose approval no longer stands has every authorization the control
    plane issued under it attempted, closed or named. *)

From S2P Require Import Prelude PyText PyUuid Json Digests Tables RelayStore Withdrawals.
From S2P Require Import RelayHealth WithdrawalHandlers WithdrawalSafety WithdrawalHistory.

#[local] Open Scope Z_scope.

Section consequences.
Context `{RM : RelayModules} `{UDB : UnicodeDB}.
Implicit Types (db : Session).

Lemma caught_Ok {A B} ks (m : res A) (k : A → res B) h b :
  caught ks m k h = Ok b →
  (∃ a, m = Ok a ∧ k a = Ok b) ∨ (∃ e, m = Raise e ∧ exn_kind e ∈ ks ∧ h e = Ok b).
Proof.
  unfold caught. destruct m as [a|e]; [eauto|]. case_bool_decide; [|done]. eauto.
Qed.

(** ** The loop over issued authorizations *)

Definition conflict_ref (d : dict) : pystr :=
  match dict_get d (lit "authorization_id") with Some (JStr s) => s | _ => [] end.
Definition attempted (a : _RevocationAttempt) : list pystr :=
  revoked a ++ not_revocable a ++ (conflict_ref <$> conflicts a).

Lemma revoke_all_attempted ref actor refs c a c' a' :
  revoke_all ref actor refs (c, a) = Ok (c', a') → attempted a' ≡ₚ attempted a ++ refs.
Proof.
  revert c a. induction refs as [|x refs IH]; intros c a; cbn [revoke_all].
  { intros [= _ ->]. by rewrite app_nil_r. }
  intros ([c1 a1] & H1 & H2)%bind_Ok. apply IH in H2. rewrite H2.
  unfold revoke_one in H1. destruct (revoke_rehearsal_issuer_authorization _ _ _ _) as [c2 [u|[[] ? ?|]]];
    simplify_eq; unfold attempted; cbn [revoked not_revocable conflicts];
    rewrite ?fmap_app; csimpl; solve_Permutation.
Qed.

(** Everything issued for the plan was attempted; what was refused is named. *)
Definition all_attempted db db' (plan_id event_id : uuid) : Prop :=
  ∃ refs c att,
    issued_authorization_refs db plan_id = Ok refs ∧
    revoke_all (own_ref event_id) None refs
      (c, {| revoked := []; not_revocable := []; conflicts := [] |}) = Ok (plans db', att) ∧
    attempted att ≡ₚ refs ∧ conflicts att = [].

Definition revoke_command (ev : ClaimedPlatformEvent) (plan_id : uuid) (reason : pystr)
    : RevokePlanApprovalCommand :=
  {| rpa_command_id := lit "rehearsal-issuer:withdrawal:" ++ uuid_str (ce_id ev);
     rpa_plan_id := plan_id; rpa_revocation_ref := own_ref (ce_id ev); rpa_reason := reason |}.

(** What an answer of the issuer's handler vouches for. *)
Record vouches db (ev : ClaimedPlatformEvent) (plan_id : uuid) (reason : pystr) db'
    (r : ApprovalWithdrawalResult) : Prop := {
  v_closed : reason_code r ∈ _APPROVAL_NO_LONGER_STANDS → all_attempted db db' plan_id (ce_id ev);
  v_applied : disposition r = WithdrawalDisposition.APPLIED →
    ∃ c u, revoke_plan_approval (plans db) (revoke_command ev plan_id reason) = (c, inl u);
}.

(** An answer that claims nothing. *)
Definition modest (r : ApprovalWithdrawalResult) : Prop :=
  (reason_code r ∉ _APPROVAL_NO_LONGER_STANDS) ∧ disposition r ≠ WithdrawalDisposition.APPLIED.

Lemma modest_vouches db ev p reason db' r : modest r → vouches db ev p reason db' r.
Proof. intros [H1 H2]. split; by intros ?. Qed.

Lemma conflict_modest reason c e : (lit reason ∉ _APPROVAL_NO_LONGER_STANDS) → modest (_conflict reason c e).
Proof. done. Qed.

Lemma revocation_vouches db c0 ev p reason r db' r' :
  _with_authorization_revocation (set_plans c0 db) r p (ce_id ev) = Ok (db', r') →
  (disposition r = WithdrawalDisposition.APPLIED →
   ∃ c u, revoke_plan_approval (plans db) (revoke_command ev p reason) = (c, inl u)) →
  vouches db ev p reason db' r'.
Proof.
  unfold _with_authorization_revocation. intros H Ha. case_bool_decide as Hr; cbn [negb] in H.
  2:{ simplify_eq. split; [done|done]. }
  unfold _revoke_issued_authorizations in H.
  apply bind_Ok in H as ([db1 att] & H1 & H2). apply bind_Ok in H1 as (refs & Hrefs & H1).
  apply bind_Ok in H1 as ([c1 att1] & Hall & H1). simplify_eq.
  destruct (conflicts att) as [|x l] eqn:Hc; injection H2 as <- <-.
  - split; [|done]. intros _. exists refs, c0, att. split_and!; [done|done| |done].
    by apply revoke_all_attempted in Hall.
  - apply modest_vouches. split; [|done]. intros Hin. cbn [reason_code _conflict] in Hin.
    revert Hin. apply (bool_decide_unpack _). vm_compute. exact I.
Qed.

Lemma set_plans_same db : set_plans (plans db) db = db.
Proof. by destruct db. Qed.

Lemma pre_read_not_applied pl p q i r :
  _revoked_pre_read pl p q i = Some r → disposition r ≠ WithdrawalDisposition.APPLIED.
Proof. unfold _revoked_pre_read. intros H. repeat case_match; by simplify_eq. Qed.

#[local] Ltac claims_nothing :=
  apply modest_vouches; split; [apply (bool_decide_unpack _); vm_compute; exact I|done].

Lemma revoke_plan_vouches db ev p q reason db' r :
  revoke_plan db ev p q reason = Ok (db', r) → vouches db ev p reason db' r.
Proof.
  unfold revoke_plan. cbv zeta. fold (revoke_command ev p reason).
  destruct (revoke_plan_approval (plans db) (revoke_command ev p reason)) as [c answer] eqn:Hcall.
  destruct answer as [u|[|st|e]]; intros H.
  - eapply revocation_vouches; [exact H|]. intros _. by exists c, u.
  - destruct (get_plan _ _) as [[pl|]|]; cbn [mbind res_bind of_option] in H; [|done..].
    destruct (_revoked_pre_read pl p q (ce_id ev)) as [raced|] eqn:Hp.
    + eapply revocation_vouches; [exact H|]. intros Ha. by apply pre_read_not_applied in Hp.
    + simplify_eq. claims_nothing.
  - repeat case_bool_decide; try (eapply revocation_vouches; [exact H|done]);
      simplify_eq; claims_nothing.
  - done.
Qed.

Lemma settle_plan_vouches db ev pl p q reason db' r :
  settle_plan db ev pl p q reason = Ok (db', r) → vouches db ev p reason db' r.
Proof.
  unfold settle_plan. destruct (_revoked_pre_read pl p q (ce_id ev)) as [raced|] eqn:Hp.
  - rewrite <- (set_plans_same db) at 1. intros H. eapply revocation_vouches; [exact H|].
    intros Ha. by apply pre_read_not_applied in Hp.
  - case_match; [|apply revoke_plan_vouches]. intros H'. simplify_eq. claims_nothing.
Qed.

(** ** An event bound to its plan *)

Record bound db (ev : ClaimedPlatformEvent) (plan : PlanFacts.t) (plan_id request_id : uuid)
    (reason : pystr) : Prop := {
  b_plan : get_plan (plans db) plan_id = Ok (Some plan);
  b_subject : ∃ j s, payload_item (ce_payload ev) "subject_id" = Ok j ∧ py_str printable j = s ∧
                     _subject plan = Ok s;
  b_content : equals_text (payload_or_none (ce_payload ev) "content_digest")
                (PlanFacts.plan_digest plan) = true;
  b_digest : PlanFacts.plan_digest plan ≠ None ∧ PlanFacts.plan_digest plan ≠ Some [];
  b_ids : read_ids (ce_payload ev) = Ok (request_id, ce_id ev);
  b_policy : equals_text (payload_or_none (ce_payload ev) "policy_code")
               (PlanFacts.approval_policy_code plan) = true ∧
             equals_int (payload_or_none (ce_payload ev) "policy_version")
               (PlanFacts.approval_policy_version plan) = true;
  b_reason : payload_or_none (ce_payload ev) "reason" = JStr reason ∧ strip reason ≠ [];
}.

(** A recorded contradiction: nothing was touched. *)
Definition refused db db' (r : ApprovalWithdrawalResult) : Prop :=
  db' = db ∧ disposition r = WithdrawalDisposition.SECURITY_CONFLICT ∧
  reason_code r ∉ _APPROVAL_NO_LONGER_STANDS.

Lemma conflict_refused db db' reason c e r :
  Ok (db, _conflict reason c e) = Ok (db', r) → (lit reason ∉ _APPROVAL_NO_LONGER_STANDS) →
  refused db db' r.
Proof. intros [= <- <-] Hr. done. Qed.

#[local] Ltac refuse H :=
  left; apply (conflict_refused _ _ _ _ _ _ H); apply (bool_decide_unpack _); vm_compute; exact I.

Lemma classify_plan_inv db ev pl s p d x db' r :
  get_plan (plans db) p = Ok (Some pl) → _subject pl = Ok x →
  (∃ j, payload_item (ce_payload ev) "subject_id" = Ok j ∧ py_str printable j = s) →
  classify_plan db ev pl s p d x = Ok (db', r) →
  refused db db' r ∨
  ∃ q reason, bound db ev pl p q reason ∧ settle_plan db ev pl p q reason = Ok (db', r).
Proof.
  intros Hpl Hx (j & Hj & Hs). unfold classify_plan. cbv zeta.
  destruct (negb (bool_decide (s = x)) || _) eqn:H1; [intros H; refuse H|].
  destruct (bool_decide (PlanFacts.plan_digest pl = None ∨ _) || _) eqn:H2; [intros H; refuse H|].
  intros [([q w] & Hids & H)|(e & _ & _ & H)]%caught_Ok; [|refuse H].
  destruct (w =? ce_id ev) eqn:H3; cbn [negb] in H; [|refuse H].
  destruct (negb _ || negb _) eqn:H4 in H; [refuse H|].
  destruct (payload_or_none (ce_payload ev) "reason") as [| | | |reason| |] eqn:H5; try refuse H.
  case_bool_decide as H6; [refuse H|]. right. exists q, reason. split; [|done]. bool_hyps.
  subst w. match goal with H : s = x |- _ => subst x end.
  split; try done; [by exists j, s|tauto].
Qed.

Lemma classify_inv db ev db' r :
  classify_approval_withdrawal db ev = Ok (db', r) →
  refused db db' r ∨
  ∃ plan plan_id q reason, bound db ev plan plan_id q reason ∧
    settle_plan db ev plan plan_id q reason = Ok (db', r).
Proof.
  unfold classify_approval_withdrawal. cbv zeta.
  destruct (negb _) eqn:H0; [intros H; refuse H|].
  intros [([[s p] d] & Hs & H)|(e & _ & _ & H)]%caught_Ok; [|refuse H].
  destruct (get_plan (plans db) p) as [[pl|]|e] eqn:Hpl; [|refuse H|done].
  apply caught_Ok in H as [(x & Hx & H)|(e & _ & _ & H)]; [|refuse H].
  destruct (classify_plan_inv db ev pl s p d x db' r Hpl Hx) as [?|(q & reason & Hb & ?)];
    [|done|by left|right; by exists pl, p, q, reason].
  unfold read_subject in Hs. apply bind_Ok in Hs as (j & Hj & Hs). exists j. split; [done|].
  cbv zeta in Hs. destruct (split_on _ _) as [|? [|? [|? [|? [|? [|? ?]]]]]]; try done.
  apply bind_Ok in Hs as (? & _ & Hs). apply bind_Ok in Hs as (? & _ & Hs). by simplify_eq.
Qed.

(** ** An event bound to its agreement *)

Lemma read_withdrawal_ids payload f :
  read_withdrawal payload = Ok f →
  read_ids payload = Ok (wf_request_id f, wf_withdrawal_id f) ∧
  payload_or_none payload "reason" = JStr (wf_reason f) ∧ strip (wf_reason f) ≠ [].
Proof.
  unfold read_withdrawal, read_ids. intros Hr.
  repeat match type of Hr with
  | mbind _ _ = Ok _ =>
      let v := fresh "v" in let Hv := fresh "Hv" in
      apply bind_Ok in Hr as (v & Hv & Hr); cbv beta in Hr
  end.
  injection Hr as <-. cbn [wf_request_id wf_withdrawal_id wf_reason].
  repeat match goal with H : _ = Ok ?v |- _ => is_var v; progress rewrite ?H end.
  cbn [mbind res_bind].
  repeat match goal with H : payload_item payload _ = Ok _ |- _ => rewrite H; clear H end.
  cbn [mbind res_bind].
  repeat match goal with H : UUID _ = Ok _ |- _ => rewrite H; clear H end.
  cbn [mbind res_bind]. split; [done|].
  match goal with H : match payload_or_none _ _ with JStr _ => _ | _ => _ end = Ok _ |- _ =>
    destruct (payload_or_none payload "reason"); try done; case_bool_decide; simplify_eq; done end.
Qed.

Lemma agreement_inv db i payload db' r :
  record_agreement_approval_withdrawal db i payload = Ok (db', r) →
  (db' = db ∧ disposition r = WithdrawalDisposition.SECURITY_CONFLICT) ∨
  ∃ f, read_withdrawal payload = Ok f ∧ wf_withdrawal_id f = i.
Proof.
  intros [(f & Hf & Hr)|(e & _ & _ & Hr)]%caught_Ok; [|left; by simplify_eq].
  unfold record_withdrawal in Hr. cbv zeta in Hr.
  destruct (wf_withdrawal_id f =? i) eqn:Hi; cbn [negb] in Hr; [|left; by simplify_eq].
  right. exists f. by apply Z.eqb_eq in Hi.
Qed.

(** ** Properties *)

(** A handler touches a module, or records anything but a contradiction,
    only for a payload that names its own event as the withdrawal, names a
    request and states a reason. *)
Theorem withdrawal_bound db ev h db' r :
  handler_of ev = Ok h → h db ev = Ok (db', r) →
  (db' = db ∧ disposition r = WithdrawalDisposition.SECURITY_CONFLICT) ∨
  ∃ request_id reason,
    read_ids (ce_payload ev) = Ok (request_id, ce_id ev) ∧
    payload_or_none (ce_payload ev) "reason" = JStr reason ∧ strip reason ≠ [].
Proof.
  unfold handler_of. intros Hh Hr. repeat case_match; simplify_eq.
  - apply classify_inv in Hr as [(-> & ? & _)|(plan & plan_id & q & reason & Hb & _)]; [by left|].
    right. exists q, reason. destruct Hb. done.
  - apply agreement_inv in Hr as [?|(f & Hf & Hi)]; [by left|]. right.
    apply read_withdrawal_ids in Hf as (? & ? & ?). exists (wf_request_id f), (wf_reason f).
    by rewrite <- Hi.
Qed.

(** when the issuer's handler answers that the plan's approval no longer
    stands, the event is bound to that plan, every authorization issued for it
    was attempted and none refused; and it answers that the withdrawal was
    applied only when Deployment Control took the revocation. *)
Theorem issuer_closes db ev db' r :
  classify_approval_withdrawal db ev = Ok (db', r) →
  reason_code r ∈ _APPROVAL_NO_LONGER_STANDS ∨ disposition r = WithdrawalDisposition.APPLIED →
  ∃ plan plan_id request_id reason,
    bound db ev plan plan_id request_id reason ∧
    (reason_code r ∈ _APPROVAL_NO_LONGER_STANDS →
     all_attempted db db' plan_id (ce_id ev)) ∧
    (disposition r = WithdrawalDisposition.APPLIED →
     ∃ c u, revoke_plan_approval (plans db) (revoke_command ev plan_id reason) = (c, inl u)).
Proof.
  intros H Hc. apply classify_inv in H as [(_ & Hd & Hr)|(plan & p & q & reason & Hb & H)].
  - destruct Hc as [?|Hc]; [done|]. by rewrite Hd in Hc.
  - apply settle_plan_vouches in H as [Hv Ha]. by exists plan, p, q, reason.
Qed.
End consequences.

(** ** Witnesses *)

Definition agreement_event : ClaimedPlatformEvent :=
  {| ce_id := 6; ce_event_type := lit "approval.withdrawn";
     ce_payload := agreement_payload (lit "r") |}.

Definition answer_of (m : res (Session * ApprovalWithdrawalResult))
    : Session * ApprovalWithdrawalResult :=
  match m with Ok x => x | Raise _ => (relay_empty, _conflict "" [] []) end.
Lemma answer_of_Ok m : is_ok m = true → m = Ok ((answer_of m).1, (answer_of m).2).
Proof. by destruct m as [[]|]. Qed.

Lemma agreement_handler :
  handler_of agreement_event = Ok (_agreement_handler_adapter record_agreement_approval_withdrawal).
Proof.
  unfold handler_of.
  replace (equals_text (payload_or_none (ce_payload agreement_event) "subject_type")
    (Some SUBJECT_TYPE)) with false by (vm_compute; reflexivity).
  by replace (equals_text (payload_or_none (ce_payload agreement_event) "subject_type")
    (Some APPROVAL_SUBJECT_TYPE)) with true by (vm_compute; reflexivity).
Qed.

Definition demo_recorded : res (Session * ApprovalWithdrawalResult) :=
  _agreement_handler_adapter record_agreement_approval_withdrawal relay_issued agreement_event.

Lemma withdrawal_bound_witness :
  disposition (answer_of demo_recorded).2 = WithdrawalDisposition.APPLIED ∧
  ∃ request_id reason,
    read_ids (agreement_payload (lit "r")) = Ok (request_id, 6) ∧
    payload_or_none (agreement_payload (lit "r")) "reason" = JStr reason ∧ strip reason ≠ [].
Proof.
  assert (Hd : disposition (answer_of demo_recorded).2 = WithdrawalDisposition.APPLIED)
    by (vm_compute; reflexivity).
  split; [exact Hd|].
  destruct (withdrawal_bound relay_issued agreement_event _ _ _ agreement_handler
    (answer_of_Ok demo_recorded ltac:(vm_compute; reflexivity))) as [[_ Hx]|Hb]; [|exact Hb].
  rewrite Hd in Hx. discriminate Hx.
Defined.

Definition demo_classified : res (Session * ApprovalWithdrawalResult) :=
  classify_approval_withdrawal relay_issued (issuer_event "a").

Lemma issuer_closes_witness :
  reason_code (answer_of demo_classified).2 = lit "applied" ∧
  ∃ plan_id, all_attempted relay_issued (answer_of demo_classified).1 plan_id 5.
Proof.
  assert (Hr : reason_code (answer_of demo_classified).2 = lit "applied") by (vm_compute; reflexivity).
  split; [exact Hr|].
  assert (Hin : reason_code (answer_of demo_classified).2 ∈ _APPROVAL_NO_LONGER_STANDS)
    by (rewrite Hr; left).
  destruct (issuer_closes relay_issued (issuer_event "a") _ _
    (answer_of_Ok demo_classified ltac:(vm_compute; reflexivity)) (or_introl Hin))
    as (plan & plan_id & q & reason & _ & Hall & _).
  exists plan_id. exact (Hall Hin).
Defined.
