(* ===== verification/Effects.v ===== *)
(** * Effectful procedures

    Code that talks to something it does not own (a database server, a host)
    and that catches exceptions between the calls.  A procedure takes the
    world and returns an outcome with the world after it: a value, the
    exception that left it, or nothing at all when a loop does not end.  Unlike
    a handler whose transaction is rolled back, an exception keeps the effects
    that came before it.

    [keeps] is the frame rule (an observation of the world a procedure does
    not change, however it ends), [triple] a Hoare triple with one
    postcondition for a value and one for an exception. *)

From S2P Require Import Prelude.

Inductive outcome (E A : Type) :=
  | Ret (a : A)
  | Throw (e : E)
  | Diverge.
Arguments Ret {E A} a.
Arguments Throw {E A} e.
Arguments Diverge {E A}.

Definition returned {E A} (m : outcome E A) : bool :=
  match m with Ret _ => true | _ => false end.

#[export] Instance outcome_ret E : MRet (outcome E) := λ A, Ret.
#[export] Instance outcome_bind E : MBind (outcome E) := λ A B f m,
  match m with Ret a => f a | Throw e => Throw e | Diverge => Diverge end.

Lemma outcome_bind_Ret {E A B} (m : outcome E A) (f : A → outcome E B) b :
  m ≫= f = Ret b ↔ ∃ a, m = Ret a ∧ f a = Ret b.
Proof. destruct m; simpl; naive_solver. Qed.

(** A procedure over worlds [W] that may raise an [E]. *)
Definition proc (W E A : Type) : Type := W → outcome E A * W.

Section procs.
Context {W E : Type}.
#[local] Abbreviation proc := (proc W E).

#[export] Instance proc_ret : MRet proc := λ A a w, (Ret a, w).
#[export] Instance proc_bind : MBind proc := λ A B f m w,
  match m w with
  | (Ret a, w') => f a w'
  | (Throw e, w') => (Throw e, w')
  | (Diverge, w') => (Diverge, w')
  end.
#[export] Instance proc_fmap : FMap proc := λ A B f m, a ← m; mret (f a).

Definition throw {A} (e : E) : proc A := λ w, (Throw e, w).

(** [if not b: raise e]. *)
Definition require (b : bool) (e : E) : proc unit := if b then mret tt else throw e.

(** [try: m except BaseException as e: h(e)]. *)
Definition try_except {A} (m : proc A) (h : E → proc A) : proc A := λ w,
  match m w with (Throw e, w') => h e w' | r => r end.

(** [for x in l: f(x)]. *)
Fixpoint for_each {A} (f : A → proc unit) (l : list A) : proc unit :=
  match l with [] => mret tt | x :: l => f x;; for_each f l end.

(** The list of [f(x)] for [x] in [l], in order. *)
Fixpoint traverse {A B} (f : A → proc B) (l : list A) : proc (list B) :=
  match l with [] => mret [] | x :: l => y ← f x; ys ← traverse f l; mret (y :: ys) end.

(** [any(f(x) for x in l)], and [a or b]. *)
Fixpoint any_of {A} (f : A → proc bool) (l : list A) : proc bool :=
  match l with
  | [] => mret false
  | x :: l => b ← f x; if (b : bool) then mret true else any_of f l
  end.
Definition or_else (a b : proc bool) : proc bool := x ← a; if (x : bool) then mret true else b.

(** ** Equations *)

Lemma bind_eq {A B} (m : proc A) (f : A → proc B) w :
  (m ≫= f) w = match m w with
               | (Ret a, w') => f a w'
               | (Throw e, w') => (Throw e, w')
               | (Diverge, w') => (Diverge, w')
               end.
Proof. done. Qed.

Lemma bind_Ret {A B} (m : proc A) (f : A → proc B) w b w' :
  (m ≫= f) w = (Ret b, w') ↔ ∃ a v, m w = (Ret a, v) ∧ f a v = (Ret b, w').
Proof. rewrite bind_eq. destruct (m w) as [[] v]; naive_solver. Qed.

Lemma bind_Throw {A B} (m : proc A) (f : A → proc B) w e w' :
  (m ≫= f) w = (Throw e, w') ↔
  m w = (Throw e, w') ∨ ∃ a v, m w = (Ret a, v) ∧ f a v = (Throw e, w').
Proof. rewrite bind_eq. destruct (m w) as [[] v]; naive_solver. Qed.

Lemma try_Ret {A} (m : proc A) h w a w' :
  try_except m h w = (Ret a, w') ↔
  m w = (Ret a, w') ∨ ∃ e v, m w = (Throw e, v) ∧ h e v = (Ret a, w').
Proof. unfold try_except. destruct (m w) as [[] v]; naive_solver. Qed.

Lemma try_Throw {A} (m : proc A) h w e w' :
  try_except m h w = (Throw e, w') ↔
  ∃ e' v, m w = (Throw e', v) ∧ h e' v = (Throw e, w').
Proof. unfold try_except. destruct (m w) as [[] v]; naive_solver. Qed.

Lemma require_Ret b e w u w' : require b e w = (Ret u, w') ↔ b = true ∧ w' = w.
Proof. destruct b, u; simpl; unfold throw, mret, proc_ret; naive_solver. Qed.

Lemma require_Throw b e w e' w' :
  require b e w = (Throw e', w') ↔ b = false ∧ e' = e ∧ w' = w.
Proof. destruct b; simpl; unfold throw, mret, proc_ret; naive_solver. Qed.

Lemma throw_eq {A} e w o w' : throw (A := A) e w = (o, w') ↔ o = Throw e ∧ w' = w.
Proof. unfold throw. naive_solver. Qed.

Lemma mret_eq {A} (a : A) w o w' : (mret a : proc A) w = (o, w') ↔ o = Ret a ∧ w' = w.
Proof. unfold mret, proc_ret. naive_solver. Qed.

(** ** Frames *)

Section frames.
Context {X : Type} (obs : W → X).

(** However [m] ends, [obs] is what it was. *)
Definition keeps {A} (m : proc A) : Prop := ∀ w, obs (m w).2 = obs w.

Lemma keeps_out {A} (m : proc A) w o w' : keeps m → m w = (o, w') → obs w' = obs w.
Proof. intros Hm Hw. specialize (Hm w). by rewrite Hw in Hm. Qed.

Lemma keeps_ret {A} (a : A) : keeps (mret a).
Proof. done. Qed.
Lemma keeps_throw {A} e : keeps (throw (A := A) e).
Proof. done. Qed.
Lemma keeps_require b e : keeps (require b e).
Proof. by destruct b. Qed.
Lemma keeps_bind {A B} (m : proc A) (f : A → proc B) :
  keeps m → (∀ a, keeps (f a)) → keeps (m ≫= f).
Proof.
  intros Hm Hf w. rewrite bind_eq. specialize (Hm w).
  destruct (m w) as [[a|e|] v]; simpl in *; [|done..]. by rewrite Hf.
Qed.
Lemma keeps_fmap {A B} (g : A → B) (m : proc A) : keeps m → keeps (g <$> m).
Proof. intros Hm. apply keeps_bind; [done|]. intros. apply keeps_ret. Qed.
Lemma keeps_try {A} (m : proc A) h : keeps m → (∀ e, keeps (h e)) → keeps (try_except m h).
Proof.
  intros Hm Hh w. unfold try_except. specialize (Hm w).
  destruct (m w) as [[a|e|] v]; simpl in *; [done| |done]. by rewrite Hh.
Qed.
Lemma keeps_if {A} (b : bool) (m n : proc A) :
  keeps m → keeps n → keeps (if b then m else n).
Proof. by destruct b. Qed.
Lemma keeps_match {A B} (o : option B) (m : B → proc A) (n : proc A) :
  (∀ b, keeps (m b)) → keeps n → keeps (match o with Some b => m b | None => n end).
Proof. intros; by destruct o. Qed.
Lemma keeps_for_each {A} (f : A → proc unit) l : (∀ x, keeps (f x)) → keeps (for_each f l).
Proof.
  intros Hf. induction l as [|x l IH]; simpl; [apply keeps_ret|].
  apply keeps_bind; auto.
Qed.
Lemma keeps_any_of {A} (f : A → proc bool) l : (∀ x, keeps (f x)) → keeps (any_of f l).
Proof.
  intros Hf. induction l as [|x l IH]; simpl; [apply keeps_ret|].
  apply keeps_bind; [auto|]. intros [|]; [apply keeps_ret|auto].
Qed.
Lemma keeps_or_else a b : keeps a → keeps b → keeps (or_else a b).
Proof. intros Ha Hb. apply keeps_bind; [done|]. intros [|]; [apply keeps_ret|done]. Qed.
Lemma keeps_traverse {A B} (f : A → proc B) l : (∀ x, keeps (f x)) → keeps (traverse f l).
Proof.
  intros Hf. induction l as [|x l IH]; simpl; [apply keeps_ret|].
  apply keeps_bind; [auto|]. intros y. apply keeps_bind; [auto|].
  intros. apply keeps_ret.
Qed.
End frames.

(** ** What can leave a procedure *)

Section raising.
Context (P : E → Prop).

Definition raises {A} (m : proc A) : Prop := ∀ w e w', m w = (Throw e, w') → P e.

Lemma raises_ret {A} (a : A) : raises (mret a).
Proof. intros w e w' Hw. by apply mret_eq in Hw as [? _]. Qed.
Lemma raises_throw {A} e : P e → raises (throw (A := A) e).
Proof. intros He w e' w' Hw. by apply throw_eq in Hw as [[= ->] _]. Qed.
Lemma raises_require b e : P e → raises (require b e).
Proof. intros He. destruct b; [apply raises_ret|by apply raises_throw]. Qed.
Lemma raises_bind {A B} (m : proc A) (f : A → proc B) :
  raises m → (∀ a, raises (f a)) → raises (m ≫= f).
Proof. intros Hm Hf w e w' [Hw|(a & v & _ & Hw)]%bind_Throw; [by eapply Hm|by eapply Hf]. Qed.
Lemma raises_fmap {A B} (g : A → B) (m : proc A) : raises m → raises (g <$> m).
Proof. intros Hm. apply raises_bind; [done|]. intros. apply raises_ret. Qed.
Lemma raises_for_each {A} (f : A → proc unit) l : (∀ x, raises (f x)) → raises (for_each f l).
Proof.
  intros Hf. induction l as [|x l IH]; simpl; [apply raises_ret|]. apply raises_bind; auto.
Qed.
Lemma raises_any_of {A} (f : A → proc bool) l : (∀ x, raises (f x)) → raises (any_of f l).
Proof.
  intros Hf. induction l as [|x l IH]; simpl; [apply raises_ret|].
  apply raises_bind; [auto|]. intros [|]; [apply raises_ret|auto].
Qed.
Lemma raises_or_else a b : raises a → raises b → raises (or_else a b).
Proof. intros Ha Hb. apply raises_bind; [done|]. intros [|]; [apply raises_ret|done]. Qed.
End raising.

(** ** Termination *)

(** [m] comes to an outcome from every world. *)
Definition ends {A} (m : proc A) : Prop := ∀ w, (m w).1 ≠ Diverge.

Lemma ends_ret {A} (a : A) : ends (mret a).
Proof. done. Qed.
Lemma ends_throw {A} e : ends (throw (A := A) e).
Proof. done. Qed.
Lemma ends_require b e : ends (require b e).
Proof. by destruct b. Qed.
Lemma ends_bind {A B} (m : proc A) (f : A → proc B) :
  ends m → (∀ a, ends (f a)) → ends (m ≫= f).
Proof.
  intros Hm Hf w. rewrite bind_eq. specialize (Hm w). destruct (m w) as [[a|e|] v]; try done.
  apply Hf.
Qed.
Lemma ends_fmap {A B} (g : A → B) (m : proc A) : ends m → ends (g <$> m).
Proof. intros Hm. apply ends_bind; [done|]. intros. apply ends_ret. Qed.
Lemma ends_try {A} (m : proc A) h : ends m → (∀ e, ends (h e)) → ends (try_except m h).
Proof.
  intros Hm Hh w. unfold try_except. specialize (Hm w). destruct (m w) as [[a|e|] v]; try done.
  apply Hh.
Qed.
Lemma ends_for_each {A} (f : A → proc unit) l : (∀ x, ends (f x)) → ends (for_each f l).
Proof.
  intros Hf. induction l as [|x l IH]; simpl; [apply ends_ret|]. apply ends_bind; auto.
Qed.
Lemma ends_any_of {A} (f : A → proc bool) l : (∀ x, ends (f x)) → ends (any_of f l).
Proof.
  intros Hf. induction l as [|x l IH]; simpl; [apply ends_ret|].
  apply ends_bind; [auto|]. intros [|]; [apply ends_ret|auto].
Qed.
Lemma ends_or_else a b : ends a → ends b → ends (or_else a b).
Proof. intros Ha Hb. apply ends_bind; [done|]. intros [|]; [apply ends_ret|done]. Qed.
Lemma ends_traverse {A B} (f : A → proc B) l : (∀ x, ends (f x)) → ends (traverse f l).
Proof.
  intros Hf. induction l as [|x l IH]; simpl; [apply ends_ret|].
  apply ends_bind; [auto|]. intros y. apply ends_bind; [auto|]. intros. apply ends_ret.
Qed.

(** ** Triples *)

(** From a world in [P], a value satisfies [Q] and an exception [R]. *)
Definition triple {A} (P : W → Prop) (m : proc A)
    (Q : A → W → Prop) (R : E → W → Prop) : Prop :=
  ∀ w, P w → match m w with
             | (Ret a, w') => Q a w'
             | (Throw e, w') => R e w'
             | (Diverge, _) => True
             end.

Lemma triple_Ret {A} P (m : proc A) Q R w a w' :
  triple P m Q R → P w → m w = (Ret a, w') → Q a w'.
Proof. intros Hm Hw Heq. specialize (Hm w Hw). by rewrite Heq in Hm. Qed.
Lemma triple_Throw {A} P (m : proc A) Q R w e w' :
  triple P m Q R → P w → m w = (Throw e, w') → R e w'.
Proof. intros Hm Hw Heq. specialize (Hm w Hw). by rewrite Heq in Hm. Qed.

Lemma triple_ret {A} (P : W → Prop) (a : A) R : triple P (mret a) (λ b w, b = a ∧ P w) R.
Proof. by intros w Hw. Qed.
Lemma triple_throw {A} (P : W → Prop) e (Q : A → W → Prop) :
  triple P (throw e) Q (λ e' w, e' = e ∧ P w).
Proof. by intros w Hw. Qed.
Lemma triple_bind {A B} P (m : proc A) (f : A → proc B) M Q R :
  triple P m M R → (∀ a, triple (M a) (f a) Q R) → triple P (m ≫= f) Q R.
Proof.
  intros Hm Hf w Hw. rewrite bind_eq. specialize (Hm w Hw).
  destruct (m w) as [[a|e|] v]; [|done..]. exact (Hf a v Hm).
Qed.
Lemma triple_try {A} P (m : proc A) h Q M R :
  triple P m Q M → (∀ e, triple (M e) (h e) Q R) → triple P (try_except m h) Q R.
Proof.
  intros Hm Hh w Hw. unfold try_except. specialize (Hm w Hw).
  destruct (m w) as [[a|e|] v]; [done| |done]. exact (Hh e v Hm).
Qed.
Lemma triple_conseq {A} (P P' : W → Prop) (m : proc A) (Q Q' : A → W → Prop) (R R' : E → W → Prop) :
  triple P m Q R → (∀ w, P' w → P w) → (∀ a w, Q a w → Q' a w) →
  (∀ e w, R e w → R' e w) → triple P' m Q' R'.
Proof.
  intros Hm HP HQ HR w Hw. specialize (Hm w (HP w Hw)).
  destruct (m w) as [[a|e|] v]; auto.
Qed.
(** A fact about values is a premise. *)
Lemma triple_pure {A} (φ : Prop) P (m : proc A) Q R :
  (φ → triple P m Q R) → triple (λ w, φ ∧ P w) m Q R.
Proof. intros Hm w [Hφ Hw]. exact (Hm Hφ w Hw). Qed.
(** What a procedure keeps can be carried past it. *)
Lemma triple_keeps {A X} (obs : W → X) x (m : proc A) :
  keeps obs m → triple (λ w, obs w = x) m (λ _ w, obs w = x) (λ _ w, obs w = x).
Proof.
  intros Hm w Hw. specialize (Hm w). destruct (m w) as [[a|e|] v]; simpl in *; [congruence..|done].
Qed.
(** A loop establishes [Q x] for every element it has visited. *)
Lemma triple_for_each {A} (I : list A → W → Prop) (f : A → proc unit) l R :
  (∀ dn x, triple (I dn) (f x) (λ _, I (dn ++ [x])) R) →
  triple (I []) (for_each f l) (λ _, I l) R.
Proof.
  intros Hf. assert (Hgen : ∀ k dn, triple (I dn) (for_each f k) (λ _, I (dn ++ k)) R).
  { intros k. induction k as [|x k IH]; intros dn; simpl.
    - intros w Hw. simpl. by rewrite app_nil_r.
    - eapply triple_bind; [apply Hf|]. intros u. simpl.
      eapply triple_conseq; [apply IH|done| |done].
      intros v w Hw. by rewrite <- app_assoc in Hw. }
  exact (Hgen l []).
Qed.

(** A loop keeps an invariant each of its turns keeps. *)
Lemma triple_for_each_in {A} P (f : A → proc unit) l R :
  (∀ x, x ∈ l → triple P (f x) (λ _, P) R) → triple P (for_each f l) (λ _, P) R.
Proof.
  induction l as [|x l IH]; intros Hf; simpl; [by intros w Hw|].
  eapply triple_bind; [apply Hf; by left|]. intros u. apply IH. intros; apply Hf; by right.
Qed.

(** ** Total correctness *)

(** From a world in [P] the procedure returns, and its value satisfies [Q]. *)
Definition total {A} (P : W → Prop) (m : proc A) (Q : A → W → Prop) : Prop :=
  ∀ w, P w → ∃ a w', m w = (Ret a, w') ∧ Q a w'.

Lemma total_ret {A} (P : W → Prop) (a : A) : total P (mret a) (λ b w, b = a ∧ P w).
Proof. intros w Hw. by exists a, w. Qed.
Lemma total_bind {A B} P (m : proc A) (f : A → proc B) M Q :
  total P m M → (∀ a, total (M a) (f a) Q) → total P (m ≫= f) Q.
Proof.
  intros Hm Hf w Hw. destruct (Hm w Hw) as (a & v & Hv & Ha).
  destruct (Hf a v Ha) as (b & v' & Hb & HQ). exists b, v'.
  split; [|done]. rewrite bind_eq, Hv. exact Hb.
Qed.
Lemma total_pure {A} (φ : Prop) P (m : proc A) Q :
  (φ → total P m Q) → total (λ w, φ ∧ P w) m Q.
Proof. intros Hm w [Hφ Hw]. exact (Hm Hφ w Hw). Qed.
Lemma total_conseq {A} (P P' : W → Prop) (m : proc A) (Q Q' : A → W → Prop) :
  total P m Q → (∀ w, P' w → P w) → (∀ a w, Q a w → Q' a w) → total P' m Q'.
Proof.
  intros Hm HP HQ w Hw. destruct (Hm w (HP w Hw)) as (a & v & Hv & Ha). exists a, v. auto.
Qed.
Lemma total_require P b e : b = true → total P (require b e) (λ _, P).
Proof. intros -> w Hw. by exists tt, w. Qed.
Lemma total_try {A} P (m : proc A) h Q : total P m Q → total P (try_except m h) Q.
Proof.
  intros Hm w Hw. destruct (Hm w Hw) as (a & v & Hv & Ha). exists a, v.
  split; [|done]. unfold try_except. by rewrite Hv.
Qed.
End procs.
Arguments keeps {W E X} obs {A} m.
Arguments raises {W E} P {A} m.
Arguments ends {W E A} m.
Arguments triple {W E A} P m Q R.
Arguments total {W E A} P m Q.

Create HintDb keeps.
#[export] Hint Resolve keeps_ret keeps_throw keeps_require keeps_bind keeps_fmap keeps_try
  keeps_if keeps_match keeps_for_each keeps_any_of keeps_or_else keeps_traverse : keeps.
#[export] Hint Extern 5 (∀ _, keeps _ _) => intros ? : keeps.

(** Frame a procedure: its binds and handlers by the rules, its calls by the
    lemmas of the database. *)
Ltac frame :=
  cbv zeta;
  repeat first
    [ solve [auto 3 with keeps nocore]
    | apply keeps_bind; [|intros ?]
    | apply keeps_try; [|intros ?]
    | apply keeps_for_each; intros ?
    | apply keeps_any_of; intros ?
    | apply keeps_traverse; intros ?
    | apply keeps_or_else
    | apply keeps_if
    | case_match ].

Create HintDb raises.
#[export] Hint Resolve raises_ret raises_throw raises_require raises_fmap : raises.
Ltac raising :=
  cbv zeta;
  repeat first
    [ solve [auto 3 with raises nocore]
    | apply raises_bind; [|intros ?]
    | apply raises_for_each; intros ?
    | apply raises_any_of; intros ?
    | apply raises_or_else
    | case_match ].

Create HintDb ends.
#[export] Hint Resolve ends_ret ends_throw ends_require ends_fmap : ends.
Ltac ending :=
  cbv zeta;
  repeat first
    [ solve [auto 3 with ends nocore]
    | apply ends_bind; [|intros ?]
    | apply ends_try; [|intros ?]
    | apply ends_for_each; intros ?
    | apply ends_any_of; intros ?
    | apply ends_traverse; intros ?
    | apply ends_or_else
    | case_match ].

(** Take a procedure that returned apart, one bind at a time. *)
Ltac inv_proc_step :=
  match goal with
  | H : (mbind _ _) _ = (Ret _, _) |- _ =>
      apply bind_Ret in H; destruct H as (? & ? & ? & H); simpl in H
  | H : require _ _ _ = (Ret _, _) |- _ => apply require_Ret in H; destruct H as [H ?]
  | H : (mret _) _ = (_, _) |- _ => apply mret_eq in H; destruct H as [H ?]
  | H : throw _ _ = (Ret _, _) |- _ => apply throw_eq in H; destruct H as [H ?]; discriminate H
  | H : Ret _ = Ret _ |- _ => injection H as H
  end.
Ltac inv_proc := repeat (inv_proc_step; simplify_eq/=).
