(* ===== verification/Fence.v ===== *)
(** * The writer fence

    [deployment/transition_fence.py]: revoking CONNECT from every writer role
    of a database, draining its sessions, proving it, and putting the access
    list back.  The database server, the clock and the caller's terminator are
    the class [Server]: one operation per statement the module issues, which
    may answer, fail, or be interrupted (an interrupt arrives while a call is
    blocked, not between two of them).  Access lists are sets of
    [(grantee, privilege, is_grantable, grantor)] as [aclexplode] gives them,
    with PUBLIC as the empty grantee. *)

From stdpp Require Import gmap.
From S2P Require Import Prelude PyText Json PyDate Effects.

#[local] Open Scope Z_scope.

(** ** Vocabulary *)

Module FenceRefusalCode.
Inductive t :=
  | WRITER_STILL_HAS_CONNECT | MIGRATION_ROLE_LOST_CONNECT | WRITER_SESSIONS_SURVIVED
  | ACL_NOT_RESTORED | UNKNOWN_DATABASE | WRITER_INHERITS_CONNECT | SHARED_WRITER_ROLE
  | CONNECTION_NOT_AUTOCOMMIT | CONNECTION_NOT_OWNER | PRIOR_MISMATCH | FENCE_INTERRUPTED
  | COMPENSATION_FAILED | GRANT_NOT_OWNER_GRANTED | PROOF_INVALID | PROOF_MISMATCH.
#[global] Instance t_eq_dec : EqDecision t.
Proof. solve_decision. Defined.
End FenceRefusalCode.
Import FenceRefusalCode.

(** What can leave a call: a refusal with the [before_acl] set on it, the
    wrapper around whatever the terminator raised, any other exception (a
    driver's), and KeyboardInterrupt or SystemExit. *)
Inductive failure :=
  | FenceRefused (code : FenceRefusalCode.t) (before_acl : option pystr)
  | TerminatorFailed
  | OtherException
  | Interrupt.

Definition grant : Type := pystr * pystr * bool * pystr.
Definition grantee_of (g : grant) : pystr := g.1.1.1.
Definition privilege_of (g : grant) : pystr := g.1.1.2.
Definition grantable_of (g : grant) : bool := g.1.2.
Definition grantor_of (g : grant) : pystr := g.2.
Abbreviation grants := (gset grant).

(** [a <= b] on the tuples. *)
Definition grant_leb (a b : grant) : bool :=
  let '(ge, p, o, gr) := a in
  let '(ge', p', o', gr') := b in
  if bool_decide (ge = ge') then
    if bool_decide (p = p') then
      if bool_decide (o = o') then text_leb gr gr' else negb o
    else text_leb p p'
  else text_leb ge ge'.
(** [sorted(grants)]. *)
Definition sorted_grants (gs : grants) : list grant := sort_by grant_leb (elements gs).

Definition CONNECT : pystr := lit "CONNECT".
Definition PUBLIC : pystr := lit "PUBLIC".
Definition FENCE_PROOF_SCHEMA : pystr := lit "TransitionFenceProof.v1".
Definition WRITER_ROLES : list pystr :=
  [lit "app_user"; lit "platform_api"; lit "platform_outbox_dispatcher";
   lit "outbox_dispatcher"].
Definition MIGRATION_ROLE : pystr := lit "app_admin".
(** Time is in microseconds. *)
Definition POLL_INTERVAL : Z := 50000.
Definition KNOWN_DATABASE_PRIVILEGES : list pystr :=
  [CONNECT; lit "CREATE"; lit "TEMPORARY"].

(** ** The proof *)

(** A [datetime] in UTC. *)
Record datetime := Datetime {
  dt_date : date; dt_hour : Z; dt_minute : Z; dt_second : Z; dt_micro : Z }.

Record FenceProof := Proof_ {
  database : pystr;
  fence_id : pystr;
  prior_acl : pystr;
  prior_grants : grants;
  fenced_roles : list pystr;
  member_roles : list pystr;
  absent_roles : list pystr;
  terminated_count : Z;
  fenced_at : datetime;
}.

Record UnfenceProof := Unfence {
  unfenced_database : pystr;
  restored_at : datetime;
  roles_restored : list pystr;
}.

(** ** The server *)

(** The statements of the module, with the type of what they answer:
    [Authorized] is the one row of the owner check, [SelectAcl] the text of
    [datacl] with the owner's oid, [HasConnect] is [has_database_privilege]. *)
Inductive stmt : Type → Type :=
  | SelectDatabase (db : pystr) : stmt bool
  | SelectRoles (roles : list pystr) : stmt (list pystr)
  | SelectMembers (writers : list pystr) : stmt (list pystr)
  | SelectOwner (db : pystr) : stmt (option pystr)
  | Authorized (db : pystr) : stmt (option bool)
  | HasRole (member role : pystr) : stmt bool
  | RoleSuper (role : pystr) : stmt bool
  | SelectAcl (db : pystr) : stmt (option pystr * Z)
  | AclDefault (owner : Z) : stmt pystr
  | SelectGrants (db : pystr) : stmt (list grant)
  | HasConnect (role db : pystr) : stmt bool
  | SelectPids (db : pystr) (writers : list pystr) : stmt (list Z)
  | TerminateBackend (pid : Z) : stmt unit
  | QuoteIdent (name : pystr) : stmt pystr
  | RevokeConnect (quoted_db from : pystr) : stmt unit
  | GrantConnect (quoted_db to_ : pystr) (option_ : bool) : stmt unit.

Class Server (W : Type) := {
  execute {A} : stmt A → proc W failure A;
  (** the driver connection's [autocommit] attribute *)
  autocommit : W → bool;
  sleep : Z → proc W failure unit;
  (** [time.monotonic()] and [datetime.now(UTC)] *)
  clock : W → Z * W;
  utc : W → datetime * W;
}.

Section fence.
Context {W : Type} `{Server W} `{UnicodeDB}.
#[local] Abbreviation proc := (proc W failure).

Definition refuse {A} (c : FenceRefusalCode.t) : proc A := throw (FenceRefused c None).
Definition require_code (b : bool) (c : FenceRefusalCode.t) : proc unit :=
  require b (FenceRefused c None).

Definition monotonic : proc Z := λ w, let '(t, w') := clock w in (Ret t, w').
Definition now_utc : proc datetime := λ w, let '(t, w') := utc w in (Ret t, w').

(** ** Statements *)

Definition quote_ident (name : pystr) : proc pystr := execute (QuoteIdent name).
Definition role_ref_sql (grantee : pystr) : proc pystr :=
  if bool_decide (grantee = []) then mret PUBLIC else quote_ident grantee.

Definition require_autocommit : proc unit := λ w,
  require_code (autocommit w) CONNECTION_NOT_AUTOCOMMIT w.

Definition database_exists (db : pystr) : proc bool := execute (SelectDatabase db).
Definition existing_roles (roles : list pystr) : proc (list pystr) :=
  if bool_decide (roles = []) then mret [] else execute (SelectRoles roles).

(** [sorted(set(...))] of role names. *)
Definition sorted_names (l : list pystr) : list pystr :=
  sort_by text_leb (elements (list_to_set l : gset pystr)).

Definition duplicates (values : list pystr) : bool := bool_decide (¬ NoDup values).

Definition member_roles_of (fenced : list pystr) : proc (list pystr) :=
  if bool_decide (fenced = []) then mret []
  else sorted_names <$> execute (SelectMembers fenced).

Definition database_owner (db : pystr) : proc pystr :=
  row ← execute (SelectOwner db);
  match row with Some owner => mret owner | None => refuse UNKNOWN_DATABASE end.

Definition require_owner_member_or_superuser (db : pystr) : proc unit :=
  row ← execute (Authorized db);
  match row with
  | None => refuse UNKNOWN_DATABASE
  | Some is_authorized => require_code is_authorized CONNECTION_NOT_OWNER
  end.

Definition is_member_of (member role : pystr) : proc bool := execute (HasRole member role).
Definition has_connect (db role : pystr) : proc bool := execute (HasConnect role db).

Definition current_acl_text (db : pystr) : proc pystr :=
  '(acl_text, owner_oid) ← execute (SelectAcl db);
  match acl_text with Some t => mret t | None => execute (AclDefault owner_oid) end.

Definition current_grants (db : pystr) : proc grants :=
  rows ← execute (SelectGrants db);
  mret (list_to_set rows).

(** ** Identifiers *)

Definition surrogate (c : Z) : bool := between 55296 57343 c.
Definition unsafe_identifier (allow_empty : bool) (v : pystr) : bool :=
  if bool_decide (v = []) then negb allow_empty
  else bool_decide (0 ∈ v) || existsb surrogate v.
Definition invalid_fence_id (v : pystr) : bool :=
  bool_decide (v = []) || bool_decide (0 ∈ v) || existsb surrogate v ||
  negb (bool_decide (v = strip v)) || (128 <? Z.of_nat (length v)).
Definition reject_invalid_fence_id (v : pystr) : proc unit :=
  require_code (negb (invalid_fence_id v)) PROOF_INVALID.

(** ** What is checked before any change *)

(** [tuple(dict.fromkeys(l))]. *)
Fixpoint fromkeys (l : list pystr) : list pystr :=
  match l with
  | [] => []
  | x :: l => x :: filter (λ y, y ≠ x) (fromkeys l)
  end.

(** The explicit CONNECT grantees of an access list. *)
Definition connect_grantees (gs : grants) : list pystr :=
  grantee_of <$> filter (λ g, privilege_of g = CONNECT ∧ grantee_of g ≠ []) (elements gs).

Definition reject_superuser_writers (effective : list pystr) : proc unit :=
  for_each (λ role,
    is_superuser ← execute (RoleSuper role);
    require_code (negb is_superuser) WRITER_INHERITS_CONNECT) effective.

Definition require_migration_connect_without_public (db : pystr) (gs : grants) : proc unit :=
  owner ← database_owner db;
  owns ← or_else (mret (bool_decide (MIGRATION_ROLE = owner))) (is_member_of MIGRATION_ROLE owner);
  if (owns : bool) then mret tt
  else
    explicit ← any_of (is_member_of MIGRATION_ROLE) (connect_grantees gs);
    require_code explicit MIGRATION_ROLE_LOST_CONNECT.

Definition reject_shared_writer_roles (effective writer_roles : list pystr) : proc unit :=
  require_code (negb (duplicates writer_roles)) SHARED_WRITER_ROLE;;
  for_each (λ role,
    require_code (negb (bool_decide (role = MIGRATION_ROLE))) SHARED_WRITER_ROLE;;
    shared ← or_else (is_member_of MIGRATION_ROLE role) (is_member_of role MIGRATION_ROLE);
    require_code (negb shared) SHARED_WRITER_ROLE) effective.

Definition reject_inherited_connect (effective : list pystr) (db : pystr) (gs : grants) : proc unit :=
  owner ← database_owner db;
  let other_grantees := filter (λ g, g ∉ effective) (connect_grantees gs) in
  for_each (λ role,
    for_each (λ grantee,
      inherits ← is_member_of role grantee;
      require_code (negb inherits) WRITER_INHERITS_CONNECT) other_grantees;;
    require_code (negb (bool_decide (role = owner))) WRITER_INHERITS_CONNECT;;
    of_owner ← is_member_of role owner;
    require_code (negb of_owner) WRITER_INHERITS_CONNECT;;
    of_migrator ← is_member_of role MIGRATION_ROLE;
    require_code (negb of_migrator) WRITER_INHERITS_CONNECT) effective.

(** A CONNECT grant of a checked grantee that the owner did not make. *)
Definition foreign_grant (owner : pystr) (effective : list pystr) (g : grant) : bool :=
  bool_decide (privilege_of g = CONNECT) && bool_decide (grantee_of g ∈ [] :: effective) &&
  negb (bool_decide (grantor_of g = owner)).
Definition reject_grants_not_owner_granted (db : pystr) (effective : list pystr) (gs : grants)
    : proc unit :=
  owner ← database_owner db;
  require_code (negb (existsb (foreign_grant owner effective) (elements gs)))
    GRANT_NOT_OWNER_GRANTED.

(** An entry no call may add: not a CONNECT grant to an effective role or
    PUBLIC by the owner, or a grant option to PUBLIC. *)
Definition bad_entry (owner : pystr) (effective : list pystr) (g : grant) : bool :=
  negb (bool_decide (privilege_of g = CONNECT)) ||
  negb (bool_decide (grantee_of g ∈ [] :: effective)) ||
  negb (bool_decide (grantor_of g = owner)) ||
  (bool_decide (grantee_of g = []) && grantable_of g).

Definition same_set (a b : list pystr) : bool :=
  bool_decide ((list_to_set a : gset pystr) = list_to_set b).

(** What [fence_writers] asks of a [prior] proof. *)
Definition check_prior (db : pystr) (fenced members effective : list pystr)
    (before_grants : grants) (prior : option FenceProof)
    (expected_prior_fence_id : option pystr) : proc unit :=
  match prior with
  | None =>
      require_code (bool_decide (expected_prior_fence_id = None)) PROOF_MISMATCH
  | Some p =>
      require_code (bool_decide (expected_prior_fence_id = Some (fence_id p))) PROOF_MISMATCH;;
      require_code (negb (bool_decide (fence_id p = []))) PROOF_INVALID;;
      require_code (bool_decide (database p = db) && same_set (fenced_roles p) fenced &&
                    same_set (member_roles p) members) PRIOR_MISMATCH;;
      require_code (bool_decide (before_grants ⊆ prior_grants p)) PRIOR_MISMATCH;;
      owner ← database_owner db;
      require_code
        (negb (existsb (bad_entry owner effective) (elements (prior_grants p ∖ before_grants))))
        PRIOR_MISMATCH
  end.

(** ** Draining *)

Abbreviation terminator := (option (proc unit)).

Definition writer_pids (db : pystr) (writers : list pystr) : proc (list Z) :=
  execute (SelectPids db writers).

Definition default_terminate (db : pystr) (roles : list pystr) : proc unit :=
  pids ← writer_pids db roles;
  for_each (λ pid, execute (TerminateBackend pid)) pids.

(** [except Exception: raise _TerminatorFailed]: an interrupt is not wrapped. *)
Definition wrap_terminator (e : failure) : failure :=
  match e with Interrupt => Interrupt | _ => TerminatorFailed end.

Definition request_termination (db : pystr) (roles : list pystr) (t : terminator)
    (session_wait : Z) : proc unit :=
  match t with
  | Some terminate =>
      started ← monotonic;
      try_except terminate (λ e, throw (wrap_terminator e));;
      ended ← monotonic;
      require_code (negb (session_wait <? ended - started)) WRITER_SESSIONS_SURVIVED
  | None => default_terminate db roles
  end.

(** The [while True] of the drain.  Every turn sleeps for an interval and
    stops at the deadline, so [drain_turns] turns are enough
    ([FenceTime.drain_time]). *)
Fixpoint drain_loop (turns : nat) (db : pystr) (roles : list pystr) (session_wait deadline : Z)
    (t : terminator) (terminated : Z) : proc Z :=
  match turns with
  | O => λ w, (Diverge, w)
  | S turns =>
      remaining ← writer_pids db roles;
      gone ← (if bool_decide (remaining = []) then
                sleep POLL_INTERVAL;;
                confirm ← writer_pids db roles;
                mret (bool_decide (confirm = []))
              else mret false);
      if (gone : bool) then mret terminated
      else
        now ← monotonic;
        require_code (negb (deadline <=? now)) WRITER_SESSIONS_SURVIVED;;
        request_termination db roles t session_wait;;
        sleep POLL_INTERVAL;;
        drain_loop turns db roles session_wait deadline t terminated
  end.

Definition drain_turns (session_wait : Z) : nat := S (S (Z.to_nat (session_wait / POLL_INTERVAL))).

Definition terminate_and_drain (db : pystr) (roles : list pystr) (session_wait : Z)
    (t : terminator) : proc Z :=
  if bool_decide (roles = []) then mret 0
  else
    backends ← writer_pids db roles;
    (if bool_decide (backends = []) then mret tt
     else request_termination db roles t session_wait);;
    now ← monotonic;
    drain_loop (drain_turns session_wait) db roles session_wait (now + session_wait) t
      (Z.of_nat (length backends)).

(** ** Changing the access list *)

(** [REVOKE] from PUBLIC and every effective role. *)
Definition refence (quoted_db : pystr) (effective : list pystr) : proc unit :=
  execute (RevokeConnect quoted_db PUBLIC);;
  for_each (λ role,
    quoted_role ← quote_ident role;
    execute (RevokeConnect quoted_db quoted_role)) effective.

Definition apply_fence (db fid : pystr) (fenced members effective absent : list pystr)
    (acl : pystr) (gs : grants) (session_wait : Z) (t : terminator) : proc FenceProof :=
  quoted_db ← quote_ident db;
  refence quoted_db effective;;
  for_each (λ role,
    still_connect ← has_connect db role;
    require_code (negb still_connect) WRITER_STILL_HAS_CONNECT) effective;;
  migrator ← existing_roles [MIGRATION_ROLE];
  require_code (negb (bool_decide (migrator = []))) MIGRATION_ROLE_LOST_CONNECT;;
  migration_can_connect ← has_connect db MIGRATION_ROLE;
  require_code migration_can_connect MIGRATION_ROLE_LOST_CONNECT;;
  terminated ← terminate_and_drain db effective session_wait t;
  at_ ← now_utc;
  mret (Proof_ db fid acl gs fenced members absent terminated at_).

Definition refence_holds (db : pystr) (effective : list pystr) : proc bool :=
  public_can_connect ← has_connect db (lit "public");
  if (public_can_connect : bool) then mret false
  else negb <$> any_of (has_connect db) effective.

Definition compensation_failed (acl : pystr) : failure := FenceRefused COMPENSATION_FAILED (Some acl).

Definition refence_and_redrain (quoted_db db : pystr) (effective : list pystr) (session_wait : Z)
    (acl : pystr) (t : terminator) : proc unit :=
  holds ← try_except (refence quoted_db effective;; refence_holds db effective)
            (λ _, throw (compensation_failed acl));
  require holds (compensation_failed acl);;
  try_except (terminate_and_drain db effective session_wait t;; mret tt)
    (λ e, match e with
          | FenceRefused _ _ => refuse WRITER_SESSIONS_SURVIVED
          | _ => throw (compensation_failed acl)
          end).

Definition effective_of (p : FenceProof) : list pystr :=
  fromkeys (fenced_roles p ++ member_roles p).

(** [GRANT] every missing entry; the names that were granted. *)
Definition grant_missing (quoted_db : pystr) (missing : list grant) : proc (list pystr) :=
  traverse (λ g,
    ref ← role_ref_sql (grantee_of g);
    execute (GrantConnect quoted_db ref (grantable_of g));;
    mret (if bool_decide (grantee_of g = []) then PUBLIC else grantee_of g)) missing.

(** Everything [restore_writers] checks before its first [GRANT]: the quoted
    name of the database and the entries to add. *)
Definition check_restore (proof : FenceProof) (db expected_fence_id : pystr)
    : proc (pystr * grants) :=
  require_autocommit;;
  require_code (bool_decide (db = database proof)) PROOF_MISMATCH;;
  require_code (bool_decide (expected_fence_id = fence_id proof)) PROOF_MISMATCH;;
  require_owner_member_or_superuser (database proof);;
  live_member_roles ← member_roles_of (fenced_roles proof);
  require_code (same_set live_member_roles (member_roles proof)) PROOF_MISMATCH;;
  quoted_db ← quote_ident (database proof);
  current ← current_grants (database proof);
  require_code (bool_decide (current ⊆ prior_grants proof)) ACL_NOT_RESTORED;;
  owner ← database_owner (database proof);
  let to_add := prior_grants proof ∖ current in
  require_code (negb (existsb (bad_entry owner (effective_of proof)) (elements to_add)))
    PROOF_MISMATCH;;
  mret (quoted_db, to_add).

(** The rest of [restore_writers]: grant, compare, or close again. *)
Definition reopen (proof : FenceProof) (quoted_db : pystr) (to_add : grants)
    (session_wait : Z) (t : terminator) : proc UnfenceProof :=
  let refence_first :=
    refence_and_redrain quoted_db (database proof) (effective_of proof) session_wait
      (prior_acl proof) t in
  '(restored, final) ←
    try_except
      (restored ← grant_missing quoted_db (sorted_grants to_add);
       final ← current_grants (database proof);
       mret (restored, final))
      (λ e, refence_first;;
            match e with
            | Interrupt => throw Interrupt
            | _ => refuse ACL_NOT_RESTORED
            end);
  (if bool_decide (final = prior_grants proof) then mret tt
   else refence_first;; refuse ACL_NOT_RESTORED);;
  at_ ← now_utc;
  mret (Unfence (database proof) at_ restored).

Definition restore_writers (proof : FenceProof) (db expected_fence_id : pystr)
    (session_wait : Z) (t : terminator) : proc UnfenceProof :=
  '(quoted_db, to_add) ← check_restore proof db expected_fence_id;
  reopen proof quoted_db to_add session_wait t.

(** What [fence_writers] resolves and checks before its first [REVOKE]. *)
Record resolved := Resolved {
  r_fenced : list pystr;
  r_absent : list pystr;
  r_members : list pystr;
  r_acl : pystr;
  r_grants : grants;
}.
Definition r_effective (r : resolved) : list pystr := fromkeys (r_fenced r ++ r_members r).

Definition check_fence (db fid : pystr) (writer_roles : list pystr)
    (prior : option FenceProof) (expected_prior_fence_id : option pystr) : proc resolved :=
  require_autocommit;;
  reject_invalid_fence_id fid;;
  exists_ ← database_exists db;
  require_code exists_ UNKNOWN_DATABASE;;
  require_owner_member_or_superuser db;;
  existing ← existing_roles writer_roles;
  let absent := filter (λ r, r ∉ existing) writer_roles in
  let fenced := filter (λ r, r ∈ existing) writer_roles in
  members ← member_roles_of fenced;
  let effective := fromkeys (fenced ++ members) in
  before_acl ← current_acl_text db;
  before_grants ← current_grants db;
  check_prior db fenced members effective before_grants prior expected_prior_fence_id;;
  reject_superuser_writers effective;;
  require_migration_connect_without_public db before_grants;;
  reject_shared_writer_roles effective writer_roles;;
  reject_inherited_connect effective db before_grants;;
  reject_grants_not_owner_granted db effective before_grants;;
  mret (Resolved fenced absent members before_acl before_grants).

(** The [except BaseException] of [fence_writers]. *)
Definition compensate (db fid : pystr) (r : resolved) (session_wait : Z) (t : terminator)
    (e : failure) : proc FenceProof :=
  at_ ← now_utc;
  let compensating :=
    Proof_ db fid (r_acl r) (r_grants r) (r_fenced r) (r_members r) (r_absent r) 0 at_ in
  try_except (restore_writers compensating db fid session_wait t;; mret tt)
    (λ _, throw (compensation_failed (r_acl r)));;
  match e with
  | Interrupt => throw Interrupt
  | FenceRefused c _ => throw (FenceRefused c (Some (r_acl r)))
  | _ => throw (FenceRefused FENCE_INTERRUPTED (Some (r_acl r)))
  end.

Definition fence_writers (db fid : pystr) (writer_roles : list pystr) (session_wait : Z)
    (prior : option FenceProof) (expected_prior_fence_id : option pystr) (t : terminator)
    : proc FenceProof :=
  r ← check_fence db fid writer_roles prior expected_prior_fence_id;
  let acl := match prior with Some p => prior_acl p | None => r_acl r end in
  let gs := match prior with Some p => prior_grants p | None => r_grants r end in
  try_except
    (apply_fence db fid (r_fenced r) (r_members r) (r_effective r) (r_absent r) acl gs
       session_wait t)
    (compensate db fid r session_wait t).

(** Is the fence this proof describes in effect right now? *)
Definition fence_is_holding (proof : FenceProof) : proc bool :=
  let effective := effective_of proof in
  open ← any_of (has_connect (database proof)) effective;
  if (open : bool) then mret false
  else
    migration_can_connect ← has_connect (database proof) MIGRATION_ROLE;
    if negb migration_can_connect then mret false
    else
      current_members ← member_roles_of (fenced_roles proof);
      if negb (same_set current_members (member_roles proof)) then mret false
      else
        pids ← writer_pids (database proof) effective;
        mret (bool_decide (pids = [])).
End fence.
Arguments refuse {W A} c.
