(* ===== verification/FenceSafety.v ===== *)
(** * What the writer fence guarantees, and a cluster to run it on

    The fence against a server that nobody else reconfigures while it works
    ([Undisturbed]): sessions come and go, statements may fail or be
    interrupted at any point, the terminator may do anything but change roles
    or grants.  All-or-nothing fencing, a restore that fails closed, and the
    proof that a returned proof describes a fence that is holding.

    Then a small database cluster on which the witnesses of the fence run: one
    database, its owner, a few roles with their (transitive) memberships, the
    access list, the open sessions, a clock, and the statements that are going
    to fail.  It obeys what the theorems ask of a server. *)

From stdpp Require Import gmap.
From S2P Require Import Prelude PyText Json PyDate Effects Fence.



Import FenceRefusalCode.

#[local] Open Scope Z_scope.

(** The statements that change an access list. *)
Definition is_change {A} (s : stmt A) : bool :=
  match s with RevokeConnect _ _ | GrantConnect _ _ _ => true | _ => false end.
(** What a question is about: sessions come and go, an access list is
    changed by the statements above, the rest is the catalogue. *)
Definition about_sessions {A} (s : stmt A) : bool :=
  match s with SelectPids _ _ => true | _ => false end.
Definition about_grants {A} (s : stmt A) : bool :=
  match s with
  | SelectGrants _ | SelectAcl _ | HasConnect _ _ => true
  | _ => false
  end.
Definition lasting {A} (s : stmt A) : bool := negb (about_sessions s).
Definition catalogue {A} (s : stmt A) : bool := negb (about_sessions s) && negb (about_grants s).

(** [view q w]: what the server answers to [q] in [w]. *)
Class Undisturbed {W} `{Server W} (view : ∀ A, stmt A → W → A) : Prop := {
  view_read {A} (s : stmt A) w a w' : execute s w = (Ret a, w') → a = view _ s w;
  view_execute {A B} (s : stmt A) (q : stmt B) :
    is_change s = false → lasting q = true → keeps (view _ q) (execute s);
  view_change {A B} (s : stmt A) (q : stmt B) :
    catalogue q = true → keeps (view _ q) (execute s);
  view_sleep {B} d (q : stmt B) : lasting q = true → keeps (view _ q) (sleep d);
  view_monotonic {B} (q : stmt B) : lasting q = true → keeps (view _ q) monotonic;
  view_now {B} (q : stmt B) : lasting q = true → keeps (view _ q) now_utc;
  (** a statement raises a driver's error or is interrupted *)
  view_raises {A} (s : stmt A) w e w' :
    execute s w = (Throw e, w') → e = OtherException ∨ e = Interrupt;
  (** roles without CONNECT that have no session get none *)
  view_gone {A} db roles (s : stmt A) w :
    is_change s = false →
    view _ (SelectPids db roles) w = [] → (∀ r, r ∈ roles → view _ (HasConnect r db) w = false) →
    view _ (SelectPids db roles) (execute s w).2 = [];
  view_gone_now db roles w :
    view _ (SelectPids db roles) w = [] → (∀ r, r ∈ roles → view _ (HasConnect r db) w = false) →
    view _ (SelectPids db roles) (now_utc w).2 = [];
  view_nobody db w : view _ (SelectPids db []) w = [];
}.

Section safety.
Context {W : Type} `{Server W} `{UnicodeDB} (view : ∀ A, stmt A → W → A) `{!Undisturbed view}.
#[local] Abbreviation proc := (proc W failure).

(** The access list of a database. *)
Definition acl (db : pystr) (w : W) : grants := list_to_set (view _ (SelectGrants db) w).

(** A terminator that ends sessions and nothing else. *)
Definition benign (t : option (proc unit)) : Prop :=
  ∀ terminate, t = Some terminate → ∀ B (q : stmt B), lasting q = true → keeps (view _ q) terminate.

(** ** Frames *)

Lemma keeps_acl {A} db (m : proc A) : keeps (view _ (SelectGrants db)) m → keeps (acl db) m.
Proof. intros Hm w. unfold acl. by rewrite Hm. Qed.

Section frame.
Context {B : Type} (q : stmt B) (Hq : lasting q = true).

Lemma keeps_query {A} (s : stmt A) : is_change s = false → keeps (view _ q) (execute s).
Proof. intros Hs. by apply view_execute. Qed.
Lemma keeps_sleep d : keeps (view _ q) (sleep d).
Proof. by apply view_sleep. Qed.
Lemma keeps_monotonic : keeps (view _ q) monotonic.
Proof. by apply view_monotonic. Qed.
Lemma keeps_now : keeps (view _ q) now_utc.
Proof. by apply view_now. Qed.
Lemma keeps_diverge {A} : keeps (view _ q) ((λ w, (Diverge, w)) : proc A).
Proof. done. Qed.
#[local] Hint Resolve keeps_query keeps_sleep keeps_monotonic keeps_now keeps_diverge : keeps.
#[local] Hint Extern 1 (is_change _ = false) => reflexivity : keeps.

Lemma keeps_autocommit : keeps (view _ q) require_autocommit.
Proof. intros w. unfold require_autocommit. apply keeps_require. Qed.
Lemma keeps_quote name : keeps (view _ q) (quote_ident name).
Proof. unfold quote_ident. frame. Qed.
Lemma keeps_has_connect db r : keeps (view _ q) (has_connect db r).
Proof. unfold has_connect. frame. Qed.
Lemma keeps_member_of m r : keeps (view _ q) (is_member_of m r).
Proof. unfold is_member_of. frame. Qed.
Lemma keeps_existing_roles l : keeps (view _ q) (existing_roles l).
Proof. unfold existing_roles. frame. Qed.
Lemma keeps_member_roles l : keeps (view _ q) (member_roles_of l).
Proof. unfold member_roles_of. frame. Qed.
Lemma keeps_owner db : keeps (view _ q) (database_owner db).
Proof. unfold database_owner, refuse. frame. Qed.
Lemma keeps_authorized db : keeps (view _ q) (require_owner_member_or_superuser db).
Proof. unfold require_owner_member_or_superuser, require_code, refuse. frame. Qed.
Lemma keeps_acl_text db : keeps (view _ q) (current_acl_text db).
Proof.
  unfold current_acl_text. apply keeps_bind; [auto with keeps|]. intros [o z].
  frame.
Qed.
Lemma keeps_current_grants db : keeps (view _ q) (current_grants db).
Proof. unfold current_grants. frame. Qed.
Lemma keeps_pids db l : keeps (view _ q) (writer_pids db l).
Proof. unfold writer_pids. frame. Qed.
#[local] Hint Resolve keeps_autocommit keeps_quote keeps_has_connect keeps_member_of
  keeps_existing_roles keeps_member_roles keeps_owner keeps_authorized keeps_acl_text
  keeps_current_grants keeps_pids : keeps.

Lemma keeps_check_prior db f m e gs p x : keeps (view _ q) (check_prior db f m e gs p x).
Proof. unfold check_prior, require_code. frame. Qed.
Lemma keeps_superuser e : keeps (view _ q) (reject_superuser_writers e).
Proof. unfold reject_superuser_writers, require_code. frame. Qed.
Lemma keeps_migration db gs : keeps (view _ q) (require_migration_connect_without_public db gs).
Proof. unfold require_migration_connect_without_public, require_code. frame. Qed.
Lemma keeps_shared e l : keeps (view _ q) (reject_shared_writer_roles e l).
Proof. unfold reject_shared_writer_roles, require_code. frame. Qed.
Lemma keeps_inherited e db gs : keeps (view _ q) (reject_inherited_connect e db gs).
Proof. unfold reject_inherited_connect, require_code. frame. Qed.
Lemma keeps_owner_granted db e gs : keeps (view _ q) (reject_grants_not_owner_granted db e gs).
Proof. unfold reject_grants_not_owner_granted, require_code. frame. Qed.
#[local] Hint Resolve keeps_check_prior keeps_superuser keeps_migration keeps_shared
  keeps_inherited keeps_owner_granted : keeps.

(** Nothing has changed when the last check is done. *)
Lemma keeps_check_fence db fid roles p x : keeps (view _ q) (check_fence db fid roles p x).
Proof.
  unfold check_fence, reject_invalid_fence_id, database_exists, require_code.
  frame.
Qed.
Lemma keeps_check_restore p db fid : keeps (view _ q) (check_restore p db fid).
Proof. unfold check_restore, require_code. frame. Qed.

Lemma keeps_request db roles t wait : benign t → keeps (view _ q) (request_termination db roles t wait).
Proof.
  intros Ht. unfold request_termination, default_terminate, require_code.
  destruct t as [terminate|]; [|auto 8 with keeps].
  specialize (Ht terminate eq_refl _ q Hq). frame.
Qed.
#[local] Hint Resolve keeps_request : keeps.

Lemma keeps_drain_loop n db roles wait deadline t k :
  benign t → keeps (view _ q) (drain_loop n db roles wait deadline t k).
Proof.
  intros Ht. induction n as [|n IH]; simpl; [apply keeps_diverge|].
  unfold require_code. frame.
Qed.
Lemma keeps_drain db roles wait t :
  benign t → keeps (view _ q) (terminate_and_drain db roles wait t).
Proof.
  intros Ht. unfold terminate_and_drain. apply keeps_if; [auto with keeps|].
  apply keeps_bind; [auto with keeps|intros pids].
  apply keeps_bind; [auto with keeps|intros _].
  apply keeps_bind; [auto with keeps|intros now]. by apply keeps_drain_loop.
Qed.
End frame.

#[local] Hint Resolve keeps_query keeps_sleep keeps_monotonic keeps_now keeps_diverge
  keeps_autocommit keeps_quote keeps_has_connect keeps_member_of
  keeps_existing_roles keeps_member_roles keeps_owner keeps_authorized keeps_acl_text
  keeps_current_grants keeps_pids keeps_check_prior keeps_superuser keeps_migration keeps_shared
  keeps_inherited keeps_owner_granted keeps_check_fence keeps_check_restore keeps_drain : keeps.
#[local] Hint Extern 1 (lasting _ = true) => reflexivity : keeps.
#[local] Hint Extern 1 (is_change _ = false) => reflexivity : keeps.

(** ** Reading the access list *)

Lemma grants_read db w gs w' :
  current_grants db w = (Ret gs, w') → gs = acl db w ∧ acl db w' = acl db w.
Proof.
  intros Hr. assert (acl db w' = acl db w) as ->.
  { eapply keeps_out; [|exact Hr]. apply keeps_acl. frame. }
  unfold current_grants in Hr. inv_proc.
  match goal with H : execute _ _ = _ |- _ => apply view_read in H as -> end. done.
Qed.

(** The grants recorded at the start are those of the start. *)
Lemma check_fence_grants db fid roles p x w r w' :
  check_fence db fid roles p x w = (Ret r, w') → r_grants r = acl db w.
Proof.
  unfold check_fence. intros Hc.
  repeat (apply bind_Ret in Hc as (? & ? & ? & Hc)).
  apply mret_eq in Hc as [[= ->] _]. cbn [r_grants].
  match goal with H : current_grants _ _ = _ |- _ => apply grants_read in H as [-> _] end.
  repeat match goal with
  | Hm : ?m ?v = (_, ?v') |- acl db ?v' = _ =>
      transitivity (acl db v);
        [eapply keeps_out; [|exact Hm]; apply keeps_acl;
         unfold reject_invalid_fence_id, database_exists, require_code; frame|]
  end. done.
Qed.

(** A restore that returns has put the recorded access list back. *)
Lemma restore_Ret p db fid wait t w u w' :
  restore_writers p db fid wait t w = (Ret u, w') → acl (database p) w' = prior_grants p.
Proof.
  unfold restore_writers. intros Hr.
  apply bind_Ret in Hr as ([quoted_db to_add] & w1 & _ & Hr). unfold reopen in Hr. cbv zeta in Hr.
  apply bind_Ret in Hr as ([restored final] & w2 & Htry & Hr).
  apply bind_Ret in Hr as (u1 & w3 & Hfin & Hr).
  assert (Hfinal : final = acl (database p) w2).
  { apply try_Ret in Htry as [Ht|(e & v & _ & Hh)].
    - apply bind_Ret in Ht as (rs & v1 & _ & Ht). apply bind_Ret in Ht as (fin & v2 & Hg & Ht).
      apply mret_eq in Ht as [[= -> ->] ->]. apply grants_read in Hg as [-> ->]. done.
    - apply bind_Ret in Hh as (? & ? & _ & Hh). by destruct e. }
  case_bool_decide as Hf.
  - apply mret_eq in Hfin as [_ ->].
    apply bind_Ret in Hr as (at_ & w4 & Hn & Hr). apply mret_eq in Hr as [_ ->].
    transitivity (acl (database p) w2); [|congruence].
    eapply keeps_out; [|exact Hn]. apply keeps_acl. frame.
  - apply bind_Ret in Hfin as (? & ? & _ & Hfin). by apply throw_eq in Hfin as [? _].
Qed.

(** A fence that returns records what it was asked and found. *)
Lemma apply_fence_Ret db fid f m e a acl_ gs wait t w p w' :
  apply_fence db fid f m e a acl_ gs wait t w = (Ret p, w') →
  database p = db ∧ fence_id p = fid ∧ prior_acl p = acl_ ∧ prior_grants p = gs ∧
  fenced_roles p = f ∧ member_roles p = m ∧ absent_roles p = a.
Proof.
  unfold apply_fence. intros Hr. repeat (apply bind_Ret in Hr as (? & ? & ? & Hr)).
  by apply mret_eq in Hr as [[= ->] _].
Qed.

Definition is_compensation_failed (e : failure) : bool :=
  match e with FenceRefused COMPENSATION_FAILED _ => true | _ => false end.

(** The handler of a failed fence never returns, and unless it reports that
    it failed itself the access list is the one the call started from. *)
Lemma compensate_Ret db fid r wait t e w p w' : compensate db fid r wait t e w ≠ (Ret p, w').
Proof.
  unfold compensate. intros Hc.
  apply bind_Ret in Hc as (at_ & w1 & _ & Hc). cbv zeta in Hc.
  apply bind_Ret in Hc as (u & w2 & _ & Hc). by destruct e.
Qed.

Lemma compensate_Throw db fid r wait t e w f w' :
  compensate db fid r wait t e w = (Throw f, w') →
  f = compensation_failed (r_acl r) ∨
  (acl db w' = r_grants r ∧
   f = match e with
       | Interrupt => Interrupt
       | FenceRefused c _ => FenceRefused c (Some (r_acl r))
       | _ => FenceRefused FENCE_INTERRUPTED (Some (r_acl r))
       end).
Proof.
  unfold compensate. intros Hc.
  apply bind_Throw in Hc as [Hc|(at_ & w1 & _ & Hc)].
  { unfold now_utc in Hc. by destruct (utc w). }
  cbv zeta in Hc. apply bind_Throw in Hc as [Hc|(u & w2 & Htry & Hc)].
  - apply try_Throw in Hc as (f' & v & _ & Hc). apply throw_eq in Hc as [[= ->] ->]. by left.
  - right. apply try_Ret in Htry as [Ht|(f' & v & _ & Ht)]; [|by apply throw_eq in Ht as [? _]].
    apply bind_Ret in Ht as (u' & v & Hr & Ht). apply mret_eq in Ht as [_ ->].
    apply restore_Ret in Hr. cbn in Hr.
    destruct e; apply throw_eq in Hc as [[= ->] ->]; done.
Qed.

(** The recorded list of a fence: the prior proof's, or the one it found. *)
Definition recorded (prior : option FenceProof) (gs : grants) : grants :=
  match prior with Some p => prior_grants p | None => gs end.


(** ** Locked databases *)

(** None of the roles can connect. *)
Definition locked (db : pystr) (roles : list pystr) (w : W) : Prop :=
  ∀ r, r ∈ roles → view _ (HasConnect r db) w = false.
(** Nor is any of them still connected. *)
Definition emptied (db : pystr) (roles : list pystr) (w : W) : Prop :=
  view _ (SelectPids db roles) w = [].

Lemma triple_locked {A} db roles (m : proc A) :
  (∀ r, keeps (view _ (HasConnect r db)) m) →
  triple (locked db roles) m (λ _, locked db roles) (λ _, locked db roles).
Proof.
  intros Hm w Hw.
  assert (Hl : locked db roles (m w).2) by (intros r Hr; rewrite Hm; auto).
  by destruct (m w) as [[a|e|] v].
Qed.

Lemma locked_app db l k w : locked db (l ++ k) w ↔ locked db l w ∧ locked db k w.
Proof. unfold locked. setoid_rewrite elem_of_app. naive_solver. Qed.

Lemma has_connect_spec db roles r :
  triple (locked db roles) (has_connect db r)
    (λ b w, if b : bool then True else locked db (roles ++ [r]) w) (λ _, locked db roles).
Proof.
  intros w Hw. pose proof (triple_locked db roles (has_connect db r)) as Hk.
  specialize (Hk (λ r, ltac:(frame)) w Hw).
  destruct (has_connect db r w) as [[[]|e|] v] eqn:He; try done.
  apply locked_app. split; [done|]. intros r' ->%list_elem_of_singleton.
  assert (view _ (HasConnect r db) v = view _ (HasConnect r db) w) as ->.
  { eapply keeps_out; [|exact He]. frame. }
  unfold has_connect in He. by apply view_read in He.
Qed.

(** Nobody who was asked could connect. *)
Lemma any_connect_spec db seen l :
  triple (locked db seen) (any_of (has_connect db) l)
    (λ b w, if b : bool then True else locked db (seen ++ l) w) (λ _ _, True).
Proof.
  revert seen. induction l as [|x l IH]; intros seen; simpl.
  { intros w Hw. simpl. by rewrite app_nil_r. }
  eapply triple_bind.
  { eapply triple_conseq; [apply has_connect_spec|done|intros a w Hw; exact Hw|done]. }
  intros [|]; [by intros w _|].
  eapply triple_conseq; [apply IH|done| |done].
  intros b w. by rewrite <- app_assoc.
Qed.

Lemma refence_holds_spec db roles :
  triple (λ _, True) (refence_holds db roles)
    (λ b w, b = true → locked db (lit "public" :: roles) w) (λ _ _, True).
Proof.
  unfold refence_holds. eapply triple_bind.
  { eapply triple_conseq; [apply (has_connect_spec db [])|by intros ? _ ? ?%elem_of_nil
      |intros a w Hw; exact Hw|done]. }
  intros [|]; [by intros w _|]. eapply triple_bind.
  { eapply triple_conseq; [apply any_connect_spec|done|intros a w Hw; exact Hw|done]. }
  intros [|] w Hw; [done|intros _; exact Hw].
Qed.

Section drain.
Context (db : pystr) (roles : list pystr) (wait : Z) (t : option (proc unit)) (Ht : benign t).
Abbreviation L := (locked db roles).

Lemma pids_spec :
  triple L (writer_pids db roles) (λ pids w, L w ∧ (pids = [] → emptied db roles w)) (λ _, L).
Proof.
  intros w Hw. pose proof (triple_locked db roles (writer_pids db roles)) as Hk.
  specialize (Hk (λ r, ltac:(frame)) w Hw). unfold writer_pids in *.
  pose proof (view_gone db roles (SelectPids db roles) w eq_refl) as Hgone.
  destruct (execute (SelectPids db roles) w) as [[pids|e|] v] eqn:He; try done.
  split; [done|]. intros ->. apply view_read in He. exact (Hgone (eq_sym He) Hw).
Qed.

(** A drain that returns left no session behind. *)
Lemma drain_loop_spec n deadline k :
  triple L (drain_loop n db roles wait deadline t k)
    (λ _ w, L w ∧ emptied db roles w) (λ _, L).
Proof.
  induction n as [|n IH]; simpl; [by intros w _|].
  apply (triple_bind _ _ _ (λ _, L)).
  { eapply triple_conseq; [apply pids_spec|done|intros a w Hw; exact (proj1 Hw)|done]. }
  intros pids. eapply (triple_bind _ _ _ (λ (b : bool) w, L w ∧ (b = true → emptied db roles w))).
  { case_bool_decide; [|by intros w Hw].
    eapply triple_bind; [apply triple_locked; intros r; frame|intros ?].
    eapply triple_bind; [apply pids_spec|intros c]. intros w Hw. simpl.
    by rewrite bool_decide_eq_true. }
  intros [|]; [intros w [Hw Hg]; simpl; auto|].
  apply (triple_bind _ _ _ (λ _, L)).
  { eapply triple_conseq; [apply triple_locked; intros r; frame|intros w Hw; exact (proj1 Hw)|done|done]. }
  intros now. unfold require_code.
  eapply triple_bind; [apply triple_locked; intros r; frame|intros ?].
  eapply triple_bind; [apply triple_locked; intros r; by apply keeps_request|intros ?].
  eapply triple_bind; [apply triple_locked; intros r; frame|intros ?]. exact IH.
Qed.

Lemma drain_spec :
  triple L (terminate_and_drain db roles wait t) (λ _ w, L w ∧ emptied db roles w) (λ _, L).
Proof.
  unfold terminate_and_drain. case_bool_decide as Hr.
  { intros w Hw. split; [done|]. rewrite Hr. apply view_nobody. }
  eapply triple_bind; [apply triple_locked; intros r; frame|intros pids].
  eapply triple_bind.
  { apply triple_locked; intros r; frame. by apply keeps_request. }
  intros ?. eapply triple_bind; [apply triple_locked; intros r; frame|intros now].
  apply drain_loop_spec.
Qed.
End drain.

End safety.

#[export] Hint Resolve keeps_query keeps_sleep keeps_monotonic keeps_now keeps_diverge
  keeps_autocommit keeps_quote keeps_has_connect keeps_member_of
  keeps_existing_roles keeps_member_roles keeps_owner keeps_authorized keeps_acl_text
  keeps_current_grants keeps_pids keeps_check_prior keeps_superuser keeps_migration keeps_shared
  keeps_inherited keeps_owner_granted keeps_check_fence keeps_check_restore keeps_drain : keeps.
#[export] Hint Extern 1 (lasting _ = true) => reflexivity : keeps.
#[export] Hint Extern 1 (is_change _ = false) => reflexivity : keeps.

Import FenceRefusalCode.

#[local] Open Scope Z_scope.

Record cluster := Cluster {
  c_db : pystr;
  c_owner : pystr;
  c_roles : list pystr;
  c_supers : list pystr;
  (** (member, role), closed under transitivity *)
  c_members : list (pystr * pystr);
  c_acl : list grant;
  c_sessions : list (Z * pystr);
  c_time : Z;
  (** what the coming statements raise *)
  c_faults : list (option failure);
}.

Definition set_acl (l : list grant) (w : cluster) : cluster :=
  Cluster (c_db w) (c_owner w) (c_roles w) (c_supers w) (c_members w) l (c_sessions w)
    (c_time w) (c_faults w).
Definition set_sessions (l : list (Z * pystr)) (w : cluster) : cluster :=
  Cluster (c_db w) (c_owner w) (c_roles w) (c_supers w) (c_members w) (c_acl w) l
    (c_time w) (c_faults w).
Definition set_time (t : Z) (w : cluster) : cluster :=
  Cluster (c_db w) (c_owner w) (c_roles w) (c_supers w) (c_members w) (c_acl w) (c_sessions w)
    t (c_faults w).
Definition set_faults (l : list (option failure)) (w : cluster) : cluster :=
  Cluster (c_db w) (c_owner w) (c_roles w) (c_supers w) (c_members w) (c_acl w) (c_sessions w)
    (c_time w) l.

(** Identifiers are written between double quotes. *)
Definition quoted (name : pystr) : pystr := 34 :: name ++ [34].
Definition named (ref : pystr) : pystr :=
  match ref with 34 :: rest => removelast rest | _ => [] end.

Definition member_of (w : cluster) (m r : pystr) : bool :=
  bool_decide (m = r) || bool_decide (m ∈ c_supers w) || bool_decide ((m, r) ∈ c_members w).
Definition can_connect (w : cluster) (role : pystr) : bool :=
  if bool_decide (role = lit "public") then
    existsb (λ g, bool_decide (privilege_of g = CONNECT) && bool_decide (grantee_of g = [])) (c_acl w)
  else
    member_of w role (c_owner w) ||
    existsb (λ g, bool_decide (privilege_of g = CONNECT) &&
                  (bool_decide (grantee_of g = []) || member_of w role (grantee_of g))) (c_acl w).

(** What the statement answers. *)
Definition answer {A} (s : stmt A) (w : cluster) : A :=
  match s in stmt T return T with
  | SelectDatabase db => bool_decide (db = c_db w)
  | SelectRoles roles => filter (λ r, r ∈ roles) (c_roles w)
  | SelectMembers writers =>
      filter (λ m, m ∉ writers) (filter (λ p, p.2 ∈ writers) (c_members w)).*1
  | SelectOwner db => if bool_decide (db = c_db w) then Some (c_owner w) else None
  | Authorized db => if bool_decide (db = c_db w) then Some true else None
  | HasRole m r => member_of w m r
  | RoleSuper r => bool_decide (r ∈ c_supers w)
  | SelectAcl db => (Some (lit "{}"), 10)
  | AclDefault owner => lit "{}"
  | SelectGrants db => if bool_decide (db = c_db w) then c_acl w else []
  | HasConnect r db => can_connect w r
  | SelectPids db writers => (filter (λ s, s.2 ∈ writers) (c_sessions w)).*1
  | TerminateBackend pid => tt
  | QuoteIdent name => quoted name
  | RevokeConnect qdb ref => tt
  | GrantConnect qdb ref opt => tt
  end.

(** What it changes: a revoke takes away what the owner granted, a grant adds
    an entry by the owner unless the grantee has one. *)
Definition by_owner (w : cluster) (name : pystr) (g : grant) : Prop :=
  privilege_of g = CONNECT ∧ grantee_of g = name ∧ grantor_of g = c_owner w.
#[export] Instance by_owner_dec w name g : Decision (by_owner w name g).
Proof. unfold by_owner. apply _. Defined.

Definition effect {A} (s : stmt A) (w : cluster) : cluster :=
  match s with
  | TerminateBackend pid => set_sessions (filter (λ s, s.1 ≠ pid) (c_sessions w)) w
  | RevokeConnect qdb ref =>
      if bool_decide (qdb = quoted (c_db w)) then
        set_acl (filter (λ g, ¬ by_owner w (named ref) g) (c_acl w)) w
      else w
  | GrantConnect qdb ref opt =>
      if bool_decide (qdb = quoted (c_db w)) then
        if bool_decide (filter (by_owner w (named ref)) (c_acl w) = []) then
          set_acl (c_acl w ++ [(named ref, CONNECT, opt, c_owner w)]) w
        else w
      else w
  | _ => w
  end.

(** A server's statement raises a driver's error or an interrupt. *)
Definition raised (e : failure) : failure :=
  match e with Interrupt => Interrupt | _ => OtherException end.

Definition run {A} (s : stmt A) (w : cluster) : outcome failure A * cluster :=
  match c_faults w with
  | Some e :: rest => (Throw (raised e), set_faults rest w)
  | None :: rest => (Ret (answer s w), effect s (set_faults rest w))
  | [] => (Ret (answer s w), effect s w)
  end.

#[export] Instance demo : Server cluster := {|
  execute A s := run s;
  autocommit w := true;
  sleep d w := (Ret tt, set_time (c_time w + d) w);
  clock w := (c_time w, w);
  utc w := (Datetime (Date 2026 9 27) 10 0 0 250, w);
|}.

Lemma answer_faults {A} (q : stmt A) l w : answer q (set_faults l w) = answer q w.
Proof. by destruct q. Qed.

Lemma answer_effect {A B} (s : stmt A) (q : stmt B) w :
  is_change s = false → lasting q = true → answer q (effect s w) = answer q w.
Proof. by destruct s, q. Qed.

Lemma answer_catalogue {A B} (s : stmt A) (q : stmt B) w :
  catalogue q = true → answer q (effect s w) = answer q w.
Proof. destruct s, q; intros Hq; try done; simpl; repeat case_bool_decide; done. Qed.

Lemma sessions_effect {A} (s : stmt A) w db roles :
  is_change s = false → answer (SelectPids db roles) w = [] →
  answer (SelectPids db roles) (effect s w) = [].
Proof.
  destruct s; try done. intros _. simpl. intros Hn%fmap_nil_inv.
  assert (Hall : ∀ x, x ∈ c_sessions w → x.2 ∉ roles).
  { intros x Hx Hr. assert (Hin : x ∈ filter (λ s, s.2 ∈ roles) (c_sessions w))
      by (by apply list_elem_of_filter). rewrite Hn in Hin. by apply elem_of_nil in Hin. }
  match goal with |- (filter ?P ?l).*1 = [] => destruct (filter P l) as [|y l'] eqn:Hf; [done|] end.
  assert (Hy : y ∈ y :: l') by left. rewrite <- Hf in Hy.
  apply list_elem_of_filter in Hy as [Hr [_ Hy]%list_elem_of_filter]. by apply Hall in Hr.
Qed.

#[export] Instance demo_undisturbed : Undisturbed (@answer).
Proof.
  split.
  - intros A s w a w' Hr. simpl in Hr. unfold run in Hr.
    destruct (c_faults w) as [|[e|] rest]; simplify_eq; done.
  - intros A B s q Hs Hq w. simpl. unfold run.
    destruct (c_faults w) as [|[e|] rest]; simpl; rewrite ?answer_effect, ?answer_faults; done.
  - intros A B s q Hq w. simpl. unfold run.
    destruct (c_faults w) as [|[e|] rest]; simpl; rewrite ?answer_catalogue, ?answer_faults; done.
  - intros B d q _ w. by destruct q.
  - intros B q _ w. by destruct q.
  - intros B q _ w. by destruct q.
  - intros A s w e w' Hr. simpl in Hr. unfold run in Hr.
    destruct (c_faults w) as [|[e'|] rest]; simplify_eq; destruct e'; simpl; auto.
  - intros A db roles s w Hs Hn _. simpl execute. unfold run.
    destruct (c_faults w) as [|[e|] rest]; cbn [snd].
    + by apply sessions_effect.
    + by rewrite answer_faults.
    + apply sessions_effect; [done|]. by rewrite answer_faults.
  - intros db roles w Hn _. exact Hn.
  - intros db w. simpl. induction (c_sessions w) as [|x l IH]; [done|].
    rewrite filter_cons_False by (by intros ?%elem_of_nil). exact IH.
Qed.

(** ** A cluster to run on *)

Definition owner_name : pystr := MIGRATION_ROLE.
Definition cluster0 : cluster := {|
  c_db := lit "vendor_cp";
  c_owner := owner_name;
  c_roles := [owner_name; lit "app_user"; lit "platform_api"; lit "reporter"; lit "postgres"];
  c_supers := [lit "postgres"];
  c_members := [(lit "reporter", lit "app_user")];
  c_acl := [([], lit "TEMPORARY", false, owner_name); ([], CONNECT, false, owner_name);
            (owner_name, CONNECT, false, owner_name); (lit "reporter", CONNECT, true, owner_name)];
  c_sessions := [(11, lit "app_user"); (12, lit "reporter"); (13, owner_name)];
  c_time := 0;
  c_faults := [];
|}.
(** The same with the statements failing as told. *)
Definition failing (l : list (option failure)) : cluster := set_faults l cluster0.

(** The fence of the witnesses: the default terminator, one second. *)
Definition demo_fence (w : cluster) : outcome failure FenceProof * cluster :=
  fence_writers (lit "vendor_cp") (lit "run-1") WRITER_ROLES 1000000 None None None w.
Definition demo_restore (p : FenceProof) (w : cluster) : outcome failure UnfenceProof * cluster :=
  restore_writers p (lit "vendor_cp") (lit "run-1") 1000000 None w.

(** The proof of the fence, and the cluster after it. *)
Definition proof0 : FenceProof :=
  Proof_ (lit "vendor_cp") (lit "run-1") (lit "{}") (list_to_set (c_acl cluster0))
    [lit "app_user"; lit "platform_api"] [lit "reporter"]
    [lit "platform_outbox_dispatcher"; lit "outbox_dispatcher"] 2
    (Datetime (Date 2026 9 27) 10 0 0 250).
Definition fenced0 : cluster :=
  set_time 50000 (set_sessions [(13, owner_name)]
    (set_acl [([], lit "TEMPORARY", false, owner_name); (owner_name, CONNECT, false, owner_name)]
       cluster0)).

Lemma demo_fence_runs : demo_fence cluster0 = (Ret proof0, fenced0).
Proof. vm_compute. reflexivity. Qed.
