(* ===== verification/FenceOutcomes.v ===== *)
(** * How a fence and a restore can end

    The properties of [fence_writers] and [restore_writers] over every server
    that nobody else reconfigures, whatever fails or interrupts them. *)

From stdpp Require Import gmap.
From S2P Require Import Prelude PyText Json PyDate Effects Fence FenceSafety.
Import FenceRefusalCode.

#[local] Open Scope Z_scope.

Section outcomes.
Context {W : Type} `{Server W} `{UnicodeDB} (view : ∀ A, stmt A → W → A) `{!Undisturbed view}.
#[local] Abbreviation proc := (proc W failure).

(** ** What the checks raise *)

(** Neither a refusal that carries an access list nor the terminator's. *)
Definition plain (f : failure) : Prop :=
  match f with FenceRefused _ (Some _) | TerminatorFailed => False | _ => True end.

Lemma plain_refused c : plain (FenceRefused c None).
Proof. done. Qed.
Lemma raises_execute {A} (s : stmt A) : raises plain (execute s).
Proof. intros w e w' [->| ->]%(view_raises (view := view)); done. Qed.
#[local] Hint Resolve plain_refused raises_execute : raises.

Lemma raises_autocommit : raises plain require_autocommit.
Proof. intros w. unfold require_autocommit. by apply raises_require. Qed.
#[local] Hint Resolve raises_autocommit : raises.

Lemma raises_check_prior db f m e gs p x : raises plain (check_prior db f m e gs p x).
Proof. unfold check_prior, database_owner, refuse, require_code. raising. Qed.
#[local] Hint Resolve raises_check_prior : raises.

Lemma raises_check_fence db fid roles p x : raises plain (check_fence db fid roles p x).
Proof.
  unfold check_fence, reject_invalid_fence_id, database_exists,
    require_owner_member_or_superuser, existing_roles, member_roles_of, current_acl_text,
    current_grants, reject_superuser_writers, require_migration_connect_without_public,
    reject_shared_writer_roles, reject_inherited_connect, reject_grants_not_owner_granted,
    database_owner, is_member_of, refuse, require_code.
  raising.
Qed.
End outcomes.

(** C20: Fencing is all or nothing, whatever statement fails or is interrupted:
    either a proof comes back that names the database and the run and records
    the access list the call started from (the given proof's, on a re-fence),
    or the access list is again what it was, or the refusal says that putting
    it back failed.  A refusal without an access list, and a driver's error,
    come from the checks, before the first REVOKE. *)
Theorem fence_all_or_nothing {W} `{Server W} `{UnicodeDB} view `{!Undisturbed view}
    db fid roles wait prior x t w o w' :
  fence_writers db fid roles wait prior x t w = (o, w') →
  match o with
  | Ret p => database p = db ∧ fence_id p = fid ∧ prior_grants p = recorded prior (acl view db w)
  | Throw f =>
      ((∃ text, f = FenceRefused COMPENSATION_FAILED (Some text)) ∨ acl view db w' = acl view db w) ∧
      match f with
      | FenceRefused _ None | OtherException =>
          check_fence db fid roles prior x w = (Throw f, w')
      | _ => True
      end
  | Diverge => True
  end.
Proof.
  unfold fence_writers. destruct o as [p|f|]; [| |done]; intros Hf.
  - apply bind_Ret in Hf as (r & w1 & Hc & Ht). cbv zeta in Ht.
    apply (check_fence_grants view) in Hc as Hg.
    apply try_Ret in Ht as [Ha|(e & v & _ & Hcomp)]; [|by apply compensate_Ret in Hcomp].
    apply apply_fence_Ret in Ha as (-> & -> & _ & -> & _).
    split_and!; [done..|]. rewrite <- Hg. by destruct prior.
  - apply bind_Throw in Hf as [Hc|(r & w1 & Hc & Ht)].
    + split; [right; eapply keeps_out; [|exact Hc]; apply keeps_acl, keeps_check_fence; done|].
      by destruct f as [c [a|]| | |].
    + cbv zeta in Ht. apply try_Throw in Ht as (e & v & _ & Hcomp).
      apply (compensate_Throw view) in Hcomp as [->|[Hacl ->]]; [split; [left; eauto|done]|].
      apply (check_fence_grants view) in Hc. split; [right; congruence|].
      by destruct e.
Qed.

(** An interrupt between the polls of the drain, with the writers revoked and
    their sessions ended. *)
Definition interrupted : cluster := failing (replicate 45 None ++ [Some Interrupt]).
Definition interrupted_end : cluster := (demo_fence interrupted).2.

Theorem fence_all_or_nothing_witness :
  demo_fence interrupted = (Throw Interrupt, interrupted_end) ∧
  c_sessions interrupted_end = [(13, owner_name)] ∧
  acl (@answer) (lit "vendor_cp") interrupted_end = acl (@answer) (lit "vendor_cp") interrupted.
Proof.
  assert (Hrun : demo_fence interrupted = (Throw Interrupt, interrupted_end))
    by (vm_compute; reflexivity).
  split; [exact Hrun|]. split; [vm_compute; reflexivity|].
  destruct (fence_all_or_nothing (@answer) (lit "vendor_cp") (lit "run-1") WRITER_ROLES 1000000
    None None None interrupted (Throw Interrupt) interrupted_end Hrun) as [[[text Ht]|Hacl] _];
    [discriminate Ht|exact Hacl].
Defined.

Section holding.
Context {W : Type} `{Server W} `{UnicodeDB} (view : ∀ A, stmt A → W → A) `{!Undisturbed view}.
#[local] Abbreviation proc := (proc W failure).

(** The revokes are verified, the migrator can connect, nobody is left. *)
Definition fenced_world (db : pystr) (effective : list pystr) (w : W) : Prop :=
  locked view db effective w ∧ emptied view db effective w ∧
  view _ (HasConnect MIGRATION_ROLE db) w = true.

Lemma verify_revokes db effective :
  triple (λ _, True)
    (for_each (λ role, still ← has_connect db role;
                       require_code (negb still) WRITER_STILL_HAS_CONNECT) effective)
    (λ _, locked view db effective) (λ _ _, True).
Proof.
  eapply triple_conseq; [apply (triple_for_each (locked view db) _ _ (λ _ _, True))| |done|done].
  - intros dn r. eapply triple_bind.
    { eapply triple_conseq; [apply (has_connect_spec view)|done|intros b w Hw; exact Hw|done]. }
    intros [|] w Hw; simpl; [done|exact Hw].
  - intros w _ r Hr. by apply elem_of_nil in Hr.
Qed.

Lemma apply_fence_spec db fid f m e a acl_ gs wait t :
  benign view t →
  triple (λ _, True) (apply_fence db fid f m e a acl_ gs wait t)
    (λ _, fenced_world db e) (λ _ _, True).
Proof.
  intros Ht. unfold apply_fence.
  assert (Hany : ∀ A (m : proc A), triple (λ _, True) m (λ _ _, True) (λ _ _, True))
    by (intros A m' w _; by destruct (m' w) as [[]]).
  eapply triple_bind; [apply Hany|intros quoted_db].
  eapply triple_bind; [apply Hany|intros ?].
  eapply triple_bind; [apply verify_revokes|intros ?].
  assert (Hk : ∀ A (m : proc A), (∀ r, keeps (view _ (HasConnect r db)) m) →
    triple (locked view db e) m (λ _, locked view db e) (λ _ _, True)).
  { intros A m' Hm. eapply triple_conseq; [by apply triple_locked|done..]. }
  eapply triple_bind; [apply Hk; intros r; frame|intros migrator].
  eapply triple_bind; [apply Hk; intros r; unfold require_code; frame|intros ?].
  eapply (triple_bind _ _ _ (λ (b : bool) w, locked view db e w ∧
                                    b = view _ (HasConnect MIGRATION_ROLE db) w)).
  { intros w Hw. pose proof (Hk _ (has_connect db MIGRATION_ROLE)) as Hl.
    specialize (Hl (λ r, ltac:(frame)) w Hw).
    destruct (has_connect db MIGRATION_ROLE w) as [[b|f'|] v] eqn:He; try done. split; [done|].
    transitivity (view _ (HasConnect MIGRATION_ROLE db) w).
    - unfold has_connect in He. by apply view_read in He.
    - symmetry. eapply keeps_out; [|exact He]. frame. }
  intros b. eapply (triple_bind _ _ _ (λ _ w, locked view db e w ∧
                                    view _ (HasConnect MIGRATION_ROLE db) w = true)).
  { intros w [Hw ->]. unfold require_code, require. by destruct (view _ _ w) eqn:Hv. }
  intros ?. eapply (triple_bind _ _ _ (λ _, fenced_world db e)).
  { intros w [Hw Hmig]. pose proof (drain_spec view db e wait t Ht w Hw) as Hd.
    pose proof (keeps_drain view (HasConnect MIGRATION_ROLE db) eq_refl db e wait t Ht w) as Hkm.
    destruct (terminate_and_drain db e wait t w) as [[n|f'|] v]; try done.
    destruct Hd as [Hl He]. split_and!; [done..|]. simpl in Hkm. congruence. }
  intros n. eapply triple_bind; [|intros at_ w Hw; exact Hw].
  intros w (Hl & He & Hmig). unfold now_utc.
  pose proof (view_gone_now db e w He Hl) as Hgone. unfold now_utc in Hgone.
  pose proof (λ r, keeps_now view (HasConnect r db) eq_refl w) as Hk'. unfold now_utc in Hk'.
  destruct (utc w) as [at_ v]. simpl in *. split_and!; [|done|by rewrite Hk'].
  intros r Hr. rewrite Hk'. auto.
Qed.

(** ** Asking again *)

Definition members_view (f : list pystr) (w : W) : list pystr :=
  if bool_decide (f = []) then [] else sorted_names (view _ (SelectMembers f) w).

Lemma member_roles_read f w m w' : member_roles_of f w = (Ret m, w') → m = members_view f w.
Proof.
  unfold member_roles_of, members_view. case_bool_decide.
  - by intros [[= ->] _]%mret_eq.
  - intros Hm. apply bind_Ret in Hm as (l & v & Hl & Hm). apply mret_eq in Hm as [[= ->] _].
    by apply view_read in Hl as ->.
Qed.

Lemma catalogue_lasting {A} (q : stmt A) : catalogue q = true → lasting q = true.
Proof. unfold catalogue, lasting. by intros [? _]%andb_true_iff. Qed.

Lemma keeps_refence {B} (q : stmt B) qdb e :
  catalogue q = true → keeps (view _ q) (refence qdb e).
Proof.
  intros Hq. pose proof (catalogue_lasting q Hq). unfold refence.
  apply keeps_bind; [by apply view_change|intros ?]. apply keeps_for_each. intros r.
  apply keeps_bind; [frame|intros ?]. by apply view_change.
Qed.

Lemma keeps_apply_fence {B} (q : stmt B) db fid f m e a acl_ gs wait t :
  catalogue q = true → benign view t →
  keeps (view _ q) (apply_fence db fid f m e a acl_ gs wait t).
Proof.
  intros Hq Ht. pose proof (catalogue_lasting q Hq) as Hl.
  pose proof (keeps_refence q) as Hr. unfold apply_fence, require_code. frame.
Qed.

Lemma check_fence_members db fid roles p x w r w' :
  check_fence db fid roles p x w = (Ret r, w') → r_members r = members_view (r_fenced r) w'.
Proof.
  unfold check_fence. intros Hc.
  repeat (apply bind_Ret in Hc as (? & ? & ? & Hc)).
  apply mret_eq in Hc as [[= ->] ->]. cbn [r_members r_fenced].
  match goal with Hm : member_roles_of ?f ?v = (Ret ?m, ?v1) |- _ =>
    rename Hm into Hmem; pose proof (member_roles_read _ _ _ _ Hmem) as -> end.
  unfold members_view. case_bool_decide; [done|]. f_equal. symmetry.
  repeat first [reflexivity|match goal with
  | Hm : ?m ?v = (_, ?v') |- view _ ?q ?v' = _ =>
      transitivity (view _ q v); [eapply keeps_out; [|exact Hm]; unfold require_code; frame|]
  end].
Qed.

Section asking.
Context (db : pystr) (e f ms : list pystr).

(** The world in which the fence was proved. *)
Definition proved (w : W) : Prop := fenced_world db e w ∧ members_view f w = ms.

Lemma proved_execute {A} (s : stmt A) :
  is_change s = false →
  triple proved (execute s)
    (λ a w, proved w ∧ (lasting s = true → a = view _ s w)) (λ _ _, True).
Proof.
  intros Hs w ((Hl & He & Hm) & Hf).
  pose proof (view_gone db e s w Hs He Hl) as Hgone.
  assert (Hk : ∀ B (q : stmt B), lasting q = true → view _ q (execute s w).2 = view _ q w)
    by (intros B q Hq; by apply view_execute).
  destruct (execute s w) as [[a|x|] v] eqn:Hx; try done. simpl in *.
  split; [split; [split_and!|]|].
  - intros r Hr. rewrite Hk by done. auto.
  - exact Hgone.
  - by rewrite Hk.
  - unfold members_view in *. by rewrite Hk.
  - intros Hq. rewrite Hk by done. by apply view_read in Hx.
Qed.

Lemma proved_pids : triple proved (writer_pids db e) (λ pids w, pids = []) (λ _ _, True).
Proof.
  intros w ((Hl & He & Hm) & Hf). unfold writer_pids.
  destruct (execute (SelectPids db e) w) as [[a|x|] v] eqn:Hx; try done.
  apply view_read in Hx. by rewrite Hx.
Qed.

Lemma proved_open l :
  (∀ r, r ∈ l → r ∈ e) →
  triple proved (any_of (has_connect db) l) (λ b w, b = false ∧ proved w) (λ _ _, True).
Proof.
  induction l as [|x l IH]; intros Hl; simpl; [by intros w Hw|].
  eapply triple_bind; [by apply proved_execute|]. intros b w [Hw Hb].
  rewrite (Hb eq_refl). rewrite (proj1 (proj1 Hw) x) by (apply Hl; by left).
  apply IH; [|done]. intros r Hr. apply Hl. by right.
Qed.

Lemma proved_members : triple proved (member_roles_of f) (λ m w, m = ms ∧ proved w) (λ _ _, True).
Proof.
  unfold member_roles_of. case_bool_decide as Hf.
  { intros w Hw. split; [|done]. destruct Hw as [_ <-]. unfold members_view.
    by rewrite bool_decide_true. }
  eapply triple_bind; [by apply proved_execute|]. intros l w [Hw Hl].
  split; [|done]. rewrite (Hl eq_refl). destruct Hw as [_ <-]. unfold members_view.
  by rewrite bool_decide_false.
Qed.
End asking.

Lemma same_set_refl l : same_set l l = true.
Proof. unfold same_set. by apply bool_decide_eq_true. Qed.

(** In such a world the fence is seen to hold. *)
Lemma proved_holding p :
  triple (proved (database p) (effective_of p) (fenced_roles p) (member_roles p))
    (fence_is_holding p) (λ b _, b = true) (λ _ _, True).
Proof.
  unfold fence_is_holding. eapply triple_bind; [by apply proved_open|].
  intros b. apply triple_pure; intros ->.
  eapply (triple_bind _ _ _ (λ b w, b = true ∧
            proved (database p) (effective_of p) (fenced_roles p) (member_roles p) w)).
  { eapply triple_conseq; [by apply proved_execute|done| |done].
    intros b w [Hw Hb]. split; [|done]. rewrite (Hb eq_refl). apply Hw. }
  intros b. apply triple_pure; intros ->. cbn [negb].
  eapply triple_bind; [apply proved_members|].
  intros ms. apply triple_pure; intros ->. rewrite same_set_refl. cbn [negb].
  eapply triple_bind; [apply proved_pids|]. intros pids w ->. done.
Qed.
End holding.

(** C21: A fence that returns its proof is holding: asked right after, with
    nothing else having happened, the read-only check never says no.  So every
    writer and every member of one has lost CONNECT, the migrator has not, the
    memberships are the recorded ones, and no session of theirs is open. *)
Theorem fence_holds {W} `{Server W} `{UnicodeDB} view `{!Undisturbed view}
    db fid roles wait prior x t w p w' b w'' :
  benign view t →
  fence_writers db fid roles wait prior x t w = (Ret p, w') →
  fence_is_holding p w' = (Ret b, w'') → b = true.
Proof.
  intros Ht Hf Hh. unfold fence_writers in Hf.
  apply bind_Ret in Hf as (r & w1 & Hc & Hf). cbv zeta in Hf.
  apply try_Ret in Hf as [Ha|(e & v & _ & Hcomp)]; [|by apply compensate_Ret in Hcomp].
  apply (check_fence_members view) in Hc as Hm.
  assert (Hw' : fenced_world view db (r_effective r) w').
  { exact (triple_Ret _ _ _ _ _ _ _ (apply_fence_spec view db fid _ _ _ _ _ _ wait t Ht) I Ha). }
  assert (Hms : members_view view (r_fenced r) w' = r_members r).
  { rewrite Hm. unfold members_view. case_bool_decide; [done|]. f_equal.
    eapply keeps_out; [|exact Ha]. by apply keeps_apply_fence. }
  apply apply_fence_Ret in Ha as (Hd & _ & _ & _ & Hfr & Hmr & _).
  refine (triple_Ret _ _ _ _ _ _ _ (proved_holding view p) _ Hh).
  unfold proved, effective_of. rewrite Hd, Hfr, Hmr. done.
Qed.

Theorem fence_holds_witness :
  demo_fence cluster0 = (Ret proof0, fenced0) ∧ (fence_is_holding proof0 fenced0).1 = Ret true.
Proof.
  split; [exact demo_fence_runs|].
  destruct (fence_is_holding proof0 fenced0) as [[b|e|] w''] eqn:Hb.
  - pose proof (fence_holds (@answer) (lit "vendor_cp") (lit "run-1") WRITER_ROLES 1000000
      None None None cluster0 proof0 fenced0 b w'' (λ t Ht, match Ht with end)
      demo_fence_runs Hb) as ->. done.
  - vm_compute in Hb. discriminate Hb.
  - vm_compute in Hb. discriminate Hb.
Defined.

Section failing_closed.
Context {W : Type} `{Server W} `{UnicodeDB} (view : ∀ A, stmt A → W → A) `{!Undisturbed view}.
#[local] Abbreviation proc := (proc W failure).

(** PUBLIC and the writers locked out, and the writers gone. *)
Definition closed (db : pystr) (e : list pystr) (w : W) : Prop :=
  locked view db (lit "public" :: e) w ∧ emptied view db e w.

Lemma locked_drain db e extra wait t :
  benign view t →
  triple (locked view db (extra ++ e)) (terminate_and_drain db e wait t)
    (λ _ w, locked view db (extra ++ e) w ∧ emptied view db e w)
    (λ _, locked view db (extra ++ e)).
Proof.
  intros Ht w Hw.
  assert (He : locked view db e w) by (apply locked_app in Hw; tauto).
  pose proof (drain_spec view db e wait t Ht w He) as Hd.
  assert (Hl : locked view db (extra ++ e) (terminate_and_drain db e wait t w).2).
  { intros r Hr. rewrite keeps_drain by done. auto. }
  destruct (terminate_and_drain db e wait t w) as [[n|f|] v]; try done.
  split; [done|apply Hd].
Qed.

(** A re-fence that returns has closed the database; when its drain does not
    converge the database is locked all the same. *)
Lemma redrain_spec qdb db e wait acl_ t :
  benign view t →
  triple (λ _, True) (refence_and_redrain qdb db e wait acl_ t) (λ _, closed db e)
    (λ f w, f = compensation_failed acl_ ∨
            (f = FenceRefused WRITER_SESSIONS_SURVIVED None ∧
             locked view db (lit "public" :: e) w)).
Proof.
  intros Ht. unfold refence_and_redrain.
  apply (triple_bind _ _ _ (λ (b : bool) w, b = true → locked view db (lit "public" :: e) w)).
  { apply (triple_try _ _ _ _ (λ _ _, True)).
    - eapply (triple_bind _ _ _ (λ _ _, True)); [intros w _; by destruct (refence qdb e w) as [[]]|].
      intros ?. apply (refence_holds_spec view).
    - intros x w _. left. done. }
  intros b. apply (triple_bind _ _ _ (λ _, locked view db (lit "public" :: e))).
  { intros w Hw. destruct b; simpl; [auto|by left]. }
  intros ?. eapply (triple_try _ _ _ _ (λ _, locked view db (lit "public" :: e))).
  - eapply triple_bind; [apply (locked_drain _ _ [lit "public"]); done|].
    intros n w Hw. exact Hw.
  - intros x w Hw. destruct x; simpl; [right; done|by left..].
Qed.

(** How a restore that got as far as its first GRANT can fail. *)
Definition failed_closed (p : FenceProof) (f : failure) (w : W) : Prop :=
  (locked view (database p) (lit "public" :: effective_of p) w ∧
   (f = FenceRefused WRITER_SESSIONS_SURVIVED None ∨
    (f = FenceRefused ACL_NOT_RESTORED None ∨ f = Interrupt) ∧
    emptied view (database p) (effective_of p) w)) ∨
  f = FenceRefused COMPENSATION_FAILED (Some (prior_acl p)).

Lemma redrain_then {A} p qdb wait t e :
  benign view t → e = FenceRefused ACL_NOT_RESTORED None ∨ e = Interrupt →
  triple (λ _, True)
    (refence_and_redrain qdb (database p) (effective_of p) wait (prior_acl p) t;;
     throw (A := A) e) (λ _ _, True) (failed_closed p).
Proof.
  intros Ht He. eapply triple_bind.
  - eapply triple_conseq; [by apply redrain_spec|done|intros u w Hw; exact Hw|].
    intros f w [->|[-> Hl]]; [by right|left; auto].
  - intros u w [Hl Hg]. left. auto.
Qed.

Lemma reopen_triple p wait t qdb to_add :
  benign view t →
  triple (λ _, True) (reopen p qdb to_add wait t) (λ _ _, True) (failed_closed p).
Proof.
  intros Ht. unfold reopen. cbv zeta. eapply (triple_bind _ _ _ (λ _ _, True)).
  { eapply (triple_try _ _ _ _ (λ _ _, True)).
    - intros w _. by match goal with |- match ?x with _ => _ end => destruct x as [[]] end.
    - intros e. destruct e; apply redrain_then; auto. }
  intros [restored final]. eapply (triple_bind _ _ _ (λ _ _, True)).
  { case_bool_decide; [by intros w _|]. apply redrain_then; auto. }
  intros u w _. rewrite bind_eq. unfold now_utc. by destruct (utc w).
Qed.
End failing_closed.

(** C22: A restore that does not return fails closed.  Either it was refused
    before its first GRANT and the access list is untouched; or PUBLIC and
    every writer have verifiably lost CONNECT again, with no writer's session
    left unless the refusal says sessions survived; or the refusal says that
    closing it again failed. *)
Theorem restore_fails_closed {W} `{Server W} `{UnicodeDB} view `{!Undisturbed view}
    p db fid wait t w f w' :
  benign view t →
  restore_writers p db fid wait t w = (Throw f, w') →
  (check_restore p db fid w = (Throw f, w') ∧
   acl view (database p) w' = acl view (database p) w) ∨
  failed_closed view p f w'.
Proof.
  intros Ht Hr. unfold restore_writers in Hr.
  apply bind_Throw in Hr as [Hr|([qdb to_add] & w1 & Hc & Hr)].
  - left. split; [done|]. eapply keeps_out; [|exact Hr]. apply keeps_acl. frame.
  - right. exact (triple_Throw _ _ _ _ _ _ _ (reopen_triple view p wait t qdb to_add Ht) I Hr).
Qed.

(** The second GRANT of a restore fails: the first one is taken back. *)
Definition half_open : cluster := set_faults (replicate 7 None ++ [Some OtherException]) fenced0.
Definition closed_again : cluster := (demo_restore proof0 half_open).2.

Theorem restore_fails_closed_witness :
  demo_restore proof0 half_open = (Throw (FenceRefused ACL_NOT_RESTORED None), closed_again) ∧
  failed_closed (@answer) proof0 (FenceRefused ACL_NOT_RESTORED None) closed_again.
Proof.
  assert (Hrun : demo_restore proof0 half_open =
            (Throw (FenceRefused ACL_NOT_RESTORED None), closed_again))
    by (vm_compute; reflexivity).
  split; [exact Hrun|].
  destruct (restore_fails_closed (@answer) proof0 (lit "vendor_cp") (lit "run-1") 1000000 None
    half_open (FenceRefused ACL_NOT_RESTORED None) closed_again (λ t Ht, match Ht with end) Hrun)
    as [Hc|Hf]; [|exact Hf].
  apply proj1, (f_equal (λ o, returned o.1)) in Hc. vm_compute in Hc. discriminate Hc.
Defined.
