(* ===== verification/FenceRestore.v ===== *)
(** * Fencing and restoring

    [restore_writers] undoes [fence_writers] exactly: against a server whose
    REVOKE and GRANT do what they are documented to do ([AclServer]) and whose
    statements do not fail during the restore ([steady]), the access list is
    grant for grant the one the fence started from. *)

From stdpp Require Import gmap.
From S2P Require Import Prelude PyText Json PyDate Effects Fence FenceSafety FenceOutcomes.
Import FenceRefusalCode.

#[local] Open Scope Z_scope.

Definition is_revoke {A} (s : stmt A) : bool :=
  match s with RevokeConnect _ _ => true | _ => false end.

(** An access list PostgreSQL can hold: one entry for a grantee, a privilege
    and a grantor, and no grant option for PUBLIC. *)
Record acl_wf (gs : grants) : Prop := AclWf {
  wf_keyed a b : a ∈ gs → b ∈ gs → grantee_of a = grantee_of b →
    privilege_of a = privilege_of b → grantor_of a = grantor_of b → a = b;
  wf_public g : g ∈ gs → grantee_of g = [] → grantable_of g = false;
}.

Section laws.
Context {W : Type} `{Server W} (view : ∀ A, stmt A → W → A).
#[local] Abbreviation acl := (acl view).

(** How a grantee is written in a statement. *)
Definition denotes (quoted : pystr → pystr) (ref grantee : pystr) : Prop :=
  (ref = PUBLIC ∧ grantee = []) ∨ ref = quoted grantee.

Class AclServer (quoted : pystr → pystr) : Prop := {
  acl_quoted n w : view _ (QuoteIdent n) w = quoted n;
  (** a revoke adds nothing and takes away CONNECT grants of its grantee *)
  acl_revoke_sub db ref w :
    acl db (execute (RevokeConnect (quoted db) ref) w).2 ⊆ acl db w;
  acl_revoke_only db ref g w e :
    denotes quoted ref g →
    e ∈ acl db w → e ∉ acl db (execute (RevokeConnect (quoted db) ref) w).2 →
    privilege_of e = CONNECT ∧ grantee_of e = g;
  (** a grant to a grantee without one adds its entry, made by the owner *)
  acl_grant db owner ref g opt w w' :
    denotes quoted ref g → view _ (SelectOwner db) w = Some owner → (∀ o, (g, CONNECT, o, owner) ∉ acl db w) →
    execute (GrantConnect (quoted db) ref opt) w = (Ret tt, w') →
    acl db w' = acl db w ∪ {[ (g, CONNECT, opt, owner) ]};
}.

(** Worlds in which no statement but a revoke fails. *)
Class SteadyServer (steady : W → Prop) : Prop := {
  steady_execute {A} (s : stmt A) w :
    steady w → is_revoke s = false → ∃ a w', execute s w = (Ret a, w') ∧ steady w';
  steady_now w : steady w → steady (utc w).2;
  steady_autocommit w : steady w → autocommit w = true;
}.
End laws.

Section restoring.
Context {W : Type} `{Server W} `{UnicodeDB} (view : ∀ A, stmt A → W → A) `{!Undisturbed view}
  (quoted : pystr → pystr) `{!AclServer view quoted} (steady : W → Prop) `{!SteadyServer steady}.
#[local] Abbreviation acl := (acl view).
#[local] Abbreviation proc := (proc W failure).

(** ** What a fence takes away *)

(** [gs] is [gs0] without some CONNECT grants of the listed grantees. *)
Definition reduced (gs0 : grants) (grantees : list pystr) (gs : grants) : Prop :=
  gs ⊆ gs0 ∧ ∀ e, e ∈ gs0 → (e ∉ gs) → privilege_of e = CONNECT ∧ grantee_of e ∈ grantees.

Lemma revoke_reduces db gs0 ge ref g w :
  denotes quoted ref g → reduced gs0 ge (acl db w) → g ∈ ge →
  reduced gs0 ge (acl db (execute (RevokeConnect (quoted db) ref) w).2).
Proof.
  intros Hd [Hsub Hlost] Hg. split.
  - intros e He. apply Hsub. by eapply (acl_revoke_sub view).
  - intros e He Hn. destruct (decide (e ∈ acl db w)) as [Hin|Hout]; [|by apply Hlost].
    destruct (acl_revoke_only view db ref g w e Hd Hin Hn) as [-> ->]. done.
Qed.

Lemma keeps_triple {A X} (obs : W → X) (P : X → Prop) (m : proc A) :
  keeps obs m → triple (λ w, P (obs w)) m (λ _ w, P (obs w)) (λ _ _, True).
Proof. intros Hm w Hw. specialize (Hm w). destruct (m w) as [[]]; simpl in *; [congruence|done..]. Qed.

Abbreviation still db gs0 ge := (λ w, reduced gs0 ge (acl db w)).

Lemma keeps_reduced {A} db gs0 ge (m : proc A) :
  keeps (view _ (SelectGrants db)) m →
  triple (still db gs0 ge) m (λ _, still db gs0 ge) (λ _ _, True).
Proof. intros Hm. apply (keeps_triple (acl db) (reduced gs0 ge)). by apply keeps_acl. Qed.

Lemma revoke_spec db gs0 ge ref g :
  denotes quoted ref g → g ∈ ge →
  triple (still db gs0 ge) (execute (RevokeConnect (quoted db) ref))
    (λ _, still db gs0 ge) (λ _ _, True).
Proof.
  intros Hd Hg w Hw. pose proof (revoke_reduces db gs0 ge ref g w Hd Hw Hg) as Hr.
  by destruct (execute (RevokeConnect (quoted db) ref) w) as [[u|f|] v].
Qed.

Lemma quote_spec P name :
  triple P (quote_ident name) (λ q _, q = quoted name) (λ _ _, True).
Proof.
  intros w _. unfold quote_ident.
  destruct (execute (QuoteIdent name) w) as [[q|f|] v] eqn:He; try done.
  apply view_read in He as ->. apply (acl_quoted view).
Qed.

Lemma refence_reduces db gs0 e :
  triple (still db gs0 ([] :: e)) (refence (quoted db) e)
    (λ _, still db gs0 ([] :: e)) (λ _ _, True).
Proof.
  unfold refence. eapply triple_bind.
  { apply (revoke_spec _ _ _ PUBLIC []); [by left|by left]. }
  intros ?. apply triple_for_each_in. intros r Hr.
  eapply (triple_bind _ _ _ (λ q w, q = quoted r ∧ still db gs0 ([] :: e) w)).
  { intros w Hw. pose proof (quote_spec (λ _, True) r w I) as Hq.
    pose proof (keeps_reduced db gs0 ([] :: e) (quote_ident r) ltac:(frame) w Hw) as Hk.
    by destruct (quote_ident r w) as [[q|f|] v]. }
  intros q. apply triple_pure. intros ->. apply (revoke_spec _ _ _ _ r); [by right|by right].
Qed.

(** All a fence takes away are CONNECT grants of PUBLIC and the writers. *)
Lemma apply_fence_reduces db gs0 fid f m e a acl_ gs wait t :
  benign view t →
  triple (still db gs0 ([] :: e)) (apply_fence db fid f m e a acl_ gs wait t)
    (λ _, still db gs0 ([] :: e)) (λ _ _, True).
Proof.
  intros Ht. unfold apply_fence.
  eapply (triple_bind _ _ _ (λ q w, q = quoted db ∧ still db gs0 ([] :: e) w)).
  { intros w Hw. pose proof (quote_spec (λ _, True) db w I) as Hq.
    pose proof (keeps_reduced db gs0 ([] :: e) (quote_ident db) ltac:(frame) w Hw) as Hk.
    by destruct (quote_ident db w) as [[q|x|] v]. }
  intros q. apply triple_pure. intros ->.
  eapply triple_bind; [apply refence_reduces|]. intros ?. apply keeps_reduced.
  unfold require_code. frame.
Qed.

(** ** What a restore needs *)

Lemma owner_read db w owner w' :
  database_owner db w = (Ret owner, w') → view _ (SelectOwner db) w' = Some owner.
Proof.
  intros Hr. assert (view _ (SelectOwner db) w' = view _ (SelectOwner db) w) as ->.
  { eapply keeps_out; [|exact Hr]. frame. }
  unfold database_owner in Hr. apply bind_Ret in Hr as ([o|] & v & Hv & Hr).
  - apply mret_eq in Hr as [[= ->] _]. by apply view_read in Hv.
  - by apply throw_eq in Hr as [? _].
Qed.

(** The checks of the fence have seen that its CONNECT grants are the owner's. *)
Lemma check_fence_owner db fid roles p x w r w' :
  check_fence db fid roles p x w = (Ret r, w') →
  ∃ owner, view _ (SelectOwner db) w' = Some owner ∧
    ∀ g, g ∈ r_grants r → privilege_of g = CONNECT → grantee_of g ∈ [] :: r_effective r →
      grantor_of g = owner.
Proof.
  unfold check_fence. intros Hc.
  repeat (apply bind_Ret in Hc as (? & ? & ? & Hc)).
  apply mret_eq in Hc as [[= ->] ->]. cbn [r_grants].
  match goal with Hm : reject_grants_not_owner_granted _ _ _ _ = _ |- _ =>
    unfold reject_grants_not_owner_granted in Hm;
    apply bind_Ret in Hm as (owner & v & Hown & Hm);
    apply require_Ret in Hm as [Hb ->] end.
  exists owner. split; [by eapply owner_read|].
  intros g Hg Hp Hge. apply negb_true_iff in Hb.
  destruct (decide (grantor_of g = owner)) as [|Hne]; [done|]. exfalso.
  apply not_true_iff_false in Hb. apply Hb, existsb_exists. exists g.
  split; [by apply list_elem_of_In, elem_of_elements|]. unfold foreign_grant.
  unfold r_effective in Hge. cbn [r_fenced r_members] in Hge.
  by rewrite (bool_decide_true _ Hp), (bool_decide_true _ Hge), (bool_decide_false _ Hne).
Qed.

(** ** Restoring *)

Section restore.
Context (p : FenceProof) (owner : pystr) (ms : list pystr).
Abbreviation db := (database p).

(** The world a restore works in: the access list is [A]. *)
Definition ready (A : grants) (w : W) : Prop :=
  steady w ∧ acl db w = A ∧ view _ (SelectOwner db) w = Some owner ∧
  view _ (Authorized db) w = Some true ∧ view _ (SelectMembers (fenced_roles p)) w = ms.

Lemma ready_query {A} (s : stmt A) G :
  is_change s = false → lasting s = true →
  total (ready G) (execute s) (λ a w, a = view _ s w ∧ ready G w).
Proof.
  intros Hs Hl w (Hst & Ha & Ho & Hau & Hm).
  destruct (steady_execute s w Hst) as (a & w' & He & Hst'); [by destruct s|].
  assert (Hk : ∀ B (q : stmt B), lasting q = true → view _ q w' = view _ q w).
  { intros B q Hq. eapply keeps_out; [|exact He]. by apply view_execute. }
  exists a, w'. split; [done|]. split; [rewrite Hk by done; by apply view_read in He|].
  unfold ready. rewrite !Hk by done. split_and!; try done.
  rewrite <- Ha. unfold FenceSafety.acl. by rewrite Hk.
Qed.

Lemma ready_quote G name : total (ready G) (quote_ident name) (λ q w, q = quoted name ∧ ready G w).
Proof.
  eapply total_conseq; [by apply ready_query|done|]. intros q w [-> Hw].
  split; [apply (acl_quoted view)|done].
Qed.
Lemma ready_grants G : total (ready G) (current_grants db) (λ gs w, gs = G ∧ ready G w).
Proof.
  unfold current_grants. eapply total_bind; [by apply ready_query|].
  intros rows w [-> Hw]. eexists _, w. split; [done|]. split; [|done]. apply Hw.
Qed.
Lemma ready_owner G : total (ready G) (database_owner db) (λ o w, o = owner ∧ ready G w).
Proof.
  unfold database_owner. eapply total_bind; [by apply ready_query|].
  intros row w [-> Hw]. destruct Hw as (Hst & Ha & Ho & Hr). rewrite Ho.
  exists owner, w. done.
Qed.
Lemma ready_authorized G :
  total (ready G) (require_owner_member_or_superuser db) (λ _, ready G).
Proof.
  unfold require_owner_member_or_superuser. eapply total_bind; [by apply ready_query|].
  intros row w [-> Hw]. pose proof Hw as (Hst & Ha & Ho & Hau & Hm). rewrite Hau.
  exists tt, w. done.
Qed.
Lemma ready_members G :
  total (ready G) (member_roles_of (fenced_roles p))
    (λ m w, m = (if bool_decide (fenced_roles p = []) then [] else sorted_names ms) ∧ ready G w).
Proof.
  unfold member_roles_of. case_bool_decide; [by apply total_ret|].
  eapply total_bind; [by apply ready_query|]. intros l w [-> Hw].
  eexists _, w. split; [done|]. split; [|done]. f_equal. apply Hw.
Qed.

(** One GRANT that is missing. *)
Lemma ready_grant G ref g :
  denotes quoted ref (grantee_of g) → privilege_of g = CONNECT → grantor_of g = owner →
  (∀ o, (grantee_of g, CONNECT, o, owner) ∉ G) →
  total (ready G) (execute (GrantConnect (quoted db) ref (grantable_of g)))
    (λ _, ready (G ∪ {[g]})).
Proof.
  intros Hd Hp Hg Hn w (Hst & Ha & Ho & Hau & Hm).
  destruct (steady_execute (GrantConnect (quoted db) ref (grantable_of g)) w Hst eq_refl)
    as ([] & w' & He & Hst').
  assert (Hk : ∀ B (q : stmt B), catalogue q = true → view _ q w' = view _ q w).
  { intros B q Hq. eapply keeps_out; [|exact He]. by apply view_change. }
  exists tt, w'. split; [done|]. unfold ready. rewrite !Hk by done. split_and!; try done.
  rewrite (acl_grant view db owner ref (grantee_of g) (grantable_of g) w w' Hd Ho); [|by rewrite Ha|done].
  rewrite Ha. do 2 f_equal. destruct g as [[[ge pr] o] gr]. unfold privilege_of, grantor_of in *.
  simpl in *. by subst.
Qed.

(** The entries a restore adds, and the list it adds them to. *)
Record addable (G : grants) (l : list grant) : Prop := Addable {
  add_connect g : g ∈ l → privilege_of g = CONNECT ∧ grantor_of g = owner;
  add_fresh g o : g ∈ l → (grantee_of g, CONNECT, o, owner) ∉ G;
  add_once : NoDup (grantee_of <$> l);
}.

Definition name_of (g : grant) : pystr := if bool_decide (grantee_of g = []) then PUBLIC else grantee_of g.

Lemma ready_grant_missing G l :
  addable G l →
  total (ready G) (grant_missing (quoted db) l)
    (λ names w, names = name_of <$> l ∧ ready (G ∪ list_to_set l) w).
Proof.
  revert G. induction l as [|g l IH]; intros G Hadd.
  { intros w Hw. exists [], w. split; [done|]. split; [done|].
    by replace (G ∪ list_to_set []) with G by set_solver. }
  destruct (add_connect _ _ Hadd g) as [Hp Hg]; [by left|].
  unfold grant_missing. simpl.
  eapply (total_bind _ _ _ (λ n w, n = name_of g ∧ ready (G ∪ {[g]}) w)).
  { eapply (total_bind _ _ _ (λ ref w, denotes quoted ref (grantee_of g) ∧ ready G w)).
    { unfold role_ref_sql. case_bool_decide as Hge.
      - intros w Hw. exists PUBLIC, w. split; [done|]. split; [by left|done].
      - eapply total_conseq; [apply ready_quote|done|]. intros q w [-> Hw]. split; [by right|done]. }
    intros ref. apply total_pure. intros Hd.
    eapply total_bind; [apply ready_grant; try done; intros o; by apply (add_fresh _ _ Hadd); left|].
    intros ?. apply total_ret. }
  intros n. apply total_pure. intros ->.
  eapply total_bind.
  { apply IH. destruct Hadd as [Hc Hf Ho]. apply NoDup_cons in Ho as [Hx Ho]. split.
    - intros g' Hg'. apply Hc. by right.
    - intros g' o Hg' [Hin|Heq%elem_of_singleton]%elem_of_union; [by eapply (Hf g'); [by right|]|].
      apply Hx. rewrite <- Heq. exact (list_elem_of_fmap_2 grantee_of l g' Hg').
    - done. }
  intros names. apply total_pure. intros ->. intros w Hw. eexists _, w. split; [done|].
  split; [done|]. by rewrite (assoc_L (∪)).
Qed.
End restore.

(** ** Only grants of the owner are missing *)

Lemma sorted_grants_elem gs g : g ∈ sorted_grants gs ↔ g ∈ gs.
Proof. unfold sorted_grants. by rewrite sort_by_perm, elem_of_elements. Qed.

Lemma sorted_grants_set gs : list_to_set (sorted_grants gs) = gs.
Proof.
  apply set_eq. intros g. by rewrite elem_of_list_to_set, sorted_grants_elem.
Qed.

Section missing.
Context (gs0 gs : grants) (e : list pystr) (owner : pystr) (Hwf : acl_wf gs0)
  (Hred : reduced gs0 ([] :: e) gs)
  (Hown : ∀ g, g ∈ gs0 → privilege_of g = CONNECT → grantee_of g ∈ [] :: e → grantor_of g = owner).

Lemma missing_spec g :
  g ∈ gs0 ∖ gs → g ∈ gs0 ∧ (g ∉ gs) ∧ privilege_of g = CONNECT ∧ grantee_of g ∈ [] :: e ∧
  grantor_of g = owner.
Proof.
  intros [Hg Hn]%elem_of_difference. destruct Hred as [_ Hl].
  destruct (Hl g Hg Hn) as [Hp Hge]. auto 10.
Qed.

Lemma missing_good : existsb (bad_entry owner e) (elements (gs0 ∖ gs)) = false.
Proof.
  apply not_true_iff_false. intros (g & Hin & Hb)%existsb_exists.
  apply list_elem_of_In, elem_of_elements, missing_spec in Hin as (Hg & _ & Hp & Hge & Hgr).
  unfold bad_entry in Hb. rewrite !bool_decide_true in Hb by done. simpl in Hb.
  apply andb_true_iff in Hb as [He Ho]. apply bool_decide_eq_true in He.
  by rewrite (wf_public _ Hwf g) in Ho.
Qed.

Lemma missing_addable : addable owner gs (sorted_grants (gs0 ∖ gs)).
Proof.
  split.
  - intros g (_ & _ & Hp & _ & Hgr)%sorted_grants_elem%missing_spec. done.
  - intros g o (Hg & Hn & Hp & _ & Hgr)%sorted_grants_elem%missing_spec Hin.
    apply Hn. replace g with (grantee_of g, CONNECT, o, owner); [done|].
    apply (wf_keyed _ Hwf); [by apply (proj1 Hred)|done..].
  - assert (Hnd : NoDup (sorted_grants (gs0 ∖ gs))).
    { unfold sorted_grants. rewrite sort_by_perm. apply NoDup_elements. }
    apply NoDup_fmap_2_strong; [|done].
    intros a b (Ha & _ & Hpa & _ & Hga)%sorted_grants_elem%missing_spec
      (Hb & _ & Hpb & _ & Hgb)%sorted_grants_elem%missing_spec Heq.
    apply (wf_keyed _ Hwf); congruence.
Qed.
End missing.

(** The checks of a restore pass, and name what is missing. *)
Lemma ready_check_restore p owner ms gs :
  reduced (prior_grants p) ([] :: effective_of p) gs → acl_wf (prior_grants p) →
  (∀ g, g ∈ prior_grants p → privilege_of g = CONNECT →
        grantee_of g ∈ [] :: effective_of p → grantor_of g = owner) →
  member_roles p = (if bool_decide (fenced_roles p = []) then [] else sorted_names ms) →
  total (ready p owner ms gs) (check_restore p (database p) (fence_id p))
    (λ r w, r = (quoted (database p), prior_grants p ∖ gs) ∧ ready p owner ms gs w).
Proof.
  intros Hred Hwf Hown Hms. unfold check_restore.
  apply (total_bind _ _ _ (λ _, ready p owner ms gs)).
  { intros w Hw. exists tt, w. unfold require_autocommit.
    rewrite steady_autocommit by apply Hw. done. }
  intros _. unfold require_code. eapply total_bind; [apply total_require; by apply bool_decide_eq_true|].
  intros ?. eapply total_bind; [apply total_require; by apply bool_decide_eq_true|].
  intros ?. eapply total_bind; [apply ready_authorized|].
  intros ?. eapply total_bind; [apply ready_members|].
  intros m. apply total_pure. intros ->. rewrite <- Hms.
  eapply total_bind; [apply total_require, same_set_refl|].
  intros ?. eapply total_bind; [apply ready_quote|].
  intros q. apply total_pure. intros ->. eapply total_bind; [apply ready_grants|].
  intros g. apply total_pure. intros ->.
  eapply total_bind; [apply total_require, bool_decide_eq_true; apply Hred|].
  intros ?. eapply total_bind; [apply ready_owner|].
  intros o. apply total_pure. intros ->. cbv zeta.
  eapply total_bind; [apply total_require; by rewrite (missing_good _ _ _ _ Hwf Hred Hown)|].
  intros ?. apply total_ret.
Qed.

Lemma ready_reopen p owner ms gs wait t :
  reduced (prior_grants p) ([] :: effective_of p) gs → acl_wf (prior_grants p) →
  (∀ g, g ∈ prior_grants p → privilege_of g = CONNECT →
        grantee_of g ∈ [] :: effective_of p → grantor_of g = owner) →
  total (ready p owner ms gs) (reopen p (quoted (database p)) (prior_grants p ∖ gs) wait t)
    (λ u w, roles_restored u = name_of <$> sorted_grants (prior_grants p ∖ gs) ∧
            acl (database p) w = prior_grants p).
Proof.
  intros Hred Hwf Hown. unfold reopen. cbv zeta.
  assert (Hall : gs ∪ list_to_set (sorted_grants (prior_grants p ∖ gs)) = prior_grants p).
  { rewrite sorted_grants_set. symmetry. apply union_difference_L, Hred. }
  eapply (total_bind _ _ _ (λ rf w, rf = (name_of <$> sorted_grants (prior_grants p ∖ gs),
                                          prior_grants p) ∧ ready p owner ms (prior_grants p) w)).
  { apply total_try. eapply total_bind.
    { apply ready_grant_missing. by eapply missing_addable. }
    intros names. apply total_pure. intros ->. rewrite Hall.
    eapply total_bind; [apply ready_grants|]. intros g. apply total_pure. intros ->.
    apply total_ret. }
  intros rf. apply total_pure. intros ->. rewrite bool_decide_true by done.
  intros w Hw. unfold now_utc.
  pose proof (keeps_now view (SelectGrants (database p)) eq_refl w) as Hk. unfold now_utc in Hk.
  destruct Hw as (_ & Ha & _). rewrite !bind_eq. cbn [mret proc_ret]. rewrite bind_eq.
  destruct (utc w) as [at_ v]. eexists _, v. split; [done|]. split; [done|].
  simpl in Hk. rewrite <- Ha. unfold FenceSafety.acl. by rewrite Hk.
Qed.

Lemma ready_restore p owner ms gs wait t :
  reduced (prior_grants p) ([] :: effective_of p) gs → acl_wf (prior_grants p) →
  (∀ g, g ∈ prior_grants p → privilege_of g = CONNECT →
        grantee_of g ∈ [] :: effective_of p → grantor_of g = owner) →
  member_roles p = (if bool_decide (fenced_roles p = []) then [] else sorted_names ms) →
  total (ready p owner ms gs) (restore_writers p (database p) (fence_id p) wait t)
    (λ u w, roles_restored u = name_of <$> sorted_grants (prior_grants p ∖ gs) ∧
            acl (database p) w = prior_grants p).
Proof.
  intros Hred Hwf Hown Hms. unfold restore_writers.
  eapply total_bind; [by apply ready_check_restore|].
  intros r. apply total_pure. intros ->. by apply ready_reopen.
Qed.
End restoring.

(** C23: What a fence took away a restore puts back, exactly.  After a fence
    that returned its proof, when the access list, the owner and the
    memberships are as the fence left them and no statement fails, restoring
    with that proof returns, the access list is grant for grant the one the
    fence started from, grantors and grant options included, and the proof of
    the restore names what was granted, PUBLIC first. *)
Theorem fence_then_restore {W} `{Server W} `{UnicodeDB} view `{!Undisturbed view}
    quoted `{!AclServer view quoted} steady `{!SteadyServer steady}
    db fid roles wait x t w p w1 wait' t' w2 :
  acl_wf (acl view db w) → benign view t →
  fence_writers db fid roles wait None x t w = (Ret p, w1) →
  steady w2 → acl view db w2 = acl view db w1 →
  view _ (SelectOwner db) w2 = view _ (SelectOwner db) w1 →
  view _ (SelectMembers (fenced_roles p)) w2 = view _ (SelectMembers (fenced_roles p)) w1 →
  view _ (Authorized db) w2 = Some true →
  ∃ u w3, restore_writers p db fid wait' t' w2 = (Ret u, w3) ∧ acl view db w3 = acl view db w ∧
    roles_restored u = name_of <$> sorted_grants (acl view db w ∖ acl view db w1).
Proof.
  intros Hwf Ht Hf Hst Hacl Hos Hms Hau. unfold fence_writers in Hf.
  apply bind_Ret in Hf as (r & wc & Hc & Hf). cbv zeta in Hf.
  apply try_Ret in Hf as [Ha|(e & v & _ & Hcomp)]; [|by apply compensate_Ret in Hcomp].
  pose proof (check_fence_grants view _ _ _ _ _ _ _ _ Hc) as Hg.
  pose proof (check_fence_members view _ _ _ _ _ _ _ _ Hc) as Hm.
  destruct (check_fence_owner view _ _ _ _ _ _ _ _ Hc) as (owner & Ho & Hown).
  assert (Hwc : acl view db wc = acl view db w).
  { eapply keeps_out; [|exact Hc]. apply keeps_acl. frame. }
  assert (Hk : ∀ B (q : stmt B), catalogue q = true → view _ q w1 = view _ q wc).
  { intros B q Hq. eapply keeps_out; [|exact Ha]. by apply keeps_apply_fence. }
  assert (Hred : reduced (acl view db w) ([] :: r_effective r) (acl view db w1)).
  { refine (triple_Ret _ _ _ _ _ _ _ (apply_fence_reduces view quoted db (acl view db w) fid
      _ _ (r_effective r) _ _ _ wait t Ht) _ Ha).
    rewrite Hwc. split; [done|]. intros e He Hn. by destruct Hn. }
  apply apply_fence_Ret in Ha as (Hd & Hi & _ & Hp & Hfr & Hmr & _).
  assert (He : effective_of p = r_effective r) by (unfold effective_of; by rewrite Hfr, Hmr).
  rewrite <- He in Hred, Hown. rewrite Hg in Hown, Hp. clear Hg Hc.
  subst db fid. rewrite <- Hp in Hred, Hwf, Hown |- *.
  set (ms := view _ (SelectMembers (fenced_roles p)) w2) in *.
  assert (Hmem : member_roles p = (if bool_decide (fenced_roles p = []) then [] else sorted_names ms)).
  { rewrite Hmr, Hm, Hfr. unfold members_view. case_bool_decide; [done|]. f_equal.
    by rewrite Hms, Hk, Hfr. }
  destruct (ready_restore view quoted steady p owner ms (acl view (database p) w1) wait' t'
    Hred Hwf Hown Hmem w2) as (u & w3 & Hr & Hn & Ha).
  { split_and!; try done. rewrite Hos, Hk by done. exact Ho. }
  exists u, w3. split_and!; [exact Hr|congruence|congruence].
Qed.

(** ** The demo cluster obeys the laws *)

Lemma named_quoted name : named (quoted name) = name.
Proof. unfold named, quoted. by rewrite removelast_last. Qed.

Lemma named_denotes ref g : denotes quoted ref g → named ref = g.
Proof. intros [[-> ->]| ->]; [done|apply named_quoted]. Qed.

Definition acl_list (db : pystr) (w : cluster) : list grant :=
  if bool_decide (db = c_db w) then c_acl w else [].
Lemma demo_acl db w : acl (@answer) db w = list_to_set (acl_list db w).
Proof. done. Qed.

(** The access list after a statement that may have failed. *)
Lemma run_acl {A} (s : stmt A) db w :
  acl_list db (run s w).2 = acl_list db w ∨ acl_list db (run s w).2 = acl_list db (effect s w).
Proof.
  unfold run. destruct (c_faults w) as [|[e|] rest]; [by right|by left|].
  right. destruct s; try done; unfold acl_list; simpl; repeat (case_bool_decide; simpl); done.
Qed.

Lemma revoke_acl qdb ref db w :
  acl_list db (effect (RevokeConnect qdb ref) w) = acl_list db w ∨
  acl_list db (effect (RevokeConnect qdb ref) w) =
    filter (λ g, ¬ by_owner w (named ref) g) (acl_list db w).
Proof.
  unfold acl_list. simpl. destruct (bool_decide (qdb = quoted (c_db w))); [|by left]. simpl.
  case_bool_decide; by right.
Qed.

#[export] Instance demo_acl_server : AclServer (@answer) quoted.
Proof.
  split.
  - done.
  - intros db ref w e. rewrite !demo_acl, !elem_of_list_to_set. simpl execute.
    destruct (run_acl (RevokeConnect (quoted db) ref) db w) as [->| ->]; [done|].
    destruct (revoke_acl (quoted db) ref db w) as [->| ->]; [done|].
    by intros [_ ?]%list_elem_of_filter.
  - intros db ref g w e Hd%named_denotes. rewrite !demo_acl, !elem_of_list_to_set. simpl execute.
    destruct (run_acl (RevokeConnect (quoted db) ref) db w) as [->| ->]; [done|].
    destruct (revoke_acl (quoted db) ref db w) as [->| ->]; [done|].
    intros He Hn. rewrite list_elem_of_filter in Hn. rewrite Hd in Hn.
    destruct (decide (by_owner w g e)) as [(? & ? & _)|]; [done|]. tauto.
  - intros db owner ref g opt w w' Hd%named_denotes Ho Hn He. simpl in He.
    assert (Hdb : db = c_db w ∧ owner = c_owner w).
    { simpl in Ho. case_bool_decide; by simplify_eq. }
    destruct Hdb as [-> ->]. rewrite demo_acl in Hn. unfold acl_list in Hn.
    rewrite bool_decide_true in Hn by done.
    assert (Hnone : filter (by_owner w g) (c_acl w) = []).
    { destruct (filter (by_owner w g) (c_acl w)) as [|[[[ge pr] o] gr] l'] eqn:Hf; [done|].
      assert (Hin : (ge, pr, o, gr) ∈ filter (by_owner w g) (c_acl w)) by (rewrite Hf; by left).
      apply list_elem_of_filter in Hin as [(Hp & Hg & Hr) Hin]. unfold privilege_of, grantee_of,
        grantor_of in *. simpl in *. subst. destruct (Hn o).
      by apply elem_of_list_to_set. }
    subst g. unfold run in He. destruct (c_faults w) as [|[e|] rest]; simplify_eq;
      simpl; rewrite bool_decide_true by done; rewrite (bool_decide_true _ Hnone);
      rewrite !demo_acl; unfold acl_list; simpl; rewrite !bool_decide_true by done;
      rewrite list_to_set_app_L; apply set_eq; intros y; set_solver.
Qed.

Definition faultless (w : cluster) : Prop := c_faults w = [].
#[export] Instance demo_steady : SteadyServer faultless.
Proof.
  split.
  - intros A s w Hw _. exists (answer s w), (effect s w). simpl. unfold run. rewrite Hw.
    split; [done|]. unfold faultless in *. destruct s; simpl; try done;
      repeat case_bool_decide; done.
  - done.
  - done.
Qed.

Lemma cluster0_wf : acl_wf (acl (@answer) (lit "vendor_cp") cluster0).
Proof.
  assert (Hl : ∀ g, g ∈ acl (@answer) (lit "vendor_cp") cluster0 → g ∈ c_acl cluster0)
    by (intros g; rewrite demo_acl; by intros ?%elem_of_list_to_set).
  split.
  - intros a b Ha%Hl Hb%Hl. simpl in Ha, Hb.
    repeat match goal with
    | Hx : _ ∈ _ :: _ |- _ => apply elem_of_cons in Hx as [->|Hx]
    | Hx : _ ∈ [] |- _ => by apply elem_of_nil in Hx
    end; done.
  - intros g Hg%Hl. simpl in Hg.
    repeat match goal with
    | Hx : _ ∈ _ :: _ |- _ => apply elem_of_cons in Hx as [->|Hx]
    | Hx : _ ∈ [] |- _ => by apply elem_of_nil in Hx
    end; done.
Qed.

Theorem fence_then_restore_witness :
  ∃ u w3, demo_restore proof0 fenced0 = (Ret u, w3) ∧
    acl (@answer) (lit "vendor_cp") w3 = acl (@answer) (lit "vendor_cp") cluster0 ∧
    roles_restored u = [PUBLIC; lit "reporter"].
Proof.
  destruct (fence_then_restore (@answer) quoted faultless (lit "vendor_cp") (lit "run-1")
    WRITER_ROLES 1000000 None None cluster0 proof0 fenced0 1000000 None fenced0
    cluster0_wf (λ t Ht, match Ht with end) demo_fence_runs eq_refl eq_refl eq_refl eq_refl eq_refl)
    as (u & w3 & Hr & Ha & Hn).
  exists u, w3. split; [exact Hr|]. split; [exact Ha|]. rewrite Hn. vm_compute. reflexivity.
Defined.
