(* ===== verification/FenceTime.v ===== *)
(** * How long a fence takes

    The polling loop of the drain against a clock that does not go back and a
    sleep that lasts at least as long as asked: it always comes to an end, and
    the time of one drain is bounded by the wait, two terminator calls and the
    polling overhead.  So every fence and every restore comes to an outcome. *)

From stdpp Require Import gmap.
From S2P Require Import Prelude PyText Json PyDate Effects Fence FenceSafety.
Import FenceRefusalCode.

#[local] Open Scope Z_scope.

(** [now] is the monotonic clock, [e] what a statement, a reading of the clock
    or waking from a sleep takes at most. *)
Class Clocked {W} `{Server W} (now : W → Z) (e : Z) : Prop := {
  clock_pos : 0 ≤ e;
  clock_execute {A} (s : stmt A) w : now w ≤ now (execute s w).2 ≤ now w + e;
  clock_clock w : now w ≤ (clock w).1 ≤ now (clock w).2 ∧ now (clock w).2 ≤ now w + e;
  clock_utc w : now w ≤ now (utc w).2 ≤ now w + e;
  clock_sleep d w : 0 ≤ d → now w ≤ now (sleep d w).2 ≤ now w + d + e;
  clock_slept d w w' : sleep d w = (Ret tt, w') → now w + d ≤ now w';
}.

(** No call of the server blocks for ever. *)
Class Answers (W : Type) `{Server W} : Prop := {
  answers_execute {A} (s : stmt A) : ends (execute s);
  answers_sleep d : ends (sleep d);
}.

Section time.
Context {W : Type} `{Server W} `{UnicodeDB} (now : W → Z) (e : Z) `{!Clocked now e} `{!Answers W}.
#[local] Abbreviation proc := (proc W failure).

(** [m] takes at most [d], however it ends. *)
Definition takes {A} (d : Z) (m : proc A) : Prop := ∀ w, now w ≤ now (m w).2 ≤ now w + d.

Lemma takes_bind {A B} d d' (m : proc A) (f : A → proc B) :
  0 ≤ d' → takes d m → (∀ a, takes d' (f a)) → takes (d + d') (m ≫= f).
Proof.
  intros Hd Hm Hf w. rewrite bind_eq. specialize (Hm w).
  destruct (m w) as [[a|x|] v]; simpl in *; [|lia..]. specialize (Hf a v). lia.
Qed.
Lemma takes_ret {A} (a : A) : takes 0 (mret a).
Proof. intros w. simpl. lia. Qed.
Lemma takes_require b x : takes 0 (require b x).
Proof. intros w. destruct b; simpl; lia. Qed.
Lemma takes_try {A} d (m : proc A) (x : failure → failure) :
  takes d m → takes d (try_except m (λ f, throw (x f))).
Proof.
  intros Hm w. specialize (Hm w). unfold try_except.
  destruct (m w) as [[a|f|] v]; simpl in *; lia.
Qed.
Lemma takes_monotonic : takes e monotonic.
Proof.
  intros w. unfold monotonic. pose proof (clock_clock w). destruct (clock w); simpl in *. lia.
Qed.

(** A terminator that takes at most [T] and returns. *)
Definition prompt (T : Z) (t : option (proc unit)) : Prop :=
  ∀ terminate, t = Some terminate → takes T terminate ∧ ends terminate.

(** ** Every procedure ends *)

Lemma ends_monotonic : ends monotonic.
Proof. intros w. unfold monotonic. by destruct (clock w). Qed.
Lemma ends_now : ends now_utc.
Proof. intros w. unfold now_utc. by destruct (utc w). Qed.
Lemma ends_autocommit : ends require_autocommit.
Proof. intros w. unfold require_autocommit. apply ends_require. Qed.
#[local] Hint Resolve answers_execute answers_sleep ends_monotonic ends_now ends_autocommit : ends.

Lemma ends_request T db roles t wait : prompt T t → ends (request_termination db roles t wait).
Proof.
  intros Ht. unfold request_termination, default_terminate, writer_pids, require_code.
  destruct t as [terminate|]; [|ending]. destruct (Ht terminate eq_refl) as [_ He]. ending.
Qed.

(** Time does not go back. *)
Definition later {A} (m : proc A) : Prop := ∀ w, now w ≤ now (m w).2.

Lemma later_bind {A B} (m : proc A) (f : A → proc B) :
  later m → (∀ a, later (f a)) → later (m ≫= f).
Proof.
  intros Hm Hf w. rewrite bind_eq. specialize (Hm w).
  destruct (m w) as [[a|x|] v]; simpl in *; [|lia..]. specialize (Hf a v). lia.
Qed.
Lemma takes_later {A} d (m : proc A) : takes d m → later m.
Proof. intros Hm w. apply Hm. Qed.
Lemma later_execute {A} (s : stmt A) : later (execute s).
Proof. intros w. apply clock_execute. Qed.

Lemma later_request T db roles t wait : prompt T t → later (request_termination db roles t wait).
Proof.
  intros Ht. unfold request_termination. destruct t as [terminate|].
  - destruct (Ht terminate eq_refl) as [Htk _].
    apply later_bind; [eapply takes_later, takes_monotonic|intros a].
    apply later_bind; [by eapply takes_later, takes_try|intros u].
    apply later_bind; [eapply takes_later, takes_monotonic|intros b].
    eapply takes_later, takes_require.
  - unfold default_terminate, writer_pids. apply later_bind; [apply later_execute|intros pids].
    induction pids as [|pid pids IH]; simpl; [by intros w|].
    apply later_bind; [apply later_execute|done].
Qed.

Lemma request_takes T db roles terminate wait :
  prompt T (Some terminate) → 0 ≤ T →
  takes (T + 2 * e) (request_termination db roles (Some terminate) wait).
Proof.
  intros Ht HT. destruct (Ht terminate eq_refl) as [Htk _]. pose proof clock_pos as He.
  replace (T + 2 * e) with (e + (T + (e + 0))) by lia. unfold request_termination.
  apply takes_bind; [lia|apply takes_monotonic|intros a].
  apply takes_bind; [lia|by apply takes_try|intros u].
  apply takes_bind; [lia|apply takes_monotonic|intros b]. apply takes_require.
Qed.

Section drain.
Context (db : pystr) (roles : list pystr) (wait T : Z) (t : option (proc unit)) (Ht : prompt T t).

Lemma time_pids w : now w ≤ now (writer_pids db roles w).2 ≤ now w + e.
Proof. apply clock_execute. Qed.

(** One look at the sessions, up to the deadline check. *)
Definition look : proc bool :=
  remaining ← writer_pids db roles;
  if bool_decide (remaining = []) then
    sleep POLL_INTERVAL;; confirm ← writer_pids db roles; mret (bool_decide (confirm = []))
  else mret false.

Lemma look_takes : takes (POLL_INTERVAL + 3 * e) look.
Proof.
  pose proof clock_pos as He.
  replace (POLL_INTERVAL + 3 * e) with (e + ((POLL_INTERVAL + e) + (e + 0))) by lia.
  unfold look. apply takes_bind; [unfold POLL_INTERVAL; lia|intros w; apply time_pids|].
  intros pids. case_bool_decide.
  - apply takes_bind; [lia| |].
    + intros w. pose proof (clock_sleep POLL_INTERVAL w). unfold POLL_INTERVAL in *. lia.
    + intros ?. apply takes_bind; [lia|intros w; apply time_pids|]. intros. apply takes_ret.
  - intros w. simpl. unfold POLL_INTERVAL. lia.
Qed.

Lemma drain_loop_eq n deadline k w :
  drain_loop (S n) db roles wait deadline t k w =
  (gone ← look;
   if (gone : bool) then mret k
   else
     at_ ← monotonic;
     require_code (negb (deadline <=? at_)) WRITER_SESSIONS_SURVIVED;;
     request_termination db roles t wait;;
     sleep POLL_INTERVAL;;
     drain_loop n db roles wait deadline t k) w.
Proof.
  cbn [drain_loop]. unfold look. rewrite !bind_eq.
  destruct (writer_pids db roles w) as [[pids|f|] v]; try done.
Qed.

(** What follows a look that found somebody, before the deadline. *)
Definition again (n : nat) (deadline k : Z) : proc Z :=
  request_termination db roles t wait;;
  sleep POLL_INTERVAL;;
  drain_loop n db roles wait deadline t k.

(** One turn of the loop: it ends here, or goes on past the deadline check. *)
Lemma turn n deadline k w (P : outcome failure Z * W → Prop) :
  (∀ o w', now w ≤ now w' ≤ now w + POLL_INTERVAL + 4 * e → o ≠ Diverge → P (o, w')) →
  (∀ w', now w ≤ now w' → now w < deadline → now w' ≤ deadline + e →
         P (again n deadline k w')) →
  P (drain_loop (S n) db roles wait deadline t k w).
Proof.
  intros Hend Hgo. rewrite drain_loop_eq, bind_eq. pose proof clock_pos as He.
  assert (Hlook : ends look) by (unfold look, writer_pids; ending).
  pose proof (look_takes w) as Hl. specialize (Hlook w).
  destruct (look w) as [[[]|f|] w1]; try done; simpl in Hl.
  - apply Hend; [lia|done].
  - rewrite bind_eq. unfold monotonic. pose proof (clock_clock w1) as Hc.
    destruct (clock w1) as [t1 w2]; simpl in Hc. rewrite bind_eq.
    destruct (Z.leb_spec deadline t1); simpl.
    + apply Hend; [lia|done].
    + apply Hgo; lia.
  - apply Hend; [lia|done].
Qed.

(** Going on: the next turn starts an interval later. *)
Lemma again_next n deadline k w (P : outcome failure Z * W → Prop) :
  (∀ o w', now w ≤ now w' → o ≠ Diverge →
           now w' ≤ now (request_termination db roles t wait w).2 + POLL_INTERVAL + e → P (o, w')) →
  (∀ w', now w + POLL_INTERVAL ≤ now w' →
         now w' ≤ now (request_termination db roles t wait w).2 + POLL_INTERVAL + e →
         P (drain_loop n db roles wait deadline t k w')) →
  P (again n deadline k w).
Proof.
  intros Hend Hgo. unfold again. rewrite bind_eq. pose proof clock_pos as He.
  pose proof (ends_request T db roles t wait Ht w) as Hr.
  pose proof (later_request T db roles t wait Ht w) as Hl.
  assert (0 ≤ POLL_INTERVAL) as Hp by done.
  destruct (request_termination db roles t wait w) as [[u|f|] w1]; try done; simpl in *;
    [|apply Hend; [lia|done|lia]].
  rewrite bind_eq. pose proof (clock_sleep POLL_INTERVAL w1 Hp) as Hs.
  pose proof (answers_sleep POLL_INTERVAL w1) as Hsl.
  destruct (sleep POLL_INTERVAL w1) as [[[]|f|] w2] eqn:He2; try done; simpl in *.
  - apply clock_slept in He2. apply Hgo; lia.
  - apply Hend; [lia|done|lia].
Qed.

(** Enough turns for the deadline: the loop does not run out of them. *)
Lemma drain_loop_ends n deadline k w :
  deadline ≤ now w + Z.of_nat n * POLL_INTERVAL →
  (drain_loop (S n) db roles wait deadline t k w).1 ≠ Diverge.
Proof.
  revert w. induction n as [|n IH]; intros w Hd; apply turn; try done.
  - simpl in Hd. lia.
  - intros w1 Hw1 _ _. apply again_next; [done|]. intros w2 Hw2 _. apply IH.
    unfold POLL_INTERVAL in *. lia.
Qed.

(** And it ends a bounded time after its deadline. *)
Lemma drain_loop_time R n deadline k w :
  takes R (request_termination db roles t wait) →
  deadline ≤ now w + Z.of_nat n * POLL_INTERVAL →
  now w ≤ now (drain_loop (S n) db roles wait deadline t k w).2 ≤
    Z.max (now w) (deadline + R + POLL_INTERVAL + 2 * e) + POLL_INTERVAL + 4 * e.
Proof.
  intros HR. pose proof clock_pos as He. assert (0 ≤ POLL_INTERVAL) as Hp by done.
  revert w. induction n as [|n IH]; intros w Hd; apply turn.
  - simpl. intros o w' Hw' _. lia.
  - simpl in Hd. lia.
  - simpl. intros o w' Hw' _. lia.
  - intros w1 Hw1 Hlt Hdl. pose proof (HR w1) as HRw. apply again_next.
    + simpl. intros o w2 Hw2 _ Hb. lia.
    + intros w2 Hw2 Hb. cbv beta.
      assert (Hd2 : deadline ≤ now w2 + Z.of_nat n * POLL_INTERVAL)
        by (unfold POLL_INTERVAL in *; lia).
      specialize (IH w2 Hd2). lia.
Qed.

Lemma turns_enough w0 w1 :
  now w0 ≤ now w1 →
  now w0 + wait ≤ now w1 + Z.of_nat (S (Z.to_nat (wait / POLL_INTERVAL))) * POLL_INTERVAL.
Proof.
  intros Hw. pose proof (Z.div_mod wait POLL_INTERVAL ltac:(done)) as Hdm.
  pose proof (Z.mod_pos_bound wait POLL_INTERVAL ltac:(done)) as Hm.
  unfold POLL_INTERVAL in *. lia.
Qed.
End drain.

Lemma ends_drain T db roles wait t : prompt T t → ends (terminate_and_drain db roles wait t).
Proof.
  intros Ht. unfold terminate_and_drain, writer_pids. case_bool_decide; [apply ends_ret|].
  apply ends_bind; [ending|intros pids].
  apply ends_bind; [case_bool_decide; [apply ends_ret|by eapply ends_request]|intros u].
  intros w. rewrite bind_eq. unfold monotonic. pose proof (clock_clock w) as Hc.
  destruct (clock w) as [t1 w1]; simpl in Hc. apply (drain_loop_ends _ _ _ T); [done|].
  pose proof (turns_enough wait w1 w1) as Hn. lia.
Qed.
#[local] Hint Resolve ends_drain : ends.

Lemma ends_restore T p db fid wait t : prompt T t → ends (restore_writers p db fid wait t).
Proof.
  intros Ht. pose proof (ends_drain T) as Hd.
  unfold restore_writers, check_restore, reopen, refence_and_redrain, refence, refence_holds,
    require_owner_member_or_superuser, member_roles_of, quote_ident, current_grants,
    database_owner, grant_missing, role_ref_sql, quote_ident, has_connect, require_code, refuse.
  ending; eauto with ends.
Qed.

Lemma ends_fence T db fid roles wait prior x t :
  prompt T t → ends (fence_writers db fid roles wait prior x t).
Proof.
  intros Ht. pose proof (ends_drain T) as Hd. pose proof (ends_restore T) as Hr.
  unfold fence_writers, check_fence, apply_fence, compensate, check_prior,
    reject_invalid_fence_id, database_exists, refence, existing_roles, current_acl_text,
    require_owner_member_or_superuser, member_roles_of, quote_ident, current_grants,
    reject_superuser_writers, require_migration_connect_without_public,
    reject_shared_writer_roles, reject_inherited_connect, reject_grants_not_owner_granted,
    database_owner, is_member_of, has_connect, require_code, refuse.
  ending; eauto with ends.
Qed.
End time.

(** C31: The drain is bounded.  With a terminator whose calls return within
    [T], one drain comes to an outcome at most the wait, two such calls and
    two polling intervals later, plus the time of at most twelve statements and
    clock readings; so with [T] within the wait it takes about three times
    the wait, as its documentation says. *)
Theorem drain_time {W} `{Server W} now e `{!Clocked now e} `{!Answers W}
    db roles wait T terminate w :
  0 ≤ T → 0 ≤ wait → prompt now T (Some terminate) →
  (terminate_and_drain db roles wait (Some terminate) w).1 ≠ Diverge ∧
  now w ≤ now (terminate_and_drain db roles wait (Some terminate) w).2 ≤
    now w + wait + 2 * T + 2 * POLL_INTERVAL + 12 * e.
Proof.
  intros HT Hwait Ht. split; [by eapply ends_drain|].
  pose proof (clock_pos (now := now)) as He. assert (0 ≤ POLL_INTERVAL) as Hp by done.
  pose proof (request_takes now e T db roles terminate wait Ht HT) as HR.
  unfold terminate_and_drain. case_bool_decide; [simpl; lia|].
  rewrite bind_eq. pose proof (time_pids now e db roles w) as Hpids.
  destruct (writer_pids db roles w) as [[pids|f|] w1]; simpl in Hpids; [|simpl; lia..].
  rewrite bind_eq.
  assert (Hreq : takes now (T + 2 * e) (if bool_decide (pids = []) then mret tt
            else request_termination db roles (Some terminate) wait)).
  { case_bool_decide; [|done]. intros v. simpl. lia. }
  specialize (Hreq w1).
  destruct ((if bool_decide (pids = []) then mret tt
             else request_termination db roles (Some terminate) wait) w1) as [[u|f|] w2];
    simpl in Hreq; [|simpl; lia..].
  rewrite bind_eq. unfold monotonic. pose proof (clock_clock w2) as Hc.
  destruct (clock w2) as [t1 w3]; simpl in Hc.
  pose proof (turns_enough now wait w3 w3) as Hn.
  pose proof (drain_loop_time now e db roles wait T (Some terminate) Ht (T + 2 * e)
    (S (Z.to_nat (wait / POLL_INTERVAL))) (t1 + wait) (Z.of_nat (length pids)) w3 HR
    ltac:(lia)) as Hloop. unfold drain_turns. lia.
Qed.

(** Every fence and every restore comes to an outcome: no sequence of
    failures, surviving sessions or interrupts makes one of them wait for
    ever, when the server and the terminator return from each call. *)
Theorem fence_comes_to_an_end {W} `{Server W} `{UnicodeDB} now e `{!Clocked now e} `{!Answers W}
    db fid roles wait prior x T t p w :
  prompt now T t →
  (fence_writers db fid roles wait prior x t w).1 ≠ Diverge ∧
  (restore_writers p db fid wait t w).1 ≠ Diverge.
Proof. intros Ht. split; [by eapply ends_fence|by eapply ends_restore]. Qed.

(** ** On the demo cluster *)

#[export] Instance demo_clocked : Clocked c_time 0.
Proof.
  split.
  - done.
  - intros A s w. simpl. unfold run.
    destruct (c_faults w) as [|[x|] rest]; simpl; [|lia|];
      destruct s; simpl; repeat case_bool_decide; simpl; lia.
  - intros w. simpl. lia.
  - intros w. simpl. lia.
  - intros d w. simpl. lia.
  - intros d w w' [= <-]. simpl. lia.
Qed.
#[export] Instance demo_answers : Answers cluster.
Proof.
  split.
  - intros A s w. simpl. unfold run. by destruct (c_faults w) as [|[x|] rest].
  - done.
Qed.

(** A terminator that takes most of a second and ends nothing. *)
Definition idle_broker : proc cluster failure unit := λ w, (Ret tt, set_time (c_time w + 900000) w).
Lemma idle_prompt : prompt c_time 900000 (Some idle_broker).
Proof.
  intros terminate [= <-]. split; [|done]. intros w. simpl. lia.
Qed.

(** A writer's session survives: the drain gives up within the bound. *)
Definition survivors : outcome failure Z * cluster :=
  terminate_and_drain (lit "vendor_cp") [lit "app_user"] 1000000 (Some idle_broker) cluster0.

Theorem drain_time_witness :
  survivors.1 = Throw (FenceRefused WRITER_SESSIONS_SURVIVED None) ∧
  c_time survivors.2 ≤ 1000000 + 2 * 900000 + 2 * POLL_INTERVAL.
Proof.
  split; [vm_compute; reflexivity|].
  destruct (drain_time c_time 0 (lit "vendor_cp") [lit "app_user"] 1000000 900000 idle_broker
    cluster0 ltac:(lia) ltac:(lia) idle_prompt) as [_ [_ Hub]].
  unfold survivors. change (c_time cluster0) with 0 in Hub. lia.
Defined.

(** With every statement of a fence failing from the third on. *)
Definition broken : cluster := failing (replicate 2 None ++ replicate 100 (Some OtherException)).

Theorem fence_comes_to_an_end_witness :
  (demo_fence broken).1 = Throw OtherException ∧ (demo_restore proof0 broken).1 ≠ Diverge.
Proof.
  split; [vm_compute; reflexivity|].
  apply (fence_comes_to_an_end c_time 0 (lit "vendor_cp") (lit "run-1") WRITER_ROLES 1000000
    None None 0 None proof0 broken).
  intros terminate Hn. discriminate Hn.
Defined.
