(* ===== verification/FenceDocument.v ===== *)
(** * The wire form of a fence proof

    [FenceProof.to_document], [canonical_bytes], [digest] and the strict
    [from_document] of [deployment/transition_fence.py].  A document is JSON as
    [json.loads] gives it; a [dict] is its items, with distinct keys. *)

From stdpp Require Import gmap.
From S2P Require Import Prelude PyText Json PyDate Effects Fence.
Import FenceRefusalCode.

#[local] Open Scope Z_scope.

(** ** Time stamps *)

Definition two (n : Z) : pystr := [48 + n / 10; 48 + n mod 10].
Definition six (n : Z) : pystr := two (n / 10000) ++ two (n / 100 mod 100) ++ two (n mod 100).

(** [strftime("%Y-%m-%dT%H:%M:%S.%f") + "Z"]; the C library does not pad
    [%Y]. *)
Definition iso_utc (t : datetime) : pystr :=
  let d := dt_date t in
  str_of_int (year d) ++ [45] ++ two (month d) ++ [45] ++ two (day d) ++ [84] ++
  two (dt_hour t) ++ [58] ++ two (dt_minute t) ++ [58] ++ two (dt_second t) ++ [46] ++
  six (dt_micro t) ++ [90].

Definition digits (l : pystr) : option Z :=
  if forallb (between 48 57) l then Some (foldl (λ a c, a * 10 + (c - 48)) 0 l) else None.

(** A [datetime] object that exists. *)
Definition valid_time (t : datetime) : Prop :=
  valid_date (dt_date t) ∧ 0 ≤ dt_hour t ≤ 23 ∧ 0 ≤ dt_minute t ≤ 59 ∧
  0 ≤ dt_second t ≤ 59 ∧ 0 ≤ dt_micro t ≤ 999999.

(** [datetime.fromisoformat(raw.replace("Z", "+00:00"))] in UTC.  Only the
    layout of [iso_utc] is read here: every other text that [fromisoformat]
    accepts gives a time whose [iso_utc] is not that text, which the caller
    refuses with the same code. *)
Definition from_iso (raw : pystr) : option datetime :=
  let part i n := digits (take n (drop i raw)) in
  let sep i c := bool_decide (raw !! i = Some c) in
  y ← part 0%nat 4%nat; mo ← part 5%nat 2%nat; d ← part 8%nat 2%nat;
  h ← part 11%nat 2%nat; mi ← part 14%nat 2%nat; s ← part 17%nat 2%nat; u ← part 20%nat 6%nat;
  if bool_decide (length raw = 27%nat) &&
     sep 4%nat 45 && sep 7%nat 45 && sep 10%nat 84 && sep 13%nat 58 && sep 16%nat 58 &&
     sep 19%nat 46 && sep 26%nat 90 && (h <=? 23) && (mi <=? 59) && (s <=? 59)
  then match mk_date y mo d with
       | Ok date_ => Some (Datetime date_ h mi s u)
       | Raise _ => None
       end
  else None.

(** ** Writing *)

Definition grant_json (g : grant) : json :=
  JArr [JStr (grantee_of g); JStr (privilege_of g); JBool (grantable_of g); JStr (grantor_of g)].
Definition names_json (l : list pystr) : json := JArr (JStr <$> l).

(** The items of the document, for a listing of the grants. *)
Definition document (p : FenceProof) (listing : list grant) : dict :=
  [(lit "schema", JStr FENCE_PROOF_SCHEMA);
   (lit "database", JStr (database p));
   (lit "fence_id", JStr (fence_id p));
   (lit "prior_acl", JStr (prior_acl p));
   (lit "prior_grants", JArr (grant_json <$> listing));
   (lit "fenced_roles", names_json (fenced_roles p));
   (lit "member_roles", names_json (member_roles p));
   (lit "absent_roles", names_json (absent_roles p));
   (lit "terminated_count", JInt (terminated_count p));
   (lit "fenced_at", JStr (iso_utc (fenced_at p)))].
Definition DOCUMENT_KEYS : list pystr :=
  [lit "schema"; lit "database"; lit "fence_id"; lit "prior_acl"; lit "prior_grants";
   lit "fenced_roles"; lit "member_roles"; lit "absent_roles"; lit "terminated_count";
   lit "fenced_at"].

Definition to_document (p : FenceProof) : json := JObj (document p (sorted_grants (prior_grants p))).
Definition canonical_bytes (p : FenceProof) : pystr := dumps_compact (to_document p).

Section digests.
(** [hashlib.sha256(...).hexdigest()] of a byte string. *)
Context (sha256 : pystr → pystr) `{UnicodeDB}.

Definition digest (p : FenceProof) : pystr := lit "sha256:" ++ sha256 (canonical_bytes p).

(** ** Reading *)

Abbreviation read := (outcome failure).
Definition invalid {A} : read A := Throw (FenceRefused PROOF_INVALID None).
Definition demand (b : bool) : read unit := if b then Ret tt else invalid.
Definition as_str (j : json) : read pystr := match j with JStr s => Ret s | _ => invalid end.
Definition as_list (j : json) : read (list json) := match j with JArr l => Ret l | _ => invalid end.

Fixpoint read_all {A} (f : json → read A) (l : list json) : read (list A) :=
  match l with
  | [] => Ret []
  | x :: l => a ← f x; r ← read_all f l; Ret (a :: r)
  end.

Definition grant_allowed (g : grant) : bool :=
  negb (unsafe_identifier true (grantee_of g)) && negb (unsafe_identifier false (grantor_of g)) &&
  bool_decide (privilege_of g ∈ KNOWN_DATABASE_PRIVILEGES) &&
  negb (bool_decide (grantee_of g = []) && grantable_of g).
Definition read_grant (j : json) : read grant :=
  match j with
  | JArr [JStr ge; JStr pr; JBool o; JStr gr] =>
      demand (grant_allowed (ge, pr, o, gr)) ≫= λ _, Ret (ge, pr, o, gr)
  | _ => invalid
  end.

Definition role_list (j : json) : read (list pystr) :=
  l ← as_list j;
  names ← read_all as_str l;
  _ ← demand (negb (existsb (unsafe_identifier false) names));
  _ ← demand (bool_decide (NoDup names));
  Ret names.

(** [doc[key]], where the key is known to be there. *)
Definition field (kvs : dict) (k : pystr) : json := default JNull (dict_get kvs k).

Definition from_document (doc : json) (expected_digest : pystr) (allowed_writer_roles : list pystr)
    : read FenceProof :=
  match doc with
  | JObj kvs =>
      _ ← demand (bool_decide ((list_to_set kvs.*1 : gset pystr) = list_to_set DOCUMENT_KEYS));
      schema ← as_str (field kvs (lit "schema"));
      _ ← demand (bool_decide (schema = FENCE_PROOF_SCHEMA));
      db ← as_str (field kvs (lit "database"));
      _ ← demand (negb (unsafe_identifier false db));
      fid ← as_str (field kvs (lit "fence_id"));
      _ ← demand (negb (invalid_fence_id fid));
      acl ← as_str (field kvs (lit "prior_acl"));
      entries ← as_list (field kvs (lit "prior_grants"));
      listing ← read_all read_grant entries;
      _ ← demand (bool_decide (NoDup listing));
      fenced ← role_list (field kvs (lit "fenced_roles"));
      members ← role_list (field kvs (lit "member_roles"));
      absent ← role_list (field kvs (lit "absent_roles"));
      _ ← demand (bool_decide (Forall (λ r, r ∈ allowed_writer_roles) fenced));
      _ ← demand (negb (bool_decide (MIGRATION_ROLE ∈ members)));
      _ ← demand (bool_decide (Forall (λ r, r ∉ fenced) members));
      _ ← demand (bool_decide (Forall (λ r, r ∉ fenced ++ members) absent));
      count ← match field kvs (lit "terminated_count") with JInt n => Ret n | _ => invalid end;
      _ ← demand (0 <=? count);
      raw ← as_str (field kvs (lit "fenced_at"));
      at_ ← match from_iso raw with Some t => Ret t | None => invalid end;
      _ ← demand (bool_decide (iso_utc at_ = raw));
      let p := Proof_ db fid acl (list_to_set listing) fenced members absent count at_ in
      _ ← demand (bool_decide (digest p = expected_digest));
      Ret p
  | _ => invalid
  end.
End digests.

(** ** What a readable proof is *)

Record names_ok (l : list pystr) : Prop := NamesOk {
  names_safe r : r ∈ l → unsafe_identifier false r = false;
  names_once : NoDup l;
}.

(** The proofs that have a document. *)
Record valid_proof `{UnicodeDB} (allowed : list pystr) (p : FenceProof) : Prop := ValidProof {
  vp_database : unsafe_identifier false (database p) = false;
  vp_fence_id : invalid_fence_id (fence_id p) = false;
  vp_grants g : g ∈ prior_grants p → grant_allowed g = true;
  vp_fenced : names_ok (fenced_roles p);
  vp_members : names_ok (member_roles p);
  vp_absent : names_ok (absent_roles p);
  vp_allowed r : r ∈ fenced_roles p → r ∈ allowed;
  vp_migration : MIGRATION_ROLE ∉ member_roles p;
  vp_disjoint r : r ∈ member_roles p → r ∉ fenced_roles p;
  vp_absent_disjoint r : r ∈ absent_roles p → r ∉ fenced_roles p ++ member_roles p;
  vp_count : 0 ≤ terminated_count p;
  vp_time : valid_time (fenced_at p) ∧ 1000 ≤ year (dt_date (fenced_at p));
}.

(** [kvs] are the items of the proof's document in some order, with the
    grants listed in some order. *)
Definition documents (p : FenceProof) (kvs : dict) : Prop :=
  ∃ listing, NoDup listing ∧ list_to_set listing = prior_grants p ∧ kvs ≡ₚ document p listing.

(** ** Time stamps, there and back *)

Lemma two_digits n : 0 ≤ n < 100 → digits (two n) = Some n.
Proof.
  intros Hn. unfold digits, two. cbn [forallb foldl].
  pose proof (Z.div_mod n 10 ltac:(lia)). pose proof (Z.mod_pos_bound n 10 ltac:(lia)).
  assert (0 ≤ n / 10 < 10) by (split; [apply Z.div_pos|apply Z.div_lt_upper_bound]; lia).
  unfold between. rewrite !(proj2 (andb_true_iff _ _)) by (rewrite ?Z.leb_le; split; try lia;
    try (apply andb_true_iff; rewrite ?Z.leb_le; lia)). f_equal. lia.
Qed.

Lemma digits_fold l a : foldl (λ a c, a * 10 + (c - 48)) a l =
  a * 10 ^ Z.of_nat (length l) + foldl (λ a c, a * 10 + (c - 48)) 0 l.
Proof.
  revert a. induction l as [|c l IH]; intros a; cbn [foldl length]; [lia|].
  rewrite IH, (IH (0 * 10 + _)), Nat2Z.inj_succ, Z.pow_succ_r by lia. ring.
Qed.

Lemma digits_app a b x y :
  digits a = Some x → digits b = Some y →
  digits (a ++ b) = Some (x * 10 ^ Z.of_nat (length b) + y).
Proof.
  unfold digits. intros Ha Hb.
  destruct (forallb (between 48 57) a) eqn:Hfa; [|done].
  destruct (forallb (between 48 57) b) eqn:Hfb; [|done].
  rewrite forallb_app, Hfa, Hfb, foldl_app. simpl. rewrite digits_fold. congruence.
Qed.

Lemma digits_bound l n : digits l = Some n → 0 ≤ n < 10 ^ Z.of_nat (length l).
Proof.
  unfold digits. destruct (forallb (between 48 57) l) eqn:Hl; [|done]. intros [= <-].
  induction l as [|c l IH]; cbn [foldl length]; [done|]. simpl in Hl. bool_hyps.
  specialize (IH ltac:(assumption)). rewrite digits_fold, Nat2Z.inj_succ, Z.pow_succ_r by lia.
  unfold between in *. bool_hyps. nia.
Qed.

Lemma six_digits n : 0 ≤ n < 1000000 → digits (six n) = Some n.
Proof.
  intros Hn. unfold six.
  assert (0 ≤ n / 10000 < 100) by (split; [apply Z.div_pos|apply Z.div_lt_upper_bound]; lia).
  pose proof (Z.mod_pos_bound (n / 100) 100 ltac:(lia)).
  pose proof (Z.mod_pos_bound n 100 ltac:(lia)).
  rewrite (digits_app _ _ (n / 10000) (n / 100 mod 100 * 100 + n mod 100)).
  - f_equal. change (10 ^ Z.of_nat (length (two (n / 100 mod 100) ++ two (n mod 100)))) with 10000.
    pose proof (Z.div_mod n 100 ltac:(lia)). pose proof (Z.div_mod (n / 100) 100 ltac:(lia)).
    assert (n / 100 / 100 = n / 10000) by (by rewrite Z.div_div by lia). lia.
  - by apply two_digits.
  - rewrite (digits_app _ _ (n / 100 mod 100) (n mod 100)); [done|by apply two_digits..].
Qed.

(** The years whose decimal notation has four digits. *)
Lemma year_digits y :
  1 ≤ y ≤ 9999 →
  digits (str_of_int y) = Some y ∧ (length (str_of_int y) = 4%nat ↔ 1000 ≤ y).
Proof.
  intros Hy.
  unfold str_of_int. rewrite (proj2 (Z.ltb_ge y 0)) by lia. split.
  - unfold digits. rewrite dec_digits by lia. f_equal. apply dec_number. lia.
  - pose proof (dec_length y 3 ltac:(lia) ltac:(lia)) as H3.
    pose proof (dec_length y 4 ltac:(lia) ltac:(lia)) as H4.
    change (10 ^ Z.of_nat 3) with 1000 in H3. change (10 ^ Z.of_nat 4) with 10000 in H4. lia.
Qed.

Lemma from_iso_utc t :
  valid_time t → 1000 ≤ year (dt_date t) → from_iso (iso_utc t) = Some t.
Proof.
  intros (Hd & Hh & Hmi & Hs & Hu) Hy1000.
  pose proof (proj1 (valid_date_spec _) Hd) as (Hy & Hm & Hday).
  pose proof (monthrange_bounds (year (dt_date t)) (month (dt_date t))).
  destruct (year_digits (year (dt_date t)) Hy) as [Hyd Hyl].
  apply Hyl in Hy1000. unfold iso_utc. unfold from_iso.
  destruct (str_of_int (year (dt_date t))) as [|a [|b [|c [|e [|]]]]]; try discriminate Hy1000.
  assert (Hsix : six (dt_micro t) = two (dt_micro t / 10000) ++
    two (dt_micro t / 100 mod 100) ++ two (dt_micro t mod 100)) by done.
  pose proof (two_digits (month (dt_date t)) ltac:(lia)) as H1.
  pose proof (two_digits (day (dt_date t)) ltac:(lia)) as H2.
  pose proof (two_digits (dt_hour t) ltac:(lia)) as H3.
  pose proof (two_digits (dt_minute t) ltac:(lia)) as H4.
  pose proof (two_digits (dt_second t) ltac:(lia)) as H5.
  pose proof (six_digits (dt_micro t) ltac:(lia)) as H6.
  unfold six, two in *. cbn [app take drop length lookup list_lookup] in *.
  rewrite Hyd, H1, H2, H3, H4, H5, H6. cbn [mbind option_bind].
  rewrite !bool_decide_true by done. cbn [andb].
  rewrite !(proj2 (Z.leb_le _ _)) by lia. cbn [andb].
  rewrite Hd. by destruct t.
Qed.

Lemma from_iso_valid raw t :
  from_iso raw = Some t → iso_utc t = raw → valid_time t ∧ 1000 ≤ year (dt_date t).
Proof.
  unfold from_iso. intros Hf Hr.
  repeat (apply bind_Some in Hf as (? & ?%digits_bound & Hf)).
  case_match eqn:Hc; [|done]. case_match eqn:Hdt; [|done]. injection Hf as <-.
  bool_hyps. pose proof (mk_date_valid _ _ _ _ Hdt) as Hv.
  assert (Hlen : length (iso_utc (Datetime a x2 x3 x4 x5)) = 27%nat) by (by rewrite Hr).
  assert (Hu : x5 < 10 ^ 6).
  { match goal with Hx : 0 ≤ x5 < _ |- _ => destruct Hx as [_ Hx]; eapply Z.lt_le_trans; [exact Hx|] end.
    apply Z.pow_le_mono_r; [lia|]. rewrite length_take. lia. }
  split.
  - unfold valid_time. cbn. split_and!; try lia. done.
  - cbn. pose proof (proj1 (valid_date_spec _) Hv) as (Hy & _). apply year_digits; [lia|].
    unfold iso_utc in Hlen. cbn [dt_date dt_hour dt_minute dt_second dt_micro] in Hlen.
    rewrite !length_app in Hlen. simpl in Hlen. lia.
Qed.

(** ** Reading, inverted *)

Lemma demand_Ret b u : demand b = Ret u ↔ b = true.
Proof. destruct b, u; simpl; unfold invalid; naive_solver. Qed.
Lemma as_str_Ret j s : as_str j = Ret s ↔ j = JStr s.
Proof. destruct j; simpl; unfold invalid; naive_solver. Qed.
Lemma as_list_Ret j l : as_list j = Ret l ↔ j = JArr l.
Proof. destruct j; simpl; unfold invalid; naive_solver. Qed.

Lemma read_all_Ret {A} (f : json → outcome failure A) (g : A → json) (P : A → Prop) l r :
  (∀ j a, f j = Ret a ↔ j = g a ∧ P a) →
  read_all f l = Ret r ↔ l = g <$> r ∧ ∀ a, a ∈ r → P a.
Proof.
  intros Hf. revert r. induction l as [|j l IH]; intros r; simpl.
  - split.
    + intros [= <-]. split; [done|]. intros a Ha. by apply elem_of_nil in Ha.
    + intros [Hr _]. symmetry in Hr. apply fmap_nil_inv in Hr as ->. done.
  - rewrite outcome_bind_Ret. split.
    + intros (a & [-> Ha]%Hf & Hr). apply outcome_bind_Ret in Hr as (r' & [-> Hall]%IH & Hr).
      injection Hr as <-. split; [done|]. intros b [->|Hb]%elem_of_cons; auto.
    + intros [Hr Hall]. destruct r as [|a r]; [done|]. injection Hr as -> ->.
      exists a. split; [apply Hf; split; [done|]; apply Hall; by left|].
      apply outcome_bind_Ret. exists r. split; [apply IH; split; [done|]|done].
      intros; apply Hall; by right.
Qed.

Lemma read_grant_Ret j g : read_grant j = Ret g ↔ j = grant_json g ∧ grant_allowed g = true.
Proof.
  split.
  - unfold read_grant. intros Hj.
    repeat (case_match; try discriminate Hj). apply outcome_bind_Ret in Hj as (u & Hd & [= <-]).
    by apply demand_Ret in Hd.
  - intros [-> Hg]. destruct g as [[[ge pr] o] gr].
    change (demand (grant_allowed (ge, pr, o, gr)) ≫= (λ _, Ret (E := failure) (ge, pr, o, gr)) =
            Ret (ge, pr, o, gr)). by rewrite Hg.
Qed.

Lemma role_list_Ret j names : role_list j = Ret names ↔ j = names_json names ∧ names_ok names.
Proof.
  assert (Hstr : ∀ l r, read_all as_str l = Ret r ↔ l = JStr <$> r).
  { intros l r. rewrite (read_all_Ret as_str JStr (λ _, True)); [tauto|].
    intros j' a. rewrite as_str_Ret. tauto. }
  unfold role_list. split.
  - intros (l & ->%as_list_Ret & Hr)%outcome_bind_Ret.
    apply outcome_bind_Ret in Hr as (r & ->%Hstr & Hr).
    apply outcome_bind_Ret in Hr as (u & Hs%demand_Ret & Hr).
    apply outcome_bind_Ret in Hr as (v & Hd%demand_Ret & Hr). injection Hr as <-.
    bool_hyps. split; [done|]. split; [|done]. intros x Hx.
    apply not_true_iff_false. intros Hu. apply not_true_iff_false in Hs. apply Hs.
    apply existsb_exists. exists x. by rewrite <- list_elem_of_In.
  - intros [-> [Hs Hd]]. unfold names_json. cbn [as_list mbind outcome_bind].
    rewrite (proj2 (Hstr _ _) eq_refl). cbn [mbind outcome_bind].
    assert (existsb (unsafe_identifier false) names = false) as ->.
    { apply not_true_iff_false. intros (x & Hx%list_elem_of_In & Hu)%existsb_exists.
      rewrite Hs in Hu; done. }
    cbn. by rewrite bool_decide_true.
Qed.

(** A dict with distinct keys is the items of its keys. *)
Lemma dict_items (kvs : dict) ks :
  NoDup kvs.*1 → NoDup ks → (list_to_set kvs.*1 : gset pystr) = list_to_set ks →
  kvs ≡ₚ (λ k, (k, field kvs k)) <$> ks.
Proof.
  intros Hnd Hks Heq.
  assert (Hp : kvs.*1 ≡ₚ ks).
  { apply NoDup_Permutation; [done..|]. intros k.
    by rewrite <- (elem_of_list_to_set (C := gset pystr)), Heq, elem_of_list_to_set. }
  rewrite <- Hp, <- list_fmap_compose.
  assert ((λ kv, (kv.1, field kvs kv.1)) <$> kvs = kvs) as Hid.
  { transitivity (id <$> kvs); [|apply list_fmap_id]. apply list_fmap_ext. intros i [k v] Hi. simpl.
    f_equal. unfold field. apply list_elem_of_lookup_2 in Hi.
    by rewrite (dict_get_NoDup kvs k v). }
  by rewrite <- Hid at 1.
Qed.

Lemma field_perm (kvs kvs' : dict) k v :
  NoDup kvs.*1 → kvs ≡ₚ kvs' → (k, v) ∈ kvs' → field kvs k = v.
Proof.
  intros Hnd Hp Hin. unfold field. rewrite (dict_get_NoDup kvs k v); [done|done|].
  by rewrite Hp.
Qed.

Lemma document_keys p l : (document p l).*1 = DOCUMENT_KEYS.
Proof. done. Qed.
Lemma document_keys_once : NoDup DOCUMENT_KEYS.
Proof. apply (bool_decide_unpack _). vm_compute. exact I. Qed.

(** Find an item of a document. *)
Ltac in_document := unfold document; repeat first [apply list_elem_of_here | apply list_elem_of_further].

Section reading.
Context (sha256 : pystr → pystr) `{UnicodeDB} (expected : pystr) (allowed : list pystr).

(** ** Completeness: the document of a valid proof is read *)

Lemma from_document_complete kvs p :
  NoDup kvs.*1 → valid_proof allowed p → digest sha256 p = expected → documents p kvs →
  from_document sha256 (JObj kvs) expected allowed = Ret p.
Proof.
  intros Hnd [Hdb Hfid Hg Hf Hm Ha Hal Hmig Hdj Hadj Hc [Ht Hy]] Hdig (listing & Hl & Hset & Hp).
  assert (Hfield : ∀ k v, (k, v) ∈ document p listing → field kvs k = v)
    by (intros k v; by apply field_perm).
  assert (Hkeys : (list_to_set kvs.*1 : gset pystr) = list_to_set DOCUMENT_KEYS).
  { rewrite <- (document_keys p listing), Hp. done. }
  unfold from_document.
  apply outcome_bind_Ret. exists tt. split; [by apply demand_Ret, bool_decide_eq_true|].
  apply outcome_bind_Ret. eexists. split; [apply as_str_Ret, Hfield; in_document|].
  apply outcome_bind_Ret. exists tt. split; [done|].
  apply outcome_bind_Ret. eexists. split; [apply as_str_Ret, Hfield; in_document|].
  apply outcome_bind_Ret. exists tt. split; [apply demand_Ret; by rewrite Hdb|].
  apply outcome_bind_Ret. eexists. split; [apply as_str_Ret, Hfield; in_document|].
  apply outcome_bind_Ret. exists tt. split; [apply demand_Ret; by rewrite Hfid|].
  apply outcome_bind_Ret. eexists. split; [apply as_str_Ret, Hfield; in_document|].
  apply outcome_bind_Ret. eexists. split; [apply as_list_Ret, Hfield; in_document|].
  apply outcome_bind_Ret. exists listing. split.
  { apply (read_all_Ret _ grant_json (λ g, grant_allowed g = true)); [apply read_grant_Ret|].
    split; [done|]. intros g Hin. apply Hg. rewrite <- Hset. by apply elem_of_list_to_set. }
  apply outcome_bind_Ret. exists tt. split; [by apply demand_Ret, bool_decide_eq_true|].
  apply outcome_bind_Ret. exists (fenced_roles p).
  split; [apply role_list_Ret; split; [apply Hfield; in_document|done]|].
  apply outcome_bind_Ret. exists (member_roles p).
  split; [apply role_list_Ret; split; [apply Hfield; in_document|done]|].
  apply outcome_bind_Ret. exists (absent_roles p).
  split; [apply role_list_Ret; split; [apply Hfield; in_document|done]|].
  apply outcome_bind_Ret. exists tt.
  split; [by apply demand_Ret, bool_decide_eq_true, Forall_forall|].
  apply outcome_bind_Ret. exists tt.
  split; [by apply demand_Ret, negb_true_iff, bool_decide_eq_false|].
  apply outcome_bind_Ret. exists tt.
  split; [by apply demand_Ret, bool_decide_eq_true, Forall_forall|].
  apply outcome_bind_Ret. exists tt.
  split; [by apply demand_Ret, bool_decide_eq_true, Forall_forall|].
  apply outcome_bind_Ret. exists (terminated_count p). split.
  { rewrite (Hfield (lit "terminated_count") (JInt (terminated_count p))); [done|in_document]. }
  apply outcome_bind_Ret. exists tt. split; [by apply demand_Ret, Z.leb_le|].
  apply outcome_bind_Ret. eexists. split; [apply as_str_Ret, Hfield; in_document|].
  apply outcome_bind_Ret. exists (fenced_at p). split; [by rewrite from_iso_utc|].
  apply outcome_bind_Ret. exists tt. split; [by apply demand_Ret, bool_decide_eq_true|].
  rewrite Hset. destruct p as [db fid pa pg fr mr ar tc fa]. cbn in *.
  apply outcome_bind_Ret. exists tt. split; [by apply demand_Ret, bool_decide_eq_true|done].
Qed.

(** ** Soundness: what is read is a valid proof and its document *)

Lemma from_document_sound kvs p :
  NoDup kvs.*1 → from_document sha256 (JObj kvs) expected allowed = Ret p →
  valid_proof allowed p ∧ digest sha256 p = expected ∧ documents p kvs.
Proof.
  intros Hnd. unfold from_document. intros Hr.
  apply outcome_bind_Ret in Hr as (? & Hkeys%demand_Ret%bool_decide_eq_true & Hr).
  apply outcome_bind_Ret in Hr as (schema & Hschema%as_str_Ret & Hr).
  apply outcome_bind_Ret in Hr as (? & ->%demand_Ret%bool_decide_eq_true & Hr).
  apply outcome_bind_Ret in Hr as (db & Hdb%as_str_Ret & Hr).
  apply outcome_bind_Ret in Hr as (? & Hdb'%demand_Ret%negb_true_iff & Hr).
  apply outcome_bind_Ret in Hr as (fid & Hfid%as_str_Ret & Hr).
  apply outcome_bind_Ret in Hr as (? & Hfid'%demand_Ret%negb_true_iff & Hr).
  apply outcome_bind_Ret in Hr as (pa & Hpa%as_str_Ret & Hr).
  apply outcome_bind_Ret in Hr as (entries & Hent%as_list_Ret & Hr).
  apply outcome_bind_Ret in Hr as (listing & Hlist & Hr).
  apply (read_all_Ret _ grant_json (λ g, grant_allowed g = true) _ _ read_grant_Ret) in Hlist
    as [-> Hallowed].
  apply outcome_bind_Ret in Hr as (? & Hnl%demand_Ret%bool_decide_eq_true & Hr).
  apply outcome_bind_Ret in Hr as (fenced & [Hfe Hfok]%role_list_Ret & Hr).
  apply outcome_bind_Ret in Hr as (members & [Hme Hmok]%role_list_Ret & Hr).
  apply outcome_bind_Ret in Hr as (absent & [Hab Haok]%role_list_Ret & Hr).
  apply outcome_bind_Ret in Hr as (? & Hal%demand_Ret%bool_decide_eq_true & Hr).
  apply outcome_bind_Ret in Hr as (? & Hmig%demand_Ret%negb_true_iff%bool_decide_eq_false & Hr).
  apply outcome_bind_Ret in Hr as (? & Hdj%demand_Ret%bool_decide_eq_true & Hr).
  apply outcome_bind_Ret in Hr as (? & Hadj%demand_Ret%bool_decide_eq_true & Hr).
  apply outcome_bind_Ret in Hr as (count & Hcount & Hr).
  destruct (field kvs (lit "terminated_count")) as [| |n| | | |] eqn:Hcf; try discriminate Hcount.
  injection Hcount as ->.
  apply outcome_bind_Ret in Hr as (? & Hpos%demand_Ret%Z.leb_le & Hr).
  apply outcome_bind_Ret in Hr as (raw & Hraw%as_str_Ret & Hr).
  apply outcome_bind_Ret in Hr as (at_ & Hat & Hr).
  destruct (from_iso raw) as [t|] eqn:Hiso; [|discriminate Hat]. injection Hat as ->.
  apply outcome_bind_Ret in Hr as (? & Hcan%demand_Ret%bool_decide_eq_true & Hr).
  apply outcome_bind_Ret in Hr as (? & Hdig%demand_Ret%bool_decide_eq_true & Hr).
  injection Hr as <-. rewrite Forall_forall in Hal, Hdj, Hadj. split_and!; [|done|].
  - split; cbn; try done.
    + intros g Hg%elem_of_list_to_set. auto.
    + by apply from_iso_valid with raw.
  - exists listing. split_and!; [done|done|].
    rewrite (dict_items kvs DOCUMENT_KEYS Hnd document_keys_once Hkeys). unfold DOCUMENT_KEYS.
    rewrite !fmap_cons, Hschema, Hdb, Hfid, Hpa, Hent, Hfe, Hme, Hab, Hcf, Hraw.
    unfold document. cbn [database fence_id prior_acl fenced_roles member_roles absent_roles
      terminated_count fenced_at]. rewrite Hcan. reflexivity.
Qed.
End reading.

(** C32: A document is read exactly when it is the document of a valid proof:
    [from_document] returns a proof if and only if the proof is well formed
    (its names are identifiers, its grants ones a database can hold, its role
    lists disjoint and within the allowed writers, its time a UTC time in the
    canonical spelling), its digest is the expected one, and the document's
    items are the proof's, in any order of keys and of grants. *)
Theorem document_exact (sha256 : pystr → pystr) `{UnicodeDB} kvs expected allowed p :
  NoDup kvs.*1 →
  from_document sha256 (JObj kvs) expected allowed = Ret p ↔
  valid_proof allowed p ∧ digest sha256 p = expected ∧ documents p kvs.
Proof.
  intros Hnd. split; [by apply from_document_sound|].
  intros (Hv & Hd & Hk). by apply from_document_complete.
Qed.
