(* ===== verification/FenceWire.v ===== *)
(** * A fence across processes

    The proof a fence returns travels as its document: every such proof can be
    written and read back by the process that restores. *)

From stdpp Require Import gmap.
From S2P Require Import Prelude PyText Json PyDate Effects Fence FenceSafety FenceOutcomes FenceDocument.
Import FenceRefusalCode.

#[local] Open Scope Z_scope.

(** What a cluster's names and grants look like: identifiers, memberships
    outside the roles asked about and of existing roles, the privileges a
    database has. *)
Record well_named {W} `{Server W} (view : ∀ A, stmt A → W → A) (w : W) : Prop := WellNamed {
  named_database db : view _ (SelectDatabase db) w = true → unsafe_identifier false db = false;
  named_grants db g : g ∈ acl view db w → grant_allowed g = true;
  named_members ws m :
    m ∈ view _ (SelectMembers ws) w →
    unsafe_identifier false m = false ∧ (m ∉ ws) ∧
    ∀ roles, m ∈ roles → m ∈ view _ (SelectRoles roles) w;
}.
(** A clock set after the year 1000. *)
Class SaneClock (W : Type) `{Server W} : Prop :=
  sane_clock w : valid_time (utc w).1 ∧ 1000 ≤ year (dt_date (utc w).1).

Section wire.
Context {W : Type} `{Server W} `{UnicodeDB} (view : ∀ A, stmt A → W → A) `{!Undisturbed view}
  `{!SaneClock W} (sha256 : pystr → pystr).
#[local] Abbreviation proc := (proc W failure).

(** What the checks of a fence have established about its roles. *)
Lemma check_fence_roles db fid roles p x w r w' :
  check_fence db fid roles p x w = (Ret r, w') →
  invalid_fence_id fid = false ∧ view _ (SelectDatabase db) w = true ∧ NoDup roles ∧
  (∀ m, m ∈ r_effective r → m ≠ MIGRATION_ROLE) ∧
  r_members r = members_view view (r_fenced r) w ∧
  r_fenced r = filter (λ r, r ∈ (if bool_decide (roles = []) then []
                                 else view _ (SelectRoles roles) w)) roles ∧
  r_absent r = filter (λ r, r ∉ (if bool_decide (roles = []) then []
                                 else view _ (SelectRoles roles) w)) roles.
Proof.
  intros Hc. pose proof (check_fence_members view _ _ _ _ _ _ _ _ Hc) as Hm.
  assert (Hkeep : ∀ B (q : stmt B), lasting q = true → view _ q w' = view _ q w).
  { intros B q Hq. eapply keeps_out; [|exact Hc]. frame. }
  unfold members_view in Hm. rewrite Hkeep in Hm by done. fold (members_view view (r_fenced r) w) in Hm.
  unfold check_fence in Hc.
  apply bind_Ret in Hc as (? & w1 & H1 & Hc).
  apply bind_Ret in Hc as (? & w2 & H2 & Hc).
  apply bind_Ret in Hc as (? & w3 & H3 & Hc).
  apply bind_Ret in Hc as (? & w4 & H4 & Hc).
  apply bind_Ret in Hc as (? & w5 & H5 & Hc).
  apply bind_Ret in Hc as (existing & w6 & H6 & Hc).
  assert (Hex : existing = (if bool_decide (roles = []) then [] else view _ (SelectRoles roles) w)).
  { unfold existing_roles in H6. case_bool_decide; [by apply mret_eq in H6 as [[= ->] _]|].
    apply view_read in H6 as ->.
    repeat first [reflexivity|match goal with
    | Hm : ?m ?v = (_, ?v') |- view _ ?q ?v' = _ =>
        transitivity (view _ q v);
          [eapply keeps_out; [|exact Hm];
           unfold reject_invalid_fence_id, database_exists, require_code; frame|]
    end]. }
  apply require_Ret in H2 as [Hfid ->]. apply negb_true_iff in Hfid.
  assert (Hdb : view _ (SelectDatabase db) w = true).
  { apply require_Ret in H4 as [-> ->]. apply view_read in H3. rewrite H3. symmetry.
    eapply keeps_out; [|exact H1]. frame. }
  rewrite <- Hex. clear H1 H3 H4 H5 H6 Hex.
  repeat (apply bind_Ret in Hc as (? & ? & ? & Hc)).
  apply mret_eq in Hc as [[= ->] ->]. cbn [r_members r_fenced r_absent r_effective] in *.
  match goal with Hs : reject_shared_writer_roles _ _ ?v = (Ret _, _) |- _ => rename Hs into Hsh end.
  unfold reject_shared_writer_roles in Hsh.
  apply bind_Ret in Hsh as (? & ? & Hdup & Hsh). apply require_Ret in Hdup as [Hdup ->].
  split_and!; try done.
  - apply negb_true_iff, bool_decide_eq_false in Hdup. by apply dec_stable.
  - unfold r_effective. cbn [r_fenced r_members].
    match type of Hsh with for_each _ ?l ?v = (_, ?v') =>
      revert Hsh; generalize l, v; intros l0 v0 Hsh end.
    revert v0 Hsh. induction l0 as [|r l IH]; intros v0 Hsh m Hm'; [by apply elem_of_nil in Hm'|].
    cbn [for_each] in Hsh. apply bind_Ret in Hsh as (? & ? & Hr & Hsh).
    apply elem_of_cons in Hm' as [->|Hm']; [|by eapply IH].
    apply bind_Ret in Hr as (? & ? & Hne & _). apply require_Ret in Hne as [Hne _].
    by apply negb_true_iff, bool_decide_eq_false in Hne.
Qed.

Lemma in_fromkeys l x : x ∈ fromkeys l ↔ x ∈ l.
Proof.
  induction l as [|y l IH]; simpl; [done|].
  rewrite !elem_of_cons, list_elem_of_filter, IH. destruct (decide (x = y)); tauto.
Qed.

(** A drain counts the sessions it found. *)
Lemma drain_count db roles wait t w k w' :
  terminate_and_drain db roles wait t w = (Ret k, w') → 0 ≤ k.
Proof.
  assert (Hloop : ∀ n deadline k0 v, drain_loop n db roles wait deadline t k0 v = (Ret k, w') → k = k0).
  { induction n as [|n IH]; intros deadline k0 v Hl; [done|]. cbn [drain_loop] in Hl.
    apply bind_Ret in Hl as (pids & v1 & _ & Hl). apply bind_Ret in Hl as (gone & v2 & _ & Hl).
    destruct gone; [by apply mret_eq in Hl as [[= ->] _]|].
    repeat (apply bind_Ret in Hl as (? & ? & _ & Hl)). by eapply IH. }
  unfold terminate_and_drain. case_bool_decide; [by intros [[= ->] _]%mret_eq|].
  intros Hd. do 3 apply bind_Ret in Hd as (? & ? & _ & Hd). apply Hloop in Hd as ->. lia.
Qed.

(** The proof of a first fence can be written. *)
Lemma fence_valid db fid roles wait x t w p w' :
  well_named view w → (∀ r, r ∈ roles → unsafe_identifier false r = false) →
  fence_writers db fid roles wait None x t w = (Ret p, w') → valid_proof roles p.
Proof.
  intros Hnames Hsafe Hf. unfold fence_writers in Hf.
  apply bind_Ret in Hf as (r & wc & Hc & Hf). cbv zeta in Hf.
  apply try_Ret in Hf as [Ha|(e & v & _ & Hcomp)]; [|by apply compensate_Ret in Hcomp].
  pose proof (check_fence_grants view _ _ _ _ _ _ _ _ Hc) as Hg.
  apply check_fence_roles in Hc as (Hfid & Hdb & Hnd & Hmig & Hmem & Hfen & Habs).
  unfold apply_fence in Ha. repeat (apply bind_Ret in Ha as (? & ? & ? & Ha)).
  apply mret_eq in Ha as [[= ->] ->].
  set (existing := if bool_decide (roles = []) then [] else view _ (SelectRoles roles) w) in *.
  assert (Hmspec : ∀ m, m ∈ r_members r → unsafe_identifier false m = false ∧
    (m ∉ r_fenced r) ∧ (m ∈ roles → m ∈ existing)).
  { intros m. rewrite Hmem. unfold members_view. destruct (bool_decide (r_fenced r = [])).
    - by intros ?%elem_of_nil.
    - unfold sorted_names. rewrite sort_by_perm, elem_of_elements, elem_of_list_to_set.
      intros (Hs & Hn & Hin)%(named_members _ _ Hnames). split_and!; [done..|].
      intros Hr. unfold existing. rewrite bool_decide_false; [auto|].
      intros Hn'. rewrite Hn' in Hr. by apply elem_of_nil in Hr. }
  split; cbn [database fence_id prior_grants fenced_roles member_roles absent_roles
              terminated_count fenced_at].
  - by apply (named_database _ _ Hnames).
  - done.
  - intros g. rewrite Hg. by apply (named_grants _ _ Hnames).
  - rewrite Hfen. split; [|by apply NoDup_filter].
    intros m [_ Hm]%list_elem_of_filter. auto.
  - split; [intros m Hm; by apply Hmspec|]. rewrite Hmem. unfold members_view.
    destruct (bool_decide (r_fenced r = [])); [constructor|].
    unfold sorted_names. rewrite sort_by_perm. apply NoDup_elements.
  - rewrite Habs. split; [|by apply NoDup_filter].
    intros m [_ Hm]%list_elem_of_filter. auto.
  - intros m. rewrite Hfen. by intros [_ Hm]%list_elem_of_filter.
  - intros Hin. apply (Hmig MIGRATION_ROLE); [|done]. unfold r_effective.
    apply in_fromkeys, elem_of_app. by right.
  - intros m Hm. by apply Hmspec.
  - intros m. rewrite Habs. intros [Hn Hm]%list_elem_of_filter [Hx|Hx]%elem_of_app.
    + rewrite Hfen in Hx. by apply list_elem_of_filter in Hx as [Hx _].
    + apply Hmspec in Hx as (_ & _ & Hx). auto.
  - match goal with Hd : terminate_and_drain _ _ _ _ _ = _ |- _ => by apply drain_count in Hd end.
  - match goal with Hn : now_utc ?v = (Ret ?a, _) |- _ =>
      assert (a = (utc v).1) as -> by (unfold now_utc in Hn; destruct (utc v); by simplify_eq) end.
    apply sane_clock.
Qed.
End wire.

(** C33: Every proof a first fence returns survives the wire: its document, in
    any order of keys and grants, is read back as the same proof by a process
    that expects its digest and allows the writers that were fenced. *)
Theorem fence_proof_wire {W} `{Server W} `{UnicodeDB} view `{!Undisturbed view} `{!SaneClock W}
    (sha256 : pystr → pystr) db fid roles wait x t w p w' kvs :
  well_named view w → (∀ r, r ∈ roles → unsafe_identifier false r = false) →
  fence_writers db fid roles wait None x t w = (Ret p, w') →
  NoDup kvs.*1 → documents p kvs →
  from_document sha256 (JObj kvs) (digest sha256 p) roles = Ret p.
Proof.
  intros Hnames Hsafe Hf Hnd Hk. apply from_document_complete; try done.
  by eapply (fence_valid view).
Qed.

Lemma documents_own p : documents p (document p (sorted_grants (prior_grants p))).
Proof.
  exists (sorted_grants (prior_grants p)). split_and!; [| |done].
  - unfold sorted_grants. rewrite sort_by_perm. apply NoDup_elements.
  - apply set_eq. intros g. unfold sorted_grants.
    by rewrite elem_of_list_to_set, sort_by_perm, elem_of_elements.
Qed.

(** ** On the demo cluster *)

#[export] Instance demo_sane : SaneClock cluster.
Proof. intros w. split; [split; [reflexivity|cbn; lia]|cbn; lia]. Qed.

Lemma cluster0_named : well_named (@answer) cluster0.
Proof.
  split.
  - intros db Hd%bool_decide_eq_true. subst. vm_compute. reflexivity.
  - intros db g. unfold acl. rewrite elem_of_list_to_set. cbn [answer].
    case_bool_decide; [|by intros ?%elem_of_nil]. intros Hg.
    assert (Hall : forallb grant_allowed (c_acl cluster0) = true) by (vm_compute; reflexivity).
    rewrite forallb_forall in Hall. by apply Hall, list_elem_of_In.
  - intros ws m. cbn [answer]. intros [Hn Hm]%list_elem_of_filter.
    apply list_elem_of_fmap in Hm as ([m' r] & -> & [_ Hm]%list_elem_of_filter).
    apply list_elem_of_singleton in Hm. injection Hm as -> ->. simpl in *.
    split; [vm_compute; reflexivity|]. split; [done|].
    intros roles Hr. apply list_elem_of_filter. split; [done|]. set_solver.
Qed.

(** A stand-in for the hash: the length of the text, in digits. *)
Definition toy_hash (b : pystr) : pystr := str_of_nat (length b).
Definition wire0 : dict := reverse (document proof0 (sorted_grants (prior_grants proof0))).

Theorem fence_proof_wire_witness :
  digest toy_hash proof0 = lit "sha256:462" ∧
  from_document toy_hash (JObj wire0) (lit "sha256:462") WRITER_ROLES = Ret proof0.
Proof.
  assert (Hd : digest toy_hash proof0 = lit "sha256:462") by (vm_compute; reflexivity).
  assert (Hsafe : ∀ r, r ∈ WRITER_ROLES → unsafe_identifier false r = false).
  { intros r Hr. apply not_true_iff_false. intros Hu.
    assert (Hall : existsb (unsafe_identifier false) WRITER_ROLES = false) by (vm_compute; reflexivity).
    apply not_true_iff_false in Hall. apply Hall, existsb_exists. exists r.
    split; [apply list_elem_of_In, Hr|exact Hu]. }
  assert (Hnd : NoDup wire0.*1) by (apply (bool_decide_unpack _); vm_compute; exact I).
  assert (Hdoc : documents proof0 wire0).
  { destruct (documents_own proof0) as (l & Hl & Hs & Hp). exists l. split; [exact Hl|]. split; [exact Hs|].
    unfold wire0. rewrite reverse_Permutation. exact Hp. }
  split; [exact Hd|].
  pose proof (fence_proof_wire (@answer) toy_hash _ _ _ _ _ _ _ _ _ wire0
    cluster0_named Hsafe demo_fence_runs Hnd Hdoc) as H.
  rewrite Hd in H. exact H.
Defined.

(** The same document with its grants listed backwards. *)
Definition backwards0 : dict := document proof0 (reverse (sorted_grants (prior_grants proof0))).

Lemma backwards0_read :
  from_document toy_hash (JObj backwards0) (lit "sha256:462") WRITER_ROLES = Ret proof0.
Proof.
  vm_cast_no_check (eq_refl (from_document toy_hash (JObj backwards0) (lit "sha256:462") WRITER_ROLES)).
Qed.

Lemma backwards0_keys : NoDup backwards0.*1.
Proof. apply (bool_decide_unpack _). vm_compute. exact I. Qed.

Theorem document_exact_witness :
  from_document toy_hash (JObj backwards0) (lit "sha256:462") WRITER_ROLES = Ret proof0 ∧
  valid_proof WRITER_ROLES proof0 ∧ documents proof0 backwards0.
Proof.
  destruct (proj1 (document_exact toy_hash backwards0 (lit "sha256:462") WRITER_ROLES proof0
    backwards0_keys) backwards0_read) as (Hv & _ & Hd).
  exact (conj backwards0_read (conj Hv Hd)).
Defined.
