(* ===== verification/Contracts.v ===== *)
(** * The deploy agent's contracts

    [deploy_agent/contracts.py]: the closed, typed documents that the control
    plane and a host exchange, the checker of their shape, canonical JSON and
    its digests, base64, the validators, and the envelopes that carry a signed
    document.  Ed25519 and sha256 are the class [Crypto]. *)

From S2P Require Import Prelude PyText PyUuid PyDate PyTime Json JsonReader JsonRound.

#[local] Open Scope Z_scope.

(** ** Refusals *)

(** [ContractError(code)]. *)
Definition refusal (code : string) : exn := Exn ContractError code.
Definition schema_violation : exn := refusal "schema_violation".
Definition require (b : bool) (code : string) : res unit := ensure b (refusal code).

(** [except ValueError: raise ContractError(code)], also of a [ContractError],
    which is a [ValueError]. *)
Definition value_error_as {A} (code : string) (m : res A) : res A :=
  match m with
  | Raise e => if bool_decide (exn_kind e = ContractError ∨ exn_kind e = ValueError)
               then Raise (refusal code) else Raise e
  | m => m
  end.

(** ** Shapes *)

(** The patterns of the annotated texts. *)
Inductive pattern := BoundedText | Digest | Revision | Identifier | UUIDText | Nonce.

Definition hex_lower (c : Z) : bool := between 48 57 c || between 97 102 c.
Definition alnum (c : Z) : bool := between 48 57 c || between 65 90 c || between 97 122 c.

Definition fullmatch (p : pattern) (s : pystr) : bool :=
  match p with
  | BoundedText => bool_decide (1 ≤ length s ≤ 2048)%nat
  | Digest =>
      starts_with (lit "sha256:") s && bool_decide (length s = 71%nat) && forallb hex_lower (drop 7 s)
  | Revision => bool_decide (length s = 40%nat) && forallb hex_lower s
  | Identifier =>
      match s with
      | c :: s => alnum c && forallb (λ c, alnum c || bool_decide (c ∈ [95; 46; 45])) s &&
                  bool_decide (length s ≤ 199)%nat
      | [] => false
      end
  | UUIDText =>
      bool_decide (length s = 36%nat) &&
      forallb (λ i, match s !! i with
                    | Some c => if bool_decide (i ∈ [8; 13; 18; 23]%nat) then c =? 45 else hex_lower c
                    | None => false
                    end) (seq 0 36)
  | Nonce => bool_decide (length s = 64%nat) && forallb hex_lower s
  end.

(** The annotations of a typed document; a field of a [TypedDict] is marked
    when it is [NotRequired]. *)
#[local] Set Warnings "-register-all".
Inductive hint :=
  | TStr | TInt | TBool | TNone
  | TText (p : pattern)
  | TLit (l : list json)
  | TUnion (l : list hint)
  | TDict (k v : hint)
  | TList (v : hint)
  | TTyped (fields : list (pystr * (bool * hint))).

Fixpoint shape (h : hint) (v : json) {struct h} : bool :=
  match h with
  | TStr => match v with JStr _ => true | _ => false end
  | TInt => match v with JInt _ => true | _ => false end
  | TBool => match v with JBool _ => true | _ => false end
  | TNone => match v with JNull => true | _ => false end
  | TText p => match v with JStr s => fullmatch p s | _ => false end
  | TLit l => bool_decide (v ∈ l)
  | TUnion hs => existsb (λ h, shape h v) hs
  | TDict kh vh =>
      match v with
      | JObj kvs => forallb (λ kv, shape kh (JStr kv.1) && shape vh kv.2) kvs
      | _ => false
      end
  | TList h => match v with JArr l => forallb (shape h) l | _ => false end
  | TTyped fields =>
      match v with
      | JObj kvs =>
          let checks := map (λ f, (f.1, shape f.2.2)) fields in
          forallb (λ f, f.2.1 || bool_decide (f.1 ∈ kvs.*1)) fields &&
          forallb (λ kv, match dict_get checks kv.1 with Some check => check kv.2 | None => false end) kvs
      | _ => false
      end
  end.

(** [_shape(value, annotation)]. *)
Definition _shape (v : json) (h : hint) : res unit := ensure (shape h v) schema_violation.

Definition identifier (v : json) : res unit := _shape v (TText Identifier).
Definition sha (v : json) (prefix : bool) : res unit :=
  _shape v (TText (if prefix then Digest else Revision)).

(** [exact(value, fields)]. *)
Definition same_keys (a b : list pystr) : bool :=
  bool_decide (Forall (λ k, k ∈ b) a) && bool_decide (Forall (λ k, k ∈ a) b).
Definition exact (v : json) (fields : list pystr) : res unit :=
  require (match v with JObj kvs => same_keys kvs.*1 fields | _ => false end) "schema_violation".

(** ** Documents *)

Definition field (k : string) (h : hint) : pystr * (bool * hint) := (lit k, (false, h)).
Definition optional (k : string) (h : hint) : pystr * (bool * hint) := (lit k, (true, h)).
Definition literal (s : string) : hint := TLit [JStr (lit s)].
Definition or_none (h : hint) : hint := TUnion [h; TNone].
Definition text_of (p : pattern) : hint := TText p.

Definition ConfigPath : hint :=
  TLit [JStr (lit "docker-compose.yml"); JStr (lit "docker-compose.override.yml")].
Definition Disposition : hint :=
  TLit (JStr <$> [lit "applied"; lit "already_applied"; lit "refused"; lit "failed"; lit "rolled_back"]).

Definition MigrationPolicy : hint := TTyped
  [field "mode" (literal "upgrade_heads");
   optional "expected_heads" (TList (TText Identifier))].
Definition Approval : hint := TTyped
  [field "environment" (literal "staging"); field "actor" (TText BoundedText); field "run_id" TInt].
Definition DesiredSummary : hint := TTyped
  [field "nonce" TStr; field "plan_digest" (TText Digest); field "image_digest" (TText Digest);
   field "source_revision" (TText Revision); field "config_digest" (TText Digest)].

Definition HostIdentity_fields :=
  [field "product" (literal "dotmac_sub"); field "environment" (literal "staging");
   field "host" (TText Identifier);
   field "image_reference" (literal "ghcr.io/michaelayoade/dotmac_sub")].
Definition Plan_fields := HostIdentity_fields ++
  [field "image_digest" (TText Digest); field "from_image_digest" (TText Digest);
   field "source_revision" (TText Revision); field "source_tree" (TText Revision);
   field "product_manifest_digest" (TText Digest); field "build_run_id" TInt;
   field "evidence_run_id" TInt; field "config_digest" (TText Digest);
   field "config_files" (TDict ConfigPath (TText Digest)); field "migration_policy" MigrationPolicy].
Definition Plan : hint := TTyped Plan_fields.
Definition DESIRED_SCHEMA : pystr := lit "dotmac.desired_state/1".
Definition APPLIED_SCHEMA : pystr := lit "dotmac.deploy_applied_state/1".
Definition CHALLENGE_SCHEMA : pystr := lit "dotmac.deploy_host_challenge/1".
Definition POSSESSION_SCHEMA : pystr := lit "dotmac.deploy_host_possession/1".
Definition DesiredState : hint := TTyped (Plan_fields ++
  [field "schema" (TLit [JStr DESIRED_SCHEMA]); field "deployment_ref" TStr;
   field "plan_digest" (TText Digest); field "approvals" (TList Approval); field "nonce" TStr;
   field "issued_at" TStr; field "expires_at" TStr; field "signer_key_id" (TText Identifier)]).

Definition Observed : hint := TTyped
  [field "running_image" (or_none (TText BoundedText));
   field "running_revision_label" (or_none (TText BoundedText));
   field "pinned_image" (or_none (TText BoundedText));
   field "pinned_git_sha" (or_none (TText BoundedText));
   field "config_files" (TDict ConfigPath (TText Digest));
   field "migration_heads" (TList (TText Identifier))].
Definition HttpHealth_fields :=
  [field "url" (TText BoundedText); field "status" (or_none TInt); field "checked_at" TStr].
Definition HttpHealth : hint := TTyped HttpHealth_fields.
Definition ReadyHealth : hint :=
  TTyped (HttpHealth_fields ++ [field "body_status" (or_none (TText BoundedText))]).
Definition BackgroundHealth : hint := TTyped
  [field "celery_inspect_ok" TBool;
   field "containers" (TDict (TText Identifier) (TText BoundedText));
   field "restart_counts_zero" TBool].
Definition Health : hint := TTyped
  [field "live" HttpHealth; field "ready" ReadyHealth; field "background" BackgroundHealth].
Definition DeployReceipt : hint := TTyped
  [field "exit_code" (or_none TInt); field "receipt_line" (or_none (TText BoundedText))].
Definition AgentIdentity : hint := TTyped
  [field "version" (TText BoundedText); field "artifact_digest" (TText Digest)].
Definition AppliedState : hint := TTyped
  [field "schema" (TLit [JStr APPLIED_SCHEMA]); field "report_id" TStr;
   field "deployment_ref" (TText BoundedText); field "host_key_id" (TText Identifier);
   field "signer_keyring_generation" TInt; field "desired" DesiredSummary;
   field "disposition" Disposition; field "reason" (or_none TStr); field "observed" Observed;
   field "health" Health; field "deploy_receipt" DeployReceipt; field "observed_at" TStr;
   field "agent" AgentIdentity].

Definition ChallengeFacts_fields :=
  [field "key_id" (TText Identifier); field "deployment_ref" (TText BoundedText);
   field "nonce" TStr; field "expires_at" TStr].
Definition Challenge : hint :=
  TTyped (ChallengeFacts_fields ++ [field "schema" (TLit [JStr CHALLENGE_SCHEMA])]).
Definition Possession : hint := TTyped (ChallengeFacts_fields ++
  [field "schema" (TLit [JStr POSSESSION_SCHEMA]); field "observed_image_digest" (TText Digest)]).
Definition Envelope : hint := TTyped
  [field "schema" TStr; field "key_id" (TText Identifier); field "payload_b64" TStr;
   field "signature_b64" TStr].

Definition DESIRED_FIELDS : list pystr :=
  match DesiredState with TTyped fs => fs.*1 | _ => [] end.
Definition PLAN_FIELDS : list pystr := Plan_fields.*1.
Definition CONFIG_PATHS : list pystr := [lit "docker-compose.yml"; lit "docker-compose.override.yml"].
Definition REASONS : list pystr :=
  lit <$> ["bad_signature"; "unknown_signer_key"; "schema_violation"; "from_image_mismatch";
    "host_mismatch"; "expired"; "nonce_replay"; "plan_digest_mismatch"; "cosign_verify_failed";
    "attestation_identity_mismatch"; "signature_missing"; "attestation_missing"; "config_drift";
    "checkout_drift"; "rollback_digest"; "health_gate_failed"; "interrupted"; "observed_mismatch";
    "executor_failed"; "executor_timeout"]%string.

(** ** Canonical JSON *)

(** [json.dumps(..., allow_nan=False)] writes every document but one with an
    infinite float or an integer of too many digits. *)
Fixpoint dumpable (j : json) : bool :=
  match j with
  | JInt n => bool_decide (Z.abs n < INT_LIMIT)
  | JFloat r => bool_decide (r ∉ [lit "inf"; lit "-inf"])
  | JArr l => forallb dumpable l
  | JObj kvs => forallb (λ kv, dumpable kv.2) kvs
  | _ => true
  end.
Definition canonical_json (j : json) : res bytes :=
  ensure (dumpable j) schema_violation;; Ok (dumps_compact j).

Definition read_json `{Floats} (raw : bytes) : res json :=
  match loads raw with
  | Some (JObj kvs) => Ok (JObj kvs)
  | _ => Raise schema_violation
  end.

(** ** Base64 *)

Definition b64_char (n : Z) : Z :=
  if n <? 26 then 65 + n else if n <? 52 then 71 + n else if n <? 62 then n - 4
  else if n =? 62 then 45 else 95.
Definition b64_value (c : Z) : option Z :=
  if between 65 90 c then Some (c - 65) else if between 97 122 c then Some (c - 71)
  else if between 48 57 c then Some (c + 4) else if c =? 45 then Some 62
  else if c =? 95 then Some 63 else None.

(** [base64.urlsafe_b64encode(raw).rstrip(b"=")]. *)
Fixpoint b64 (raw : bytes) : pystr :=
  match raw with
  | a :: b :: c :: raw =>
      b64_char (a / 4) :: b64_char (a mod 4 * 16 + b / 16) :: b64_char (b mod 16 * 4 + c / 64) ::
      b64_char (c mod 64) :: b64 raw
  | [a; b] => [b64_char (a / 4); b64_char (a mod 4 * 16 + b / 16); b64_char (b mod 16 * 4)]
  | [a] => [b64_char (a / 4); b64_char (a mod 4 * 16)]
  | [] => []
  end.

(** [base64.b64decode] of a text whose padding was put back. *)
Fixpoint b64_decode (s : pystr) : option bytes :=
  match s with
  | w :: x :: y :: z :: s =>
      w ← b64_value w; x ← b64_value x; y ← b64_value y; z ← b64_value z; t ← b64_decode s;
      Some (w * 4 + x / 16 :: x mod 16 * 16 + y / 4 :: y mod 4 * 64 + z :: t)
  | [w; x; y] =>
      w ← b64_value w; x ← b64_value x; y ← b64_value y;
      Some [w * 4 + x / 16; x mod 16 * 16 + y / 4]
  | [w; x] => w ← b64_value w; x ← b64_value x; Some [w * 4 + x / 16]
  | [_] => None
  | [] => Some []
  end.

Definition unb64 (s : pystr) : res bytes :=
  require (negb (bool_decide (s = [])) &&
           forallb (λ c, alnum c || (c =? 45) || (c =? 95)) s) "schema_violation";;
  raw ← of_option (b64_decode s) schema_violation;
  require (bool_decide (b64 raw = s)) "schema_violation";;
  Ok raw.

Definition timestamp (s : pystr) : res Z :=
  of_option (instant <$> read_moment s) schema_violation.

(** ** Reading a document whose shape is known *)

(** [v[k]]. *)
Definition dot (v : json) (k : string) : json :=
  match v with JObj kvs => default JNull (dict_get kvs (lit k)) | _ => JNull end.
Definition str_of (v : json) : pystr := match v with JStr s => s | _ => [] end.
Definition int_of (v : json) : Z := match v with JInt n => n | _ => 0 end.
Definition list_of (v : json) : list json := match v with JArr l => l | _ => [] end.
Definition items_of (v : json) : dict := match v with JObj kvs => kvs | _ => [] end.
(** [bool(v)] of a flag. *)
Definition bool_of (v : json) : bool := match v with JBool b => b | _ => false end.

(** ** Signed documents *)

(** What the code calls of [hashlib] and of the cryptography package. *)
Class Crypto := {
  sha256 : bytes → pystr;
  (** [Ed25519PublicKey.from_public_bytes] takes the bytes *)
  ed_public : bytes → bool;
  (** [key.verify(signature, message)] raises nothing *)
  ed_verify : bytes → bytes → bytes → bool;
}.

Inductive kind := DESIRED | APPLIED | CHALLENGE | POSSESSION.
#[export] Instance kind_eq_dec : EqDecision kind.
Proof. solve_decision. Defined.

(** [DOMAINS]: the schema of the envelope and the prefix of what is signed. *)
Definition envelope_schema (k : kind) : pystr :=
  match k with
  | DESIRED => lit "dotmac-desired-state-envelope/1"
  | APPLIED => lit "dotmac-applied-state-envelope/1"
  | CHALLENGE => lit "dotmac-deploy-challenge-envelope/1"
  | POSSESSION => lit "dotmac-deploy-possession-envelope/1"
  end.
Definition domain (k : kind) : bytes :=
  match k with
  | DESIRED => lit "dotmac-desired-state/1"
  | APPLIED => lit "dotmac-deploy-applied-state/1"
  | CHALLENGE => lit "dotmac-deploy-challenge/1"
  | POSSESSION => lit "dotmac-deploy-possession/1"
  end ++ [0].
Definition KEY_FIELDS (k : kind) : string :=
  match k with
  | DESIRED => "signer_key_id"
  | APPLIED => "host_key_id"
  | CHALLENGE | POSSESSION => "key_id"
  end.

(** [struct.pack(">I", n)]. *)
Definition pack_be32 (n : Z) : res bytes :=
  ensure (n <? 2 ^ 32) (Exn StructError "'I' format requires 0 <= number <= 4294967295");;
  Ok [n / 16777216; n / 65536 mod 256; n / 256 mod 256; n mod 256].

Definition signing_input (k : kind) (key_id : pystr) (payload : bytes) : res bytes :=
  identifier (JStr key_id);;
  key_len ← pack_be32 (Z.of_nat (length key_id));
  payload_len ← pack_be32 (Z.of_nat (length payload));
  Ok (domain k ++ key_len ++ key_id ++ payload_len ++ payload).

Section contracts.
Context `{Crypto} `{Floats} `{UnicodeDB}.

Definition digest (j : json) : res pystr :=
  raw ← canonical_json j; Ok (lit "sha256:" ++ sha256 raw).

(** [plan_document] and [plan_digest] of a desired state or a plan. *)
Definition plan_document (doc : json) : json :=
  JObj ((λ k, (k, default JNull (dict_get (items_of doc) k))) <$> PLAN_FIELDS).
Definition plan_digest (doc : json) : res pystr := digest (plan_document doc).

(** [len(unb64(nonce)) >= 16]. *)
Definition long_nonce (nonce : pystr) : res unit :=
  raw ← unb64 nonce; require (bool_decide (16 ≤ length raw)%nat) "schema_violation".

Definition validate_desired (doc : json) (now : option Z) (identity : option json)
    (approved_plan_digest : option pystr) : res unit :=
  _shape doc DesiredState;;
  let text k := str_of (dot doc k) in
  require (bool_decide (text "deployment_ref" =
    join (lit "/") [text "product"; text "environment"; text "host"])) "schema_violation";;
  require ((0 <? int_of (dot doc "build_run_id")) && (0 <? int_of (dot doc "evidence_run_id")))
    "schema_violation";;
  require (same_keys (items_of (dot doc "config_files")).*1 CONFIG_PATHS) "schema_violation";;
  config ← digest (dot doc "config_files");
  require (bool_decide (text "config_digest" = config)) "schema_violation";;
  require (negb (bool_decide (list_of (dot doc "approvals") = [])) &&
           forallb (λ a, 0 <? int_of (dot a "run_id")) (list_of (dot doc "approvals")))
    "schema_violation";;
  let heads := list_of (dot (dot doc "migration_policy") "expected_heads") in
  require (bool_decide (NoDup heads)) "schema_violation";;
  long_nonce (text "nonce");;
  issued ← timestamp (text "issued_at");
  expires ← timestamp (text "expires_at");
  require ((0 <? expires - issued) && (expires - issued <=? DAY)) "schema_violation";;
  match now with
  | Some now =>
      limit ← shift now (300 * SECOND);
      require ((issued <=? limit) && (now <? expires)) "expired"
  | None => Ok tt
  end;;
  match identity with
  | Some identity =>
      require (forallb (λ k, bool_decide (dot doc k = dot identity k))
        ["product"; "environment"; "host"; "image_reference"]%string) "host_mismatch"
  | None => Ok tt
  end;;
  plan ← plan_digest doc;
  require (bool_decide (text "plan_digest" = plan)) "plan_digest_mismatch";;
  match approved_plan_digest with
  | Some approved => require (bool_decide (text "plan_digest" = approved)) "plan_digest_mismatch"
  | None => Ok tt
  end.

(** [100 <= status <= 599], or no status. *)
Definition status_ok (v : json) : bool :=
  match v with JInt n => (100 <=? n) && (n <=? 599) | _ => true end.

Definition validate_applied (doc : json) : res unit :=
  _shape doc AppliedState;;
  let text k := str_of (dot doc k) in
  let components := split_on 47 (text "deployment_ref") in
  require (bool_decide (length components = 3%nat)) "schema_violation";;
  mapM (λ c, identifier (JStr c)) components;;
  value_error_as "schema_violation"
    (u ← UUID (text "report_id");
     require (bool_decide (uuid_str u = text "report_id")) "schema_violation");;
  require (0 <? int_of (dot doc "signer_keyring_generation")) "schema_violation";;
  long_nonce (str_of (dot (dot doc "desired") "nonce"));;
  require
    (if bool_decide (text "disposition" ∈ [lit "refused"; lit "failed"])
     then bool_decide (dot doc "reason" ∈ JStr <$> REASONS)
     else bool_decide (dot doc "reason" = JNull)) "schema_violation";;
  mapM (λ health,
    timestamp (str_of (dot health "checked_at"));;
    require (status_ok (dot health "status")) "schema_violation")
    [dot (dot doc "health") "live"; dot (dot doc "health") "ready"];;
  timestamp (text "observed_at");;
  Ok tt.

Definition validate_challenge (doc : json) (now : option Z) : res unit :=
  _shape doc Challenge;;
  long_nonce (str_of (dot doc "nonce"));;
  expires ← timestamp (str_of (dot doc "expires_at"));
  match now with
  | Some now => require (now <? expires) "expired"
  | None => Ok tt
  end.

(** The challenge a possession answers: [{**challenge, "schema": CHALLENGE}]. *)
Definition challenge_of (doc : json) : json :=
  JObj (dict_set (filter (λ kv, kv.1 ≠ lit "observed_image_digest") (items_of doc))
          (lit "schema") (JStr CHALLENGE_SCHEMA)).
Definition validate_possession (doc : json) (now : option Z) : res unit :=
  _shape doc Possession;; validate_challenge (challenge_of doc) now.

(** [VALIDATORS[kind](doc)]. *)
Definition validate (k : kind) (doc : json) : res unit :=
  match k with
  | DESIRED => validate_desired doc None None None
  | APPLIED => validate_applied doc
  | CHALLENGE => validate_challenge doc None
  | POSSESSION => validate_possession doc None
  end.

(** A signer; one that belongs to a host knows its deployment. *)
Record Signer := {
  signer_key_id : pystr;
  sign : bytes → bytes;
  signer_deployment_ref : option pystr;
}.

Definition seal (k : kind) (doc : json) (signer : Signer) : res json :=
  validate k doc;;
  require (bool_decide (dot doc (KEY_FIELDS k) = JStr (signer_key_id signer))) "host_mismatch";;
  (if bool_decide (k = DESIRED) then Ok tt
   else
     ref ← of_option (signer_deployment_ref signer) (Exn AttributeError "deployment_ref");
     require (bool_decide (dot doc "deployment_ref" = JStr ref)) "host_mismatch");;
  raw ← canonical_json doc;
  input ← signing_input k (signer_key_id signer) raw;
  Ok (JObj [(lit "schema", JStr (envelope_schema k));
            (lit "key_id", JStr (signer_key_id signer));
            (lit "payload_b64", JStr (b64 raw));
            (lit "signature_b64", JStr (b64 (sign signer input)))]).

(** [envelope]'s signature is the key's, on the payload, for this purpose; a
    signature that does not verify raises [InvalidSignature], which the caller
    catches with [ValueError]. *)
Definition check_signature (k : kind) (key_id : pystr) (payload : bytes)
    (signature : pystr) (public_key : res bytes) : res unit :=
  key ← public_key;
  ensure (ed_public key) (Exn ValueError "An Ed25519 public key is 32 bytes long");;
  signature ← unb64 signature;
  input ← signing_input k key_id payload;
  ensure (ed_verify key signature input) (Exn ValueError "").

(** [verify], with the public key as its base64 text. *)
Definition verify (k : kind) (envelope : json) (public_key : pystr) : res json :=
  _shape envelope Envelope;;
  let text k := str_of (dot envelope k) in
  require (bool_decide (text "schema" = envelope_schema k)) "schema_violation";;
  raw ← unb64 (text "payload_b64");
  value_error_as "bad_signature"
    (check_signature k (text "key_id") raw (text "signature_b64") (unb64 public_key));;
  doc ← read_json raw;
  validate k doc;;
  require (bool_decide (dot doc (KEY_FIELDS k) = dot envelope "key_id")) "bad_signature";;
  Ok doc.

(** The answer to a challenge: [{**challenge, "schema": ..., "observed_image_digest": ...}]. *)
Definition possession_of (challenge : json) (observed_image_digest : pystr) : json :=
  JObj (dict_set (dict_set (items_of challenge) (lit "schema") (JStr POSSESSION_SCHEMA))
          (lit "observed_image_digest") (JStr observed_image_digest)).
Definition answer_challenge (challenge : json) (signer : Signer) (observed_image_digest : pystr)
    (now : option Z) : res json :=
  validate_challenge challenge now;;
  ref ← (if bool_decide (dot challenge "key_id" = JStr (signer_key_id signer))
         then Some <$> of_option (signer_deployment_ref signer) (Exn AttributeError "deployment_ref")
         else Ok None);
  require (match ref with
           | Some ref => bool_decide (dot challenge "deployment_ref" = JStr ref)
           | None => false
           end) "host_mismatch";;
  seal POSSESSION (possession_of challenge observed_image_digest) signer.
End contracts.
