(* ===== verification/ContractsSafety.v ===== *)
(** * What the contracts guarantee

    Base64 there and back, what is signed names its purpose, the keys and the
    payload, and no validator, digest or shape sees the order of keys. *)

From S2P Require Import Prelude PyText PyUuid PyDate PyTime Json JsonReader JsonRound Contracts.

#[local] Open Scope Z_scope.

Definition byte (b : Z) : Prop := 0 ≤ b < 256.

(** ** Base64 *)

Lemma b64_value_char n : 0 ≤ n < 64 → b64_value (b64_char n) = Some n.
Proof.
  intros Hn. assert (Hall : forallb (λ n, bool_decide (b64_value (b64_char n) = Some n)) (seqZ 0 64) = true)
    by (vm_compute; reflexivity).
  rewrite forallb_forall in Hall. specialize (Hall n).
  rewrite <- list_elem_of_In, elem_of_seqZ, bool_decide_eq_true in Hall. apply Hall. lia.
Qed.

Lemma b64_char_ok n : 0 ≤ n < 64 →
  alnum (b64_char n) || (b64_char n =? 45) || (b64_char n =? 95) = true.
Proof.
  intros Hn. assert (Hall : forallb (λ n, alnum (b64_char n) || (b64_char n =? 45) || (b64_char n =? 95))
    (seqZ 0 64) = true) by (vm_compute; reflexivity).
  rewrite forallb_forall in Hall. specialize (Hall n).
  rewrite <- list_elem_of_In, elem_of_seqZ in Hall. apply Hall. lia.
Qed.

(** The sextets of a group of bytes. *)
Lemma sextets a b c :
  byte a → byte b → byte c →
  0 ≤ a / 4 < 64 ∧ 0 ≤ a mod 4 * 16 + b / 16 < 64 ∧ 0 ≤ b mod 16 * 4 + c / 64 < 64 ∧ 0 ≤ c mod 64 < 64 ∧
  a / 4 * 4 + (a mod 4 * 16 + b / 16) / 16 = a ∧
  (a mod 4 * 16 + b / 16) mod 16 * 16 + (b mod 16 * 4 + c / 64) / 4 = b ∧
  (b mod 16 * 4 + c / 64) mod 4 * 64 + c mod 64 = c.
Proof. unfold byte. intros. Z.to_euclidean_division_equations. lia. Qed.

Lemma byte_groups (P : bytes → Prop) :
  P [] → (∀ a, P [a]) → (∀ a b, P [a; b]) → (∀ a b c l, P l → P (a :: b :: c :: l)) → ∀ l, P l.
Proof.
  intros H0 H1 H2 H3. exact (fix go l : P l :=
    match l with
    | [] => H0
    | [a] => H1 a
    | [a; b] => H2 a b
    | a :: b :: c :: l => H3 a b c l (go l)
    end).
Qed.

Lemma b64_decode_b64 raw : Forall byte raw → b64_decode (b64 raw) = Some raw.
Proof.
  induction raw as [|a|a b|a b c l IH] using byte_groups; intros Hb; [done|..].
  - apply Forall_cons in Hb as [Ha _].
    destruct (sextets a 0 0 Ha ltac:(split; lia) ltac:(split; lia)) as (H1 & H2 & _ & _ & E1 & _).
    rewrite Z.div_0_l, Z.add_0_r in * by lia. cbn [b64 b64_decode].
    rewrite !b64_value_char by done. cbn [mbind option_bind]. by rewrite E1.
  - apply Forall_cons in Hb as [Ha [Hb _]%Forall_cons].
    destruct (sextets a b 0 Ha Hb ltac:(split; lia)) as (H1 & H2 & H3 & _ & E1 & E2 & _).
    rewrite Z.div_0_l, Z.add_0_r in * by lia. cbn [b64 b64_decode].
    rewrite !b64_value_char by done. cbn [mbind option_bind]. by rewrite E1, E2.
  - apply Forall_cons in Hb as [Ha [Hb [Hc Hl]%Forall_cons]%Forall_cons].
    destruct (sextets a b c Ha Hb Hc) as (H1 & H2 & H3 & H4 & E1 & E2 & E3).
    cbn [b64 b64_decode]. rewrite !b64_value_char by done. cbn [mbind option_bind].
    rewrite IH by done. cbn [mbind option_bind]. by rewrite E1, E2, E3.
Qed.

Lemma b64_alphabet raw :
  Forall byte raw → forallb (λ c, alnum c || (c =? 45) || (c =? 95)) (b64 raw) = true.
Proof.
  induction raw as [|a|a b|a b c l IH] using byte_groups; intros Hb; [done|..].
  - apply Forall_cons in Hb as [Ha _].
    destruct (sextets a 0 0 Ha ltac:(split; lia) ltac:(split; lia)) as (H1 & H2 & _).
    rewrite Z.div_0_l, Z.add_0_r in * by lia. cbn [b64 forallb]. by rewrite !b64_char_ok.
  - apply Forall_cons in Hb as [Ha [Hb _]%Forall_cons].
    destruct (sextets a b 0 Ha Hb ltac:(split; lia)) as (H1 & H2 & H3 & _).
    rewrite Z.div_0_l, Z.add_0_r in * by lia. cbn [b64 forallb]. by rewrite !b64_char_ok.
  - apply Forall_cons in Hb as [Ha [Hb [Hc Hl]%Forall_cons]%Forall_cons].
    destruct (sextets a b c Ha Hb Hc) as (H1 & H2 & H3 & H4 & _).
    cbn [b64 forallb]. rewrite !b64_char_ok by done. by apply IH.
Qed.

Lemma b64_nonempty raw : raw ≠ [] → b64 raw ≠ [].
Proof. destruct raw as [|a [|b [|c l]]]; done. Qed.

Lemma unb64_b64 raw : Forall byte raw → raw ≠ [] → unb64 (b64 raw) = Ok raw.
Proof.
  intros Hb Hne. unfold unb64, require.
  rewrite bool_decide_false by (by apply b64_nonempty). rewrite b64_alphabet by done. cbn [negb andb ensure mbind res_bind].
  rewrite b64_decode_b64 by done. cbn [of_option mbind res_bind]. by rewrite bool_decide_true.
Qed.

Lemma unb64_Ok s raw : unb64 s = Ok raw → b64 raw = s ∧ raw ≠ [].
Proof.
  unfold unb64, require. intros H. inv_res. bool_hyps. split; [done|]. by intros ->.
Qed.

(** ** What is signed *)

Definition be32 (n : Z) : bytes := [n / 16777216; n / 65536 mod 256; n / 256 mod 256; n mod 256].

Lemma pack_Ok n l : pack_be32 n = Ok l ↔ n < 2 ^ 32 ∧ l = be32 n.
Proof.
  unfold pack_be32. rewrite bind_Ok. split.
  - intros (? & Hn%ensure_Ok%Z.ltb_lt & [= <-]). done.
  - intros [Hn%Z.ltb_lt ->]. exists tt. by rewrite Hn.
Qed.

Lemma be32_inj m n : 0 ≤ m → 0 ≤ n → be32 m = be32 n → m = n.
Proof.
  intros Hm Hn. unfold be32. intros Heq. injection Heq as E1 E2 E3 E4.
  revert E1 E2 E3 E4. Z.to_euclidean_division_equations. lia.
Qed.

Lemma signing_Ok k id payload m :
  signing_input k id payload = Ok m ↔
  fullmatch Identifier id = true ∧ Z.of_nat (length id) < 2 ^ 32 ∧ Z.of_nat (length payload) < 2 ^ 32 ∧
  m = domain k ++ be32 (Z.of_nat (length id)) ++ id ++ be32 (Z.of_nat (length payload)) ++ payload.
Proof.
  unfold signing_input, identifier, _shape. split.
  - intros (? & Hid%ensure_Ok & H)%bind_Ok. apply bind_Ok in H as (? & [Hl ->]%pack_Ok & H).
    apply bind_Ok in H as (? & [Hp ->]%pack_Ok & [= <-]). done.
  - intros (Hid & Hl & Hp & ->). change (shape (TText Identifier) (JStr id)) with (fullmatch Identifier id). rewrite Hid. cbn [ensure mbind res_bind].
    rewrite (proj2 (pack_Ok _ _) (conj Hl eq_refl)). cbn [mbind res_bind].
    by rewrite (proj2 (pack_Ok _ _) (conj Hp eq_refl)).
Qed.

Lemma domain_inj k k' x y : domain k ++ x = domain k' ++ y → k = k' ∧ x = y.
Proof. destruct k, k'; intros Heq; (discriminate Heq || (split; [done|by apply app_inv_head in Heq])). Qed.

(** The bytes that are signed determine the purpose, the key and the payload:
    a signature made for one is none for another. *)
Lemma signing_input_inj k id payload k' id' payload' m :
  signing_input k id payload = Ok m → signing_input k' id' payload' = Ok m →
  k = k' ∧ id = id' ∧ payload = payload'.
Proof.
  intros (_ & _ & _ & ->)%signing_Ok (_ & _ & _ & Heq)%signing_Ok.
  apply domain_inj in Heq as [-> Heq].
  apply app_inj_1 in Heq as [Hl Heq]; [|done]. apply be32_inj in Hl; [|lia..].
  apply app_inj_1 in Heq as [-> Heq]; [|lia].
  by apply app_inj_1 in Heq as [_ ->].
Qed.

(** ** The order of keys does not matter *)

Section hint_ind.
Context (P : hint → Prop) (Hstr : P TStr) (Hint : P TInt) (Hbool : P TBool) (Hnone : P TNone)
  (Htext : ∀ p, P (TText p)) (Hlit : ∀ l, P (TLit l)) (Hunion : ∀ l, Forall P l → P (TUnion l))
  (Hdict : ∀ k v, P k → P v → P (TDict k v)) (Hlist : ∀ v, P v → P (TList v))
  (Htyped : ∀ fs : list (pystr * (bool * hint)), Forall (λ f, P f.2.2) fs → P (TTyped fs)).

Fixpoint hint_deep_ind (h : hint) : P h :=
  match h with
  | TStr => Hstr | TInt => Hint | TBool => Hbool | TNone => Hnone
  | TText p => Htext p
  | TLit l => Hlit l
  | TUnion l =>
      Hunion l ((fix go l : Forall P l :=
        match l with
        | [] => Forall_nil_2 _
        | h :: l => Forall_cons_2 _ h l (hint_deep_ind h) (go l)
        end) l)
  | TDict k v => Hdict k v (hint_deep_ind k) (hint_deep_ind v)
  | TList v => Hlist v (hint_deep_ind v)
  | TTyped fs =>
      Htyped fs ((fix go fs : Forall (λ f : pystr * (bool * hint), P f.2.2) fs :=
        match fs with
        | [] => Forall_nil_2 _
        | f :: fs => Forall_cons_2 (λ f : pystr * (bool * hint), P f.2.2) f fs (hint_deep_ind f.2.2) (go fs)
        end) fs)
  end.
End hint_ind.

(** The literals of an annotation are scalars. *)
Fixpoint plain (h : hint) : bool :=
  match h with
  | TLit l => forallb scalar l
  | TUnion hs => forallb plain hs
  | TDict k v => plain k && plain v
  | TList v => plain v
  | TTyped fs => forallb (λ f, plain f.2.2) fs
  | _ => true
  end.

Lemma forallb_Forall_iff {A} (f : A → bool) l : forallb f l = true ↔ Forall (λ x, f x = true) l.
Proof. rewrite forallb_forall, Forall_forall. by setoid_rewrite list_elem_of_In. Qed.

Lemma existsb_ext_all {A} (f g : A → bool) l : Forall (λ x, f x = g x) l → existsb f l = existsb g l.
Proof. induction 1 as [|x l Hx _ IH]; simpl; congruence. Qed.

Lemma forallb_map {A B} (f : A → B) (p : B → bool) l : forallb p (map f l) = forallb (λ x, p (f x)) l.
Proof. induction l as [|x l IH]; simpl; congruence. Qed.

Lemma shape_sorted h v : plain h = true → returns v → shape h (sorted_json v) = shape h v.
Proof.
  intros Hp Hv. revert v Hp Hv.
  induction h as [| | | |p|ls|hs IH|kh vh IHk IHv|h IH|fs IH] using hint_deep_ind; intros v Hp Hv.
  1-5: by destruct v.
  - simpl in *. apply bool_decide_ext. rewrite forallb_Forall_iff, Forall_forall in Hp.
    split; intros Hin.
    + pose proof (proj1 (sorted_scalar v _ (Hp _ Hin)) eq_refl) as Heq. by rewrite <- Heq in Hin.
    + pose proof (Hp _ Hin) as Hs. by rewrite (proj2 (sorted_scalar v v Hs) eq_refl).
  - simpl in *. apply existsb_ext_all. rewrite forallb_Forall_iff in Hp.
    rewrite Forall_forall in *. intros h Hh. by apply IH; [|apply Hp|].
  - destruct v as [| | | | | |kvs]; try done.
    destruct (items_sorted kvs) as (kvs' & -> & Hperm). simpl in *. apply andb_true_iff in Hp as [Hk Hp].
    rewrite (forallb_perm _ _ _ Hperm), forallb_map. apply forallb_ext_all.
    inversion Hv as [| | | | |? _ Hl]; subst. eapply Forall_impl; [exact Hl|].
    intros [k v] [_ Hr]. simpl in *. by rewrite IHv.
  - destruct v as [| | | | |l|]; try done. simpl in *. rewrite forallb_map. apply forallb_ext_all.
    inversion Hv as [| | | |? Hl|]; subst. eapply Forall_impl; [exact Hl|]. intros x Hx. by apply IH.
  - destruct v as [| | | | | |kvs]; try done.
    destruct (items_sorted kvs) as (kvs' & -> & Hperm). simpl in *. f_equal.
    + apply forallb_ext_all, Forall_forall. intros f _. f_equal. apply bool_decide_ext.
      by rewrite Hperm, keys_value.
    + rewrite (forallb_perm _ _ _ Hperm), forallb_map. apply forallb_ext_all.
      inversion Hv as [| | | | |? _ Hl]; subst. eapply Forall_impl; [exact Hl|].
      intros [k v] [_ Hr]. simpl in *.
      destruct (dict_get (map (λ f, (f.1, shape f.2.2)) fs) k) as [check|] eqn:Hc; [|done].
      apply dict_get_Some, list_elem_of_fmap in Hc as (f & [= -> ->] & Hf).
      rewrite forallb_Forall_iff, Forall_forall in Hp. rewrite Forall_forall in IH. by apply IH, Hr; [|apply Hp].
Qed.

(** Parts of a document. *)
Lemma returns_dot v k : returns v → returns (dot v k).
Proof.
  intros Hv. destruct v as [| | | | | |kvs]; try constructor. simpl.
  destruct (dict_get kvs (lit k)) as [x|] eqn:Hx; [|constructor]. apply dict_get_Some in Hx.
  inversion Hv as [| | | | |? _ Hl]; subst. rewrite Forall_forall in Hl. by apply Hl in Hx as [_ ?].
Qed.

Lemma dot_sorted v k : returns v → dot (sorted_json v) k = sorted_json (dot v k).
Proof.
  intros Hv. destruct v as [| | | | | |kvs]; try done.
  destruct (items_sorted kvs) as (kvs' & -> & Hp). simpl.
  inversion Hv as [| | | | |? Hnd _]; subst.
  assert (Hn : NoDup kvs'.*1) by (by rewrite Hp, keys_value).
  rewrite (dict_get_perm _ _ _ Hn Hp), dict_get_value.
  by destruct (dict_get kvs (lit k)).
Qed.

Lemma str_of_sorted v : str_of (sorted_json v) = str_of v.
Proof. by destruct v. Qed.
Lemma int_of_sorted v : int_of (sorted_json v) = int_of v.
Proof. by destruct v. Qed.
Lemma bool_of_sorted v : bool_of (sorted_json v) = bool_of v.
Proof. by destruct v. Qed.
Lemma status_ok_sorted v : status_ok (sorted_json v) = status_ok v.
Proof. by destruct v. Qed.
Lemma list_of_sorted v : list_of (sorted_json v) = map sorted_json (list_of v).
Proof. by destruct v. Qed.
Lemma items_of_sorted v : items_of (sorted_json v) ≡ₚ map (on_value sorted_json) (items_of v).
Proof.
  destruct v as [| | | | | |kvs]; try done. destruct (items_sorted kvs) as (kvs' & -> & Hp). exact Hp.
Qed.

Lemma scalar_sorted_iff x y : scalar y = true → bool_decide (sorted_json x = y) = bool_decide (x = y).
Proof. intros Hy. apply bool_decide_ext. by apply sorted_scalar. Qed.

Lemma returns_list v : returns v → Forall returns (list_of v).
Proof. intros Hv. by destruct Hv. Qed.

(** Objects are the same when they give the same value to every key. *)
Lemma sorted_obj_get a b :
  NoDup a.*1 → NoDup b.*1 → (∀ k, sorted_json <$> dict_get a k = sorted_json <$> dict_get b k) →
  sorted_json (JObj a) = sorted_json (JObj b).
Proof.
  intros Ha Hb Hab. apply sorted_obj_perm; [done|].
  assert (Hk : ∀ l : dict, NoDup l.*1 → NoDup (map (on_value sorted_json) l).*1) by (intros l; by rewrite keys_value).
  apply NoDup_Permutation; [eapply NoDup_fmap_1, Hk; done..|]. intros [k v].
  pose proof (λ l H, conj (dict_get_NoDup (map (on_value sorted_json) l) k v (Hk l H))
    (dict_get_Some (map (on_value sorted_json) l) k v)) as Hiff.
  destruct (Hiff a Ha) as [Ha1 Ha2], (Hiff b Hb) as [Hb1 Hb2]. rewrite dict_get_value in *.
  specialize (Hab k). split; intros Hin; [apply Hb2; rewrite <- Hab|apply Ha2; rewrite Hab]; auto.
Qed.

(** [d[k] = v] and [del d[k]] keep a document returnable. *)
Lemma returns_set kvs k v :
  returns (JObj kvs) → text_ok k = true → returns v → returns (JObj (dict_set kvs k v)).
Proof.
  inversion 1 as [| | | | |? Hnd Hl]; subst. intros Hk Hv. constructor; [by apply dict_set_NoDup|].
  clear Hnd H. induction Hl as [|[k' v'] d Hx Hl IH]; simpl; [by repeat constructor|].
  case_bool_decide; constructor; auto.
Qed.

Lemma returns_filter kvs (P : pystr * json → Prop) `{∀ x, Decision (P x)} :
  returns (JObj kvs) → returns (JObj (filter P kvs)).
Proof.
  inversion 1 as [| | | | |? Hnd Hl]; subst. constructor.
  - eapply sublist_NoDup; [exact Hnd|]. apply fmap_sublist, sublist_filter.
  - rewrite Forall_forall in *. intros x [_ Hx]%list_elem_of_filter. auto.
Qed.

Section safety.
Context `{Crypto} `{Floats} `{UnicodeDB}.

Lemma dumpable_sorted j : dumpable (sorted_json j) = dumpable j.
Proof.
  induction j as [| | | | |l IH|kvs IH] using json_deep_ind; try done.
  - simpl. rewrite forallb_map. by apply forallb_ext_all.
  - destruct (items_sorted kvs) as (kvs' & -> & Hp). simpl.
    rewrite (forallb_perm _ _ _ Hp), forallb_map. by apply forallb_ext_all.
Qed.

Lemma canonical_sorted j : canonical_json (sorted_json j) = canonical_json j.
Proof. unfold canonical_json. by rewrite dumpable_sorted, (dumps_sorted 0 j : dumps_compact _ = dumps_compact _). Qed.

(** Documents with one normal form have one text and one digest. *)
Lemma canonical_same a b : sorted_json a = sorted_json b → canonical_json a = canonical_json b.
Proof. intros Hab. by rewrite <- canonical_sorted, Hab, canonical_sorted. Qed.

Lemma digest_same a b : sorted_json a = sorted_json b → digest a = digest b.
Proof. intros Hab. unfold digest. by rewrite (canonical_same _ _ Hab). Qed.

Lemma digest_sorted j : digest (sorted_json j) = digest j.
Proof. apply digest_same, sorted_json_idem. Qed.

Lemma plan_digest_sorted doc : returns doc → plan_digest (sorted_json doc) = plan_digest doc.
Proof.
  intros Hd. apply digest_same. unfold plan_document. rewrite !sorted_obj, <- !sort_by_value.
  do 2 f_equal. rewrite <- !list_fmap_compose. apply list_fmap_ext. intros _ k _.
  unfold compose, on_value. simpl. f_equal.
  destruct doc as [| | | | | |kvs]; try done.
  destruct (items_sorted kvs) as (kvs' & -> & Hp). simpl.
  inversion Hd as [| | | | |? Hnd _]; subst.
  assert (Hn : NoDup kvs'.*1) by (by rewrite Hp, keys_value).
  rewrite (dict_get_perm _ _ _ Hn Hp), dict_get_value.
  destruct (dict_get kvs k); simpl; [apply sorted_json_idem|done].
Qed.

(** The shape of a field of a typed document; an optional one can be missing. *)
Lemma shape_field fs v k o h :
  shape (TTyped fs) v = true → dict_get fs (lit k) = Some (o, h) →
  shape h (dot v k) = true ∨ o = true ∧ dot v k = JNull.
Proof.
  intros Hs Hf. destruct v as [| | | | | |kvs]; try done. simpl in Hs.
  apply andb_true_iff in Hs as [Hreq Hall]. rewrite forallb_Forall_iff, Forall_forall in Hreq.
  apply forallb_Forall_iff in Hall. rewrite Forall_forall in Hall.
  specialize (Hreq _ (dict_get_Some _ _ _ Hf)). simpl in *.
  destruct (dict_get kvs (lit k)) as [x|] eqn:Hx; simpl.
  - left. apply dict_get_Some in Hx. specialize (Hall _ Hx). simpl in Hall.
    change (λ f : pystr * (bool * hint), (f.1, shape f.2.2)) with
      (on_value (λ f : bool * hint, shape f.2)) in Hall.
    by rewrite dict_get_value, Hf in Hall.
  - right. destruct o; [done|]. apply bool_decide_eq_true in Hreq. by apply dict_get_None in Hx.
Qed.

Lemma shape_dot fs v k h :
  shape (TTyped fs) v = true → dict_get fs (lit k) = Some (false, h) → shape h (dot v k) = true.
Proof. intros Hs Hf. by destruct (shape_field _ _ _ _ _ Hs Hf) as [?|[? _]]. Qed.

Lemma sorted_texts p l : forallb (shape (TText p)) l = true → map sorted_json l = l.
Proof.
  induction l as [|x l IH]; [done|]. simpl. intros [Hx Hl]%andb_true_iff.
  rewrite IH by done. by destruct x.
Qed.

Lemma same_keys_perm a b l : a ≡ₚ b → same_keys a l = same_keys b l.
Proof.
  intros Hp. unfold same_keys. rewrite (bool_decide_ext (Forall (λ k, k ∈ l) a) (Forall (λ k, k ∈ l) b)) by (by rewrite Hp).
  f_equal. apply bool_decide_ext, Forall_iff. intros k. by rewrite Hp.
Qed.

Lemma keys_sorted v : (items_of (sorted_json v)).*1 ≡ₚ (items_of v).*1.
Proof. by rewrite items_of_sorted, keys_value. Qed.

Lemma shape_texts p v : shape (TList (TText p)) v = true → map sorted_json (list_of v) = list_of v.
Proof. destruct v; try done. apply sorted_texts. Qed.

Lemma shape_sorted' h v : plain h = true → returns v → _shape (sorted_json v) h = _shape v h.
Proof. intros Hp Hv. unfold _shape. by rewrite shape_sorted. Qed.

(** What a validator reads of a document does not depend on the order of its keys. *)
Ltac sorted_reads :=
  repeat first
    [ rewrite dot_sorted by eauto using returns_dot
    | rewrite str_of_sorted | rewrite int_of_sorted | rewrite bool_of_sorted
    | rewrite status_ok_sorted ].

Lemma bind_ensure_ext {A} b e (f g : unit → res A) :
  (b = true → f tt = g tt) → (u ← ensure b e; f u) = (u ← ensure b e; g u).
Proof. destruct b; simpl; auto. Qed.

Lemma policy_heads doc :
  shape DesiredState doc = true →
  map sorted_json (list_of (dot (dot doc "migration_policy") "expected_heads")) =
  list_of (dot (dot doc "migration_policy") "expected_heads").
Proof.
  intros Hs. pose proof (shape_dot _ doc "migration_policy" MigrationPolicy Hs eq_refl) as Hm.
  destruct (shape_field _ _ "expected_heads" true (TList (TText Identifier)) Hm eq_refl) as [Hh|[_ ->]];
    [by apply shape_texts in Hh|done].
Qed.

Lemma validate_desired_sorted doc :
  returns doc →
  validate_desired (sorted_json doc) None None None = validate_desired doc None None None.
Proof.
  intros Hd. unfold validate_desired. rewrite shape_sorted' by done. apply bind_ensure_ext. intros Hs.
  sorted_reads.
  rewrite (same_keys_perm _ _ _ (keys_sorted _)), digest_sorted, !list_of_sorted, plan_digest_sorted by done.
  rewrite policy_heads, forallb_map by done.
  rewrite (bool_decide_ext (map sorted_json _ = []) (list_of (dot doc "approvals") = []))
    by (by destruct (list_of (dot doc "approvals"))).
  rewrite (forallb_ext_all (λ x, 0 <? int_of (dot (sorted_json x) "run_id")) (λ x, 0 <? int_of (dot x "run_id"))); [done|].
  eapply Forall_impl; [by apply returns_list, returns_dot|]. intros x Hx. simpl. by sorted_reads.
Qed.

Lemma validate_applied_sorted doc :
  returns doc → validate_applied (sorted_json doc) = validate_applied doc.
Proof.
  intros Hd. unfold validate_applied. rewrite shape_sorted' by done. apply bind_ensure_ext. intros _.
  cbn [mapM]. sorted_reads. rewrite (scalar_sorted_iff _ JNull) by done.
  rewrite (bool_decide_ext (sorted_json (dot doc "reason") ∈ JStr <$> REASONS)
    (dot doc "reason" ∈ JStr <$> REASONS)); [done|].
  rewrite !list_elem_of_fmap. split; intros (s & He & Hs); exists s; split; try done.
  - by apply (sorted_scalar _ (JStr s)).
  - by rewrite He.
Qed.

Lemma validate_challenge_sorted doc now :
  returns doc → validate_challenge (sorted_json doc) now = validate_challenge doc now.
Proof.
  intros Hd. unfold validate_challenge. rewrite shape_sorted' by done. apply bind_ensure_ext.
  intros _. by sorted_reads.
Qed.


Lemma challenge_of_returns doc : returns doc → returns (challenge_of doc).
Proof.
  intros Hd. apply returns_set; [|done|by constructor]. apply returns_filter.
  destruct Hd; simpl; by repeat constructor.
Qed.

Lemma challenge_of_sorted doc :
  returns doc → sorted_json (challenge_of (sorted_json doc)) = sorted_json (challenge_of doc).
Proof.
  intros Hd. pose proof (challenge_of_returns _ Hd) as Hc.
  pose proof (challenge_of_returns _ (returns_sorted _ Hd)) as Hs. unfold challenge_of in *.
  inversion Hc; inversion Hs; subst. apply sorted_obj_get; [done..|]. intros k.
  rewrite !dict_get_set, !dict_get_filter. repeat case_bool_decide; try done.
  destruct doc as [| | | | | |kvs]; try done. destruct (items_sorted kvs) as (kvs' & -> & Hp). simpl.
  inversion Hd; subst. assert (Hn : NoDup kvs'.*1) by (by rewrite Hp, keys_value).
  rewrite (dict_get_perm _ _ _ Hn Hp), dict_get_value. destruct (dict_get kvs k); [|done].
  simpl. by rewrite sorted_json_idem.
Qed.

Lemma validate_possession_sorted doc now :
  returns doc → validate_possession (sorted_json doc) now = validate_possession doc now.
Proof.
  intros Hd. unfold validate_possession. rewrite shape_sorted' by done. apply bind_ensure_ext. intros _.
  rewrite <- validate_challenge_sorted, challenge_of_sorted, validate_challenge_sorted;
    eauto using challenge_of_returns, returns_sorted.
Qed.

Lemma validate_sorted k doc : returns doc → validate k (sorted_json doc) = validate k doc.
Proof.
  intros Hd. destruct k; simpl.
  - by apply validate_desired_sorted.
  - by apply validate_applied_sorted.
  - by apply validate_challenge_sorted.
  - by apply validate_possession_sorted.
Qed.
End safety.
