(* ===== verification/Envelopes.v ===== *)
(** * Envelopes

    What is sealed verifies, for its purpose only; what verifies was sealed;
    and a host can answer every challenge that is addressed to it. *)

From S2P Require Import Prelude PyText PyUuid PyDate PyTime Json JsonReader JsonRound Contracts ContractsSafety.

#[local] Open Scope Z_scope.

Section safety.
Context `{Crypto} `{Floats} `{UnicodeDB}.

(** ** Sealing and verifying *)

(** [signer]'s signatures verify under the key whose text is [public_key]. *)
Record signs_for (signer : Signer) (public_key : pystr) (key : bytes) : Prop := {
  signs_key : unb64 public_key = Ok key;
  signs_public : ed_public key = true;
  signs_verify : ∀ m, ed_verify key (sign signer m) m = true;
  signs_bytes : ∀ m, Forall byte (sign signer m) ∧ sign signer m ≠ [];
}.

Lemma printable_byte s : Forall printable s → Forall byte s.
Proof. intros Hs. eapply Forall_impl; [exact Hs|]. unfold printable, byte. lia. Qed.

Lemma dumps_nonempty j : returns j → dumps_compact j ≠ [].
Proof. intros Hj Hnil. pose proof (begins_dumps 0 j Hj) as Hb. unfold dumps_compact in Hnil. by rewrite Hnil in Hb. Qed.

Lemma read_json_dumps doc kvs :
  returns doc → doc = JObj kvs → read_json (dumps_compact doc) = Ok (sorted_json doc).
Proof.
  intros Hd ->. unfold read_json, loads.
  rewrite decode_ascii by (by apply dumps_printable). cbn [mbind option_bind].
  rewrite loads_returns by done. by destruct (items_sorted kvs) as (kvs' & -> & _).
Qed.

Lemma bind_Ok_unit {A} (m : res unit) (f : unit → res A) a : (u ← m; f u) = Ok a ↔ m = Ok tt ∧ f tt = Ok a.
Proof.
  rewrite bind_Ok. split; [|intros []; by exists tt]. by intros ([] & ? & ?).
Qed.

(** A validated document is an object. *)
Lemma validate_object k doc : validate k doc = Ok tt → ∃ kvs, doc = JObj kvs.
Proof.
  assert (Hs : ∀ fs (m : res unit), (_shape doc (TTyped fs);; m) = Ok tt → ∃ kvs, doc = JObj kvs).
  { intros fs m (_ & Hs%ensure_Ok & _)%bind_Ok. destruct doc; try done. eauto. }
  destruct k; simpl; intros Hv.
  - eapply (Hs _ _ Hv).
  - eapply (Hs _ _ Hv).
  - eapply (Hs _ _ Hv).
  - eapply (Hs _ _ Hv).
Qed.

Definition envelope (k : kind) (key_id payload signature : pystr) : json :=
  JObj [(lit "schema", JStr (envelope_schema k)); (lit "key_id", JStr key_id);
        (lit "payload_b64", JStr payload); (lit "signature_b64", JStr signature)].

Lemma envelope_shape k id p s : shape Envelope (envelope k id p s) = fullmatch Identifier id.
Proof. lazy -[fullmatch]. by destruct (fullmatch Identifier id). Qed.

Lemma seal_Ok k doc signer env :
  seal k doc signer = Ok env ↔
  validate k doc = Ok tt ∧ dot doc (KEY_FIELDS k) = JStr (signer_key_id signer) ∧
  (k = DESIRED ∨ ∃ ref, signer_deployment_ref signer = Some ref ∧ dot doc "deployment_ref" = JStr ref) ∧
  dumpable doc = true ∧
  ∃ input, signing_input k (signer_key_id signer) (dumps_compact doc) = Ok input ∧
    env = envelope k (signer_key_id signer) (b64 (dumps_compact doc)) (b64 (sign signer input)).
Proof.
  unfold seal, require. rewrite !bind_Ok_unit, !ensure_Ok, bool_decide_eq_true. split.
  - intros (Hv & Hid & Hrf & Hm). apply bind_Ok in Hm as (raw & Hraw & Hm).
    apply bind_Ok in Hm as (input & Hin & [= <-]). unfold canonical_json in Hraw. inv_res.
    split_and!; eauto. case_bool_decide; [by left|]. inv_res. bool_hyps. right. eauto.
  - intros (Hv & Hid & Hrf & Hd & input & Hin & ->). split; [done|]. split; [done|]. split.
    + case_bool_decide; [done|]. destruct Hrf as [?|(rf & -> & ->)]; [done|]. simpl.
      by rewrite bool_decide_true.
    + unfold canonical_json. rewrite Hd. cbn [ensure mbind res_bind]. by rewrite Hin.
Qed.

Lemma value_error_as_Ok {A} code (m : res A) a : value_error_as code m = Ok a ↔ m = Ok a.
Proof. destruct m as [|e]; simpl; [done|]. by case_bool_decide. Qed.

(** What a verified envelope tells. *)
Lemma verify_Ok k env public_key doc :
  verify k env public_key = Ok doc →
  ∃ id raw key signature input,
    dot env "key_id" = JStr id ∧ unb64 (str_of (dot env "payload_b64")) = Ok raw ∧
    unb64 public_key = Ok key ∧ signing_input k id raw = Ok input ∧
    ed_public key = true ∧ ed_verify key signature input = true ∧
    read_json raw = Ok doc ∧ validate k doc = Ok tt ∧ dot doc (KEY_FIELDS k) = JStr id.
Proof.
  unfold verify, require. intros (Hs%ensure_Ok & Hm)%bind_Ok_unit.
  apply bind_Ok_unit in Hm as (_ & Hm). apply bind_Ok in Hm as (raw & Hraw & Hm).
  apply bind_Ok_unit in Hm as (Hsig%value_error_as_Ok & Hm). apply bind_Ok in Hm as (doc' & Hdoc & Hm).
  apply bind_Ok_unit in Hm as (Hv & Hm). apply bind_Ok_unit in Hm as (Hid%ensure_Ok & [= ->]).
  apply bool_decide_eq_true in Hid. unfold check_signature in Hsig.
  apply bind_Ok in Hsig as (key & Hkey & Hsig). apply bind_Ok_unit in Hsig as (Hpub%ensure_Ok & Hsig).
  apply bind_Ok in Hsig as (signature & _ & Hsig). apply bind_Ok in Hsig as (input & Hin & Hver%ensure_Ok).
  pose proof (shape_dot _ env "key_id" (TText Identifier) Hs eq_refl) as Hk.
  destruct (dot env "key_id") as [| | | |id| |] eqn:Hi; try done. naive_solver.
Qed.

Lemma verify_sealed k doc signer env public_key key :
  returns doc → signs_for signer public_key key → seal k doc signer = Ok env →
  verify k env public_key = Ok (sorted_json doc).
Proof.
  intros Hd [Hkey Hpub Hver Hbytes] (Hv & Hid & _ & _ & input & Hin & ->)%seal_Ok.
  pose proof Hin as (Hf & _)%signing_Ok. destruct (Hbytes input) as [Hb Hne].
  unfold verify, _shape. rewrite envelope_shape, Hf. cbn [ensure mbind res_bind].
  set (id := signer_key_id signer) in *. set (raw := dumps_compact doc) in *.
  change (dot (envelope k id ?p ?s) "schema") with (JStr (envelope_schema k)).
  change (dot (envelope k id ?p ?s) "payload_b64") with (JStr p).
  change (dot (envelope k id ?p ?s) "key_id") with (JStr id).
  change (dot (envelope k id ?p ?s) "signature_b64") with (JStr s). cbn [str_of].
  rewrite bool_decide_true by done. cbn [require ensure mbind res_bind].
  rewrite unb64_b64 by (apply printable_byte, dumps_printable, Hd || by apply dumps_nonempty).
  cbn [mbind res_bind]. unfold check_signature. rewrite Hkey. cbn [mbind res_bind]. rewrite Hpub.
  cbn [ensure mbind res_bind]. rewrite unb64_b64 by done. cbn [mbind res_bind]. rewrite Hin.
  cbn [mbind res_bind]. rewrite Hver. cbn [ensure mbind res_bind value_error_as].
  destruct (validate_object _ _ Hv) as [kvs Hkvs]. unfold raw. rewrite (read_json_dumps doc kvs) by done.
  cbn [mbind res_bind]. rewrite validate_sorted, Hv by done. cbn [mbind res_bind].
  by rewrite dot_sorted, Hid, bool_decide_true by done.
Qed.

(** Under another purpose the envelope is none of its kind. *)
Lemma verify_other k k' doc signer env public_key :
  seal k doc signer = Ok env → k' ≠ k → verify k' env public_key = Raise schema_violation.
Proof.
  intros (_ & _ & _ & _ & input & (Hf & _)%signing_Ok & ->)%seal_Ok Hk.
  unfold verify, _shape. rewrite envelope_shape, Hf. cbn [ensure mbind res_bind].
  change (dot (envelope k ?id ?p ?s) "schema") with (JStr (envelope_schema k)). cbn [str_of].
  rewrite bool_decide_false; [done|]. by destruct k, k'.
Qed.

Lemma returns_dumpable j : returns j → dumpable j = true.
Proof.
  intros Hj. induction j as [| | | | |l IH|kvs IH] using json_deep_ind; try done; simpl.
  - inversion Hj; subst. by apply bool_decide_eq_true.
  - inversion Hj.
  - inversion Hj as [| | | |? Hl|]; subst. apply forallb_Forall_iff. rewrite Forall_forall in *. auto.
  - inversion Hj as [| | | | |? _ Hl]; subst. apply forallb_Forall_iff. rewrite Forall_forall in *.
    intros x Hx. apply IH; [done|]. by apply Hl.
Qed.

(** ** Answering a challenge *)

Lemma ascii_text s : Forall printable s → text_ok s = true.
Proof.
  intros Hs. unfold text_ok. apply andb_true_iff. split.
  - apply forallb_Forall_iff. eapply Forall_impl; [exact Hs|]. unfold printable, between. intros c Hc.
    apply andb_true_iff. rewrite !Z.leb_le. lia.
  - induction Hs as [|c s Hc Hs IH]; [done|]. destruct s as [|l s]; [done|].
    change (negb (high_surrogate c && low_surrogate l) && unsplit (l :: s) = true). rewrite IH, andb_true_r.
    unfold high_surrogate, between, printable in *. destruct (Z.leb_spec 55296 c); [lia|done].
Qed.

Lemma digest_text d : fullmatch Digest d = true → text_ok d = true.
Proof.
  unfold fullmatch. rewrite !andb_true_iff. intros [[Hp _] Hd]. apply ascii_text.
  apply starts_with_spec in Hp as [t ->]. apply Forall_app. split.
  - apply (bool_decide_unpack _). vm_compute. done.
  - change (drop 7 (lit "sha256:" ++ t)) with t in Hd.
    apply forallb_Forall_iff in Hd. eapply Forall_impl; [exact Hd|]. unfold hex_lower, between, printable.
    intros c Hc. bool_hyps. lia.
Qed.

(** The shape of an object with the keys of a dictionary. *)
Lemma shape_typed fs kvs :
  NoDup kvs.*1 → NoDup fs.*1 →
  shape (TTyped fs) (JObj kvs) = true ↔
  ∀ k, match dict_get fs k, dict_get kvs k with
       | Some (_, h), Some v => shape h v = true
       | Some (o, _), None => o = true
       | None, x => x = None
       end.
Proof.
  intros Hk Hf. set (checks := map (λ f, (f.1, shape f.2.2)) fs).
  assert (Hc : ∀ k, dict_get checks k = (λ f : bool * hint, shape f.2) <$> dict_get fs k).
  { intros k. apply (dict_get_value (λ f : bool * hint, shape f.2)). }
  simpl. fold checks. rewrite andb_true_iff, !forallb_Forall_iff, !Forall_forall. split.
  - intros [Hreq Hall] k. destruct (dict_get fs k) as [[o h]|] eqn:Hk1, (dict_get kvs k) as [v|] eqn:Hk2; try done.
    + specialize (Hall _ (dict_get_Some _ _ _ Hk2)). simpl in Hall. by rewrite Hc, Hk1 in Hall.
    + specialize (Hreq _ (dict_get_Some _ _ _ Hk1)). simpl in Hreq. destruct o; [done|].
      apply bool_decide_eq_true in Hreq. by apply dict_get_None in Hk2.
    + specialize (Hall _ (dict_get_Some _ _ _ Hk2)). simpl in Hall. by rewrite Hc, Hk1 in Hall.
  - intros Hall. split.
    + intros [k [o h]] Hin. simpl. specialize (Hall k). rewrite (dict_get_NoDup _ _ _ Hf Hin) in Hall.
      destruct (dict_get kvs k) as [v|] eqn:Hv; [|by subst o]. apply orb_true_iff. right.
      apply bool_decide_eq_true, list_elem_of_fmap. eexists (k, v). split; [done|]. by apply dict_get_Some.
    + intros [k v] Hin. simpl. specialize (Hall k). rewrite (dict_get_NoDup _ _ _ Hk Hin) in Hall.
      rewrite Hc. by destruct (dict_get fs k) as [[o h]|].
Qed.

Lemma dict_get_app {V} (a b : list (pystr * V)) k :
  dict_get (a ++ b) k = match dict_get a k with Some v => Some v | None => dict_get b k end.
Proof. induction a as [|[k' v] a IH]; [done|]. simpl. by case_bool_decide. Qed.

Lemma challenge_names :
  NoDup (ChallengeFacts_fields ++ [field "schema" (TLit [JStr CHALLENGE_SCHEMA])]).*1.
Proof. apply (bool_decide_unpack _). vm_compute. done. Qed.

Lemma challenge_schema kvs :
  shape Challenge (JObj kvs) = true → dict_get kvs (lit "schema") = Some (JStr CHALLENGE_SCHEMA).
Proof.
  intros Hs. pose proof (shape_dot _ _ "schema" (TLit [JStr CHALLENGE_SCHEMA]) Hs eq_refl) as Hl.
  unfold shape in Hl. apply bool_decide_eq_true in Hl. apply list_elem_of_singleton in Hl.
  unfold dot in Hl. destruct (dict_get kvs (lit "schema")); [|done]. cbn in Hl. by subst.
Qed.

Lemma possession_items c d k :
  dict_get (items_of (possession_of c d)) k =
  if bool_decide (k = lit "observed_image_digest") then Some (JStr d)
  else if bool_decide (k = lit "schema") then Some (JStr POSSESSION_SCHEMA)
  else dict_get (items_of c) k.
Proof. unfold possession_of. cbn [items_of]. by rewrite !dict_get_set. Qed.

Lemma possession_shape kvs d :
  NoDup kvs.*1 → shape Challenge (JObj kvs) = true → fullmatch Digest d = true →
  shape Possession (possession_of (JObj kvs) d) = true.
Proof.
  intros Hnd Hs Hd. unfold possession_of. cbn [items_of].
  apply shape_typed; [by apply dict_set_NoDup, dict_set_NoDup|by apply (bool_decide_unpack _); vm_compute|].
  intros k. pose proof (possession_items (JObj kvs) d k) as Hi. unfold possession_of in Hi. cbn [items_of] in Hi.
  rewrite Hi. clear Hi. case_bool_decide as Ho; [subst; exact Hd|]. case_bool_decide as Hc; [by subst|].
  pose proof (proj1 (shape_typed _ kvs Hnd challenge_names) Hs k) as Hall. rewrite dict_get_app in *. destruct (dict_get ChallengeFacts_fields k); [done|].
  unfold field in *. cbn [dict_get] in *. by rewrite !bool_decide_false in * by done.
Qed.

Lemma challenge_answered kvs d :
  NoDup kvs.*1 → shape Challenge (JObj kvs) = true →
  sorted_json (challenge_of (possession_of (JObj kvs) d)) = sorted_json (JObj kvs).
Proof.
  intros Hnd Hs. unfold challenge_of. apply sorted_obj_get; [|done|].
  - apply dict_set_NoDup. eapply sublist_NoDup; [|apply fmap_sublist, sublist_filter].
    by apply dict_set_NoDup, dict_set_NoDup.
  - intros k. rewrite dict_get_set, dict_get_filter, possession_items. cbn [items_of].
    case_bool_decide as Hc; [subst; by rewrite challenge_schema|]. case_bool_decide as Ho; [|done]. subst.
    pose proof (proj1 (shape_typed _ kvs Hnd challenge_names) Hs (lit "observed_image_digest")) as Hall.
    change (dict_get kvs (lit "observed_image_digest") = None) in Hall. by rewrite Hall.
Qed.

Lemma possession_returns c d :
  returns c → fullmatch Digest d = true → returns (possession_of c d).
Proof.
  intros Hc Hd. apply returns_set; [apply returns_set|done|by constructor; apply digest_text].
  - destruct Hc; simpl; by repeat constructor.
  - done.
  - by constructor.
Qed.

Lemma challenge_any_time doc now :
  validate_challenge doc now = Ok tt → validate_challenge doc None = Ok tt.
Proof.
  unfold validate_challenge. intros (Hs & Hm)%bind_Ok_unit. apply bind_Ok_unit in Hm as (Hn & Hm).
  apply bind_Ok in Hm as (e & He & _). rewrite Hs. cbn [mbind res_bind]. rewrite Hn. cbn [mbind res_bind].
  by rewrite He.
Qed.

Lemma possession_valid c d now :
  returns c → fullmatch Digest d = true → validate_challenge c now = Ok tt →
  validate POSSESSION (possession_of c d) = Ok tt.
Proof.
  intros Hc Hd Hv. pose proof Hv as (Hs%ensure_Ok & _)%bind_Ok_unit. destruct c as [| | | | | |kvs]; try done.
  inversion Hc as [| | | | |? Hnd _]; subst. unfold validate, validate_possession, _shape.
  rewrite possession_shape by done. cbn [ensure mbind res_bind].
  pose proof (possession_returns _ _ Hc Hd) as Hp. pose proof (challenge_of_returns _ Hp) as Hr.
  rewrite <- validate_challenge_sorted, challenge_answered, validate_challenge_sorted by done.
  by apply (challenge_any_time _ now).
Qed.

Lemma identifier_length id : fullmatch Identifier id = true → (length id ≤ 200)%nat.
Proof. destruct id as [|c id]; [done|]. simpl. intros Hf. bool_hyps. simpl. lia. Qed.

Lemma answer_seals challenge signer ref observed now :
  returns challenge → validate_challenge challenge now = Ok tt →
  dot challenge "key_id" = JStr (signer_key_id signer) →
  signer_deployment_ref signer = Some ref → dot challenge "deployment_ref" = JStr ref →
  fullmatch Digest observed = true →
  Z.of_nat (length (dumps_compact (possession_of challenge observed))) < 2 ^ 32 →
  ∃ env, answer_challenge challenge signer observed now = Ok env ∧
         seal POSSESSION (possession_of challenge observed) signer = Ok env.
Proof.
  intros Hr Hv Hid Href Hdep Hobs Hlen.
  assert (Hdot : ∀ k, lit k ≠ lit "observed_image_digest" → lit k ≠ lit "schema" →
    dot (possession_of challenge observed) k = dot challenge k).
  { intros k Hk1 Hk2. pose proof (possession_items challenge observed (lit k)) as Hi.
    rewrite !bool_decide_false in Hi by done. unfold dot at 1, possession_of. cbn [items_of] in Hi.
    unfold possession_of in Hi. cbn [items_of] in Hi. rewrite Hi. by destruct challenge. }
  pose proof Hv as (Hs%ensure_Ok & _)%bind_Ok_unit.
  pose proof (shape_dot _ _ "key_id" (TText Identifier) Hs eq_refl) as Hf. rewrite Hid in Hf.
  assert (∃ env, seal POSSESSION (possession_of challenge observed) signer = Ok env) as [env Hseal].
  { eexists. apply seal_Ok. split_and!; [by eapply possession_valid|by rewrite Hdot|right; exists ref; by rewrite Hdot|
      by apply returns_dumpable, possession_returns|].
    eexists. split; [|done]. apply signing_Ok. split_and!; [exact Hf| |exact Hlen|done].
    pose proof (identifier_length _ Hf). lia. }
  exists env. split; [|exact Hseal]. unfold answer_challenge. rewrite Hv. cbn [mbind res_bind].
  rewrite bool_decide_true, Href by done. cbn [of_option fmap res_fmap mbind res_bind].
  rewrite bool_decide_true by done. exact Hseal.
Qed.
End safety.

(** C38: an envelope that a signer seals for a document verifies, under the
    signer's public key and for the same purpose, as that document with its
    keys in order; for any other purpose it is refused. *)
Theorem seal_verify `{Crypto} `{Floats} `{UnicodeDB} k doc signer env public_key key :
  returns doc → signs_for signer public_key key → seal k doc signer = Ok env →
  verify k env public_key = Ok (sorted_json doc) ∧
  ∀ k', k' ≠ k → verify k' env public_key = Raise schema_violation.
Proof.
  intros Hd Hs Hseal. split; [by eapply verify_sealed|]. intros k' Hk. by eapply verify_other.
Qed.

(** C39: if the holder of a key signs nothing but what it seals, then a verified
    envelope carries, up to the order of keys, a document that was sealed for
    that very purpose under the key id the document names. *)
Theorem verify_authentic `{Crypto} `{Floats} `{UnicodeDB} (sealed : list (kind * pystr * json)) k env public_key doc :
  Forall (λ d, returns d.2) sealed →
  (∀ key signature m, unb64 public_key = Ok key → ed_verify key signature m = true →
    ∃ k id d, (k, id, d) ∈ sealed ∧ signing_input k id (dumps_compact d) = Ok m) →
  verify k env public_key = Ok doc →
  ∃ id d, (k, id, d) ∈ sealed ∧ doc = sorted_json d ∧ dot d (KEY_FIELDS k) = JStr id.
Proof.
  intros Hsealed Hunforged (id & raw & key & signature & input & _ & _ & Hkey & Hin & _ & Hver & Hraw & Hv & Hid)%verify_Ok.
  destruct (Hunforged _ _ _ Hkey Hver) as (k' & id' & d & Hd & Hin').
  destruct (signing_input_inj _ _ _ _ _ _ _ Hin Hin') as (<- & <- & ->).
  rewrite Forall_forall in Hsealed. specialize (Hsealed _ Hd). simpl in Hsealed.
  assert (Heq : doc = sorted_json d).
  { unfold read_json, loads in Hraw. rewrite decode_ascii in Hraw by (by apply dumps_printable).
    cbn [mbind option_bind] in Hraw. rewrite loads_returns in Hraw by done. by destruct (sorted_json d); inv_res. }
  subst doc. exists id, d. split_and!; [done..|]. rewrite dot_sorted in Hid by done.
  by apply (sorted_scalar _ (JStr id)).
Qed.

(** A host answers every valid challenge that is addressed to its key and its
    deployment: the answer verifies as a possession, of that challenge and of
    the image the host observed. *)
Theorem answer_verifies `{Crypto} `{Floats} `{UnicodeDB} challenge signer public_key key ref observed now :
  returns challenge → signs_for signer public_key key →
  validate_challenge challenge now = Ok tt →
  dot challenge "key_id" = JStr (signer_key_id signer) →
  signer_deployment_ref signer = Some ref → dot challenge "deployment_ref" = JStr ref →
  fullmatch Digest observed = true →
  Z.of_nat (length (dumps_compact (possession_of challenge observed))) < 2 ^ 32 →
  ∃ env doc, answer_challenge challenge signer observed now = Ok env ∧
    verify POSSESSION env public_key = Ok doc ∧
    sorted_json (challenge_of doc) = sorted_json challenge ∧
    dot doc "observed_image_digest" = JStr observed.
Proof.
  intros Hr Hs Hv Hid Href Hdep Hobs Hlen.
  destruct (answer_seals _ _ _ _ _ Hr Hv Hid Href Hdep Hobs Hlen) as (env & Ha & Hseal).
  pose proof (possession_returns _ _ Hr Hobs) as Hp. exists env. eexists.
  split; [exact Ha|]. split; [by eapply verify_sealed|].
  pose proof Hv as (Hsh%ensure_Ok & _)%bind_Ok_unit. destruct challenge as [| | | | | |kvs]; try done.
  inversion Hr as [| | | | |? Hnd _]; subst. split.
  - rewrite challenge_of_sorted by done. by apply challenge_answered.
  - rewrite dot_sorted by done. pose proof (possession_items (JObj kvs) observed (lit "observed_image_digest")) as Hi.
    unfold dot, possession_of. unfold possession_of in Hi. cbn [items_of] in *. by rewrite Hi.
Qed.

(** ** A small instance *)

(** A keyed checksum in place of the cryptography, good enough to tell the
    documents of an example apart. *)
Module Toy.
Definition checksum (raw : bytes) : Z := foldl (λ acc b, (acc * 257 + b + 1) mod 1000000007) 7 raw.
Definition hex_digit (n : Z) : Z := if n <? 10 then 48 + n else 87 + n.
Fixpoint hex (fuel : nat) (n : Z) : pystr :=
  match fuel with O => [] | S fuel => hex_digit (n mod 16) :: hex fuel (n / 16) end.
Definition signature (key m : bytes) : bytes := hex 16 (checksum (key ++ m)).

#[global] Instance crypto : Crypto := {|
  sha256 := λ raw, hex 64 (checksum raw);
  ed_public := λ key, bool_decide (length key = 32%nat);
  ed_verify := λ key s m, bool_decide (s = signature key m);
|}.
#[global] Instance floats : Floats := {| float_repr := λ s, s |}.

Definition key : bytes := repeat 7 32.
Definition host_key_id : pystr := lit "host-1".
Definition ref : pystr := lit "dotmac_sub/staging/dotmac-sub-staging".
Definition host : Signer := {|
  signer_key_id := host_key_id; sign := signature key; signer_deployment_ref := Some ref;
|}.
Definition challenge : json := JObj
  [(lit "schema", JStr CHALLENGE_SCHEMA); (lit "key_id", JStr host_key_id);
   (lit "deployment_ref", JStr ref); (lit "nonce", JStr (b64 (repeat 9 24)));
   (lit "expires_at", JStr (lit "2026-01-01T00:10:00Z"))].
Definition image : pystr := lit "sha256:" ++ repeat 97 64.

Lemma signature_bytes k m : Forall byte (signature k m) ∧ signature k m ≠ [].
Proof.
  split; [|done]. assert (Hd : ∀ n, 0 ≤ n < 16 → byte (hex_digit n)).
  { intros n Hn. unfold hex_digit, byte. case_match; lia. }
  unfold signature. generalize (checksum (k ++ m)), 16%nat. intros n fuel. revert n.
  induction fuel as [|fuel IH]; intros n; [constructor|]. cbn [hex]. constructor; [|apply IH].
  by apply Hd, Z.mod_pos_bound.
Qed.

Lemma host_signs : signs_for host (b64 key) key.
Proof.
  split; [by vm_compute|by vm_compute| |].
  - intros m. by apply bool_decide_eq_true.
  - intros m. apply signature_bytes.
Qed.

Lemma challenge_returns : returns challenge.
Proof.
  constructor; [apply (bool_decide_unpack _); by vm_compute|].
  repeat constructor; by vm_compute.
Qed.
End Toy.

Module Witnesses.
Import Toy.

Definition sealed : json :=
  match seal CHALLENGE challenge host with Ok env => env | Raise _ => JNull end.

Lemma seal_verify_witness :
  seal CHALLENGE challenge host = Ok sealed ∧
  verify CHALLENGE sealed (b64 key) = Ok (sorted_json challenge) ∧
  (∀ k', k' ≠ CHALLENGE → verify k' sealed (b64 key) = Raise schema_violation).
Proof.
  assert (Hs : seal CHALLENGE challenge host = Ok sealed) by (vm_compute; reflexivity).
  split; [exact Hs|]. exact (seal_verify _ _ _ _ _ _ challenge_returns host_signs Hs).
Defined.

(** A key that signed the challenge above and nothing else. *)
Definition signed : bytes :=
  match signing_input CHALLENGE host_key_id (dumps_compact challenge) with Ok m => m | Raise _ => [] end.
Definition signed_once : Crypto := {|
  sha256 := λ raw, hex 64 (checksum raw);
  ed_public := λ k, bool_decide (length k = 32%nat);
  ed_verify := λ k s m, bool_decide (m = signed ∧ s = signature k m);
|}.

Lemma verify_authentic_witness :
  verify (H := signed_once) CHALLENGE sealed (b64 key) = Ok (sorted_json challenge) ∧
  ∃ id d, (CHALLENGE, id, d) ∈ [(CHALLENGE, host_key_id, challenge)] ∧
          sorted_json challenge = sorted_json d ∧ dot d "key_id" = JStr id.
Proof.
  assert (Hv : verify (H := signed_once) CHALLENGE sealed (b64 key) = Ok (sorted_json challenge))
    by (vm_compute; reflexivity).
  split; [exact Hv|].
  refine (verify_authentic (H := signed_once) _ _ _ _ _ _ _ Hv).
  - constructor; [exact challenge_returns|constructor].
  - intros k s m _ Hm. apply bool_decide_eq_true in Hm as [-> _].
    exists CHALLENGE, host_key_id, challenge. split; [by apply list_elem_of_singleton|].
    vm_compute. reflexivity.
Defined.

Lemma answer_verifies_witness :
  ∃ env doc, answer_challenge challenge host image (Some 0) = Ok env ∧
    verify POSSESSION env (b64 key) = Ok doc ∧
    sorted_json (challenge_of doc) = sorted_json challenge ∧
    dot doc "observed_image_digest" = JStr image.
Proof.
  refine (answer_verifies challenge host (b64 key) key ref image (Some 0)
    challenge_returns host_signs _ _ _ _ _ _); vm_compute; reflexivity.
Defined.
End Witnesses.
