(* ===== verification/GateEvidence.v ===== *)
(** * Gate 0 evidence

    [deploy_agent/gate_evidence.py]: the closed documents a gate campaign
    submits, and their validation; with [ipaddress.ip_address] of a text, which
    it calls: an IPv4 or an IPv6 address (with its scope), or [ValueError]. *)

From S2P Require Import Prelude PyText PyUuid Json JsonReader JsonRound PyDate PyTime Contracts.

#[local] Open Scope Z_scope.

Inductive ip := V4 (n : Z) | V6 (n : Z) (scope : option pystr).

#[export] Instance ip_eq_dec : EqDecision ip.
Proof. solve_decision. Defined.

Definition version (a : ip) : Z := match a with V4 _ => 4 | V6 _ _ => 6 end.

(** A decimal octet: up to three digits, without a leading zero. *)
Definition octet (s : pystr) : option Z :=
  if negb (bool_decide (s = [])) && forallb ascii_digit s && bool_decide (length s ≤ 3)%nat &&
     (bool_decide (s = [48]) || negb (starts_with [48] s)) && (number s <=? 255)
  then Some (number s) else None.
Definition v4 (s : pystr) : option Z :=
  let parts := split_on 46 s in
  if bool_decide (length parts = 4%nat) then
    octets ← mapM octet parts; Some (foldl (λ a b, a * 256 + b) 0 octets)
  else None.

(** A group of up to four hexadecimal digits. *)
Definition hextet (s : pystr) : option Z :=
  if negb (bool_decide (s = [])) && bool_decide (length s ≤ 4)%nat then
    digits ← mapM hexval s; Some (foldl (λ a b, a * 16 + b) 0 digits)
  else None.
Definition hextets (parts : list pystr) : option Z :=
  values ← mapM hextet parts; Some (foldl (λ a b, a * 65536 + b) 0 values).

(** The groups, the last two of which may be written as an IPv4 address. *)
Definition v6_parts (s : pystr) : option (list pystr) :=
  let parts := split_on 58 s in
  if bool_decide (length parts < 3)%nat then None
  else
    let final := default [] (last parts) in
    parts ← (if bool_decide (46 ∈ final)
             then n ← v4 final;
                  Some (take (length parts - 1) parts ++ [hex_digits 4 (n / 65536); hex_digits 4 (n mod 65536)])
             else Some parts);
    if bool_decide (length parts ≤ 9)%nat then Some parts else None.

(** The indices of the empty groups that are neither first nor last. *)
Definition gaps (parts : list pystr) : list nat :=
  filter (λ i, parts !! i = Some []) (seq 1 (length parts - 2)).

Definition v6 (s : pystr) : option Z :=
  parts ← v6_parts s;
  let opens := bool_decide (head parts = Some []) in
  let closes := bool_decide (last parts = Some []) in
  match gaps parts with
  | [] =>
      if bool_decide (length parts = 8%nat) && negb opens && negb closes then hextets parts else None
  | [gap] =>
      (* [::] stands for the groups that are missing; it may begin or end the text *)
      let high := take gap parts in
      let low := drop (S gap) parts in
      let skipped := (8 - ((gap - (if opens then 1 else 0)) + (length low - (if closes then 1 else 0))))%nat in
      if (negb opens || bool_decide (gap = 1%nat)) && (negb closes || bool_decide (length low = 1%nat)) &&
         bool_decide (1 ≤ skipped)%nat
      then high ← hextets (if opens then [] else high); low' ← hextets (if closes then [] else low);
           Some (high * 65536 ^ Z.of_nat (8 - (if opens then 0 else gap)) + low')
      else None
  | _ => None
  end.

(** The scope after a [%]. *)
Fixpoint partition (c : Z) (s : pystr) : pystr * option pystr :=
  match s with
  | [] => ([], None)
  | d :: s' => if d =? c then ([], Some s') else let '(a, b) := partition c s' in (d :: a, b)
  end.

Definition ip_address (s : pystr) : res ip :=
  let bad := Exn ValueError "does not appear to be an IPv4 or IPv6 address" in
  match v4 s with
  | Some n => Ok (V4 n)
  | None =>
      let '(addr, scope) := partition 37 s in
      ensure (match scope with Some sc => negb (bool_decide (sc = [])) && negb (bool_decide (37 ∈ sc)) | None => true end) bad;;
      n ← of_option (v6 addr) bad;
      Ok (V6 n scope)
  end.

Definition texts (l : list string) : hint := TLit (JStr <$> (lit <$> l)).
Definition Bounded : hint := TText BoundedText.
Definition DigestText : hint := TText Digest.
Definition UUIDText_ : hint := TText UUIDText.

Definition HostObservation : hint := TTyped
  [field "observed_at" TStr; field "observed" Observed; field "health" Health;
   field "executor_count" TInt].
Definition CASES : list string := ["bad_signature"; "nonce_replay"; "rollback_digest"]%string.
Definition RefusalEvidence : hint := TTyped
  [field "case" (texts CASES); field "submitted_sha256" DigestText; field "nonce" Bounded;
   field "report_id" UUIDText_; field "report_sha256" DigestText;
   field "classification" (texts ["accepted"; "quarantined"]%string);
   field "expected_code" (texts CASES); field "observed_code" (texts CASES);
   field "journal_start" Bounded; field "journal_end" Bounded;
   field "normal_poll_journal_start" Bounded; field "normal_poll_journal_end" Bounded;
   field "cleanup_observed_at" TStr; field "ledger_commit" (TText Revision);
   field "before" HostObservation; field "after" HostObservation].
Definition TransitionEvidence : hint := TTyped
  [field "nonce" Bounded; field "desired_sha256" DigestText;
   field "source_preparation_sha256" DigestText; field "report_id" UUIDText_;
   field "report_sha256" DigestText; field "receipt_sha256" DigestText;
   field "ledger_commit" (TText Revision); field "before" HostObservation;
   field "after" HostObservation; field "signatures_verified" TBool; field "runners_stopped" TBool].
Definition DNSRecord : hint := TTyped
  [field "family" (texts ["A"; "AAAA"]%string); field "address" Bounded; field "ttl" TInt;
   field "kernel_timeout_ms" TInt; field "kernel_expires_ms" TInt].
Definition EgressEvidence : hint := TTyped
  [field "hostname" Bounded; field "started_at" TStr; field "old_expiry_observed_at" TStr;
   field "finished_at" TStr; field "transition_report_id" UUIDText_;
   field "transition_report_sha256" DigestText; field "probe_rule_handle" TInt;
   field "probe_source_port" TInt; field "probe_rule_removed" TBool;
   field "before" (TList DNSRecord); field "after" (TList DNSRecord);
   field "elapsed_seconds" TInt; field "kernel_rules_sha256" DigestText;
   field "terminal_drop" TBool; field "counter_before" TInt; field "counter_after" TInt;
   field "disallowed_address" Bounded; field "disallowed_port" TInt;
   field "fresh_connection_failed" TBool; field "allowed_deployment_succeeded" TBool].
Definition RestoreEvidence : hint := TTyped
  [field "source_identity" Bounded; field "test_host_identity" Bounded;
   field "bundle_sha256" DigestText; field "capture_sha256" DigestText;
   field "capture_started_at" TStr; field "capture_finished_at" TStr;
   field "source_inventory_sha256" DigestText; field "restored_inventory_sha256" (or_none DigestText);
   field "no_ddl_enforced" TBool; field "source_parity" (or_none TBool);
   field "scratch_absent" (or_none TBool)].
Definition OIDCEvidence : hint := TTyped
  [field "main_run_id" TInt; field "negative_run_id" TInt; field "main_sha256" DigestText;
   field "negative_sha256" DigestText; field "main_accepted" TBool; field "negative_refused" TBool].
Definition ProofOutcome : hint := TTyped
  [field "proof" (TLit (JInt <$> [1; 2; 3; 4; 5])); field "outcome" (texts ["pass"; "fail"]%string);
   field "failure_code" (texts ["none"; "evidence_missing"; "observation_mismatch";
     "cleanup_failed"; "transport_failed"]%string);
   field "cleanup" (texts ["pass"; "fail"]%string); field "oidc" (or_none OIDCEvidence);
   field "refusals" (TList RefusalEvidence); field "transition" (or_none TransitionEvidence);
   field "egress" (or_none EgressEvidence); field "restore" (or_none RestoreEvidence)].
Definition GateContext_fields :=
  [field "run_id" UUIDText_; field "phase" (texts ["initial"; "repeatability"; "next_morning"]%string);
   field "prior_run_id" (or_none UUIDText_); field "source_revision" (TText Revision);
   field "source_tree" (TText Revision); field "deployment_ref" Bounded;
   field "tool_revision" (TText Revision); field "host_key_id" (TText Identifier);
   field "action_refs" (TList (TText Identifier)); field "deadline" TStr].
Definition GateContext : hint := TTyped GateContext_fields.
Definition GateEvidence_ : hint := TTyped (GateContext_fields ++
  [field "command_id" UUIDText_; field "proofs" (TList ProofOutcome)]).

(** [bool(v)]. *)
Definition truthy (v : json) : bool :=
  match v with
  | JNull => false
  | JBool b => b
  | JInt n => negb (n =? 0)
  | JFloat r => negb (bool_decide (r ∈ [lit "0.0"; lit "-0.0"]))
  | JStr s => negb (bool_decide (s = []))
  | JArr l => negb (bool_decide (l = []))
  | JObj kvs => negb (bool_decide (kvs = []))
  end.

(** [v == s] for a text. *)
Definition is_text (v : json) (s : string) : bool := bool_decide (v = JStr (lit s)).

(** The evidence a proof carries: where, and which proofs may carry it. *)
Definition carried : list (string * list Z) :=
  [("oidc", [1]); ("refusals", [2]); ("transition", [3; 4]); ("egress", [4]); ("restore", [5])]%string.

Section evidence.
Context `{CRY : Crypto} `{FL : Floats} `{UCD : UnicodeDB}.

Definition raw_digest (raw : bytes) : pystr := lit "sha256:" ++ sha256 raw.

Definition validate_proof (proof : json) : res unit :=
  let failure := dot proof "failure_code" in
  let failed := is_text (dot proof "outcome") "fail" in
  require (bool_decide (length (list_of (dot proof "refusals")) ≤ 3)%nat) "schema_violation";;
  require (eqb (is_text failure "none") (is_text (dot proof "outcome") "pass")) "schema_violation";;
  require (is_text (dot proof "cleanup") "pass" || failed) "schema_violation";;
  mapM (λ '(name, numbers),
    let present := truthy (dot proof name) in
    let expected := bool_decide (int_of (dot proof "proof") ∈ numbers) in
    require (negb present || expected) "schema_violation";;
    if expected && negb present
    then require (failed && (is_text failure "evidence_missing" || is_text failure "transport_failed"))
           "schema_violation"
    else Ok tt) carried;;
  Ok tt.

(** [str(UUID(v)) == v], unless [v] is [None]. *)
Definition canonical_uuid (v : json) : res unit :=
  match v with
  | JNull => Ok tt
  | v => u ← UUID (str_of v); require (bool_decide (JStr (uuid_str u) = v)) "schema_violation"
  end.

Definition validate (request : json) (historical : bool) : res unit :=
  raw ← canonical_json request;
  require (bool_decide (Z.of_nat (length raw) ≤ 131072)) "schema_violation";;
  _shape request GateEvidence_;;
  let prior := dot request "prior_run_id" in
  let actions := list_of (dot request "action_refs") in
  let proofs := list_of (dot request "proofs") in
  require (historical || negb (is_text (dot request "phase") "next_morning")) "retired_phase";;
  mapM (λ k, canonical_uuid (dot request k)) ["run_id"; "command_id"; "prior_run_id"]%string;;
  require (eqb (bool_decide (prior = JNull)) (is_text (dot request "phase") "initial")) "schema_violation";;
  require (negb (bool_decide (prior = dot request "run_id"))) "schema_violation";;
  require (bool_decide (1 ≤ length actions ≤ 16)%nat && bool_decide (NoDup actions)) "schema_violation";;
  timestamp (str_of (dot request "deadline"));;
  require (bool_decide (1 ≤ length proofs ≤ 5)%nat &&
           bool_decide (NoDup ((λ p, dot p "proof") <$> proofs))) "schema_violation";;
  mapM validate_proof proofs;;
  Ok tt.
End evidence.
