(* ===== verification/AgentLedger.v ===== *)
(** * The deploy agent's ledger

    [deploy_agent/ledger.py]: an append-only git repository with one writer.
    What the agent needs of its host (git, files, the database, the clock and
    the random source) is the class [Host]; [site] is what of the host the
    agent can tell, and [answer] the result of a git command that succeeds on a
    site.  [ideal] is a host on which nothing fails. *)

From S2P Require Import Prelude PyText PyUuid PyDate PyTime Json JsonReader JsonRound Contracts Effects.

#[local] Open Scope Z_scope.

(** ** The host *)

(** The rows of [deploy_agent_receipts] and of [deploy_host_keys], and the audit
    events the kernel writes for the agent.  A nullable column holds JSON, null
    when the column is. *)
Record ReceiptRow := {
  r_path : pystr;
  r_kind : pystr;
  r_deployment_ref : json;
  r_report_id : json;
  r_nonce : json;
  r_fingerprint : pystr;
  r_envelope : json;
}.
Record KeyRow := {
  k_key_id : pystr;
  k_deployment_ref : pystr;
  k_public_key_b64 : pystr;
  k_state : pystr;
  k_event_path : pystr;
}.
Record AuditRow := {
  a_actor : option uuid;
  a_entity_id : pystr;
  a_fingerprint : pystr;
  a_kind : pystr;
}.
Record tables := Tables {
  receipts : list ReceiptRow;
  host_keys : list KeyRow;
  audit : list AuditRow;
}.

(** The git commands of the agent, with the arguments that vary. *)
Inductive git_cmd :=
  (** [status --porcelain] *)
  | Status
  (** [log --format= --name-only --no-renames --diff-filter=MDT -- desired applied ...] *)
  | RewriteLog
  (** [fetch r] *)
  | Fetch (remote : pystr)
  (** [symbolic-ref --short HEAD] *)
  | HeadBranch
  (** [rev-parse rev] *)
  | RevParse (rev : pystr)
  (** [ls-tree -r --name-only HEAD] *)
  | LsTree
  (** [show rev:path] *)
  | Show (rev path : pystr)
  (** [log --reverse --format= --name-only --diff-filter=A] *)
  | AddedLog
  (** [log --format=%H --diff-filter=A -- path] *)
  | AdditionLog (path : pystr)
  (** [merge-base --is-ancestor a b] *)
  | IsAncestor (a b : pystr)
  (** [add -- names] *)
  | Add (names : list pystr)
  (** [commit -m message] *)
  | CommitIndex (message : pystr)
  (** [push r HEAD] *)
  | Push (remote : pystr).

Class Host := {
  hstate : Type;
  (** [subprocess.run]: the return code and the standard output *)
  run_git : git_cmd → proc hstate exn (Z * bytes);
  (** the directories above a file, opened or made one by one *)
  make_parents : pystr → proc hstate exn unit;
  (** a new file, with [O_EXCL], written and synced *)
  write_new : pystr → bytes → proc hstate exn unit;
  (** what a database transaction sees, and its commit *)
  db_read : proc hstate exn tables;
  db_commit : tables → proc hstate exn unit;
  (** [datetime.now(UTC)], [secrets.token_bytes(24)] and [uuid4()] *)
  clock : proc hstate exn moment;
  token : proc hstate exn bytes;
  uuid4 : proc hstate exn uuid;
}.

(** [raise ContractError(code)], unless [b]. *)
Definition demand `{HST : Host} (b : bool) (code : string) : proc hstate exn unit :=
  Effects.require b (refusal code).

(** A pure step of a procedure. *)
Definition pure `{HST : Host} {A} (m : res A) : proc hstate exn A :=
  match m with Ok a => mret a | Raise e => throw e end.

(** [except OSError: raise ContractError(code)]. *)
Definition os_error_as `{HST : Host} {A} (code : string) (m : proc hstate exn A) : proc hstate exn A :=
  try_except m (λ e, if bool_decide (exn_kind e = OSError) then throw (refusal code) else throw e).

(** ** The ledger *)

Definition HEAD : pystr := lit "HEAD".

(** [raw.decode()]. *)
Definition decode_text (raw : bytes) : res pystr :=
  s ← of_option (utf8 (length raw) raw) (Exn ValueError "UnicodeDecodeError");
  ensure (forallb (λ c, negb (between 55296 57343 c)) s) (Exn ValueError "UnicodeDecodeError");;
  Ok s.

(** [raw.strip()] of bytes. *)
Definition bytes_strip (raw : bytes) : bytes := strip_by c_space raw.

(** [Path(name)] is a plain relative path, written as [name] writes it. *)
Definition path_ok (name : pystr) : bool :=
  forallb (λ part, negb (bool_decide (part ∈ [[]; lit "."; lit ".."; lit ".git"]))) (split_on 47 name) &&
  negb (bool_decide (0 ∈ name)).

Definition ends_with (suffix s : pystr) : bool := starts_with (reverse suffix) (reverse s).
Definition is_json (name : pystr) : bool := ends_with (lit ".json") name.

Section ledger.
Context `{HST : Host} `{Floats} `{UnicodeDB}.

(** [GitLedger(root, remote=...)]; the root is the host's repository. *)
Record GitLedger := { remote : option pystr }.
Context (self : GitLedger).

Definition git (c : git_cmd) : proc hstate exn bytes :=
  '(code, out) ← run_git c; demand (code =? 0) "ledger_unavailable";; mret out.

(** The branch is where the remote's is. *)
Definition in_step (r : pystr) : proc hstate exn unit :=
  git (Fetch r);;
  out ← git HeadBranch; branch ← pure (decode_text out);
  here ← git (RevParse HEAD);
  there ← git (RevParse (r ++ 47 :: strip branch));
  demand (bool_decide (here = there)) "ledger_conflict".

(** The checks of [with ledger.transaction(): body].  The lock makes the
    transactions of all processes follow one another. *)
Definition begin : proc hstate exn unit :=
  out ← git Status; demand (bool_decide (out = [])) "ledger_dirty";;
  out ← git RewriteLog; demand (bool_decide (bytes_strip out = [])) "ledger_rewritten";;
  match remote self with
  | Some r => in_step r
  | None => mret tt
  end.
Definition transaction {A} (body : proc hstate exn A) : proc hstate exn A := begin;; body.

Definition show (name : pystr) : proc hstate exn (pystr * bytes) :=
  raw ← git (Show HEAD name); mret (name, raw).

Definition names (c : git_cmd) : proc hstate exn (list pystr) :=
  out ← git c; text ← pure (decode_text out); mret (splitlines text).

Definition records (prefix : pystr) : proc hstate exn (list (pystr * bytes)) :=
  all ← names LsTree;
  traverse show (filter (λ n, starts_with prefix n = true ∧ is_json n = true) (sort_by text_leb all)).

Definition read (name : pystr) : proc hstate exn (option bytes) :=
  all ← records name;
  mret (snd <$> head (filter (λ r, r.1 = name) all)).

(** The files of a batch that are not there yet. *)
Fixpoint pending_of (values : list (pystr * json)) : proc hstate exn (list (pystr * bytes)) :=
  match values with
  | [] => mret []
  | (name, value) :: values =>
      demand (path_ok name) "ledger_path";;
      raw ← pure (canonical_json value);
      existing ← read name;
      match existing with
      | Some old => demand (bool_decide (old = raw)) "ledger_conflict";; pending_of values
      | None => rest ← pending_of values; mret ((name, raw) :: rest)
      end
  end.

Definition append_many (values : list (pystr * json)) : proc hstate exn bool :=
  pending ← pending_of values;
  os_error_as "ledger_path"
    (for_each make_parents pending.*1;; for_each (λ f, write_new f.1 f.2) pending);;
  match pending with
  | [] => mret false
  | _ =>
      git (Add pending.*1);;
      git (CommitIndex (lit "deploy-agent append " ++ join (lit ",") pending.*1));;
      match remote self with Some r => git (Push r);; mret tt | None => mret tt end;;
      mret true
  end.

Definition events : proc hstate exn (list (pystr * json)) :=
  all ← names AddedLog;
  traverse (λ n, '(n, raw) ← show n; v ← pure (read_json raw); mret (n, v)) (filter (λ n, is_json n = true) all).
End ledger.
