(* ===== verification/GateAdmission.v ===== *)
(** * Gate 0 admission: the checks

    [deploy_agent/gate_admission.py] but for [admit_], which appends: the
    campaign's scope, what the evidence of a proof must agree with (the ledger's
    signed reports and commands at the commit it names, the scope, the order of
    its times), and [history], which checks every retained pair again. *)

From S2P Require Import Prelude PyText PyUuid PyDate PyTime Json JsonReader JsonRound Effects Contracts AgentLedger GateEvidence.

#[local] Open Scope Z_scope.

(** ** Documents *)

Definition CampaignScope : hint := TTyped
  [field "context" GateContext; field "actor_admin_ids" (TList UUIDText_);
   field "host_public_key_sha256" DigestText; field "candidates" (TList Plan);
   field "restore_source_identity" Bounded; field "restore_test_host_identity" Bounded;
   field "oidc_main_run_id" TInt; field "oidc_negative_run_id" TInt;
   field "oidc_main_sha256" DigestText; field "oidc_negative_sha256" DigestText;
   field "restore_bundle_sha256" DigestText; field "restore_capture_sha256" DigestText;
   field "restore_inventory_sha256" DigestText; field "source_preparation_sha256" DigestText;
   field "egress_hostname" Bounded; field "egress_disallowed_address" Bounded;
   field "egress_disallowed_port" TInt; field "observation_not_before" TStr;
   field "prior_evidence_sha256" (or_none DigestText)].
Definition CommandRecord : hint := TTyped
  [field "fingerprint" DigestText; field "actor_admin_id" UUIDText_;
   field "evidence_path" Bounded; field "scope" CampaignScope].

(** [RegisterKey] and [KeyRecord] of [models.py]. *)
Definition RegisterKey_fields :=
  [field "key_id" (TText Identifier); field "deployment_ref" TStr; field "public_key_b64" TStr].
Definition RegisterKey : hint := TTyped RegisterKey_fields.
Definition KeyRecord : hint := TTyped (RegisterKey_fields ++
  [field "actor_admin_id" TStr; field "state" (texts ["pending"; "active"; "revoked"]%string);
   field "challenge" (or_none Challenge); optional "possession" Envelope;
   optional "baseline_digest" DigestText; optional "received_at" TStr]).

(** ** Reading *)

(** [v[k]] of a document whose shape is not known. *)
Definition item (v : json) (k : string) : res json :=
  match v with
  | JObj kvs => of_option (dict_get kvs (lit k)) (Exn KeyError k)
  | _ => Raise (Exn TypeError "not subscriptable with a text")
  end.

(** [v[k]] read as a time stamp. *)
Definition at_ (v : json) (k : string) : res Z := timestamp (str_of (dot v k)).

Definition text (v : json) (k : string) : pystr := str_of (dot v k).
Definition num (v : json) (k : string) : Z := int_of (dot v k).
Definition flag (v : json) (k : string) : bool := bool_of (dot v k).
Definition same (a b : json) : bool := bool_decide (a = b).

(** ** The scope of a campaign *)

Section scope.
Context `{CRY : Crypto} `{FL : Floats} `{UCD : UnicodeDB}.

Definition scope_bytes (scope : json) (historical : bool) : res bytes :=
  _shape scope CampaignScope;;
  let context := dot scope "context" in
  let first_run := bool_decide (dot context "prior_run_id" = JNull) in
  require (historical || negb (is_text (dot context "phase") "next_morning")) "retired_phase";;
  require (truthy (dot scope "actor_admin_ids") && truthy (dot scope "candidates")) "campaign_configuration";;
  require (bool_decide (NoDup (list_of (dot scope "actor_admin_ids")))) "campaign_configuration";;
  require (bool_decide (NoDup (list_of (dot context "action_refs"))) && truthy (dot context "action_refs"))
    "campaign_configuration";;
  since ← at_ scope "observation_not_before"; deadline ← at_ context "deadline";
  require (since <? deadline) "campaign_configuration";;
  require (eqb (is_text (dot context "phase") "initial") first_run) "campaign_configuration";;
  require (eqb first_run (bool_decide (dot scope "prior_evidence_sha256" = JNull))) "campaign_configuration";;
  require ((0 <? num scope "oidc_main_run_id") && (0 <? num scope "oidc_negative_run_id") &&
           negb (num scope "oidc_main_run_id" =? num scope "oidc_negative_run_id")) "campaign_configuration";;
  require (deadline - since <=? DAY) "campaign_configuration";;
  mapM (λ plan,
    require (is_text (dot plan "product") "dotmac_sub" && is_text (dot plan "environment") "staging" &&
             bool_decide (text context "deployment_ref" = lit "dotmac_sub/staging/" ++ text plan "host"))
      "candidate_scope";;
    require ((0 <? num plan "build_run_id") && (0 <? num plan "evidence_run_id")) "candidate_scope";;
    plan_digest plan) (list_of (dot scope "candidates"));;
  canonical_json scope.

(** ** Paths *)

Definition GATE0 : pystr := lit "gate0/".
Definition date_text (d : date) : pystr :=
  padded 4 (year d) ++ 45 :: padded 2 (month d) ++ 45 :: padded 2 (day d).
Definition evidence_path (request : json) : res pystr :=
  t ← of_option (read_moment (text request "deadline")) schema_violation;
  Ok (GATE0 ++ date_text (m_date t) ++ 47 :: text request "run_id" ++ lit "/evidence.json").
Definition command_path (request : json) : pystr :=
  GATE0 ++ lit "commands/" ++ text request "command_id" ++ lit ".json".

(** ** Observations *)

Definition healthy (observation : json) (passed : bool) : res unit :=
  let health := dot observation "health" in
  let live := dot health "live" in
  let ready := dot health "ready" in
  let background := dot health "background" in
  let containers := items_of (dot background "containers") in
  let observed := dot observation "observed" in
  at_ observation "observed_at";;
  require (0 <=? num observation "executor_count") "observation_mismatch";;
  at_ live "checked_at";; at_ ready "checked_at";;
  if negb passed then Ok tt
  else
    require (same (dot live "status") (JInt 200) && same (dot ready "status") (JInt 200) &&
             is_text (dot ready "body_status") "ready" && flag background "celery_inspect_ok" &&
             flag background "restart_counts_zero" &&
             forallb (λ k, bool_decide (k ∈ containers.*1)) [lit "app"; lit "celery-worker"] &&
             forallb (λ kv, is_text kv.2 "running") containers) "observation_mismatch";;
    require (negb (same (dot observed "running_image") JNull) &&
             same (dot observed "running_image") (dot observed "pinned_image") &&
             negb (same (dot observed "running_revision_label") JNull) &&
             same (dot observed "running_revision_label") (dot observed "pinned_git_sha"))
      "observation_mismatch".

(** [timestamp(a) <= timestamp(b) <= ...], evaluated from the left. *)
Fixpoint in_order (previous : Z) (times : list (json * string)) (code : string) : res unit :=
  match times with
  | [] => Ok tt
  | (v, k) :: times => t ← at_ v k; require (previous <=? t) code;; in_order t times code
  end.

Definition observed_interval (before after scope : json) (passed : bool) : res unit :=
  healthy before passed;; healthy after passed;;
  since ← at_ scope "observation_not_before";
  mapM (λ '(observation, k),
    in_order since [(dot (dot observation "health") k, "checked_at"); (observation, "observed_at")]%string
      "observation_interval")
    [(before, "live"); (before, "ready"); (after, "live"); (after, "ready")]%string;;
  in_order since [(before, "observed_at"); (after, "observed_at"); (dot scope "context", "deadline")]%string
    "observation_interval".

Definition signed_interval (report desired ref scope : json) : res unit :=
  lower ← at_ scope "observation_not_before"; upper ← at_ (dot scope "context") "deadline";
  observed ← at_ report "observed_at";
  issued ← at_ desired "issued_at";
  require ((lower <=? issued) && (issued <=? observed) && (observed <=? upper)) "signed_observation_interval";;
  before ← at_ (dot ref "before") "observed_at";
  require (before <=? observed) "signed_observation_interval";;
  in_order observed [(dot ref "after", "observed_at")]%string "signed_observation_interval".

(** ** Egress *)

Definition addresses (family : string) (records : list json) : res (list ip) :=
  mapM (λ r, ip_address (text r "address")) (filter (λ r, is_text (dot r "family") family = true) records).

Definition check_record (passed : bool) (record : json) : res unit :=
  let ttl := num record "ttl" in
  let expires := num record "kernel_expires_ms" in
  let timeout := num record "kernel_timeout_ms" in
  require ((0 <? ttl) && (ttl <=? 86400) && (0 <=? expires) && (expires <=? timeout)) "dns_evidence";;
  (if passed
   then require ((ttl <=? 300) && (0 <? expires) && (expires <=? timeout) && (timeout <=? (ttl + 2) * 1000))
          "dns_evidence"
   else Ok tt);;
  address ← value_error_as "dns_evidence" (ip_address (text record "address"));
  require (version address =? (if is_text (dot record "family") "A" then 4 else 6)) "dns_evidence".

Definition check_records (passed : bool) (values : list json) : res unit :=
  require (bool_decide (length values ≤ 32)%nat) "dns_evidence";;
  (if passed
   then require (negb (bool_decide (values = [])) &&
                 forallb (λ f, existsb (λ r, is_text (dot r "family") f) values) ["A"; "AAAA"]%string)
          "dns_evidence"
   else Ok tt);;
  mapM (check_record passed) values;; Ok tt.

Definition longest_ttl (records : list json) : Z := foldr (λ r, Z.max (num r "ttl")) 0 records.

Definition verify_egress (evidence transition scope : json) (passed : bool) : res unit :=
  let n := num evidence in
  let agrees a b := same (dot evidence a) (dot scope b) in
  require (agrees "hostname" "egress_hostname" && agrees "disallowed_address" "egress_disallowed_address" &&
           agrees "disallowed_port" "egress_disallowed_port") "egress_binding";;
  require (same (dot evidence "transition_report_id") (dot transition "report_id") &&
           same (dot evidence "transition_report_sha256") (dot transition "report_sha256") &&
           (0 <? n "probe_rule_handle") && (1 <=? n "probe_source_port") && (n "probe_source_port" <=? 65535) &&
           (1 <=? n "disallowed_port") && (n "disallowed_port" <=? 65535) &&
           (0 <=? n "counter_before") && (n "counter_before" <=? n "counter_after")) "egress_binding";;
  (if passed
   then require (flag evidence "terminal_drop" && (n "counter_before" <? n "counter_after") &&
                 flag evidence "fresh_connection_failed" && flag evidence "allowed_deployment_succeeded" &&
                 flag evidence "probe_rule_removed") "proof_failed"
   else Ok tt);;
  started ← at_ evidence "started_at"; finished ← at_ evidence "finished_at";
  since ← at_ scope "observation_not_before";
  require (since <=? started) "observation_interval";;
  after ← at_ (dot transition "after") "observed_at";
  require ((started <=? after) && (after <=? finished)) "observation_interval";;
  deadline ← at_ (dot scope "context") "deadline";
  require ((finished <=? deadline) && (0 <=? n "elapsed_seconds") &&
           (n "elapsed_seconds" * SECOND <=? finished - started)) "observation_interval";;
  let old := list_of (dot evidence "before") in
  let fresh := list_of (dot evidence "after") in
  check_records passed old;; check_records passed fresh;;
  expired ← at_ evidence "old_expiry_observed_at";
  require ((started <=? expired) && (expired <=? finished)) "observation_interval";;
  (if passed
   then
     limit ← shift started ((longest_ttl old + 3) * SECOND);
     require ((expired <=? limit) && (longest_ttl old <=? n "elapsed_seconds"))
       "dns_expiry";;
     mapM (λ family,
       gone ← addresses family old; left ← addresses family fresh;
       require (forallb (λ a, bool_decide (a ∉ left)) gone) "dns_evidence") ["A"; "AAAA"]%string;;
     Ok tt
   else Ok tt);;
  value_error_as "dns_evidence" (ip_address (text evidence "disallowed_address"));;
  Ok tt.

(** ** Verdicts *)

Definition required (request : json) : list Z :=
  if is_text (dot request "phase") "initial" then [1; 2; 3; 4; 5] else [2; 3; 4].

Definition passes (proof : json) : bool := is_text (dot proof "outcome") "pass".

(** [PASS] is [true]. *)
Definition terminal_verdict (request : json) : res bool :=
  let proofs := list_of (dot request "proofs") in
  let numbers := (λ p, num p "proof") <$> proofs in
  let passed := forallb passes proofs in
  require (negb passed || forallb (λ n, bool_decide (n ∈ numbers)) (required request)) "proof_set";;
  require (forallb (λ n, bool_decide (n ∈ required request)) numbers) "proof_set";;
  Ok passed.

Definition authorize (request scope : json) (actor : uuid) : res unit :=
  require (bool_decide (JStr (uuid_str actor) ∈ list_of (dot scope "actor_admin_ids"))) "campaign_actor";;
  require (forallb (λ kv, same_json (default JNull (dict_get (items_of request) kv.1)) kv.2)
             (items_of (dot scope "context"))) "campaign_scope".
End scope.

(** ** Against the ledger *)

Section gate.
Context `{HST : Host} `{CRY : Crypto} `{FL : Floats} `{UCD : UnicodeDB}.
#[local] Abbreviation proc := (proc hstate exn).

(** The service, as far as it is configured. *)
Record Agent := {
  ledger : GitLedger;
  signer : Signer;
  public_key_b64 : pystr;
  deployment_ref : pystr;
  candidate_reader : option (json → proc unit);
  gate_scope : option bytes;
}.
Context (owner : Agent).

(** [c.verify] followed by its validator. *)
Definition verified (k : kind) (envelope : json) (key : pystr) : proc json := pure (verify k envelope key).

Definition addition_commit (path : pystr) : proc pystr :=
  commits ← names (AdditionLog path);
  match commits with [c] => mret c | _ => throw (refusal "ledger_identity") end.

(** The last record of a key among the events that precede [before]. *)
Fixpoint last_key (before : option pystr) (id : json) (key : option json)
    (events : list (pystr * json)) : res (option json) :=
  match events with
  | [] => Ok key
  | (path, event) :: events =>
      if bool_decide (before = Some path) then Ok key
      else if starts_with (lit "keys/") path
      then k ← item event "key_id"; last_key before id (if same k id then Some event else key) events
      else last_key before id key events
  end.

Definition enrolled_key (request : json) (before : option pystr) : proc json :=
  all ← events;
  key ← pure (last_key before (dot request "host_key_id") None all);
  match key with
  | None => throw (refusal "host_key_inactive")
  | Some key =>
      state ← pure (item key "state");
      demand (is_text state "active") "host_key_inactive";;
      ref ← pure (item key "deployment_ref");
      demand (same ref (dot request "deployment_ref")) "host_key_inactive";;
      pure (_shape key KeyRecord);;
      mret key
  end.

Definition present (path : pystr) (code : string) : proc bytes :=
  raw ← read path; match raw with Some raw => mret raw | None => throw (refusal code) end.

(** The report's envelope, from the path its classification gives. *)
Definition report_envelope (request ref : json) : proc (pystr * bytes * json) :=
  let classification := if bool_decide (lit "classification" ∈ (items_of ref).*1)
                        then dot ref "classification" else JStr (lit "accepted") in
  if is_text classification "accepted"
  then
    let path := lit "applied/" ++ text request "deployment_ref" ++ 47 :: text ref "report_id" ++ lit ".json" in
    raw ← present path "evidence_missing"; envelope ← pure (read_json raw); mret (path, raw, envelope)
  else
    let path := lit "quarantine/" ++ drop 7 (text ref "report_sha256") ++ lit ".json" in
    raw ← present path "evidence_missing"; record ← pure (read_json raw);
    pure (exact record [lit "code"; lit "envelope"]);;
    demand (is_text (dot record "code") "nonce_replay" && is_text (dot ref "case") "nonce_replay")
      "evidence_classification";;
    mret (path, raw, dot record "envelope").

Definition desired_path_of (request ref : json) : pystr :=
  lit "desired/" ++ text request "deployment_ref" ++ 47 :: text ref "nonce" ++ lit ".json".

(** A record was added by [before], and reads there as it does now. *)
Definition retained_at (before : pystr) (record : pystr * bytes) : proc unit :=
  commit ← addition_commit record.1;
  git (IsAncestor commit before);;
  raw ← git (Show before record.1);
  demand (bool_decide (raw = record.2)) "evidence_substitution".

Definition report_reference (request ref key scope : json) (before : option pystr)
    : proc (json * json * json * pystr) :=
  '(path, raw, envelope) ← report_envelope request ref;
  pure (_shape envelope Envelope);;
  fingerprint ← pure (digest envelope);
  demand (bool_decide (JStr fingerprint = dot ref "report_sha256") &&
          same (dot envelope "key_id") (dot request "host_key_id")) "evidence_substitution";;
  report ← verified APPLIED envelope (text key "public_key_b64");
  demand (same (dot report "host_key_id") (dot request "host_key_id") &&
          same (dot report "report_id") (dot ref "report_id") &&
          same (dot report "deployment_ref") (dot request "deployment_ref") &&
          same (dot (dot report "desired") "nonce") (dot ref "nonce")) "evidence_substitution";;
  let desired_path := desired_path_of request ref in
  demand (negb (bool_decide (47 ∈ text ref "nonce")) && negb (contains (lit "..") (text ref "nonce")))
    "evidence_substitution";;
  desired_raw ← present desired_path "desired_unknown";
  desired_envelope ← pure (read_json desired_raw);
  pure (_shape desired_envelope Envelope);;
  desired ← verified DESIRED desired_envelope (public_key_b64 owner);
  demand (forallb (λ kv, same_json (default JNull (dict_get (items_of desired) kv.1)) kv.2)
            (items_of (dot report "desired"))) "evidence_substitution";;
  demand (existsb (same_json (plan_document desired)) (list_of (dot scope "candidates"))) "candidate_scope";;
  match before with
  | Some before => for_each (retained_at before) [(path, raw); (desired_path, desired_raw)]
  | None => mret tt
  end;;
  mret (report, desired, desired_envelope, path).

(** The commit a reference names precedes [before], and has the report as it is. *)
Definition receipt_at (ref : json) (path : pystr) (before : option pystr) : proc unit :=
  git (IsAncestor (text ref "ledger_commit") (default HEAD before));;
  then_ ← git (Show (text ref "ledger_commit") path);
  now ← read path;
  demand (bool_decide (Some then_ = now)) "receipt_mismatch".

(** [envelope] with the first bit of its signature flipped. *)
Definition flipped (envelope : json) : res json :=
  signature ← unb64 (text envelope "signature_b64");
  match signature with
  | b :: bs => Ok (JObj (dict_set (items_of envelope) (lit "signature_b64") (JStr (b64 (Z.lxor b 1 :: bs)))))
  | [] => Raise (Exn IndexError "bytearray index out of range")
  end.

Definition cleaned_up (request ref : json) (code : string) : res unit :=
  after ← at_ (dot ref "after") "observed_at";
  in_order after [(ref, "cleanup_observed_at"); (request, "deadline")]%string code.

(** What a passing refusal shows. *)
Definition refusal_passed (request ref : json) : res unit :=
  ensure (negb (same (dot ref "normal_poll_journal_start") (dot ref "normal_poll_journal_end")))
    (refusal "cleanup_failed");;
  cleaned_up request ref "cleanup_failed";;
  ensure (same (dot ref "case") (dot ref "expected_code") && same (dot ref "expected_code") (dot ref "observed_code") &&
          same (dot (dot ref "before") "executor_count") (dot (dot ref "after") "executor_count") &&
          same_json (dot (dot ref "before") "observed") (dot (dot ref "after") "observed") &&
          negb (same (dot ref "journal_start") (dot ref "journal_end"))) (refusal "proof_failed").

(** Whether the report a refusal refers to is of the right kind. *)
Definition classified (passed : bool) (ref report desired : json) : res unit :=
  if is_text (dot ref "case") "nonce_replay"
  then
    if negb passed then Ok tt
    else
      issued ← at_ desired "issued_at"; before ← at_ (dot ref "before") "observed_at";
      ensure (issued <=? before) (refusal "replay_expired");;
      after ← at_ (dot ref "after") "observed_at";
      ensure (before <=? after) (refusal "replay_expired");;
      expires ← at_ desired "expires_at";
      ensure (after <? expires) (refusal "replay_expired");;
      ensure (is_text (dot ref "classification") "accepted" && is_text (dot report "disposition") "applied" &&
              same (dot report "reason") JNull) (refusal "evidence_classification")
  else
    ensure (is_text (dot ref "classification") "accepted" && is_text (dot report "disposition") "refused" &&
            same (dot report "reason") (dot ref "observed_code")) (refusal "evidence_classification").

Definition verify_refusal (request key scope : json) (before : option pystr) (passed : bool) (ref : json) : proc unit :=
  '(report, desired, envelope, path) ← report_reference request ref key scope before;
  let historical_replay :=
    is_text (dot ref "case") "nonce_replay" && is_text (dot ref "classification") "accepted" &&
    is_text (dot report "disposition") "applied" && same (dot report "reason") JNull in
  pure (if historical_replay then Ok tt else signed_interval report desired ref scope);;
  submitted ← pure (if is_text (dot ref "case") "bad_signature" then flipped envelope else Ok envelope);
  fingerprint ← pure (digest submitted);
  demand (bool_decide (JStr fingerprint = dot ref "submitted_sha256")) "submitted_mismatch";;
  receipt_at ref path before;;
  pure (cleaned_up request ref "observation_interval");;
  pure (observed_interval (dot ref "before") (dot ref "after") scope passed);;
  pure (if passed then refusal_passed request ref else Ok tt);;
  pure (classified passed ref report desired).

Definition verify_refusals (request proof key scope : json) (before : option pystr) : proc unit :=
  let refs := list_of (dot proof "refusals") in
  let cases := (λ r, dot r "case") <$> refs in
  demand (forallb (λ r, same (dot r "case") (dot r "expected_code")) refs) "evidence_substitution";;
  demand (bool_decide (NoDup cases)) "proof_failed";;
  (if passes proof
   then demand (bool_decide (length refs = 3%nat) &&
                forallb (λ c, bool_decide (JStr (lit c) ∈ cases)) CASES) "proof_failed"
   else mret tt);;
  for_each (verify_refusal request key scope before (passes proof)) refs.

(** What a passing transition shows, before and after its interval is checked. *)
Definition transition_passed (ref report desired : json) : res unit :=
  ensure (is_text (dot report "disposition") "applied" &&
          negb (same (dot desired "from_image_digest") (dot desired "image_digest")) &&
          flag ref "signatures_verified" && flag ref "runners_stopped") (refusal "proof_failed").
Definition transition_observed (ref report desired : json) : res unit :=
  let expected_before := text desired "image_reference" ++ 64 :: text desired "from_image_digest" in
  ensure (same (dot (dot (dot ref "before") "observed") "running_image") (JStr expected_before) &&
          same_json (dot (dot ref "after") "observed") (dot report "observed") &&
          (num (dot ref "after") "executor_count" =? num (dot ref "before") "executor_count" + 1))
    (refusal "observation_mismatch").

Definition receipt_document (request report : json) (path : pystr) (fingerprint : json) : json := JObj
  [(lit "deployment_ref", dot request "deployment_ref"); (lit "report_id", dot report "report_id");
   (lit "path", JStr path); (lit "fingerprint", fingerprint)].

Definition verify_transition (request ref key scope : json) (passed : bool) (before : option pystr) : proc unit :=
  '(report, desired, envelope, path) ← report_reference request ref key scope before;
  demand (same (dot desired "source_revision") (dot request "source_revision") &&
          same (dot desired "source_tree") (dot request "source_tree")) "source_target_mismatch";;
  pure (signed_interval report desired ref scope);;
  pure (t ← at_ (dot ref "before") "observed_at"; in_order t [(desired, "issued_at")]%string "signed_observation_interval");;
  fingerprint ← pure (digest envelope);
  demand (bool_decide (JStr fingerprint = dot ref "desired_sha256") &&
          same (dot ref "source_preparation_sha256") (dot scope "source_preparation_sha256"))
    "evidence_substitution";;
  pure (if passed then transition_passed ref report desired else Ok tt);;
  pure (observed_interval (dot ref "before") (dot ref "after") scope passed);;
  pure (if passed then transition_observed ref report desired else Ok tt);;
  receipt ← pure (digest (receipt_document request report path (dot ref "report_sha256")));
  demand (bool_decide (JStr receipt = dot ref "receipt_sha256")) "receipt_mismatch";;
  receipt_at ref path before;;
  raw ← git (Show (text ref "ledger_commit") (desired_path_of request ref));
  expected ← pure (canonical_json envelope);
  demand (bool_decide (raw = expected)) "receipt_mismatch".

Definition verify_oidc (evidence scope : json) (passed : bool) : res unit :=
  let agrees a b := same (dot evidence a) (dot scope b) in
  ensure (agrees "main_run_id" "oidc_main_run_id" && agrees "negative_run_id" "oidc_negative_run_id" &&
          agrees "main_sha256" "oidc_main_sha256" && agrees "negative_sha256" "oidc_negative_sha256")
    (refusal "evidence_substitution");;
  if passed
  then ensure (flag evidence "main_accepted" && flag evidence "negative_refused") (refusal "proof_failed")
  else Ok tt.

Definition verify_restore (request evidence scope : json) (passed : bool) : res unit :=
  let agrees a b := same (dot evidence a) (dot scope b) in
  ensure (agrees "source_identity" "restore_source_identity" &&
          agrees "test_host_identity" "restore_test_host_identity" &&
          agrees "bundle_sha256" "restore_bundle_sha256" && agrees "capture_sha256" "restore_capture_sha256" &&
          agrees "source_inventory_sha256" "restore_inventory_sha256") (refusal "evidence_substitution");;
  (if passed
   then ensure (flag evidence "no_ddl_enforced" && flag evidence "source_parity" && flag evidence "scratch_absent" &&
                negb (same (dot evidence "restored_inventory_sha256") JNull) &&
                same (dot evidence "source_inventory_sha256") (dot evidence "restored_inventory_sha256"))
          (refusal "proof_failed")
   else Ok tt);;
  since ← at_ scope "observation_not_before";
  in_order since [(evidence, "capture_started_at"); (evidence, "capture_finished_at"); (request, "deadline")]%string
    "observation_interval".

(** One proof; the transitions it contributes. *)
Definition verify_proof (request key scope : json) (before : option pystr) (proof : json) : proc (list json) :=
  let n := num proof "proof" in
  let passed := passes proof in
  let given k := negb (same (dot proof k) JNull) in
  if (n =? 1) && given "oidc"
  then pure (verify_oidc (dot proof "oidc") scope passed);; mret []
  else if n =? 2
  then verify_refusals request proof key scope before;; mret []
  else if (n =? 3) || (n =? 4)
  then
    found ← (if given "transition"
             then verify_transition request (dot proof "transition") key scope passed before;;
                  mret [dot proof "transition"]
             else mret []);
    (if (n =? 4) && given "egress"
     then demand (given "transition") "evidence_missing";;
          pure (verify_egress (dot proof "egress") (dot proof "transition") scope passed)
     else mret tt);;
    mret found
  else if (n =? 5) && given "restore"
  then pure (verify_restore request (dot proof "restore") scope passed);; mret []
  else mret [].

(** The proofs agree with one another. *)
Definition replay_matches (request : json) (transitions : list json) : res unit :=
  transition ← of_option (head transitions) (Exn IndexError "list index out of range");
  two ← of_option (head (filter (λ p, num p "proof" = 2) (list_of (dot request "proofs"))))
          (Exn StopIteration "");
  replay ← of_option (head (filter (λ r, is_text (dot r "case") "nonce_replay" = true) (list_of (dot two "refusals"))))
             (Exn StopIteration "");
  ensure (forallb (λ k, same (dot replay k) (dot transition k)) ["nonce"; "report_id"; "report_sha256"]%string)
    (refusal "replay_transition_mismatch");;
  after ← at_ (dot transition "after") "observed_at";
  in_order after [(dot replay "before", "observed_at")]%string "replay_order".

Definition verify_proofs (request scope : json) (before : option pystr) : proc unit :=
  passed ← pure (terminal_verdict request);
  path ← match before with
         | Some _ => p ← pure (evidence_path request); mret (Some p)
         | None => mret None
         end;
  key ← enrolled_key request path;
  raw ← pure (unb64 (text key "public_key_b64"));
  demand (bool_decide (JStr (raw_digest raw) = dot scope "host_public_key_sha256")) "host_key_mismatch";;
  found ← traverse (verify_proof request key scope before) (list_of (dot request "proofs"));
  let transitions := mjoin found in
  (match transitions with
   | [a; b] => demand (same_json a b) "transition_mismatch"
   | _ => mret tt
   end);;
  pure (if (passed : bool) then replay_matches request transitions else Ok tt).

(** The transition of a request's third proof. *)
Definition third (request : json) : res json :=
  p ← of_option (head (filter (λ p, num p "proof" = 3) (list_of (dot request "proofs"))))
        (Exn StopIteration "");
  Ok (dot p "transition").

(** A run that repeats an earlier one goes on from its image, with new sources. *)
Definition continues (prior request : json) : res unit :=
  prior_transition ← third prior;
  transition ← third request;
  ensure (negb (same (dot request "source_revision") (dot prior "source_revision")) &&
          negb (same (dot request "source_tree") (dot prior "source_tree"))) (refusal "source_reused");;
  ensure (negb (same transition JNull) && negb (same prior_transition JNull)) (refusal "evidence_missing");;
  let image t k := dot (dot (dot t k) "observed") "running_image" in
  ensure (negb (same (dot transition "nonce") (dot prior_transition "nonce"))) (refusal "transition_replay");;
  ensure (negb (same (image transition "after") (image prior_transition "after"))) (refusal "target_reused");;
  ensure (same (image transition "before") (image prior_transition "after")) (refusal "image_discontinuity").

Definition deadline_day (request : json) : res Z :=
  t ← of_option (read_moment (text request "deadline")) schema_violation;
  Ok (toordinal (m_date t)).

(** Whether [prior] is the initial run that [request] repeats. *)
Definition prior_agrees (prior request : json) : res bool :=
  if negb (is_text (dot prior "phase") "initial") then Ok false
  else
    passed ← terminal_verdict prior;
    if negb (passed && forallb (λ k, same (dot prior k) (dot request k))
                         ["deployment_ref"; "host_key_id"; "tool_revision"]%string)
    then Ok false
    else if negb (is_text (dot request "phase") "next_morning") then Ok true
    else before ← deadline_day prior; after ← deadline_day request; Ok (before <? after).

Definition verify_prior (request scope : json) (before : option pystr) : proc unit :=
  if is_text (dot request "phase") "initial" then mret tt
  else
    all ← records GATE0;
    found ← traverse (λ r, v ← pure (read_json r.2); id ← pure (item v "run_id"); mret (r, same_json id (dot request "prior_run_id")))
              (filter (λ r, ends_with (lit "/evidence.json") r.1 = true) all);
    match fst <$> filter (λ r, r.2 = true) found with
    | [(path, raw)] =>
        demand (bool_decide (JStr (raw_digest raw) = dot scope "prior_evidence_sha256")) "prior_run_missing";;
        prior ← pure (read_json raw);
        pure (validate prior true);;
        agrees ← pure (prior_agrees prior request);
        demand agrees "prior_run_mismatch";;
        match before with
        | Some before => commit ← addition_commit path; git (IsAncestor commit before);; mret tt
        | None => mret tt
        end;;
        passed ← pure (terminal_verdict request);
        if (passed : bool) then pure (continues prior request) else mret tt
    | _ => throw (refusal "prior_run_missing")
    end.

(** ** The retained pairs *)

(** One event of the log, which [log] finds others in. *)
Definition check_gate_event (log : list (pystr * json)) (event : pystr * json) : proc unit :=
  let '(path, value) := event in
  if starts_with (GATE0 ++ lit "commands/") path
  then
    pure (_shape value CommandRecord);;
    raw ← present (text value "evidence_path") "ledger_identity";
    request ← pure (read_json raw);
    pure (validate request true);;
    expected ← pure (evidence_path request);
    demand (bool_decide (path = command_path request) && bool_decide (text value "evidence_path" = expected))
      "ledger_identity";;
    fingerprint ← pure (digest (JObj [(lit "request", request); (lit "actor_admin_id", dot value "actor_admin_id")]));
    demand (bool_decide (dot value "fingerprint" = JStr fingerprint)) "ledger_identity"
  else if starts_with GATE0 path
  then
    pure (validate value true);;
    expected ← pure (evidence_path value);
    match dict_get log (command_path value) with
    | Some command =>
        demand (bool_decide (path = expected)) "ledger_identity";;
        pure (_shape command CommandRecord);;
        raw ← pure (scope_bytes (dot command "scope") true);
        scope ← pure (read_json raw);
        actor ← pure (UUID (text command "actor_admin_id"));
        pure (authorize value scope actor);;
        commit ← addition_commit path;
        commit' ← addition_commit (command_path value);
        demand (bool_decide (commit' = commit)) "ledger_identity";;
        verify_proofs value scope (Some commit);;
        verify_prior value scope (Some commit)
    | None => throw (refusal "ledger_identity")
    end
  else mret tt.

(** [dict(pairs)]. *)
Definition dict_of (pairs : list (pystr * json)) : list (pystr * json) :=
  foldl (λ d e, dict_set d e.1 e.2) [] pairs.

Definition gate_history : proc unit :=
  all ← events;
  let log := dict_of all in
  for_each (check_gate_event log) log.
End gate.
