(* ===== verification/AgentProjection.v ===== *)
(** * The database's copy of the ledger

    [deploy_agent/projection.py]: one row per event and one per host key, made
    and checked from the ledger's events, in one database transaction. *)

From S2P Require Import Prelude PyText PyUuid PyDate PyTime Json JsonReader JsonRound Effects Contracts AgentLedger GateAdmission.

#[local] Open Scope Z_scope.

Definition projection_conflict : exn := refusal "projection_conflict".

(** [path.split("/", 1)[0]]. *)
Definition kind_of (path : pystr) : pystr := default [] (head (split_on 47 path)).

(** A value for a text column that is not null. *)
Definition column (v : json) : res pystr :=
  match v with JStr s => Ok s | _ => Raise (Exn IntegrityError "not-null or type") end.

Definition unb64_of (v : json) : res bytes :=
  match v with JStr s => unb64 s | _ => Raise schema_violation end.

(** [UUID(actor) if actor else None]. *)
Definition actor_of `{UnicodeDB} (v : json) : res (option uuid) :=
  match v with
  | JStr s => if bool_decide (s = []) then Ok None else Some <$> UUID s
  | v => if GateEvidence.truthy v then Raise (Exn AttributeError "replace") else Ok None
  end.

Section projection.
Context `{CRY : Crypto} `{FL : Floats} `{UCD : UnicodeDB}.

(** The deployment, the report and the nonce an event is about. *)
Definition facts (kind : pystr) (event : json) : res (json * json * json) :=
  if bool_decide (kind ∈ [lit "desired"; lit "applied"])
  then
    encoded ← item event "payload_b64"; raw ← unb64_of encoded; payload ← read_json raw;
    ref ← item payload "deployment_ref";
    if bool_decide (kind = lit "applied")
    then validate_applied payload;;
         Ok (ref, dot payload "report_id", dot (dot payload "desired") "nonce")
    else Ok (ref, JNull, JNull)
  else Ok (dot event "deployment_ref", JNull, JNull).

(** A new row keeps the table's unique columns unique. *)
Definition clashes (row r : ReceiptRow) : bool :=
  bool_decide (r_path r = r_path row) ||
  (negb (bool_decide (r_nonce row = JNull)) && bool_decide (r_nonce r = r_nonce row)) ||
  (negb (bool_decide (r_deployment_ref row = JNull)) && negb (bool_decide (r_report_id row = JNull)) &&
   bool_decide (r_deployment_ref r = r_deployment_ref row) && bool_decide (r_report_id r = r_report_id row)).

Definition project (t : tables) (event : pystr * json) : res tables :=
  let '(path, value) := event in
  fingerprint ← digest value;
  match r_fingerprint <$> head (filter (λ r, r_path r = path) (receipts t)) with
  | Some ((_ :: _) as existing) =>
      ensure (bool_decide (existing = fingerprint)) projection_conflict;; Ok t
  | _ =>
      let kind := kind_of path in
      '(ref, report, nonce) ← facts kind value;
      actor ← actor_of (dot value "actor_admin_id");
      let row := {| r_path := path; r_kind := kind; r_deployment_ref := ref; r_report_id := report;
                    r_nonce := nonce; r_fingerprint := fingerprint; r_envelope := value |} in
      ensure (negb (existsb (clashes row) (receipts t))) (Exn IntegrityError "unique");;
      Ok (Tables (receipts t ++ [row]) (host_keys t)
            (audit t ++ [{| a_actor := actor; a_entity_id := path; a_fingerprint := fingerprint; a_kind := kind |}]))
  end.

(** A retained row says what its event says. *)
Definition check_row (expected : list (pystr * pystr)) (row : ReceiptRow) : res unit :=
  match dict_get expected (r_path row), r_envelope row with
  | Some fingerprint, JObj _ =>
      d ← digest (r_envelope row);
      ensure (bool_decide (d = r_fingerprint row) && bool_decide (r_fingerprint row = fingerprint))
        projection_conflict
  | _, _ => Raise projection_conflict
  end;;
  ensure (bool_decide (r_kind row = kind_of (r_path row))) projection_conflict;;
  '(ref, report, nonce) ← facts (r_kind row) (r_envelope row);
  ensure (same_json (r_deployment_ref row) ref && same_json (r_report_id row) report &&
          same_json (r_nonce row) nonce) projection_conflict.

(** The last event of every key. *)
Definition key_events (events : list (pystr * json)) : res (list (pystr * (pystr * json))) :=
  foldl (λ acc e, d ← acc;
                  if starts_with (lit "keys/") e.1
                  then id ← item e.2 "key_id"; Ok (dict_set d (str_of id) e) else Ok d)
    (Ok []) events.

Definition check_key (keys : list (pystr * (pystr * json))) (row : KeyRow) : res unit :=
  match dict_get keys (k_key_id row) with
  | Some (_, event) =>
      ref ← item event "deployment_ref";
      ensure (bool_decide (ref = JStr (k_deployment_ref row))) projection_conflict;;
      public ← item event "public_key_b64";
      ensure (bool_decide (public = JStr (k_public_key_b64 row))) projection_conflict
  | None => Raise projection_conflict
  end.

(** [INSERT ... ON CONFLICT (key_id) DO UPDATE SET state, event_path]. *)
Definition upsert_key (rows : list KeyRow) (row : KeyRow) : res (list KeyRow) :=
  ensure (bool_decide (k_state row ∈ [lit "pending"; lit "active"; lit "revoked"])) (Exn IntegrityError "check");;
  if existsb (λ r, bool_decide (k_key_id r = k_key_id row)) rows
  then Ok ((λ r, if bool_decide (k_key_id r = k_key_id row)
                 then {| k_key_id := k_key_id r; k_deployment_ref := k_deployment_ref r;
                         k_public_key_b64 := k_public_key_b64 r; k_state := k_state row;
                         k_event_path := k_event_path row |} else r) <$> rows)
  else
    ensure (negb (existsb (λ r, bool_decide (k_public_key_b64 r = k_public_key_b64 row)) rows))
      (Exn IntegrityError "unique");;
    Ok (rows ++ [row]).

Definition project_key (t : tables) (key : pystr * (pystr * json)) : res tables :=
  let '(id, (path, event)) := key in
  ref ← item event "deployment_ref"; ref ← column ref;
  public ← item event "public_key_b64"; public ← column public;
  state ← item event "state"; state ← column state;
  rows ← upsert_key (host_keys t)
           {| k_key_id := id; k_deployment_ref := ref; k_public_key_b64 := public; k_state := state;
              k_event_path := path |};
  Ok (Tables (receipts t) rows (audit t)).

(** A loop that carries the tables. *)
Definition fold {A} (f : tables → A → res tables) (t : tables) (l : list A) : res tables :=
  foldl (λ acc x, t ← acc; f t x) (Ok t) l.

(** What [rebuild] does to the tables, and how many events had no row. *)
Definition rebuild_tables (t : tables) (events : list (pystr * json)) : res (tables * Z) :=
  expected ← foldl (λ acc e, d ← acc; fp ← digest e.2; Ok (dict_set d e.1 fp)) (Ok []) events;
  mapM (check_row expected) (receipts t);;
  keys ← key_events events;
  mapM (check_key keys) (host_keys t);;
  t' ← fold project t events;
  t' ← fold project_key t' keys;
  Ok (t', Z.of_nat (length expected) - Z.of_nat (length (receipts t))).
End projection.

Section database.
Context `{HST : Host} `{CRY : Crypto} `{FL : Floats} `{UCD : UnicodeDB}.

(** [{"events": ..., "repaired": ..., "matches": True}]. *)
Record rebuilt := { events_count : Z; repaired : Z }.

(** [rebuild(db, ledger)]: the session sees the tables as they are and commits
    at the end; an exception rolls it back. *)
Definition rebuild : proc hstate exn rebuilt :=
  all ← events;
  t ← db_read;
  '(t', n) ← pure (rebuild_tables t all);
  db_commit t';;
  mret {| events_count := Z.of_nat (length all); repaired := n |}.

Definition receipt (ref : pystr) (report_id : uuid) : proc hstate exn (option ReceiptRow) :=
  t ← db_read;
  match filter (λ r, r_kind r = lit "applied" ∧ r_deployment_ref r = JStr ref ∧
                     r_report_id r = JStr (uuid_str report_id)) (receipts t) with
  | [] => mret None
  | [r] => mret (Some r)
  | _ => throw (Exn MultipleResultsFound "")
  end.
End database.
