(* ===== verification/AgentService.v ===== *)
(** * The deploy agent's service

    [deploy_agent/service.py] and [admit_] of [gate_admission.py]: issuing
    desired states, registering, challenging, activating and revoking host keys,
    taking in applied states, and the rules every retained event obeys
    ([validate_history]).  Every operation is one transaction on the ledger. *)

From S2P Require Import Prelude PyText PyUuid PyDate PyTime Json JsonReader JsonRound Effects Contracts AgentLedger GateEvidence GateAdmission AgentProjection.

#[local] Open Scope Z_scope.

Definition QUARANTINE_CODES : list pystr := lit <$>
  ["deployment_mismatch"; "report_reused"; "desired_unknown"; "observed_mismatch";
   "desired_mismatch"; "nonce_replay"]%string.

(** [all(a[field] == value for field, value in b.items())]. *)
Definition agrees_with (a b : json) : bool :=
  forallb (λ kv, same_json (default JNull (dict_get (items_of a) kv.1)) kv.2) (items_of b).

(** [{**a, **b}]. *)
Definition merge (a : json) (b : list (pystr * json)) : json :=
  JObj (foldl (λ d kv, dict_set d kv.1 kv.2) (items_of a) b).

Definition succeeded (report : json) : bool :=
  is_text (dot report "disposition") "applied" || is_text (dot report "disposition") "already_applied".

(** What the host observed is what was asked for, and it is healthy. *)
Definition _valid_success (doc desired : json) : bool :=
  let observed := dot doc "observed" in
  let live := dot (dot doc "health") "live" in
  let ready := dot (dot doc "health") "ready" in
  let background := dot (dot doc "health") "background" in
  let containers := items_of (dot background "containers") in
  same (dot observed "running_image") (JStr (text desired "image_reference" ++ 64 :: text desired "image_digest")) &&
  same (dot observed "running_revision_label") (dot desired "source_revision") &&
  same (dot observed "pinned_image") (dot observed "running_image") &&
  same (dot observed "pinned_git_sha") (dot desired "source_revision") &&
  same_json (dot observed "config_files") (dot desired "config_files") &&
  same (dot live "status") (JInt 200) && same (dot ready "status") (JInt 200) &&
  is_text (dot ready "body_status") "ready" &&
  flag background "celery_inspect_ok" && flag background "restart_counts_zero" &&
  negb (bool_decide (containers = [])) && forallb (λ kv, is_text kv.2 "running") containers.

(** ** The rules of the log *)

(** The keys by id, the desired states by nonce, and the nonces reported on. *)
Record Seen := {
  seen_keys : list (pystr * json);
  seen_desired : list (pystr * json);
  consumed : list pystr;
}.
Definition nothing_seen : Seen := {| seen_keys := []; seen_desired := []; consumed := [] |}.

Definition identity : exn := refusal "ledger_identity".

Section rules.
Context `{CRY : Crypto} `{FL : Floats} `{UCD : UnicodeDB}.
(** The service's deployment and the desired signer's public key. *)
Context (deployment : pystr) (public_key : pystr).

(** What makes a key active: a fresh possession of the challenge on record. *)
Definition check_activation (previous key : json) : res unit :=
  envelope ← item key "possession";
  proof ← verify POSSESSION envelope (text key "public_key_b64");
  received ← item key "received_at";
  now ← timestamp (str_of received);
  validate_possession proof (Some now);;
  ensure (same (dot proof "key_id") (dot key "key_id") &&
          same (dot proof "deployment_ref") (dot key "deployment_ref")) identity;;
  match dot previous "challenge" with
  | JObj challenge =>
      ensure (forallb (λ kv, bool_decide (kv.1 = lit "schema") ||
                same_json (default JNull (dict_get (items_of proof) kv.1)) kv.2) challenge) identity
  | _ => Raise (Exn AttributeError "items")
  end;;
  baseline ← item key "baseline_digest";
  ensure (same baseline (dot proof "observed_image_digest")) identity.

Definition check_key_event (seen : Seen) (key : json) : res Seen :=
  _shape key KeyRecord;;
  let id := text key "key_id" in
  let previous := dict_get (seen_keys seen) id in
  let state v := is_text (dot key "state") v in
  ensure (bool_decide (text key "deployment_ref" = deployment)) identity;;
  match previous with
  | Some previous =>
      ensure (same (dot previous "public_key_b64") (dot key "public_key_b64") &&
              same (dot previous "deployment_ref") (dot key "deployment_ref")) identity;;
      ensure (is_text (dot previous "state") "pending" || state "revoked") identity;;
      if state "active" && negb (is_text (dot previous "state") "active")
      then
        ensure (is_text (dot previous "state") "pending") identity;;
        check_activation previous key
      else Ok tt
  | None =>
      ensure (state "pending" &&
              forallb (λ other, negb (same (dot other.2 "public_key_b64") (dot key "public_key_b64")))
                (seen_keys seen)) identity
  end;;
  Ok {| seen_keys := dict_set (seen_keys seen) id key; seen_desired := seen_desired seen; consumed := consumed seen |}.

Definition check_desired_event (seen : Seen) (envelope : json) : res Seen :=
  doc ← verify DESIRED envelope public_key;
  validate_desired doc None None None;;
  let nonce := text doc "nonce" in
  ensure (bool_decide (nonce ∉ (seen_desired seen).*1)) (refusal "ledger_conflict");;
  Ok {| seen_keys := seen_keys seen; seen_desired := dict_set (seen_desired seen) nonce doc; consumed := consumed seen |}.

Definition check_quarantine_event (seen : Seen) (path : pystr) (event : json) : res Seen :=
  exact event [lit "code"; lit "envelope"];;
  let envelope := dot event "envelope" in
  _shape envelope Envelope;;
  match dict_get (seen_keys seen) (text envelope "key_id") with
  | Some key =>
      ensure (is_text (dot key "state") "active") (refusal "host_key_inactive");;
      doc ← verify APPLIED envelope (text key "public_key_b64");
      validate_applied doc;;
      fingerprint ← digest envelope;
      ensure (bool_decide (path = lit "quarantine/" ++ drop 7 fingerprint ++ lit ".json") &&
              match dot event "code" with JStr c => bool_decide (c ∈ QUARANTINE_CODES) | _ => false end) identity;;
      Ok seen
  | None => Raise (refusal "host_key_inactive")
  end.

Definition check_applied_event (seen : Seen) (envelope : json) : res Seen :=
  id ← item envelope "key_id";
  key ← of_option (dict_get (seen_keys seen) (str_of id)) (Exn KeyError "key_id");
  ensure (is_text (dot key "state") "active") (refusal "host_key_inactive");;
  report ← verify APPLIED envelope (text key "public_key_b64");
  validate_applied report;;
  let nonce := text (dot report "desired") "nonce" in
  match dict_get (seen_desired seen) nonce with
  | Some desired =>
      ensure (same (dot report "deployment_ref") (dot key "deployment_ref") &&
              bool_decide (nonce ∉ consumed seen)) identity;;
      ensure (agrees_with desired (dot report "desired")) identity;;
      ensure (negb (succeeded report) || _valid_success report desired) (refusal "observed_mismatch");;
      Ok {| seen_keys := seen_keys seen; seen_desired := seen_desired seen; consumed := nonce :: consumed seen |}
  | None => Raise identity
  end.

Definition check_event (seen : Seen) (e : pystr * json) : res Seen :=
  let '(path, event) := e in
  if starts_with (lit "keys/") path then check_key_event seen event
  else if starts_with (lit "desired/") path then check_desired_event seen event
  else if starts_with (lit "quarantine/") path then check_quarantine_event seen path event
  else if starts_with (lit "applied/") path then check_applied_event seen event
  else Ok seen.

Definition check_log (events : list (pystr * json)) : res Seen :=
  foldl (λ acc e, seen ← acc; check_event seen e) (Ok nothing_seen) events.
End rules.

(** ** The service *)

(** [dict(v)] of a document. *)
Definition copy (v : json) : res json :=
  match v with JObj _ => Ok v | _ => Raise (Exn TypeError "not a document") end.

Definition GENERATED_FIELDS : list pystr :=
  lit <$> ["schema"; "nonce"; "issued_at"; "expires_at"; "signer_key_id"; "plan_digest"]%string.
Definition unsigned_fields (generated : list pystr) : list pystr :=
  filter (λ k, k ∉ generated) DESIRED_FIELDS.

(** The last of the reports whose nonce was issued last. *)
Definition latest_of (order : list (pystr * nat)) (reports : list json) : option json :=
  let rank r := default 0%nat (dict_get order (text (dot r "desired") "nonce")) in
  foldl (λ best r, match best with
                   | Some b => if bool_decide (rank b < rank r)%nat then Some r else best
                   | None => Some r
                   end) None reports.

(** [s.rsplit("@", 1)[1]]. *)
Definition after_at (s : pystr) : pystr := default [] (last (split_on 64 s)).

(** The uuid in the path of a key's record. *)
Definition key_path (id : pystr) (u : uuid) : pystr :=
  lit "keys/" ++ id ++ 47 :: uuid_str u ++ lit ".json".

(** [IngestOutcome]. *)
Inductive verdict := accepted | idempotent_replay | quarantined (code : string).
#[export] Instance verdict_eq_dec : EqDecision verdict.
Proof. solve_decision. Defined.

Section service.
Context `{HST : Host} `{CRY : Crypto} `{FL : Floats} `{UCD : UnicodeDB}.
#[local] Abbreviation proc := (proc hstate exn).
Context (self : Agent).

Definition _events (kind : string) : proc (list (pystr * json)) :=
  filter (λ e, starts_with (lit kind ++ [47]) e.1 = true) <$> events.

Definition keys_of (events : list (pystr * json)) : res (list (pystr * json)) :=
  foldl (λ acc e, d ← acc; id ← item e.2 "key_id"; Ok (dict_set d (str_of id) e.2)) (Ok []) events.
Definition _keys : proc (list (pystr * json)) := all ← _events "keys"; pure (keys_of all).

(** The path, the envelope and the document of every desired state. *)
Definition desired_of (ref : option pystr) (events : list (pystr * json)) : res (list (pystr * json * json)) :=
  docs ← mapM (λ e, doc ← verify DESIRED e.2 (public_key_b64 self);
                    validate_desired doc None None None;; Ok (e.1, e.2, doc)) events;
  Ok (filter (λ d, match ref with Some r => bool_decide (text d.2 "deployment_ref" = r) | None => true end = true) docs).
Definition _desired (ref : option pystr) : proc (list (pystr * json * json)) :=
  all ← _events "desired"; pure (desired_of ref all).

Definition validate_history : proc unit :=
  all ← events;
  pure (check_log (deployment_ref self) (public_key_b64 self) all);;
  gate_history self.

Definition _record (values : list (pystr * json)) : proc unit :=
  append_many (ledger self) values;;
  validate_history;;
  rebuild;;
  mret tt.

Definition report_of (e : pystr * json) : res json :=
  encoded ← item e.2 "payload_b64"; raw ← unb64_of encoded; doc ← read_json raw;
  validate_applied doc;; Ok doc.

Definition _latest_report (ref : pystr) (successful : bool) : proc (option json) :=
  issued ← _desired (Some ref);
  applied ← _events "applied";
  reports ← pure (mapM report_of applied);
  let order := foldl (λ d kv, dict_set d kv.1 kv.2) []
    (zip ((λ d, text d.2 "nonce") <$> issued) (seq 0 (length issued))) in
  mret (latest_of order (filter (λ r, text r "deployment_ref" = ref ∧
    text (dot r "desired") "nonce" ∈ order.*1 ∧ (negb successful || succeeded r = true)) reports)).

Definition _baseline (ref : pystr) : proc pystr :=
  report ← _latest_report ref true;
  match report with
  | Some report =>
      match dot (dot report "observed") "running_image" with
      | JStr running =>
          demand (contains (lit "@sha256:") running) "observed_mismatch";; mret (after_at running)
      | _ => throw (refusal "observed_mismatch")
      end
  | None =>
      keys ← _keys;
      match head (filter (λ k, text k.2 "deployment_ref" = ref ∧ is_text (dot k.2 "state") "active" = true) keys) with
      | Some (_, key) =>
          match dot key "baseline_digest" with
          | JStr baseline => mret baseline
          | _ => throw (refusal "baseline_missing")
          end
      | None => throw (refusal "baseline_missing")
      end
  end.

(** *** Issuing *)

Definition preview (request : json) : proc json :=
  pure (exact request [lit "mode"; lit "desired"]);;
  transaction (ledger self) (
    doc ← pure (copy (dot request "desired"));
    pure (exact doc (unsigned_fields (lit "from_image_digest" :: GENERATED_FIELDS)));;
    demand (bool_decide (dot doc "deployment_ref" = JStr (deployment_ref self))) "deployment_mismatch";;
    baseline ← _baseline (deployment_ref self);
    let doc := merge doc [(lit "from_image_digest", JStr baseline)] in
    d ← pure (plan_digest doc);
    mret (JObj [(lit "plan", plan_document doc); (lit "plan_digest", JStr d)])).

(** The document that is signed for a request. *)
Definition fill_in (request doc : json) (now : moment) (nonce : bytes) : res json :=
  expires ← later now (4 * HOUR);
  Ok (merge doc
    [(lit "schema", JStr DESIRED_SCHEMA); (lit "nonce", JStr (b64 nonce));
     (lit "issued_at", JStr (isoformat now)); (lit "expires_at", JStr (isoformat expires));
     (lit "signer_key_id", JStr (signer_key_id (signer self)));
     (lit "plan_digest", dot request "approved_plan_digest")]).

Definition fingerprint_of (request : json) (actor : uuid) : res pystr :=
  digest (JObj [(lit "request", request); (lit "actor_admin_id", JStr (uuid_str actor))]).

Definition command_file (request : json) : pystr := lit "commands/" ++ text request "command_id" ++ lit ".json".
Definition desired_file (doc : json) : pystr :=
  lit "desired/" ++ deployment_ref self ++ 47 :: text doc "nonce" ++ lit ".json".

(** A command that was carried out before is answered from the ledger. *)
Definition reissue (previous : bytes) (fingerprint : pystr) : proc json :=
  command ← pure (read_json previous);
  f ← pure (item command "fingerprint");
  demand (bool_decide (f = JStr fingerprint)) "command_reused";;
  rebuild;;
  path ← pure (item command "desired_path");
  raw ← read (str_of path);
  pure (read_json (default [] raw)).

Definition issue_new (request : json) (actor : uuid) (fingerprint : pystr) : proc json :=
  doc ← pure (copy (dot request "desired"));
  pure (exact doc (unsigned_fields GENERATED_FIELDS));;
  demand (bool_decide (dot doc "deployment_ref" = JStr (deployment_ref self))) "deployment_mismatch";;
  baseline ← _baseline (text doc "deployment_ref");
  demand (bool_decide (dot doc "from_image_digest" = JStr baseline)) "baseline_moved";;
  now ← clock;
  nonce ← token;
  doc ← pure (fill_in request doc now nonce);
  pure (validate_desired doc (Some (instant now)) None (Some (text request "approved_plan_digest")));;
  reader ← pure (of_option (candidate_reader self) (refusal "candidate_reader_unavailable"));
  pure (validate_desired doc None None None);;
  reader doc;;
  envelope ← pure (seal DESIRED doc (signer self));
  _record
    [(desired_file doc, envelope);
     (command_file request,
      JObj [(lit "fingerprint", JStr fingerprint); (lit "desired_path", JStr (desired_file doc));
            (lit "actor_admin_id", JStr (uuid_str actor))])];;
  mret envelope.

Definition issue_command (request : json) (actor : uuid) : proc json :=
  pure (exact request [lit "command_id"; lit "desired"; lit "approved_plan_digest"]);;
  pure (identifier (dot request "command_id"));;
  fingerprint ← pure (fingerprint_of request actor);
  transaction (ledger self) (
    previous ← read (command_file request);
    match previous with
    | Some ((_ :: _) as previous) => reissue previous fingerprint
    | _ => issue_new request actor fingerprint
    end).

Definition issue (request : json) (actor : uuid) : proc json :=
  if is_text (dot request "mode") "preview" then preview request else issue_command request actor.

Definition latest (product environment host : pystr) : proc (option json) :=
  let ref := join [47] [product; environment; host] in
  demand (bool_decide (ref = deployment_ref self)) "host_mismatch";;
  transaction (ledger self) (
    docs ← _desired (Some ref);
    mret ((λ d, d.1.2) <$> last docs)).

(** *** Host keys *)

(** The next record of a key. *)
Definition record_key (id : pystr) (event : json) : proc unit :=
  u ← uuid4; _record [(key_path id u, event)].

Definition by_actor (actor : uuid) : pystr * json := (lit "actor_admin_id", JStr (uuid_str actor)).

Definition revoke (request : json) (actor : uuid) : proc json :=
  pure (exact request [lit "operation"; lit "key_id"]);;
  transaction (ledger self) (
    keys ← _keys;
    key ← pure (of_option (dict_get keys (text request "key_id")) (refusal "host_key_unknown"));
    record_key (text key "key_id") (merge key [(lit "state", JStr (lit "revoked")); by_actor actor]);;
    mret (JObj [(lit "state", JStr (lit "revoked"))])).

Definition enroll (request : json) (actor : uuid) : proc json :=
  pure (exact request [lit "key_id"; lit "deployment_ref"; lit "public_key_b64"]);;
  pure (identifier (dot request "key_id"));;
  demand (bool_decide (dot request "deployment_ref" = JStr (deployment_ref self))) "deployment_mismatch";;
  raw ← pure (unb64_of (dot request "public_key_b64"));
  demand (bool_decide (length raw = 32%nat)) "schema_violation";;
  transaction (ledger self) (
    keys ← _keys;
    match dict_get keys (text request "key_id") with
    | Some existing => demand (agrees_with existing request) "key_reused";; mret existing
    | None =>
        demand (forallb (λ k, negb (same (dot k.2 "public_key_b64") (dot request "public_key_b64"))) keys) "key_reused";;
        let registration := merge request
          [(lit "state", JStr (lit "pending")); (lit "challenge", JNull); by_actor actor] in
        record_key (text request "key_id") registration;;
        mret registration
    end).

Definition register (request : json) (actor : uuid) : proc json :=
  if is_text (dot request "operation") "revoke" then revoke request actor else enroll request actor.

(** A key that is pending, or [host_key_inactive]; also for an active one. *)
Definition key_in (state : string) (id : pystr) : proc json :=
  keys ← _keys;
  match dict_get keys id with
  | Some key => demand (is_text (dot key "state") state) "host_key_inactive";; mret key
  | None => throw (refusal "host_key_inactive")
  end.

Definition challenge (key_id : pystr) (actor : uuid) : proc json :=
  transaction (ledger self) (
    key ← key_in "pending" key_id;
    nonce ← token;
    now ← clock;
    expires ← pure (later now (10 * MINUTE));
    let challenge := JObj
      [(lit "schema", JStr CHALLENGE_SCHEMA); (lit "key_id", JStr key_id);
       (lit "deployment_ref", dot key "deployment_ref"); (lit "nonce", JStr (b64 nonce));
       (lit "expires_at", JStr (isoformat expires))] in
    record_key key_id (merge key [(lit "challenge", challenge); by_actor actor]);;
    mret challenge).

(** The possession answers the challenge on record. *)
Definition answers (key doc : json) : res unit :=
  match dot key "challenge" with
  | JObj challenge =>
      ensure (forallb (λ kv, bool_decide (kv.1 = lit "schema") ||
                same_json (default JNull (dict_get (items_of doc) kv.1)) kv.2) challenge)
        (refusal "challenge_mismatch")
  | _ => Raise (Exn AttributeError "items")
  end.

Definition activate (request : json) (actor : uuid) : proc json :=
  pure (exact request [lit "envelope"; lit "approved_public_key_fingerprint"]);;
  transaction (ledger self) (
    let envelope := dot request "envelope" in
    key ← key_in "pending" (text envelope "key_id");
    raw ← pure (unb64 (text key "public_key_b64"));
    demand (bool_decide (dot request "approved_public_key_fingerprint" = JStr (raw_digest raw))) "fingerprint_mismatch";;
    doc ← pure (verify POSSESSION envelope (text key "public_key_b64"));
    pure (validate_possession doc None);;
    now ← clock;
    pure (validate_possession doc (Some (instant now)));;
    pure (answers key doc);;
    received ← clock;
    record_key (text envelope "key_id") (merge key
      [(lit "state", JStr (lit "active")); (lit "possession", envelope);
       (lit "baseline_digest", dot doc "observed_image_digest");
       (lit "received_at", JStr (isoformat received)); by_actor actor]);;
    mret (JObj [(lit "state", JStr (lit "active"))])).

(** *** Applied states *)

Definition quarantine (envelope : json) (code : string) : proc verdict :=
  fingerprint ← pure (digest envelope);
  _record [(lit "quarantine/" ++ drop 7 fingerprint ++ lit ".json",
            JObj [(lit "code", JStr (lit code)); (lit "envelope", envelope)])];;
  mret (quarantined code).

Definition applied_file (key doc : json) : pystr :=
  lit "applied/" ++ text key "deployment_ref" ++ 47 :: text doc "report_id" ++ lit ".json".

(** The checks of a report that was not seen before. *)
Definition take_in (envelope key doc : json) : proc verdict :=
  issued ← _desired (Some (text key "deployment_ref"));
  let nonce := text (dot doc "desired") "nonce" in
  match head (filter (λ d, text d.2 "nonce" = nonce) issued) with
  | None => quarantine envelope "desired_unknown"
  | Some (_, _, desired) =>
      if succeeded doc && negb (_valid_success doc desired) then quarantine envelope "observed_mismatch"
      else if negb (agrees_with desired (dot doc "desired")) then quarantine envelope "desired_mismatch"
      else
        applied ← _events "applied";
        (* the loop stops at the first report with the nonce *)
        replayed ← pure (foldl (λ acc e, found ← acc;
          if (found : bool) then Ok true
          else previous ← report_of e; Ok (bool_decide (text (dot previous "desired") "nonce" = nonce)))
          (Ok false) applied);
        if (replayed : bool) then quarantine envelope "nonce_replay"
        else _record [(applied_file key doc, envelope)];; mret accepted
  end.

Definition ingest (envelope : json) : proc verdict :=
  transaction (ledger self) (
    pure (exact envelope (lit <$> ["schema"; "key_id"; "payload_b64"; "signature_b64"]%string));;
    key ← key_in "active" (text envelope "key_id");
    doc ← pure (verify APPLIED envelope (text key "public_key_b64"));
    pure (validate_applied doc);;
    if negb (same (dot key "deployment_ref") (dot doc "deployment_ref"))
    then quarantine envelope "deployment_mismatch"
    else
      prior ← read (applied_file key doc);
      match prior with
      | Some ((_ :: _) as prior) =>
          raw ← pure (canonical_json envelope);
          if negb (bool_decide (prior = raw)) then quarantine envelope "report_reused"
          else rebuild;; mret idempotent_replay
      | _ => take_in envelope key doc
      end).

Definition drift : proc json :=
  transaction (ledger self) (
    issued ← _desired (Some (deployment_ref self));
    latest ← _latest_report (deployment_ref self) false;
    let target := snd <$> last issued in
    let drifted :=
      match target, latest with
      | None, _ => false
      | Some _, None => true
      | Some t, Some l => negb (same (dot (dot l "desired") "nonce") (dot t "nonce")) || negb (succeeded l)
      end in
    mret (JObj [(lit "deployment_ref", JStr (deployment_ref self)); (lit "desired", default JNull target);
                (lit "applied", default JNull latest); (lit "drift", JBool drifted)])).

(** *** Gate evidence *)

(** What a campaign's submission of evidence appends. *)
Definition admit_new (request scope : json) (actor : uuid) (fingerprint path : pystr) : proc unit :=
  existing ← read path;
  demand (bool_decide (existing = None)) "run_reused";;
  since ← pure (at_ scope "observation_not_before");
  now ← clock;
  demand (since <=? instant now) "campaign_expired";;
  deadline ← pure (at_ request "deadline");
  demand (instant now <=? deadline) "campaign_expired";;
  verify_proofs self request scope None;;
  verify_prior request scope None;;
  _record
    [(path, request);
     (command_path request,
      JObj [(lit "fingerprint", JStr fingerprint); (lit "actor_admin_id", JStr (uuid_str actor));
            (lit "evidence_path", JStr path); (lit "scope", scope)])].

Definition admit_ (request : json) (actor : uuid) : proc json :=
  pure (GateEvidence.validate request false);;
  raw ← pure (of_option (gate_scope self) (refusal "campaign_unavailable"));
  scope ← pure (read_json raw);
  pure (authorize request scope actor);;
  fingerprint ← pure (fingerprint_of request actor);
  path ← pure (evidence_path request);
  transaction (ledger self) (
    validate_history;;
    previous ← read (command_path request);
    match previous with
    | Some ((_ :: _) as previous) =>
        command ← pure (read_json previous);
        f ← pure (item command "fingerprint");
        demand (bool_decide (f = JStr fingerprint)) "command_reused"
    | _ => admit_new request scope actor fingerprint path
    end;;
    _record [];;
    evidence ← read path;
    expected ← pure (canonical_json request);
    demand (bool_decide (evidence = Some expected)) "ledger_conflict";;
    commit ← addition_commit path;
    command_digest ← pure (digest request);
    passed ← pure (terminal_verdict request);
    mret (JObj
      [(lit "run_id", dot request "run_id"); (lit "command_sha256", JStr command_digest);
       (lit "ledger_commit", JStr commit); (lit "evidence_sha256", JStr (raw_digest (default [] evidence)));
       (lit "published", JBool true); (lit "verdict", JStr (lit (if (passed : bool) then "PASS" else "FAIL")));
       (lit "evidence", request)])).
End service.
