(* ===== verification/AgentHost.v ===== *)
(** * What the ledger's host does

    [site] is the state of the host as the agent can tell it, [answer] what a
    git command that succeeds does to it and prints, [Lawful] the documented
    behaviour of a host whose calls may also fail, and [ideal] a host on which
    they do not. *)

From S2P Require Import Prelude PyText PyUuid PyDate PyTime Json JsonReader JsonRound Contracts Effects AgentLedger.

#[local] Open Scope Z_scope.

(** A commit and the files it adds, in the order of their paths. *)
Record commit := Commit { commit_id : pystr; commit_files : list (pystr * bytes) }.

Record site := Site {
  (** the commits of the branch, oldest first, and those of the remote's *)
  history : list commit;
  published : list commit;
  (** files that are in no commit, and those of them that are in the index *)
  untracked : list (pystr * bytes);
  index : list pystr;
  db : tables;
  (** how often the clock or a random source was read *)
  ticks : nat;
}.

(** What the clock and the random sources say, reading after reading; the id of
    a new commit; and the name of the branch. *)
Class Oracles := {
  clock_at : nat → moment;
  token_at : nat → bytes;
  uuid_at : nat → uuid;
  new_id : list commit → list (pystr * bytes) → pystr;
  branch : pystr;
}.

Definition tree (cs : list commit) : list (pystr * bytes) := cs ≫= commit_files.
Definition file (cs : list commit) (path : pystr) : option bytes := dict_get (tree cs) path.

(** The history up to a commit. *)
Fixpoint upto (cs : list commit) (id : pystr) : option (list commit) :=
  match cs with
  | [] => None
  | c :: cs => if bool_decide (commit_id c = id) then Some [c] else cons c <$> upto cs id
  end.
Definition resolve (cs : list commit) (rev : pystr) : option (list commit) :=
  if bool_decide (rev = HEAD) then (if bool_decide (cs = []) then None else Some cs) else upto cs rev.

Definition last_id (cs : list commit) : option bytes :=
  c ← last cs; Some (commit_id c ++ [10]).

(** The directories a path runs through. *)
Fixpoint folders_from (dir : pystr) (parts : list pystr) : list pystr :=
  match parts with
  | [] | [_] => []
  | part :: parts => (dir ++ part) :: folders_from (dir ++ part ++ [47]) parts
  end.
Definition folders (path : pystr) : list pystr := folders_from [] (split_on 47 path).

(** The files on disk, and whether a new one can be made at a path. *)
Definition on_disk (s : site) : list pystr := (tree (history s)).*1 ++ (untracked s).*1.
Definition vacant (s : site) (path : pystr) : bool :=
  bool_decide (path ∉ on_disk s) &&
  forallb (λ p, bool_decide (path ∉ folders p)) (on_disk s).

Definition with_history s h := Site h (published s) (untracked s) (index s) (db s) (ticks s).
Definition with_untracked s u := Site (history s) (published s) u (index s) (db s) (ticks s).
Definition with_index s i := Site (history s) (published s) (untracked s) i (db s) (ticks s).
Definition with_db s d := Site (history s) (published s) (untracked s) (index s) d (ticks s).
Definition pushed s := Site (history s) (history s) (untracked s) (index s) (db s) (ticks s).
Definition ticked s := Site (history s) (published s) (untracked s) (index s) (db s) (S (ticks s)).

Section host.
Context `{Oracles}.

(** The commit of what is in the index. *)
Definition committed (s : site) : site :=
  let files := sort_by key_leb (filter (λ f, f.1 ∈ index s) (untracked s)) in
  Site (history s ++ [Commit (new_id (history s) files) files]) (published s)
    (filter (λ f, f.1 ∉ index s) (untracked s)) [] (db s) (ticks s).

(** What a command that succeeds prints, and the site after it. *)
Definition answer (c : git_cmd) (s : site) : option (bytes * site) :=
  let reading out := Some (out, s) in
  let cs := history s in
  match c with
  | Status => reading (as_lines ((λ f, lit "?? " ++ f.1) <$> untracked s))
  | RewriteLog | Fetch _ => reading []
  | HeadBranch => reading (branch ++ [10])
  | RevParse rev =>
      (out ← last_id (if bool_decide (rev = HEAD) then cs else published s); reading out)
  | LsTree =>
      if bool_decide (cs = []) then None
      else reading (as_lines (sort_by text_leb (tree cs).*1))
  | Show rev path => (cs ← resolve cs rev; raw ← file cs path; reading raw)
  | AddedLog => if bool_decide (cs = []) then None else reading (as_lines (tree cs).*1)
  | AdditionLog path =>
      if bool_decide (cs = []) then None
      else reading (as_lines (commit_id <$> reverse (filter (λ c, path ∈ (commit_files c).*1) cs)))
  | IsAncestor a b =>
      (newer ← resolve cs b; older ← resolve cs a;
       if bool_decide (length older ≤ length newer)%nat then reading [] else None)
  | Add names =>
      if forallb (λ n, bool_decide (n ∈ (untracked s).*1)) names
      then Some ([], with_index s (index s ++ names)) else None
  | CommitIndex _ => if bool_decide (index s = []) then None else Some ([], committed s)
  | Push _ => Some ([], pushed s)
  end.

(** How the output of a command compares with [answer]'s: to the letter, only
    in being empty, or not at all (where the agent does not look). *)
Definition tells (c : git_cmd) (out out' : bytes) : Prop :=
  match c with
  | Status => out = [] ↔ out' = []
  | RewriteLog | Fetch _ | Add _ | CommitIndex _ | Push _ => True
  | _ => out = out'
  end.

(** A host's calls do what is documented when they succeed; one that fails has
    done nothing or, a command that was killed, all of it.  A file whose writing
    failed may be left behind, with any contents. *)
Class Lawful `{HST : Host} := {
  look : hstate → site;
  git_done c w out w' :
    run_git c w = (Ret (0, out), w') →
    ∃ out', answer c (look w) = Some (out', look w') ∧ tells c out out';
  git_failed c w o w' :
    run_git c w = (o, w') → (∀ out, o ≠ Ret (0, out)) →
    look w' = look w ∨ ∃ out, answer c (look w) = Some (out, look w');
  parents_done path : keeps look (make_parents path);
  write_done path raw w w' u :
    write_new path raw w = (Ret u, w') →
    (path ∉ on_disk (look w)) ∧ look w' = with_untracked (look w) (untracked (look w) ++ [(path, raw)]);
  write_failed path raw w e w' :
    write_new path raw w = (Throw e, w') →
    look w' = look w ∨ ∃ part, look w' = with_untracked (look w) (untracked (look w) ++ [(path, part)]);
  read_done w o w' : db_read w = (o, w') → look w' = look w ∧ ∀ t, o = Ret t → t = db (look w);
  commit_done t w u w' : db_commit t w = (Ret u, w') → look w' = with_db (look w) t;
  commit_failed t w e w' :
    db_commit t w = (Throw e, w') → look w' = look w ∨ look w' = with_db (look w) t;
  clock_done w o w' :
    clock w = (o, w') → o = Ret (clock_at (ticks (look w))) ∧ look w' = ticked (look w);
  token_done w o w' :
    token w = (o, w') → o = Ret (token_at (ticks (look w))) ∧ look w' = ticked (look w);
  uuid_done w o w' :
    uuid4 w = (o, w') → o = Ret (uuid_at (ticks (look w))) ∧ look w' = ticked (look w);
  calls_end w :
    (∀ c, (run_git c w).1 ≠ Diverge) ∧ (∀ p, (make_parents p w).1 ≠ Diverge) ∧
    (∀ p raw, (write_new p raw w).1 ≠ Diverge) ∧ (db_read w).1 ≠ Diverge ∧
    ∀ t, (db_commit t w).1 ≠ Diverge;
}.

(** ** A host on which nothing fails *)

Definition os_error {A} : proc site exn A := throw (Exn OSError "").

#[export] Instance ideal : Host := {|
  hstate := site;
  run_git := λ c s, match answer c s with
                    | Some (out, s') => (Ret (0, out), s')
                    | None => (Ret (1, []), s)
                    end;
  make_parents := λ path s,
    if forallb (λ d, bool_decide (d ∉ on_disk s)) (folders path) then (Ret tt, s) else os_error s;
  write_new := λ path raw s,
    if vacant s path then (Ret tt, with_untracked s (untracked s ++ [(path, raw)])) else os_error s;
  db_read := λ s, (Ret (db s), s);
  db_commit := λ t s, (Ret tt, with_db s t);
  clock := λ s, (Ret (clock_at (ticks s)), ticked s);
  token := λ s, (Ret (token_at (ticks s)), ticked s);
  uuid4 := λ s, (Ret (uuid_at (ticks s)), ticked s);
|}.

#[export] Instance ideal_lawful : Lawful (HST := ideal).
Proof.
  refine {| look := λ s : @hstate ideal, s : site |}; simpl.
  - intros c s out s' Hrun. destruct (answer c s) as [[out' s'']|] eqn:Ha; [|done].
    simplify_eq. exists out. split; [done|]. by destruct c.
  - intros c s o s' Hrun Hne. destruct (answer c s) as [[out' s'']|] eqn:Ha; simplify_eq; [|by left].
    by destruct (Hne out').
  - intros path s. simpl. by case_match.
  - intros path raw s s' u. destruct (vacant s path) eqn:Hv; [|done]. intros [= <- <-].
    unfold vacant in Hv. bool_hyps. done.
  - intros path raw s e s'. case_match; [done|]. intros [= <- <-]. by left.
  - intros s o s' [= <- <-]. split; [done|]. by intros t [= ->].
  - by intros t s u s' [= _ <-].
  - by intros t s e s'.
  - by intros s o s' [= <- <-].
  - by intros s o s' [= <- <-].
  - by intros s o s' [= <- <-].
  - intros s. split_and!; try done.
    + intros c. by destruct (answer c s) as [[]|].
    + intros p. by case_match.
    + intros p raw. by case_match.
Defined.
End host.
