(* ===== verification/AgentLedgerSafety.v ===== *)
(** * What the ledger guarantees

    On a host that behaves as documented, what a reading procedure returns is
    what the faultless host returns, and appending a batch adds all of it as
    one commit or leaves the history alone. *)

From S2P Require Import Prelude PyText PyUuid PyDate PyTime Json JsonReader JsonRound Contracts Effects AgentLedger AgentHost.

#[local] Open Scope Z_scope.

Create HintDb keeps.
Create HintDb sim.

Section safety.
Context `{ORC : Oracles} `{HST : Host} `{LAW : !Lawful} `{FL : Floats} `{UCD : UnicodeDB}.

(** ** Simulation by the faultless host *)

(** What [m] returns, and the site it leaves, is what [m'] returns and leaves. *)
Definition sim {A} (m : proc hstate exn A) (m' : proc site exn A) : Prop :=
  ∀ w a w', m w = (Ret a, w') → m' (look w) = (Ret a, look w').

Lemma sim_ret {A} (a : A) : sim (mret a) (mret a).
Proof. by intros w b w' [= <- <-]. Qed.
Lemma sim_throw {A} e m' : sim (throw (A := A) e) m'.
Proof. by intros w b w'. Qed.
Lemma sim_bind {A B} m m' (f : A → proc hstate exn B) (f' : A → proc site exn B) :
  sim m m' → (∀ a, sim (f a) (f' a)) → sim (m ≫= f) (m' ≫= f').
Proof.
  intros Hm Hf w b w' (a & v & Ha & Hb)%bind_Ret. apply bind_Ret. eexists a, (look v).
  split; [by apply Hm|by apply Hf].
Qed.
Lemma sim_fmap {A B} (g : A → B) m m' : sim m m' → sim (g <$> m) (g <$> m').
Proof. intros Hm. apply sim_bind; [done|]. intros a. apply sim_ret. Qed.
Lemma sim_demand b code : sim (demand b code) (demand (HST := ideal) b code).
Proof. destruct b; [apply sim_ret|apply sim_throw]. Qed.
Lemma sim_pure {A} (m : res A) : sim (pure m) (pure (HST := ideal) m).
Proof. destruct m; [apply sim_ret|apply sim_throw]. Qed.
Lemma sim_traverse {A B} (f : A → proc hstate exn B) f' l :
  (∀ x, sim (f x) (f' x)) → sim (traverse f l) (traverse f' l).
Proof.
  intros Hf. induction l as [|x l IH]; simpl; [apply sim_ret|].
  apply sim_bind; [done|]. intros y. apply sim_bind; [done|]. intros. apply sim_ret.
Qed.

(** A command the agent reads by. *)
Definition reading (c : git_cmd) : bool :=
  match c with Add _ | CommitIndex _ | Push _ => false | _ => true end.

Lemma answer_reading c s out s' : reading c = true → answer c s = Some (out, s') → s' = s.
Proof.
  intros Hc Ha. destruct c; try done; simpl in Ha;
    repeat (case_match; simplify_option_eq; try done); by simplify_option_eq.
Qed.

Lemma git_Ret c w out w' :
  git c w = (Ret out, w') → run_git c w = (Ret (0, out), w').
Proof.
  unfold git, demand. intros ([code out'] & v & Hrun & Hw)%bind_Ret.
  apply bind_Ret in Hw as (u & v' & [Hc%Z.eqb_eq ->]%require_Ret & [[= ->] ->]%mret_eq). by subst.
Qed.

Lemma keeps_git c : reading c = true → keeps look (git c).
Proof.
  intros Hc. unfold git, demand. apply keeps_bind; [|intros [code out]; apply keeps_bind;
    [apply keeps_require|intros; apply keeps_ret]].
  intros w. destruct (run_git c w) as [o w'] eqn:Hrun. simpl.
  assert (Hd : (∃ out, o = Ret (0, out)) ∨ ∀ out, o ≠ Ret (0, out)).
  { destruct o as [[code out]|e|]; [|by right..]. destruct (decide (code = 0)) as [->|]; [left; eauto|].
    right. congruence. }
  destruct Hd as [[out ->]|Hne].
  - apply git_done in Hrun as (out' & Ha & _). by apply answer_reading in Ha.
  - apply git_failed in Hrun as [?|(out & Ha)]; [done| |done]. by apply answer_reading in Ha.
Qed.

Lemma git_ideal c s out s' : answer c s = Some (out, s') → git (HST := ideal) c s = (Ret out, s').
Proof. intros Ha. unfold git. rewrite bind_eq. simpl. by rewrite Ha. Qed.

(** A command whose output the agent reads. *)
Definition exact_output (c : git_cmd) : bool :=
  match c with HeadBranch | RevParse _ | LsTree | Show _ _ | AddedLog | AdditionLog _ | IsAncestor _ _ => true | _ => false end.

Lemma sim_git c : exact_output c = true → sim (git c) (git (HST := ideal) c).
Proof.
  intros Hc w out w' Hrun%git_Ret. apply git_done in Hrun as (out' & Ha & Ht).
  apply git_ideal. by destruct c; simpl in Ht; subst.
Qed.

Hint Resolve keeps_ret keeps_throw keeps_require keeps_bind keeps_fmap keeps_traverse keeps_git : keeps.
Lemma keeps_demand b code : keeps look (demand b code).
Proof. apply keeps_require. Qed.
Lemma keeps_pure {A} (m : res A) : keeps look (pure m).
Proof. by destruct m. Qed.
Hint Resolve keeps_demand keeps_pure : keeps.
Hint Resolve sim_ret sim_throw sim_bind sim_fmap sim_demand sim_pure sim_traverse sim_git : sim.

Lemma keeps_names c : reading c = true → keeps look (names c).
Proof. unfold names. eauto 10 with keeps. Qed.
Lemma sim_names c : exact_output c = true → sim (names c) (names (HST := ideal) c).
Proof. unfold names. eauto 10 with sim. Qed.
Hint Resolve keeps_names : keeps.
Hint Resolve sim_names : sim.

Lemma keeps_show n : keeps look (show n).
Proof. unfold show. eauto 10 with keeps. Qed.
Lemma sim_show n : sim (show n) (show (HST := ideal) n).
Proof. unfold show. eauto 10 with sim. Qed.
Hint Resolve keeps_show : keeps.
Hint Resolve sim_show : sim.

Lemma keeps_records p : keeps look (records p).
Proof. unfold records. eauto 10 with keeps. Qed.
Lemma sim_records p : sim (records p) (records (HST := ideal) p).
Proof. unfold records. eauto 10 with sim. Qed.
Hint Resolve keeps_records : keeps.
Hint Resolve sim_records : sim.

Lemma keeps_read n : keeps look (read n).
Proof. unfold read. eauto 10 with keeps. Qed.
Lemma sim_read n : sim (read n) (read (HST := ideal) n).
Proof. unfold read. eauto 10 with sim. Qed.
Hint Resolve keeps_read : keeps.
Hint Resolve sim_read : sim.

Lemma keeps_events : keeps look events.
Proof. unfold events. eapply keeps_bind; [eauto with keeps|]. intros all. apply keeps_traverse. intros n.
  apply keeps_bind; [eauto with keeps|]. intros [m raw]. eauto with keeps. Qed.
Lemma sim_events : sim events (events (HST := ideal)).
Proof. unfold events. apply sim_bind; [eauto with sim|]. intros all. apply sim_traverse. intros n.
  apply sim_bind; [eauto with sim|]. intros [m raw]. eauto with sim. Qed.

Lemma keeps_pending values : keeps look (pending_of values).
Proof.
  induction values as [|[n v] values IH]; simpl; [apply keeps_ret|].
  apply keeps_bind; [eauto with keeps|]. intros _. apply keeps_bind; [eauto with keeps|]. intros raw.
  apply keeps_bind; [eauto with keeps|]. intros [old|]; eauto with keeps.
Qed.
Lemma sim_pending values : sim (pending_of values) (pending_of (HST := ideal) values).
Proof.
  induction values as [|[n v] values IH]; simpl; [apply sim_ret|].
  apply sim_bind; [eauto with sim|]. intros _. apply sim_bind; [eauto with sim|]. intros raw.
  apply sim_bind; [eauto with sim|]. intros [old|]; eauto with sim.
Qed.

(** ** Transactions *)

Lemma keeps_begin self : keeps look (begin self).
Proof.
  unfold begin. apply keeps_bind; [eauto with keeps|]. intros out. apply keeps_bind; [eauto with keeps|].
  intros _. apply keeps_bind; [eauto with keeps|]. intros out'. apply keeps_bind; [eauto with keeps|].
  intros _. destruct (remote self); unfold in_step; eauto 10 with keeps.
Qed.

(** A command whose output is not looked at. *)
Lemma sim_unread {A} c (m : proc hstate exn A) m' :
  reading c = true → (∀ s, answer c s = Some ([], s)) → sim m m' →
  sim (git c;; m) (git (HST := ideal) c;; m').
Proof.
  intros Hc Ha Hm w a w' (o & v & Hg & Hrest)%bind_Ret. rewrite bind_eq, (git_ideal _ _ _ _ (Ha _)).
  pose proof (keeps_out _ _ _ _ _ (keeps_git c Hc) Hg) as <-. by apply Hm.
Qed.

Lemma sim_in_step r : sim (in_step r) (in_step (HST := ideal) r).
Proof. unfold in_step. apply sim_unread; [done..|]. eauto 10 with sim. Qed.

(** A transaction that begins finds nothing uncommitted. *)
Lemma begin_clean self w u w' :
  begin self w = (Ret u, w') → untracked (look w) = [].
Proof.
  unfold begin. intros (out & v & Hg & Hb)%bind_Ret. apply bind_Ret in Hb as (? & ? & Hd & _).
  apply require_Ret in Hd as [Hout ->]. apply bool_decide_eq_true in Hout as ->.
  apply git_Ret, git_done in Hg as (out' & Ha & Ht). simpl in Ha, Ht. injection Ha as <- _.
  destruct (untracked (look w)) as [|f fs]; [done|].
  pose proof (proj1 Ht eq_refl) as Hnil. discriminate Hnil.
Qed.

Lemma sim_begin self : sim (begin self) (begin (HST := ideal) self).
Proof.
  intros w u w' Hb. pose proof (begin_clean _ _ _ _ Hb) as Hclean.
  unfold begin in *. apply bind_Ret in Hb as (out & v & Hg & Hb).
  pose proof (keeps_out _ _ _ _ _ (keeps_git Status eq_refl) Hg) as Hv.
  apply bind_Ret in Hb as (? & ? & [_ ->]%require_Ret & Hb).
  apply bind_Ret in Hb as (out2 & v2 & Hg2 & Hb).
  pose proof (keeps_out _ _ _ _ _ (keeps_git RewriteLog eq_refl) Hg2) as Hv2.
  apply bind_Ret in Hb as (? & ? & [_ ->]%require_Ret & Hb).
  assert (Hstatus : answer Status (look w) = Some ([], look w)) by (simpl; by rewrite Hclean).
  rewrite bind_eq, (git_ideal _ _ _ _ Hstatus), bind_eq. cbn [demand Effects.require bool_decide].
  change (demand (HST := ideal) (bool_decide ([] = @nil Z)) "ledger_dirty" (look w)) with (Ret tt : outcome exn unit, look w).
  cbv iota beta. rewrite bind_eq, (git_ideal RewriteLog (look w) [] (look w) eq_refl), bind_eq.
  change (demand (HST := ideal) (bool_decide (bytes_strip [] = [])) "ledger_rewritten" (look w))
    with (Ret tt : outcome exn unit, look w). cbv iota beta.
  assert (look v2 = look w) as <- by congruence.
  destruct (remote self) as [r|]; [by apply sim_in_step|by injection Hb as <- <-].
Qed.

(** ** Appending *)

Definition batch_commit (s : site) (pending : list (pystr * bytes)) : commit :=
  let files := sort_by key_leb pending in Commit (new_id (history s) files) files.

(** The site after a batch was appended. *)
Definition appended (self : GitLedger) (s : site) (pending : list (pystr * bytes)) : site :=
  match pending with
  | [] => s
  | _ =>
      let h := history s ++ [batch_commit s pending] in
      Site h (match remote self with Some _ => h | None => published s end) [] [] (db s) (ticks s)
  end.

(** What an append that raised can leave: a history without the batch or with
    all of it. *)
Definition cut_short (values : list (pystr * json)) (s s' : site) : Prop :=
  db s' = db s ∧ ticks s' = ticks s ∧
  (history s' = history s ∨
   ∃ pending, pending ≠ [] ∧ pending_of (HST := ideal) values s = (Ret pending, s) ∧
              history s' = history s ++ [batch_commit s pending]).

Lemma cut_short_before values s s' :
  db s' = db s → ticks s' = ticks s → history s' = history s → cut_short values s s'.
Proof. intros. split_and!; auto. Qed.

Lemma triple_keeps_look {A} s (m : proc hstate exn A) values :
  keeps look m → triple (λ w, look w = s) m (λ _ w, look w = s) (λ _ w, cut_short values s (look w)).
Proof.
  intros Hm. eapply triple_conseq; [exact (triple_keeps look s m Hm)|auto..|]. intros e w ->.
  by apply cut_short_before.
Qed.

Lemma triple_writes s fs u values :
  triple (λ w, look w = with_untracked s u) (for_each (λ f, write_new f.1 f.2) fs)
    (λ _ w, look w = with_untracked s (u ++ fs)) (λ _ w, cut_short values s (look w)).
Proof.
  revert u. induction fs as [|[n raw] fs IH]; intros u; simpl.
  { intros w Hw. simpl. by rewrite app_nil_r. }
  eapply (triple_bind _ _ _ (λ _ w, look w = with_untracked s (u ++ [(n, raw)]))).
  - intros w Hw. destruct (write_new n raw w) as [[v|e|] w'] eqn:Hwr; [| |done].
    + apply write_done in Hwr as [_ ->]. by rewrite Hw.
    + apply write_failed in Hwr as [Hl|[part Hl]]; rewrite Hl, Hw; by apply cut_short_before.
  - intros _. eapply triple_conseq; [exact (IH (u ++ [(n, raw)]))|auto| |auto].
    intros v w. by rewrite <- app_assoc.
Qed.

Lemma triple_os {A} code P (m : proc hstate exn A) Q (R : site → Prop) :
  triple P m Q (λ _ w, R (look w)) → triple P (os_error_as code m) Q (λ _ w, R (look w)).
Proof.
  intros Hm. eapply triple_try; [exact Hm|]. intros e w Hw. case_bool_decide; exact Hw.
Qed.

Lemma filter_all {A} (P : A → Prop) `{∀ x, Decision (P x)} (l : list A) : (∀ x, x ∈ l → P x) → filter P l = l.
Proof.
  induction l as [|x l IH]; intros Hl; [done|]. rewrite filter_cons_True by (apply Hl; by left).
  f_equal. apply IH. intros; apply Hl; by right.
Qed.
Lemma filter_none {A} (P : A → Prop) `{∀ x, Decision (P x)} (l : list A) : (∀ x, x ∈ l → ¬ P x) → filter P l = [].
Proof.
  induction l as [|x l IH]; intros Hl; [done|]. rewrite filter_cons_False by (apply Hl; by left).
  apply IH. intros; apply Hl; by right.
Qed.

Lemma committed_batch s pending i :
  committed (with_index (with_untracked s pending) (i ++ pending.*1)) =
  Site (history s ++ [batch_commit s pending]) (published s) [] [] (db s) (ticks s).
Proof.
  unfold committed, batch_commit. cbn [history untracked index published db ticks with_index with_untracked].
  assert (Hin : ∀ f, f ∈ pending → f.1 ∈ i ++ pending.*1).
  { intros f Hf. apply elem_of_app. right. by apply list_elem_of_fmap_2. }
  rewrite filter_all by done. rewrite (filter_none (λ f, f.1 ∉ i ++ pending.*1)); [done|].
  intros f Hf Hn. apply Hn. by apply Hin.
Qed.

(** After a command that writes, either nothing happened or all of it did. *)
Lemma git_outcome c w o w' :
  git c w = (o, w') →
  (∃ out, o = Ret out) ∧ (∃ out', answer c (look w) = Some (out', look w')) ∨
  (∀ out, o ≠ Ret out) ∧
    (look w' = look w ∨ ∃ out', answer c (look w) = Some (out', look w')).
Proof.
  intros Hg. destruct o as [out|e|].
  - left. split; [eauto|]. apply git_Ret, git_done in Hg as (out' & Ha & _). eauto.
  - right. split; [done|]. unfold git, demand in Hg.
    apply bind_Throw in Hg as [Hrun|([code out] & v & Hrun & Hg)]; [by apply git_failed in Hrun|].
    apply bind_Throw in Hg as [(Hc & _ & ->)%require_Throw|(? & ? & _ & Hg)]; [|by apply mret_eq in Hg as [? _]].
    apply Z.eqb_neq in Hc. apply git_failed in Hrun; [done|]. intros out2 [= ? _]. done.
  - right. split; [done|]. unfold git, demand in Hg. rewrite bind_eq in Hg.
    destruct (run_git c w) as [[[code out]|e|] v] eqn:Hrun; [|done|].
    + rewrite bind_eq in Hg. destruct (Effects.require _ _ v) as [[]] eqn:Hr; [done..|].
      by destruct (code =? 0).
    + injection Hg as ->. by apply git_failed in Hrun.
Qed.

Lemma triple_git P c Q R :
  (∀ w s' out, P w → answer c (look w) = Some (out, s') → ∀ w', look w' = s' → Q w' ∧ R w') →
  (∀ w w', P w → look w' = look w → R w') →
  triple P (git c) (λ _ w, Q w) (λ _ w, R w).
Proof.
  intros Hdone Hnot w Hw. destruct (git c w) as [o w'] eqn:Hg.
  apply git_outcome in Hg as [[[out ->] [out' Ha]]|[Hne Hor]].
  - by destruct (Hdone _ _ _ Hw Ha w' eq_refl).
  - destruct o as [out|e|]; [by destruct (Hne out)| |done].
    destruct Hor as [Hl|[out' Ha]]; [by apply (Hnot w)|]. by destruct (Hdone _ _ _ Hw Ha w' eq_refl).
Qed.

Lemma triple_pending s values :
  triple (λ w, look w = s) (pending_of values)
    (λ pending w, look w = s ∧ pending_of (HST := ideal) values s = (Ret pending, s))
    (λ _ w, cut_short values s (look w)).
Proof.
  intros w Hw. pose proof (keeps_pending values w) as Hk.
  destruct (pending_of values w) as [[p|e|] w'] eqn:Hp; simpl in Hk; [| |done].
  - apply sim_pending in Hp. rewrite Hk, Hw in Hp. split; [congruence|done].
  - apply cut_short_before; by rewrite Hk, Hw.
Qed.

(** A batch is appended as one commit, or not at all. *)
Lemma append_triple self values s :
  untracked s = [] →
  triple (λ w, look w = s) (append_many self values)
    (λ b w, ∃ pending, pending_of (HST := ideal) values s = (Ret pending, s) ∧
                       look w = appended self s pending ∧ b = negb (bool_decide (pending = [])))
    (λ _ w, cut_short values s (look w)).
Proof.
  intros Hclean. unfold append_many. eapply triple_bind; [apply triple_pending|]. intros pending.
  intros w [Hw Hp]. revert w Hw.
  change (triple (λ w, look w = s)
    (os_error_as "ledger_path" (for_each make_parents pending.*1;; for_each (λ f, write_new f.1 f.2) pending);;
     match pending with
     | [] => mret false
     | _ => git (Add pending.*1);;
            git (CommitIndex (lit "deploy-agent append " ++ join (lit ",") pending.*1));;
            match remote self with Some r => git (Push r);; mret tt | None => mret tt end;; mret true
     end)
    (λ b w, ∃ pending, pending_of (HST := ideal) values s = (Ret pending, s) ∧
                       look w = appended self s pending ∧ b = negb (bool_decide (pending = [])))
    (λ _ w, cut_short values s (look w))).
  assert (Hself : with_untracked s [] = s) by (destruct s; simpl in *; by subst).
  eapply (triple_bind _ _ _ (λ _ w, look w = with_untracked s pending)).
  { apply (triple_os _ _ _ _ (cut_short values s)).
    eapply triple_bind; [apply triple_keeps_look, keeps_for_each, parents_done|]. intros u. cbv beta.
    eapply triple_conseq; [apply (triple_writes s pending [] values)| |done|done].
    intros w Hw. rewrite Hself. exact Hw. }
  intros _. destruct pending as [|f fs].
  { intros w Hw. simpl. exists []. rewrite Hw, Hself. done. }
  assert (Hne : f :: fs ≠ []) by done. cbn match. remember (f :: fs) as pending eqn:He. clear He f fs.
  assert (Hnames : forallb (λ n, bool_decide (n ∈ pending.*1)) pending.*1 = true).
  { apply forallb_forall. intros n Hn. by apply bool_decide_eq_true, list_elem_of_In. }
  eapply (triple_bind _ _ _ (λ _ w, look w = with_index (with_untracked s pending) (index s ++ pending.*1))).
  { apply triple_git.
    - intros w s' out Hw Ha w' <-. rewrite Hw in Ha. simpl in Ha. rewrite Hnames in Ha.
      injection Ha as _ <-. split; [done|]. by apply cut_short_before.
    - intros w w' Hw ->. rewrite Hw. by apply cut_short_before. }
  intros _. eapply (triple_bind _ _ _ (λ _ w, look w =
    Site (history s ++ [batch_commit s pending]) (published s) [] [] (db s) (ticks s))).
  { apply triple_git.
    - intros w s' out Hw Ha w' <-. rewrite Hw in Ha. simpl in Ha. case_bool_decide; [done|].
      injection Ha as _ Ha. rewrite <- Ha, committed_batch. split; [done|].
      split_and!; [done..|]. right. exists pending. done.
    - intros w w' Hw ->. rewrite Hw. by apply cut_short_before. }
  intros _. eapply (triple_bind _ _ _ (λ _ w, look w = appended self s pending)).
  { destruct (remote self) as [r|] eqn:Hr.
    - apply (triple_bind _ _ _ (λ _ w, look w = appended self s pending)); [|by intros u w Hw].
      apply triple_git.
      + intros w s' out Hw Ha w' <-. rewrite Hw in Ha. injection Ha as _ Ha. rewrite <- Ha.
        unfold appended. destruct pending; [done|]. rewrite Hr. split; [done|].
        split_and!; [done..|]. right. eauto.
      + intros w w' Hw ->. rewrite Hw. split_and!; [done..|]. right. eauto.
    - intros w Hw. simpl. unfold appended. rewrite Hr, Hw. by destruct pending. }
  intros _ w Hw. simpl. exists pending. split_and!; [done..|]. by rewrite bool_decide_false.
Qed.
End safety.
