(* ===== verification/AgentLog.v ===== *)
(** * The log that the history holds

    A tidy history names each file once, in plain ASCII; its records are
    canonical.  Then the procedures that read on the faultless host are functions of
    the history, and a batch that was appended shows up at the end of the log. *)

From S2P Require Import Prelude PyText PyUuid PyDate PyTime Json JsonReader JsonRound Effects Contracts ContractsSafety Envelopes AgentLedger AgentHost AgentLedgerSafety.

#[local] Open Scope Z_scope.

Definition plain_char (c : Z) : bool := between 33 126 c.
Definition plain_name (n : pystr) : Prop := n ≠ [] ∧ forallb plain_char n = true.

(** The text of a document that comes back. *)
Definition canonical (raw : bytes) : Prop := ∃ v kvs, v = JObj kvs ∧ returns v ∧ raw = dumps_compact v.

Record tidy (cs : list commit) : Prop := {
  tidy_some : cs ≠ [];
  tidy_once : NoDup (tree cs).*1;
  tidy_plain : Forall plain_name (tree cs).*1;
  tidy_canonical : Forall (λ f, is_json f.1 = true → canonical f.2) (tree cs);
}.

Lemma plain_name_line n : plain_name n → plain_line n.
Proof.
  intros [Hne Hn]. split; [done|]. rewrite forallb_forall in *. intros c Hc%Hn. revert Hc.
  unfold plain_char, linebreak, between.
  rewrite negb_true_iff, !orb_false_iff, !andb_true_iff, !andb_false_iff, !Z.leb_le, !Z.leb_gt, Z.eqb_neq. lia.
Qed.

Lemma plain_printable n : plain_name n → Forall printable n.
Proof.
  intros [_ Hn]. apply forallb_Forall_iff in Hn. eapply Forall_impl; [exact Hn|].
  unfold plain_char, between, printable. intros c Hc. bool_hyps. lia.
Qed.

Lemma ascii_decode raw : Forall (λ c, 0 ≤ c < 128) raw → decode_text raw = Ok raw.
Proof.
  intros Hr. unfold decode_text.
  assert (Hu : ∀ fuel s, Forall (λ c, 0 ≤ c < 128) s → (length s ≤ fuel)%nat → utf8 fuel s = Some s).
  { intros fuel. induction fuel as [|fuel IH]; intros [|c s] Hs Hf; simpl in Hf; try lia; try done.
    apply Forall_cons in Hs as [Hc Hs]. cbn [utf8 utf8_next]. rewrite (proj2 (Z.ltb_lt c 128)) by lia.
    cbn [mbind option_bind]. by rewrite IH by (done || lia). }
  rewrite Hu by done. cbn [of_option mbind res_bind].
  assert (Hs : forallb (λ c, negb (between 55296 57343 c)) raw = true).
  { apply forallb_Forall_iff. eapply Forall_impl; [exact Hr|]. intros c Hc. cbv beta in *. unfold between.
    destruct (Z.leb_spec 55296 c); [lia|done]. }
  by rewrite Hs.
Qed.

Lemma lines_ascii ns : Forall plain_name ns → Forall (λ c, 0 ≤ c < 128) (as_lines ns).
Proof.
  intros Hn. apply Forall_bind. eapply Forall_impl; [exact Hn|]. intros n Hp. apply Forall_app.
  split; [|by repeat constructor]. eapply Forall_impl; [by apply plain_printable|].
  intros c Hc. unfold printable in Hc. lia.
Qed.

Section log.
Context `{ORC : Oracles} `{FL : Floats} `{UCD : UnicodeDB}.

(** The names a command lists. *)
Lemma names_of c ns s :
  answer c s = Some (as_lines ns, s) → Forall plain_name ns → names (HST := ideal) c s = (Ret ns, s).
Proof.
  intros Ha Hn. unfold names. rewrite bind_eq, (git_ideal _ _ _ _ Ha), bind_eq.
  rewrite ascii_decode by (by apply lines_ascii). unfold pure, mret, proc_ret.
  rewrite splitlines_lines; [done|]. eapply Forall_impl; [exact Hn|]. apply plain_name_line.
Qed.

Lemma show_of s n raw :
  file (history s) n = Some raw → show (HST := ideal) n s = (Ret (n, raw), s).
Proof.
  intros Hf. unfold show. rewrite bind_eq. erewrite git_ideal; [done|]. simpl. unfold resolve.
  rewrite bool_decide_true by done. rewrite bool_decide_false.
  - simpl. by rewrite Hf.
  - intros He. by rewrite He in Hf.
Qed.

Lemma traverse_pure {A B W E} (f : A → proc W E B) (g : A → B) l w :
  Forall (λ x, f x w = (Ret (g x), w)) l → traverse f l w = (Ret (g <$> l), w).
Proof. induction 1 as [|x l Hx _ IH]; [done|]. simpl. by rewrite bind_eq, Hx, bind_eq, IH. Qed.

(** ** What is read on a tidy history *)

Lemma file_in cs n raw : NoDup (tree cs).*1 → (n, raw) ∈ tree cs ↔ file cs n = Some raw.
Proof.
  intros Hnd. split; [by apply dict_get_NoDup|apply dict_get_Some].
Qed.

Lemma sort_names_perm l : sort_by text_leb l ≡ₚ l.
Proof. apply sort_by_perm. Qed.

Lemma sort_names_idem l : sort_by text_leb (sort_by text_leb l) = sort_by text_leb l.
Proof. apply sort_by_id, sort_by_sorted; [apply text_leb_total|apply text_leb_trans]. Qed.

(** The records on file, in the order of their names. *)
Definition on_file (cs : list commit) (n : pystr) : pystr * bytes := (n, default [] (file cs n)).

Lemma show_on_file cs s n :
  history s = cs → n ∈ (tree cs).*1 → show (HST := ideal) n s = (Ret (on_file cs n), s).
Proof.
  intros <- Hn. unfold on_file. destruct (file (history s) n) as [raw|] eqn:Hf.
  - by apply show_of.
  - by apply dict_get_None in Hf.
Qed.

Lemma records_tidy prefix s :
  tidy (history s) →
  records (HST := ideal) prefix s =
  (Ret (on_file (history s) <$> filter (λ n, starts_with prefix n = true ∧ is_json n = true)
          (sort_by text_leb (tree (history s)).*1)), s).
Proof.
  intros [Hne Hnd Hpl _]. unfold records.
  assert (Hs : Forall plain_name (sort_by text_leb (tree (history s)).*1)) by (by rewrite sort_names_perm).
  rewrite bind_eq, (names_of _ _ _ (ltac:(by simpl; rewrite bool_decide_false) : answer LsTree s = Some (_, s)) Hs).
  rewrite sort_names_idem. apply traverse_pure. apply Forall_forall. intros n [_ Hn]%list_elem_of_filter.
  apply show_on_file; [done|]. by rewrite sort_names_perm in Hn.
Qed.

Lemma starts_with_refl n : starts_with n n = true.
Proof. apply starts_with_spec. exists []. by rewrite app_nil_r. Qed.

Lemma read_tidy n s :
  tidy (history s) →
  read (HST := ideal) n s = (Ret (if is_json n then file (history s) n else None), s).
Proof.
  intros Ht. unfold read. rewrite bind_eq, records_tidy by done. unfold mret, proc_ret. do 2 f_equal.
  set (l := filter _ (sort_by _ _)).
  assert (Hl : ∀ m, m ∈ l ↔ starts_with n m = true ∧ is_json m = true ∧ m ∈ (tree (history s)).*1).
  { intros m. unfold l. rewrite list_elem_of_filter, sort_names_perm. tauto. }
  destruct (filter (λ r, r.1 = n) (on_file (history s) <$> l)) as [|r rs] eqn:Hf; simpl.
  - destruct (is_json n) eqn:Hj; [|done]. destruct (file (history s) n) as [raw|] eqn:Hraw; [|done].
    apply dict_get_Some in Hraw as Hin. apply (list_elem_of_fmap_2 fst) in Hin.
    assert (Hx : on_file (history s) n ∈ filter (λ r, r.1 = n) (on_file (history s) <$> l)).
    { apply list_elem_of_filter. split; [done|]. apply list_elem_of_fmap_2, Hl.
      split_and!; [apply starts_with_refl|done..]. }
    rewrite Hf in Hx. by apply elem_of_nil in Hx.
  - assert (Hr : r ∈ filter (λ r, r.1 = n) (on_file (history s) <$> l)) by (rewrite Hf; by left).
    apply list_elem_of_filter in Hr as [Hn (m & -> & Hm)%list_elem_of_fmap]. simpl in *. subst m.
    apply Hl in Hm as (_ & -> & Hin). unfold file. destruct (dict_get (tree (history s)) n) eqn:Hg; [done|].
    by apply dict_get_None in Hg.
Qed.

(** *** Events *)

(** The records of a history with their documents, in the order of the log. *)
Definition documents (fs : list (pystr * bytes)) : res (list (pystr * json)) :=
  mapM (λ f, v ← read_json f.2; Ok (f.1, v)) (filter (λ f, is_json f.1 = true) fs).
Definition log (cs : list commit) : res (list (pystr * json)) := documents (tree cs).

Lemma traverse_res {A B W} (f : A → proc W exn B) (g : A → res B) l w :
  Forall (λ x, f x w = match g x with Ok b => (Ret b, w) | Raise e => (Throw e, w) end) l →
  traverse f l w = match mapM g l with Ok bs => (Ret bs, w) | Raise e => (Throw e, w) end.
Proof.
  induction 1 as [|x l Hx _ IH]; [done|]. simpl. rewrite bind_eq, Hx. destruct (g x) as [b|e]; [|done].
  simpl. rewrite bind_eq, IH. by destruct (mapM g l).
Qed.

Lemma events_tidy s :
  tidy (history s) →
  events (HST := ideal) s = match log (history s) with Ok l => (Ret l, s) | Raise e => (Throw e, s) end.
Proof.
  intros [Hne Hnd Hpl _]. unfold events.
  rewrite bind_eq, (names_of _ _ _ (ltac:(by simpl; rewrite bool_decide_false) : answer AddedLog s = Some (_, s)) Hpl).
  unfold log, documents.
  rewrite (traverse_res _ (λ n, v ← read_json (default [] (file (history s) n)); Ok (n, v))).
  - f_equal. assert (Hall : ∀ fs, (∀ f, f ∈ fs → f ∈ tree (history s)) →
      mapM (λ n, v ← read_json (default [] (file (history s) n)); Ok (n, v)) (filter (λ n, is_json n = true) fs.*1) =
      mapM (λ f, v ← read_json f.2; Ok (f.1, v)) (filter (λ f, is_json f.1 = true) fs)).
    { intros fs. induction fs as [|[n raw] fs IH]; intros Hfs; [done|]. rewrite fmap_cons, !filter_cons. simpl.
      assert (Hraw : file (history s) n = Some raw) by (apply file_in; [done|apply Hfs; by left]).
      specialize (IH (λ f H, Hfs f (list_elem_of_further _ _ _ H))).
      destruct (decide (is_json n = true)); [|exact IH]. cbn [mapM]. rewrite Hraw. cbn [default from_option fst snd].
      by rewrite IH. }
    by rewrite Hall.
  - apply Forall_forall. intros n [_ Hn]%list_elem_of_filter. rewrite bind_eq, (show_on_file _ _ _ eq_refl Hn).
    unfold on_file. rewrite bind_eq. destruct (read_json _); done.
Qed.

(** ** Batches *)

(** What the agent appends: documents that come back, under plain names. *)
Record appendable (values : list (pystr * json)) : Prop := {
  values_once : NoDup values.*1;
  values_named : Forall (λ v, plain_name v.1 ∧ is_json v.1 = true) values;
  values_return : Forall (λ v, returns v.2 ∧ ∃ kvs, v.2 = JObj kvs) values;
}.

Definition fresh (cs : list commit) (values : list (pystr * json)) : list (pystr * json) :=
  filter (λ v, file cs v.1 = None) values.

Lemma pending_tidy values s pending :
  tidy (history s) → appendable values →
  pending_of (HST := ideal) values s = (Ret pending, s) →
  pending = on_value dumps_compact <$> fresh (history s) values.
Proof.
  intros Ht [_ Hn _]. revert pending. induction Hn as [|[n v] values [_ Hj] Hn IH]; intros pending; simpl.
  { by intros [= <-]. }
  intros (u & s1 & [_ ->]%require_Ret & Hp)%bind_Ret. apply bind_Ret in Hp as (raw & s2 & Hraw & Hp).
  unfold canonical_json in Hraw. destruct (dumpable v); [|done]. simpl in Hraw. injection Hraw as <- <-.
  apply bind_Ret in Hp as (old & s3 & Hread & Hp). rewrite read_tidy in Hread by done. simpl in Hj. rewrite Hj in Hread.
  injection Hread as <- <-. unfold fresh. rewrite filter_cons. simpl.
  destruct (file (history s) n) as [old|] eqn:Hf; destruct (decide _); try done.
  - apply bind_Ret in Hp as (? & ? & [_ ->]%require_Ret & Hp). by apply IH.
  - apply bind_Ret in Hp as (rest & s4 & Hrest & [= <- ->]). by rewrite (IH _ Hrest).
Qed.

Lemma documents_canonical fs :
  Forall (λ f, is_json f.1 = true ∧ returns f.2 ∧ ∃ kvs, f.2 = JObj kvs) fs →
  documents (on_value dumps_compact <$> fs) = Ok (on_value sorted_json <$> fs).
Proof.
  intros Hf. unfold documents. induction Hf as [|[n v] fs (Hj & Hv & kvs & Hk) Hf IH]; [done|].
  rewrite fmap_cons, filter_cons. simpl in Hj, Hk. cbn [fst on_value]. rewrite decide_True by done.
  cbn [mapM snd]. rewrite (read_json_dumps v kvs) by done. cbn [mbind res_bind]. by rewrite IH.
Qed.

Lemma documents_app a b :
  documents (a ++ b) = x ← documents a; y ← documents b; Ok (x ++ y).
Proof.
  unfold documents. rewrite filter_app. generalize (filter (λ f, is_json f.1 = true) a) (filter (λ f, is_json f.1 = true) b).
  intros l k. induction l as [|f l IH]; [simpl; by destruct (mapM _ k)|]. cbn [app mapM].
  destruct (read_json f.2) as [v|]; [|done]. cbn [mbind res_bind]. rewrite IH.
  destruct (mapM _ l) as [x|]; [|done]. cbn [mbind res_bind]. by destruct (mapM _ k).
Qed.

(** The log after a batch was appended to a history. *)
Definition batch_of (cs : list commit) (values : list (pystr * json)) : list (pystr * json) :=
  on_value sorted_json <$> sort_by key_leb (fresh cs values).

Lemma sorted_batch cs values :
  sort_by key_leb (on_value dumps_compact <$> fresh cs values) =
  on_value dumps_compact <$> sort_by key_leb (fresh cs values).
Proof. apply (sort_by_value dumps_compact). Qed.

Lemma log_appended cs c values l :
  appendable values → commit_files c = sort_by key_leb (on_value dumps_compact <$> fresh cs values) →
  log cs = Ok l → log (cs ++ [c]) = Ok (l ++ batch_of cs values).
Proof.
  intros [_ Hn Hr] Hc Hl. unfold log, tree in *. rewrite bind_app, documents_app, Hl. cbn [mbind res_bind].
  simpl. rewrite app_nil_r, Hc, sorted_batch, documents_canonical; [done|].
  apply Forall_forall. intros v Hv. rewrite sort_by_perm in Hv. apply list_elem_of_filter in Hv as [_ Hv].
  rewrite Forall_forall in Hn, Hr. destruct (Hn _ Hv), (Hr _ Hv). done.
Qed.

Lemma tidy_appended cs c values :
  tidy cs → appendable values → commit_files c = sort_by key_leb (on_value dumps_compact <$> fresh cs values) →
  tidy (cs ++ [c]).
Proof.
  intros [Hne Hnd Hpl Hcan] [Ho Hn Hr] Hc.
  assert (Htree : tree (cs ++ [c]) = tree cs ++ commit_files c).
  { unfold tree. rewrite bind_app. simpl. by rewrite app_nil_r. }
  assert (Hf : ∀ v, v ∈ fresh cs values → v ∈ values ∧ v.1 ∉ (tree cs).*1).
  { intros v [Hv Hin]%list_elem_of_filter. split; [done|]. by apply dict_get_None. }
  assert (Hp : (commit_files c).*1 ≡ₚ (fresh cs values).*1).
  { rewrite Hc, sort_by_perm. unfold on_value. by rewrite <- list_fmap_compose. }
  rewrite Forall_forall in Hn, Hr. split.
  - by destruct cs.
  - rewrite Htree, fmap_app, Hp. apply NoDup_app. split; [done|]. split.
    + intros n Hin (v & -> & Hv)%list_elem_of_fmap. by destruct (Hf v Hv).
    + eapply sublist_NoDup; [exact Ho|]. apply fmap_sublist, sublist_filter.
  - rewrite Htree, fmap_app, Hp. apply Forall_app. split; [done|]. apply Forall_fmap, Forall_forall.
    intros v [Hv _]%Hf. by destruct (Hn v Hv).
  - rewrite Htree. apply Forall_app. split; [done|]. rewrite Hc, sort_by_perm. apply Forall_fmap, Forall_forall.
    intros v [Hv _]%Hf _. destruct (Hr v Hv) as [Hret [kvs Hk]]. by exists v.2, kvs.
Qed.
End log.
