(* ===== verification/AgentRules.v ===== *)
(** * The rules of the log

    What [check_log] accepts: every key is on record under its own id, for the
    service's deployment, and no two have one public key; the views the service
    takes of the log ([_keys], [_desired], the reports) are the state the rules
    keep. *)

From S2P Require Import Prelude PyText PyUuid PyDate PyTime Json JsonReader JsonRound Effects Contracts ContractsSafety Envelopes AgentLedger GateEvidence GateAdmission AgentProjection AgentService.

#[local] Open Scope Z_scope.

(** ** Fields of a document that was changed *)

Lemma dot_set kvs k v k' :
  dot (JObj (dict_set kvs (lit k) v)) k' = if bool_decide (lit k' = lit k) then v else dot (JObj kvs) k'.
Proof. simpl. rewrite dict_get_set. by case_bool_decide. Qed.

Lemma shape_set fs kvs k v o h :
  NoDup fs.*1 → NoDup kvs.*1 → shape (TTyped fs) (JObj kvs) = true →
  dict_get fs k = Some (o, h) → shape h v = true →
  shape (TTyped fs) (JObj (dict_set kvs k v)) = true.
Proof.
  intros Hf Hk Hs Hg Hv. apply shape_typed; [by apply dict_set_NoDup|done|]. intros k'. rewrite dict_get_set.
  case_bool_decide as Heq; [subst; by rewrite Hg|]. revert k' Heq. intros k' _. by apply (proj1 (shape_typed _ _ Hk Hf)).
Qed.

Lemma key_record_names : NoDup (match KeyRecord with TTyped fs => fs | _ => [] end).*1.
Proof. apply (bool_decide_unpack _). vm_compute. done. Qed.

Lemma returns_keys v kvs : returns v → v = JObj kvs → NoDup kvs.*1.
Proof. intros Hv ->. by inversion Hv. Qed.

Lemma item_dot v k x : item v k = Ok x → dot v k = x.
Proof. destruct v; try done. simpl. destruct (dict_get _ _); [|done]. by intros [= ->]. Qed.

Lemma shape_item fs v k h :
  shape (TTyped fs) v = true → dict_get fs (lit k) = Some (false, h) → item v k = Ok (dot v k).
Proof.
  intros Hs Hf. destruct v as [| | | | | |kvs]; try done. simpl in *.
  apply andb_true_iff in Hs as [Hreq _]. rewrite forallb_Forall_iff, Forall_forall in Hreq.
  specialize (Hreq _ (dict_get_Some _ _ _ Hf)). simpl in Hreq. apply bool_decide_eq_true in Hreq.
  destruct (dict_get kvs (lit k)) as [x|] eqn:Hx; [done|]. by apply dict_get_None in Hx.
Qed.

Section rules.
Context `{CRY : Crypto} `{FL : Floats} `{UCD : UnicodeDB}.
Context (deployment : pystr) (public_key : pystr).
#[local] Abbreviation check_log := (check_log deployment public_key).
#[local] Abbreviation check_event := (check_event deployment public_key).

Lemma check_snoc l e : check_log (l ++ [e]) = seen ← check_log l; check_event seen e.
Proof. unfold AgentService.check_log. by rewrite foldl_app. Qed.

Lemma check_app l k seen :
  check_log l = Ok seen →
  check_log (l ++ k) = foldl (λ acc e, seen ← acc; check_event seen e) (Ok seen) k.
Proof. intros Hl. unfold AgentService.check_log in *. by rewrite foldl_app, Hl. Qed.

Lemma check_prefix l k seen : check_log (l ++ k) = Ok seen → ∃ seen0, check_log l = Ok seen0.
Proof.
  unfold AgentService.check_log. rewrite foldl_app. destruct (foldl _ _ l) as [seen0|err]; [by exists seen0|].
  intros Hc. exfalso. revert Hc. induction k as [|x k IH]; [done|exact IH].
Qed.

(** A log that was refused stays so, whatever is appended. *)
Lemma check_refused l k e : check_log l = Raise e → check_log (l ++ k) = Raise e.
Proof.
  unfold AgentService.check_log. rewrite foldl_app. intros ->. induction k as [|x k IH]; [done|exact IH].
Qed.

(** Induction on a log that was accepted. *)
Lemma log_ind (P : list (pystr * json) → Seen → Prop) :
  P [] nothing_seen →
  (∀ l seen e seen', check_log l = Ok seen → P l seen → check_event seen e = Ok seen' → P (l ++ [e]) seen') →
  ∀ l seen, check_log l = Ok seen → P l seen.
Proof.
  intros H0 Hs l. induction l as [|e l IH] using rev_ind; intros seen Hl.
  - injection Hl as <-. exact H0.
  - rewrite check_snoc in Hl. apply bind_Ok in Hl as (seen0 & Hl & He). eauto.
Qed.

(** What an accepted event does to the state of the rules. *)
Inductive event_kind := KeyEvent | DesiredEvent | QuarantineEvent | AppliedEvent | OtherEvent.
#[export] Instance event_kind_eq_dec : EqDecision event_kind.
Proof. solve_decision. Defined.
Definition kind_event (path : pystr) : event_kind :=
  if starts_with (lit "keys/") path then KeyEvent
  else if starts_with (lit "desired/") path then DesiredEvent
  else if starts_with (lit "quarantine/") path then QuarantineEvent
  else if starts_with (lit "applied/") path then AppliedEvent else OtherEvent.

Lemma check_event_kind seen path event :
  check_event seen (path, event) =
  match kind_event path with
  | KeyEvent => check_key_event deployment seen event
  | DesiredEvent => check_desired_event public_key seen event
  | QuarantineEvent => check_quarantine_event seen path event
  | AppliedEvent => check_applied_event seen event
  | OtherEvent => Ok seen
  end.
Proof. unfold AgentService.check_event, kind_event. by repeat case_match. Qed.

(** An event that has rules. *)
Definition ruled (e : pystr * json) : Prop := kind_event e.1 ≠ OtherEvent.
#[export] Instance ruled_dec e : Decision (ruled e).
Proof. unfold ruled. apply _. Defined.

(** *** Keys *)

Lemma check_key_Ok seen key seen' :
  check_key_event deployment seen key = Ok seen' →
  shape KeyRecord key = true ∧ text key "deployment_ref" = deployment ∧
  seen' = {| seen_keys := dict_set (seen_keys seen) (text key "key_id") key;
             seen_desired := seen_desired seen; consumed := consumed seen |} ∧
  match dict_get (seen_keys seen) (text key "key_id") with
  | Some previous =>
      dot previous "public_key_b64" = dot key "public_key_b64" ∧
      (is_text (dot previous "state") "pending" = true ∨ is_text (dot key "state") "revoked" = true) ∧
      (is_text (dot key "state") "active" = true → check_activation previous key = Ok tt)
  | None =>
      is_text (dot key "state") "pending" = true ∧
      ∀ other, other ∈ seen_keys seen → dot other.2 "public_key_b64" ≠ dot key "public_key_b64"
  end.
Proof.
  unfold check_key_event, _shape. intros (Hs%ensure_Ok & H)%bind_Ok_unit.
  apply bind_Ok_unit in H as (Hd%ensure_Ok & H). apply bind_Ok_unit in H as (Hp & [= <-]).
  apply bool_decide_eq_true in Hd. split_and!; [done..|].
  destruct (dict_get (seen_keys seen) (text key "key_id")) as [previous|].
  - apply bind_Ok_unit in Hp as (Hsame%ensure_Ok & Hp). apply bind_Ok_unit in Hp as (Hst%ensure_Ok & Hp).
    unfold same in Hsame. bool_hyps. apply orb_true_iff in Hst. split_and!; [done..|]. intros Hact.
    rewrite Hact in Hp. destruct (is_text (dot previous "state") "active") eqn:Hpa.
    + exfalso. unfold is_text in *. bool_hyps. rewrite Hpa, Hact in Hst. destruct Hst; bool_hyps; discriminate.
    + by apply bind_Ok_unit in Hp as (_ & ?).
  - apply ensure_Ok in Hp. bool_hyps. split; [done|]. intros other Ho. rewrite forallb_Forall_iff, Forall_forall in H0.
    specialize (H0 _ Ho). unfold same in H0. bool_hyps. done.
Qed.

(** The keys on record. *)
Record keys_ok (keys : list (pystr * json)) : Prop := {
  keys_once : NoDup keys.*1;
  keys_shape : ∀ id key, (id, key) ∈ keys →
    shape KeyRecord key = true ∧ returns key ∧ text key "key_id" = id ∧ text key "deployment_ref" = deployment;
  keys_apart : ∀ id key id' key', (id, key) ∈ keys → (id', key') ∈ keys →
    dot key "public_key_b64" = dot key' "public_key_b64" → id = id';
}.

Lemma dict_set_in {V} (d : list (pystr * V)) k v x y :
  NoDup d.*1 → (x, y) ∈ dict_set d k v ↔ (x = k ∧ y = v) ∨ (x ≠ k ∧ (x, y) ∈ d).
Proof.
  intros Hd. pose proof (dict_set_NoDup d k v Hd) as Hn. split.
  - intros Hin. apply (dict_get_NoDup _ _ _ Hn) in Hin. rewrite dict_get_set in Hin. case_bool_decide.
    + left. split; congruence.
    + right. split; [done|]. by apply dict_get_Some.
  - intros [[-> ->]|[Hne Hin]]; apply dict_get_Some; rewrite dict_get_set.
    + by rewrite bool_decide_true.
    + rewrite bool_decide_false by done. by apply dict_get_NoDup.
Qed.

Lemma keys_ok_set keys key :
  keys_ok keys → shape KeyRecord key = true → returns key → text key "deployment_ref" = deployment →
  match dict_get keys (text key "key_id") with
  | Some previous => dot previous "public_key_b64" = dot key "public_key_b64"
  | None => ∀ other, other ∈ keys → dot other.2 "public_key_b64" ≠ dot key "public_key_b64"
  end →
  keys_ok (dict_set keys (text key "key_id") key).
Proof.
  intros [Hn Hk Ha] Hs Hr Hd Hp. set (id := text key "key_id") in *.
  assert (Hnew : ∀ id' key', (id', key') ∈ keys → dot key' "public_key_b64" = dot key "public_key_b64" → id' = id).
  { intros id' key' Hin Heq. destruct (dict_get keys id) as [previous|] eqn:Hg.
    - apply dict_get_Some in Hg. eapply Ha; [exact Hin|exact Hg|congruence].
    - by apply Hp in Hin. }
  split; [by apply dict_set_NoDup| |].
  - intros id' key'. rewrite dict_set_in by done. intros [[-> ->]|[_ Hin]]; [done|]. by apply Hk.
  - intros id1 k1 id2 k2. rewrite !dict_set_in by done.
    intros [[-> ->]|[_ H1]] [[-> ->]|[_ H2]] Heq; [done| | |].
    + symmetry. eapply Hnew; [exact H2|done].
    + by eapply Hnew.
    + by eapply Ha.
Qed.

Lemma log_keys l seen :
  check_log l = Ok seen → Forall (λ e, returns e.2) l → keys_ok (seen_keys seen).
Proof.
  intros Hl. revert l seen Hl. apply (log_ind (λ l seen, Forall (λ e, returns e.2) l → keys_ok (seen_keys seen))).
  { intros _. split; [apply NoDup_nil_2|intros id key Hin|intros id key id' key' Hin]; by apply elem_of_nil in Hin. }
  intros l seen [path event] seen' _ IH He [Hl [Hr _]%Forall_cons]%Forall_app. specialize (IH Hl). simpl in Hr.
  rewrite check_event_kind in He. destruct (kind_event path).
  - apply check_key_Ok in He as (Hs & Hd & -> & Hp). simpl. apply keys_ok_set; try done.
    by destruct (dict_get (seen_keys seen) _); [destruct Hp as (? & _)|destruct Hp].
  - unfold check_desired_event in He. inv_res. exact IH.
  - unfold check_quarantine_event in He. inv_res. by case_in He; inv_res.
  - unfold check_applied_event in He. inv_res. by case_in He; inv_res.
  - by injection He as <-.
Qed.

(** *** The views of the service *)

Lemma starts_apart c p d q s :
  starts_with (c :: p) s = true → starts_with (d :: q) s = true → c = d.
Proof. destruct s as [|x s]; [done|]. simpl. intros [Hc _]%andb_true_iff [Hd _]%andb_true_iff. lia. Qed.

Definition kind_prefix (k : event_kind) : option string :=
  match k with
  | KeyEvent => Some "keys" | DesiredEvent => Some "desired"
  | QuarantineEvent => Some "quarantine" | AppliedEvent => Some "applied" | OtherEvent => None
  end%string.

(** Events of one kind are those under its directory. *)
Lemma kind_starts k p path :
  kind_prefix k = Some p → starts_with (lit p ++ [47]) path = true ↔ kind_event path = k.
Proof.
  intros Hp. unfold kind_event.
  change (lit "keys/") with (lit "keys" ++ [47]). change (lit "desired/") with (lit "desired" ++ [47]).
  change (lit "quarantine/") with (lit "quarantine" ++ [47]). change (lit "applied/") with (lit "applied" ++ [47]).
  destruct (starts_with (lit "keys" ++ [47]) path) eqn:H1, (starts_with (lit "desired" ++ [47]) path) eqn:H2,
    (starts_with (lit "quarantine" ++ [47]) path) eqn:H3, (starts_with (lit "applied" ++ [47]) path) eqn:H4;
    try (pose proof (starts_apart _ _ _ _ _ H1 H2); discriminate); try (pose proof (starts_apart _ _ _ _ _ H1 H3); discriminate);
    try (pose proof (starts_apart _ _ _ _ _ H1 H4); discriminate); try (pose proof (starts_apart _ _ _ _ _ H2 H3); discriminate);
    try (pose proof (starts_apart _ _ _ _ _ H2 H4); discriminate); try (pose proof (starts_apart _ _ _ _ _ H3 H4); discriminate);
    destruct k; simplify_eq/=; rewrite ?H1, ?H2, ?H3, ?H4; split; congruence.
Qed.

Definition of_kind (k : string) (l : list (pystr * json)) : list (pystr * json) :=
  filter (λ e, starts_with (lit k ++ [47]) e.1 = true) l.

Lemma of_kind_snoc k p l e :
  kind_prefix k = Some p →
  (kind_event e.1 = k ∧ of_kind p (l ++ [e]) = of_kind p l ++ [e]) ∨
  (kind_event e.1 ≠ k ∧ of_kind p (l ++ [e]) = of_kind p l).
Proof.
  intros Hp. unfold of_kind. rewrite filter_app, filter_cons, filter_nil.
  destruct (decide (starts_with (lit p ++ [47]) e.1 = true)) as [Hs|Hs];
    rewrite (kind_starts _ _ _ Hp) in Hs; [by left|right]. by rewrite app_nil_r.
Qed.

Lemma mapM_snoc {A B} (f : A → res B) l x :
  mapM f (l ++ [x]) = ys ← mapM f l; y ← f x; Ok (ys ++ [y]).
Proof.
  induction l as [|a l IH]; cbn [app mapM].
  - by destruct (f x).
  - destruct (f a); [|done]. cbn [mbind res_bind]. rewrite IH. destruct (mapM f l); [|done].
    cbn [mbind res_bind]. by destruct (f x).
Qed.

(** [_keys]. *)
Lemma keys_view l seen : check_log l = Ok seen → keys_of (of_kind "keys" l) = Ok (seen_keys seen).
Proof.
  intros Hl. revert l seen Hl. apply log_ind; [done|]. intros l seen [path event] seen' _ IH He.
  rewrite check_event_kind in He.
  destruct (of_kind_snoc KeyEvent "keys" l (path, event) eq_refl) as [[Hk ->]|[Hk ->]]; simpl in Hk.
  - rewrite Hk in He. apply check_key_Ok in He as (Hs & _ & -> & _). unfold keys_of in *.
    rewrite foldl_app, IH. cbn [foldl mbind res_bind snd].
    by rewrite (shape_item _ _ "key_id" (TText Identifier) Hs eq_refl).
  - assert (seen_keys seen' = seen_keys seen) as ->; [|done].
    destruct (kind_event path); [done|..].
    + unfold check_desired_event in He. by inv_res.
    + unfold check_quarantine_event in He. inv_res. by case_in He; inv_res.
    + unfold check_applied_event in He. inv_res. by case_in He; inv_res.
    + by injection He as <-.
Qed.

(** [_desired]. *)
Definition desired_doc (e : pystr * json) : res (pystr * json * json) :=
  doc ← verify DESIRED e.2 public_key; validate_desired doc None None None;; Ok (e.1, e.2, doc).
Lemma desired_view l seen :
  check_log l = Ok seen →
  ∃ docs, mapM desired_doc (of_kind "desired" l) = Ok docs ∧
          seen_desired seen = (λ d, (text d.2 "nonce", d.2)) <$> docs ∧ NoDup (seen_desired seen).*1.
Proof.
  intros Hl. revert l seen Hl. apply log_ind.
  { exists []. split_and!; [done..|]. apply NoDup_nil_2. }
  intros l seen [path event] seen' _ (docs & IH & Hd & Hn) He.
  rewrite check_event_kind in He.
  destruct (of_kind_snoc DesiredEvent "desired" l (path, event) eq_refl) as [[Hk ->]|[Hk ->]]; simpl in Hk.
  - rewrite Hk in He. unfold check_desired_event in He. apply bind_Ok in He as (doc & Hv & He).
    apply bind_Ok_unit in He as (Hval & He). apply bind_Ok_unit in He as (Hnew%ensure_Ok & [= <-]).
    apply bool_decide_eq_true in Hnew. simpl.
    rewrite dict_set_new by done. exists (docs ++ [(path, event, doc)]). split_and!.
    + rewrite mapM_snoc, IH. unfold desired_doc. cbn [mbind res_bind snd fst]. rewrite Hv.
      cbn [mbind res_bind]. by rewrite Hval.
    + by rewrite Hd, fmap_app.
    + rewrite fmap_app. apply NoDup_app. split; [done|]. split; [|apply NoDup_singleton].
      intros x Hx Hin%list_elem_of_singleton. by subst.
  - assert (seen_desired seen' = seen_desired seen) as ->; [|by exists docs].
    destruct (kind_event path); [|done|..].
    + by apply check_key_Ok in He as (_ & _ & -> & _).
    + unfold check_quarantine_event in He. inv_res. by case_in He; inv_res.
    + unfold check_applied_event in He. inv_res. by case_in He; inv_res.
    + by injection He as <-.
Qed.

(** The reports. *)
Lemma verified_report e key doc :
  verify APPLIED e.2 key = Ok doc → report_of e = Ok doc.
Proof.
  intros Hv. pose proof Hv as (id & raw & k & sg & input & _ & Hraw & _ & _ & _ & _ & Hread & Hval & _)%verify_Ok.
  unfold verify in Hv. apply bind_Ok_unit in Hv as (Hs%ensure_Ok & _). unfold report_of.
  rewrite (shape_item _ _ "payload_b64" TStr Hs eq_refl). cbn [mbind res_bind].
  pose proof (shape_dot _ _ "payload_b64" TStr Hs eq_refl) as Ht.
  destruct (dot e.2 "payload_b64"); try done. simpl in Hraw. cbn [unb64_of]. rewrite Hraw. cbn [mbind res_bind].
  rewrite Hread. cbn [mbind res_bind]. simpl in Hval. by rewrite Hval.
Qed.

Definition nonce_of (report : json) : pystr := text (dot report "desired") "nonce".
Lemma applied_view l seen :
  check_log l = Ok seen →
  ∃ reports, mapM report_of (of_kind "applied" l) = Ok reports ∧
             consumed seen = reverse (nonce_of <$> reports) ∧ NoDup (consumed seen).
Proof.
  intros Hl. revert l seen Hl. apply log_ind.
  { exists []. split_and!; [done..|]. apply NoDup_nil_2. }
  intros l seen [path event] seen' _ (reports & IH & Hd & Hn) He.
  rewrite check_event_kind in He.
  destruct (of_kind_snoc AppliedEvent "applied" l (path, event) eq_refl) as [[Hk ->]|[Hk ->]]; simpl in Hk.
  - rewrite Hk in He. unfold check_applied_event in He. apply bind_Ok in He as (id & _ & He).
    apply bind_Ok in He as (key & _ & He). apply bind_Ok_unit in He as (_ & He).
    apply bind_Ok in He as (report & Hv & He). apply bind_Ok_unit in He as (_ & He).
    destruct (dict_get (seen_desired seen) _) as [desired|]; [|done].
    apply bind_Ok_unit in He as (Hc%ensure_Ok & He). apply bind_Ok_unit in He as (_ & He).
    apply bind_Ok_unit in He as (_ & [= <-]). bool_hyps. exists (reports ++ [report]). split_and!.
    + rewrite mapM_snoc, IH. cbn [mbind res_bind]. by rewrite (verified_report (path, event) _ _ Hv).
    + simpl. by rewrite fmap_app, reverse_app, Hd.
    + simpl. by apply NoDup_cons.
  - assert (consumed seen' = consumed seen) as ->; [|by exists reports].
    destruct (kind_event path); [|..|done|].
    + by apply check_key_Ok in He as (_ & _ & -> & _).
    + unfold check_desired_event in He. by inv_res.
    + unfold check_quarantine_event in He. inv_res. by case_in He; inv_res.
    + by injection He as <-.
Qed.
End rules.
