(* ===== verification/AgentChecks.v ===== *)
(** * New events pass the rules

    The record that each operation of the service appends is one the rules of
    the log accept, as it is read back. *)

From S2P Require Import Prelude PyText PyUuid PyDate PyTime Json JsonReader JsonRound Effects Contracts ContractsSafety Envelopes AgentLedger GateEvidence GateAdmission AgentProjection AgentService AgentRules.

#[local] Open Scope Z_scope.

(** ** Reading a normal form *)

Lemma item_sorted v k : returns v → item (sorted_json v) k = sorted_json <$> item v k.
Proof.
  intros Hv. destruct v as [| | | | | |kvs]; try done.
  destruct (items_sorted kvs) as (kvs' & -> & Hp). simpl. inversion Hv; subst.
  rewrite (dict_get_perm kvs' (map (on_value sorted_json) kvs)), dict_get_value;
    [by destruct (dict_get kvs (lit k))|by rewrite Hp, keys_value|done].
Qed.

Lemma text_sorted v k : returns v → text (sorted_json v) k = text v k.
Proof. intros Hv. unfold text. by rewrite dot_sorted, str_of_sorted. Qed.

Lemma is_text_sorted v s : is_text (sorted_json v) s = is_text v s.
Proof. unfold is_text. by apply (scalar_sorted_iff v (JStr (lit s))). Qed.

Lemma same_json_sorted_l a b : same_json (sorted_json a) b = same_json a b.
Proof. unfold same_json. by rewrite sorted_json_idem. Qed.
Lemma same_json_sorted_r a b : same_json a (sorted_json b) = same_json a b.
Proof. unfold same_json. by rewrite sorted_json_idem. Qed.

(** [v[k]] for the keys of another document. *)
Lemma get_sorted v k : returns v →
  sorted_json (default JNull (dict_get (items_of (sorted_json v)) k)) = sorted_json (default JNull (dict_get (items_of v) k)).
Proof.
  intros Hv. destruct v as [| | | | | |kvs]; try done.
  destruct (items_sorted kvs) as (kvs' & -> & Hp). simpl. inversion Hv; subst.
  rewrite (dict_get_perm kvs' (map (on_value sorted_json) kvs)), dict_get_value; [|by rewrite Hp, keys_value|done].
  destruct (dict_get kvs k); simpl; [apply sorted_json_idem|done].
Qed.

Section checks.
Context `{CRY : Crypto} `{FL : Floats} `{UCD : UnicodeDB}.

Lemma verify_sorted k env key : returns env → verify k (sorted_json env) key = verify k env key.
Proof.
  intros He. unfold verify. rewrite shape_sorted' by done. apply bind_ensure_ext. intros Hs.
  pose proof (shape_dot _ env "key_id" (TText Identifier) Hs eq_refl) as Hk.
  rewrite !dot_sorted, !str_of_sorted by done. by destruct (dot env "key_id").
Qed.

(** ** Envelopes come back *)

Lemma alphabet_printable s :
  forallb (λ c, alnum c || (c =? 45) || (c =? 95)) s = true → Forall printable s.
Proof.
  intros Hs. apply forallb_Forall_iff in Hs. eapply Forall_impl; [exact Hs|].
  unfold alnum, between, printable. intros c Hc. cbv beta in Hc. apply orb_true_iff in Hc as [[Hc|Hc]%orb_true_iff|Hc].
  - apply orb_true_iff in Hc as [[Hc|Hc]%orb_true_iff|Hc]; bool_hyps; lia.
  - bool_hyps; lia.
  - bool_hyps; lia.
Qed.

Lemma unb64_text s raw : unb64 s = Ok raw → Forall printable s.
Proof. unfold unb64, require. intros H. inv_res. bool_hyps. by apply alphabet_printable. Qed.

Lemma identifier_printable s : fullmatch Identifier s = true → Forall printable s.
Proof.
  destruct s as [|c s]; [done|]. simpl. intros [[Hc Hs]%andb_true_iff _]%andb_true_iff.
  assert (Hal : ∀ d, alnum d = true → printable d).
  { intros d Hd. unfold alnum, between, printable in *. 
    apply orb_true_iff in Hd as [[Hd|Hd]%orb_true_iff|Hd]; bool_hyps; lia. }
  constructor; [by apply Hal|]. apply forallb_Forall_iff in Hs. eapply Forall_impl; [exact Hs|].
  intros d Hd. cbv beta in Hd. apply orb_true_iff in Hd as [Hd|Hd]; [by apply Hal|].
  apply bool_decide_eq_true in Hd. unfold printable.
  rewrite !elem_of_cons, elem_of_nil in Hd. destruct Hd as [->|[->|[->|[]]]]; lia.
Qed.

Definition is_document (v : json) : Prop := ∃ kvs, v = JObj kvs ∧ NoDup kvs.*1.

Definition ENVELOPE_FIELDS : list string := ["schema"; "key_id"; "payload_b64"; "signature_b64"].

(** The texts of an envelope that verifies are plain. *)
Lemma envelope_texts k env key doc n :
  verify k env key = Ok doc → n ∈ ENVELOPE_FIELDS →
  ∃ s, item env n = Ok (JStr s) ∧ Forall printable s.
Proof.
  intros Hv. unfold verify in Hv. apply bind_Ok_unit in Hv as (Hs%ensure_Ok & Hv).
  apply bind_Ok_unit in Hv as (Hschema%ensure_Ok%bool_decide_eq_true & Hv).
  apply bind_Ok in Hv as (raw & Hraw & Hv). apply bind_Ok_unit in Hv as (Hsig%value_error_as_Ok & _).
  unfold check_signature in Hsig. apply bind_Ok in Hsig as (pk & _ & Hsig). apply bind_Ok_unit in Hsig as (_ & Hsig).
  apply bind_Ok in Hsig as (sg & Hsg & _).
  assert (Hget : ∀ n h, h = TStr ∨ h = TText Identifier →
    dict_get [field "schema" TStr; field "key_id" (TText Identifier); field "payload_b64" TStr;
      field "signature_b64" TStr] (lit n) = Some (false, h) →
    ∃ s, item env n = Ok (JStr s) ∧ dot env n = JStr s ∧ shape h (JStr s) = true).
  { intros n' h Hh Hfld. rewrite (shape_item _ _ _ _ Hs Hfld). pose proof (shape_dot _ _ _ _ Hs Hfld) as Hd.
    destruct Hh as [-> | ->]; destruct (dot env n'); try done; eauto. }
  unfold ENVELOPE_FIELDS. rewrite !elem_of_cons, elem_of_nil.
  intros [->|[->|[->|[->|[]]]]].
  - destruct (Hget "schema" TStr) as (s & Hi & Hd & _); [by left|done|]. exists s. split; [done|].
    rewrite Hd in Hschema. simpl in Hschema. subst s. apply (bool_decide_unpack _). by destruct k; vm_compute.
  - destruct (Hget "key_id" (TText Identifier)) as (s & Hi & _ & Hf); [by right|done|]. exists s.
    split; [done|]. by apply identifier_printable.
  - destruct (Hget "payload_b64" TStr) as (s & Hi & Hd & _); [by left|done|]. exists s. split; [done|].
    rewrite Hd in Hraw. by eapply unb64_text.
  - destruct (Hget "signature_b64" TStr) as (s & Hi & Hd & _); [by left|done|]. exists s. split; [done|].
    rewrite Hd in Hsg. by eapply unb64_text.
Qed.

Lemma envelope_names : NoDup (match Envelope with TTyped fs => fs | _ => [] end).*1.
Proof. apply (bool_decide_unpack _). vm_compute. done. Qed.

Lemma envelope_returns k env key doc :
  is_document env → verify k env key = Ok doc → returns env.
Proof.
  intros (kvs & -> & Hnd) Hv. pose proof Hv as (Hs%ensure_Ok & _)%bind_Ok_unit.
  constructor; [done|]. apply Forall_forall. intros [k' v] Hin.
  pose proof (proj1 (shape_typed _ kvs Hnd envelope_names) Hs k') as Hk.
  pose proof (dict_get_NoDup _ _ _ Hnd Hin) as Hg. rewrite Hg in Hk.
  destruct (dict_get _ k') as [[o h]|] eqn:Hf; [|done]. apply dict_get_Some in Hf.
  assert (∃ n, n ∈ ENVELOPE_FIELDS ∧ k' = lit n ∧ text_ok k' = true) as (n & Hn & -> & Hok).
  { rewrite !elem_of_cons, elem_of_nil in Hf. unfold ENVELOPE_FIELDS.
    destruct Hf as [[= -> _ _]|[[= -> _ _]|[[= -> _ _]|[[= -> _ _]|[]]]]]; eexists; (split; [|done]); set_solver. }
  split; [done|]. destruct (envelope_texts _ _ _ _ _ Hv Hn) as (s & Hi & Hp). simpl in Hi. rewrite Hg in Hi.
  injection Hi as ->. constructor. by apply ascii_text.
Qed.

(** ** Records of keys *)

Section keys.
Context (deployment : pystr).

Lemma check_key_intro seen key :
  shape KeyRecord key = true → text key "deployment_ref" = deployment →
  match dict_get (seen_keys seen) (text key "key_id") with
  | Some previous =>
      dot previous "public_key_b64" = dot key "public_key_b64" ∧
      dot previous "deployment_ref" = dot key "deployment_ref" ∧
      (is_text (dot previous "state") "pending" = true ∧
         (is_text (dot key "state") "active" = true → check_activation previous key = Ok tt) ∨
       is_text (dot key "state") "revoked" = true)
  | None =>
      is_text (dot key "state") "pending" = true ∧
      ∀ other, other ∈ seen_keys seen → dot other.2 "public_key_b64" ≠ dot key "public_key_b64"
  end →
  check_key_event deployment seen key =
    Ok {| seen_keys := dict_set (seen_keys seen) (text key "key_id") key;
          seen_desired := seen_desired seen; consumed := consumed seen |}.
Proof.
  intros Hs Hd Hp. unfold check_key_event, _shape. rewrite Hs. cbn [ensure mbind res_bind].
  rewrite bool_decide_true by done. cbn [ensure mbind res_bind].
  destruct (dict_get (seen_keys seen) (text key "key_id")) as [previous|].
  - destruct Hp as (Hpub & Hdep & Hst). unfold same. rewrite !bool_decide_true by done. cbn [andb ensure mbind res_bind].
    destruct Hst as [[Hpend Hact]|Hrev].
    + rewrite Hpend. cbn [orb ensure mbind res_bind]. destruct (is_text (dot key "state") "active"); [|done].
      rewrite Hact by done. by destruct (is_text (dot previous "state") "active").
    + rewrite Hrev, orb_true_r. cbn [ensure mbind res_bind].
      assert (is_text (dot key "state") "active" = false) as ->; [|done].
      unfold is_text in *. apply bool_decide_eq_true in Hrev. by rewrite Hrev.
  - destruct Hp as [-> Ho]. cbn [andb].
    assert (forallb (λ other, negb (same (dot other.2 "public_key_b64") (dot key "public_key_b64"))) (seen_keys seen) = true)
      as ->; [|done].
    apply forallb_Forall_iff, Forall_forall. intros other Hin. unfold same.
    by rewrite bool_decide_false by (by apply Ho).
Qed.

(** A record whose changed fields keep their shape. *)
Lemma shape_merge v changes :
  is_document v → shape KeyRecord v = true →
  Forall (λ c, ∃ o h, dict_get (match KeyRecord with TTyped fs => fs | _ => [] end) c.1 = Some (o, h) ∧
                      shape h c.2 = true) changes →
  shape KeyRecord (merge v changes) = true.
Proof.
  intros (kvs & -> & Hn) Hs Hc. unfold merge. cbn [items_of].
  assert (Hall : shape KeyRecord (JObj (foldl (λ d kv, dict_set d kv.1 kv.2) kvs changes)) = true ∧
    NoDup (foldl (λ d kv, dict_set d kv.1 kv.2) kvs changes).*1); [|tauto].
  revert kvs Hn Hs. induction Hc as [|[k v] changes (o & h & Hf & Hv) _ IH]; intros kvs Hn Hs; [done|].
  cbn [foldl]. apply IH; [by apply dict_set_NoDup|]. eapply shape_set; [apply key_record_names|done|exact Hs|exact Hf|exact Hv].
Qed.

Lemma returns_merge v changes :
  is_document v → returns v → Forall (λ c, text_ok c.1 = true ∧ returns c.2) changes → returns (merge v changes).
Proof.
  intros (kvs & -> & _) Hr Hc. unfold merge. cbn [items_of]. revert kvs Hr.
  induction Hc as [|[k v] changes [Hk Hv] _ IH]; intros kvs Hr; [done|]. cbn [foldl]. apply IH.
  by apply returns_set.
Qed.

Lemma returns_document v kvs : returns v → v = JObj kvs → is_document v.
Proof. intros Hr ->. inversion Hr; subst. by eexists. Qed.

Lemma key_document key : returns key → shape KeyRecord key = true → is_document key.
Proof. intros Hr Hs. destruct key; try done. by eapply returns_document. Qed.

Lemma dot_items v k : is_document v → dot (JObj (items_of v)) k = dot v k.
Proof. by intros (kvs & -> & _). Qed.

Lemma uuid_printable u : Forall printable (uuid_str u).
Proof.
  destruct (uuid_str_split u) as (a & b & c & d & e & Hh & Hs).
  pose proof (hex_digits_lower 32 u) as Hl. fold (uuid_hex u) in Hl. rewrite Hh, !forallb_app in Hl. bool_hyps.
  assert (Hhex : ∀ s, forallb PyText.hex_lower s = true → Forall printable s).
  { intros s Hx. apply forallb_Forall_iff in Hx. eapply Forall_impl; [exact Hx|]. intros x Hd.
    unfold PyText.hex_lower, between, printable in *. cbv beta in Hd. bool_hyps. lia. }
  rewrite Hs. repeat (apply Forall_app; split); auto; by repeat constructor.
Qed.

Lemma uuid_text u : text_ok (uuid_str u) = true.
Proof. apply ascii_text, uuid_printable. Qed.
End keys.
End checks.

(** The fields of a document that [merge] changed. *)
Ltac read_fields :=
  unfold merge, by_actor; cbn [foldl fst snd];
  repeat (rewrite dot_set;
    match goal with
    | |- context [bool_decide (lit ?a = lit ?b)] =>
        let x := eval vm_compute in (bool_decide (lit a = lit b)) in
        change (bool_decide (lit a = lit b)) with x; cbv iota
    end).

(** Membership in an explicit list. *)
Ltac in_names := first [apply list_elem_of_here | apply list_elem_of_further; in_names].

Section key_events.
Context `{CRY : Crypto} `{FL : Floats} `{UCD : UnicodeDB} (deployment : pystr).

(** A record of a known key, as it is read back. *)
Lemma known_key seen id key :
  keys_ok deployment (seen_keys seen) → dict_get (seen_keys seen) id = Some key →
  shape KeyRecord key = true ∧ returns key ∧ text key "key_id" = id ∧
  text key "deployment_ref" = deployment ∧ is_document key.
Proof.
  intros Hk Hg. apply dict_get_Some in Hg. destruct (keys_shape _ _ Hk _ _ Hg) as (Hs & Hr & Hi & Hd).
  split_and!; try done. by apply key_document.
Qed.

Lemma check_known seen id key changes :
  keys_ok deployment (seen_keys seen) → dict_get (seen_keys seen) id = Some key →
  let key' := merge key changes in
  shape KeyRecord key' = true → returns key' →
  (∀ k, k ∈ ["key_id"; "deployment_ref"; "public_key_b64"]%string → dot key' k = dot key k) →
  (is_text (dot key "state") "pending" = true ∧
     (is_text (dot key' "state") "active" = true → check_activation key (sorted_json key') = Ok tt) ∨
   is_text (dot key' "state") "revoked" = true) →
  check_key_event deployment seen (sorted_json key') =
    Ok {| seen_keys := dict_set (seen_keys seen) id (sorted_json key');
          seen_desired := seen_desired seen; consumed := consumed seen |}.
Proof.
  intros Hk Hg key' Hs Hr Hsame Hst. destruct (known_key _ _ _ Hk Hg) as (Hs0 & Hr0 & Hid & Hdep & Hdoc).
  assert (Hdot : ∀ k, k ∈ ["key_id"; "deployment_ref"; "public_key_b64"]%string →
    dot (sorted_json key') k = sorted_json (dot key k)) by (intros k Hin; by rewrite dot_sorted, Hsame).
  assert (Hstr : ∀ k h, h = TStr ∨ h = TText Identifier →
    dict_get (match KeyRecord with TTyped fs => fs | _ => [] end) (lit k) = Some (false, h) →
    sorted_json (dot key k) = dot key k).
  { intros k h Hh Hf. pose proof (shape_dot _ _ _ _ Hs0 Hf) as Hd.
    by destruct Hh as [-> | ->]; destruct (dot key k). }
  assert (Hid' : text (sorted_json key') "key_id" = id).
  { rewrite text_sorted by done. unfold text. rewrite Hsame by in_names. exact Hid. }
  rewrite check_key_intro, Hid'; [done| | |].
  - by rewrite shape_sorted.
  - rewrite text_sorted by done. unfold text. rewrite Hsame by in_names. exact Hdep.
  - rewrite Hid', Hg, !Hdot by in_names.
    rewrite (Hstr "public_key_b64" TStr), (Hstr "deployment_ref" TStr) by (by left || done).
    rewrite dot_sorted, !is_text_sorted by done. done.
Qed.

Lemma revoke_checks seen id key actor :
  keys_ok deployment (seen_keys seen) → dict_get (seen_keys seen) id = Some key →
  let key' := merge key [(lit "state", JStr (lit "revoked")); by_actor actor] in
  returns key' ∧ (∃ kvs, key' = JObj kvs) ∧
  check_key_event deployment seen (sorted_json key') =
    Ok {| seen_keys := dict_set (seen_keys seen) id (sorted_json key');
          seen_desired := seen_desired seen; consumed := consumed seen |}.
Proof.
  intros Hk Hg key'. destruct (known_key _ _ _ Hk Hg) as (Hs & Hr & Hid & Hdep & Hdoc).
  assert (Hr' : returns key').
  { apply returns_merge; [done..|]. repeat constructor; try done. simpl. apply uuid_text. }
  assert (Hdoc' := Hdoc). destruct Hdoc' as (kvs & Hkvs & Hn).
  split; [done|]. split; [by eexists|]. apply check_known; try done.
  - apply shape_merge; [exact Hdoc|exact Hs|].
    apply Forall_cons_2; [|apply Forall_cons_2; [|apply Forall_nil_2]]; eexists _, _; (split; [reflexivity|]).
    + vm_compute; reflexivity.
    + reflexivity.
  - intros k Hin. rewrite !elem_of_cons, elem_of_nil in Hin. unfold key'.
    destruct Hin as [->|[->|[->|[]]]]; read_fields; by apply dot_items.
  - right. unfold key'. read_fields. done.
Qed.

(** *** Texts *)

Lemma digit_printable n : printable (48 + n mod 10).
Proof. pose proof (Z.mod_pos_bound n 10 ltac:(lia)). unfold printable. lia. Qed.

Lemma padded_printable k n : Forall printable (padded k n).
Proof.
  revert n. induction k as [|k IH]; intros n; [constructor|]. cbn [padded]. apply Forall_app. split; [apply IH|].
  constructor; [apply digit_printable|constructor].
Qed.

Lemma isoformat_text t : text_ok (isoformat t) = true.
Proof.
  apply ascii_text. unfold isoformat, clock_text.
  repeat first [apply padded_printable | apply digit_printable | apply Forall_app; split | apply Forall_cons; split
    | apply Forall_nil_2 | case_match | unfold printable; lia].
Qed.

Lemma b64_text raw : Forall byte raw → text_ok (b64 raw) = true.
Proof. intros Hb. by apply ascii_text, alphabet_printable, b64_alphabet. Qed.

(** *** Challenges *)

Definition challenge_document (id : pystr) (ref : json) (nonce : bytes) (expires : moment) : json := JObj
  [(lit "schema", JStr CHALLENGE_SCHEMA); (lit "key_id", JStr id); (lit "deployment_ref", ref);
   (lit "nonce", JStr (b64 nonce)); (lit "expires_at", JStr (isoformat expires))].

Lemma challenge_document_shape id ref nonce expires :
  shape Challenge (challenge_document id (JStr ref) nonce expires) =
  fullmatch Identifier id && fullmatch BoundedText ref.
Proof. lazy -[fullmatch b64 isoformat]. by destruct (fullmatch Identifier id), (fullmatch BoundedText ref). Qed.

Lemma key_text key k h :
  shape KeyRecord key = true → h = TStr ∨ h = TText Identifier →
  dict_get (match KeyRecord with TTyped fs => fs | _ => [] end) (lit k) = Some (false, h) →
  dot key k = JStr (text key k).
Proof.
  intros Hs Hh Hf. pose proof (shape_dot _ _ _ _ Hs Hf) as Hd. unfold text.
  by destruct Hh as [-> | ->]; destruct (dot key k).
Qed.

Lemma challenge_checks seen id key nonce expires actor :
  keys_ok deployment (seen_keys seen) → dict_get (seen_keys seen) id = Some key →
  is_text (dot key "state") "pending" = true → fullmatch BoundedText deployment = true →
  text_ok deployment = true → Forall byte nonce →
  let chal := challenge_document id (dot key "deployment_ref") nonce expires in
  let key' := merge key [(lit "challenge", chal); by_actor actor] in
  returns key' ∧ (∃ kvs, key' = JObj kvs) ∧
  check_key_event deployment seen (sorted_json key') =
    Ok {| seen_keys := dict_set (seen_keys seen) id (sorted_json key');
          seen_desired := seen_desired seen; consumed := consumed seen |}.
Proof.
  intros Hk Hg Hp Hb Ht Hn chal key'. destruct (known_key _ _ _ Hk Hg) as (Hs & Hr & Hid & Hdep & Hdoc).
  assert (Hdeploy : dot key "deployment_ref" = JStr deployment).
  { rewrite (key_text key "deployment_ref" TStr Hs (or_introl eq_refl) eq_refl). by rewrite Hdep. }
  assert (Hident : fullmatch Identifier id = true).
  { pose proof (shape_dot _ _ "key_id" (TText Identifier) Hs eq_refl) as Hd.
    rewrite (key_text key "key_id" (TText Identifier) Hs (or_intror eq_refl) eq_refl), Hid in Hd. exact Hd. }
  assert (Hchal : returns chal).
  { unfold chal, challenge_document. rewrite Hdeploy. constructor; [by apply (bool_decide_unpack _); vm_compute|].
    repeat apply Forall_cons_2; try apply Forall_nil_2; (split; [by vm_compute|constructor]).
    - by vm_compute.
    - by apply ascii_text, identifier_printable.
    - done.
    - by apply b64_text.
    - apply isoformat_text. }
  assert (Hr' : returns key').
  { apply returns_merge; [done..|]. repeat apply Forall_cons_2; try apply Forall_nil_2; (split; [by vm_compute|]).
    - done.
    - constructor. apply uuid_text. }
  assert (Hdoc' := Hdoc). destruct Hdoc' as (kvs & Hkvs & Hnd).
  split; [done|]. split; [by eexists|]. apply check_known; try done.
  - apply shape_merge; [exact Hdoc|exact Hs|].
    apply Forall_cons_2; [|apply Forall_cons_2; [|apply Forall_nil_2]]; eexists _, _; (split; [reflexivity|]).
    + unfold chal. rewrite Hdeploy. unfold or_none. cbn [shape existsb snd].
      apply orb_true_iff. left. change (shape Challenge (challenge_document id (JStr deployment) nonce expires) = true).
      by rewrite challenge_document_shape, Hident, Hb.
    + reflexivity.
  - intros k Hin. rewrite !elem_of_cons, elem_of_nil in Hin. unfold key'.
    destruct Hin as [->|[->|[->|[]]]]; read_fields; by apply dot_items.
  - left. split; [done|]. unfold key'. read_fields. rewrite dot_items by done. unfold is_text in *.
    apply bool_decide_eq_true in Hp. by rewrite Hp.
Qed.

(** *** Activation *)

(** A challenge on record is for the service's deployment. *)
Definition challenges_match (keys : list (pystr * json)) : Prop :=
  ∀ id key c, (id, key) ∈ keys → dot key "challenge" = JObj c →
    dict_get c (lit "deployment_ref") = Some (JStr deployment).

Lemma item_set kvs k v k' :
  item (JObj (dict_set kvs (lit k) v)) k' = if bool_decide (lit k' = lit k) then Ok v else item (JObj kvs) k'.
Proof. simpl. rewrite dict_get_set. by case_bool_decide. Qed.

Lemma timestamp_isoformat t : valid_moment t → timestamp (isoformat t) = Ok (instant t).
Proof. intros Ht. unfold timestamp. by rewrite read_isoformat. Qed.

Definition activation (key env doc : json) (received : moment) (actor : uuid) : json :=
  merge key [(lit "state", JStr (lit "active")); (lit "possession", env);
             (lit "baseline_digest", dot doc "observed_image_digest");
             (lit "received_at", JStr (isoformat received)); by_actor actor].

Lemma activation_reads key env doc received actor :
  let key' := activation key env doc received actor in
  item key' "possession" = Ok env ∧ item key' "received_at" = Ok (JStr (isoformat received)) ∧
  item key' "baseline_digest" = Ok (dot doc "observed_image_digest").
Proof.
  unfold activation, merge, by_actor. cbn [foldl fst snd]. rewrite !item_set.
  split_and!; reflexivity.
Qed.

Lemma possession_facts env key doc :
  verify POSSESSION env key = Ok doc →
  (∃ d, dot doc "observed_image_digest" = JStr d ∧ fullmatch Digest d = true) ∧
  dot doc "key_id" = JStr (text env "key_id") ∧ shape Envelope env = true.
Proof.
  intros Hv. pose proof Hv as (id & raw & k & sg & input & Hid & _ & _ & _ & _ & _ & _ & Hval & Hdoc)%verify_Ok.
  unfold verify in Hv. apply bind_Ok_unit in Hv as (Hs%ensure_Ok & _). split_and!; [| |done].
  - simpl in Hval. unfold validate_possession in Hval. apply bind_Ok_unit in Hval as (Hp%ensure_Ok & _).
    pose proof (shape_dot _ _ "observed_image_digest" (TText Digest) Hp eq_refl) as Hd.
    destruct (dot doc "observed_image_digest"); try done. eauto.
  - simpl in Hdoc. rewrite Hdoc. unfold text. by rewrite Hid.
Qed.

Lemma str_text v k s : dot v k = JStr s → text v k = s.
Proof. unfold text. by intros ->. Qed.

Lemma activate_checks seen id key env doc received actor :
  keys_ok deployment (seen_keys seen) → challenges_match (seen_keys seen) →
  dict_get (seen_keys seen) id = Some key → is_text (dot key "state") "pending" = true →
  text env "key_id" = id → is_document env →
  verify POSSESSION env (text key "public_key_b64") = Ok doc →
  answers key doc = Ok tt → valid_moment received →
  validate_possession doc (Some (instant received)) = Ok tt →
  let key' := activation key env doc received actor in
  returns key' ∧ (∃ kvs, key' = JObj kvs) ∧
  check_key_event deployment seen (sorted_json key') =
    Ok {| seen_keys := dict_set (seen_keys seen) id (sorted_json key');
          seen_desired := seen_desired seen; consumed := consumed seen |}.
Proof.
  intros Hk Hcm Hg Hp Hid Henv Hv Hans Hrec Hval key'.
  destruct (known_key _ _ _ Hk Hg) as (Hs & Hr & Hkid & Hdep & Hdoc).
  destruct (possession_facts _ _ _ Hv) as ((d & Hobs & Hdig) & Hdid & Henvs).
  pose proof (envelope_returns _ _ _ _ Henv Hv) as Henvr.
  assert (Hr' : returns key').
  { apply returns_merge; [done..|]. repeat apply Forall_cons_2; try apply Forall_nil_2; (split; [by vm_compute|]).
    - by constructor.
    - done.
    - simpl. rewrite Hobs. constructor. by apply digest_text.
    - constructor. apply isoformat_text.
    - constructor. apply uuid_text. }
  split; [done|]. split; [by eexists|]. destruct (activation_reads key env doc received actor) as (Hpos & Hat & Hbase).
  assert (Hfix : ∀ k, k ∈ ["key_id"; "deployment_ref"; "public_key_b64"]%string → dot key' k = dot key k).
  { intros k Hin. rewrite !elem_of_cons, elem_of_nil in Hin. unfold key', activation.
    destruct Hin as [->|[->|[->|[]]]]; read_fields; by apply dot_items. }
  apply check_known; try done.
  - apply shape_merge; [exact Hdoc|exact Hs|].
    repeat apply Forall_cons_2; try apply Forall_nil_2; eexists _, _; (split; [reflexivity|]); try reflexivity.
    + exact Henvs.
    + simpl. rewrite Hobs. exact Hdig.
  - left. split; [done|]. intros _. unfold check_activation.
    rewrite !item_sorted by done. fold key' in Hpos, Hat, Hbase.
    change (merge key ?l) with key'. rewrite Hpos, Hat, Hbase. cbn [fmap res_fmap mbind res_bind].
    rewrite text_sorted, verify_sorted by done. unfold text at 1. rewrite Hfix by in_names. fold (text key "public_key_b64").
    rewrite Hv. cbn [mbind res_bind sorted_json str_of]. rewrite timestamp_isoformat by done. cbn [mbind res_bind].
    rewrite Hval. cbn [mbind res_bind]. rewrite !dot_sorted by done.
    rewrite Hfix by in_names. rewrite Hfix by in_names.
    rewrite (key_text key "key_id" (TText Identifier) Hs (or_intror eq_refl) eq_refl), Hkid.
    rewrite (key_text key "deployment_ref" TStr Hs (or_introl eq_refl) eq_refl), Hdep, Hdid, Hid.
    unfold answers in Hans. destruct (dot key "challenge") as [| | | | | |c] eqn:Hc; try done.
    apply ensure_Ok in Hans. cbn [sorted_json].
    assert (Hpd : dot doc "deployment_ref" = JStr deployment).
    { apply dict_get_Some in Hg. pose proof (Hcm _ _ _ Hg Hc) as Hcd. apply dict_get_Some in Hcd.
      rewrite forallb_Forall_iff, Forall_forall in Hans. specialize (Hans _ Hcd). simpl in Hans.
      unfold same_json in Hans. apply bool_decide_eq_true in Hans. destruct doc; try done. simpl in *.
      by apply (sorted_scalar _ (JStr deployment)). }
    rewrite Hpd, Hobs. cbn [sorted_json]. unfold same. rewrite !bool_decide_true by done.
    cbn [andb ensure mbind res_bind]. by rewrite Hans.
Qed.

(** *** Registration *)

Lemma exact_keys v names :
  exact v names = Ok tt → ∃ kvs, v = JObj kvs ∧ ∀ k, k ∈ kvs.*1 ↔ k ∈ names.
Proof.
  unfold exact, require. intros H%ensure_Ok. destruct v as [| | | | | |kvs]; try done. exists kvs. split; [done|].
  unfold same_keys in H. bool_hyps. rewrite Forall_forall in *. intros k. split; auto.
Qed.

Lemma exact_dot v names k :
  exact v names = Ok tt → lit k ∈ names → item v k = Ok (dot v k).
Proof.
  intros (kvs & -> & Hk)%exact_keys Hin. apply Hk in Hin. simpl. destruct (dict_get kvs (lit k)) eqn:Hg; [done|].
  by apply dict_get_None in Hg.
Qed.

Definition REGISTER_FIELDS : list pystr := [lit "key_id"; lit "deployment_ref"; lit "public_key_b64"].

Definition registration (request : json) (actor : uuid) : json :=
  merge request [(lit "state", JStr (lit "pending")); (lit "challenge", JNull); by_actor actor].

Lemma registration_get request actor k :
  dict_get (items_of (registration request actor)) k =
  if bool_decide (k = lit "actor_admin_id") then Some (JStr (uuid_str actor))
  else if bool_decide (k = lit "challenge") then Some JNull
  else if bool_decide (k = lit "state") then Some (JStr (lit "pending"))
  else dict_get (items_of request) k.
Proof. unfold registration, merge, by_actor. cbn [foldl items_of fst snd]. by rewrite !dict_get_set. Qed.

Lemma enroll_shape request actor pub :
  is_document request → exact request REGISTER_FIELDS = Ok tt →
  identifier (dot request "key_id") = Ok tt → dot request "deployment_ref" = JStr deployment →
  dot request "public_key_b64" = JStr pub → shape KeyRecord (registration request actor) = true.
Proof.
  intros (kvs & -> & Hnd) Hex Hid Hdep Hpub.
  pose proof (exact_dot _ _ "key_id" Hex ltac:(in_names)) as Hi1.
  pose proof (exact_dot _ _ "deployment_ref" Hex ltac:(in_names)) as Hi2.
  pose proof (exact_dot _ _ "public_key_b64" Hex ltac:(in_names)) as Hi3.
  rewrite Hdep in Hi2. rewrite Hpub in Hi3. simpl in Hi1, Hi2, Hi3.
  apply of_option_Ok in Hi1, Hi2, Hi3. apply exact_keys in Hex as (kvs' & [= <-] & Hk).
  pose proof (registration_get (JObj kvs) actor) as Hg. unfold registration, merge in *. cbn [items_of] in *.
  apply shape_typed; [by repeat apply dict_set_NoDup|exact key_record_names|]. intros k. rewrite Hg. clear Hg.
  case_bool_decide as Ha; [subst k; reflexivity|]. case_bool_decide as Hch; [subst k; reflexivity|].
  case_bool_decide as Hst; [subst k; reflexivity|].
  destruct (dict_get kvs k) as [v|] eqn:Hv.
  - assert (Hin : k ∈ REGISTER_FIELDS) by (apply Hk, list_elem_of_fmap; exists (k, v); split; [done|by apply dict_get_Some]).
    unfold REGISTER_FIELDS in Hin. rewrite !elem_of_cons, elem_of_nil in Hin. destruct Hin as [->|[->|[->|[]]]].
    + rewrite Hi1 in Hv. injection Hv as <-. unfold identifier, _shape in Hid. by apply ensure_Ok in Hid.
    + rewrite Hi2 in Hv. by injection Hv as <-.
    + rewrite Hi3 in Hv. by injection Hv as <-.
  - destruct (dict_get (RegisterKey_fields ++ _) k) as [[o h]|] eqn:Hf; [|done]. apply dict_get_Some in Hf.
    unfold RegisterKey_fields in Hf. cbn [app] in Hf.
    rewrite !elem_of_cons, elem_of_nil in Hf. unfold field, optional in Hf.
    destruct Hf as [Hf|[Hf|[Hf|[Hf|[Hf|[Hf|[Hf|[Hf|[Hf|[]]]]]]]]]]; injection Hf as -> -> ->; congruence.
Qed.

Lemma enroll_returns request actor pub :
  is_document request → exact request REGISTER_FIELDS = Ok tt →
  identifier (dot request "key_id") = Ok tt → dot request "deployment_ref" = JStr deployment →
  text_ok deployment = true → dot request "public_key_b64" = JStr pub → Forall printable pub →
  returns (registration request actor).
Proof.
  intros Hdoc Hex Hid Hdep Ht Hpub Hp. apply returns_merge; [done| |].
  - destruct Hdoc as (kvs & -> & Hnd). apply exact_keys in Hex as (kvs' & [= <-] & Hk). constructor; [done|].
    apply Forall_forall. intros [k v] Hin. pose proof (dict_get_NoDup _ _ _ Hnd Hin) as Hg.
    assert (Hk' : k ∈ REGISTER_FIELDS) by (apply Hk, list_elem_of_fmap; by exists (k, v)).
    unfold REGISTER_FIELDS in Hk'. rewrite !elem_of_cons, elem_of_nil in Hk'. simpl.
    destruct Hk' as [->|[->|[->|[]]]]; (split; [by vm_compute|]); simpl in *; rewrite Hg in *; simpl in *.
    + unfold identifier, _shape in Hid. apply ensure_Ok in Hid. destruct v; try done. constructor.
      by apply ascii_text, identifier_printable.
    + subst v. by constructor.
    + subst v. constructor. by apply ascii_text.
  - repeat apply Forall_cons_2; try apply Forall_nil_2; (split; [by vm_compute|]); constructor; [by vm_compute|].
    apply uuid_text.
Qed.

Lemma enroll_checks seen request actor pub :
  is_document request → exact request REGISTER_FIELDS = Ok tt →
  identifier (dot request "key_id") = Ok tt → dot request "deployment_ref" = JStr deployment →
  text_ok deployment = true → dot request "public_key_b64" = JStr pub → Forall printable pub →
  dict_get (seen_keys seen) (text request "key_id") = None →
  (∀ other, other ∈ seen_keys seen → dot other.2 "public_key_b64" ≠ JStr pub) →
  let key := registration request actor in
  returns key ∧ (∃ kvs, key = JObj kvs) ∧
  check_key_event deployment seen (sorted_json key) =
    Ok {| seen_keys := dict_set (seen_keys seen) (text request "key_id") (sorted_json key);
          seen_desired := seen_desired seen; consumed := consumed seen |}.
Proof.
  intros Hdoc Hex Hid Hdep Ht Hpub Hp Hnew Hothers key.
  pose proof (enroll_shape request actor pub Hdoc Hex Hid Hdep Hpub) as Hs.
  pose proof (enroll_returns request actor pub Hdoc Hex Hid Hdep Ht Hpub Hp) as Hr. fold key in Hs, Hr.
  split; [done|]. split; [by eexists|].
  assert (Hfix : ∀ k, k ∈ ["key_id"; "deployment_ref"; "public_key_b64"]%string → dot key k = dot request k).
  { intros k Hin. rewrite !elem_of_cons, elem_of_nil in Hin. unfold key, registration.
    destruct Hin as [->|[->|[->|[]]]]; read_fields; by apply dot_items. }
  assert (Hkid : text (sorted_json key) "key_id" = text request "key_id").
  { rewrite text_sorted by done. unfold text. by rewrite Hfix by in_names. }
  rewrite check_key_intro, Hkid; [done| | |].
  - by rewrite shape_sorted.
  - rewrite text_sorted by done. unfold text. rewrite Hfix by in_names. by rewrite Hdep.
  - rewrite Hkid, Hnew. split.
    + rewrite dot_sorted, is_text_sorted by done. unfold key, registration. by read_fields.
    + intros other Ho. rewrite dot_sorted, Hfix, Hpub by (done || in_names). by apply Hothers.
Qed.
End key_events.
