(* ===== verification/AgentLife.v ===== *)
(** * New documents, and the lives of keys and of desired states

    A desired state that was sealed, and an applied state that was taken in or
    put in quarantine, are events the rules of the log accept; and what a log
    the rules accept says of how its keys came to their state, and of the
    reports in it. *)

From S2P Require Import Prelude PyText PyUuid Json JsonReader JsonRound PyDate PyTime Effects Contracts ContractsSafety Envelopes GateEvidence AgentLedger GateAdmission AgentProjection AgentService AgentRules AgentChecks.

#[local] Open Scope Z_scope.

Section documents.
Context `{CRY : Crypto} `{FL : Floats} `{UCD : UnicodeDB}.

Lemma sealed_document k doc signer env : seal k doc signer = Ok env → is_document env.
Proof.
  intros (_ & _ & _ & _ & input & _ & ->)%seal_Ok. eexists. split; [done|].
  apply (bool_decide_unpack _). vm_compute. done.
Qed.

(** ** Desired states *)

Lemma desired_checks seen doc signer env public_key key :
  returns doc → signs_for signer public_key key → seal DESIRED doc signer = Ok env →
  text doc "nonce" ∉ (seen_desired seen).*1 →
  returns env ∧ (∃ kvs, env = JObj kvs) ∧
  check_desired_event public_key seen (sorted_json env) =
    Ok {| seen_keys := seen_keys seen;
          seen_desired := dict_set (seen_desired seen) (text doc "nonce") (sorted_json doc);
          consumed := consumed seen |}.
Proof.
  intros Hr Hs Hseal Hn. pose proof (sealed_document _ _ _ _ Hseal) as Hdoc.
  pose proof (verify_sealed _ _ _ _ _ _ Hr Hs Hseal) as Hv.
  pose proof (envelope_returns _ _ _ _ Hdoc Hv) as Henv.
  split; [done|]. split; [destruct Hdoc as (kvs & -> & _); by eexists|].
  unfold check_desired_event. rewrite verify_sorted, Hv by done. cbn [mbind res_bind].
  pose proof Hv as (id & raw & k & sg & input & _ & _ & _ & _ & _ & _ & _ & Hval & _)%verify_Ok.
  simpl in Hval. rewrite Hval. cbn [mbind res_bind]. rewrite text_sorted, bool_decide_true by done. done.
Qed.

(** ** Reports *)

Lemma verified_id k env key doc : verify k env key = Ok doc → item env "key_id" = Ok (JStr (text env "key_id")).
Proof.
  intros (Hs%ensure_Ok & _)%bind_Ok_unit. rewrite (shape_item _ _ "key_id" (TText Identifier) Hs eq_refl).
  pose proof (shape_dot _ _ "key_id" (TText Identifier) Hs eq_refl) as Hd. unfold text.
  by destruct (dot env "key_id").
Qed.

Lemma verified_valid env key doc : verify APPLIED env key = Ok doc → validate_applied doc = Ok tt.
Proof. by intros (id & raw & k & sg & input & _ & _ & _ & _ & _ & _ & _ & Hval & _)%verify_Ok. Qed.

Lemma verified_shape k env key doc : verify k env key = Ok doc → shape Envelope env = true.
Proof. by intros (Hs%ensure_Ok & _)%bind_Ok_unit. Qed.

Definition quarantine_file (fingerprint : pystr) : pystr := lit "quarantine/" ++ drop 7 fingerprint ++ lit ".json".
Definition quarantine_event (code : string) (env : json) : json :=
  JObj [(lit "code", JStr (lit code)); (lit "envelope", env)].

Lemma quarantine_checks seen env key doc code fingerprint :
  dict_get (seen_keys seen) (text env "key_id") = Some key → is_text (dot key "state") "active" = true →
  is_document env → verify APPLIED env (text key "public_key_b64") = Ok doc →
  lit code ∈ QUARANTINE_CODES → digest env = Ok fingerprint →
  let event := quarantine_event code env in
  returns event ∧ (∃ kvs, event = JObj kvs) ∧
  check_quarantine_event seen (quarantine_file fingerprint) (sorted_json event) = Ok seen.
Proof.
  intros Hg Hact Hdoc Hv Hcode Hfp event. pose proof (envelope_returns _ _ _ _ Hdoc Hv) as Henv.
  assert (Hev : returns event).
  { constructor; [by apply (bool_decide_unpack _); vm_compute|].
    apply Forall_cons_2; [|apply Forall_cons_2; [|apply Forall_nil_2]]; (split; [by vm_compute|]); [|done].
    constructor. unfold QUARANTINE_CODES in Hcode. cbn [fmap list_fmap] in Hcode.
    rewrite !elem_of_cons, elem_of_nil in Hcode. cbv beta in Hcode.
    destruct Hcode as [->|[->|[->|[->|[->|[->|[]]]]]]]; by vm_compute. }
  split; [done|]. split; [by eexists|].
  assert (Hdot : dot (sorted_json event) "envelope" = sorted_json env) by (by rewrite dot_sorted).
  assert (Hc : dot (sorted_json event) "code" = JStr (lit code)) by (by rewrite dot_sorted).
  unfold check_quarantine_event. rewrite Hdot, Hc, text_sorted by done.
  assert (exact (sorted_json event) [lit "code"; lit "envelope"] = Ok tt) as ->.
  { unfold exact, Contracts.require. destruct (items_sorted [(lit "code", JStr (lit code)); (lit "envelope", env)])
      as (kvs & Hk & Hp). unfold event, quarantine_event. rewrite Hk.
    rewrite (same_keys_perm kvs.*1 [lit "code"; lit "envelope"]); [done|]. by rewrite Hp. }
  cbn [mbind res_bind]. rewrite shape_sorted' by done. unfold _shape. rewrite (verified_shape _ _ _ _ Hv).
  cbn [ensure mbind res_bind]. rewrite Hg, Hact. cbn [ensure mbind res_bind].
  rewrite verify_sorted, Hv by done. cbn [mbind res_bind]. rewrite (verified_valid _ _ _ Hv). cbn [mbind res_bind].
  rewrite digest_sorted, Hfp. cbn [mbind res_bind]. unfold quarantine_file. rewrite !bool_decide_true by done. done.
Qed.

Lemma applied_checks seen env key doc desired :
  dict_get (seen_keys seen) (text env "key_id") = Some key → is_text (dot key "state") "active" = true →
  is_document env → verify APPLIED env (text key "public_key_b64") = Ok doc →
  same (dot key "deployment_ref") (dot doc "deployment_ref") = true →
  dict_get (seen_desired seen) (nonce_of doc) = Some desired → nonce_of doc ∉ consumed seen →
  agrees_with desired (dot doc "desired") = true → (succeeded doc = true → _valid_success doc desired = true) →
  returns env ∧ (∃ kvs, env = JObj kvs) ∧
  check_applied_event seen (sorted_json env) =
    Ok {| seen_keys := seen_keys seen; seen_desired := seen_desired seen; consumed := nonce_of doc :: consumed seen |}.
Proof.
  intros Hg Hact Hdoc Hv Hdep Hd Hn Hag Hsucc. pose proof (envelope_returns _ _ _ _ Hdoc Hv) as Henv.
  split; [done|]. split; [destruct Hdoc as (kvs & -> & _); by eexists|].
  unfold check_applied_event. rewrite item_sorted, (verified_id _ _ _ _ Hv) by done.
  cbn [fmap res_fmap mbind res_bind sorted_json str_of]. rewrite Hg. cbn [of_option mbind res_bind].
  rewrite Hact. cbn [ensure mbind res_bind]. rewrite verify_sorted, Hv by done. cbn [mbind res_bind].
  rewrite (verified_valid _ _ _ Hv). cbn [mbind res_bind]. fold (nonce_of doc). rewrite Hd.
  unfold same in *. bool_hyps. rewrite Hdep, !bool_decide_true by done. cbn [andb ensure mbind res_bind].
  rewrite Hag. cbn [ensure mbind res_bind]. destruct (succeeded doc); [rewrite Hsucc by done|]; done.
Qed.
End documents.

(** How far a key has come: pending, active, revoked. *)
Definition stage (key : json) : Z :=
  if is_text (dot key "state") "revoked" then 2
  else if is_text (dot key "state") "active" then 1 else 0.

(** A later record of the same key. *)
Record follows (old new : json) : Prop := {
  follows_public : dot new "public_key_b64" = dot old "public_key_b64";
  follows_stage : stage old ≤ stage new;
}.
#[export] Instance follows_preorder : PreOrder follows.
Proof. split; [by split|]. intros a b c [Hab1 Hab2] [Hbc1 Hbc2]. split; [congruence|lia]. Qed.

Section life.
Context `{CRY : Crypto} `{FL : Floats} `{UCD : UnicodeDB}.
Context (deployment : pystr) (public_key : pystr).
#[local] Abbreviation check_log := (check_log deployment public_key).
#[local] Abbreviation check_event := (check_event deployment public_key).

(** The holder of the private key answered a challenge in time, and what it ran
    is the baseline. *)
Definition proven (key : json) : Prop := ∃ env proof now,
  dot key "possession" = env ∧ timestamp (str_of (dot key "received_at")) = Ok now ∧
  verify POSSESSION env (text key "public_key_b64") = Ok proof ∧
  validate_possession proof (Some now) = Ok tt ∧
  dot proof "key_id" = dot key "key_id" ∧ dot proof "deployment_ref" = dot key "deployment_ref" ∧
  dot proof "observed_image_digest" = dot key "baseline_digest".

Lemma activation_proven previous key : check_activation previous key = Ok tt → proven key.
Proof.
  unfold check_activation. intros (env & Henv%item_dot & H)%bind_Ok. apply bind_Ok in H as (proof & Hv & H).
  apply bind_Ok in H as (received & Hr%item_dot & H). apply bind_Ok in H as (now & Hnow & H).
  apply bind_Ok_unit in H as (Hval & H). apply bind_Ok_unit in H as (Hid%ensure_Ok & H).
  apply bind_Ok_unit in H as (_ & H). apply bind_Ok in H as (baseline & Hb%item_dot & Hbase%ensure_Ok).
  unfold same in *. bool_hyps. exists env, proof, now. subst. by split_and!.
Qed.

Lemma event_keys seen e seen' :
  check_event seen e = Ok seen' →
  (kind_event e.1 ≠ KeyEvent ∧ seen_keys seen' = seen_keys seen) ∨
  (kind_event e.1 = KeyEvent ∧ check_key_event deployment seen e.2 = Ok seen').
Proof.
  destruct e as [path event]. rewrite check_event_kind. simpl. destruct (kind_event path); [by right|..]; intros He; left;
    (split; [done|]).
  - unfold check_desired_event in He. by inv_res.
  - unfold check_quarantine_event in He. inv_res. by case_in He; inv_res.
  - unfold check_applied_event in He. inv_res. by case_in He; inv_res.
  - by injection He as <-.
Qed.

(** An event leaves every key on record, as it was or as it follows. *)
Lemma event_follows seen e seen' id key :
  check_event seen e = Ok seen' → dict_get (seen_keys seen) id = Some key →
  ∃ key', dict_get (seen_keys seen') id = Some key' ∧ follows key key'.
Proof.
  intros [[_ ->]|[_ Hc]]%event_keys Hg; [by exists key|].
  apply check_key_Ok in Hc as (_ & _ & -> & Hp). simpl. rewrite dict_get_set. case_bool_decide as Heq; [|by exists key].
  subst id. rewrite Hg in Hp. destruct Hp as (Hpub & Hst & _). eexists. split; [done|]. split; [done|].
  unfold stage. destruct Hst as [Hst|Hst].
  - unfold is_text in *. bool_hyps. rewrite Hst. simpl. repeat case_match; lia.
  - rewrite Hst. repeat case_match; lia.
Qed.

Lemma log_follows seen k seen' id key :
  foldl (λ acc e, seen ← acc; check_event seen e) (Ok seen) k = Ok seen' →
  dict_get (seen_keys seen) id = Some key →
  ∃ key', dict_get (seen_keys seen') id = Some key' ∧ follows key key'.
Proof.
  revert seen key. induction k as [|e k IH]; intros seen key Hc Hg.
  - injection Hc as <-. by exists key.
  - cbn [foldl mbind res_bind] in Hc. destruct (check_event seen e) as [seen1|err] eqn:He.
    + destruct (event_follows _ _ _ _ _ He Hg) as (key1 & Hg1 & Hf1).
      destruct (IH _ _ Hc Hg1) as (key' & Hg' & Hf'). exists key'. split; [done|]. by etrans.
    + exfalso. revert Hc. clear. induction k as [|e k IH]; [done|]. exact IH.
Qed.

Lemma log_proven l seen id key :
  check_log l = Ok seen → dict_get (seen_keys seen) id = Some key →
  is_text (dot key "state") "active" = true → proven key.
Proof.
  intros Hl. revert l seen Hl id key. apply (log_ind deployment public_key (λ _ seen, ∀ id key,
    dict_get (seen_keys seen) id = Some key → is_text (dot key "state") "active" = true → proven key)); [done|].
  intros l seen e seen' _ IH [[_ ->]|[_ Hc]]%event_keys id key Hg Ha; [by eapply IH|].
  apply check_key_Ok in Hc as (_ & _ & -> & Hp). simpl in Hg. rewrite dict_get_set in Hg.
  case_bool_decide as Heq; [|by eapply IH]. injection Hg as <-.
  destruct (dict_get (seen_keys seen) _) as [previous|]; [|destruct Hp as [Hp _]].
  - destruct Hp as (_ & _ & Hact). by eapply activation_proven, Hact.
  - unfold is_text in *. bool_hyps. rewrite Ha in Hp. discriminate Hp.
Qed.

(** *** Reports *)

(** A report is on a desired state that was issued before it, agrees with it
    and shows, where it tells of success, that the host runs it. *)
Record reported (before : list (pystr * json)) (report : json) : Prop := {
  reported_issued : ∃ e desired, e ∈ of_kind "desired" before ∧ verify DESIRED e.2 public_key = Ok desired ∧
    text desired "nonce" = nonce_of report ∧ agrees_with desired (dot report "desired") = true ∧
    (succeeded report = true → _valid_success report desired = true);
  reported_once : ∀ e other, e ∈ of_kind "applied" before → report_of e = Ok other → nonce_of other ≠ nonce_of report;
}.

Lemma applied_reported l path event seen :
  kind_event path = AppliedEvent → check_log (l ++ [(path, event)]) = Ok seen →
  ∃ report, report_of (path, event) = Ok report ∧ reported l report.
Proof.
  intros Hk Hc. rewrite check_snoc in Hc. apply bind_Ok in Hc as (seen0 & Hl & He).
  rewrite check_event_kind, Hk in He. unfold check_applied_event in He. apply bind_Ok in He as (id & _ & He).
  apply bind_Ok in He as (key & _ & He). apply bind_Ok_unit in He as (_ & He).
  apply bind_Ok in He as (report & Hv & He). apply bind_Ok_unit in He as (_ & He). fold (nonce_of report) in He.
  destruct (dict_get (seen_desired seen0) (nonce_of report)) as [desired|] eqn:Hd; [|done].
  apply bind_Ok_unit in He as (Hnew%ensure_Ok & He). apply bind_Ok_unit in He as (Hag%ensure_Ok & He).
  apply bind_Ok_unit in He as (Hs%ensure_Ok & _). bool_hyps. exists report.
  split; [by apply (verified_report (path, event) _ _ Hv)|]. split.
  - destruct (desired_view _ _ _ _ Hl) as (docs & Hdocs & Hseen & _). rewrite Hseen in Hd.
    apply dict_get_Some, list_elem_of_fmap in Hd as ([[p env] doc] & [= Hn ->] & Hin).
    apply mapM_Ok in Hdocs. apply list_elem_of_lookup in Hin as [i Hi].
    destruct (Forall2_lookup_r _ _ _ _ _ Hdocs Hi) as (e & Hei & Hde).
    unfold desired_doc in Hde. apply bind_Ok in Hde as (doc' & Hv' & Hde). apply bind_Ok_unit in Hde as (_ & [= _ _ ->]).
    exists e, doc. split_and!; try done; [by apply list_elem_of_lookup; eexists|].
    intros Hsucc. rewrite Hsucc in Hs. done.
  - intros e other Hin Ho Heq. destruct (applied_view _ _ _ _ Hl) as (reports & Hr & Hcons & _).
    match goal with H : nonce_of report ∉ _ |- _ => apply H end. rewrite Hcons, elem_of_reverse, <- Heq.
    apply list_elem_of_fmap_2. apply mapM_Ok in Hr. apply list_elem_of_lookup in Hin as [i Hi].
    destruct (Forall2_lookup_l _ _ _ _ _ Hr Hi) as (r & Hri & Hro). rewrite Ho in Hro. injection Hro as ->.
    by apply list_elem_of_lookup; eexists.
Qed.
End life.
