(* ===== verification/AgentSteps.v ===== *)
(** * Steps of the service on a lawful host

    [valid] is what holds of the history between two operations: it is tidy and
    its log obeys the rules.  [safe s m] says that [m], from the site [s], leaves
    a valid history, whether it returns or raises; the rules take a procedure
    apart, call by call. *)

From S2P Require Import Prelude PyText PyUuid PyDate PyTime Json JsonReader JsonRound Effects Contracts ContractsSafety Envelopes AgentLedger GateEvidence GateAdmission AgentProjection AgentService AgentHost AgentLedgerSafety AgentLog AgentRules AgentChecks AgentLife.

#[local] Open Scope Z_scope.

(** The documents of a tidy history. *)
Lemma documents_tidy `{FL : Floats} fs :
  Forall (λ f, is_json f.1 = true → canonical f.2) fs →
  ∃ l, documents fs = Ok l ∧ Forall (λ e, returns e.2) l.
Proof.
  unfold documents. induction 1 as [|[n raw] fs Hf _ (l & Hl & Hr)]; [by exists []|].
  rewrite filter_cons. simpl in *. destruct (decide (is_json n = true)) as [Hj|]; [|by exists l].
  destruct (Hf Hj) as (v & kvs & Hv & Hret & ->). cbn [mapM snd].
  rewrite (read_json_dumps v kvs) by done. cbn [mbind res_bind]. rewrite Hl. eexists. split; [done|].
  constructor; [by apply returns_sorted|done].
Qed.

Section steps.
Context `{ORC : Oracles} `{HST : Host} `{LAW : !Lawful} `{CRY : Crypto} `{FL : Floats} `{UCD : UnicodeDB}.

(** ** Reading procedures *)

(** A procedure that leaves the site alone and whose result the faultless host
    gives too. *)
Definition reads {A} (m : proc hstate exn A) (m' : proc site exn A) : Prop :=
  keeps look m ∧ sim m m'.

Lemma reads_ret {A} (a : A) : reads (mret a) (mret a).
Proof. split; [apply keeps_ret|apply sim_ret]. Qed.
Lemma reads_throw {A} e : reads (throw (A := A) e) (throw e).
Proof. split; [apply keeps_throw|apply sim_throw]. Qed.
Lemma reads_bind {A B} m m' (f : A → proc hstate exn B) (f' : A → proc site exn B) :
  reads m m' → (∀ a, reads (f a) (f' a)) → reads (m ≫= f) (m' ≫= f').
Proof. intros [Hk Hs] Hf. split; [apply keeps_bind; [done|]|apply sim_bind; [done|]]; apply Hf. Qed.
Lemma reads_fmap {A B} (g : A → B) m m' : reads m m' → reads (g <$> m) (g <$> m').
Proof. intros [Hk Hs]. split; [by apply keeps_fmap|by apply sim_fmap]. Qed.
Lemma reads_demand b code : reads (demand b code) (demand (HST := ideal) b code).
Proof. split; [apply keeps_demand|apply sim_demand]. Qed.
Lemma reads_pure {A} (m : res A) : reads (pure m) (pure (HST := ideal) m).
Proof. split; [apply keeps_pure|apply sim_pure]. Qed.
Lemma reads_events : reads events (events (HST := ideal)).
Proof. split; [apply keeps_events|apply sim_events]. Qed.
Lemma reads_read n : reads (read n) (read (HST := ideal) n).
Proof. split; [apply keeps_read|apply sim_read]. Qed.

Lemma reads_kind k : reads (_events k) (_events (HST := ideal) k).
Proof. apply reads_fmap, reads_events. Qed.
Lemma reads_keys : reads _keys (_keys (HST := ideal)).
Proof. apply reads_bind; [apply reads_kind|]. intros all. apply reads_pure. Qed.

(** The service as it would be configured on the faultless host. *)
Definition idealized (self : Agent (HST := HST)) : Agent (HST := ideal) :=
  {| ledger := ledger self; signer := signer self; public_key_b64 := public_key_b64 self;
     deployment_ref := deployment_ref self; candidate_reader := None; gate_scope := gate_scope self |}.

Lemma reads_desired self ref : reads (_desired self ref) (_desired (idealized self) ref).
Proof. apply reads_bind; [apply reads_kind|]. intros all. apply reads_pure. Qed.

Lemma reads_latest_report self ref b : reads (_latest_report self ref b) (_latest_report (idealized self) ref b).
Proof.
  unfold _latest_report. apply reads_bind; [apply reads_desired|]. intros issued.
  apply reads_bind; [apply reads_kind|]. intros applied. apply reads_bind; [apply reads_pure|].
  intros reports. apply reads_ret.
Qed.

Lemma reads_baseline self ref : reads (_baseline self ref) (_baseline (idealized self) ref).
Proof.
  unfold _baseline. apply reads_bind; [apply reads_latest_report|]. intros [report|].
  - destruct (dot (dot report "observed") "running_image"); try apply reads_throw.
    apply reads_bind; [apply reads_demand|]. intros u. apply reads_ret.
  - apply reads_bind; [apply reads_keys|]. intros keys. destruct (head _) as [[id key]|]; [|apply reads_throw].
    destruct (dot key "baseline_digest"); try apply reads_throw. apply reads_ret.
Qed.

Lemma reads_key_in state id : reads (key_in state id) (key_in (HST := ideal) state id).
Proof.
  unfold key_in. apply reads_bind; [apply reads_keys|]. intros keys.
  destruct (dict_get keys id) as [key|]; [|apply reads_throw].
  apply reads_bind; [apply reads_demand|]. intros u. apply reads_ret.
Qed.

(** ** The rules *)

Context (self : Agent (HST := HST)).

Definition desired_path (nonce : pystr) : pystr :=
  lit "desired/" ++ deployment_ref self ++ 47 :: nonce ++ lit ".json".

(** What holds of the history between two operations. *)
Record view (cs : list commit) (l : list (pystr * json)) (seen : Seen) : Prop := {
  view_tidy : tidy cs;
  view_log : log cs = Ok l;
  view_checked : check_log (deployment_ref self) (public_key_b64 self) l = Ok seen;
  (** the file a nonce was issued under *)
  view_named : ∀ nonce, nonce ∈ (seen_desired seen).*1 → desired_path nonce ∈ (tree cs).*1;
  view_challenges : challenges_match (deployment_ref self) (seen_keys seen);
}.
Definition valid (cs : list commit) : Prop := ∃ l seen, view cs l seen.

Lemma view_keys_ok cs l seen : view cs l seen → keys_ok (deployment_ref self) (seen_keys seen).
Proof.
  intros [Ht Hl Hc _ _]. destruct Ht as [_ _ _ Hcan]. destruct (documents_tidy _ Hcan) as (l' & Hl' & Hr).
  unfold log in Hl. rewrite Hl in Hl'. injection Hl' as <-. by eapply log_keys.
Qed.

(** The history has only grown, and is valid. *)
Definition grown (cs cs' : list commit) : Prop := cs `prefix_of` cs' ∧ valid cs'.
Lemma grown_refl cs : valid cs → grown cs cs.
Proof. by split. Qed.

Definition safe {A} (s : site) (m : proc hstate exn A) : Prop :=
  triple (λ w, look w = s) m (λ _ w, grown (history s) (history (look w)))
    (λ _ w, grown (history s) (history (look w))).

Section rules.
Context (s : site) (Hvalid : valid (history s)).

Lemma safe_keeps {A} (m : proc hstate exn A) : keeps (λ w, history (look w)) m → safe s m.
Proof.
  intros Hm. eapply triple_conseq; [apply (triple_keeps (λ w, history (look w)) (history s) m Hm)|..].
  - intros w Hw. cbv beta. by rewrite Hw.
  - intros ? w Hw. cbv beta in *. rewrite Hw. by apply grown_refl.
  - intros ? w Hw. cbv beta in *. rewrite Hw. by apply grown_refl.
Qed.

Lemma safe_step {A B} (m : proc hstate exn A) m' (f : A → proc hstate exn B) :
  reads m m' → (∀ a, m' s = (Ret a, s) → safe s (f a)) → safe s (m ≫= f).
Proof.
  intros [Hk Hs] Hf. apply (triple_bind _ _ _ (λ a w, m' s = (Ret a, s) ∧ look w = s)).
  - intros w Hw. destruct (m w) as [[a|e|] w'] eqn:Hm; [| |done].
    + pose proof (keeps_out _ _ _ _ _ Hk Hm) as Hl. apply Hs in Hm. rewrite Hl, Hw in Hm. split; [done|congruence].
    + pose proof (keeps_out _ _ _ _ _ Hk Hm) as Hl. cbv beta. rewrite Hl, Hw. by apply grown_refl.
  - intros a. apply triple_pure. apply Hf.
Qed.

Lemma safe_demand {B} b code (f : unit → proc hstate exn B) :
  (b = true → safe s (f tt)) → safe s (demand b code ≫= f).
Proof. intros Hf. eapply safe_step; [apply reads_demand|]. intros [] [Hb _]%require_Ret. auto. Qed.

Lemma safe_pure {A B} (m : res A) (f : A → proc hstate exn B) :
  (∀ a, m = Ok a → safe s (f a)) → safe s (pure m ≫= f).
Proof. intros Hf. eapply safe_step; [apply reads_pure|]. intros a Ha. destruct m as [b|e]; [|done]. injection Ha as ->. auto. Qed.

(** A call of which only the site matters. *)
Lemma safe_call {A B} (m : proc hstate exn A) (f : A → proc hstate exn B) :
  keeps look m → (∀ a, safe s (f a)) → safe s (m ≫= f).
Proof.
  intros Hm Hf. apply (triple_bind _ _ _ (λ _ w, look w = s)); [|exact Hf].
  eapply triple_conseq; [exact (triple_keeps look s m Hm)|done|done|]. intros e w Hw. cbv beta. rewrite Hw. by apply grown_refl.
Qed.

Lemma safe_throw {A} e : safe s (throw (A := A) e).
Proof. apply safe_keeps, keeps_throw. Qed.
Lemma safe_ret {A} (a : A) : safe s (mret a).
Proof. apply safe_keeps, keeps_ret. Qed.

(** A reading of the clock, or of a random source. *)
Lemma safe_tick {A B} (m : proc hstate exn A) x (f : A → proc hstate exn B) :
  (∀ w o w', m w = (o, w') → o = Ret (x (ticks (look w))) ∧ look w' = ticked (look w)) →
  safe (ticked s) (f (x (ticks s))) → safe s (m ≫= f).
Proof.
  intros Hm Hf. apply (triple_bind _ _ _ (λ a w, a = x (ticks s) ∧ look w = ticked s)).
  - intros w Hw. destruct (m w) as [o w'] eqn:Ho. apply Hm in Ho as [-> Hl]. by rewrite Hl, Hw.
  - intros a. apply triple_pure. by intros ->.
Qed.
End rules.

Lemma safe_clock {B} s (f : moment → proc hstate exn B) :
  safe (ticked s) (f (clock_at (ticks s))) → safe s (clock ≫= f).
Proof. intros Hf. eapply safe_tick; [apply clock_done|exact Hf]. Qed.
Lemma safe_token {B} s (f : bytes → proc hstate exn B) :
  safe (ticked s) (f (token_at (ticks s))) → safe s (token ≫= f).
Proof. intros Hf. eapply safe_tick; [apply token_done|exact Hf]. Qed.
Lemma safe_uuid {B} s (f : uuid → proc hstate exn B) :
  safe (ticked s) (f (uuid_at (ticks s))) → safe s (uuid4 ≫= f).
Proof. intros Hf. eapply safe_tick; [apply uuid_done|exact Hf]. Qed.

(** ** Recording *)

#[local] Hint Resolve keeps_demand keeps_pure keeps_names keeps_show keeps_records keeps_read keeps_events : keeps.
#[local] Hint Extern 1 (keeps look (git _)) => apply keeps_git; reflexivity : keeps.

Lemma keeps_addition_commit path : keeps look (addition_commit path).
Proof. unfold addition_commit. frame. Qed.
Lemma keeps_present path code : keeps look (present path code).
Proof. unfold present. frame. Qed.
#[local] Hint Resolve keeps_addition_commit keeps_present : keeps.

Lemma keeps_enrolled_key request before : keeps look (enrolled_key request before).
Proof. unfold enrolled_key. frame. Qed.
Lemma keeps_report_reference request ref key scope before :
  keeps look (report_reference self request ref key scope before).
Proof. unfold report_reference, report_envelope, verified, retained_at. frame. Qed.
Lemma keeps_receipt_at ref path before : keeps look (receipt_at ref path before).
Proof. unfold receipt_at. frame. Qed.
#[local] Hint Resolve keeps_enrolled_key keeps_report_reference keeps_receipt_at : keeps.

Lemma keeps_verify_refusals request proof key scope before :
  keeps look (verify_refusals self request proof key scope before).
Proof. unfold verify_refusals, verify_refusal. frame. Qed.
Lemma keeps_verify_transition request ref key scope passed before :
  keeps look (verify_transition self request ref key scope passed before).
Proof. unfold verify_transition. frame. Qed.
#[local] Hint Resolve keeps_verify_refusals keeps_verify_transition : keeps.

Lemma keeps_verify_proofs request scope before : keeps look (verify_proofs self request scope before).
Proof. unfold verify_proofs, verify_proof. frame. Qed.
Lemma keeps_verify_prior request scope before : keeps look (verify_prior request scope before).
Proof. unfold verify_prior. frame. Qed.
#[local] Hint Resolve keeps_verify_proofs keeps_verify_prior : keeps.

Lemma keeps_gate_history : keeps look (gate_history self).
Proof. unfold gate_history, check_gate_event. frame. Qed.
Lemma keeps_validate_history : keeps look (validate_history self).
Proof. unfold validate_history. pose proof keeps_gate_history. frame. Qed.

(** The commits, which the database is no part of. *)
Lemma keeps_site {A} (m : proc hstate exn A) : keeps look m → keeps (λ w, history (look w)) m.
Proof. intros Hm w. by rewrite Hm. Qed.
Lemma keeps_rebuild : keeps (λ w, history (look w)) rebuild.
Proof.
  unfold rebuild. apply keeps_bind; [apply keeps_site, keeps_events|]. intros all.
  apply keeps_bind; [|intros t; apply keeps_bind; [apply keeps_site, keeps_pure|intros [t' n]; apply keeps_bind]].
  - intros w. destruct (db_read w) as [o w'] eqn:Hr. simpl. by apply read_done in Hr as [-> _].
  - intros w. destruct (db_commit t' w) as [[u|e|] w'] eqn:Hc; simpl.
    + by apply commit_done in Hc as ->.
    + by apply commit_failed in Hc as [->| ->].
    + by destruct (calls_end w) as (_ & _ & _ & _ & Hd); destruct (Hd t'); rewrite Hc.
  - intros u. apply keeps_ret.
Qed.

(** *** What a batch does to the log *)

Definition checks (seen : Seen) (k : list (pystr * json)) : res Seen :=
  foldl (λ acc e, seen ← acc; check_event (deployment_ref self) (public_key_b64 self) seen e) (Ok seen) k.

(** Events that have no rules change nothing. *)
Lemma checks_ruled seen k : checks seen k = checks seen (filter ruled k).
Proof.
  unfold checks. generalize (Ok seen : res Seen). induction k as [|[path event] k IH]; intros acc; [done|].
  rewrite filter_cons. destruct (decide (ruled (path, event))) as [Hr|Hr]; [apply IH|].
  cbn [foldl]. rewrite IH. f_equal. destruct acc as [seen'|]; [|done]. cbn [mbind res_bind].
  rewrite check_event_kind. apply dec_stable in Hr. simpl in Hr. by rewrite Hr.
Qed.

(** The ruled events of a batch are those of the values that are new. *)
Lemma batch_ruled cs values :
  filter ruled (batch_of cs values) ≡ₚ
  on_value sorted_json <$> filter (λ w : pystr * json, file cs w.1 = None) (filter ruled values).
Proof.
  unfold batch_of.
  assert (Hmap : ∀ k : list (pystr * json),
    filter ruled (on_value sorted_json <$> k) =@{list (pystr * json)} on_value sorted_json <$> filter ruled k).
  { intros k. induction k as [|[n w] k IH]; [done|]. rewrite fmap_cons, !filter_cons. unfold ruled in *. simpl in *.
    by destruct (decide _); rewrite ?fmap_cons, IH. }
  rewrite Hmap, sort_by_perm. unfold fresh. rewrite !list_filter_filter.
  apply fmap_Permutation, Permutation_refl', list_filter_iff. tauto.
Qed.

(** What is recorded: documents under plain names, whose events the rules
    accept. *)
Record accepts (cs : list commit) (seen : Seen) (values : list (pystr * json)) : Prop := {
  accepts_fits : appendable values;
  accepts_checked : ∃ seen',
    checks seen (batch_of cs values) = Ok seen' ∧
    challenges_match (deployment_ref self) (seen_keys seen') ∧
    ∀ nonce, nonce ∈ (seen_desired seen').*1 →
      nonce ∈ (seen_desired seen).*1 ∨ desired_path nonce ∈ (batch_of cs values).*1;
}.

Lemma accepts_unruled cs l seen values :
  view cs l seen → appendable values → filter ruled values = [] → accepts cs seen values.
Proof.
  intros Hv Ha Hn. split; [done|]. exists seen. split_and!; [|by eapply view_challenges|by left].
  rewrite checks_ruled. pose proof (batch_ruled cs values) as Hb. rewrite Hn in Hb.
  by apply Permutation_nil_r in Hb as ->.
Qed.

Lemma accepts_one cs l seen values path v :
  view cs l seen → appendable values → filter ruled values = [(path, v)] →
  (file cs path = None → ∃ seen',
    check_event (deployment_ref self) (public_key_b64 self) seen (path, sorted_json v) = Ok seen' ∧
    challenges_match (deployment_ref self) (seen_keys seen') ∧
    ∀ nonce, nonce ∈ (seen_desired seen').*1 → nonce ∈ (seen_desired seen).*1 ∨ desired_path nonce = path) →
  accepts cs seen values.
Proof.
  intros Hv Ha Ho Hr. split; [done|]. pose proof (batch_ruled cs values) as Hb. rewrite Ho, filter_cons, filter_nil in Hb.
  simpl in Hb. destruct (file cs path) as [old|] eqn:Hf; destruct (decide _); try done.
  - apply Permutation_nil_r in Hb. exists seen. rewrite checks_ruled, Hb.
    split_and!; [done|by eapply view_challenges|by left].
  - apply Permutation_singleton_r in Hb. destruct (Hr eq_refl) as (seen' & Hck & Hch & Hnew). exists seen'.
    rewrite checks_ruled, Hb. split_and!; [exact Hck|done|]. intros nonce [Hold|Hp]%Hnew; [by left|right].
    rewrite Hp. assert (Hin : (path, sorted_json v) ∈ filter ruled (batch_of cs values)) by (rewrite Hb; by left).
    apply list_elem_of_filter in Hin as [_ Hin]. by apply (list_elem_of_fmap_2 fst) in Hin.
Qed.

Lemma valid_batch s l seen values pending :
  view (history s) l seen → accepts (history s) seen values →
  pending_of (HST := ideal) values s = (Ret pending, s) →
  grown (history s) (history s ++ [batch_commit s pending]).
Proof.
  intros [Ht Hl Hc Hn _] [Ha (seen' & Hck & Hch & Hnew)] Hp. apply (pending_tidy _ _ _ Ht Ha) in Hp as ->.
  set (c := batch_commit s _).
  assert (Hfiles : commit_files c = sort_by key_leb (on_value dumps_compact <$> fresh (history s) values)) by done.
  assert (Htree : tree (history s ++ [c]) = tree (history s) ++ commit_files c).
  { unfold tree. rewrite bind_app. simpl. by rewrite app_nil_r. }
  split; [by apply prefix_app_r|]. exists (l ++ batch_of (history s) values), seen'. split.
  - by apply (tidy_appended _ _ _ Ht Ha Hfiles).
  - by apply log_appended.
  - rewrite (check_app _ _ _ _ _ Hc). exact Hck.
  - intros nonce Hin. rewrite Htree, fmap_app. apply elem_of_app. destruct (Hnew _ Hin) as [Hold|Hin']; [left; by apply Hn|right].
    rewrite Hfiles, sorted_batch. unfold batch_of in Hin'.
    rewrite (keys_value dumps_compact). by rewrite (keys_value sorted_json) in Hin'.
  - done.
Qed.

Lemma triple_history {A} (P : list commit → Prop) (m : proc hstate exn A) :
  keeps (λ w, history (look w)) m →
  triple (λ w, P (history (look w))) m (λ _ w, P (history (look w))) (λ _ w, P (history (look w))).
Proof.
  intros Hm w Hw. specialize (Hm w). destruct (m w) as [[a|e|] w']; simpl in Hm; [congruence..|done].
Qed.

(** Recording leaves a valid history. *)
Lemma safe_record s l seen values :
  untracked s = [] → view (history s) l seen → accepts (history s) seen values →
  safe s (_record self values).
Proof.
  intros Hu Hv Hr. unfold _record. apply (triple_bind _ _ _ (λ _ w, grown (history s) (history (look w)))).
  - eapply triple_conseq; [apply (append_triple (ledger self) values s Hu)|done|..].
    + intros b w (pending & Hp & -> & _). destruct pending as [|f fs]; [apply grown_refl; by exists l, seen|].
      by eapply valid_batch.
    + intros e w (_ & _ & [-> |(pending & _ & Hp & ->)]); [apply grown_refl; by exists l, seen|]. by eapply valid_batch.
  - intros b. apply (triple_history (grown (history s))). pose proof (keeps_site _ keeps_validate_history).
    apply keeps_bind; [done|]. intros _. apply keeps_bind; [apply keeps_rebuild|]. intros _. apply keeps_ret.
Qed.

Lemma safe_record_then {A} s l seen values (m : proc hstate exn A) :
  untracked s = [] → view (history s) l seen → accepts (history s) seen values →
  keeps (λ w, history (look w)) m → safe s (_record self values;; m).
Proof.
  intros Hu Hv Hr Hm. eapply triple_bind; [by eapply safe_record|]. intros u. by apply (triple_history (grown (history s))).
Qed.
End steps.
