(* ===== verification/AgentKeys.v ===== *)
(** * Operations on keys

    What the service relies on ([sound]), what its views of the log are, and
    that enrolling, challenging, activating and revoking a key leave a valid
    history. *)

From S2P Require Import Prelude PyText PyUuid PyDate PyTime Json JsonReader JsonRound Effects Contracts ContractsSafety Envelopes AgentLedger GateEvidence GateAdmission AgentProjection AgentService AgentHost AgentLedgerSafety AgentLog AgentRules AgentChecks AgentLife AgentSteps.

#[local] Open Scope Z_scope.

(** ** Names of files *)

Definition plain_text (s : pystr) : Prop := Forall (λ c, plain_char c = true) s.

Lemma plain_lit_name s : plain_text s → s ≠ [] → plain_name s.
Proof. intros Hs Hne. split; [done|]. by apply forallb_Forall_iff. Qed.

Lemma is_json_app p s : is_json s = true → is_json (p ++ s) = true.
Proof.
  unfold is_json, ends_with. rewrite !starts_with_spec. intros [t Ht]. exists (t ++ reverse p).
  by rewrite reverse_app, Ht, app_assoc.
Qed.
Lemma is_json_cons c s : is_json s = true → is_json (c :: s) = true.
Proof. apply (is_json_app [c]). Qed.

Lemma plain_identifier s : fullmatch Identifier s = true → plain_text s.
Proof.
  destruct s as [|c s]; [done|]. simpl. intros [[Hc Hs]%andb_true_iff _]%andb_true_iff.
  assert (Hal : ∀ d, alnum d = true → plain_char d = true).
  { intros d Hd. unfold alnum, plain_char, between in *.
    apply orb_true_iff in Hd as [[Hd|Hd]%orb_true_iff|Hd]; bool_hyps; apply andb_true_iff; rewrite !Z.leb_le; lia. }
  constructor; [by apply Hal|]. apply forallb_Forall_iff in Hs. eapply Forall_impl; [exact Hs|].
  intros d Hd. cbv beta in Hd. apply orb_true_iff in Hd as [Hd|Hd]; [by apply Hal|].
  apply bool_decide_eq_true in Hd. rewrite !elem_of_cons, elem_of_nil in Hd. by destruct Hd as [->|[->|[->|[]]]].
Qed.

Lemma plain_b64 raw : Forall byte raw → plain_text (b64 raw).
Proof.
  intros Hr%b64_alphabet. apply forallb_Forall_iff in Hr. eapply Forall_impl; [exact Hr|].
  intros c Hc. unfold alnum, plain_char, between in *. cbv beta in Hc. apply andb_true_iff. rewrite !Z.leb_le.
  apply orb_true_iff in Hc as [[Hc|Hc]%orb_true_iff|Hc].
  - apply orb_true_iff in Hc as [[Hc|Hc]%orb_true_iff|Hc]; bool_hyps; lia.
  - bool_hyps; lia.
  - bool_hyps; lia.
Qed.

Lemma plain_hex s : forallb hex_lower s = true → plain_text s.
Proof.
  intros Hs%forallb_Forall_iff. eapply Forall_impl; [exact Hs|]. unfold hex_lower, plain_char, between.
  intros c Hc. cbv beta in Hc. apply andb_true_iff. rewrite !Z.leb_le.
  apply orb_true_iff in Hc as [Hc|Hc]; bool_hyps; lia.
Qed.

Lemma plain_uuid u : plain_text (uuid_str u).
Proof.
  destruct (uuid_str_split u) as (a & b & c & d & e & Hh & Hs).
  pose proof (hex_digits_lower 32 u) as Hl. fold (uuid_hex u) in Hl. rewrite Hh, !forallb_app in Hl. bool_hyps.
  rewrite Hs. repeat (apply Forall_app; split); try (by apply plain_hex); by repeat constructor.
Qed.

Lemma plain_app s t : plain_text s → plain_text t → plain_text (s ++ t).
Proof. apply Forall_app_2. Qed.
Lemma plain_cons c s : plain_char c = true → plain_text s → plain_text (c :: s).
Proof. apply (Forall_cons_2 (λ c, plain_char c = true)). Qed.

(** A path made of plain pieces. *)
Ltac plain_pieces :=
  repeat match goal with
  | |- plain_text (_ ++ _) => apply plain_app
  | |- plain_text (_ :: _) => apply plain_cons; [reflexivity|]
  | |- plain_text (lit _) => apply (bool_decide_unpack _); vm_compute; exact I
  end.

Section operations.
Context `{ORC : Oracles} `{HST : Host} `{LAW : !Lawful} `{CRY : Crypto} `{FL : Floats} `{UCD : UnicodeDB}.
Context (self : Agent (HST := HST)).
#[local] Abbreviation deployment := (deployment_ref self).

(** How the service is set up, and what the clock, the random sources and
    sha256 are relied on for. *)
Record sound : Prop := {
  sound_signer : ∃ key, signs_for (signer self) (public_key_b64 self) key;
  sound_deployment : plain_text deployment;
  sound_bounded : fullmatch BoundedText deployment = true;
  sound_reader : ∀ reader doc, candidate_reader self = Some reader → keeps look (reader doc);
  sound_clock : ∀ n, valid_moment (clock_at n);
  sound_token : ∀ n, Forall byte (token_at n);
  sound_sha256 : ∀ raw, forallb hex_lower (sha256 raw) = true;
  sound_scope : ∀ raw, gate_scope self = Some raw → canonical raw;
}.

(** ** What the views are *)

Section views.
Context (s : site) (l : list (pystr * json)) (seen : Seen) (Hv : view self (history s) l seen).

Lemma kind_read k es : _events (HST := ideal) k s = (Ret es, s) → es = of_kind k l.
Proof.
  unfold _events. change (_ <$> events (HST := ideal)) with
    (a ← events (HST := ideal); mret (of_kind k a)). rewrite bind_eq, events_tidy by apply Hv.
  rewrite (view_log _ _ _ _ Hv). by intros [= <-].
Qed.

Lemma keys_read keys : _keys (HST := ideal) s = (Ret keys, s) → keys = seen_keys seen.
Proof.
  unfold _keys. intros (all & v & Ha & Hk)%bind_Ret.
  assert (v = s) as -> by (pose proof (keeps_out _ _ _ _ _ (proj1 (reads_kind (HST := ideal) "keys")) Ha) as Hs; exact Hs).
  apply kind_read in Ha as ->. rewrite (keys_view _ _ _ _ (view_checked _ _ _ _ Hv)) in Hk. by injection Hk as <-.
Qed.

Lemma key_read state id key :
  key_in (HST := ideal) state id s = (Ret key, s) →
  dict_get (seen_keys seen) id = Some key ∧ is_text (dot key "state") state = true.
Proof.
  unfold key_in. intros (keys & v & Ha & Hk)%bind_Ret.
  assert (v = s) as -> by (pose proof (keeps_out _ _ _ _ _ (proj1 (reads_keys (HST := ideal))) Ha) as Hs; exact Hs).
  apply keys_read in Ha as ->. destruct (dict_get (seen_keys seen) id) as [k|]; [|done].
  apply bind_Ret in Hk as (u & v & [Ht ->]%require_Ret & [= <-]). done.
Qed.

Lemma desired_read ref docs :
  _desired (idealized self) ref s = (Ret docs, s) →
  ∀ d, d ∈ docs → dict_get (seen_desired seen) (text d.2 "nonce") = Some d.2.
Proof.
  unfold _desired. intros (all & v & Ha & Hk)%bind_Ret.
  assert (v = s) as -> by (pose proof (keeps_out _ _ _ _ _ (proj1 (reads_kind (HST := ideal) "desired")) Ha) as Hs; exact Hs).
  apply kind_read in Ha as ->.
  destruct (desired_view _ _ _ _ (view_checked _ _ _ _ Hv)) as (ds & Hd & Hs & Hn).
  unfold desired_of in Hk. change (λ e : pystr * json, doc ← verify DESIRED e.2 (public_key_b64 (idealized self));
    validate_desired doc None None None;; Ok (e.1, e.2, doc)) with (desired_doc (public_key_b64 self)) in Hk.
  rewrite Hd in Hk. injection Hk as <-. intros d [_ Hin]%list_elem_of_filter.
  apply dict_get_NoDup; [done|]. rewrite Hs. apply list_elem_of_fmap. by exists d.
Qed.
End views.

(** ** Records of keys *)

Definition challenge_ok (v : json) : Prop :=
  ∀ c, v = JObj c → dict_get c (lit "deployment_ref") = Some (JStr deployment).

Lemma challenge_ok_sorted v : returns v → challenge_ok v → challenge_ok (sorted_json v).
Proof.
  intros Hr Hc c Hs. destruct v as [| | | | | |kvs]; try done. specialize (Hc kvs eq_refl).
  pose proof (item_sorted (JObj kvs) "deployment_ref" Hr) as Hi. rewrite Hs in Hi. simpl in Hi.
  rewrite Hc in Hi. by apply of_option_Ok in Hi.
Qed.

Lemma challenges_set keys id key :
  NoDup keys.*1 → challenges_match deployment keys → returns key → challenge_ok (dot key "challenge") →
  challenges_match deployment (dict_set keys id (sorted_json key)).
Proof.
  intros Hn Hk Hr Hc id' key' c. rewrite dict_set_in by done. intros [[-> ->]|[_ Hin]] Hd; [|by eapply Hk].
  rewrite dot_sorted in Hd by done. eapply challenge_ok_sorted; [|done|done]. by apply returns_dot.
Qed.

Lemma challenge_known cs l seen id key :
  view self cs l seen → dict_get (seen_keys seen) id = Some key → challenge_ok (dot key "challenge").
Proof. intros Hv Hg c Hc. apply dict_get_Some in Hg. by eapply (view_challenges _ _ _ _ Hv). Qed.

Lemma kind_of_prefix k p path :
  kind_prefix k = Some p → starts_with (lit p ++ [47]) path = true → kind_event path = k.
Proof. intros Hp Hs. by apply (kind_starts k p). Qed.

Lemma key_path_kind id u : kind_event (key_path id u) = KeyEvent.
Proof.
  apply (kind_of_prefix _ "keys"); [done|]. apply starts_with_spec. unfold key_path.
  by exists (id ++ 47 :: uuid_str u ++ lit ".json").
Qed.

Lemma key_path_plain id u : fullmatch Identifier id = true → plain_name (key_path id u).
Proof.
  intros Hid. apply plain_lit_name; [|done]. unfold key_path.
  plain_pieces; [by apply plain_identifier|apply plain_uuid].
Qed.

Lemma key_accepts cs l seen id u key :
  view self cs l seen → fullmatch Identifier id = true →
  returns key → (∃ kvs, key = JObj kvs) → challenge_ok (dot key "challenge") →
  check_key_event deployment seen (sorted_json key) =
    Ok {| seen_keys := dict_set (seen_keys seen) id (sorted_json key);
          seen_desired := seen_desired seen; consumed := consumed seen |} →
  accepts self cs seen [(key_path id u, key)].
Proof.
  intros Hv Hid Hr Ho Hc Hck. eapply accepts_one; [exact Hv|..].
  - split; [apply NoDup_singleton|constructor; [|done]|by constructor].
    split; [by apply key_path_plain|]. unfold key_path. apply is_json_app, is_json_app, is_json_cons, is_json_app.
    reflexivity.
  - rewrite filter_cons, filter_nil. rewrite decide_True; [done|]. unfold ruled. cbn [fst]. by rewrite key_path_kind.
  - intros _. eexists. split; [rewrite check_event_kind, key_path_kind; exact Hck|]. split.
    + apply challenges_set; [|by eapply view_challenges|done..]. by eapply keys_once, view_keys_ok.
    + intros nonce Hin. by left.
Qed.

Lemma safe_record_key {A} s l seen id key (m : proc hstate exn A) :
  untracked s = [] → view self (history s) l seen → fullmatch Identifier id = true →
  returns key → (∃ kvs, key = JObj kvs) → challenge_ok (dot key "challenge") →
  check_key_event deployment seen (sorted_json key) =
    Ok {| seen_keys := dict_set (seen_keys seen) id (sorted_json key);
          seen_desired := seen_desired seen; consumed := consumed seen |} →
  keeps (λ w, history (look w)) m → safe self s (record_key self id key;; m).
Proof.
  intros Hu Hv Hid Hr Ho Hc Hck Hm. unfold record_key.
  apply (triple_bind _ _ _ (λ _ w, grown self (history s) (history (look w))));
    [|intros u; by apply (triple_history (grown self (history s)))].
  apply safe_uuid. eapply safe_record; [exact Hu|exact Hv|by eapply key_accepts].
Qed.

Lemma known_identifier cs l seen id key :
  view self cs l seen → dict_get (seen_keys seen) id = Some key → fullmatch Identifier id = true.
Proof.
  intros Hv Hg. destruct (known_key _ _ _ _ (view_keys_ok _ _ _ _ Hv) Hg) as (Hs & _ & Hid & _).
  pose proof (shape_dot _ _ "key_id" (TText Identifier) Hs eq_refl) as Hd. unfold text in Hid.
  destruct (dot key "key_id"); try done. simpl in Hid. by subst.
Qed.

(** ** Transactions *)

Lemma safe_transaction {A} s (m : proc hstate exn A) :
  valid self (history s) → (untracked s = [] → safe self s m) → safe self s (transaction (ledger self) m).
Proof.
  intros Hv Hm. unfold transaction. apply (triple_bind _ _ _ (λ _ w, untracked s = [] ∧ look w = s)).
  - intros w Hw. pose proof (keeps_begin (ledger self)) as Hk.
    destruct (begin (ledger self) w) as [[u|e|] w'] eqn:Hb; [| |done].
    + pose proof (keeps_out _ _ _ _ _ Hk Hb) as Hl. apply begin_clean in Hb. by rewrite Hl, Hw in *.
    + pose proof (keeps_out _ _ _ _ _ Hk Hb) as Hl. rewrite Hl, Hw. by apply grown_refl.
  - intros u. by apply triple_pure.
Qed.

(** ** Operations on keys *)

Context (Hsound : sound).

Lemma deployment_text : text_ok deployment = true.
Proof.
  apply ascii_text. eapply Forall_impl; [exact (sound_deployment Hsound)|]. intros c Hc.
  cbv beta in Hc. unfold plain_char, between in Hc. unfold printable. bool_hyps. lia.
Qed.

Section keys.
Context (s : site) (l : list (pystr * json)) (seen : Seen) (Hv : view self (history s) l seen).
Context (Hu : untracked s = []).
Lemma view_valid : valid self (history s).
Proof. by exists l, seen. Qed.

Lemma safe_revoke_body request actor :
  safe self s (keys ← _keys;
    key ← pure (of_option (dict_get keys (text request "key_id")) (refusal "host_key_unknown"));
    record_key self (text key "key_id") (merge key [(lit "state", JStr (lit "revoked")); by_actor actor]);;
    mret (JObj [(lit "state", JStr (lit "revoked"))])).
Proof.
  eapply safe_step; [exact view_valid|apply reads_keys|]. intros keys Hk. eapply keys_read in Hk as ->; [|exact Hv].
  apply safe_pure; [exact view_valid|]. intros key Hg%of_option_Ok.
  pose proof (view_keys_ok _ _ _ _ Hv) as Hko. destruct (known_key _ _ _ _ Hko Hg) as (Hs & Hr & Hid & _ & Hdoc).
  destruct (revoke_checks _ _ _ _ actor Hko Hg) as (Hr' & Ho & Hck). rewrite Hid.
  eapply safe_record_key; try done.
  - by eapply known_identifier.
  - read_fields. rewrite dot_items by done. by eapply challenge_known.
Qed.

Lemma safe_challenge_body key_id actor :
  safe self s (
    key ← key_in "pending" key_id;
    nonce ← token;
    now ← clock;
    expires ← pure (later now (10 * MINUTE));
    let challenge := challenge_document key_id (dot key "deployment_ref") nonce expires in
    record_key self key_id (merge key [(lit "challenge", challenge); by_actor actor]);;
    mret challenge).
Proof.
  eapply safe_step; [exact view_valid|apply reads_key_in|]. intros key Hk.
  eapply key_read in Hk as [Hg Hp]; [|exact Hv].
  apply safe_token, safe_clock, safe_pure; [exact view_valid|]. intros expires _. cbv zeta.
  pose proof (view_keys_ok _ _ _ _ Hv) as Hko.
  destruct (challenge_checks deployment seen key_id key (token_at (ticks s)) expires actor Hko Hg Hp
    (sound_bounded Hsound) deployment_text (sound_token Hsound _)) as (Hr' & Ho & Hck).
  destruct (known_key _ _ _ _ Hko Hg) as (Hs & Hr & Hid & Hdep & Hdoc).
  eapply safe_record_key; try done.
  - by eapply known_identifier.
  - read_fields. intros c [= <-].
    rewrite (key_text key "deployment_ref" TStr Hs (or_introl eq_refl) eq_refl), Hdep. reflexivity.
Qed.

(** The possession does not expire between the two readings of the clock. *)
Definition prompt (env : json) : Prop := ∀ key doc,
  verify POSSESSION env key = Ok doc →
  validate_possession doc (Some (instant (clock_at (ticks s)))) = Ok tt →
  validate_possession doc (Some (instant (clock_at (S (ticks s))))) = Ok tt.

Lemma safe_activate_body env fingerprint actor :
  is_document env → prompt env →
  safe self s (
    key ← key_in "pending" (text env "key_id");
    raw ← pure (unb64 (text key "public_key_b64"));
    demand (bool_decide (fingerprint = JStr (raw_digest raw))) "fingerprint_mismatch";;
    doc ← pure (verify POSSESSION env (text key "public_key_b64"));
    pure (validate_possession doc None);;
    now ← clock;
    pure (validate_possession doc (Some (instant now)));;
    pure (answers key doc);;
    received ← clock;
    record_key self (text env "key_id") (activation key env doc received actor);;
    mret (JObj [(lit "state", JStr (lit "active"))])).
Proof.
  intros Henv Hprompt.
  eapply safe_step; [exact view_valid|apply reads_key_in|]. intros key Hk.
  eapply key_read in Hk as [Hg Hp]; [|exact Hv].
  apply safe_pure; [exact view_valid|]. intros raw _. apply safe_demand; [exact view_valid|]. intros _.
  apply safe_pure; [exact view_valid|]. intros doc Hver. apply safe_pure; [exact view_valid|]. intros _ _.
  apply safe_clock, safe_pure; [exact view_valid|]. intros [] Hnow. apply safe_pure; [exact view_valid|].
  intros [] Hans. apply safe_clock. pose proof (view_keys_ok _ _ _ _ Hv) as Hko.
  destruct (known_key _ _ _ _ Hko Hg) as (Hs & Hr & Hid & Hdep & Hdoc).
  destruct (activate_checks deployment seen (text env "key_id") key env doc (clock_at (S (ticks s))) actor Hko
    (view_challenges _ _ _ _ Hv) Hg Hp eq_refl Henv Hver Hans (sound_clock Hsound _)
    (Hprompt _ _ Hver Hnow)) as (Hr' & Ho & Hck).
  eapply safe_record_key; try done.
  - by eapply known_identifier.
  - unfold activation. read_fields. rewrite dot_items by done. by eapply challenge_known.
Qed.

Lemma safe_enroll_body request actor pub :
  is_document request → exact request REGISTER_FIELDS = Ok tt →
  identifier (dot request "key_id") = Ok tt → dot request "deployment_ref" = JStr deployment →
  dot request "public_key_b64" = JStr pub → Forall printable pub →
  safe self s (
    keys ← _keys;
    match dict_get keys (text request "key_id") with
    | Some existing => demand (agrees_with existing request) "key_reused";; mret existing
    | None =>
        demand (forallb (λ k, negb (same (dot k.2 "public_key_b64") (dot request "public_key_b64"))) keys) "key_reused";;
        record_key self (text request "key_id") (registration request actor);;
        mret (registration request actor)
    end).
Proof.
  intros Hdoc Hex Hid Hdep Hpub Hp.
  eapply safe_step; [exact view_valid|apply reads_keys|]. intros keys Hk. eapply keys_read in Hk as ->; [|exact Hv].
  destruct (dict_get (seen_keys seen) (text request "key_id")) as [existing|] eqn:Hg.
  { apply safe_demand; [exact view_valid|]. intros _. apply safe_ret; exact view_valid. }
  apply safe_demand; [exact view_valid|]. intros Hothers.
  assert (Hapart : ∀ other, other ∈ seen_keys seen → dot other.2 "public_key_b64" ≠ JStr pub).
  { intros other Ho. rewrite forallb_Forall_iff, Forall_forall in Hothers. specialize (Hothers _ Ho). cbv beta in Hothers.
    rewrite Hpub in Hothers. unfold same in Hothers. bool_hyps. done. }
  destruct (enroll_checks deployment seen request actor pub Hdoc Hex Hid Hdep deployment_text Hpub Hp Hg Hapart)
    as (Hr' & Ho & Hck).
  eapply safe_record_key; try done.
  - unfold identifier, _shape in Hid. apply ensure_Ok in Hid. unfold text. by destruct (dot request "key_id").
  - unfold registration. read_fields. intros c. done.
Qed.
End keys.
End operations.

#[global] Arguments sound_signer {ORC HST LAW CRY self} _.
#[global] Arguments sound_deployment {ORC HST LAW CRY self} _.
#[global] Arguments sound_bounded {ORC HST LAW CRY self} _.
#[global] Arguments sound_reader {ORC HST LAW CRY self} _.
#[global] Arguments sound_clock {ORC HST LAW CRY self} _.
#[global] Arguments sound_token {ORC HST LAW CRY self} _.
#[global] Arguments sound_sha256 {ORC HST LAW CRY self} _.
#[global] Arguments sound_scope {ORC HST LAW CRY self} _.
