(* ===== verification/AgentOperations.v ===== *)
(** * The log stays valid

    Issuing, taking in reports, admitting evidence: every operation of the
    service, on a host that behaves as documented and however it ends, leaves
    a history that has only grown and whose log obeys the rules. *)

From S2P Require Import Prelude PyText PyUuid PyDate PyTime Json JsonReader JsonRound Effects Contracts ContractsSafety Envelopes AgentLedger GateEvidence GateAdmission AgentProjection AgentService AgentHost AgentLedgerSafety AgentLog AgentRules AgentChecks AgentLife AgentSteps AgentKeys.

#[local] Open Scope Z_scope.

Section operations.
Context `{ORC : Oracles} `{HST : Host} `{LAW : !Lawful} `{CRY : Crypto} `{FL : Floats} `{UCD : UnicodeDB}.
Context (self : Agent (HST := HST)) (Hsound : sound self).
#[local] Abbreviation deployment := (deployment_ref self).

(** ** Issuing *)

Lemma digest_Ok j fp : digest j = Ok fp → ∃ raw, fp = lit "sha256:" ++ sha256 raw.
Proof. unfold digest. intros (raw & _ & [= <-])%bind_Ok. by exists raw. Qed.

Lemma digest_plain j fp : digest j = Ok fp → plain_text fp ∧ plain_text (drop 7 fp).
Proof.
  intros [raw ->]%digest_Ok. change (drop 7 (lit "sha256:" ++ sha256 raw)) with (sha256 raw).
  pose proof (plain_hex _ (sound_sha256 Hsound raw)). split; [plain_pieces|]; done.
Qed.

Lemma plain_text_ok s : plain_text s → text_ok s = true.
Proof.
  intros Hs. apply ascii_text. eapply Forall_impl; [exact Hs|]. intros c Hc.
  cbv beta in Hc. unfold plain_char, between in Hc. unfold printable. bool_hyps. lia.
Qed.

Lemma sealed_signer k doc env : seal k doc (signer self) = Ok env → fullmatch Identifier (signer_key_id (signer self)) = true.
Proof. by intros (_ & _ & _ & _ & input & (Hf & _)%signing_Ok & _)%seal_Ok. Qed.

Definition command_record (request : json) (path fingerprint : pystr) (actor : uuid) : json :=
  JObj [(lit "fingerprint", JStr fingerprint); (lit "desired_path", JStr path);
        (lit "actor_admin_id", JStr (uuid_str actor))].

Lemma fill_in_facts request doc now nonce doc' env :
  returns request → is_document doc → returns doc → Forall byte nonce →
  fill_in self request doc now nonce = Ok doc' → seal DESIRED doc' (signer self) = Ok env →
  returns doc' ∧ text doc' "nonce" = b64 nonce.
Proof.
  intros Hreq Hdoc Hr Hn (expires & _ & [= <-])%bind_Ok Hseal. apply sealed_signer in Hseal. split.
  - apply returns_merge; [done..|]. repeat apply Forall_cons_2; try apply Forall_nil_2; (split; [by vm_compute|]); simpl.
    + by constructor.
    + constructor. by apply b64_text.
    + constructor. apply isoformat_text.
    + constructor. apply isoformat_text.
    + constructor. by apply ascii_text, identifier_printable.
    + by apply returns_dot.
  - unfold text. by read_fields.
Qed.

Lemma issue_accepts cs l seen request doc now nonce doc' env fingerprint j actor :
  view self cs l seen → returns request → is_document doc → returns doc → Forall byte nonce →
  fill_in self request doc now nonce = Ok doc' → seal DESIRED doc' (signer self) = Ok env →
  identifier (dot request "command_id") = Ok tt → digest j = Ok fingerprint →
  accepts self cs seen
    [(desired_file self doc', env); (command_file request, command_record request (desired_file self doc') fingerprint actor)].
Proof.
  intros Hv Hreq Hdoc Hr Hn Hfill Hseal Hid Hfp.
  destruct (fill_in_facts _ _ _ _ _ _ Hreq Hdoc Hr Hn Hfill Hseal) as [Hr' Hnonce].
  destruct (sound_signer Hsound) as [key Hkey].
  assert (Hpath : desired_file self doc' = desired_path self (b64 nonce)) by (unfold desired_file; by rewrite Hnonce).
  assert (Hplain : plain_text (desired_file self doc')).
  { rewrite Hpath. unfold desired_path. pose proof (sound_deployment Hsound). plain_pieces; [done|by apply plain_b64]. }
  assert (Hcmd : fullmatch Identifier (text request "command_id") = true).
  { unfold identifier, _shape in Hid. apply ensure_Ok in Hid. unfold text. by destruct (dot request "command_id"). }
  assert (Henv : returns env ∧ ∃ kvs, env = JObj kvs).
  { pose proof (verify_sealed _ _ _ _ _ _ Hr' Hkey Hseal) as Hver. pose proof (sealed_document _ _ _ _ Hseal) as Hd.
    split; [by eapply envelope_returns|]. destruct Hd as (kvs & -> & _). by eexists. }
  assert (Hkind : kind_event (desired_file self doc') = DesiredEvent).
  { apply (kind_of_prefix _ "desired"); [done|]. apply starts_with_spec. by eexists. }
  eapply accepts_one; [exact Hv|..].
  - split.
    + apply NoDup_cons. split; [|apply NoDup_singleton]. intros Hin%list_elem_of_singleton. discriminate Hin.
    + apply Forall_cons_2; [|apply Forall_cons_2; [|apply Forall_nil_2]]; split.
      * by apply plain_lit_name.
      * rewrite Hpath. by apply is_json_app, is_json_app, is_json_cons, is_json_app.
      * apply plain_lit_name; [|done]. unfold command_file. cbn [fst]. plain_pieces. by apply plain_identifier.
      * by apply is_json_app, is_json_app.
    + apply Forall_cons_2; [|apply Forall_cons_2; [|apply Forall_nil_2]]; split; [apply Henv..| |by eexists].
      constructor; [by apply (bool_decide_unpack _); vm_compute|].
      repeat apply Forall_cons_2; try apply Forall_nil_2; (split; [by vm_compute|]); constructor.
      * by apply plain_text_ok, (digest_plain j).
      * by apply plain_text_ok.
      * apply uuid_text.
  - rewrite !filter_cons, filter_nil, decide_True, decide_False; [done| |].
    + unfold ruled. intros Hne. by apply Hne.
    + unfold ruled. cbn [fst]. by rewrite Hkind.
  - intros Hnew. rewrite Hpath in Hnew.
    assert (Hfresh : text doc' "nonce" ∉ (seen_desired seen).*1).
    { rewrite Hnonce. intros Hin%(view_named _ _ _ _ Hv). apply dict_get_None in Hnew. by apply Hnew. }
    destruct (desired_checks seen _ _ _ _ _ Hr' Hkey Hseal Hfresh) as (_ & _ & Hck).
    eexists. split; [rewrite check_event_kind, Hkind; exact Hck|]. split; [exact (view_challenges _ _ _ _ Hv)|].
    intros n. cbn [seen_desired]. rewrite dict_set_new by done. rewrite fmap_app, elem_of_app.
    cbn [fmap list_fmap fst]. rewrite list_elem_of_singleton. intros [Hin| ->]; [by left|right]. by rewrite Hnonce, Hpath.
Qed.

Section issuing.
Context (s : site) (l : list (pystr * json)) (seen : Seen) (Hv : view self (history s) l seen).
Context (Hu : untracked s = []).

Lemma safe_reissue previous fingerprint : safe self s (reissue previous fingerprint).
Proof.
  apply safe_keeps; [by exists l, seen|]. unfold reissue.
  repeat first [apply keeps_rebuild | apply keeps_site, keeps_read | apply keeps_site, keeps_pure
    | apply keeps_site, keeps_demand | apply keeps_bind; [|intros ?]].
Qed.

Lemma safe_issue_new request actor fingerprint j :
  returns request → identifier (dot request "command_id") = Ok tt → digest j = Ok fingerprint →
  safe self s (issue_new self request actor fingerprint).
Proof.
  intros Hreq Hid Hfp. assert (Hval : valid self (history s)) by (by exists l, seen). unfold issue_new.
  apply safe_pure; [done|]. intros doc Hcopy.
  assert (doc = dot request "desired" ∧ is_document doc) as [-> Hdoc].
  { pose proof (returns_dot request "desired" Hreq) as Hr. unfold copy in Hcopy.
    destruct (dot request "desired") as [| | | | | |kvs]; try done. injection Hcopy as <-. split; [done|].
    by eapply returns_document. }
  apply safe_pure; [done|]. intros _ _. apply safe_demand; [done|]. intros _.
  eapply safe_step; [done|apply reads_baseline|]. intros baseline _. apply safe_demand; [done|]. intros _.
  apply safe_clock, safe_token, safe_pure; [done|]. intros doc' Hfill. apply safe_pure; [done|]. intros _ _.
  apply safe_pure; [done|]. intros reader Hreader%of_option_Ok. apply safe_pure; [done|]. intros _ _.
  apply safe_call; [done|by eapply (sound_reader Hsound)|]. intros _. apply safe_pure; [done|]. intros env Hseal.
  eapply safe_record_then; [exact Hu|exact Hv| |apply keeps_ret].
  exact (issue_accepts _ _ _ _ _ _ _ _ _ _ _ _ Hv Hreq Hdoc (returns_dot _ _ Hreq) (sound_token Hsound _) Hfill Hseal Hid Hfp).
Qed.

Lemma quarantine_accepts key env doc code fp :
  dict_get (seen_keys seen) (text env "key_id") = Some key → is_text (dot key "state") "active" = true →
  is_document env → verify APPLIED env (text key "public_key_b64") = Ok doc → lit code ∈ QUARANTINE_CODES →
  digest env = Ok fp → accepts self (history s) seen [(quarantine_file fp, quarantine_event code env)].
Proof.
  intros Hg Hact Hdoc Hver Hcode Hfp.
  destruct (quarantine_checks _ _ _ _ _ _ Hg Hact Hdoc Hver Hcode Hfp) as (Hr & Ho & Hck).
  assert (Hkind : kind_event (quarantine_file fp) = QuarantineEvent).
  { apply (kind_of_prefix _ "quarantine"); [done|]. apply starts_with_spec. by eexists. }
  eapply accepts_one; [exact Hv|..].
  - split; [apply NoDup_singleton| |by constructor]. constructor; [|done]. cbn [fst]. split.
    + apply plain_lit_name; [|done]. unfold quarantine_file. plain_pieces. by apply (digest_plain env).
    + by apply is_json_app, is_json_app.
  - rewrite filter_cons, filter_nil, decide_True; [done|]. unfold ruled. cbn [fst]. by rewrite Hkind.
  - intros _. exists seen. split; [rewrite check_event_kind, Hkind; exact Hck|].
    split; [exact (view_challenges _ _ _ _ Hv)|]. intros n Hn. by left.
Qed.

Lemma safe_quarantine key env doc code :
  dict_get (seen_keys seen) (text env "key_id") = Some key → is_text (dot key "state") "active" = true →
  is_document env → verify APPLIED env (text key "public_key_b64") = Ok doc → lit code ∈ QUARANTINE_CODES →
  safe self s (quarantine self env code).
Proof.
  intros Hg Hact Hdoc Hver Hcode. unfold quarantine. apply safe_pure; [by exists l, seen|]. intros fp Hfp.
  eapply safe_record_then; [exact Hu|exact Hv| |apply keeps_ret].
  exact (quarantine_accepts _ _ _ _ _ Hg Hact Hdoc Hver Hcode Hfp).
Qed.

Lemma report_id_plain doc : validate_applied doc = Ok tt → plain_text (text doc "report_id").
Proof.
  unfold validate_applied. intros (_ & H)%bind_Ok_unit. apply bind_Ok_unit in H as (_ & H).
  apply bind_Ok in H as (? & _ & H). apply bind_Ok_unit in H as (Hu'%value_error_as_Ok & _).
  apply bind_Ok in Hu' as (u & _ & Hid%ensure_Ok). apply bool_decide_eq_true in Hid. unfold text. rewrite <- Hid.
  apply plain_uuid.
Qed.

(** Whether a nonce was reported on. *)
Lemma replay_scan nonce es (reports : list json) (found : bool) :
  mapM report_of es = Ok reports →
  foldl (λ (acc : res bool) e, found ← acc;
    if (found : bool) then Ok true
    else previous ← report_of e; Ok (bool_decide (text (dot previous "desired") "nonce" = nonce))) (Ok found) es =
  Ok (found || bool_decide (nonce ∈ nonce_of <$> reports)).
Proof.
  revert reports found. induction es as [|e es IH]; intros reports found.
  - intros [= <-]. by rewrite orb_false_r.
  - cbn [mapM]. intros (r & Hr & (rs & Hrs & [= <-])%bind_Ok)%bind_Ok. cbn [foldl mbind res_bind]. destruct found.
    + by rewrite (IH rs true Hrs).
    + rewrite Hr. cbn [mbind res_bind]. rewrite (IH rs _ Hrs). cbn [fmap list_fmap orb]. f_equal.
      rewrite (bool_decide_ext (nonce ∈ _ :: _) (nonce_of r = nonce ∨ nonce ∈ nonce_of <$> rs)), bool_decide_or; [done|].
      rewrite elem_of_cons. naive_solver.
Qed.

Lemma applied_accepts key env doc desired :
  dict_get (seen_keys seen) (text env "key_id") = Some key → is_text (dot key "state") "active" = true →
  is_document env → verify APPLIED env (text key "public_key_b64") = Ok doc →
  same (dot key "deployment_ref") (dot doc "deployment_ref") = true →
  dict_get (seen_desired seen) (nonce_of doc) = Some desired → nonce_of doc ∉ consumed seen →
  agrees_with desired (dot doc "desired") = true → (succeeded doc = true → _valid_success doc desired = true) →
  accepts self (history s) seen [(applied_file key doc, env)].
Proof.
  intros Hg Hact Hdoc Hver Hdep Hd Hn Hag Hsucc.
  destruct (applied_checks seen env key doc desired Hg Hact Hdoc Hver Hdep Hd Hn Hag Hsucc) as (Hr & Ho & Hck).
  assert (Hkind : kind_event (applied_file key doc) = AppliedEvent).
  { apply (kind_of_prefix _ "applied"); [done|]. apply starts_with_spec. by eexists. }
  destruct (known_key _ _ _ _ (view_keys_ok _ _ _ _ Hv) Hg) as (_ & _ & _ & Hkd & _).
  eapply accepts_one; [exact Hv|..].
  - split; [apply NoDup_singleton| |by constructor]. constructor; [|done]. cbn [fst]. split.
    + apply plain_lit_name; [|done]. unfold applied_file. rewrite Hkd. pose proof (sound_deployment Hsound).
      pose proof (report_id_plain _ (verified_valid _ _ _ Hver)). plain_pieces; done.
    + by apply is_json_app, is_json_app, is_json_cons, is_json_app.
  - rewrite filter_cons, filter_nil, decide_True; [done|]. unfold ruled. cbn [fst]. by rewrite Hkind.
  - intros _. eexists. split; [rewrite check_event_kind, Hkind; exact Hck|].
    split; [exact (view_challenges _ _ _ _ Hv)|]. intros n Hin. by left.
Qed.

Lemma safe_take_in key env doc :
  dict_get (seen_keys seen) (text env "key_id") = Some key → is_text (dot key "state") "active" = true →
  is_document env → verify APPLIED env (text key "public_key_b64") = Ok doc →
  same (dot key "deployment_ref") (dot doc "deployment_ref") = true →
  safe self s (take_in self env key doc).
Proof.
  intros Hg Hact Hdoc Hver Hdep. assert (Hval : valid self (history s)) by (by exists l, seen). unfold take_in.
  assert (Hq : ∀ code, lit code ∈ QUARANTINE_CODES → safe self s (quarantine self env code))
    by (intros; by eapply safe_quarantine).
  eapply safe_step; [done|apply reads_desired|]. intros issued Hi. fold (nonce_of doc).
  pose proof (desired_read _ _ _ _ Hv _ _ Hi) as Hissued.
  destruct (head _) as [[[path env'] desired]|] eqn:Hh; [|apply Hq; by apply (bool_decide_unpack _); vm_compute].
  apply head_Some_elem_of, list_elem_of_filter in Hh as [Hnonce Hin]. cbn [snd] in Hnonce.
  pose proof (Hissued _ Hin) as Hget. cbn [snd] in Hget. rewrite Hnonce in Hget.
  destruct (succeeded doc && negb (_valid_success doc desired)) eqn:Hsucc;
    [apply Hq; by apply (bool_decide_unpack _); vm_compute|].
  destruct (agrees_with desired (dot doc "desired")) eqn:Hag; cbn [negb];
    [|apply Hq; by apply (bool_decide_unpack _); vm_compute].
  eapply safe_step; [done|apply reads_kind|]. intros es He. eapply kind_read in He as ->; [|exact Hv].
  destruct (applied_view _ _ _ _ (view_checked _ _ _ _ Hv)) as (reports & Hrep & Hcons & _).
  apply safe_pure; [done|]. intros b Hb. rewrite (replay_scan _ _ _ _ Hrep) in Hb. injection Hb as <-. cbn [orb].
  case_bool_decide as Hreplay; [apply Hq; by apply (bool_decide_unpack _); vm_compute|].
  eapply safe_record_then; [exact Hu|exact Hv| |apply keeps_ret].
  eapply applied_accepts; try done.
  - by rewrite Hcons, elem_of_reverse.
  - intros Hs. rewrite Hs in Hsucc. cbn [andb] in Hsucc. by apply negb_false_iff in Hsucc.
Qed.
End issuing.

(** ** The operations *)

Lemma safe_issue_command s request actor :
  valid self (history s) → returns request → safe self s (issue_command self request actor).
Proof.
  intros Hval Hreq. unfold issue_command. apply safe_pure; [done|]. intros u _. apply safe_pure; [done|]. intros [] Hid.
  apply safe_pure; [done|]. intros fp Hfp. apply safe_transaction; [done|]. intros Hu.
  eapply safe_step; [done|apply reads_read|]. intros previous _. destruct Hval as (l & seen & Hv).
  destruct previous as [[|c previous]|]; [|by eapply safe_reissue|]; by eapply safe_issue_new.
Qed.

Lemma safe_issue s request actor :
  valid self (history s) → returns request → safe self s (issue self request actor).
Proof.
  intros Hval Hreq. unfold issue. destruct (is_text (dot request "mode") "preview"); [|by apply safe_issue_command].
  unfold preview. apply safe_pure; [done|]. intros u _. apply safe_transaction; [done|]. intros Hu.
  apply safe_pure; [done|]. intros doc _. apply safe_pure; [done|]. intros u' _. apply safe_demand; [done|]. intros _.
  eapply safe_step; [done|apply reads_baseline|]. intros baseline _. apply safe_pure; [done|]. intros d _.
  by apply safe_ret.
Qed.

Lemma safe_register s request actor :
  valid self (history s) → is_document request → safe self s (register self request actor).
Proof.
  intros Hval Hdoc. unfold register. destruct (is_text (dot request "operation") "revoke").
  - unfold revoke. apply safe_pure; [done|]. intros u _. apply safe_transaction; [done|]. intros Hu.
    destruct Hval as (l & seen & Hv). by eapply safe_revoke_body.
  - unfold enroll. apply safe_pure; [done|]. intros [] Hex. apply safe_pure; [done|]. intros [] Hid.
    apply safe_demand; [done|]. intros Hdep. apply safe_pure; [done|]. intros raw Hraw.
    apply safe_demand; [done|]. intros _. apply safe_transaction; [done|]. intros Hu.
    destruct Hval as (l & seen & Hv). apply bool_decide_eq_true in Hdep.
    destruct (dot request "public_key_b64") as [| | | |pub| |] eqn:Hpub; try done. simpl in Hraw.
    rewrite <- Hpub. eapply safe_enroll_body; try done. by eapply unb64_text.
Qed.

Lemma safe_challenge s key_id actor :
  valid self (history s) → safe self s (challenge self key_id actor).
Proof.
  intros Hval. unfold challenge. apply safe_transaction; [done|]. intros Hu. destruct Hval as (l & seen & Hv).
  by eapply safe_challenge_body.
Qed.

Lemma safe_activate s request actor :
  valid self (history s) → is_document (dot request "envelope") → prompt s (dot request "envelope") →
  safe self s (activate self request actor).
Proof.
  intros Hval Hdoc Hprompt. unfold activate. apply safe_pure; [done|]. intros u _. apply safe_transaction; [done|].
  intros Hu. destruct Hval as (l & seen & Hv). by eapply safe_activate_body.
Qed.

Lemma safe_ingest s env :
  valid self (history s) → is_document env → safe self s (ingest self env).
Proof.
  intros Hval Hdoc. unfold ingest. apply safe_transaction; [done|]. intros Hu. destruct Hval as (l & seen & Hv).
  assert (Hval : valid self (history s)) by (by exists l, seen). apply safe_pure; [done|]. intros u _.
  eapply safe_step; [done|apply reads_key_in|]. intros key Hk. eapply key_read in Hk as [Hg Hact]; [|exact Hv].
  apply safe_pure; [done|]. intros doc Hver. apply safe_pure; [done|]. intros u' _.
  destruct (same (dot key "deployment_ref") (dot doc "deployment_ref")) eqn:Hdep; cbn [negb];
    [|eapply safe_quarantine; try done; by apply (bool_decide_unpack _); vm_compute].
  eapply safe_step; [done|apply reads_read|]. intros prior _.
  destruct prior as [[|c prior]|]; [by eapply safe_take_in| |by eapply safe_take_in].
  apply safe_pure; [done|]. intros raw _. destruct (negb _);
    [eapply safe_quarantine; try done; by apply (bool_decide_unpack _); vm_compute|].
  apply safe_keeps; [done|]. apply keeps_bind; [apply keeps_rebuild|]. intros r. apply keeps_ret.
Qed.

Lemma safe_reads {A} s (m : proc hstate exn A) m' : valid self (history s) → reads m m' → safe self s m.
Proof. intros Hval [Hk _]. apply safe_keeps; [done|]. by apply keeps_site. Qed.

Lemma safe_latest s product environment host :
  valid self (history s) → safe self s (latest self product environment host).
Proof.
  intros Hval. unfold latest. apply safe_demand; [done|]. intros _. apply safe_transaction; [done|]. intros _.
  eapply safe_step; [done|apply reads_desired|]. intros docs _. by apply safe_ret.
Qed.

Lemma safe_drift s : valid self (history s) → safe self s (drift self).
Proof.
  intros Hval. unfold drift. apply safe_transaction; [done|]. intros _.
  eapply safe_step; [done|apply reads_desired|]. intros issued _.
  eapply safe_step; [done|apply reads_latest_report|]. intros latest _. by apply safe_ret.
Qed.

(** *** Gate evidence *)

Lemma plain_padded k n : plain_text (padded k n).
Proof.
  revert n. induction k as [|k IH]; intros n; [constructor|]. cbn [padded]. apply plain_app; [apply IH|].
  apply plain_cons; [|constructor]. pose proof (Z.mod_pos_bound n 10 ltac:(lia)).
  unfold plain_char, between. apply andb_true_iff. rewrite !Z.leb_le. lia.
Qed.

Lemma evidence_ids request b k :
  GateEvidence.validate request b = Ok tt → k ∈ ["run_id"; "command_id"]%string → plain_text (text request k).
Proof.
  unfold GateEvidence.validate. intros (raw & _ & H)%bind_Ok Hk. apply bind_Ok_unit in H as (_ & H).
  apply bind_Ok_unit in H as (Hs%ensure_Ok & H). cbv zeta in H. apply bind_Ok_unit in H as (_ & H).
  apply bind_Ok in H as (us & Hus & _).
  assert (Hc : canonical_uuid (dot request k) = Ok tt ∧ shape UUIDText_ (dot request k) = true).
  { apply mapM_Ok, Forall2_cons_inv_l in Hus as (u1 & us1 & Hrun & Hus & _).
    apply Forall2_cons_inv_l in Hus as (u2 & us2 & Hcmd & _).
    rewrite !elem_of_cons, elem_of_nil in Hk. destruct u1, u2, Hk as [->|[->|[]]]; (split; [done|]).
    - by eapply (shape_dot _ _ "run_id" UUIDText_ Hs).
    - by eapply (shape_dot _ _ "command_id" UUIDText_ Hs). }
  destruct Hc as [Hc Hsh]. unfold text. destruct (dot request k) as [| | | |s| |]; try done.
  simpl in Hc. apply bind_Ok in Hc as (u & _ & Hu%ensure_Ok). apply bool_decide_eq_true in Hu.
  injection Hu as <-. apply plain_uuid.
Qed.

Lemma evidence_object request b : GateEvidence.validate request b = Ok tt → ∃ kvs, request = JObj kvs.
Proof.
  unfold GateEvidence.validate. intros (raw & _ & H)%bind_Ok. apply bind_Ok_unit in H as (_ & H).
  apply bind_Ok_unit in H as (Hs%ensure_Ok & _). destruct request; try done. by eexists.
Qed.

Lemma canonical_read raw v : canonical raw → read_json raw = Ok v → returns v.
Proof.
  intros (u & kvs & Hu & Hr & ->). rewrite (read_json_dumps u kvs) by done. intros [= <-]. by apply returns_sorted.
Qed.

Lemma keeps_append_nothing led : keeps look (append_many led []).
Proof. by intros w. Qed.

Definition admission_record (fingerprint path : pystr) (actor : uuid) (scope : json) : json :=
  JObj [(lit "fingerprint", JStr fingerprint); (lit "actor_admin_id", JStr (uuid_str actor));
        (lit "evidence_path", JStr path); (lit "scope", scope)].

Lemma admit_accepts cs l seen request scope actor fingerprint path j b :
  view self cs l seen → returns request → returns scope → GateEvidence.validate request b = Ok tt →
  digest j = Ok fingerprint → evidence_path request = Ok path →
  accepts self cs seen [(path, request); (command_path request, admission_record fingerprint path actor scope)].
Proof.
  intros Hv Hr Hsc Hval Hfp Hpath.
  pose proof (evidence_ids _ _ "run_id" Hval ltac:(by left)) as Hrun.
  pose proof (evidence_ids _ _ "command_id" Hval ltac:(by right; left)) as Hcmd.
  pose proof (evidence_object _ _ Hval) as Hobj.
  unfold evidence_path in Hpath. apply bind_Ok in Hpath as (t & _ & [= <-]).
  set (path := GATE0 ++ date_text (m_date t) ++ 47 :: text request "run_id" ++ lit "/evidence.json").
  assert (Hplain : plain_text path).
  { unfold path, GATE0, date_text. plain_pieces; try apply plain_padded. done. }
  assert (Hcplain : plain_text (command_path request)).
  { unfold command_path, GATE0. plain_pieces. done. }
  assert (Hjson : is_json path = true).
  { assert (Hsplit : path = (GATE0 ++ date_text (m_date t) ++ 47 :: text request "run_id") ++ lit "/evidence.json")
      by (unfold path; by rewrite <- !app_assoc).
    rewrite Hsplit. generalize (GATE0 ++ date_text (m_date t) ++ 47 :: text request "run_id"). intros p.
    by apply is_json_app. }
  apply (accepts_unruled _ _ l); [done| |].
  - split.
    + apply NoDup_cons. split; [|apply NoDup_singleton]. intros Hin%list_elem_of_singleton.
      pose proof (f_equal (lookup 6%nat) Hin) as Hat.
      change (Some (48 + (year (m_date t) / 10 / 10 / 10) mod 10) = Some 99) in Hat. injection Hat as Hat.
      pose proof (Z.mod_pos_bound (year (m_date t) / 10 / 10 / 10) 10 ltac:(lia)). lia.
    + apply Forall_cons_2; [|apply Forall_cons_2; [|apply Forall_nil_2]]; split.
      * by apply plain_lit_name.
      * exact Hjson.
      * by apply plain_lit_name.
      * by apply is_json_app, is_json_app, is_json_app.
    + apply Forall_cons_2; [|apply Forall_cons_2; [|apply Forall_nil_2]]; split; [done..| |by eexists].
      constructor; [by apply (bool_decide_unpack _); vm_compute|].
      repeat apply Forall_cons_2; try apply Forall_nil_2; (split; [by vm_compute|]); try done; constructor.
      * by apply plain_text_ok, (digest_plain j).
      * apply uuid_text.
      * by apply plain_text_ok.
  - rewrite !filter_cons, filter_nil, !decide_False; [done|intros Hne; by apply Hne..].
Qed.

Lemma safe_admit s request actor :
  valid self (history s) → returns request → safe self s (admit_ self request actor).
Proof.
  intros Hval Hreq. unfold admit_. apply safe_pure; [done|]. intros [] Hev.
  apply safe_pure; [done|]. intros raw Hraw%of_option_Ok. apply safe_pure; [done|]. intros scope Hscope.
  pose proof (canonical_read _ _ (sound_scope Hsound _ Hraw) Hscope) as Hsc.
  apply safe_pure; [done|]. intros u _. apply safe_pure; [done|]. intros fp Hfp. apply safe_pure; [done|].
  intros path Hpath. apply safe_transaction; [done|]. intros Hu.
  apply safe_call; [done|apply keeps_validate_history|]. intros u'.
  eapply safe_step; [done|apply reads_read|]. intros previous _.
  apply (triple_bind _ _ _ (λ _ w, grown self (history s) (history (look w)))).
  - assert (Hnew : safe self s (admit_new self request scope actor fp path)).
    { unfold admit_new. eapply safe_step; [done|apply reads_read|]. intros existing _. apply safe_demand; [done|].
      intros _. apply safe_pure; [done|]. intros since _. apply safe_clock. apply safe_demand; [done|]. intros _.
      apply safe_pure; [done|]. intros deadline _. apply safe_demand; [done|]. intros _.
      apply safe_call; [done|apply keeps_verify_proofs|]. intros v. apply safe_call; [done|apply keeps_verify_prior|].
      intros v'. destruct Hval as (l & seen & Hv). eapply safe_record; [exact Hu|exact Hv|].
      exact (admit_accepts _ _ _ _ _ _ _ _ _ _ Hv Hreq Hsc Hev Hfp Hpath). }
    destruct previous as [[|c previous]|]; [exact Hnew| |exact Hnew].
    apply safe_pure; [done|]. intros command _. apply safe_pure; [done|]. intros f _.
    apply safe_keeps; [done|]. apply keeps_site, keeps_demand.
  - intros v. apply (triple_history (grown self (history s))). apply keeps_bind.
    { unfold _record. apply keeps_bind; [apply keeps_site, keeps_append_nothing|]. intros b.
      apply keeps_bind; [apply keeps_site, keeps_validate_history|]. intros v'.
      apply keeps_bind; [apply keeps_rebuild|]. intros r. apply keeps_ret. }
    intros v'. apply keeps_site. pose proof keeps_addition_commit. pose proof keeps_read.
    apply keeps_bind; [apply keeps_read|]. intros evidence. apply keeps_bind; [apply keeps_pure|]. intros expected.
    apply keeps_bind; [apply keeps_demand|]. intros v2. apply keeps_bind; [apply keeps_addition_commit|]. intros commit.
    apply keeps_bind; [apply keeps_pure|]. intros d. apply keeps_bind; [apply keeps_pure|]. intros b. apply keeps_ret.
Qed.
End operations.
