(* ===== verification/AgentOutcomes.v ===== *)
(** * Every operation ends, and what it has done then

    A call of the host comes to an end, so does every loop over what the ledger
    holds, and with them every operation of the service.  [gives s m Q]: where
    [m] returns from the site [s], its value and the history it leaves are in
    [Q]; with it, a command that was carried out is answered from the ledger
    ever after.  [judge] is the verdict on a report that the ledger's state
    calls for; [ingest] returns it and has recorded what goes with it. *)

From S2P Require Import Prelude PyText PyUuid Json JsonReader JsonRound PyDate PyTime Effects Contracts ContractsSafety Envelopes GateEvidence AgentLedger GateAdmission AgentProjection AgentService AgentHost AgentLedgerSafety AgentLog AgentRules AgentChecks AgentLife AgentSteps AgentKeys AgentOperations.

#[local] Open Scope Z_scope.

Section ends.
Context `{ORC : Oracles} `{HST : Host} `{LAW : !Lawful} `{CRY : Crypto} `{FL : Floats} `{UCD : UnicodeDB}.

Lemma ends_run_git c : ends (run_git c).
Proof. intros w. by destruct (calls_end w). Qed.
Lemma ends_make_parents p : ends (make_parents p).
Proof. intros w. by destruct (calls_end w) as (_ & ? & _). Qed.
Lemma ends_write_new p raw : ends (write_new p raw).
Proof. intros w. by destruct (calls_end w) as (_ & _ & ? & _). Qed.
Lemma ends_db_read : ends db_read.
Proof. intros w. by destruct (calls_end w) as (_ & _ & _ & ? & _). Qed.
Lemma ends_db_commit t : ends (db_commit t).
Proof. intros w. by destruct (calls_end w) as (_ & _ & _ & _ & ?). Qed.
Lemma ends_clock : ends clock.
Proof. intros w. destruct (clock w) as [o w'] eqn:H. by apply clock_done in H as [-> _]. Qed.
Lemma ends_token : ends token.
Proof. intros w. destruct (token w) as [o w'] eqn:H. by apply token_done in H as [-> _]. Qed.
Lemma ends_uuid : ends uuid4.
Proof. intros w. destruct (uuid4 w) as [o w'] eqn:H. by apply uuid_done in H as [-> _]. Qed.
Lemma ends_demand b code : ends (demand b code).
Proof. apply ends_require. Qed.
Lemma ends_pure {A} (m : res A) : ends (pure m).
Proof. by destruct m. Qed.
#[local] Hint Resolve ends_run_git ends_make_parents ends_write_new ends_db_read ends_db_commit ends_clock ends_token
  ends_uuid ends_demand ends_pure : ends.

Lemma ends_git c : ends (git c).
Proof. unfold git. ending. Qed.
#[local] Hint Resolve ends_git : ends.
Lemma ends_names c : ends (names c).
Proof. unfold names. ending. Qed.
Lemma ends_show n : ends (show n).
Proof. unfold show. ending. Qed.
#[local] Hint Resolve ends_names ends_show : ends.
Lemma ends_records p : ends (records p).
Proof. unfold records. ending. Qed.
#[local] Hint Resolve ends_records : ends.
Lemma ends_read n : ends (read n).
Proof. unfold read. ending. Qed.
Lemma ends_events : ends events.
Proof. unfold events. ending. Qed.
#[local] Hint Resolve ends_read ends_events : ends.

Lemma ends_pending values : ends (pending_of values).
Proof. induction values as [|[n v] values IH]; simpl; ending. Qed.
#[local] Hint Resolve ends_pending : ends.
Lemma ends_append led values : ends (append_many led values).
Proof. unfold append_many, os_error_as. ending. Qed.
Lemma ends_begin led : ends (begin led).
Proof. unfold begin, in_step. ending. Qed.
Lemma ends_rebuild : ends rebuild.
Proof. unfold rebuild. ending. Qed.
#[local] Hint Resolve ends_append ends_begin ends_rebuild : ends.

Lemma ends_addition_commit p : ends (addition_commit p).
Proof. unfold addition_commit. ending. Qed.
Lemma ends_present p code : ends (present p code).
Proof. unfold present. ending. Qed.
#[local] Hint Resolve ends_addition_commit ends_present : ends.

Context (self : Agent (HST := HST)).

Lemma ends_enrolled_key request before : ends (enrolled_key request before).
Proof. unfold enrolled_key. ending. Qed.
Lemma ends_report_reference request ref key scope before : ends (report_reference self request ref key scope before).
Proof. unfold report_reference, report_envelope, verified, retained_at. ending. Qed.
Lemma ends_receipt_at ref path before : ends (receipt_at ref path before).
Proof. unfold receipt_at. ending. Qed.
#[local] Hint Resolve ends_enrolled_key ends_report_reference ends_receipt_at : ends.
Lemma ends_verify_refusals request proof key scope before : ends (verify_refusals self request proof key scope before).
Proof. unfold verify_refusals, verify_refusal. ending. Qed.
Lemma ends_verify_transition request ref key scope passed before :
  ends (verify_transition self request ref key scope passed before).
Proof. unfold verify_transition. ending. Qed.
#[local] Hint Resolve ends_verify_refusals ends_verify_transition : ends.
Lemma ends_verify_proofs request scope before : ends (verify_proofs self request scope before).
Proof. unfold verify_proofs, verify_proof. ending. Qed.
Lemma ends_verify_prior request scope before : ends (verify_prior request scope before).
Proof. unfold verify_prior. ending. Qed.
#[local] Hint Resolve ends_verify_proofs ends_verify_prior : ends.
Lemma ends_gate_history : ends (gate_history self).
Proof. unfold gate_history, check_gate_event. ending. Qed.
#[local] Hint Resolve ends_gate_history : ends.
Lemma ends_validate_history : ends (validate_history self).
Proof. unfold validate_history. ending. Qed.
#[local] Hint Resolve ends_validate_history : ends.
Lemma ends_record values : ends (_record self values).
Proof. unfold _record. ending. Qed.
Lemma ends_kind k : ends (_events k).
Proof. unfold _events. ending. Qed.
#[local] Hint Resolve ends_record ends_kind : ends.
Lemma ends_keys : ends _keys.
Proof. unfold _keys. ending. Qed.
Lemma ends_desired ref : ends (_desired self ref).
Proof. unfold _desired. ending. Qed.
#[local] Hint Resolve ends_keys ends_desired : ends.
Lemma ends_latest_report ref b : ends (_latest_report self ref b).
Proof. unfold _latest_report. ending. Qed.
#[local] Hint Resolve ends_latest_report : ends.
Lemma ends_baseline ref : ends (_baseline self ref).
Proof. unfold _baseline. ending. Qed.
#[local] Hint Resolve ends_baseline : ends.

(** ** The operations *)

Context (Hreader : ∀ reader doc, candidate_reader self = Some reader → ends (reader doc)).

Lemma ends_transaction {A} (m : proc hstate exn A) : ends m → ends (transaction (ledger self) m).
Proof. unfold transaction. intros Hm. ending. Qed.

Lemma ends_pure_bind {A B} (m : res A) (f : A → proc hstate exn B) :
  (∀ a, m = Ok a → ends (f a)) → ends (pure m ≫= f).
Proof. intros Hf. destruct m as [a|e]; [by apply Hf|by intros w]. Qed.

Lemma ends_issue request actor : ends (issue self request actor).
Proof.
  assert (Hnew : ∀ fp, ends (issue_new self request actor fp)).
  { intros fp. unfold issue_new.
    repeat first [solve [auto 3 with ends nocore] | apply ends_pure_bind; intros ? ? | apply ends_bind; [|intros ?]].
    match goal with H : of_option (candidate_reader self) _ = Ok _ |- _ => apply of_option_Ok in H; by eapply Hreader end. }
  unfold issue, preview, issue_command, reissue, transaction. ending.
Qed.

Lemma ends_latest product environment host : ends (latest self product environment host).
Proof. unfold latest, transaction. ending. Qed.
Lemma ends_record_key id event : ends (record_key self id event).
Proof. unfold record_key. ending. Qed.
#[local] Hint Resolve ends_record_key : ends.
Lemma ends_register request actor : ends (register self request actor).
Proof. unfold register, revoke, enroll, transaction. ending. Qed.
Lemma ends_key_in state id : ends (key_in state id).
Proof. unfold key_in. ending. Qed.
#[local] Hint Resolve ends_key_in : ends.
Lemma ends_challenge key_id actor : ends (challenge self key_id actor).
Proof. unfold challenge, transaction. ending. Qed.
Lemma ends_activate request actor : ends (activate self request actor).
Proof. unfold activate, transaction. ending. Qed.
Lemma ends_quarantine env code : ends (quarantine self env code).
Proof. unfold quarantine. ending. Qed.
#[local] Hint Resolve ends_quarantine : ends.
Lemma ends_ingest env : ends (ingest self env).
Proof. unfold ingest, take_in, transaction. ending. Qed.
Lemma ends_drift : ends (drift self).
Proof. unfold drift, transaction. ending. Qed.
Lemma ends_admit request actor : ends (admit_ self request actor).
Proof. unfold admit_, admit_new, transaction. ending. Qed.
End ends.

Section outcomes.
Context `{ORC : Oracles} `{HST : Host} `{LAW : !Lawful} `{CRY : Crypto} `{FL : Floats} `{UCD : UnicodeDB}.
Context (self : Agent (HST := HST)) (Hsound : sound self).

Definition gives {A} (s : site) (m : proc hstate exn A) (Q : A → list commit → Prop) : Prop :=
  ∀ w a w', look w = s → m w = (Ret a, w') → Q a (history (look w')).

Lemma gives_weaken {A} s (m : proc hstate exn A) (Q Q' : A → list commit → Prop) :
  gives s m Q → (∀ a cs, Q a cs → Q' a cs) → gives s m Q'.
Proof. intros Hm HQ w a w' Hw Ha. by apply HQ, (Hm w a w'). Qed.

Lemma gives_step {A B} s (m : proc hstate exn A) m' (f : A → proc hstate exn B) Q :
  reads m m' → (∀ a, m' s = (Ret a, s) → gives s (f a) Q) → gives s (m ≫= f) Q.
Proof.
  intros [Hk Hs] Hf w b w' Hw (a & v & Ha & Hb)%bind_Ret. pose proof (keeps_out _ _ _ _ _ Hk Ha) as Hl.
  apply Hs in Ha. rewrite Hl, Hw in Ha. eapply Hf; [exact Ha| |exact Hb]. congruence.
Qed.
Lemma gives_demand {B} s b code (f : unit → proc hstate exn B) Q :
  (b = true → gives s (f tt) Q) → gives s (demand b code ≫= f) Q.
Proof. intros Hf. eapply gives_step; [apply reads_demand|]. intros [] [Hb _]%require_Ret. auto. Qed.
Lemma gives_pure {A B} s (m : res A) (f : A → proc hstate exn B) Q :
  (∀ a, m = Ok a → gives s (f a) Q) → gives s (pure m ≫= f) Q.
Proof.
  intros Hf. eapply gives_step; [apply reads_pure|]. intros a Ha. destruct m as [b|e]; [|done]. injection Ha as ->. auto.
Qed.
Lemma gives_call {A B} s (m : proc hstate exn A) (f : A → proc hstate exn B) Q :
  keeps look m → (∀ a, gives s (f a) Q) → gives s (m ≫= f) Q.
Proof.
  intros Hk Hf w b w' Hw (a & v & Ha & Hb)%bind_Ret. eapply (Hf a v); [|exact Hb].
  rewrite (keeps_out _ _ _ _ _ Hk Ha). exact Hw.
Qed.
Lemma gives_throw {A} s e Q : gives s (throw (A := A) e) Q.
Proof. by intros w a w'. Qed.
(** A last stretch that leaves the history alone. *)
Lemma gives_last {A B} s (m : proc hstate exn A) (f : A → proc hstate exn B) (Q : B → list commit → Prop) P :
  gives s m P → (∀ a, keeps (λ w, history (look w)) (f a)) →
  (∀ a w b w', f a w = (Ret b, w') → P a (history (look w)) → Q b (history (look w))) → gives s (m ≫= f) Q.
Proof.
  intros Hm Hf HQ w b w' Hw (a & v & Ha & Hb)%bind_Ret. pose proof (keeps_out _ _ _ _ _ (Hf a) Hb) as Hl.
  cbv beta in Hl. rewrite Hl. eapply HQ; [exact Hb|]. by eapply Hm.
Qed.
Lemma gives_keeps {A} s (m : proc hstate exn A) (Q : A → list commit → Prop) :
  keeps (λ w, history (look w)) m → (∀ w a w', look w = s → m w = (Ret a, w') → Q a (history s)) → gives s m Q.
Proof.
  intros Hk HQ w a w' Hw Ha. pose proof (keeps_out _ _ _ _ _ Hk Ha) as Hl. cbv beta in Hl. rewrite Hl, Hw.
  by eapply HQ.
Qed.
Lemma gives_tick {A B} s (m : proc hstate exn A) x (f : A → proc hstate exn B) Q :
  (∀ w o w', m w = (o, w') → o = Ret (x (ticks (look w))) ∧ look w' = ticked (look w)) →
  gives (ticked s) (f (x (ticks s))) Q → gives s (m ≫= f) Q.
Proof.
  intros Hm Hf w b w' Hw (a & v & Ha & Hb)%bind_Ret. apply Hm in Ha as [[= ->] Hl]. rewrite Hw in *.
  by eapply Hf.
Qed.
Lemma gives_transaction {A} s (m : proc hstate exn A) Q :
  (untracked s = [] → gives s m Q) → gives s (transaction (ledger self) m) Q.
Proof.
  intros Hm w b w' Hw (a & v & Ha & Hb)%bind_Ret. pose proof (keeps_out _ _ _ _ _ (keeps_begin _) Ha) as Hl.
  apply begin_clean in Ha. eapply Hm; [by rewrite <- Hw| |exact Hb]. congruence.
Qed.

(** ** Records that were written *)

Lemma file_grown cs cs' n raw : cs `prefix_of` cs' → file cs n = Some raw → file cs' n = Some raw.
Proof. intros [ds ->] Hf. unfold file, tree in *. rewrite bind_app, dict_get_app. by rewrite Hf. Qed.

(** A record that is there already is the one to be written. *)
Lemma pending_same values s pending n v old :
  tidy (history s) → appendable values → pending_of (HST := ideal) values s = (Ret pending, s) →
  (n, v) ∈ values → file (history s) n = Some old → old = dumps_compact v.
Proof.
  intros Ht [_ Hn _]. revert pending. induction Hn as [|[n' v'] values [_ Hj] Hn IH]; intros pending; simpl.
  { intros _ Hin. by apply elem_of_nil in Hin. }
  intros (u & s1 & [_ ->]%require_Ret & Hp)%bind_Ret. apply bind_Ret in Hp as (raw & s2 & Hraw & Hp).
  unfold canonical_json in Hraw. destruct (dumpable v'); [|done]. simpl in Hraw. injection Hraw as <- <-.
  apply bind_Ret in Hp as (old' & s3 & Hread & Hp). rewrite read_tidy in Hread by done. simpl in Hj. rewrite Hj in Hread.
  injection Hread as <- <-. intros Hin Hf. apply elem_of_cons in Hin as [[= -> ->]|Hin].
  - rewrite Hf in Hp. apply bind_Ret in Hp as (? & ? & [Hold%bool_decide_eq_true _]%require_Ret & _). done.
  - destruct (file (history s) n') as [old'|].
    + apply bind_Ret in Hp as (? & ? & [_ ->]%require_Ret & Hp). by eapply IH.
    + apply bind_Ret in Hp as (rest & s4 & Hrest & [= _ ->]). by eapply IH.
Qed.

Lemma appended_some led s pending :
  pending ≠ [] → history (appended led s pending) = history s ++ [batch_commit s pending].
Proof. by destruct pending. Qed.

Lemma appended_files led s values pending n v :
  tidy (history s) → appendable values → pending_of (HST := ideal) values s = (Ret pending, s) →
  (n, v) ∈ values → file (history (appended led s pending)) n = Some (dumps_compact v).
Proof.
  intros Ht Ha Hp Hin. pose proof (pending_tidy _ _ _ Ht Ha Hp) as Hpe.
  destruct (file (history s) n) as [old|] eqn:Hf.
  - pose proof (pending_same _ _ _ _ _ _ Ht Ha Hp Hin Hf) as ->. apply (file_grown (history s)); [|done].
    unfold appended. destruct pending; [done|]. by apply prefix_app_r.
  - assert (Hfresh : (n, dumps_compact v) ∈ pending).
    { rewrite Hpe. apply list_elem_of_fmap. exists (n, v). split; [done|]. by apply list_elem_of_filter. }
    rewrite appended_some by (intros ->; by apply elem_of_nil in Hfresh).
    unfold file, tree in *. rewrite bind_app, dict_get_app, Hf, bind_singleton. unfold batch_commit. cbn [commit_files].
    apply dict_get_NoDup; [|by rewrite sort_by_perm].
    rewrite sort_by_perm, Hpe. change (on_value dumps_compact <$> ?k) with (map (on_value dumps_compact) k).
    rewrite keys_value. eapply sublist_NoDup; [exact (values_once _ Ha)|]. apply fmap_sublist, sublist_filter.
Qed.

Lemma gives_record s values :
  untracked s = [] →
  gives s (_record self values) (λ _ cs, ∃ pending,
    pending_of (HST := ideal) values s = (Ret pending, s) ∧ cs = history (appended (ledger self) s pending)).
Proof.
  intros Hu. unfold _record. eapply (gives_last _ _ _ _ (λ _ cs, ∃ pending,
    pending_of (HST := ideal) values s = (Ret pending, s) ∧ cs = history (appended (ledger self) s pending))).
  - intros w a w' Hw Ha. pose proof (append_triple (ledger self) values s Hu w Hw) as Ht. rewrite Ha in Ht.
    destruct Ht as (pending & Hp & -> & _). by exists pending.
  - intros b. apply keeps_bind; [apply keeps_site, keeps_validate_history|]. intros v.
    apply keeps_bind; [apply keeps_rebuild|]. intros r. apply keeps_ret.
  - intros a w b w' _ Hq. exact Hq.
Qed.

(** ** Commands *)

(** What the ledger answers a command with. *)
Definition answered (cs : list commit) (request : json) (fingerprint : pystr) (env : json) : Prop :=
  ∃ raw command path envelope doc,
    file cs (command_file request) = Some raw ∧ raw ≠ [] ∧ read_json raw = Ok command ∧
    item command "fingerprint" = Ok (JStr fingerprint) ∧ item command "desired_path" = Ok (JStr path) ∧
    is_json path = true ∧ file cs path = Some envelope ∧ read_json envelope = Ok doc ∧
    sorted_json doc = sorted_json env.

Lemma answered_grown cs cs' request fp env : cs `prefix_of` cs' → answered cs request fp env → answered cs' request fp env.
Proof.
  intros Hp (raw & command & path & envelope & doc & Hf & Hne & Hr & Hfp & Hpath & Hj & He & Hdoc & Hs).
  exists raw, command, path, envelope, doc. split_and!; try done; by eapply file_grown.
Qed.

Lemma command_is_json request : is_json (command_file request) = true.
Proof. by apply is_json_app, is_json_app. Qed.

Lemma gives_reissue s raw request fp :
  tidy (history s) → file (history s) (command_file request) = Some raw → raw ≠ [] →
  gives s (reissue raw fp) (λ env cs, cs = history s ∧ answered cs request fp env).
Proof.
  intros Ht Hf Hne. apply gives_keeps.
  { unfold reissue.
    repeat first [apply keeps_rebuild | apply keeps_site, keeps_read | apply keeps_site, keeps_pure
      | apply keeps_site, keeps_demand | apply keeps_bind; [|intros ?]]. }
  intros w env w' Hw Ha. split; [done|]. unfold reissue in Ha.
  apply bind_Ret in Ha as (command & v1 & Hcmd & Ha). destruct (read_json raw) as [cmd|] eqn:Hread; [|done].
  injection Hcmd as <- <-. apply bind_Ret in Ha as (f & v2 & Hfp & Ha).
  destruct (item cmd "fingerprint") as [f'|] eqn:Hi; [|done]. injection Hfp as <- <-.
  apply bind_Ret in Ha as (u & v3 & [Heq%bool_decide_eq_true ->]%require_Ret & Ha). subst f'.
  apply bind_Ret in Ha as (r & v4 & Hreb & Ha). pose proof (keeps_out _ _ _ _ _ keeps_rebuild Hreb) as Hk. cbv beta in Hk.
  apply bind_Ret in Ha as (path & v5 & Hpath & Ha). destruct (item cmd "desired_path") as [p|] eqn:Hip; [|done].
  injection Hpath as <- <-. apply bind_Ret in Ha as (envelope & v6 & Hrd & Ha).
  apply (proj2 (reads_read _)) in Hrd. rewrite read_tidy in Hrd by (by rewrite Hk, Hw). injection Hrd as Henv _.
  rewrite Hk, Hw in Henv. destruct (read_json (default [] envelope)) as [doc|] eqn:Hdoc; [|done]. injection Ha as <- <-.
  assert (Hsome : ∃ e, envelope = Some e) by (destruct envelope; [eauto|done]). destruct Hsome as [e ->].
  destruct (is_json (str_of p)) eqn:Hj; [|done]. exists raw, cmd, (str_of p), e, doc. split_and!; try done.
  destruct p; try done. all: by vm_compute in Hj.
Qed.

Lemma gives_issue_new s l seen request actor fp j :
  view self (history s) l seen → untracked s = [] →
  returns request → identifier (dot request "command_id") = Ok tt → digest j = Ok fp →
  gives s (issue_new self request actor fp) (λ env cs, answered cs request fp env).
Proof.
  intros Hv Hu Hreq Hid Hfp. unfold issue_new. apply gives_pure. intros doc Hcopy.
  assert (doc = dot request "desired" ∧ is_document doc) as [-> Hdoc].
  { pose proof (returns_dot request "desired" Hreq) as Hr. unfold copy in Hcopy.
    destruct (dot request "desired") as [| | | | | |kvs]; try done. injection Hcopy as <-. split; [done|].
    by eapply returns_document. }
  apply gives_pure. intros _ _. apply gives_demand. intros _.
  eapply gives_step; [apply reads_baseline|]. intros baseline _. apply gives_demand. intros _.
  eapply gives_tick; [apply clock_done|]. eapply gives_tick; [apply token_done|]. apply gives_pure. intros doc' Hfill.
  apply gives_pure. intros _ _. apply gives_pure. intros reader Hreader%of_option_Ok. apply gives_pure. intros _ _.
  apply gives_call; [by eapply (sound_reader Hsound)|]. intros _. apply gives_pure. intros env Hseal.
  pose proof (issue_accepts _ Hsound _ _ _ _ _ _ _ _ _ _ _ actor Hv Hreq Hdoc (returns_dot _ _ Hreq) (sound_token Hsound _)
    Hfill Hseal Hid Hfp) as Hacc. destruct Hacc as [Hfits _].
  eapply gives_last; [by apply gives_record|intros ?; apply keeps_ret|].
  intros _ w env' w' [= <- _] (pending & Hp & Hcs). rewrite Hcs.
  pose proof (appended_files (ledger self) (ticked (ticked s)) _ _ (desired_file self doc') env (view_tidy _ _ _ _ Hv) Hfits Hp
    ltac:(by left)) as Hf1.
  pose proof (appended_files (ledger self) (ticked (ticked s)) _ _ (command_file request) _ (view_tidy _ _ _ _ Hv) Hfits Hp
    ltac:(by right; left)) as Hf2.
  pose proof (values_return _ Hfits) as Hret. apply Forall_cons in Hret as [[Hr1 [kvs1 Ho1]] Hret].
  apply Forall_cons in Hret as [[Hr2 [kvs2 Ho2]] _]. cbn [snd] in *.
  pose proof (values_named _ Hfits) as Hnm. apply Forall_cons in Hnm as [[_ Hj] _]. cbn [fst] in Hj.
  eexists _, _, (desired_file self doc'), _, _. split_and!; [exact Hf2|by apply dumps_nonempty|by eapply read_json_dumps| | | |
    exact Hf1|by eapply read_json_dumps|by apply sorted_json_idem].
  - by rewrite item_sorted by done.
  - by rewrite item_sorted by done.
  - exact Hj.
Qed.

Lemma gives_issue_command s request actor :
  valid self (history s) → returns request →
  gives s (issue_command self request actor) (λ env cs, ∃ fp,
    fingerprint_of request actor = Ok fp ∧ answered cs request fp env).
Proof.
  intros (l & seen & Hv) Hreq. unfold issue_command. apply gives_pure. intros u _. apply gives_pure. intros [] Hid.
  apply gives_pure. intros fp Hfp. apply gives_transaction. intros Hu.
  eapply gives_step; [apply reads_read|]. intros previous Hp. rewrite read_tidy, command_is_json in Hp by apply Hv.
  injection Hp as <-. destruct (file (history s) (command_file request)) as [[|c raw]|] eqn:Hf.
  - eapply gives_weaken; [by eapply gives_issue_new|]. intros env cs Ha. by exists fp.
  - eapply gives_weaken; [by eapply gives_reissue; [apply Hv|exact Hf|]|]. intros env cs [_ Ha]. by exists fp.
  - eapply gives_weaken; [by eapply gives_issue_new|]. intros env cs Ha. by exists fp.
Qed.

(** A command that is on file is answered from there, or refused. *)
Lemma gives_answered s request actor fp env request' :
  tidy (history s) → answered (history s) request fp env → command_file request' = command_file request →
  gives s (issue_command self request' actor) (λ env' cs,
    cs = history s ∧ sorted_json env' = sorted_json env ∧ fingerprint_of request' actor = Ok fp).
Proof.
  intros Ht Ha Hsame. unfold issue_command. apply gives_pure. intros u _. apply gives_pure. intros [] Hid.
  apply gives_pure. intros fp' Hfp. apply gives_transaction. intros Hu.
  eapply gives_step; [apply reads_read|]. intros previous Hp. rewrite read_tidy, command_is_json in Hp by done.
  injection Hp as <-. destruct Ha as (raw & cmd & path & envelope & doc & Hf & Hne & Hr & Hfpi & Hpath & Hj & He & Hdoc & Hs).
  rewrite Hsame, Hf. destruct raw as [|c raw]; [done|].
  eapply gives_weaken; [eapply (gives_reissue _ _ request'); [exact Ht|by rewrite Hsame|done]|].
  intros env' cs [-> (raw' & cmd' & path' & envelope' & doc' & Hf' & _ & Hr' & Hfpi' & Hpath' & _ & He' & Hdoc' & Hs')].
  rewrite Hsame, Hf in Hf'. injection Hf' as <-. rewrite Hr in Hr'. injection Hr' as <-.
  rewrite Hfpi in Hfpi'. injection Hfpi' as <-. rewrite Hpath in Hpath'. injection Hpath' as <-.
  rewrite He in He'. injection He' as <-. rewrite Hdoc in Hdoc'. injection Hdoc' as <-. split_and!; [done|congruence|done].
Qed.
End outcomes.

(** The verdict on a report that [key] signed. *)
Definition judge (cs : list commit) (seen : Seen) (env key doc : json) : verdict :=
  let ref := text key "deployment_ref" in
  if negb (same (dot key "deployment_ref") (dot doc "deployment_ref")) then quarantined "deployment_mismatch"
  else match file cs (applied_file key doc) with
  | Some prior =>
      if bool_decide (prior = dumps_compact env) then idempotent_replay else quarantined "report_reused"
  | None =>
      match dict_get (seen_desired seen) (nonce_of doc) with
      | Some desired =>
          if negb (bool_decide (text desired "deployment_ref" = ref)) then quarantined "desired_unknown"
          else if succeeded doc && negb (_valid_success doc desired) then quarantined "observed_mismatch"
          else if negb (agrees_with desired (dot doc "desired")) then quarantined "desired_mismatch"
          else if bool_decide (nonce_of doc ∈ consumed seen) then quarantined "nonce_replay"
          else accepted
      | None => quarantined "desired_unknown"
      end
  end.

Section verdicts.
Context `{ORC : Oracles} `{HST : Host} `{LAW : !Lawful} `{CRY : Crypto} `{FL : Floats} `{UCD : UnicodeDB}.
Context (self : Agent (HST := HST)) (Hsound : sound self).

(** What goes with a verdict. *)
Definition consequence (cs cs' : list commit) (env key doc : json) (v : verdict) : Prop :=
  match v with
  | accepted => ∃ id, cs' = cs ++ [Commit id [(applied_file key doc, dumps_compact env)]]
  | idempotent_replay => cs' = cs
  | quarantined code => ∃ fp, digest env = Ok fp ∧
      file cs' (quarantine_file fp) = Some (dumps_compact (quarantine_event code env))
  end.

Lemma file_nonempty cs n raw : tidy cs → is_json n = true → file cs n = Some raw → raw ≠ [].
Proof.
  intros [_ _ _ Hcan] Hj Hf%dict_get_Some. rewrite Forall_forall in Hcan.
  destruct (Hcan _ Hf Hj) as (v & kvs & _ & Hr & Heq). simpl in Heq. subst. by apply dumps_nonempty.
Qed.

Section at_site.
Context (s : site) (l : list (pystr * json)) (seen : Seen) (Hv : view self (history s) l seen).
Context (Hu : untracked s = []).

(** The desired state of a nonce, among those for a deployment. *)
Lemma desired_pick ref nonce issued :
  _desired (idealized self) (Some ref) s = (Ret issued, s) →
  snd <$> head (filter (λ d : pystr * json * json, text d.2 "nonce" = nonce) issued) =
  match dict_get (seen_desired seen) nonce with
  | Some d => if bool_decide (text d "deployment_ref" = ref) then Some d else None
  | None => None
  end.
Proof.
  intros Hd. destruct (desired_view _ _ _ _ (view_checked _ _ _ _ Hv)) as (docs & Hdocs & Hs & Hn).
  assert (issued = filter (λ d : pystr * json * json, bool_decide (text d.2 "deployment_ref" = ref) = true) docs) as ->.
  { unfold _desired in Hd. apply bind_Ret in Hd as (all & v & Ha & Hk).
    assert (v = s) as -> by (pose proof (keeps_out _ _ _ _ _ (proj1 (reads_kind (HST := ideal) "desired")) Ha) as H; exact H).
    eapply kind_read in Ha; [|exact Hv]. subst all. unfold desired_of in Hk.
    change (λ e : pystr * json, doc ← verify DESIRED e.2 (public_key_b64 (idealized self));
      validate_desired doc None None None;; Ok (e.1, e.2, doc)) with (desired_doc (public_key_b64 self)) in Hk.
    rewrite Hdocs in Hk. by injection Hk as <-. }
  rewrite Hs in Hn. rewrite Hs. clear - Hn. induction docs as [|d docs IH]; [done|].
  cbn [fmap list_fmap] in *. rewrite NoDup_cons in Hn. destruct Hn as [Hnew Hn]. cbn [fst] in Hnew.
  assert (Hrest : text d.2 "nonce" = nonce →
    filter (λ d0 : pystr * json * json, text d0.2 "nonce" = nonce)
      (filter (λ d0 : pystr * json * json, bool_decide (text d0.2 "deployment_ref" = ref) = true) docs) = []).
  { intros Heq. apply filter_none. intros d' [_ Hd']%list_elem_of_filter Hn'. apply Hnew. rewrite Heq, <- Hn'.
    apply list_elem_of_fmap. exists (text d'.2 "nonce", d'.2). split; [done|]. apply list_elem_of_fmap. by exists d'. }
  rewrite filter_cons. cbn [dict_get]. destruct (decide (bool_decide (text d.2 "deployment_ref" = ref) = true)) as [Hr|Hr].
  - rewrite filter_cons. destruct (decide (text d.2 "nonce" = nonce)) as [Heq|Hne].
    + rewrite bool_decide_true by done. rewrite Hr. done.
    + rewrite bool_decide_false by done. by apply IH.
  - destruct (decide (text d.2 "nonce" = nonce)) as [Heq|Hne].
    + rewrite Hrest, bool_decide_true by done. by rewrite (not_true_is_false _ Hr).
    + rewrite bool_decide_false by done. by apply IH.
Qed.

Lemma gives_quarantine key env doc code :
  dict_get (seen_keys seen) (text env "key_id") = Some key → is_text (dot key "state") "active" = true →
  is_document env → verify APPLIED env (text key "public_key_b64") = Ok doc → lit code ∈ QUARANTINE_CODES →
  gives s (quarantine self env code) (λ v cs, v = quarantined code ∧ consequence (history s) cs env key doc v).
Proof.
  intros Hg Hact Hdoc Hver Hcode. unfold quarantine. apply gives_pure. intros fp Hfp.
  eapply gives_last; [by apply gives_record|intros ?; apply keeps_ret|].
  intros _ w v w' [= <- _] (pending & Hp & Hcs). split; [done|]. exists fp. split; [done|]. rewrite Hcs.
  eapply appended_files; [apply Hv| |exact Hp|by left].
  apply (accepts_fits _ _ _ _ (quarantine_accepts self Hsound s l seen Hv key env doc code fp Hg Hact Hdoc Hver Hcode Hfp)).
Qed.
Lemma codes_known code :
  code ∈ ["deployment_mismatch"; "report_reused"; "desired_unknown"; "observed_mismatch"; "desired_mismatch"; "nonce_replay"]%string →
  lit code ∈ QUARANTINE_CODES.
Proof. intros Hin. unfold QUARANTINE_CODES. by apply list_elem_of_fmap_2. Qed.

(** A report under a name that is not taken. *)
Lemma gives_take_in key env doc :
  dict_get (seen_keys seen) (text env "key_id") = Some key → is_text (dot key "state") "active" = true →
  is_document env → verify APPLIED env (text key "public_key_b64") = Ok doc →
  same (dot key "deployment_ref") (dot doc "deployment_ref") = true → file (history s) (applied_file key doc) = None →
  gives s (take_in self env key doc)
    (λ v cs, v = judge (history s) seen env key doc ∧ consequence (history s) cs env key doc v).
Proof.
  intros Hg Hact Hdoc Hver Hdep Hnew. unfold take_in, judge. rewrite Hdep, Hnew. cbn [negb].
  assert (Hq : ∀ code, code ∈ ["deployment_mismatch"; "report_reused"; "desired_unknown"; "observed_mismatch";
      "desired_mismatch"; "nonce_replay"]%string →
    gives s (quarantine self env code)
      (λ v cs, v = quarantined code ∧ consequence (history s) cs env key doc v)).
  { intros code Hc. by apply gives_quarantine, codes_known. }
  eapply gives_step; [apply reads_desired|]. intros issued Hi. fold (nonce_of doc).
  pose proof (desired_pick _ (nonce_of doc) _ Hi) as Hpick. revert Hpick.
  destruct (head _) as [[[path env'] desired]|]; cbn [fmap option_fmap option_map snd]; intros Hpick.
  2: { destruct (dict_get (seen_desired seen) (nonce_of doc)) as [d|]; [|apply Hq; in_names].
       destruct (bool_decide (text d "deployment_ref" = text key "deployment_ref")); [done|]. apply Hq; in_names. }
  destruct (dict_get (seen_desired seen) (nonce_of doc)) as [d|] eqn:Hget; [|done].
  destruct (bool_decide (text d "deployment_ref" = text key "deployment_ref")); [|done]. injection Hpick as <-. cbn [negb].
  destruct (succeeded doc && negb (_valid_success doc desired)) eqn:Hsucc; [apply Hq; in_names|].
  destruct (agrees_with desired (dot doc "desired")) eqn:Hag; cbn [negb]; [|apply Hq; in_names].
  eapply gives_step; [apply reads_kind|]. intros es He. eapply kind_read in He; [|exact Hv]. subst es.
  destruct (applied_view _ _ _ _ (view_checked _ _ _ _ Hv)) as (reports & Hrep & Hcons & _).
  apply gives_pure. intros b Hb. rewrite (replay_scan _ _ _ _ Hrep) in Hb. injection Hb as <-. cbn [orb].
  rewrite (bool_decide_ext (nonce_of doc ∈ consumed seen) (nonce_of doc ∈ nonce_of <$> reports))
    by (by rewrite Hcons, elem_of_reverse).
  case_bool_decide as Hreplay; [apply Hq; in_names|].
  eapply gives_last; [by apply gives_record|intros ?; apply keeps_ret|].
  intros _ w v w' [= <- _] (pending & Hp & Hcs). split; [done|].
  assert (Hacc : accepts self (history s) seen [(applied_file key doc, env)]).
  { eapply applied_accepts; try done.
    - by rewrite Hcons, elem_of_reverse.
    - intros Hs. rewrite Hs in Hsucc. cbn [andb] in Hsucc. by apply negb_false_iff in Hsucc. }
  apply (pending_tidy _ _ _ (view_tidy _ _ _ _ Hv) (accepts_fits _ _ _ _ Hacc)) in Hp. unfold fresh in Hp.
  rewrite filter_cons, filter_nil, decide_True in Hp by done. subst pending. rewrite Hcs. by eexists.
Qed.
End at_site.

Lemma gives_ingest s env :
  valid self (history s) → is_document env →
  gives s (ingest self env) (λ v cs, ∃ l seen key doc,
    view self (history s) l seen ∧ dict_get (seen_keys seen) (text env "key_id") = Some key ∧
    is_text (dot key "state") "active" = true ∧ verify APPLIED env (text key "public_key_b64") = Ok doc ∧
    v = judge (history s) seen env key doc ∧ consequence (history s) cs env key doc v).
Proof.
  intros (l & seen & Hv) Hdoc. unfold ingest. apply gives_transaction. intros Hu. apply gives_pure. intros u _.
  eapply gives_step; [apply reads_key_in|]. intros key Hk. eapply key_read in Hk as [Hg Hact]; [|exact Hv].
  apply gives_pure. intros doc Hver. apply gives_pure. intros u' _.
  assert (Hall : ∀ m, gives s m (λ v cs, v = judge (history s) seen env key doc ∧
      consequence (history s) cs env key doc v) → gives s m (λ v cs, ∃ l seen key doc,
    view self (history s) l seen ∧ dict_get (seen_keys seen) (text env "key_id") = Some key ∧
    is_text (dot key "state") "active" = true ∧ verify APPLIED env (text key "public_key_b64") = Ok doc ∧
    v = judge (history s) seen env key doc ∧ consequence (history s) cs env key doc v)).
  { intros m Hm. eapply gives_weaken; [exact Hm|]. intros v cs [??]. by exists l, seen, key, doc. }
  apply Hall. clear Hall.
  destruct (same (dot key "deployment_ref") (dot doc "deployment_ref")) eqn:Hdep; cbn [negb].
  2: { unfold judge. rewrite Hdep. eapply gives_quarantine; try done. apply codes_known; in_names. }
  eapply gives_step; [apply reads_read|]. intros prior Hp.
  assert (Hj : is_json (applied_file key doc) = true) by (by apply is_json_app, is_json_app, is_json_cons, is_json_app).
  rewrite read_tidy, Hj in Hp by apply Hv. injection Hp as <-.
  destruct (file (history s) (applied_file key doc)) as [[|c prior]|] eqn:Hf.
  - by apply (file_nonempty _ _ _ (view_tidy _ _ _ _ Hv) Hj) in Hf.
  - apply gives_pure. intros raw Hraw. unfold canonical_json in Hraw. destruct (dumpable env); [|done].
    injection Hraw as <-. unfold judge. rewrite Hdep, Hf. cbn [negb].
    destruct (bool_decide (c :: prior = dumps_compact env)); cbn [negb].
    + apply gives_keeps.
      * apply keeps_bind; [apply keeps_rebuild|]. intros r. apply keeps_ret.
      * by intros w v w' _ (r & w1 & _ & [= <- _])%bind_Ret.
    + eapply gives_quarantine; try done. apply codes_known; in_names.
  - by eapply gives_take_in.
Qed.
End verdicts.
