(* ===== verification/AgentRepair.v ===== *)
(** * The projection is repaired

    Tables that were made from a part of the log, as they are when the process
    died between a commit and the database's, are brought to what they would be
    if they were made from the whole log. *)

From S2P Require Import Prelude PyText PyUuid PyDate PyTime Json JsonReader JsonRound Effects Contracts ContractsSafety Envelopes AgentLedger GateEvidence GateAdmission AgentProjection AgentService AgentHost AgentLedgerSafety AgentLog AgentRules AgentLife AgentSteps.

#[local] Open Scope Z_scope.

Definition no_tables : tables := Tables [] [] [].

Section fold.
Context {A : Type} (f : tables → A → res tables).

Lemma fold_raise l e : foldl (λ acc x, t ← acc; f t x) (Raise e) l = Raise e.
Proof. by induction l. Qed.
Lemma fold_cons t x l : fold f t (x :: l) = t' ← f t x; fold f t' l.
Proof. unfold fold. cbn [foldl mbind res_bind]. destruct (f t x); [done|]. apply fold_raise. Qed.
Lemma fold_app t l k : fold f t (l ++ k) = t' ← fold f t l; fold f t' k.
Proof.
  revert t. induction l as [|x l IH]; intros t; [done|]. rewrite <- app_comm_cons, !fold_cons.
  destruct (f t x) as [t'|]; [|done]. apply IH.
Qed.
End fold.

Section repair.
Context `{CRY : Crypto} `{FL : Floats} `{UCD : UnicodeDB}.

(** ** Rows of events *)

(** A row is what [project] made of an event. *)
Definition row_for (e : pystr * json) (row : ReceiptRow) : Prop :=
  r_path row = e.1 ∧ r_kind row = kind_of e.1 ∧ r_envelope row = e.2 ∧ digest e.2 = Ok (r_fingerprint row) ∧
  facts (kind_of e.1) e.2 = Ok (r_deployment_ref row, r_report_id row, r_nonce row).

Lemma digest_nonempty j fp : digest j = Ok fp → ∃ c cs, fp = c :: cs.
Proof. unfold digest. intros (raw & _ & [= <-])%bind_Ok. eexists _, _. reflexivity. Qed.

(** A new event gets a row, and the audit an entry. *)
Lemma project_new t e t' :
  e.1 ∉ r_path <$> receipts t → project t e = Ok t' →
  ∃ row a, row_for e row ∧ t' = Tables (receipts t ++ [row]) (host_keys t) (audit t ++ [a]) ∧
    ∀ t2, receipts t2 = receipts t → project t2 e = Ok (Tables (receipts t ++ [row]) (host_keys t2) (audit t2 ++ [a])).
Proof.
  destruct e as [path value]. simpl. intros Hnew (fp & Hfp & H)%bind_Ok.
  assert (Hnone : filter (λ r, r_path r = path) (receipts t) = []).
  { apply filter_none. intros r Hr Heq. apply Hnew. rewrite <- Heq. by apply list_elem_of_fmap_2. }
  rewrite Hnone in H. simpl in H. apply bind_Ok in H as ([[ref report] nonce] & Hf & H).
  apply bind_Ok in H as (actor & Ha & H). apply bind_Ok_unit in H as (Hc%ensure_Ok & [= <-]).
  exists {| r_path := path; r_kind := kind_of path; r_deployment_ref := ref; r_report_id := report; r_nonce := nonce;
            r_fingerprint := fp; r_envelope := value |}. eexists.
  split; [unfold row_for; by split_and!|]. split; [done|]. intros t2 Ht2. rewrite Ht2, Hfp. cbn [mbind res_bind].
  rewrite Hnone. simpl. rewrite Hf. cbn [mbind res_bind]. rewrite Ha. cbn [mbind res_bind]. by rewrite Hc.
Qed.

(** An event with a row changes nothing. *)
Lemma project_known t e row :
  row_for e row → row ∈ receipts t → NoDup (r_path <$> receipts t) → project t e = Ok t.
Proof.
  destruct e as [path value]. intros (Hp & _ & _ & Hfp & _) Hin Hn. simpl in *. rewrite Hfp. cbn [mbind res_bind].
  assert (Hrow : ∀ rows, row ∈ rows → NoDup (r_path <$> rows) → head (filter (λ r, r_path r = path) rows) = Some row).
  { intros rows. induction rows as [|r rows IH]; intros Hr Hnd; [by apply elem_of_nil in Hr|].
    cbn [fmap list_fmap] in Hnd. apply NoDup_cons in Hnd as [Hnew Hnd]. rewrite filter_cons.
    apply elem_of_cons in Hr as [->|Hr]; [by rewrite decide_True|]. rewrite decide_False; [by apply IH|].
    intros Heq. apply Hnew. rewrite Heq, <- Hp. by apply list_elem_of_fmap_2. }
  rewrite Hrow by done. cbn [fmap option_fmap option_map].
  destruct (digest_nonempty _ _ Hfp) as (c & cs & ->). by rewrite bool_decide_true.
Qed.

Lemma project_all t l t' :
  NoDup ((r_path <$> receipts t) ++ l.*1) → fold project t l = Ok t' →
  ∃ rows as_, Forall2 row_for l rows ∧ t' = Tables (receipts t ++ rows) (host_keys t) (audit t ++ as_) ∧
    ∀ t2, receipts t2 = receipts t → fold project t2 l = Ok (Tables (receipts t ++ rows) (host_keys t2) (audit t2 ++ as_)).
Proof.
  revert t. induction l as [|e l IH]; intros t Hn.
  - intros [= <-]. exists [], []. rewrite !app_nil_r. split_and!; [done|by destruct t|]. intros t2 <-.
    rewrite !app_nil_r. by destruct t2.
  - rewrite fold_cons. intros (t1 & He & Hl)%bind_Ok. cbn [fmap list_fmap] in Hn.
    apply NoDup_app in Hn as (Hnt & Hap & Hnl).
    assert (Hnew : e.1 ∉ r_path <$> receipts t) by (intros Hin; apply (Hap _ Hin); by left).
    destruct (project_new _ _ _ Hnew He) as (row & a & Hrow & -> & Hsame).
    destruct (IH (Tables (receipts t ++ [row]) (host_keys t) (audit t ++ [a]))) as (rows & as_ & Hrows & -> & Hrest); [|done|].
    { cbn [receipts]. rewrite fmap_app, <- app_assoc. simpl. destruct Hrow as (-> & _). apply NoDup_app. split_and!; try done. }
    exists (row :: rows), (a :: as_). cbn [receipts host_keys audit]. rewrite <- !app_assoc. split_and!; [by constructor|done|].
    intros t2 Ht2. rewrite fold_cons, (Hsame t2 Ht2). cbn [mbind res_bind]. rewrite Hrest by done.
    cbn [receipts host_keys audit]. by rewrite <- !app_assoc.
Qed.

Lemma project_again t l rows :
  Forall2 row_for l rows → (∀ r, r ∈ rows → r ∈ receipts t) → NoDup (r_path <$> receipts t) → fold project t l = Ok t.
Proof.
  intros Hr Hin Hn. induction Hr as [|e row l rows Hrow _ IH]; [done|]. rewrite fold_cons.
  rewrite (project_known t e row) by (done || apply Hin; by left). apply IH. intros r Hr'. apply Hin. by right.
Qed.

(** ** Rows of keys *)

(** The columns of a key that never change. *)
Definition columns_for (key : pystr * (pystr * json)) (row : KeyRow) : Prop :=
  k_key_id row = key.1 ∧ item key.2.2 "deployment_ref" = Ok (JStr (k_deployment_ref row)) ∧
  item key.2.2 "public_key_b64" = Ok (JStr (k_public_key_b64 row)).
Definition key_row (key : pystr * (pystr * json)) (row : KeyRow) : Prop :=
  columns_for key row ∧ item key.2.2 "state" = Ok (JStr (k_state row)) ∧ k_event_path row = key.2.1 ∧
  k_state row ∈ [lit "pending"; lit "active"; lit "revoked"].

Lemma column_Ok v s : column v = Ok s → v = JStr s.
Proof. destruct v; try done. by intros [= ->]. Qed.

Lemma project_key_new t key t' :
  key.1 ∉ k_key_id <$> host_keys t → project_key t key = Ok t' →
  ∃ row, key_row key row ∧ t' = Tables (receipts t) (host_keys t ++ [row]) (audit t) ∧
    ∀ t2, host_keys t2 = host_keys t → project_key t2 key = Ok (Tables (receipts t2) (host_keys t ++ [row]) (audit t2)).
Proof.
  destruct key as [id [path event]]. unfold project_key. cbn [fst]. intros Hnew H.
  apply bind_Ok in H as (ref & Hi & H). apply bind_Ok in H as (ref' & Hr%column_Ok & H).
  apply bind_Ok in H as (pub & Hp & H). apply bind_Ok in H as (pub' & Hpc%column_Ok & H).
  apply bind_Ok in H as (st & Hs & H). apply bind_Ok in H as (st' & Hst%column_Ok & H). subst.
  apply bind_Ok in H as (rows & Hup & [= <-]). unfold upsert_key in Hup. cbn [k_state k_key_id k_public_key_b64] in Hup.
  apply bind_Ok_unit in Hup as (Hstate%ensure_Ok%bool_decide_eq_true & Hup).
  assert (Hex : existsb (λ r, bool_decide (k_key_id r = id)) (host_keys t) = false).
  { apply not_true_iff_false. intros (r & Hr & Hid%bool_decide_eq_true)%existsb_exists. apply Hnew. rewrite <- Hid.
    by apply list_elem_of_fmap_2, list_elem_of_In. }
  rewrite Hex in Hup. apply bind_Ok_unit in Hup as (Huniq%ensure_Ok & [= <-]).
  eexists. split; [|split; [done|]].
  - split; [split_and!; [reflexivity|exact Hi|exact Hp]|]. split_and!; [exact Hs|reflexivity|exact Hstate].
  - intros t2 Ht2. rewrite Hi, Hp, Hs. cbn [mbind res_bind column]. unfold upsert_key.
    cbn [k_state k_key_id k_public_key_b64]. rewrite Ht2, bool_decide_true, Hex by done. cbn [ensure mbind res_bind].
    by rewrite Huniq.
Qed.

Lemma project_keys_new t keys t' :
  NoDup ((k_key_id <$> host_keys t) ++ keys.*1) → fold project_key t keys = Ok t' →
  ∃ rows, Forall2 key_row keys rows ∧ t' = Tables (receipts t) (host_keys t ++ rows) (audit t) ∧
    ∀ t2, host_keys t2 = host_keys t →
      fold project_key t2 keys = Ok (Tables (receipts t2) (host_keys t ++ rows) (audit t2)).
Proof.
  revert t. induction keys as [|key keys IH]; intros t Hn.
  - intros [= <-]. exists []. rewrite !app_nil_r. split_and!; [done|by destruct t|]. intros t2 <-. by destruct t2.
  - rewrite fold_cons. intros (t1 & He & Hl)%bind_Ok. cbn [fmap list_fmap] in Hn.
    apply NoDup_app in Hn as Hn'. destruct Hn' as (Hnt & Hap & Hnl).
    assert (Hnew : key.1 ∉ k_key_id <$> host_keys t) by (intros Hin; apply (Hap _ Hin); by left).
    destruct (project_key_new _ _ _ Hnew He) as (row & Hrow & -> & Hsame).
    destruct (IH (Tables (receipts t) (host_keys t ++ [row]) (audit t))) as (rows & Hrows & -> & Hrest); [|done|].
    { cbn [host_keys]. rewrite fmap_app, <- app_assoc. simpl. destruct Hrow as [(-> & _) _]. exact Hn. }
    exists (row :: rows). cbn [receipts host_keys audit] in *. rewrite <- !app_assoc in *. split_and!; [by constructor|done|].
    intros t2 Ht2. rewrite fold_cons, (Hsame t2 Ht2). cbn [mbind res_bind]. rewrite Hrest by done.
    cbn [receipts host_keys audit]. done.
Qed.

(** A key whose row is there has it updated. *)
Lemma project_key_known rc au dn old todo key row :
  key_row key row → columns_for key old → NoDup (k_key_id <$> dn ++ old :: todo) →
  project_key (Tables rc (dn ++ old :: todo) au) key = Ok (Tables rc (dn ++ row :: todo) au).
Proof.
  destruct key as [id [path event]]. intros [(Hid & Hi & Hp) (Hs & Hpath & Hstate)] (Hid' & Hi' & Hp') Hn.
  cbn [fst snd] in *. unfold project_key. rewrite Hi, Hp, Hs. cbn [mbind res_bind column].
  unfold upsert_key. cbn [k_state host_keys k_key_id]. rewrite bool_decide_true by done. cbn [ensure mbind res_bind].
  assert (Hex : existsb (λ r, bool_decide (k_key_id r = id)) (dn ++ old :: todo) = true).
  { apply existsb_exists. exists old. split; [apply in_app_iff; right; by left|]. by rewrite bool_decide_true. }
  rewrite Hex. cbn [mbind res_bind receipts audit]. do 2 f_equal. rewrite fmap_app, fmap_cons. 
  rewrite fmap_app, fmap_cons in Hn. apply NoDup_app in Hn as (_ & Hap & [Htodo _]%NoDup_cons).
  assert (Hother : ∀ rows : list KeyRow, id ∉ k_key_id <$> rows → ((λ r, if bool_decide (k_key_id r = id)
      then {| k_key_id := k_key_id r; k_deployment_ref := k_deployment_ref r; k_public_key_b64 := k_public_key_b64 r;
              k_state := k_state row; k_event_path := path |} else r) <$> rows) = rows).
  { intros rows. induction rows as [|r rows IH]; intros Hnot; [done|]. cbn [fmap list_fmap] in *.
    apply not_elem_of_cons in Hnot as [Hr Hnot]. rewrite bool_decide_false by done. f_equal. by apply IH. }
  rewrite !Hother.
  - f_equal. f_equal. rewrite bool_decide_true by done. rewrite Hi in Hi'. rewrite Hp in Hp'. destruct old, row; simpl in *. congruence.
  - by rewrite <- Hid'.
  - intros Hin. apply (Hap _ Hin). rewrite <- Hid'. by left.
Qed.

Lemma project_keys_known rc au dn olds keys rows :
  Forall2 key_row keys rows → Forall2 columns_for keys olds → NoDup (k_key_id <$> dn ++ olds) →
  fold project_key (Tables rc (dn ++ olds) au) keys = Ok (Tables rc (dn ++ rows) au).
Proof.
  intros Hr. revert dn olds. induction Hr as [|key row keys rows Hrow Hr IH]; intros dn olds Ho Hn.
  - by inversion Ho; subst.
  - inversion Ho as [|? old ? olds' Hold Ho']; subst. rewrite fold_cons, (project_key_known _ _ _ _ _ _ row) by done.
    cbn [mbind res_bind]. rewrite !cons_middle, !app_assoc. apply IH; [done|]. rewrite <- app_assoc. simpl.
    rewrite fmap_app, fmap_cons in Hn |- *. destruct Hrow as [(-> & _) _], Hold as (<- & _). done.
Qed.

(** ** What is checked first *)

Definition fingerprints (l : list (pystr * json)) : res (list (pystr * pystr)) :=
  foldl (λ acc e, d ← acc; fp ← digest e.2; Ok (dict_set d e.1 fp)) (Ok []) l.

Lemma fingerprints_spec l d :
  NoDup l.*1 → fingerprints l = Ok d → Forall2 (λ e p, p.1 = e.1 ∧ digest e.2 = Ok p.2) l d.
Proof.
  unfold fingerprints. revert d. induction l as [|e l IH] using rev_ind; intros d Hn.
  - by intros [= <-].
  - rewrite foldl_app. intros (d0 & Hd0 & H)%bind_Ok. apply bind_Ok in H as (fp & Hfp & [= <-]).
    rewrite fmap_app in Hn. apply NoDup_app in Hn as (Hl & Hap & _). specialize (IH _ Hl Hd0).
    rewrite dict_set_new; [by apply Forall2_app; [|repeat constructor]|]. intros Hin.
    apply list_elem_of_fmap in Hin as ([p fp'] & Heq & Hin). cbn [fst] in Heq. subst p.
    apply list_elem_of_lookup in Hin as [i Hi]. destruct (Forall2_lookup_r _ _ _ _ _ IH Hi) as (e' & He' & Hp & _).
    cbn [fst] in Hp. apply (Hap e.1); [|by left]. rewrite Hp. apply list_elem_of_fmap_2. by apply list_elem_of_lookup; eexists.
Qed.

Lemma same_json_refl j : same_json j j = true.
Proof. unfold same_json. by apply bool_decide_eq_true. Qed.

Lemma row_checks l d e row :
  NoDup l.*1 → Forall2 (λ e p, p.1 = e.1 ∧ digest e.2 = Ok p.2) l d → e ∈ l → (∃ kvs, e.2 = JObj kvs) →
  row_for e row → check_row d row = Ok tt.
Proof.
  intros Hn Hd Hin (kvs & Hobj) (Hp & Hk & He & Hfp & Hf).
  assert (Hget : dict_get d e.1 = Some (r_fingerprint row)).
  { apply list_elem_of_lookup in Hin as [i Hi]. destruct (Forall2_lookup_l _ _ _ _ _ Hd Hi) as ([p fp] & Hpi & Hpe & Hfpe).
    cbn [fst snd] in *. rewrite Hfp in Hfpe. injection Hfpe as ->. subst p. apply dict_get_NoDup.
    - assert (Hkeys : d.*1 = l.*1). { clear - Hd. induction Hd as [|e p l d [Hp _] _ IH]; [done|]. cbn [fmap list_fmap]. by rewrite Hp, IH. }
      by rewrite Hkeys.
    - by apply list_elem_of_lookup; eexists. }
  unfold check_row. rewrite Hp, Hget, He, Hobj, <- Hobj, Hfp. cbn [mbind res_bind].
  rewrite !bool_decide_true by done. cbn [andb ensure mbind res_bind]. rewrite Hk, Hf. cbn [mbind res_bind].
  by rewrite !same_json_refl.
Qed.

(** ** The last events of keys *)

Definition key_step (acc : res (list (pystr * (pystr * json)))) (e : pystr * json) :=
  d ← acc; if starts_with (lit "keys/") e.1 then id ← item e.2 "key_id"; Ok (dict_set d (str_of id) e) else Ok d.

Lemma key_events_grow d k d' : foldl key_step (Ok d) k = Ok d' → d.*1 `prefix_of` d'.*1.
Proof.
  revert d. induction k as [|e k IH]; intros d; [by intros [= ->]|]. cbn [foldl].
  assert (Hraise : ∀ err, foldl key_step (Raise err) k ≠ Ok d') by (intros err; clear; induction k as [|e k IH]; [done|exact IH]).
  unfold key_step at 2. cbn [mbind res_bind]. destruct (starts_with (lit "keys/") e.1); [|apply IH].
  destruct (item e.2 "key_id") as [id|err]; cbn [mbind res_bind]; [|intros H; by apply Hraise in H].
  intros H%IH. etrans; [|exact H]. clear. induction d as [|[k' v'] d IH]; simpl.
  - apply prefix_nil.
  - case_bool_decide; simpl; [subst; reflexivity|]. by apply prefix_cons.
Qed.

Lemma dict_set_value {A B} (g : A → B) (d : list (pystr * A)) k v :
  (λ kv, (kv.1, g kv.2)) <$> dict_set d k v = dict_set ((λ kv, (kv.1, g kv.2)) <$> d) k (g v).
Proof. induction d as [|[k' v'] d IH]; [done|]. cbn [fmap list_fmap dict_set]. simpl. case_bool_decide; [done|]. simpl. by rewrite <- IH. Qed.

Lemma key_events_seen deployment public_key l seen :
  check_log deployment public_key l = Ok seen →
  ∃ keys, key_events l = Ok keys ∧ seen_keys seen = (λ kv, (kv.1, kv.2.2)) <$> keys.
Proof.
  intros Hl. revert l seen Hl. apply (log_ind deployment public_key).
  { by exists []. }
  intros l seen [path event] seen' _ (keys & Hk & Hs) He. unfold key_events in *. rewrite foldl_app, Hk.
  cbn [foldl mbind res_bind fst snd]. apply event_keys in He as [[Hkind ->]|[Hkind Hc]]; cbn [fst snd] in *.
  - destruct (starts_with (lit "keys/") path) eqn:Hst; [|by exists keys]. exfalso. apply Hkind.
    by apply (kind_starts KeyEvent "keys").
  - assert (starts_with (lit "keys/") path = true) as -> by (by apply (kind_starts KeyEvent "keys")).
    apply check_key_Ok in Hc as (Hsh & _ & -> & _).
    rewrite (shape_item _ _ "key_id" (TText Identifier) Hsh eq_refl). cbn [mbind res_bind]. eexists. split; [done|].
    cbn [seen_keys]. rewrite Hs. symmetry. apply (dict_set_value snd keys (text event "key_id") (path, event)).
Qed.

(** ** Rebuilding *)

Lemma rebuild_scratch l t n :
  NoDup l.*1 → rebuild_tables no_tables l = Ok (t, n) →
  ∃ d keys rows hks as_,
    fingerprints l = Ok d ∧ key_events l = Ok keys ∧ Forall2 row_for l rows ∧ t = Tables rows hks as_ ∧
    fold project no_tables l = Ok (Tables rows [] as_) ∧ fold project_key (Tables rows [] as_) keys = Ok t.
Proof.
  intros Hn. unfold rebuild_tables. cbn [receipts host_keys no_tables]. intros (d & Hd & H)%bind_Ok.
  apply bind_Ok in H as (? & _ & H). apply bind_Ok in H as (keys & Hk & H). apply bind_Ok in H as (? & _ & H).
  apply bind_Ok in H as (t1 & Ht1 & H). apply bind_Ok in H as (t2 & Ht2 & H). injection H as <- _.
  destruct (project_all no_tables l t1 Hn Ht1) as (rows & as_ & Hrows & -> & _). cbn [receipts host_keys audit no_tables app] in *.
  exists d, keys, rows, (host_keys t2), as_. split_and!; try done.
  assert (Hkeep : ∀ ks t t', fold project_key t ks = Ok t' → receipts t' = receipts t ∧ audit t' = audit t).
  { clear. induction ks as [|[id [path event]] ks IH]; intros t t'; [by intros [= <-]|]. rewrite fold_cons.
    intros (t1 & He & Hl)%bind_Ok. apply IH in Hl as [-> ->]. unfold project_key in He. by inv_res. }
  destruct (Hkeep _ _ _ Ht2) as [Hr Ha]. destruct t2. simpl in *. by subst.
Qed.

Lemma rows_paths l rows : Forall2 row_for l rows → r_path <$> rows = l.*1.
Proof. induction 1 as [|e row l rows (Hp & _) _ IH]; [done|]. cbn [fmap list_fmap]. by rewrite Hp, IH. Qed.
Lemma key_rows_ids keys rows : Forall2 key_row keys rows → k_key_id <$> rows = keys.*1.
Proof. induction 1 as [|e row l rows [[Hp _] _] _ IH]; [done|]. cbn [fmap list_fmap]. by rewrite Hp, IH. Qed.

Section incremental.
Context (deployment public_key : pystr) (l k : list (pystr * json)) (seen seen' : Seen).
Context (Hl : check_log deployment public_key l = Ok seen) (Hlk : check_log deployment public_key (l ++ k) = Ok seen').
Context (Hret : Forall (λ e, returns e.2) (l ++ k)) (Hobj : Forall (λ e, ∃ kvs, e.2 = JObj kvs) (l ++ k)).
Context (Hn : NoDup (l ++ k).*1).

(** The columns of a key's row hold of its later records. *)
Lemma columns_later keys keys' id path event path' event' row :
  key_events l = Ok keys → key_events (l ++ k) = Ok keys' →
  (id, (path, event)) ∈ keys → dict_get keys' id = Some (path', event') →
  columns_for (id, (path, event)) row → columns_for (id, (path', event')) row.
Proof.
  intros Hk Hk' Hin Hget (Hid & Hi & Hp). cbn [fst snd] in *.
  destruct (key_events_seen _ _ _ _ Hl) as (ks & Hks & Hs). rewrite Hk in Hks. injection Hks as <-.
  destruct (key_events_seen _ _ _ _ Hlk) as (ks' & Hks' & Hs'). rewrite Hk' in Hks'. injection Hks' as <-.
  pose proof Hret as [Hret1 _]%Forall_app.
  pose proof (log_keys _ _ _ _ Hl Hret1) as Hko. pose proof (log_keys _ _ _ _ Hlk Hret) as Hko'.
  assert (Hg : dict_get (seen_keys seen) id = Some event).
  { apply dict_get_NoDup; [apply (keys_once _ _ Hko)|]. rewrite Hs. apply list_elem_of_fmap. by exists (id, (path, event)). }
  pose proof Hlk as Hc. rewrite (check_app _ _ _ _ _ Hl) in Hc.
  destruct (log_follows _ _ _ _ _ _ _ Hc Hg) as (key' & Hg' & Hfol).
  assert (Hin' : (id, event') ∈ seen_keys seen').
  { rewrite Hs'. apply list_elem_of_fmap. exists (id, (path', event')). split; [done|]. by apply dict_get_Some. }
  pose proof (dict_get_NoDup _ _ _ (keys_once _ _ Hko') Hin') as Hg2. rewrite Hg' in Hg2. injection Hg2 as ->.
  apply dict_get_Some in Hg. destruct (keys_shape _ _ Hko _ _ Hg) as (Hsh & _ & _ & Hd).
  destruct (keys_shape _ _ Hko' _ _ Hin') as (Hsh' & _ & _ & Hd'). split_and!; [done|..]; cbn [fst snd].
  - rewrite (shape_item _ _ "deployment_ref" TStr Hsh' eq_refl).
    rewrite (shape_item _ _ "deployment_ref" TStr Hsh eq_refl) in Hi. injection Hi as Hi. unfold text in *. rewrite Hi in Hd.
    pose proof (shape_dot _ _ "deployment_ref" TStr Hsh' eq_refl) as Ht. destruct (dot event' "deployment_ref"); try done.
    simpl in *. congruence.
  - rewrite (shape_item _ _ "public_key_b64" TStr Hsh' eq_refl).
    rewrite (shape_item _ _ "public_key_b64" TStr Hsh eq_refl) in Hp. injection Hp as Hp. by rewrite (follows_public _ _ Hfol), Hp.
Qed.

Lemma ids_grow keys keys' :
  key_events l = Ok keys → key_events (l ++ k) = Ok keys' → keys.*1 `prefix_of` keys'.*1.
Proof. unfold key_events. intros Hk Hk'. rewrite foldl_app, Hk in Hk'. by apply key_events_grow in Hk'. Qed.

(** The row of a key fits the record the whole log ends with, at the same place. *)
Lemma known_columns keys keys' hrows i key row :
  key_events l = Ok keys → key_events (l ++ k) = Ok keys' → NoDup keys'.*1 → Forall2 key_row keys hrows →
  keys !! i = Some key → hrows !! i = Some row →
  ∃ key', keys' !! i = Some key' ∧ columns_for key' row ∧ dict_get keys' key.1 = Some key'.2.
Proof.
  intros Hkeys Hkeys' Hids' Hhrows Hki Hri. destruct key as [id [path event]].
  destruct (Forall2_lookup_lr _ _ _ _ _ _ Hhrows Hki Hri) as [Hcol _].
  assert (Hidi : keys'.*1 !! i = Some id).
  { eapply prefix_lookup_Some; [|exact (ids_grow _ _ Hkeys Hkeys')]. by rewrite list_lookup_fmap, Hki. }
  rewrite list_lookup_fmap in Hidi. apply fmap_Some in Hidi as ([id' [path' event']] & Hki' & Hid'). cbn [fst] in Hid'. subst id'.
  assert (Hget : dict_get keys' id = Some (path', event')) by (apply dict_get_NoDup; [done|by apply list_elem_of_lookup; eexists]).
  eexists. split; [exact Hki'|]. split; [|exact Hget].
  eapply columns_later; [exact Hkeys|exact Hkeys'| |exact Hget|exact Hcol]. by apply list_elem_of_lookup; eexists.
Qed.

(** Updating the rows that are there comes to the same as making them anew. *)
Lemma project_keys_again keys keys' hrows rows as_ t :
  key_events l = Ok keys → key_events (l ++ k) = Ok keys' → NoDup keys.*1 → NoDup keys'.*1 → Forall2 key_row keys hrows →
  fold project_key (Tables rows [] as_) keys' = Ok t → fold project_key (Tables rows hrows as_) keys' = Ok t.
Proof.
  intros Hkeys Hkeys' Hids Hids' Hhrows Hpk. destruct (ids_grow _ _ Hkeys Hkeys') as [ids2 Hpre].
  pose proof (take_drop (length keys) keys') as Hsplit.
  set (k1 := take (length keys) keys') in *. set (k2 := drop (length keys) keys') in *.
  rewrite <- Hsplit, fold_app in Hpk |- *. apply bind_Ok in Hpk as (t1 & Hk1 & Hk2).
  assert (Hk12 : NoDup (k1.*1 ++ k2.*1)) by (by rewrite <- fmap_app, Hsplit).
  destruct (project_keys_new (Tables rows [] as_) k1 t1) as (r1 & Hr1 & -> & _); [by apply NoDup_app in Hk12 as (? & _)|done|].
  cbn [receipts host_keys audit app] in *.
  assert (Hcols : Forall2 columns_for k1 hrows).
  { apply Forall2_same_length_lookup. split.
    - unfold k1. rewrite <- (Forall2_length _ _ _ Hhrows), length_take, <- (length_fmap fst keys'), Hpre, length_app, length_fmap. lia.
    - intros i key row Hki Hri. destruct (Forall2_lookup_r _ _ _ _ _ Hhrows Hri) as (key0 & Hk0 & _).
      destruct (known_columns _ _ _ _ _ _ Hkeys Hkeys' Hids' Hhrows Hk0 Hri) as (key' & Hk' & Hcol & _). unfold k1 in Hki.
      apply lookup_take_Some in Hki as [Hki _]. rewrite Hk' in Hki. by injection Hki as ->. }
  pose proof (project_keys_known rows as_ [] hrows k1 r1 Hr1 Hcols) as Hupd. cbn [app] in Hupd.
  rewrite Hupd by (by rewrite (key_rows_ids _ _ Hhrows)). exact Hk2.
Qed.

Lemma keys_checked keys keys' hrows :
  key_events l = Ok keys → key_events (l ++ k) = Ok keys' → NoDup keys'.*1 → Forall2 key_row keys hrows →
  ∃ us, mapM (check_key keys') hrows = Ok us.
Proof.
  intros Hkeys Hkeys' Hids' Hhrows. apply mapM_Ok_total. intros row Hrow. apply list_elem_of_lookup in Hrow as [i Hi].
  destruct (Forall2_lookup_r _ _ _ _ _ Hhrows Hi) as (key & Hki & [[Hid _] _]).
  destruct (known_columns _ _ _ _ _ _ Hkeys Hkeys' Hids' Hhrows Hki Hi) as ([id' [path' event']] & _ & (_ & Hi' & Hp') & Hget).
  cbn [fst snd] in *. exists tt. unfold check_key. rewrite Hid, Hget, Hi', Hp'. cbn [mbind res_bind]. by rewrite !bool_decide_true.
Qed.

Lemma rows_checked d rows :
  fingerprints (l ++ k) = Ok d → Forall2 row_for l rows → ∃ us, mapM (check_row d) rows = Ok us.
Proof.
  intros Hd Hrows. apply mapM_Ok_total. intros row Hrow. apply list_elem_of_lookup in Hrow as [i Hi].
  destruct (Forall2_lookup_r _ _ _ _ _ Hrows Hi) as (e & He & Hfor). apply list_elem_of_lookup_2 in He.
  assert (Hin : e ∈ l ++ k) by (apply elem_of_app; by left). exists tt.
  eapply row_checks; [exact Hn|exact (fingerprints_spec _ _ Hn Hd)|exact Hin| |exact Hfor].
  rewrite Forall_forall in Hobj. by apply Hobj.
Qed.

Lemma rebuild_incremental t n t' n' :
  rebuild_tables no_tables l = Ok (t, n) → rebuild_tables no_tables (l ++ k) = Ok (t', n') →
  rebuild_tables t (l ++ k) = Ok (t', Z.of_nat (length k)).
Proof.
  intros Ht Ht'. pose proof Hn as Hnl. rewrite fmap_app in Hnl. apply NoDup_app in Hnl as (Hnl & _ & _).
  destruct (rebuild_scratch _ _ _ Hnl Ht) as (d & keys & rows & hks & as_ & _ & Hkeys & Hrows & -> & Hproj & Hpk).
  destruct (rebuild_scratch _ _ _ Hn Ht') as (d' & keys' & rows' & hks' & as' & Hd' & Hkeys' & Hrows' & -> & Hproj' & Hpk').
  destruct (key_events_seen _ _ _ _ Hl) as (ks & Hks & Hs). rewrite Hkeys in Hks. injection Hks as <-.
  destruct (key_events_seen _ _ _ _ Hlk) as (ks' & Hks' & Hs'). rewrite Hkeys' in Hks'. injection Hks' as <-.
  pose proof Hret as [Hret1 _]%Forall_app.
  assert (Hids : NoDup keys.*1).
  { pose proof (keys_once _ _ (log_keys _ _ _ _ Hl Hret1)) as H. rewrite Hs, <- list_fmap_compose in H. exact H. }
  assert (Hids' : NoDup keys'.*1).
  { pose proof (keys_once _ _ (log_keys _ _ _ _ Hlk Hret)) as H. rewrite Hs', <- list_fmap_compose in H. exact H. }
  destruct (project_keys_new (Tables rows [] as_) keys _ Hids Hpk) as (hrows & Hhrows & Heq & _).
  cbn [host_keys receipts audit app] in Heq. injection Heq as ->.
  unfold rebuild_tables. change (foldl _ (Ok []) (l ++ k)) with (fingerprints (l ++ k)) at 1. rewrite Hd'. cbn [mbind res_bind receipts].
  destruct (rows_checked _ _ Hd' Hrows) as [us ->]. cbn [mbind res_bind]. rewrite Hkeys'. cbn [mbind res_bind host_keys].
  destruct (keys_checked _ _ _ Hkeys Hkeys' Hids' Hhrows) as [us' ->]. cbn [mbind res_bind].
  assert (Hp1 : fold project (Tables rows hrows as_) (l ++ k) = Ok (Tables rows' hrows as')).
  { rewrite fold_app. rewrite (project_again (Tables rows hrows as_) l rows Hrows);
      [|by intros r Hr|cbn [receipts]; by rewrite (rows_paths _ _ Hrows)].
    cbn [mbind res_bind]. rewrite fold_app, Hproj in Hproj'. cbn [mbind res_bind] in Hproj'.
    destruct (project_all (Tables rows [] as_) k (Tables rows' [] as')) as (rows2 & as2 & _ & Heq & Hsame); [|done|].
    { cbn [receipts]. by rewrite (rows_paths _ _ Hrows), <- fmap_app. }
    cbn [receipts host_keys audit] in *. injection Heq as -> ->. by rewrite Hsame. }
  rewrite Hp1. cbn [mbind res_bind].
  rewrite (project_keys_again _ _ _ _ _ _ Hkeys Hkeys' Hids Hids' Hhrows Hpk'). cbn [mbind res_bind]. do 3 f_equal.
  rewrite <- (Forall2_length _ _ _ (fingerprints_spec _ _ Hn Hd')), <- (Forall2_length _ _ _ Hrows), length_app. lia.
Qed.
End incremental.
End repair.
