(* ===== verification/AgentSafety.v ===== *)
(** * What the deploy agent guarantees

    [reaches] is any number of operations of the service, with whatever happens
    to the host between them that leaves the commits alone.  Along it the log
    stays valid, a key keeps its public key and only moves on, and a desired
    state is reported on at most once, after it was issued. *)

From S2P Require Import Prelude PyText PyUuid PyDate PyTime Json JsonReader JsonRound Effects Contracts ContractsSafety Envelopes AgentLedger GateEvidence GateAdmission AgentProjection AgentService AgentHost AgentLedgerSafety AgentLog AgentRules AgentChecks AgentLife AgentSteps AgentKeys AgentOperations AgentOutcomes AgentRepair.

#[local] Open Scope Z_scope.

(** ** The operations, as the router calls them *)

Inductive operation :=
  | Issue (request : json) (actor : uuid)
  | Latest (product environment host : pystr)
  | Register (request : json) (actor : uuid)
  | ChallengeKey (key_id : pystr) (actor : uuid)
  | Activate (request : json) (actor : uuid)
  | Ingest (envelope : json)
  | Drift
  | Admit (request : json) (actor : uuid).

Section guarantees.
Context `{ORC : Oracles} `{HST : Host} `{LAW : !Lawful} `{CRY : Crypto} `{FL : Floats} `{UCD : UnicodeDB}.
Context (self : Agent (HST := HST)).
#[local] Abbreviation deployment := (deployment_ref self).

Definition perform (op : operation) : proc hstate exn unit :=
  match op with
  | Issue request actor => issue self request actor;; mret tt
  | Latest product environment host => latest self product environment host;; mret tt
  | Register request actor => register self request actor;; mret tt
  | ChallengeKey key_id actor => challenge self key_id actor;; mret tt
  | Activate request actor => activate self request actor;; mret tt
  | Ingest envelope => ingest self envelope;; mret tt
  | Drift => drift self;; mret tt
  | Admit request actor => admit_ self request actor;; mret tt
  end.

(** A request is a document without floating point numbers or unpaired
    surrogates, and the challenge that an activation answers does not expire
    while the operation runs. *)
Definition admissible (op : operation) (s : site) : Prop :=
  match op with
  | Issue request _ | Admit request _ => returns request
  | Register request _ => is_document request
  | Activate request _ => is_document (dot request "envelope") ∧ prompt s (dot request "envelope")
  | Ingest envelope => is_document envelope
  | _ => True
  end.

(** One operation, which returned or raised, or an event of the host. *)
Inductive step (w : hstate) : hstate → Prop :=
  | operate op o w' :
      admissible op (look w) → perform op w = (o, w') → o ≠ Diverge → step w w'
  | elsewhere w' : history (look w') = history (look w) → step w w'.
Definition reaches : hstate → hstate → Prop := rtc step.

Lemma perform_safe op s :
  sound self → valid self (history s) → admissible op s → safe self s (perform op).
Proof.
  intros Hsound Hv Hop.
  assert (Hthen : ∀ A (m : proc hstate exn A), safe self s m → safe self s (m;; mret tt)).
  { intros A m Hm. apply (triple_bind _ _ _ (λ _ w, grown self (history s) (history (look w)))); [exact Hm|].
    intros a. apply (triple_history (grown self (history s))), keeps_ret. }
  destruct op; simpl in Hop; apply Hthen.
  - by apply safe_issue.
  - by apply safe_latest.
  - by apply safe_register.
  - by apply safe_challenge.
  - by apply safe_activate; [| | apply Hop..].
  - by apply safe_ingest.
  - by apply safe_drift.
  - by apply safe_admit.
Qed.

Lemma step_grown w w' :
  sound self → valid self (history (look w)) → step w w' → grown self (history (look w)) (history (look w')).
Proof.
  intros Hsound Hv [op o v Hop Hrun Ho|v ->]; [|by apply grown_refl].
  pose proof (perform_safe op (look w) Hsound Hv Hop w eq_refl) as Ht. rewrite Hrun in Ht.
  by destruct o as [[]|e|].
Qed.

Lemma reaches_grown w w' :
  sound self → valid self (history (look w)) → reaches w w' → grown self (history (look w)) (history (look w')).
Proof.
  intros Hsound Hv Hr. revert Hv. induction Hr as [w|w v w' Hs _ IH]; intros Hv; [by apply grown_refl|].
  destruct (step_grown _ _ Hsound Hv Hs) as [Hp Hv']. destruct (IH Hv') as [Hp' Hv'']. split; [|done].
  by etrans.
Qed.

(** A history before the service was ever used. *)
Lemma valid_new cs :
  cs ≠ [] → NoDup (tree cs).*1 → Forall (λ f, plain_name f.1 ∧ is_json f.1 = false) (tree cs) → valid self cs.
Proof.
  intros Hne Hnd Hall. exists [], nothing_seen. split.
  - split; [done|done| |]; rewrite ?Forall_fmap; eapply Forall_impl; try exact Hall; intros f [Hp Hj]; [done|].
    intros Hj'. congruence.
  - unfold log, documents. rewrite filter_none; [done|]. intros f Hf. rewrite Forall_forall in Hall.
    destruct (Hall f Hf) as [_ ->]. done.
  - done.
  - intros nonce Hin. by apply elem_of_nil in Hin.
  - intros id key c Hin. by apply elem_of_nil in Hin.
Qed.

(** The names and the documents of a log. *)
Lemma documents_names fs l : documents fs = Ok l → l.*1 = filter (λ n, is_json n = true) fs.*1.
Proof.
  unfold documents. revert l. induction fs as [|[n raw] fs IH]; intros l; [by intros [= <-]|].
  rewrite fmap_cons, !filter_cons. cbn [fst]. destruct (decide (is_json n = true)); [|apply IH].
  cbn [mapM snd]. intros (x & (v & _ & [= <-])%bind_Ok & (l' & Hl & [= <-])%bind_Ok)%bind_Ok.
  cbn [fmap list_fmap fst]. by rewrite (IH _ Hl).
Qed.
Lemma documents_objects fs l :
  documents fs = Ok l → Forall (λ f, is_json f.1 = true → canonical f.2) fs → Forall (λ e, ∃ kvs, e.2 = JObj kvs) l.
Proof.
  unfold documents. intros Hl Hcan. revert l Hl. induction Hcan as [|[n raw] fs Hf _ IH]; intros l; [by intros [= <-]|].
  rewrite filter_cons. simpl in *. destruct (decide (is_json n = true)) as [Hj|]; [|apply IH]. cbn [mapM snd].
  intros (e & (v & Hv & [= <-])%bind_Ok & (l' & Hl & [= <-])%bind_Ok)%bind_Ok. constructor; [|by apply IH].
  destruct (Hf Hj) as (u & kvs & -> & Hr & ->). rewrite (read_json_dumps _ kvs) in Hv by done. injection Hv as <-.
  by eexists.
Qed.

(** A key is on record in a history. *)
Definition on_record (cs : list commit) (id : pystr) (key : json) : Prop :=
  ∃ l seen, log cs = Ok l ∧ check_log deployment (public_key_b64 self) l = Ok seen ∧
            dict_get (seen_keys seen) id = Some key.

Lemma log_grown cs cs' l l' : cs `prefix_of` cs' → log cs = Ok l → log cs' = Ok l' → ∃ k, l' = l ++ k.
Proof.
  intros [ds ->] Hl. unfold log, tree in *. rewrite bind_app, documents_app, Hl. cbn [mbind res_bind].
  intros (y & _ & [= <-])%bind_Ok. by exists y.
Qed.
End guarantees.


(** C10: a key that is on record stays on record under its public key, never goes
    back from active to pending or from revoked to either, and is active only if
    the holder of its private key answered a challenge in time. *)
Theorem key_life `{ORC : Oracles} `{HST : Host} `{LAW : !Lawful} `{CRY : Crypto} `{FL : Floats} `{UCD : UnicodeDB}
    (self : Agent (HST := HST)) w w' id key :
  sound self → valid self (history (look w)) → reaches self w w' →
  on_record self (history (look w)) id key →
  ∃ key', on_record self (history (look w')) id key' ∧ follows key key' ∧
          (is_text (dot key' "state") "active" = true → proven key').
Proof.
  intros Hs Hv Hr (l & seen & Hl & Hc & Hg). destruct (reaches_grown _ _ _ Hs Hv Hr) as [Hp (l' & seen' & Hv')].
  destruct (log_grown _ _ _ _ Hp Hl (view_log _ _ _ _ Hv')) as [k ->].
  pose proof (view_checked _ _ _ _ Hv') as Hc'. pose proof Hc' as Hk. rewrite (check_app _ _ _ _ _ Hc) in Hk.
  destruct (log_follows _ _ _ _ _ _ _ Hk Hg) as (key' & Hg' & Hf). exists key'. split; [|split; [done|]].
  - exists (l ++ k), seen'. split; [apply (view_log _ _ _ _ Hv')|done].
  - by eapply log_proven.
Qed.

(** C9: every report in the ledger is on a desired state that the service
    signed before it, agrees with it, shows the host to run it where it tells of
    success, and is the only one with its nonce. *)
Theorem applied_once `{ORC : Oracles} `{HST : Host} `{LAW : !Lawful} `{CRY : Crypto} `{FL : Floats} `{UCD : UnicodeDB}
    (self : Agent (HST := HST)) w w' before path event after :
  sound self → valid self (history (look w)) → reaches self w w' →
  log (history (look w')) = Ok (before ++ (path, event) :: after) → kind_event path = AppliedEvent →
  ∃ report, report_of (path, event) = Ok report ∧ reported (public_key_b64 self) before report.
Proof.
  intros Hs Hv Hr Hl Hk. destruct (reaches_grown _ _ _ Hs Hv Hr) as [_ (l' & seen' & Hv')].
  pose proof (view_log _ _ _ _ Hv') as Hl'. rewrite Hl in Hl'. injection Hl' as <-.
  pose proof (view_checked _ _ _ _ Hv') as Hc. rewrite cons_middle, app_assoc in Hc.
  destruct (check_prefix _ _ _ _ _ Hc) as [seen Hc1].
  by eapply applied_reported.
Qed.

(** C12: on a host that behaves as documented, appending a batch of records to
    the ledger either adds, in one commit, those that were not there, or raises
    and has added all of them or none. *)
Theorem append_atomic `{ORC : Oracles} `{HST : Host} `{LAW : !Lawful} `{FL : Floats} (led : GitLedger) values w :
  untracked (look w) = [] →
  match append_many led values w with
  | (Ret b, w') => ∃ pending, pending_of (HST := ideal) values (look w) = (Ret pending, look w) ∧
                              look w' = appended led (look w) pending ∧ b = negb (bool_decide (pending = []))
  | (Throw e, w') => cut_short values (look w) (look w')
  | (Diverge, _) => False
  end.
Proof.
  intros Hu. pose proof (append_triple led values (look w) Hu w eq_refl) as Ht.
  pose proof (ends_append led values w) as He. by destruct (append_many led values w) as [[b|e|] w'].
Qed.


(** C11: tables that were made from an earlier part of the log, as a crash between
    a commit and the database's leaves them, are brought by [rebuild] to what they
    would be if they were made from the whole log. *)
Theorem rebuild_repairs `{ORC : Oracles} `{CRY : Crypto} `{FL : Floats} `{UCD : UnicodeDB}
    (self : Agent (HST := ideal)) (s : site) before l l' n t' n' :
  valid self (history s) → before `prefix_of` history s →
  log before = Ok l → rebuild_tables no_tables l = Ok (db s, n) →
  log (history s) = Ok l' → rebuild_tables no_tables l' = Ok (t', n') →
  rebuild (HST := ideal) s =
    (Ret {| events_count := Z.of_nat (length l'); repaired := Z.of_nat (length l') - Z.of_nat (length l) |}, with_db s t').
Proof.
  intros (l0 & seen & Hv) Hp Hl Ht Hl' Ht'. pose proof (view_log _ _ _ _ Hv) as Hl0. rewrite Hl' in Hl0. injection Hl0 as <-.
  destruct (log_grown _ _ _ _ Hp Hl Hl') as [k ->]. pose proof (view_checked _ _ _ _ Hv) as Hc.
  destruct (check_prefix _ _ _ _ _ Hc) as [seen0 Hc0]. pose proof (view_tidy _ _ _ _ Hv) as Htidy.
  destruct (documents_tidy _ (tidy_canonical _ Htidy)) as (l1 & Hl1 & Hret). unfold log in Hl'. rewrite Hl' in Hl1. injection Hl1 as <-.
  assert (Hn : NoDup (l ++ k).*1).
  { rewrite (documents_names _ _ Hl'). apply NoDup_filter, (tidy_once _ Htidy). }
  pose proof (documents_objects _ _ Hl' (tidy_canonical _ Htidy)) as Hobj.
  pose proof (rebuild_incremental _ _ _ _ _ _ Hc0 Hc Hret Hobj Hn _ _ _ _ Ht Ht') as Hr.
  unfold rebuild. rewrite bind_eq, events_tidy by done. unfold log. rewrite Hl'. rewrite bind_eq. cbn [db_read ideal].
  rewrite bind_eq, Hr. cbn [pure mret proc_ret]. rewrite length_app. replace (Z.of_nat (length l + length k) - Z.of_nat (length l)) with (Z.of_nat (length k)) by lia. done.
Qed.


