(* ===== verification/AgentDemo.v ===== *)
(** * A session with the deploy agent

    On the faultless host, with the toy cryptography: a key is enrolled,
    challenged and activated, a desired state is issued, the host reports on it,
    and the key is revoked.  The guarantees are applied to it. *)

From S2P Require Import Prelude PyText PyUuid PyDate PyTime Json JsonReader JsonRound Effects Contracts ContractsSafety Envelopes AgentLedger GateEvidence GateAdmission AgentProjection AgentService AgentHost AgentLedgerSafety AgentLog AgentRules AgentChecks AgentLife AgentSteps AgentKeys AgentOperations AgentOutcomes AgentRepair AgentSafety.

#[local] Open Scope Z_scope.

Module Session.
Import Toy.

(** A clock that goes on by a second with every reading, up to midnight. *)
#[global] Instance oracles : Oracles := {|
  clock_at := λ n, Moment (Date 2026 1 1) (Z.min (Z.of_nat n) 86399 * SECOND);
  token_at := λ n, repeat (Z.of_nat n mod 256) 24;
  uuid_at := λ n, Z.of_nat n;
  new_id := λ cs _, hex 40 (Z.of_nat (length cs));
  branch := lit "main";
|}.

Definition cp_key : bytes := repeat 3 32.
Definition cp : Signer := {| signer_key_id := lit "cp-1"; sign := signature cp_key; signer_deployment_ref := None |}.
Definition agent : Agent := {|
  ledger := {| remote := Some (lit "origin") |}; signer := cp; public_key_b64 := b64 cp_key; deployment_ref := ref;
  candidate_reader := Some (λ _, mret tt); gate_scope := None;
|}.
Definition first_commit : commit := Commit (hex 40 0) [(lit "README.md", [])].
Definition start : site := Site [first_commit] [first_commit] [] [] no_tables 0.

Definition value {A} (r : outcome exn A * site) (default : A) : A := match r.1 with Ret a => a | _ => default end.

Definition enroll_request : json := Eval vm_compute in JObj
  [(lit "key_id", JStr host_key_id); (lit "deployment_ref", JStr ref); (lit "public_key_b64", JStr (b64 key))].
Definition enrolled : site := Eval vm_compute in (register agent enroll_request 7 start).2.
Definition challenged : site := Eval vm_compute in (AgentService.challenge agent host_key_id 7 enrolled).2.
Definition on_challenge : json := Eval vm_compute in value (AgentService.challenge agent host_key_id 7 enrolled) JNull.
Definition possession : json := Eval vm_compute in
  match answer_challenge on_challenge host image None with Ok env => env | Raise _ => JNull end.
Definition activate_request : json := Eval vm_compute in JObj
  [(lit "envelope", possession); (lit "approved_public_key_fingerprint", JStr (raw_digest key))].
Definition activated : site := Eval vm_compute in (activate agent activate_request 7 challenged).2.

Definition file_digest (c : Z) : pystr := lit "sha256:" ++ repeat c 64.
Definition files : json := JObj
  [(lit "docker-compose.yml", JStr (file_digest 49)); (lit "docker-compose.override.yml", JStr (file_digest 50))].
Definition plan : list (pystr * json) :=
  [(lit "product", JStr (lit "dotmac_sub")); (lit "environment", JStr (lit "staging"));
   (lit "host", JStr (lit "dotmac-sub-staging")); (lit "image_reference", JStr (lit "ghcr.io/michaelayoade/dotmac_sub"));
   (lit "image_digest", JStr (file_digest 98)); (lit "from_image_digest", JStr image);
   (lit "source_revision", JStr (repeat 51 40)); (lit "source_tree", JStr (repeat 52 40));
   (lit "product_manifest_digest", JStr (file_digest 53)); (lit "build_run_id", JInt 11); (lit "evidence_run_id", JInt 12);
   (lit "config_digest", JStr (match digest files with Ok d => d | Raise _ => [] end)); (lit "config_files", files);
   (lit "migration_policy", JObj [(lit "mode", JStr (lit "upgrade_heads"))]); (lit "deployment_ref", JStr ref);
   (lit "approvals", JArr [JObj [(lit "environment", JStr (lit "staging")); (lit "actor", JStr (lit "ann")); (lit "run_id", JInt 5)]])].
Definition command : json := Eval vm_compute in JObj
  [(lit "command_id", JStr (lit "c-1")); (lit "desired", JObj plan);
   (lit "approved_plan_digest", JStr (match plan_digest (JObj plan) with Ok d => d | Raise _ => [] end))].
Definition issued : site := Eval vm_compute in (issue agent command 7 activated).2.
Definition desired_envelope : json := Eval vm_compute in value (issue agent command 7 activated) JNull.
Definition desired : json := Eval vm_compute in
  match verify DESIRED desired_envelope (b64 cp_key) with Ok d => d | Raise _ => JNull end.

Definition pick (v : json) (names : list string) : list (pystr * json) := (λ k, (lit k, dot v k)) <$> names.
Definition at_ten (fields : list (pystr * json)) : json :=
  JObj ([(lit "url", JStr (lit "https://host/")); (lit "status", JInt 200); (lit "checked_at", JStr (lit "2026-01-01T00:10:00Z"))] ++ fields).
Definition running : json := JStr (lit "ghcr.io/michaelayoade/dotmac_sub" ++ 64 :: file_digest 98).
Definition report : json := Eval vm_compute in JObj
  [(lit "schema", JStr APPLIED_SCHEMA); (lit "report_id", JStr (uuid_str 77)); (lit "deployment_ref", JStr ref);
   (lit "host_key_id", JStr host_key_id); (lit "signer_keyring_generation", JInt 1);
   (lit "desired", JObj (pick desired ["nonce"; "plan_digest"; "image_digest"; "source_revision"; "config_digest"]%string));
   (lit "disposition", JStr (lit "applied")); (lit "reason", JNull);
   (lit "observed", JObj [(lit "running_image", running); (lit "running_revision_label", dot desired "source_revision");
      (lit "pinned_image", running); (lit "pinned_git_sha", dot desired "source_revision");
      (lit "config_files", files); (lit "migration_heads", JArr [])]);
   (lit "health", JObj [(lit "live", at_ten []); (lit "ready", at_ten [(lit "body_status", JStr (lit "ready"))]);
      (lit "background", JObj [(lit "celery_inspect_ok", JBool true); (lit "containers", JObj [(lit "app", JStr (lit "running"))]);
         (lit "restart_counts_zero", JBool true)])]);
   (lit "deploy_receipt", JObj [(lit "exit_code", JInt 0); (lit "receipt_line", JNull)]);
   (lit "observed_at", JStr (lit "2026-01-01T00:10:00Z"));
   (lit "agent", JObj [(lit "version", JStr (lit "1")); (lit "artifact_digest", JStr (file_digest 54))])].
Definition report_envelope : json := Eval vm_compute in
  match seal APPLIED report host with Ok env => env | Raise _ => JNull end.
Definition reported_on : site := Eval vm_compute in (ingest agent report_envelope issued).2.

(** ** The runs *)

Lemma enroll_run : perform agent (Register enroll_request 7) start = (Ret tt, enrolled).
Proof. vm_compute. reflexivity. Qed.
Lemma challenge_run : perform agent (ChallengeKey host_key_id 7) enrolled = (Ret tt, challenged).
Proof. vm_compute. reflexivity. Qed.
Lemma activate_run : perform agent (Activate activate_request 7) challenged = (Ret tt, activated).
Proof. vm_compute. reflexivity. Qed.
Lemma issue_run : issue_command agent command 7 activated = (Ret desired_envelope, issued).
Proof. vm_compute. reflexivity. Qed.
Lemma ingest_run : ingest agent report_envelope issued = (Ret accepted, reported_on).
Proof. vm_compute. reflexivity. Qed.

(** ** The session is one the guarantees are about *)

Lemma hex_lowercase fuel n : forallb hex_lower (hex fuel n) = true.
Proof.
  revert n. induction fuel as [|fuel IH]; intros n; [done|]. cbn [hex forallb]. rewrite IH, andb_true_r.
  pose proof (Z.mod_pos_bound n 16 ltac:(lia)). unfold hex_lower, between, hex_digit.
  destruct (Z.ltb_spec (n mod 16) 10); apply orb_true_iff; [left|right]; apply andb_true_iff; rewrite !Z.leb_le; lia.
Qed.

Lemma cp_signs : signs_for cp (b64 cp_key) cp_key.
Proof.
  split; [by vm_compute|by vm_compute| |].
  - intros m. by apply bool_decide_eq_true.
  - intros m. apply signature_bytes.
Qed.

Lemma agent_sound : sound agent.
Proof.
  split.
  - exists cp_key. apply cp_signs.
  - apply (bool_decide_unpack _). by vm_compute.
  - by vm_compute.
  - intros reader doc [= <-]. apply keeps_ret.
  - intros n. split; [by vm_compute|]. cbn [clock_at oracles m_micro]. change SECOND with 1000000. change DAY with 86400000000. lia.
  - intros n. cbn [token_at oracles]. apply Forall_forall. intros b Hb%list_elem_of_In%repeat_spec. subst b.
    unfold byte. pose proof (Z.mod_pos_bound (Z.of_nat n) 256). lia.
  - intros raw. apply hex_lowercase.
  - done.
Qed.

Lemma start_valid : valid agent (history start).
Proof.
  apply valid_new; [done|by apply NoDup_singleton|]. constructor; [|constructor]. by split; [|vm_compute].
Qed.

Definition possession_read : res json :=
  raw ← unb64 (str_of (dot possession "payload_b64")); read_json raw.
Definition possession_document : json := Eval vm_compute in
  match possession_read with Ok doc => doc | Raise _ => JNull end.

Lemma possession_prompt : prompt challenged possession.
Proof.
  intros k doc (id & raw & k' & sg & input & _ & Hraw & _ & _ & _ & _ & Hread & _)%verify_Ok _.
  assert (Hdoc : possession_read = Ok possession_document) by (vm_compute; reflexivity).
  unfold possession_read in Hdoc. rewrite Hraw in Hdoc. cbn [mbind res_bind] in Hdoc. rewrite Hread in Hdoc.
  injection Hdoc as ->. vm_compute. reflexivity.
Qed.

Lemma enroll_step : step agent start enrolled.
Proof. eapply operate; [|exact enroll_run|done]. eexists. split; [reflexivity|]. apply (bool_decide_unpack _). by vm_compute. Qed.
Lemma challenge_step : step agent enrolled challenged.
Proof. by eapply operate; [|exact challenge_run|]. Qed.
Lemma activate_step : step agent challenged activated.
Proof.
  eapply operate; [|exact activate_run|done]. split; [|exact possession_prompt].
  eexists. split; [reflexivity|]. apply (bool_decide_unpack _). by vm_compute.
Qed.

Lemma activated_reached : reaches agent start activated.
Proof. eapply rtc_l; [exact enroll_step|]. eapply rtc_l; [exact challenge_step|]. apply rtc_once, activate_step. Qed.
Lemma activated_valid : valid agent (history activated).
Proof. apply (reaches_grown agent start activated agent_sound start_valid activated_reached). Qed.

Lemma command_returns : returns command.
Proof.
  assert (Ht : ∀ s, forallb (between 32 126) s = true → returns (JStr s)).
  { intros s Hs. constructor. apply ascii_text. apply forallb_Forall_iff in Hs. eapply Forall_impl; [exact Hs|].
    unfold between, printable. intros c Hc. cbv beta in Hc. bool_hyps. lia. }
  repeat first
    [ apply Ht; vm_compute; reflexivity
    | constructor; [apply (bool_decide_unpack _); vm_compute; exact I|]
    | apply Forall_nil_2 | apply Forall_cons_2 | split; [vm_compute; reflexivity|] | constructor ].
Qed.

Lemma issue_step : step agent activated issued.
Proof.
  apply (operate agent activated (Issue command 7) (Ret tt)); [exact command_returns| |done]. simpl.
  change (issue agent command 7) with (issue_command agent command 7). rewrite bind_eq, issue_run. done.
Qed.
Lemma report_document : is_document report_envelope.
Proof. eexists. split; [reflexivity|]. apply (bool_decide_unpack _). by vm_compute. Qed.
Lemma ingest_step : step agent issued reported_on.
Proof.
  apply (operate agent issued (Ingest report_envelope) (Ret tt)); [exact report_document| |done].
  simpl. rewrite bind_eq, ingest_run. done.
Qed.
Lemma issued_valid : valid agent (history issued).
Proof.
  apply (reaches_grown agent start issued agent_sound start_valid). eapply rtc_r; [exact activated_reached|exact issue_step].
Qed.
End Session.

Module Witnesses.
Import Toy Session.


Definition enrolled_log : list (pystr * json) := Eval vm_compute in
  match log (history enrolled) with Ok l => l | Raise _ => [] end.
Definition enrolled_seen : Seen := Eval vm_compute in
  match check_log ref (b64 cp_key) enrolled_log with Ok seen => seen | Raise _ => nothing_seen end.
Definition enrolled_key : json := Eval vm_compute in default JNull (dict_get (seen_keys enrolled_seen) host_key_id).
Lemma key_life_witness :
  ∃ key', on_record agent (history activated) host_key_id key' ∧ follows enrolled_key key' ∧
          (is_text (dot key' "state") "active" = true → proven key').
Proof.
  refine (key_life agent enrolled activated host_key_id enrolled_key agent_sound _ _ _).
  - apply (reaches_grown agent start enrolled agent_sound start_valid), rtc_once, enroll_step.
  - eapply rtc_l; [exact challenge_step|]. apply rtc_once, activate_step.
  - exists enrolled_log, enrolled_seen. split_and!; vm_compute; reflexivity.
Defined.

Definition last_log : list (pystr * json) := Eval vm_compute in
  match log (history reported_on) with Ok l => l | Raise _ => [] end.
Definition earlier_log : list (pystr * json) := Eval vm_compute in take 5 last_log.
Definition last_path : pystr := Eval vm_compute in match last last_log with Some e => e.1 | None => [] end.
Definition last_event : json := Eval vm_compute in match last last_log with Some e => e.2 | None => JNull end.
Lemma applied_once_witness :
  ∃ report, report_of (last_path, last_event) = Ok report ∧ reported (b64 cp_key) earlier_log report.
Proof.
  refine (applied_once agent issued reported_on earlier_log last_path last_event [] agent_sound issued_valid _ _ _).
  - apply rtc_once, ingest_step.
  - vm_compute. reflexivity.
  - vm_compute. reflexivity.
Defined.

Lemma append_atomic_witness :
  match append_many (ledger agent) [(lit "a.json", JObj [])] start with
  | (Ret b, s') => ∃ pending, pending_of [(lit "a.json", JObj [])] start = (Ret pending, start) ∧
                              s' = appended (ledger agent) start pending ∧ b = negb (bool_decide (pending = []))
  | (Throw e, s') => cut_short [(lit "a.json", JObj [])] start s'
  | (Diverge, _) => False
  end.
Proof. exact (append_atomic (ledger agent) [(lit "a.json", JObj [])] start eq_refl). Defined.


(** The database of the first commit, with the history after enrolling. *)
Definition behind : site := with_db enrolled no_tables.
Definition caught_up : tables := Eval vm_compute in
  match rebuild_tables no_tables enrolled_log with Ok (t, _) => t | Raise _ => no_tables end.
Lemma rebuild_repairs_witness :
  rebuild behind = (Ret {| events_count := 1; repaired := 1 |}, with_db behind caught_up).
Proof.
  refine (rebuild_repairs agent behind [first_commit] [] enrolled_log 0 caught_up 1 _ _ _ _ _ _).
  - apply (reaches_grown agent start enrolled agent_sound start_valid), rtc_once, enroll_step.
  - by eexists [_].
  - reflexivity.
  - reflexivity.
  - vm_compute. reflexivity.
  - vm_compute. reflexivity.
Defined.

(** The command again, after the host reported on it. *)
Definition answer_again : json := Eval vm_compute in value (issue_command agent command 7 reported_on) JNull.
Definition answered_again : site := Eval vm_compute in (issue_command agent command 7 reported_on).2.

End Witnesses.

(** The challenge expires between the two readings of the clock that an
    activation makes. *)
Module Race.
Import Toy.

Definition slow : Oracles := {|
  clock_at := λ n, Moment (Date 2026 1 1) ((if (n <=? 2)%nat then 0 else if (n <=? 4)%nat then 599 else 601) * SECOND);
  token_at := λ n, repeat (Z.of_nat n mod 256) 24;
  uuid_at := λ n, Z.of_nat n;
  new_id := λ cs _, hex 40 (Z.of_nat (length cs));
  branch := lit "main";
|}.
#[local] Instance host_of_slow : Host := ideal (H := slow).

Definition agent : Agent (HST := host_of_slow) := {|
  ledger := {| remote := None |}; signer := Session.cp; public_key_b64 := b64 Session.cp_key; deployment_ref := ref;
  candidate_reader := None; gate_scope := None;
|}.
Definition enrolled : site := Eval vm_compute in
  (register (HST := host_of_slow) agent Session.enroll_request 7 Session.start).2.
Definition challenged : site := Eval vm_compute in (AgentService.challenge (HST := host_of_slow) agent host_key_id 7 enrolled).2.
Definition on_challenge : json := Eval vm_compute in
  Session.value (AgentService.challenge (HST := host_of_slow) agent host_key_id 7 enrolled) JNull.
Definition activate_request : json := Eval vm_compute in JObj
  [(lit "envelope", match answer_challenge on_challenge host image None with Ok env => env | Raise _ => JNull end);
   (lit "approved_public_key_fingerprint", JStr (raw_digest key))].
Definition raced : site := Eval vm_compute in (activate (HST := host_of_slow) agent activate_request 7 challenged).2.
Definition raced_log : list (pystr * json) := Eval vm_compute in
  match log (history raced) with Ok l => l | Raise _ => [] end.

End Race.
