(* ===== verification/Drift.v ===== *)
(** * Drift between a descriptor and a database

    [descriptor/drift.py]: the comparison of an accepted descriptor's database
    half with a capture of the catalogue, in both directions.  The
    specification [disagrees] says, on the documents themselves, what a
    disagreement is; [compare_exact] that the report holds exactly those. *)

From S2P Require Import Prelude PyText PyUuid PyDate PyTime Json JsonReader JsonRound Effects Contracts GateEvidence.

#[local] Open Scope Z_scope.

(** ** Data *)

Definition CAPTURE_KEYS : list string :=
  ["schemas"; "migration_heads"; "roles"; "effective_privileges"; "effective_schema_privileges"]%string.

Inductive Direction := DECLARED_ABSENT | PRESENT_UNDECLARED.
Definition Direction_value (d : Direction) : pystr :=
  match d with
  | DECLARED_ABSENT => lit "declared_but_absent"
  | PRESENT_UNDECLARED => lit "present_but_undeclared"
  end.

Inductive Subject := SCHEMA | MIGRATION_HEAD | ROLE | PRIVILEGE.
Definition Subject_value (s : Subject) : pystr :=
  match s with
  | SCHEMA => lit "schema"
  | MIGRATION_HEAD => lit "migration_head"
  | ROLE => lit "role"
  | PRIVILEGE => lit "privilege"
  end.

#[export] Instance Direction_eq_dec : EqDecision Direction.
Proof. solve_decision. Defined.
#[export] Instance Subject_eq_dec : EqDecision Subject.
Proof. solve_decision. Defined.

Module Finding.
Record t := Make { subject : Subject; direction : Direction; identity : pystr; detail : pystr }.

#[export] Instance eq_dec : EqDecision t.
Proof. solve_decision. Defined.

(** The tuple that [order=True] compares: a [StrEnum] by its text. *)
Definition fields (f : t) : list pystr :=
  [Subject_value (subject f); Direction_value (direction f); identity f; detail f].

Definition as_dict (f : t) : json := JObj
  [(lit "subject", JStr (Subject_value (subject f)));
   (lit "direction", JStr (Direction_value (direction f)));
   (lit "identity", JStr (identity f)); (lit "detail", JStr (detail f))].
End Finding.

(** [a <= b] of two tuples of texts. *)
Fixpoint tuple_leb (a b : list pystr) : bool :=
  match a, b with
  | [], _ => true
  | _ :: _, [] => false
  | x :: a, y :: b => if bool_decide (x = y) then tuple_leb a b else text_leb x y
  end.
Definition finding_leb (f g : Finding.t) : bool := tuple_leb (Finding.fields f) (Finding.fields g).

Module DriftReport.
Record t := Make { findings : list Finding.t; compared : list (Subject * nat) }.

Definition clean (r : t) : bool := bool_decide (findings r = []).

Definition as_dict (r : t) : json := JObj
  [(lit "clean", JBool (clean r));
   (lit "compared", JObj (map (λ '(s, n), (Subject_value s, JInt (Z.of_nat n))) (compared r)));
   (lit "findings", JArr (map Finding.as_dict (sort_by finding_leb (findings r))))].
End DriftReport.

(** ** The comparison *)

Section drift.
(** [str.isprintable] and [str.upper] of one code point outside ASCII. *)
Context (printable : Z → bool) (upper_wide : Z → pystr).

Definition upper_char (c : Z) : pystr :=
  if between 97 122 c then [c - 32] else if c <? 128 then [c] else upper_wide c.
Definition upper (s : pystr) : pystr := s ≫= upper_char.

(** Messages begin with what they are about. *)
Definition incomplete {A} (why : string) : res A := Raise (Exn IncompleteCapture why).

(** [section.get(key, default)]. *)
Definition get (section : dict) (key : string) (absent : json) : json :=
  default absent (dict_get section (lit key)).
Definition get_text (section : dict) (key : string) : pystr :=
  py_str printable (get section key (JStr [])).

Definition _strings (value : json) (what : string) : res (list pystr) :=
  match value with
  | JArr l => Ok (map (py_str printable) l)
  | _ => incomplete what
  end.

Definition mapping (what : string) (item : json) : res dict :=
  match item with JObj kvs => Ok kvs | _ => incomplete what end.
Definition _mappings (value : json) (what : string) : res (list dict) :=
  match value with
  | JArr l => mapM (mapping what) l
  | _ => incomplete what
  end.

Definition _database (descriptor : dict) : res dict :=
  match dict_get descriptor (lit "database") with
  | Some (JObj section) => Ok section
  | _ => incomplete "the descriptor carries no [database] contract, so there is nothing to compare a catalogue against"
  end.
Definition _migration (descriptor : dict) : res dict :=
  match dict_get descriptor (lit "migration") with
  | Some (JObj section) => Ok section
  | _ => incomplete "the descriptor carries no [migration] section"
  end.

Definition _require_capture (capture : dict) : res unit :=
  let missing := filter (λ key, dict_get capture (lit key) = None) CAPTURE_KEYS in
  if bool_decide (missing = []) then Ok tt else incomplete "the catalogue capture is missing ".

(** [sorted(a - b)] of the sets of two lists of names. *)
Definition set_minus (a b : list pystr) : list pystr :=
  sort_by text_leb (filter (λ name, name ∉ b) (remove_dups a)).
Definition _set_findings (subject : Subject) (declared present : list pystr) (absent_detail undeclared_detail : string)
    : list Finding.t :=
  map (λ name, Finding.Make subject DECLARED_ABSENT name (lit absent_detail)) (set_minus declared present) ++
  map (λ name, Finding.Make subject PRESENT_UNDECLARED name (lit undeclared_detail)) (set_minus present declared).
Definition union_size (a b : list pystr) : nat := length (remove_dups (a ++ b)).

(** What each role can do: [(role, identity, privilege) -> holds]. *)
Abbreviation reading := (pystr * pystr * pystr)%type.
Definition reading_of (fact : dict) : reading * bool :=
  ((get_text fact "role", get_text fact "identity", upper (get_text fact "privilege")),
   truthy (get fact "holds" JNull)).
Definition record_fact (holds : gmap reading bool) (fact : dict) : gmap reading bool :=
  let '(key, value) := reading_of fact in <[key := value]> holds.
Definition _effective (capture : dict) : res (gmap reading bool) :=
  tables ← _mappings (get capture "effective_privileges" JNull) "effective_privileges";
  schemas ← _mappings (get capture "effective_schema_privileges" JNull) "effective_schema_privileges";
  Ok (foldl record_fact ∅ (tables ++ schemas)).

(** ** Isolation *)

Definition privilege_name (role privilege identity : pystr) : pystr :=
  role ++ lit " " ++ privilege ++ lit " on " ++ identity.
Definition UNOBSERVED : string :=
  ": the capture carries no effective-privilege reading for this role and object".
Definition HELD : string := ": the descriptor denies this privilege and the role effectively holds it".
Definition LACKED : string :=
  ": the descriptor requires this privilege and the role does not effectively hold it".

(** One role, object and privilege of an entry: its findings, and whether it
    was compared. *)
Definition check_privilege (holds : gmap reading bool) (role code : pystr) (denied : bool)
    (pair : pystr * pystr) : list Finding.t * nat :=
  let '(identity, privilege) := pair in
  let name := privilege_name role privilege identity in
  let finding d why := Finding.Make PRIVILEGE d name (code ++ lit why) in
  match holds !! (role, identity, upper privilege) with
  | None => ([finding DECLARED_ABSENT UNOBSERVED], 0%nat)
  | Some observed =>
      (if denied && observed then [finding PRESENT_UNDECLARED HELD]
       else if negb denied && negb observed then [finding DECLARED_ABSENT LACKED]
       else [], 1%nat)
  end.

(** [for identity in objects: for privilege in privileges]. *)
Definition pairs (objects privileges : list pystr) : list (pystr * pystr) :=
  objects ≫= λ identity, map (pair identity) privileges.

Definition check_entry (holds : gmap reading bool) (entry : dict) : res (list Finding.t * nat) :=
  let role := get_text entry "role" in
  let code := get_text entry "code" in
  let denied := truthy (get entry "denied" JNull) in
  objects ← _strings (get entry "objects" (JArr [])) "";
  privileges ← _strings (get entry "privileges" (JArr [])) "";
  let checked := map (check_privilege holds role code denied) (pairs objects privileges) in
  Ok (concat checked.*1, sum_list checked.*2).

Definition _isolation_findings (database : dict) (holds : gmap reading bool) : res (list Finding.t * nat) :=
  entries ← _mappings (get database "isolation" (JArr [])) "[[database.isolation]]";
  checked ← mapM (check_entry holds) entries;
  Ok (concat checked.*1, sum_list checked.*2).

(** ** The report *)

Definition SCHEMA_ABSENT : string := "declared in expected_schemas and absent from the database".
Definition SCHEMA_UNDECLARED : string := "present in the database and named by no expected_schemas entry".
Definition HEAD_ABSENT : string := "declared in expected_heads and not applied".
Definition HEAD_UNDECLARED : string := "applied on the target and named by no expected_heads entry".
Definition ROLE_ABSENT : string := "declared in [[database.roles]] and absent from the cluster".
Definition ROLE_UNDECLARED : string :=
  "a non-superuser role in the cluster that no [[database.roles]] entry declares".

Definition superuser (role : dict) : bool := truthy (get role "superuser" JNull).

Definition compare (descriptor capture : dict) : res DriftReport.t :=
  _require_capture capture;;
  database ← _database descriptor;
  migration ← _migration descriptor;
  declared_schemas ← _strings (get database "expected_schemas" (JArr [])) "database.expected_schemas";
  present_schemas ← _strings (get capture "schemas" JNull) "capture.schemas";
  declared_heads ← _strings (get migration "expected_heads" (JArr [])) "migration.expected_heads";
  present_heads ← _strings (get capture "migration_heads" JNull) "capture.migration_heads";
  role_facts ← _mappings (get capture "roles" JNull) "capture.roles";
  role_entries ← _mappings (get database "roles" (JArr [])) "[[database.roles]]";
  let present_roles := map (λ role, get_text role "name") (filter (λ role, superuser role = false) role_facts) in
  let declared_roles := map (λ role, get_text role "name") role_entries in
  let schemas := _set_findings SCHEMA declared_schemas present_schemas SCHEMA_ABSENT SCHEMA_UNDECLARED in
  let heads := _set_findings MIGRATION_HEAD declared_heads present_heads HEAD_ABSENT HEAD_UNDECLARED in
  let roles := _set_findings ROLE declared_roles present_roles ROLE_ABSENT ROLE_UNDECLARED in
  holds ← _effective capture;
  '(isolation, privileges_compared) ← _isolation_findings database holds;
  Ok (DriftReport.Make (sort_by finding_leb (schemas ++ heads ++ roles ++ isolation))
    [(SCHEMA, union_size declared_schemas present_schemas);
     (MIGRATION_HEAD, union_size declared_heads present_heads);
     (ROLE, union_size declared_roles present_roles);
     (PRIVILEGE, privileges_compared)]).

(** ** The specification *)

(** The list of names, and of objects, a document has under a key. *)
Definition names_at (doc : dict) (key : string) : list pystr :=
  match dict_get doc (lit key) with Some (JArr l) => map (py_str printable) l | _ => [] end.
Definition as_object (v : json) : option dict := match v with JObj e => Some e | _ => None end.
Definition objects_at (doc : dict) (key : string) : list dict :=
  match dict_get doc (lit key) with Some (JArr l) => omap as_object l | _ => [] end.
Definition part (doc : dict) (key : string) : dict :=
  match dict_get doc (lit key) with Some (JObj section) => section | _ => [] end.

Definition declares_schema D name := name ∈ names_at (part D "database") "expected_schemas".
Definition has_schema C name := name ∈ names_at C "schemas".
Definition declares_head D name := name ∈ names_at (part D "migration") "expected_heads".
Definition has_head C name := name ∈ names_at C "migration_heads".
Definition declares_role D name :=
  ∃ role, role ∈ objects_at (part D "database") "roles" ∧ get_text role "name" = name.
Definition has_role C name :=
  ∃ role, role ∈ objects_at C "roles" ∧ superuser role = false ∧ get_text role "name" = name.

(** An isolation entry that is about this privilege. *)
Definition states D (denied : bool) (role code identity privilege : pystr) :=
  ∃ entry, entry ∈ objects_at (part D "database") "isolation" ∧
    truthy (get entry "denied" JNull) = denied ∧ get_text entry "role" = role ∧ get_text entry "code" = code ∧
    identity ∈ names_at entry "objects" ∧ privilege ∈ names_at entry "privileges".

(** What the capture reads a privilege as: the last of its facts says. *)
Definition facts C := objects_at C "effective_privileges" ++ objects_at C "effective_schema_privileges".
Definition reads C (k : reading) (holds : bool) :=
  ∃ before fact after, facts C = before ++ fact :: after ∧ reading_of fact = (k, holds) ∧
    Forall (λ later, (reading_of later).1 ≠ k) after.
Definition unread C (k : reading) := Forall (λ fact, (reading_of fact).1 ≠ k) (facts C).

Inductive disagrees (D C : dict) : Finding.t → Prop :=
  | schema_absent name : declares_schema D name → ¬ has_schema C name →
      disagrees D C (Finding.Make SCHEMA DECLARED_ABSENT name (lit SCHEMA_ABSENT))
  | schema_undeclared name : has_schema C name → ¬ declares_schema D name →
      disagrees D C (Finding.Make SCHEMA PRESENT_UNDECLARED name (lit SCHEMA_UNDECLARED))
  | head_absent name : declares_head D name → ¬ has_head C name →
      disagrees D C (Finding.Make MIGRATION_HEAD DECLARED_ABSENT name (lit HEAD_ABSENT))
  | head_undeclared name : has_head C name → ¬ declares_head D name →
      disagrees D C (Finding.Make MIGRATION_HEAD PRESENT_UNDECLARED name (lit HEAD_UNDECLARED))
  | role_absent name : declares_role D name → ¬ has_role C name →
      disagrees D C (Finding.Make ROLE DECLARED_ABSENT name (lit ROLE_ABSENT))
  | role_undeclared name : has_role C name → ¬ declares_role D name →
      disagrees D C (Finding.Make ROLE PRESENT_UNDECLARED name (lit ROLE_UNDECLARED))
  | unobserved denied role code identity privilege :
      states D denied role code identity privilege → unread C (role, identity, upper privilege) →
      disagrees D C (Finding.Make PRIVILEGE DECLARED_ABSENT (privilege_name role privilege identity) (code ++ lit UNOBSERVED))
  | held role code identity privilege :
      states D true role code identity privilege → reads C (role, identity, upper privilege) true →
      disagrees D C (Finding.Make PRIVILEGE PRESENT_UNDECLARED (privilege_name role privilege identity) (code ++ lit HELD))
  | lacked role code identity privilege :
      states D false role code identity privilege → reads C (role, identity, upper privilege) false →
      disagrees D C (Finding.Make PRIVILEGE DECLARED_ABSENT (privilege_name role privilege identity) (code ++ lit LACKED)).

(** The shapes the comparison asks of both documents. *)
Definition is_array (v : json) := ∃ l, v = JArr l.
Definition is_object (v : json) := ∃ kvs, v = JObj kvs.
Definition objects_array (v : json) := ∃ l, v = JArr l ∧ Forall is_object l.
Definition optional (P : json → Prop) (doc : dict) (key : string) :=
  ∀ v, dict_get doc (lit key) = Some v → P v.
Definition required (P : json → Prop) (doc : dict) (key : string) :=
  ∃ v, dict_get doc (lit key) = Some v ∧ P v.

Record comparable (D C : dict) : Prop := {
  d_database : required is_object D "database";
  d_migration : required is_object D "migration";
  d_schemas : optional is_array (part D "database") "expected_schemas";
  d_heads : optional is_array (part D "migration") "expected_heads";
  d_roles : optional objects_array (part D "database") "roles";
  d_isolation : optional objects_array (part D "database") "isolation";
  d_objects : Forall (λ entry, optional is_array entry "objects" ∧ optional is_array entry "privileges")
                (objects_at (part D "database") "isolation");
  c_schemas : required is_array C "schemas";
  c_heads : required is_array C "migration_heads";
  c_roles : required objects_array C "roles";
  c_tables : required objects_array C "effective_privileges";
  c_namespaces : required objects_array C "effective_schema_privileges";
}.

(** ** Calls that refuse an incomplete document *)

(** [m] returns [v] where [P] holds, and refuses the capture where it does not. *)
Definition yields {A} (m : res A) (P : Prop) (v : A) : Prop :=
  match m with Ok a => P ∧ a = v | Raise e => ¬ P ∧ exn_kind e = IncompleteCapture end.

Lemma yields_bind {A B} (m : res A) (f : A → res B) P Q v w :
  yields m P v → (P → yields (f v) Q w) → yields (m ≫= f) (P ∧ Q) w.
Proof.
  destruct m as [a|e]; simpl; [|naive_solver]. intros [HP ->] Hf. specialize (Hf HP).
  unfold yields in *. destruct (f v); naive_solver.
Qed.

Lemma yields_iff {A} (m : res A) P Q v : (P ↔ Q) → yields m P v → yields m Q v.
Proof. unfold yields. destruct m; naive_solver. Qed.

Lemma yields_mapM {A B} (f : A → res B) (P : A → Prop) (g : A → B) l :
  (∀ x, x ∈ l → yields (f x) (P x) (g x)) → yields (mapM f l) (Forall P l) (map g l).
Proof.
  induction l as [|x l IH]; intros Hl; [by split; [constructor|]|].
  apply (yields_iff _ (P x ∧ Forall P l)); [symmetry; apply Forall_cons|].
  eapply yields_bind; [apply Hl; by left|]. intros _.
  eapply yields_iff; [|eapply yields_bind; [apply IH; intros y Hy; apply Hl; by right|]].
  2: { intros _. by split; [exact I|]. }
  tauto.
Qed.

Lemma yields_strings doc key what :
  yields (_strings (get doc key (JArr [])) what) (optional is_array doc key) (names_at doc key) ∧
  yields (_strings (get doc key JNull) what) (required is_array doc key) (names_at doc key).
Proof.
  unfold get, names_at, optional, required, is_array.
  destruct (dict_get doc (lit key)) as [[]|]; simpl; naive_solver.
Qed.

Lemma yields_mapping what v : yields (mapping what v) (is_object v) (default [] (as_object v)).
Proof. unfold is_object. destruct v; simpl; naive_solver. Qed.

Lemma as_objects l : Forall is_object l → map (λ v, default [] (as_object v)) l = omap as_object l.
Proof. induction 1 as [|v l [kvs ->] _ IH]; simpl; [done|]. by rewrite IH. Qed.

Lemma yields_objects l what :
  yields (_mappings (JArr l) what) (Forall is_object l) (omap as_object l).
Proof.
  pose proof (yields_mapM (mapping what) is_object _ l (λ v _, yields_mapping what v)) as H. simpl.
  unfold yields in *. destruct (mapM _ l); [|done]. destruct H as [Hl ->]. by rewrite as_objects.
Qed.

Lemma yields_mappings doc key what :
  yields (_mappings (get doc key (JArr [])) what) (optional objects_array doc key) (objects_at doc key) ∧
  yields (_mappings (get doc key JNull) what) (required objects_array doc key) (objects_at doc key).
Proof.
  unfold get, objects_at, optional, required, objects_array.
  destruct (dict_get doc (lit key)) as [v|]; simpl; [|naive_solver].
  destruct v as [| | | | |l|]; simpl; try naive_solver.
  pose proof (yields_objects l what) as Hl.
  split; (eapply yields_iff; [|exact Hl]); naive_solver.
Qed.

(** The sections, and the keys of the capture. *)
Lemma yields_database D : yields (_database D) (required is_object D "database") (part D "database").
Proof.
  unfold _database, part, required, is_object. destruct (dict_get D (lit "database")) as [[]|]; simpl; naive_solver.
Qed.
Lemma yields_migration D : yields (_migration D) (required is_object D "migration") (part D "migration").
Proof.
  unfold _migration, part, required, is_object. destruct (dict_get D (lit "migration")) as [[]|]; simpl; naive_solver.
Qed.
Lemma yields_capture C :
  yields (_require_capture C) (Forall (λ key, dict_get C (lit key) ≠ None) CAPTURE_KEYS) tt.
Proof.
  unfold _require_capture. case_bool_decide as Hk; simpl; [split; [|done]|split; [|done]].
  - apply Forall_forall. intros key Hin Hnone. apply (not_elem_of_nil key). rewrite <- Hk.
    by apply list_elem_of_filter.
  - rewrite Forall_forall. intros Hall. apply Hk.
    destruct (filter _ CAPTURE_KEYS) as [|key l] eqn:E; [done|].
    assert (key ∈ key :: l) as Hin by (by left). rewrite <- E in Hin.
    apply list_elem_of_filter in Hin as [Hnone Hin]. by apply Hall in Hin.
Qed.

(** ** What the comparison computes *)

Definition holds_of C := foldl record_fact ∅ (facts C).
Definition checked_entry (holds : gmap reading bool) (entry : dict) : list Finding.t * nat :=
  let checked := map (check_privilege holds (get_text entry "role") (get_text entry "code")
                        (truthy (get entry "denied" JNull)))
                   (pairs (names_at entry "objects") (names_at entry "privileges")) in
  (concat checked.*1, sum_list checked.*2).
Definition isolation_of D C := map (checked_entry (holds_of C)) (objects_at (part D "database") "isolation").

Definition role_names (roles : list dict) := map (λ role, get_text role "name") roles.
Definition declared_roles D := role_names (objects_at (part D "database") "roles").
Definition present_roles C := role_names (filter (λ role, superuser role = false) (objects_at C "roles")).
Definition all_findings D C : list Finding.t :=
  _set_findings SCHEMA (names_at (part D "database") "expected_schemas") (names_at C "schemas") SCHEMA_ABSENT SCHEMA_UNDECLARED ++
  _set_findings MIGRATION_HEAD (names_at (part D "migration") "expected_heads") (names_at C "migration_heads") HEAD_ABSENT HEAD_UNDECLARED ++
  _set_findings ROLE (declared_roles D) (present_roles C) ROLE_ABSENT ROLE_UNDECLARED ++
  concat (isolation_of D C).*1.
Definition report D C : DriftReport.t := DriftReport.Make (sort_by finding_leb (all_findings D C))
  [(SCHEMA, union_size (names_at (part D "database") "expected_schemas") (names_at C "schemas"));
   (MIGRATION_HEAD, union_size (names_at (part D "migration") "expected_heads") (names_at C "migration_heads"));
   (ROLE, union_size (declared_roles D) (present_roles C));
   (PRIVILEGE, sum_list (isolation_of D C).*2)].

Lemma yields_entry holds entry :
  yields (check_entry holds entry) (optional is_array entry "objects" ∧ optional is_array entry "privileges")
    (checked_entry holds entry).
Proof.
  unfold check_entry. eapply yields_iff;
    [|eapply yields_bind; [apply yields_strings|intros _; eapply yields_bind; [apply yields_strings|]]].
  2: { intros _. by split; [exact I|]. }
  tauto.
Qed.

Lemma yields_isolation database holds :
  yields (_isolation_findings database holds)
    (optional objects_array database "isolation" ∧
     Forall (λ entry, optional is_array entry "objects" ∧ optional is_array entry "privileges")
       (objects_at database "isolation"))
    (let checked := map (checked_entry holds) (objects_at database "isolation") in
     (concat checked.*1, sum_list checked.*2)).
Proof.
  unfold _isolation_findings. eapply yields_iff;
    [|eapply yields_bind; [apply yields_mappings|intros _; eapply yields_bind;
       [apply yields_mapM; intros; apply yields_entry|]]].
  2: { intros _. by split; [exact I|]. }
  tauto.
Qed.

Lemma yields_effective C :
  yields (_effective C)
    (required objects_array C "effective_privileges" ∧ required objects_array C "effective_schema_privileges")
    (holds_of C).
Proof.
  unfold _effective. eapply yields_iff;
    [|eapply yields_bind; [apply yields_mappings|intros _; eapply yields_bind; [apply yields_mappings|]]].
  2: { intros _. by split; [exact I|]. }
  tauto.
Qed.

Lemma required_present P C key : required P C key → dict_get C (lit key) ≠ None.
Proof. intros (v & Hv & _). by rewrite Hv. Qed.

Lemma comparable_capture D C :
  comparable D C → Forall (λ key, dict_get C (lit key) ≠ None) CAPTURE_KEYS.
Proof. intros []. repeat (apply Forall_cons; split; [by eapply required_present|]). constructor. Qed.

Lemma compare_yields D C : yields (compare D C) (comparable D C) (report D C).
Proof.
  unfold compare. eapply yields_iff; [|eapply yields_bind; [apply yields_capture|intros _]];
    [|eapply yields_bind; [apply yields_database|intros _]];
    [|eapply yields_bind; [apply yields_migration|intros _]];
    [|eapply yields_bind; [apply yields_strings|intros _]];
    [|eapply yields_bind; [apply yields_strings|intros _]];
    [|eapply yields_bind; [apply yields_strings|intros _]];
    [|eapply yields_bind; [apply yields_strings|intros _]];
    [|eapply yields_bind; [apply yields_mappings|intros _]];
    [|eapply yields_bind; [apply yields_mappings|intros _]];
    [|eapply yields_bind; [apply yields_effective|intros _]];
    [|eapply yields_bind; [apply yields_isolation|intros _]];
    [|by split; [exact I|]].
  split; [|intros Hc; pose proof (comparable_capture _ _ Hc); destruct Hc; tauto].
  intros ?. destruct_and?. by constructor.
Qed.

(** ** Order *)

Lemma tuple_leb_total a b : tuple_leb a b = false → tuple_leb b a = true.
Proof.
  revert b. induction a as [|x a IH]; intros [|y b]; simpl; try done.
  case_bool_decide; [subst; rewrite bool_decide_true by done; auto|].
  rewrite bool_decide_false by done. apply text_leb_total.
Qed.

Lemma tuple_leb_trans a b c : tuple_leb a b = true → tuple_leb b c = true → tuple_leb a c = true.
Proof.
  revert b c. induction a as [|x a IH]; intros [|y b] [|z c]; simpl; try done.
  repeat case_bool_decide; subst; try done; eauto using text_leb_trans.
  intros Hxy Hyx. by pose proof (text_leb_antisym _ _ Hxy Hyx).
Qed.

Lemma sorted_findings l : StronglySorted (λ f g, finding_leb f g = true) (sort_by finding_leb l).
Proof.
  apply sort_by_sorted; unfold finding_leb; [intros f g; apply tuple_leb_total|].
  intros f g h. apply tuple_leb_trans.
Qed.

(** ** Membership *)

Lemma elem_of_set_minus name a b : name ∈ set_minus a b ↔ name ∈ a ∧ name ∉ b.
Proof.
  unfold set_minus. rewrite sort_by_perm, list_elem_of_filter, elem_of_remove_dups. tauto.
Qed.

Lemma elem_of_set_findings f subject declared present absent_detail undeclared_detail :
  f ∈ _set_findings subject declared present absent_detail undeclared_detail ↔
  ∃ name, (name ∈ declared ∧ name ∉ present ∧
             f = Finding.Make subject DECLARED_ABSENT name (lit absent_detail)) ∨
          (name ∈ present ∧ name ∉ declared ∧
             f = Finding.Make subject PRESENT_UNDECLARED name (lit undeclared_detail)).
Proof.
  unfold _set_findings. rewrite elem_of_app, !list_elem_of_fmap. setoid_rewrite elem_of_set_minus. naive_solver.
Qed.

Lemma elem_of_role_names name roles : name ∈ role_names roles ↔ ∃ role, role ∈ roles ∧ get_text role "name" = name.
Proof. unfold role_names. rewrite list_elem_of_fmap. naive_solver. Qed.
Lemma elem_of_declared D name : name ∈ declared_roles D ↔ declares_role D name.
Proof. apply elem_of_role_names. Qed.
Lemma elem_of_present C name : name ∈ present_roles C ↔ has_role C name.
Proof.
  unfold present_roles, has_role. rewrite elem_of_role_names. setoid_rewrite list_elem_of_filter. naive_solver.
Qed.

(** *** The last fact about a privilege decides *)

Lemma holds_None l k :
  foldl record_fact ∅ l !! k = None ↔ Forall (λ fact, (reading_of fact).1 ≠ k) l.
Proof.
  induction l as [|fact l IH] using rev_ind; [simpl; by rewrite lookup_empty|].
  rewrite foldl_app, Forall_app, Forall_singleton, <- IH. cbn [foldl]. unfold record_fact at 1.
  destruct (reading_of fact) as [k' b]. by rewrite lookup_insert_None.
Qed.

Lemma holds_Some l k b :
  foldl record_fact ∅ l !! k = Some b ↔
  ∃ before fact after, l = before ++ fact :: after ∧ reading_of fact = (k, b) ∧
    Forall (λ later, (reading_of later).1 ≠ k) after.
Proof.
  induction l as [|fact l IH] using rev_ind.
  { simpl. rewrite lookup_empty. split; [done|]. intros ([] & ? & ? & ? & _); done. }
  rewrite foldl_app. cbn [foldl]. unfold record_fact at 1. destruct (reading_of fact) as [k' b'] eqn:Hf.
  rewrite lookup_insert_Some, IH. split.
  - intros [[-> ->]|(Hk & before & f & after & -> & Hr & Hl)]; [by exists l, fact, []|].
    exists before, f, (after ++ [fact]). rewrite <- app_assoc. split_and!; [done|done|].
    apply Forall_app_2; [done|]. apply Forall_singleton. by rewrite Hf.
  - intros (before & f & after & Heq & Hr & Hl).
    destruct after as [|g after _] using rev_ind.
    { apply app_inj_tail in Heq as [-> ->]. left. rewrite Hf in Hr. by simplify_eq. }
    rewrite app_comm_cons, app_assoc in Heq. apply app_inj_tail in Heq as [-> ->].
    apply Forall_app in Hl as [Hl [Hg _]%Forall_cons]. rewrite Hf in Hg. right. split; [done|]. by eauto 10.
Qed.

Lemma reads_holds C k b : holds_of C !! k = Some b ↔ reads C k b.
Proof. apply holds_Some. Qed.
Lemma unread_holds C k : holds_of C !! k = None ↔ unread C k.
Proof. apply holds_None. Qed.

(** *** Isolation *)

Lemma elem_of_pairs identity privilege objects privileges :
  (identity, privilege) ∈ pairs objects privileges ↔ identity ∈ objects ∧ privilege ∈ privileges.
Proof.
  unfold pairs. rewrite list_elem_of_bind. setoid_rewrite list_elem_of_fmap. naive_solver.
Qed.

(** Where the findings of one privilege come from. *)
Lemma elem_of_check f holds role code denied identity privilege :
  let name := privilege_name role privilege identity in
  f ∈ (check_privilege holds role code denied (identity, privilege)).1 ↔
  (holds !! (role, identity, upper privilege) = None ∧
     f = Finding.Make PRIVILEGE DECLARED_ABSENT name (code ++ lit UNOBSERVED)) ∨
  (denied = true ∧ holds !! (role, identity, upper privilege) = Some true ∧
     f = Finding.Make PRIVILEGE PRESENT_UNDECLARED name (code ++ lit HELD)) ∨
  (denied = false ∧ holds !! (role, identity, upper privilege) = Some false ∧
     f = Finding.Make PRIVILEGE DECLARED_ABSENT name (code ++ lit LACKED)).
Proof.
  unfold check_privilege.
  destruct (holds !! _) as [[]|] eqn:Hh; destruct denied; simpl;
    rewrite ?list_elem_of_singleton, ?elem_of_nil; naive_solver.
Qed.

Lemma elem_of_isolation D C f :
  f ∈ concat (isolation_of D C).*1 ↔
  ∃ denied role code identity privilege, states D denied role code identity privilege ∧
    f ∈ (check_privilege (holds_of C) role code denied (identity, privilege)).1.
Proof.
  unfold isolation_of, states. rewrite list_elem_of_In, in_concat. setoid_rewrite <- list_elem_of_In.
  setoid_rewrite list_elem_of_fmap. setoid_rewrite list_elem_of_fmap. split.
  - intros (? & (? & -> & entry & -> & He) & Hf). simpl in Hf.
    apply list_elem_of_In, in_concat in Hf as (? & Hin%list_elem_of_In & Hf%list_elem_of_In).
    apply list_elem_of_fmap in Hin as (? & -> & Hin).
    apply list_elem_of_fmap in Hin as ([identity privilege] & -> & Hin%elem_of_pairs). destruct Hin. eauto 20.
  - intros (denied & role & code & identity & privilege & (entry & He & <- & <- & <- & Hi & Hp) & Hf).
    exists (checked_entry (holds_of C) entry).1. split; [by eauto|]. simpl.
    apply list_elem_of_In, in_concat. eexists. split; apply list_elem_of_In; [|exact Hf].
    apply list_elem_of_fmap. eexists. split; [done|]. apply list_elem_of_fmap. eexists. split; [done|].
    by apply elem_of_pairs.
Qed.

Lemma findings_disagree D C f : f ∈ all_findings D C ↔ disagrees D C f.
Proof.
  unfold all_findings. rewrite !elem_of_app, !elem_of_set_findings, elem_of_isolation.
  setoid_rewrite elem_of_check. setoid_rewrite elem_of_declared. setoid_rewrite elem_of_present.
  setoid_rewrite reads_holds. setoid_rewrite unread_holds. split.
  - intros [H|[H|[H|H]]]; [destruct H as (? & [(? & ? & ->)|(? & ? & ->)]); by constructor..|].
    destruct H as (d & ? & ? & ? & ? & Hs & [(? & ->)|[(-> & ? & ->)|(-> & ? & ->)]]); by econstructor.
  - destruct 1; [left; eauto|left; eauto|right; left; eauto|right; left; eauto|
      do 2 right; left; eauto|do 2 right; left; eauto|do 3 right; eauto 12..].
Qed.

(** ** What was compared *)

Definition counted (r : DriftReport.t) (subject : Subject) (P : pystr → Prop) :=
  ∃ names, NoDup names ∧ (∀ name, name ∈ names ↔ P name) ∧
    dict_get (DriftReport.compared r) subject = Some (length names).

Lemma union_counted r subject a b (P : pystr → Prop) :
  dict_get (DriftReport.compared r) subject = Some (union_size a b) →
  (∀ name, name ∈ a ∨ name ∈ b ↔ P name) → counted r subject P.
Proof.
  intros Hr HP. exists (remove_dups (a ++ b)). split_and!; [apply NoDup_remove_dups| |exact Hr].
  intros name. by rewrite elem_of_remove_dups, elem_of_app.
Qed.

Lemma sum_list_zero l n : sum_list l = 0%nat → n ∈ l → n = 0%nat.
Proof. induction l as [|m l IH]; simpl; intros Hl Hn; [by apply elem_of_nil in Hn|]. apply elem_of_cons in Hn as [->|Hn]; [lia|]. apply IH; [lia|done]. Qed.

(** A privilege that is stated is counted, or found not to have been observed. *)
Lemma stated_counted D C denied role code identity privilege :
  states D denied role code identity privilege → sum_list (isolation_of D C).*2 = 0%nat →
  disagrees D C (Finding.Make PRIVILEGE DECLARED_ABSENT (privilege_name role privilege identity) (code ++ lit UNOBSERVED)).
Proof.
  intros Hs H0. apply findings_disagree. unfold all_findings. do 3 (apply elem_of_app; right).
  apply elem_of_isolation. exists denied, role, code, identity, privilege. split; [done|].
  apply elem_of_check. left. split; [|done].
  destruct Hs as (entry & He & <- & <- & <- & Hi & Hp).
  assert ((checked_entry (holds_of C) entry).2 = 0%nat) as Hn.
  { eapply sum_list_zero; [exact H0|]. unfold isolation_of. apply list_elem_of_fmap. eexists. split; [done|].
    by apply list_elem_of_fmap_2. }
  pose proof (list_elem_of_fmap_2 (check_privilege (holds_of C) (get_text entry "role") (get_text entry "code")
    (truthy (get entry "denied" JNull))) _ _ (proj2 (elem_of_pairs _ _ _ _) (conj Hi Hp))) as Hin.
  pose proof (sum_list_zero _ _ Hn (list_elem_of_fmap_2 snd _ _ Hin)) as Hz.
  unfold check_privilege in Hz. by destruct (holds_of C !! _).
Qed.

(** C17: The drift report: the comparison refuses exactly the documents it cannot
    compare, always as an incomplete capture; otherwise its findings, in order,
    are exactly the disagreements of the descriptor and the capture, in both
    directions, it is clean exactly when there are none, it counts the distinct
    names that were put side by side, and a clean report that compared no
    privilege had none to compare. *)
Theorem compare_exact D C :
  match compare D C with
  | Raise e => ¬ comparable D C ∧ exn_kind e = IncompleteCapture
  | Ok r =>
      comparable D C ∧
      (∀ f, f ∈ DriftReport.findings r ↔ disagrees D C f) ∧
      StronglySorted (λ f g, finding_leb f g = true) (DriftReport.findings r) ∧
      (DriftReport.clean r = true ↔ ∀ f, ¬ disagrees D C f) ∧
      counted r SCHEMA (λ name, declares_schema D name ∨ has_schema C name) ∧
      counted r MIGRATION_HEAD (λ name, declares_head D name ∨ has_head C name) ∧
      counted r ROLE (λ name, declares_role D name ∨ has_role C name) ∧
      (DriftReport.clean r = true → dict_get (DriftReport.compared r) PRIVILEGE = Some 0%nat →
       ∀ denied role code identity privilege, ¬ states D denied role code identity privilege)
  end.
Proof.
  pose proof (compare_yields D C) as H. unfold yields in H. destruct (compare D C) as [r|e]; [|exact H].
  destruct H as [Hc ->].
  assert (∀ f, f ∈ DriftReport.findings (report D C) ↔ disagrees D C f) as Hf.
  { intros f. simpl. rewrite sort_by_perm. apply findings_disagree. }
  assert (DriftReport.clean (report D C) = true ↔ ∀ f, ¬ disagrees D C f) as Hclean.
  { unfold DriftReport.clean. rewrite bool_decide_eq_true. setoid_rewrite <- Hf. split.
    - intros ->. set_solver.
    - intros Hn. by apply elem_of_nil_inv. }
  split_and!; [done|done|apply sorted_findings|done|..].
  - by eapply union_counted.
  - by eapply union_counted.
  - eapply union_counted; [done|]. intros name. by rewrite elem_of_declared, elem_of_present.
  - intros Hn [= H0] denied role code identity privilege Hs. eapply (proj1 Hclean Hn).
    by eapply stated_counted.
Qed.
End drift.

(** ** One database that moved *)

Module Drifted.
(** An isolation entry, a privilege reading, and a role. *)
Definition text (s : string) : json := JStr (lit s).
Definition names (l : list string) : json := JArr (text <$> l).
Definition rule (denied : bool) (role identity : string) : json := JObj
  [(lit "code", text "seal"); (lit "role", text role); (lit "denied", JBool denied);
   (lit "objects", names [identity]); (lit "privileges", names ["select"]%string)].
Definition fact (role identity privilege : string) (holds : bool) : json := JObj
  [(lit "role", text role); (lit "identity", text identity); (lit "privilege", text privilege);
   (lit "holds", JBool holds)].
Definition role (name : string) (superuser : bool) : json := JObj
  [(lit "name", text name); (lit "superuser", JBool superuser)].

Definition descriptor : dict :=
  [(lit "database", JObj [(lit "expected_schemas", names ["public"; "mod_relay"]%string);
                          (lit "roles", JArr [role "app" false]);
                          (lit "isolation", JArr [rule true "app" "audit.log"; rule true "app" "public.keys";
                                                  rule false "app" "public.plans"])]);
   (lit "migration", JObj [(lit "expected_heads", names ["v021"]%string)])].

(** The bootstrap made a schema, and a fact is read twice. *)
Definition capture : dict :=
  [(lit "schemas", names ["mod_deploy"; "public"]%string); (lit "migration_heads", names ["v022"; "v021"]%string);
   (lit "roles", JArr [role "app" false; role "postgres" true]);
   (lit "effective_privileges", JArr [fact "app" "public.plans" "SELECT" false; fact "app" "public.plans" "SELECT" true;
                                      fact "app" "public.keys" "Select" true]);
   (lit "effective_schema_privileges", JArr [])].

Definition no_wide (c : Z) : pystr := [c].
Definition verdict := compare (λ _, true) no_wide descriptor capture.

Example drifted : verdict = Ok (DriftReport.Make
  [Finding.Make MIGRATION_HEAD PRESENT_UNDECLARED (lit "v022") (lit HEAD_UNDECLARED);
   Finding.Make PRIVILEGE DECLARED_ABSENT (lit "app select on audit.log") (lit "seal" ++ lit UNOBSERVED);
   Finding.Make PRIVILEGE PRESENT_UNDECLARED (lit "app select on public.keys") (lit "seal" ++ lit HELD);
   Finding.Make SCHEMA DECLARED_ABSENT (lit "mod_relay") (lit SCHEMA_ABSENT);
   Finding.Make SCHEMA PRESENT_UNDECLARED (lit "mod_deploy") (lit SCHEMA_UNDECLARED)]
  [(SCHEMA, 3%nat); (MIGRATION_HEAD, 2%nat); (ROLE, 1%nat); (PRIVILEGE, 2%nat)]).
Proof. vm_compute. reflexivity. Qed.

(** A truncated capture is refused, not read as clean. *)
Example truncated :
  compare (λ _, true) no_wide descriptor (take 4 capture) =
  Raise (Exn IncompleteCapture "the catalogue capture is missing ").
Proof. vm_compute. reflexivity. Qed.
End Drifted.
