(* ===== verification/Catalogue.v ===== *)
(** * Catalogues and their restore comparison

    [deployment/cp_catalogue.py]: the catalogue of a database as one document,
    and the proof that a restored database has the catalogue of its source, up
    to the text of plain CHECK constraints, which PostgreSQL's parser compares,
    and to access lists that are written out on one side and the server's
    default on the other.  The verifier is pure; that what it accepts shows no
    more difference than that is [comparison_sound], at the end.  The capture,
    which runs on a connection to the restored database, is in
    [CatalogueCapture.v]. *)

From S2P Require Import Prelude PyText PyUuid Json JsonReader JsonRound PyDate PyTime Effects Contracts.

#[local] Open Scope Z_scope.

(** ** Equality of documents *)

(** The integer that the float with this [repr] is equal to, if there is one. *)
Class FloatValues := { float_int : pystr → option Z }.

(** What a number is equal to. *)
Definition number_of `{FloatValues} (v : json) : option (Z + pystr) :=
  match v with
  | JBool b => Some (inl (Z.b2z b))
  | JInt n => Some (inl n)
  | JFloat r => Some (match float_int r with Some n => inl n | None => inr r end)
  | _ => None
  end.

(** [a == b]: numbers by value, [dict]s whatever their order. *)
Fixpoint py_eq `{FloatValues} (a b : json) {struct a} : bool :=
  match a, b with
  | JNull, JNull => true
  | JStr s, JStr t => bool_decide (s = t)
  | JArr l, JArr m =>
      (fix go l m := match l, m with
                     | [], [] => true
                     | x :: l, y :: m => py_eq x y && go l m
                     | _, _ => false
                     end) l m
  | JObj l, JObj m =>
      bool_decide (length l = length m) &&
      forallb (λ kv, match dict_get m kv.1 with Some v => py_eq kv.2 v | None => false end) l
  | _, _ => match number_of a, number_of b with
            | Some x, Some y => bool_decide (x = y)
            | _, _ => false
            end
  end.

(** ** The documents *)

Definition CATALOGUE_QUERIES : list string :=
  ["bootstrap"; "schemas"; "relations"; "columns"; "constraints"; "indexes"; "views"; "functions";
   "policies"; "triggers"; "default-acls"; "roles"; "memberships"]%string.

Definition ParserObservation : hint := TTyped
  [field "server_version_num" TInt; field "cluster_system_identifier" TStr;
   field "database" (TText Identifier); field "search_path" (literal "pg_catalog");
   field "standard_conforming_strings" (literal "on")].
Definition CheckComparison : hint := TTyped
  [field "identity" (TList TStr); field "source_row_digest" (TText Digest);
   field "restored_row_digest" (TText Digest); field "source_view_definition" TStr;
   field "restored_view_definition" TStr].
Definition RelationAclComparison : hint := TTyped
  [field "identity" (TList TStr); field "source_row_digest" (TText Digest);
   field "restored_row_digest" (TText Digest); field "server_default_acl" TStr].
Definition COMPARISON_SCHEMA : string := "dotmac.cp_catalogue_restore_comparison/2".
Definition COMPARISON_METHOD : string := "postgres16-check-parse-table-acldefault/2".
Definition RestoreComparison : hint := TTyped
  [field "schema" (literal COMPARISON_SCHEMA); field "request_digest" (TText Digest); field "host_nonce" TStr;
   field "source_cluster_system_identifier" TStr; field "source_database" (TText Identifier);
   field "source_catalogue_digest" (TText Digest); field "restored_catalogue_digest" (TText Digest);
   field "method" (literal COMPARISON_METHOD); field "parser" ParserObservation;
   field "checks" (TList CheckComparison); field "relation_acls" (TList RelationAclComparison);
   field "restored_catalogue_after_digest" (TText Digest)].

(** ** Rows *)

(** The rows of a category, and a column of a row. *)
Definition rows (catalogue : json) (name : string) : list json := list_of (dot catalogue name).
Definition cell (row : json) (i : nat) : json := default JNull (list_of row !! i).
Definition width (row : json) : nat := length (list_of row).

Definition is_str (v : json) : bool := match v with JStr _ => true | _ => false end.
Definition is_text_ (v : json) : bool := match v with JStr (_ :: _) => true | _ => false end.
Definition is_bool (v : json) : bool := match v with JBool _ => true | _ => false end.
Definition is_null (v : json) : bool := match v with JNull => true | _ => false end.

(** The rows that are not in the two catalogues alike: which, and both rows. *)
Abbreviation change := (list json * json * json)%type.

(** [set(a) == set(b)] of the keys of two dicts. *)
Definition same_set {A} `{EqDecision A} (a b : list A) : bool :=
  forallb (λ x, bool_decide (x ∈ b)) a && forallb (λ x, bool_decide (x ∈ a)) b.

(** A dict made of rows, which refuses a second row for a key. *)
Definition keyed (key : json → res (list json)) (duplicate : string) (l : list json) : res (list (list json * json)) :=
  foldl (λ acc row, d ← acc; k ← key row;
                    require (bool_decide (k ∉ d.*1)) duplicate;; Ok (dict_set d k row)) (Ok []) l.
Definition row_of (d : list (list json * json)) (k : list json) : json := default JNull (dict_get d k).

Definition constraint_key (row : json) : res (list json) :=
  require (bool_decide (width row = 12%nat)) "catalogue_constraint_shape";;
  require (is_str (cell row 0) && is_str (cell row 2)) "schema_violation";;
  require (is_null (cell row 1) || is_str (cell row 1)) "schema_violation";;
  require (is_text_ (cell row 3) && is_str (cell row 4)) "schema_violation";;
  require (forallb (λ i, is_bool (cell row i)) [5; 6; 7; 8; 9]%nat) "schema_violation";;
  require (match cell row 10 with JInt n => 0 <=? n | _ => false end) "schema_violation";;
  require (is_null (cell row 11) || is_str (cell row 11)) "schema_violation";;
  Ok [cell row 0; cell row 1; cell row 2].
Definition _constraints (catalogue : json) : res (list (list json * json)) :=
  keyed constraint_key "catalogue_constraint_identity_duplicate" (rows catalogue "constraints").

Definition relation_key (row : json) : res (list json) :=
  require (bool_decide (width row = 8%nat)) "catalogue_relation_shape";;
  require (forallb (λ i, is_text_ (cell row i)) [0; 1; 2; 3]%nat) "catalogue_relation_shape";;
  require (is_bool (cell row 4) && is_bool (cell row 5)) "catalogue_relation_shape";;
  require (is_null (cell row 6) || is_str (cell row 6)) "catalogue_relation_shape";;
  Ok [cell row 0; cell row 1].
Definition _relations (catalogue : json) : res (list (list json * json)) :=
  keyed relation_key "catalogue_relation_identity_duplicate" (rows catalogue "relations").

(** The kind of every relation, which is read again for the constraints. *)
Definition relation_kind_key (row : json) : res (list json) :=
  require (bool_decide (width row = 8%nat)) "catalogue_relation_shape";;
  require (forallb (λ i, is_str (cell row i)) [0; 1; 2]%nat) "catalogue_relation_shape";;
  Ok [cell row 0; cell row 1].

(** The orders in which changed rows are visited: pairs of texts, and the
    canonical text of an identity. *)
Definition pair_leb (a b : list json) : bool :=
  match a, b with
  | [x; y], [x'; y'] =>
      if bool_decide (str_of x = str_of x') then text_leb (str_of y) (str_of y')
      else text_leb (str_of x) (str_of x')
  | _, _ => true
  end.
Definition canonical_leb (a b : list json) : bool :=
  text_leb (dumps_compact (JArr a)) (dumps_compact (JArr b)).

Section catalogues.
Context `{CRY : Crypto} `{FL : Floats} `{FV : FloatValues} `{UCD : UnicodeDB}.

Definition _digest (raw : bytes) : pystr := lit "sha256:" ++ sha256 raw.
(** [_digest(canonical_json(row))]. *)
Definition row_digest (row : json) : res pystr := raw ← canonical_json row; Ok (_digest raw).

Definition _catalogue (raw : bytes) : res json :=
  value ← read_json raw;
  require (same_set (items_of value).*1 (lit <$> CATALOGUE_QUERIES)) "catalogue_categories_incomplete";;
  text ← canonical_json value;
  require (bool_decide (text = raw)) "catalogue_not_canonical";;
  mapM (λ kv : pystr * json,
    require (match kv.2 with JArr _ => true | _ => false end) "catalogue_rows_invalid";;
    require (forallb (λ row, match row with JArr _ => true | _ => false end) (list_of kv.2)) "catalogue_row_invalid")
    (items_of value);;
  Ok value.

(** All columns of two rows but [skipped] are equal. *)
Definition equal_but (skipped : list nat) (one two : json) (n : nat) : bool :=
  forallb (λ i, bool_decide (i ∈ skipped) || py_eq (cell one i) (cell two i)) (seq 0 n).

(** The access list that one of the two rows writes out. *)
Definition explicit_acl (one two : json) : json :=
  if is_null (cell one 6) then cell two 6 else cell one 6.

Definition changed_relation (original fresh : list (list json * json)) (id : list json) : res (list change) :=
  let one := row_of original id in
  let two := row_of fresh id in
  if py_eq one two then Ok []
  else
    require (bool_decide (cell one 2 = JStr (lit "r")) && bool_decide (cell two 2 = JStr (lit "r")) &&
             equal_but [6%nat] one two 8) "catalogue_relation_nonacl_mismatch";;
    require (negb (eqb (is_null (cell one 6)) (is_null (cell two 6)))) "catalogue_relation_acl_unsupported";;
    require (is_text_ (explicit_acl one two)) "catalogue_relation_acl_unsupported";;
    Ok [(id, one, two)].

Definition _changed_relation_acls (source restored : json) : res (list change) :=
  original ← _relations source;
  fresh ← _relations restored;
  require (same_set original.*1 fresh.*1) "catalogue_relation_inventory_mismatch";;
  found ← mapM (changed_relation original fresh) (sort_by pair_leb original.*1);
  Ok (mjoin found).

(** A text with something in it. *)
Definition is_expression (v : json) : bool :=
  match v with JStr s => negb (bool_decide (strip s = [])) | _ => false end.

Definition changed_check (original fresh kinds : list (list json * json)) (id : list json) : res (list change) :=
  let one := row_of original id in
  let two := row_of fresh id in
  if py_eq one two then Ok []
  else
    require (bool_decide (cell one 4 = JStr (lit "c")) && bool_decide (cell two 4 = JStr (lit "c")) &&
             bool_decide (cell one 9 = JBool true) && bool_decide (cell two 9 = JBool true) &&
             bool_decide (cell one 10 = JInt 0) && bool_decide (cell two 10 = JInt 0) &&
             bool_decide (cell (row_of kinds (take 2 id)) 2 = JStr (lit "r")) && is_str (cell (JArr id) 1))
      "catalogue_changed_constraint_unsupported";;
    require (equal_but [3; 11]%nat one two 12) "catalogue_constraint_flags_mismatch";;
    require (is_expression (cell one 11) && is_expression (cell two 11)) "catalogue_check_expression_absent";;
    Ok [(id, one, two)].

Definition _changed_checks (source restored : json) : res (list change) :=
  require (forallb (λ name, bool_decide (name ∈ ["constraints"; "relations"]%string) ||
                            py_eq (dot source name) (dot restored name)) CATALOGUE_QUERIES)
    "catalogue_noncheck_mismatch";;
  original ← _constraints source;
  fresh ← _constraints restored;
  require (same_set original.*1 fresh.*1) "catalogue_constraint_inventory_mismatch";;
  kinds ← keyed relation_kind_key "catalogue_relation_identity_duplicate" (rows restored "relations");
  found ← mapM (changed_check original fresh kinds) (sort_by canonical_leb original.*1);
  Ok (mjoin found).

(** [s.isascii() and s.isdecimal() and int(s) > 0]. *)
Definition positive_decimal (s : pystr) : res bool :=
  if negb (bool_decide (s = [])) && forallb (between 48 57) s
  then ensure (bool_decide (length s ≤ MAX_STR_DIGITS)%nat) (Exn ValueError "Exceeds the limit");; Ok (0 <? number s)
  else Ok false.

Record comparison_context := {
  ctx_request_digest : pystr;
  ctx_host_nonce : pystr;
  expected_source_cluster : pystr;
  expected_source_database : pystr;
}.

Definition _validate_context (c : comparison_context) : res unit :=
  sha (JStr (ctx_request_digest c)) true;;
  require (fullmatch Nonce (ctx_host_nonce c)) "schema_violation";;
  ok ← positive_decimal (expected_source_cluster c);
  require ok "schema_violation";;
  _shape (JStr (expected_source_database c)) (TText Identifier).

(** *** The verifier *)

Definition parser_ok (parser : json) (c : comparison_context) : res unit :=
  require ((160000 <=? int_of (dot parser "server_version_num")) &&
           (int_of (dot parser "server_version_num") <? 170000)) "catalogue_parser_version";;
  ok ← positive_decimal (str_of (dot parser "cluster_system_identifier"));
  require ok "schema_violation";;
  require (negb (bool_decide (str_of (dot parser "cluster_system_identifier") = expected_source_cluster c) &&
                 bool_decide (str_of (dot parser "database") = expected_source_database c)))
    "catalogue_parser_is_source_database".

(** The entries of a proof by what they are about. *)
Definition entry_key (n : nat) (entry : json) : res (list json) :=
  let names := list_of (dot entry "identity") in
  require (bool_decide (length names = n) && forallb is_text_ names) "schema_violation";; Ok names.

(** An entry names the two rows it compares. *)
Definition binds (entry one two : json) : res bool :=
  a ← row_digest one; b ← row_digest two;
  Ok (bool_decide (dot entry "source_row_digest" = JStr a) && bool_decide (dot entry "restored_row_digest" = JStr b)).

Definition verify_check (entries : list (list json * json)) (c : change) : res unit :=
  let '(id, one, two) := c in
  let entry := row_of entries id in
  bound ← binds entry one two;
  require bound "catalogue_check_row_binding_mismatch";;
  require (is_expression (dot entry "source_view_definition") &&
           bool_decide (dot entry "source_view_definition" = dot entry "restored_view_definition"))
    "catalogue_check_parse_mismatch".

Definition verify_acl (entries : list (list json * json)) (c : change) : res unit :=
  let '(id, one, two) := c in
  let entry := row_of entries id in
  bound ← binds entry one two;
  require bound "catalogue_relation_acl_row_binding_mismatch";;
  require (is_text_ (dot entry "server_default_acl") &&
           bool_decide (explicit_acl one two = dot entry "server_default_acl"))
    "catalogue_relation_acl_default_mismatch".

Definition verify_restore_comparison (proof source_catalogue restored_catalogue : bytes) (c : comparison_context)
    : res unit :=
  _validate_context c;;
  value ← read_json proof;
  _shape value RestoreComparison;;
  text ← canonical_json value;
  require (bool_decide (text = proof)) "catalogue_proof_not_canonical";;
  require (bool_decide (dot value "request_digest" = JStr (ctx_request_digest c)) &&
           bool_decide (dot value "host_nonce" = JStr (ctx_host_nonce c)) &&
           bool_decide (dot value "source_cluster_system_identifier" = JStr (expected_source_cluster c)) &&
           bool_decide (dot value "source_database" = JStr (expected_source_database c)))
    "catalogue_comparison_binding_mismatch";;
  require (bool_decide (dot value "source_catalogue_digest" = JStr (_digest source_catalogue)) &&
           bool_decide (dot value "restored_catalogue_digest" = JStr (_digest restored_catalogue)) &&
           bool_decide (dot value "restored_catalogue_after_digest" = JStr (_digest restored_catalogue)))
    "catalogue_comparison_digest_mismatch";;
  parser_ok (dot value "parser") c;;
  source ← _catalogue source_catalogue;
  restored ← _catalogue restored_catalogue;
  changed_acls ← _changed_relation_acls source restored;
  changed ← _changed_checks source restored;
  entries ← keyed (entry_key 3) "catalogue_check_proof_duplicate" (list_of (dot value "checks"));
  require (same_set entries.*1 (fst ∘ fst <$> changed)) "catalogue_check_proof_coverage";;
  mapM (verify_check entries) changed;;
  acl_entries ← keyed (entry_key 2) "catalogue_relation_acl_proof_duplicate" (list_of (dot value "relation_acls"));
  require (same_set acl_entries.*1 (fst ∘ fst <$> changed_acls)) "catalogue_relation_acl_proof_coverage";;
  mapM (verify_acl acl_entries) changed_acls;;
  Ok tt.
End catalogues.

(** ** Rows by their keys *)

Lemma keyed_Ok key dup l d :
  keyed key dup l = Ok d → d.*2 = l ∧ Forall (λ kr, key kr.2 = Ok kr.1) d ∧ NoDup d.*1.
Proof.
  unfold keyed. set (f := λ acc row, _).
  assert (Hraise : ∀ m e, foldl f (Raise e) m = Raise e) by (induction m; intros; [done|by simpl]).
  enough (H : ∀ m d0, Forall (λ kr, key kr.2 = Ok kr.1) d0 → NoDup d0.*1 → foldl f (Ok d0) m = Ok d →
              d.*2 = d0.*2 ++ m ∧ Forall (λ kr, key kr.2 = Ok kr.1) d ∧ NoDup d.*1).
  { intros Hd. by apply (H l []) in Hd; [|constructor|constructor]. }
  clear l. intros m. induction m as [|row m IH]; intros d0 Hk Hn H.
  { injection H as <-. by rewrite app_nil_r. }
  cbn [foldl] in H. destruct (f (Ok d0) row) as [d1|e] eqn:Hf; [|by rewrite Hraise in H].
  unfold f in Hf. simpl in Hf. apply bind_Ok in Hf as (k & Hkey & Hf). apply bind_Ok in Hf as (u & Hnew & Hf).
  apply ensure_Ok in Hnew. bool_hyps. injection Hf as <-. rewrite dict_set_new in H by done.
  apply IH in H as (H1 & H2 & H3).
  - split_and!; [|done..]. by rewrite H1, fmap_app, <- app_assoc.
  - apply Forall_app. by split; [|repeat constructor].
  - rewrite fmap_app. apply NoDup_app. split_and!; [done| |apply NoDup_singleton].
    intros x Hx ->%list_elem_of_singleton. done.
Qed.

(** Two lists of rows have the same keys, each once, and the rows of a key are
    related. *)
Definition matched (key : json → res (list json)) (R : list json → json → json → Prop) (l m : list json) : Prop :=
  ∃ kl km, mapM key l = Ok kl ∧ mapM key m = Ok km ∧ NoDup kl ∧ NoDup km ∧ (∀ k, k ∈ kl ↔ k ∈ km) ∧
    ∀ x y k, x ∈ l → y ∈ m → key x = Ok k → key y = Ok k → R k x y.

Lemma same_set_iff {A} `{EqDecision A} (a b : list A) : same_set a b = true ↔ ∀ x, x ∈ a ↔ x ∈ b.
Proof.
  unfold same_set. rewrite andb_true_iff, !forallb_forall. split.
  - intros [H1 H2] x. split; intros Hx%list_elem_of_In; [apply H1 in Hx|apply H2 in Hx]; by bool_hyps.
  - intros H. split; intros x Hx%list_elem_of_In; apply bool_decide_eq_true; by apply H.
Qed.

Lemma keyed_mapM key dup l d : keyed key dup l = Ok d → mapM key l = Ok d.*1.
Proof.
  intros (<- & Hk & _)%keyed_Ok. apply mapM_Ok. induction Hk as [|[k r] d Hkr _ IH]; csimpl; [constructor|by constructor].
Qed.
Lemma keyed_row key dup l d x k : keyed key dup l = Ok d → x ∈ l → key x = Ok k → k ∈ d.*1 ∧ row_of d k = x.
Proof.
  intros (<- & Hk & Hn)%keyed_Ok Hx Hkey. apply list_elem_of_fmap in Hx as ([k' r] & -> & Hin).
  rewrite Forall_forall in Hk. pose proof (Hk _ Hin) as Hk'. simpl in *. rewrite Hkey in Hk'. injection Hk' as <-.
  split; [apply list_elem_of_fmap; by exists (k, r)|]. unfold row_of. by rewrite (dict_get_NoDup d k r).
Qed.
Lemma keyed_matched key dup l m dl dm R :
  keyed key dup l = Ok dl → keyed key dup m = Ok dm → same_set dl.*1 dm.*1 = true →
  (∀ k, k ∈ dl.*1 → R k (row_of dl k) (row_of dm k)) → matched key R l m.
Proof.
  intros Hl Hm Hs HR. exists dl.*1, dm.*1. split_and!; try by eapply keyed_mapM.
  - by apply keyed_Ok in Hl as (_ & _ & ?).
  - by apply keyed_Ok in Hm as (_ & _ & ?).
  - by apply same_set_iff.
  - intros x y k Hx Hy Hkx Hky. destruct (keyed_row _ _ _ _ _ _ Hl Hx Hkx) as [Hk <-].
    destruct (keyed_row _ _ _ _ _ _ Hm Hy Hky) as [_ <-]. by apply HR.
Qed.

(** ** What may differ *)

Section comparison.
Context `{CRY : Crypto} `{FL : Floats} `{FV : FloatValues} `{UCD : UnicodeDB}.

(** An entry of the proof is about the two rows of an identity. *)
Definition about (entries : list json) (id : list json) (one two entry : json) : Prop :=
  entry ∈ entries ∧ list_of (dot entry "identity") = id ∧
  ∃ a b, row_digest one = Ok a ∧ row_digest two = Ok b ∧
         dot entry "source_row_digest" = JStr a ∧ dot entry "restored_row_digest" = JStr b.

(** Two relations are the same, or tables that differ in that one writes out
    the access list which the server has for the other by default. *)
Definition same_relation (proof : json) (id : list json) (one two : json) : Prop :=
  py_eq one two = true ∨
  (cell one 2 = JStr (lit "r") ∧ cell two 2 = JStr (lit "r") ∧ equal_but [6%nat] one two 8 = true ∧
   is_null (cell one 6) ≠ is_null (cell two 6) ∧
   ∃ entry, about (list_of (dot proof "relation_acls")) id one two entry ∧
            explicit_acl one two = dot entry "server_default_acl").
(** Two constraints are the same, or validated CHECKs of a table that differ in
    the text of an expression the server reads back the same. *)
Definition same_constraint (proof : json) (id : list json) (one two : json) : Prop :=
  py_eq one two = true ∨
  (cell one 4 = JStr (lit "c") ∧ cell two 4 = JStr (lit "c") ∧ equal_but [3; 11]%nat one two 12 = true ∧
   ∃ entry, about (list_of (dot proof "checks")) id one two entry ∧
            is_expression (dot entry "source_view_definition") = true ∧
            dot entry "source_view_definition" = dot entry "restored_view_definition").

(** The changed rows, whichever they are. *)
Lemma found_all {A} (f : A → res (list change)) (l m : list A) (found : list (list change)) :
  l ≡ₚ m → mapM f l = Ok found → ∀ x, x ∈ m → ∃ cs, f x = Ok cs ∧ ∀ c, c ∈ cs → c ∈ mjoin found.
Proof.
  intros Hp Hf%mapM_Ok x Hx. rewrite <- Hp in Hx. apply list_elem_of_lookup in Hx as [i Hi].
  destruct (Forall2_lookup_l _ _ _ _ _ Hf Hi) as (cs & Hcs & Hx). exists cs. split; [done|]. intros c Hc.
  apply list_elem_of_join. exists cs. split; [done|]. by eapply list_elem_of_lookup_2.
Qed.
Lemma changes_Ok {A} (f : A → res unit) (l : list A) (u : list unit) x : mapM f l = Ok u → x ∈ l → f x = Ok tt.
Proof.
  intros Hf%mapM_Ok [i Hi]%list_elem_of_lookup. destruct (Forall2_lookup_l _ _ _ _ _ Hf Hi) as ([] & _ & H). done.
Qed.

(** The entry of a changed row. *)
Lemma entry_about n dup entries d id one two :
  keyed (entry_key n) dup entries = Ok d → id ∈ d.*1 → binds (row_of d id) one two = Ok true →
  about entries id one two (row_of d id).
Proof.
  intros Hd Hid Hb. destruct (keyed_Ok _ _ _ _ Hd) as (Hv & Hk & Hn).
  apply list_elem_of_fmap in Hid as ([k entry] & -> & Hin). 
  assert (Hrow : row_of d k = entry) by (unfold row_of; by rewrite (dict_get_NoDup d k entry)). simpl in Hb |- *.
  rewrite Hrow in *. rewrite Forall_forall in Hk. pose proof (Hk _ Hin) as He. simpl in He. unfold entry_key in He.
  apply bind_Ok in He as (u & _ & [= He]). split_and!.
  - rewrite <- Hv. apply list_elem_of_fmap. by exists (k, entry).
  - done.
  - unfold binds in Hb. apply bind_Ok in Hb as (a & Ha & Hb). apply bind_Ok in Hb as (b & Hb' & [= Hb]).
    exists a, b. by bool_hyps.
Qed.

Lemma relations_same proof source restored changed d u :
  _changed_relation_acls source restored = Ok changed →
  keyed (entry_key 2) "catalogue_relation_acl_proof_duplicate" (list_of (dot proof "relation_acls")) = Ok d →
  same_set d.*1 (fst ∘ fst <$> changed) = true → mapM (verify_acl d) changed = Ok u →
  matched relation_key (same_relation proof) (rows source "relations") (rows restored "relations").
Proof.
  unfold _changed_relation_acls. intros H Hd Hs Hv. apply bind_Ok in H as (original & Ho & H).
  apply bind_Ok in H as (fresh & Hf & H). apply bind_Ok in H as (u0 & Hset & H). apply ensure_Ok in Hset.
  apply bind_Ok in H as (found & Hfound & [= <-]). eapply keyed_matched; [done..|]. intros id Hid.
  destruct (found_all _ _ _ _ (sort_by_perm _ _) Hfound id Hid) as (cs & Hcs & Hin). unfold changed_relation in Hcs.
  unfold same_relation. destruct (py_eq _ _); [by left|right].
  apply bind_Ok in Hcs as (u1 & H1%ensure_Ok & Hcs). apply bind_Ok in Hcs as (u2 & H2%ensure_Ok & Hcs).
  apply bind_Ok in Hcs as (u3 & _ & [= <-]). specialize (Hin (id, row_of original id, row_of fresh id) ltac:(by left)).
  pose proof (changes_Ok _ _ _ _ Hv Hin) as Hver. unfold verify_acl in Hver.
  apply bind_Ok in Hver as (bound & Hbound & Hver). apply bind_Ok in Hver as (u4 & H4%ensure_Ok & H5%ensure_Ok).
  subst bound. bool_hyps. split_and!; try done.
  - intros E. by rewrite E, eqb_reflx in H2.
  - exists (row_of d id). split; [|done]. eapply entry_about; [done| |done].
    rewrite same_set_iff in Hs. apply Hs, list_elem_of_fmap. by eexists (id, _, _).
Qed.
Lemma constraints_same proof source restored changed d u :
  _changed_checks source restored = Ok changed →
  keyed (entry_key 3) "catalogue_check_proof_duplicate" (list_of (dot proof "checks")) = Ok d →
  same_set d.*1 (fst ∘ fst <$> changed) = true → mapM (verify_check d) changed = Ok u →
  (∀ name, name ∈ CATALOGUE_QUERIES → name ∉ ["constraints"; "relations"]%string → py_eq (dot source name) (dot restored name) = true) ∧
  matched constraint_key (same_constraint proof) (rows source "constraints") (rows restored "constraints").
Proof.
  unfold _changed_checks. intros H Hd Hs Hv. apply bind_Ok in H as (u0 & Hrest%ensure_Ok & H).
  apply bind_Ok in H as (original & Ho & H). apply bind_Ok in H as (fresh & Hf & H).
  apply bind_Ok in H as (u1 & Hset%ensure_Ok & H). apply bind_Ok in H as (kinds & _ & H).
  apply bind_Ok in H as (found & Hfound & [= <-]). split.
  { intros name Hname Hout. rewrite forallb_forall in Hrest. apply list_elem_of_In, Hrest in Hname.
    apply orb_true_iff in Hname as [Hin|?]; [|done]. apply bool_decide_eq_true in Hin. done. }
  eapply keyed_matched; [done..|]. intros id Hid.
  destruct (found_all _ _ _ _ (sort_by_perm _ _) Hfound id Hid) as (cs & Hcs & Hin). unfold changed_check in Hcs.
  unfold same_constraint. destruct (py_eq _ _); [by left|right].
  apply bind_Ok in Hcs as (u2 & H1%ensure_Ok & Hcs). apply bind_Ok in Hcs as (u3 & H2%ensure_Ok & Hcs).
  apply bind_Ok in Hcs as (u4 & _ & [= <-]). specialize (Hin (id, row_of original id, row_of fresh id) ltac:(by left)).
  pose proof (changes_Ok _ _ _ _ Hv Hin) as Hver. unfold verify_check in Hver.
  apply bind_Ok in Hver as (bound & Hbound & Hver). apply bind_Ok in Hver as (u5 & H4%ensure_Ok & H5%ensure_Ok).
  subst bound. bool_hyps. split_and!; try done.
  exists (row_of d id). split; [|done]. eapply entry_about; [done| |done].
  rewrite same_set_iff in Hs. apply Hs, list_elem_of_fmap. by eexists (id, _, _).
Qed.

(** C15: A comparison that [verify_restore_comparison] accepts is the proof for
    this request, attempt and source database, of these two catalogues, made on
    another database than the source, and the catalogues have the same rows in
    every category but relations and constraints; relations and constraints have
    the same identities, each once, and for each identity the two rows are the
    same, or differ only as [same_relation] and [same_constraint] say, with an
    entry of the proof about just these two rows. *)
Theorem comparison_sound proof a b c :
  verify_restore_comparison proof a b c = Ok tt →
  ∃ value source restored,
    read_json proof = Ok value ∧ _catalogue a = Ok source ∧ _catalogue b = Ok restored ∧
    dot value "request_digest" = JStr (ctx_request_digest c) ∧ dot value "host_nonce" = JStr (ctx_host_nonce c) ∧
    dot value "source_catalogue_digest" = JStr (_digest a) ∧
    dot value "restored_catalogue_digest" = JStr (_digest b) ∧
    dot value "restored_catalogue_after_digest" = JStr (_digest b) ∧
    (str_of (dot (dot value "parser") "cluster_system_identifier"), str_of (dot (dot value "parser") "database")) ≠
      (expected_source_cluster c, expected_source_database c) ∧
    (∀ name, name ∈ CATALOGUE_QUERIES → name ∉ ["constraints"; "relations"]%string →
             py_eq (dot source name) (dot restored name) = true) ∧
    matched relation_key (same_relation value) (rows source "relations") (rows restored "relations") ∧
    matched constraint_key (same_constraint value) (rows source "constraints") (rows restored "constraints").
Proof.
  unfold verify_restore_comparison. intros H. apply bind_Ok in H as (u0 & _ & H). apply bind_Ok in H as (value & Hp & H).
  apply bind_Ok in H as (u1 & _ & H). apply bind_Ok in H as (t & _ & H). apply bind_Ok in H as (u2 & _ & H).
  apply bind_Ok in H as (u3 & Hb%ensure_Ok & H). apply bind_Ok in H as (u4 & Hd%ensure_Ok & H).
  apply bind_Ok in H as (u5 & Hparser & H). apply bind_Ok in H as (source & Ha & H).
  apply bind_Ok in H as (restored & Hr & H). apply bind_Ok in H as (acls & Hacls & H).
  apply bind_Ok in H as (checks & Hchecks & H). apply bind_Ok in H as (d & Hk & H).
  apply bind_Ok in H as (u6 & Hs%ensure_Ok & H). apply bind_Ok in H as (u7 & Hv & H).
  apply bind_Ok in H as (d' & Hk' & H). apply bind_Ok in H as (u8 & Hs'%ensure_Ok & H). apply bind_Ok in H as (u9 & Hv' & _).
  unfold parser_ok in Hparser. apply bind_Ok in Hparser as (v0 & _ & Hparser). apply bind_Ok in Hparser as (v1 & _ & Hparser).
  apply bind_Ok in Hparser as (v2 & _ & Hparser%ensure_Ok).
  pose proof (relations_same _ _ _ _ _ _ Hacls Hk' Hs' Hv') as Hrel.
  pose proof (constraints_same _ _ _ _ _ _ Hchecks Hk Hs Hv) as [Hrest Hcon].
  exists value, source, restored. bool_hyps. split_and!; try done.
  intros [= E1 E2]. apply negb_true_iff in Hparser. rewrite E1, E2, !bool_decide_eq_true_2 in Hparser by done. done.
Qed.
End comparison.
