(* ===== verification/TransitionStore.v ===== *)
(** * The transition's retained artifacts

    The store of [deployment/cp_transition.py] ([ArtifactStore]) and its other
    reads of protected files, over the system calls they make, the class
    [Machine].  Files are created exclusively and never replaced; a name that
    was once created is consumed, whatever became of the write. *)

From S2P Require Import Prelude PyText PyUuid PyDate PyTime Json JsonReader JsonRound Effects Contracts.

#[local] Open Scope Z_scope.

(** ** Files *)

(** [os.stat_result], and the kind that [stat.S_ISDIR] and [stat.S_ISREG] tell. *)
Inductive file_kind := Directory | Regular | OtherFile.
#[export] Instance file_kind_eq_dec : EqDecision file_kind.
Proof. solve_decision. Defined.
Record stat_result := { st_uid : Z; st_mode : Z; st_nlink : Z; st_kind : file_kind }.

(** [pathlib.Path]: whether it is absolute, and the components after the root. *)
Record path := Path { is_absolute : bool; parts : list pystr }.
#[export] Instance path_eq_dec : EqDecision path.
Proof. solve_decision. Defined.
Definition parent (p : path) : path := Path (is_absolute p) (removelast (parts p)).
Definition child (p : path) (name : pystr) : path := Path (is_absolute p) (parts p ++ [name]).
Definition file_name (p : path) : pystr := default [] (last (parts p)).

(** What the code asks of the operating system.  A directory is opened
    component by component without following links, and the status of what was
    opened is read. *)
Class Machine := {
  world : Type;
  open_directory_at : list pystr → proc world exn stat_result;
  (** [os.open(O_WRONLY | O_CREAT | O_EXCL | O_NOFOLLOW)] and [os.fstat] *)
  create_file : list pystr → proc world exn stat_result;
  (** [os.write], [os.fsync] of the file and of its directory *)
  os_write : list pystr → bytes → proc world exn Z;
  os_fsync : list pystr → proc world exn unit;
  (** [os.open(O_RDONLY | O_NOFOLLOW)] and [os.fstat] *)
  open_file : list pystr → proc world exn stat_result;
  (** [stream.read(limit)] and [stream.read()] *)
  read_file : list pystr → option Z → proc world exn bytes;
  (** [subprocess.run] with the environment: the return code and the standard output *)
  run_program : list pystr → list (pystr * pystr) → proc world exn (Z * bytes);
  (** [secrets.token_hex(32)] *)
  token_hex : proc world exn pystr;
}.

(** [try: m finally: c]. *)
Definition finally {W E A} (m : proc W E A) (c : proc W E unit) : proc W E A := λ w,
  match m w with
  | (Ret a, w') => (c;; mret a) w'
  | (Throw e, w') => (c;; throw e) w'
  | (Diverge, w') => (Diverge, w')
  end.

Section machine.
Context `{MCH : Machine}.
#[local] Abbreviation proc := (proc world exn).

(** [require(b, code)], and a pure step. *)
Definition demands (b : bool) (code : string) : proc unit := Effects.require b (refusal code).
Definition purely {A} (m : res A) : proc A := match m with Ok a => mret a | Raise e => throw e end.

Definition _protected (info : stat_result) (directory : bool) : proc unit :=
  demands ((st_uid info =? 0) && (Z.land (st_mode info) 18 =? 0)) "unsafe_artifact_path";;
  demands (bool_decide (st_kind info = if directory then Directory else Regular)) "unsafe_artifact_path";;
  if directory then mret tt else demands (st_nlink info =? 1) "unsafe_artifact_path".

(** The directories from the root down to [p]. *)
Fixpoint walk (above below : list pystr) : proc unit :=
  info ← open_directory_at above; _protected info true;;
  match below with
  | [] => mret tt
  | part :: below => walk (above ++ [part]) below
  end.
Definition _open_directory (p : path) : proc unit :=
  demands (is_absolute p && negb (bool_decide (lit ".." ∈ parts p))) "unsafe_artifact_path";;
  walk [] (parts p).

(** [while view: ...]; every turn writes at least one byte. *)
Fixpoint write_view (fuel : nat) (p : list pystr) (view : bytes) : proc unit :=
  match view, fuel with
  | [], _ => mret tt
  | _, O => λ w, (Diverge, w)
  | _, S fuel =>
      written ← os_write p view;
      demands (0 <? written) "artifact_write_failed";;
      write_view fuel p (drop (Z.to_nat written) view)
  end.

(** [_read_protected(path)]. *)
Definition _read_protected (p : path) : proc bytes :=
  _open_directory (parent p);;
  info ← open_file (parts p); _protected info false;;
  read_file (parts p) None.
End machine.

(** ** The store *)

Inductive artifact := Reservation | Evidence | Receipt.
#[export] Instance artifact_eq_dec : EqDecision artifact.
Proof. solve_decision. Defined.
Definition artifact_text (k : artifact) : pystr :=
  match k with Reservation => lit "reservation" | Evidence => lit "evidence" | Receipt => lit "receipt" end.

Definition MAX_ARTIFACT : Z := 16777216.

Section store.
Context `{MCH : Machine} `{CRY : Crypto}.
#[local] Abbreviation proc := (proc world exn).

Definition raw_digest (raw : bytes) : pystr := lit "sha256:" ++ sha256 raw.

(** [ArtifactStore(root)]. *)
Context (root : path).

Definition _name (checksum : pystr) (kind : artifact) : res pystr :=
  sha (JStr checksum) true;;
  Ok (drop 7 checksum ++ 46 :: artifact_text kind ++ lit ".json").

Definition _create (name : pystr) (raw : bytes) : proc unit :=
  _open_directory root;;
  let file := parts (child root name) in
  info ← create_file file;
  finally (_protected info false;; write_view (length raw) file raw;; os_fsync file) (os_fsync (parts root)).

Definition read (checksum : pystr) (kind : artifact) : proc bytes :=
  _open_directory root;;
  name ← purely (_name checksum kind);
  let file := parts (child root name) in
  info ← open_file file; _protected info false;;
  raw ← read_file file (Some (MAX_ARTIFACT + 1));
  demands (Z.of_nat (length raw) <=? MAX_ARTIFACT) "artifact_too_large";;
  (if bool_decide (kind = Reservation) then mret tt
   else demands (bool_decide (raw_digest raw = checksum)) "artifact_digest_mismatch");;
  mret raw.

Definition put (raw : bytes) (kind : artifact) : proc pystr :=
  demands (negb (bool_decide (kind = Reservation)) && negb (bool_decide (raw = []))) "schema_violation";;
  let checksum := raw_digest raw in
  name ← purely (_name checksum kind);
  _create name raw;;
  back ← read checksum kind;
  demands (bool_decide (back = raw)) "artifact_readback_mismatch";;
  mret checksum.
End store.

(** ** The globals of a cluster *)

Definition GLOBALS_BOOTSTRAP_STATEMENT : bytes := lit "CREATE ROLE postgres;" ++ [10].

(** [stream.readline(limit)]: the part and what follows it. *)
Fixpoint readline (limit : Z) (s : bytes) : bytes * bytes :=
  match s with
  | [] => ([], [])
  | c :: s' =>
      if limit <=? 0 then ([], s)
      else if c =? 10 then ([c], s')
      else let '(part, rest) := readline (limit - 1) s' in (c :: part, rest)
  end.
Definition LINE_LIMIT : Z := 1048576.

(** [while part := stream.readline(...)]: what is kept, and how many statements
    were left out. *)
Fixpoint without_bootstrap (fuel : nat) (beginning : bool) (s : bytes) : bytes * Z :=
  match fuel, s with
  | O, _ | _, [] => ([], 0)
  | S fuel, _ =>
      let '(part, rest) := readline LINE_LIMIT s in
      let '(kept, removed) := without_bootstrap fuel (bool_decide (last part = Some 10)) rest in
      if beginning && bool_decide (part = GLOBALS_BOOTSTRAP_STATEMENT)
      then (kept, removed + 1) else (part ++ kept, removed)
  end.

Definition globals_replay_fingerprint `{MCH : Machine} `{CRY : Crypto} (p : path) : proc world exn (pystr * Z) :=
  _open_directory (parent p);;
  info ← open_file (parts p); _protected info false;;
  raw ← read_file (parts p) None;
  let '(kept, removed) := without_bootstrap (length raw) true raw in
  demands ((removed =? 1) && negb (bool_decide (kept = []))) "globals_bootstrap_statement_count";;
  mret (lit "sha256:" ++ sha256 kept, Z.of_nat (length kept)).
