(* ===== verification/CatalogueCapture.v ===== *)
(** * The capture of a restore comparison

    [measure_catalogue] and [capture_restore_comparison] of
    [deployment/cp_catalogue.py], on a connection to the restored database, the
    class [Restored].  Whatever the capture does to the database is inside
    savepoints that it always rolls back. *)

From S2P Require Import Prelude PyText PyUuid PyDate PyTime Json JsonReader JsonRound Effects Contracts TransitionStore Catalogue.

#[local] Open Scope Z_scope.

(** ** The connection *)

(** What is asked of the server: the rows of a category of [CATALOGUE_QUERIES];
    the version, cluster, database and settings; [acldefault('r', owner)]; and
    [pg_get_viewdef] of a temporary view. *)
Inductive statement :=
  | CatalogueRows (name : string)
  | ParserSettings
  | AclDefault (owner : json)
  | ViewDefinition (name : pystr).

Class Restored := {
  db : Type;
  (** [connection.dialect.name], and that the driver is psycopg 3 *)
  dialect_name : pystr;
  psycopg_driver : bool;
  (** [connection.dialect.identifier_preparer.quote] *)
  quote : pystr → pystr;
  autocommit : proc db exn bool;
  in_transaction : proc db exn bool;
  (** [begin_nested()] and [transaction(force_rollback=True)]: a savepoint, and
      the rollback to the last one *)
  savepoint : proc db exn unit;
  rollback : proc db exn unit;
  (** [exec_driver_sql] of a SET LOCAL *)
  set_local : string → string → proc db exn unit;
  query : statement → proc db exn (list (list json));
  (** [cursor.execute(statement, prepare=True)] *)
  execute_prepared : pystr → proc db exn unit;
  (** [secrets.token_hex(16)] *)
  short_token : proc db exn pystr;
}.

Section capture.
Context `{RST : Restored} `{CRY : Crypto} `{FL : Floats} `{FV : FloatValues} `{UCD : UnicodeDB}.
#[local] Abbreviation proc := (Effects.proc db exn).
#[local] Abbreviation demands b code := (Effects.require b (refusal code)).

(** A pure step. *)
Definition exactly {A} (m : res A) : proc A := match m with Ok a => mret a | Raise e => throw e end.
(** [scalar_one()] *)
Definition scalar_one (rows : list (list json)) : proc json :=
  match rows with [v :: _] => mret v | _ => throw (Exn NoResultFound "") end.

Definition _driver : proc unit :=
  demands (bool_decide (dialect_name = lit "postgresql")) "catalogue_postgres_required";;
  demands psycopg_driver "catalogue_psycopg3_required".

(** [with _fixed_deparse(connection): body]. *)
Definition fixed_deparse {A} (body : proc A) : proc A :=
  _driver;; savepoint;;
  finally (set_local "search_path" "pg_catalog";; set_local "standard_conforming_strings" "on";; body) rollback.

Definition measure_catalogue : proc bytes :=
  fixed_deparse (
    value ← traverse (λ name, found ← query (CatalogueRows name); mret (lit name, JArr (JArr <$> found))) CATALOGUE_QUERIES;
    exactly (canonical_json (JObj value))).

Definition _parse_view (schema table expression : json) : proc json :=
  token ← short_token;
  let name := lit "cp_restore_" ++ token in
  _driver;;
  execute_prepared (lit "CREATE TEMP VIEW " ++ quote name ++ lit " AS SELECT (" ++ str_of expression ++
                    lit ") AS constraint_value FROM " ++ quote (str_of schema) ++ lit "." ++ quote (str_of table));;
  found ← query (ViewDefinition name);
  definition ← scalar_one found;
  demands (is_expression definition) "schema_violation";;
  mret definition.

Definition observe_parser (c : comparison_context) : proc json :=
  found ← query ParserSettings;
  row ← (match found with [row] => mret row | _ => throw (Exn NoResultFound "") end);
  let at_ i := default JNull (row !! i) in
  demands ((160000 <=? int_of (at_ 0%nat)) && (int_of (at_ 0%nat) <? 170000)) "catalogue_parser_version";;
  demands (negb (bool_decide (at_ 1%nat = JStr (expected_source_cluster c)) &&
                 bool_decide (at_ 2%nat = JStr (expected_source_database c)))) "catalogue_parser_is_source_database";;
  mret (JObj [(lit "server_version_num", at_ 0%nat); (lit "cluster_system_identifier", at_ 1%nat); (lit "database", at_ 2%nat);
              (lit "search_path", at_ 3%nat); (lit "standard_conforming_strings", at_ 4%nat)]).

(** The fields of an entry that name the rows it is about. *)
Definition entry_fields (id : list json) (one two : json) : res (list (pystr * json)) :=
  a ← row_digest one; b ← row_digest two;
  Ok [(lit "identity", JArr id); (lit "source_row_digest", JStr a); (lit "restored_row_digest", JStr b)].

Definition compare_acl (c : change) : proc json :=
  let '(id, one, two) := c in
  found ← query (AclDefault (cell two 3));
  default_acl ← scalar_one found;
  demands (is_text_ default_acl) "catalogue_relation_acl_default_absent";;
  demands (bool_decide (explicit_acl one two = default_acl)) "catalogue_relation_acl_default_mismatch";;
  fields ← exactly (entry_fields id one two);
  mret (JObj (fields ++ [(lit "server_default_acl", default_acl)])).

Definition compare_check (c : change) : proc json :=
  let '(id, one, two) := c in
  let schema := cell (JArr id) 0 in
  let table := cell (JArr id) 1 in
  demands (is_str table) "schema_violation";;
  source_view ← _parse_view schema table (cell one 11);
  restored_view ← _parse_view schema table (cell two 11);
  fields ← exactly (entry_fields id one two);
  mret (JObj (fields ++ [(lit "source_view_definition", source_view); (lit "restored_view_definition", restored_view)])).

(** [except psycopg.Error: raise ContractError("catalogue_parser_refused")]. *)
Definition refusing {A} (m : proc A) : proc A :=
  try_except m (λ e, throw (if bool_decide (exn_kind e = PsycopgError) then refusal "catalogue_parser_refused" else e)).

Definition compare_live (changed_acls changed : list change) (c : comparison_context)
    : proc (json * list json * list json) :=
  fixed_deparse (
    set_local "statement_timeout" "10s";; set_local "lock_timeout" "5s";;
    parser ← observe_parser c;
    relation_acls ← traverse compare_acl changed_acls;
    checks ← traverse compare_check changed;
    mret (parser, relation_acls, checks)).

Definition comparison_document (c : comparison_context) (a b : bytes) (parser : json) (relation_acls checks : list json)
    (after : pystr) : json := JObj
  [(lit "schema", JStr (lit COMPARISON_SCHEMA)); (lit "request_digest", JStr (ctx_request_digest c));
   (lit "host_nonce", JStr (ctx_host_nonce c));
   (lit "source_cluster_system_identifier", JStr (expected_source_cluster c));
   (lit "source_database", JStr (expected_source_database c)); (lit "source_catalogue_digest", JStr (_digest a));
   (lit "restored_catalogue_digest", JStr (_digest b)); (lit "method", JStr (lit COMPARISON_METHOD)); (lit "parser", parser);
   (lit "checks", JArr checks); (lit "relation_acls", JArr relation_acls); (lit "restored_catalogue_after_digest", JStr after)].

(** The last step of the [finally] block; what it measured is what it requires. *)
Definition unchanged (b : bytes) : proc unit :=
  rollback;; after ← measure_catalogue; demands (bool_decide (after = b)) "catalogue_changed_during_parse".

Definition capture_restore_comparison (a b : bytes) (c : comparison_context) : proc bytes :=
  exactly (_validate_context c);;
  source ← exactly (_catalogue a);
  restored ← exactly (_catalogue b);
  changed_acls ← exactly (_changed_relation_acls source restored);
  changed ← exactly (_changed_checks source restored);
  _driver;;
  auto ← autocommit;
  inside ← (if (auto : bool) then mret false else in_transaction);
  demands inside "catalogue_parser_transaction_required";;
  live ← measure_catalogue;
  demands (bool_decide (live = b)) "catalogue_live_restore_mismatch";;
  savepoint;;
  '(parser, relation_acls, checks) ← finally (refusing (compare_live changed_acls changed c)) (unchanged b);
  proof ← exactly (canonical_json (comparison_document c a b parser relation_acls checks (_digest b)));
  exactly (verify_restore_comparison proof a b c);;
  mret proof.
End capture.

(** ** Savepoints *)

(** The documented behaviour of the server: a rollback, however it ends, puts
    back what the database held at the last savepoint; settings and statements
    in between touch no earlier one; reading changes nothing. *)
Class Savepoints `{RST : Restored} := {
  held : Type;
  contents : db → held;
  saved : db → list held;
  savepoint_out w o w' :
    savepoint w = (o, w') →
    contents w' = contents w ∧ saved w' = match o with Ret _ => contents w :: saved w | _ => saved w end;
  rollback_out w o w' s r : rollback w = (o, w') → saved w = s :: r → contents w' = s ∧ saved w' = r;
  set_local_out k v : keeps saved (set_local k v);
  prepared_out s : keeps saved (execute_prepared s);
  query_out s : keeps contents (query s) ∧ keeps saved (query s);
  autocommit_out : keeps contents autocommit ∧ keeps saved autocommit;
  in_transaction_out : keeps contents in_transaction ∧ keeps saved in_transaction;
  short_token_out : keeps contents short_token ∧ keeps saved short_token;
}.

Section savepoints.
Context `{SVP : Savepoints} `{CRY : Crypto} `{FL : Floats} `{FV : FloatValues} `{UCD : UnicodeDB}.
#[local] Abbreviation proc := (Effects.proc db exn).

(** However it ends, if it does, the state before and after are related. *)
Definition upholds {A} (R : db → db → Prop) (m : proc A) : Prop :=
  ∀ w o w', m w = (o, w') → o ≠ Diverge → R w w'.
(** No savepoint is lost; and nothing is left behind at all. *)
Definition same_saved (w w' : db) : Prop := saved w' = saved w.
Definition untouched (w w' : db) : Prop := contents w' = contents w ∧ saved w' = saved w.

Section relations.
Context (R : db → db → Prop) `{!PreOrder R}.
Lemma upholds_ret {A} (a : A) : upholds R (mret a).
Proof. by intros w o w' [= <- <-] _. Qed.
Lemma upholds_throw {A} e : upholds R (throw (A := A) e).
Proof. by intros w o w' [= <- <-] _. Qed.
Lemma upholds_require b e : upholds R (Effects.require b e).
Proof. destruct b; [apply upholds_ret|apply upholds_throw]. Qed.
Lemma upholds_exactly {A} (m : res A) : upholds R (exactly m).
Proof. destruct m; [apply upholds_ret|apply upholds_throw]. Qed.
Lemma upholds_bind {A B} (m : proc A) (f : A → proc B) :
  upholds R m → (∀ a, upholds R (f a)) → upholds R (m ≫= f).
Proof.
  intros Hm Hf w o w'. rewrite bind_eq. destruct (m w) as [q v] eqn:H.
  destruct q as [a|e|]; [|by intros [= <- <-] Ho; eapply Hm..].
  intros H' Ho. etrans; [by eapply Hm|by eapply Hf].
Qed.
Lemma upholds_traverse {A B} (f : A → proc B) l : (∀ x, upholds R (f x)) → upholds R (traverse f l).
Proof.
  intros Hf. induction l as [|x l IH]; simpl; [apply upholds_ret|].
  apply upholds_bind; [done|intros y]. apply upholds_bind; [done|intros ys]. apply upholds_ret.
Qed.
Lemma upholds_driver : upholds R _driver.
Proof. apply upholds_bind; [apply upholds_require|intros _; apply upholds_require]. Qed.
End relations.

#[export] Instance same_saved_preorder : PreOrder same_saved.
Proof. split; [done|]. intros u v w H1 H2. unfold same_saved in *. congruence. Qed.
#[export] Instance untouched_preorder : PreOrder untouched.
Proof. split; [done|]. intros u v w [H1 H2] [H3 H4]. split; congruence. Qed.

Lemma upholds_saved {A} (m : proc A) : keeps saved m → upholds same_saved m.
Proof. intros Hm w o w' H _. by apply (keeps_out _ _ _ _ _ Hm H). Qed.
Lemma upholds_untouched {A} (m : proc A) : keeps contents m ∧ keeps saved m → upholds untouched m.
Proof. intros [Hc Hs] w o w' H _. split; by eapply keeps_out. Qed.
Lemma untouched_saved {A} (m : proc A) : upholds untouched m → upholds same_saved m.
Proof. intros Hm w o w' H Ho. by destruct (Hm w o w' H Ho). Qed.

(** A block inside a savepoint, rolled back at the end. *)
Lemma finally_rollback {A} (m : proc A) (c : proc unit) w s r o w' :
  upholds same_saved m →
  (∀ u o u', saved u = s :: r → c u = (o, u') → o ≠ Diverge → contents u' = s ∧ saved u' = r) →
  saved w = s :: r → finally m c w = (o, w') → o ≠ Diverge → contents w' = s ∧ saved w' = r.
Proof.
  intros Hm Hc Hw. unfold finally. destruct (m w) as [q v] eqn:H. apply Hm in H.
  destruct q as [a|e|]; [| |by intros [= <- <-]]; specialize (H ltac:(done)); unfold same_saved in H; rewrite Hw in H;
    (rewrite bind_eq; destruct (c v) as [q u] eqn:Hcv;
     destruct q as [[]|e'|]; intros [= <- <-] Ho; [|eapply Hc; done..]; by eapply Hc; [| |]).
Qed.
Lemma in_savepoint {A} (m : proc A) (c : proc unit) :
  upholds same_saved m →
  (∀ u o u' s r, saved u = s :: r → c u = (o, u') → o ≠ Diverge → contents u' = s ∧ saved u' = r) →
  upholds untouched (savepoint;; finally m c).
Proof.
  intros Hm Hc w o w'. rewrite bind_eq. destruct (savepoint w) as [q v] eqn:H. apply savepoint_out in H as [H1 H2].
  destruct q as [[]|e|]; [|by intros [= <- <-] _; split..].
  cbn in H2. intros H Ho. by destruct (finally_rollback m c v _ _ _ _ Hm (λ u o u', Hc u o u' _ _) H2 H Ho).
Qed.

Lemma in_savepoint_then {A B} (m : proc A) (c : proc unit) (k : A → proc B) :
  upholds same_saved m →
  (∀ u o u' s r, saved u = s :: r → c u = (o, u') → o ≠ Diverge → contents u' = s ∧ saved u' = r) →
  (∀ a, upholds untouched (k a)) → upholds untouched (savepoint;; a ← finally m c; k a).
Proof.
  intros Hm Hc Hk w o w' H Ho. pose proof (in_savepoint m c Hm Hc) as Hin.
  refine (upholds_bind untouched (savepoint;; finally m c) k Hin Hk w o w' _ Ho).
  revert H. rewrite !bind_eq. by destruct (savepoint w) as [[]].
Qed.

Lemma fixed_deparse_untouched {A} (body : proc A) : upholds same_saved body → upholds untouched (fixed_deparse body).
Proof.
  intros Hb. apply upholds_bind; [apply _|apply upholds_driver, _|intros _]. apply in_savepoint.
  - do 2 (apply upholds_bind; [apply _|apply upholds_saved, set_local_out|intros _]). done.
  - intros u o u' s r Hs H _. by eapply rollback_out.
Qed.

Lemma query_untouched s : upholds untouched (query s).
Proof. apply upholds_untouched, query_out. Qed.
Lemma measure_untouched : upholds untouched measure_catalogue.
Proof.
  apply fixed_deparse_untouched, untouched_saved. apply upholds_bind; [apply _| |intros v; apply upholds_exactly, _].
  apply upholds_traverse; [apply _|intros name]. apply upholds_bind; [apply _|apply query_untouched|intros f; apply upholds_ret, _].
Qed.
Lemma scalar_untouched rows : upholds untouched (scalar_one rows).
Proof. unfold scalar_one. repeat case_match; first [apply upholds_ret, _|apply upholds_throw, _]. Qed.

Lemma parse_view_saved schema table expression : upholds same_saved (_parse_view schema table expression).
Proof.
  apply upholds_bind; [apply _|apply upholds_saved, short_token_out|intros token]. cbv zeta.
  apply upholds_bind; [apply _|apply upholds_driver, _|intros _].
  apply upholds_bind; [apply _|apply upholds_saved, prepared_out|intros _].
  apply untouched_saved. apply upholds_bind; [apply _|apply query_untouched|intros f].
  apply upholds_bind; [apply _|apply scalar_untouched|intros d].
  apply upholds_bind; [apply _|apply upholds_require, _|intros _; apply upholds_ret, _].
Qed.
Lemma observe_untouched c : upholds untouched (observe_parser c).
Proof.
  apply upholds_bind; [apply _|apply query_untouched|intros f]. apply upholds_bind; [apply _| |intros row].
  { repeat case_match; first [apply upholds_ret, _|apply upholds_throw, _]. }
  cbv zeta. do 2 (apply upholds_bind; [apply _|apply upholds_require, _|intros _]). apply upholds_ret, _.
Qed.
Lemma compare_acl_untouched c : upholds untouched (compare_acl c).
Proof.
  destruct c as [[id one] two]. apply upholds_bind; [apply _|apply query_untouched|intros f].
  apply upholds_bind; [apply _|apply scalar_untouched|intros d].
  do 2 (apply upholds_bind; [apply _|apply upholds_require, _|intros _]).
  apply upholds_bind; [apply _|apply upholds_exactly, _|intros fields]. apply upholds_ret, _.
Qed.
Lemma compare_check_saved c : upholds same_saved (compare_check c).
Proof.
  destruct c as [[id one] two]. apply upholds_bind; [apply _|apply upholds_require, _|intros _].
  do 2 (apply upholds_bind; [apply _|apply parse_view_saved|intros ?]).
  apply upholds_bind; [apply _|apply upholds_exactly, _|intros fields]. apply upholds_ret, _.
Qed.
Lemma compare_live_saved acls checks c : upholds same_saved (refusing (compare_live acls checks c)).
Proof.
  assert (H : upholds untouched (compare_live acls checks c)).
  { apply fixed_deparse_untouched. do 2 (apply upholds_bind; [apply _|apply upholds_saved, set_local_out|intros _]).
    apply upholds_bind; [apply _|apply untouched_saved, observe_untouched|intros parser].
    apply upholds_bind; [apply _|apply upholds_traverse; [apply _|intros; apply untouched_saved, compare_acl_untouched]|intros ra].
    apply upholds_bind; [apply _|apply upholds_traverse; [apply _|apply compare_check_saved]|intros ch]. apply upholds_ret, _. }
  intros w o w'. unfold refusing, try_except. destruct (compare_live _ _ _ w) as [q v] eqn:Hq.
  destruct q as [a|e|]; [| |by intros [= <- <-]]; intros [= <- <-] _; by eapply untouched_saved.
Qed.
Lemma unchanged_out b u o u' s r :
  saved u = s :: r → unchanged b u = (o, u') → o ≠ Diverge → contents u' = s ∧ saved u' = r.
Proof.
  unfold unchanged. intros Hs. rewrite bind_eq. destruct (rollback u) as [q v] eqn:H.
  destruct (rollback_out _ _ _ _ _ H Hs) as [<- <-]. destruct q as [[]|e|]; [|by intros [= <- <-]..].
  intros H' Ho. refine (upholds_bind untouched measure_catalogue _ measure_untouched _ v o u' H' Ho).
  intros after. apply upholds_require, _.
Qed.

(** What comes after the checks on the catalogues. *)
Lemma capture_rest acls checks a b c :
  upholds untouched
    (savepoint;;
     '(parser, relation_acls, checks) ← finally (refusing (compare_live acls checks c)) (unchanged b);
     proof ← exactly (canonical_json (comparison_document c a b parser relation_acls checks (_digest b)));
     exactly (verify_restore_comparison proof a b c);;
     mret proof).
Proof.
  apply in_savepoint_then; [apply compare_live_saved|intros u o u' s r; apply unchanged_out|intros [[parser ra] ch]].
  apply upholds_bind; [apply _|apply upholds_exactly, _|intros proof].
  apply upholds_bind; [apply _|apply upholds_exactly, _|intros _]. apply upholds_ret, _.
Qed.
Lemma capture_untouched a b c : upholds untouched (capture_restore_comparison a b c).
Proof.
  unfold capture_restore_comparison. do 5 (apply upholds_bind; [apply _|apply upholds_exactly, _|intros ?]).
  apply upholds_bind; [apply _|apply upholds_driver, _|intros _].
  apply upholds_bind; [apply _|apply upholds_untouched, autocommit_out|intros auto].
  apply upholds_bind; [apply _| |intros inside].
  { destruct auto; [apply upholds_ret, _|apply upholds_untouched, in_transaction_out]. }
  apply upholds_bind; [apply _|apply upholds_require, _|intros _].
  apply upholds_bind; [apply _|apply measure_untouched|intros live].
  apply upholds_bind; [apply _|apply upholds_require, _|intros _]. apply capture_rest.
Qed.

Lemma exactly_Ret {A} (m : res A) w a w' : (exactly m : proc A) w = (Ret a, w') ↔ m = Ok a ∧ w' = w.
Proof. destruct m; simpl; unfold throw, mret, proc_ret; naive_solver. Qed.
Lemma untouched_Ret {A} (m : proc A) w a w' : upholds untouched m → m w = (Ret a, w') → contents w' = contents w.
Proof. intros Hm H. by destruct (Hm _ _ _ H). Qed.

(** C16: However a capture ends, if it does, what the database holds is what it
    held before, whatever the parsed expressions did; and a proof it returns is
    one that [verify_restore_comparison] accepts, made on a database whose
    measured catalogue is the restored catalogue given. *)
Theorem capture_sound a b c w o w' :
  capture_restore_comparison a b c w = (o, w') → o ≠ Diverge →
  contents w' = contents w ∧ saved w' = saved w ∧
  ∀ proof, o = Ret proof →
    verify_restore_comparison proof a b c = Ok tt ∧
    ∃ u u', measure_catalogue u = (Ret b, u') ∧ contents u = contents w'.
Proof.
  intros H Ho. destruct (capture_untouched a b c w o w' H Ho) as [Hc Hs]. split_and!; [done..|].
  intros proof ->. unfold capture_restore_comparison in H.
  do 5 (apply bind_Ret in H as (? & ? & [_ ->]%exactly_Ret & H)).
  apply bind_Ret in H as (u1 & w1 & H1 & H). apply untouched_Ret in H1; [|apply upholds_driver, _].
  apply bind_Ret in H as (auto & w2 & H2 & H). apply untouched_Ret in H2; [|apply upholds_untouched, autocommit_out].
  apply bind_Ret in H as (inside & w3 & H3 & H).
  assert (contents w3 = contents w2).
  { destruct auto; [by apply mret_eq in H3 as [_ ->]|]. apply untouched_Ret in H3; [done|apply upholds_untouched, in_transaction_out]. }
  apply bind_Ret in H as (u2 & w4 & [_ ->]%require_Ret & H). apply bind_Ret in H as (live & w5 & H5 & H).
  apply bind_Ret in H as (u3 & w6 & [->%bool_decide_eq_true ->]%require_Ret & H).
  apply bind_Ret in H as (u4 & w7 & _ & H). apply bind_Ret in H as ([[parser ra] ch] & w8 & _ & H).
  apply bind_Ret in H as (p & w9 & [_ ->]%exactly_Ret & H). apply bind_Ret in H as ([] & w10 & [Hv ->]%exactly_Ret & H).
  apply mret_eq in H as [[= ->] _]. split; [done|]. exists w3, w5. split; [done|]. congruence.
Qed.
End savepoints.
