(* ===== verification/TransitionRequest.v ===== *)
(** * Transition requests

    The requests of [deployment/cp_transition.py], in every generation of its
    schema: the first transition, the continuation of a committed migration,
    and the recoveries of a failed candidate and of one that failed after its
    access list was restored.  A request is bound to its host, to its plan by a
    digest, and to a window of a day. *)

From S2P Require Import Prelude PyText PyUuid PyDate PyTime Json JsonReader JsonRound Effects Contracts Catalogue.

#[local] Open Scope Z_scope.

(** ** The documents *)

Definition TransitionSideV1 : hint := TTyped
  [field "image_digest" (TText Digest); field "revision" (TText Revision);
   field "raw_descriptor_digest" (TText Digest); field "heads" (TList (TText Identifier))].

(** The fields every generation has. *)
Definition common_fields (schema : string) : list (pystr * (bool * hint)) :=
  [field "schema" (literal schema); field "product" (literal "dotmac_vendor_control_plane");
   field "environment" (literal "production"); field "host" (TText Identifier);
   field "database" (TText Identifier); field "cluster_system_identifier" TStr; field "database_oid" TInt;
   field "source" TransitionSideV1; field "target" TransitionSideV1; field "plan_digest" (TText Digest);
   field "authorization_run_id" TInt; field "authorization_run_attempt" TInt;
   field "trusted_actor" (TText Identifier); field "expires_at" TStr;
   field "previous_receipt_digest" (or_none (TText Digest))].
Definition TRANSITION : string := "dotmac.cp_transition_request/1".
Definition COMMITTED : string := "dotmac.cp_committed_migration_request/1".
Definition FAILED_1 : string := "dotmac.cp_failed_candidate_request/1".
Definition FAILED_2 : string := "dotmac.cp_failed_candidate_request/2".
Definition POST_ACL : string := "dotmac.cp_post_acl_recovery_request/1".
Definition ADJUDICATED : string := "dotmac.cp_adjudicated_post_acl_request/1".

Definition CpTransitionRequestV1 : hint := TTyped (common_fields TRANSITION).

Definition digests (names : list string) : list (pystr * (bool * hint)) := (λ n, field n (TText Digest)) <$> names.

Definition CommittedMigrationBasisV1 : hint := TTyped
  (digests ["context_digest"; "prior_request_digest"; "prior_reservation_digest"; "prior_authorization_digest";
            "original_fence_digest"; "current_fence_digest"; "frontier_measurement_digest"]%string ++
   [field "prior_host_nonce" (TText Nonce); field "current_fence_id" (TText Nonce)]).
Definition FailedCandidateBasisV1_fields : list (pystr * (bool * hint)) :=
  digests ["context_digest"; "original_context_digest"; "original_frontier_key"; "original_frontier_claim_digest";
           "failed_request_digest"; "failed_reservation_digest"; "failed_authorization_digest"; "failure_digest";
           "quiescence_digest"; "original_fence_digest"; "current_fence_digest"; "frontier_measurement_digest"]%string ++
  [field "failed_host_nonce" (TText Nonce); field "current_fence_id" (TText Nonce)].
Definition FailedCandidateBasisV1 : hint := TTyped FailedCandidateBasisV1_fields.
Definition FailedCandidateBasisV2_fields : list (pystr * (bool * hint)) :=
  FailedCandidateBasisV1_fields ++ digests ["predecessor_context_digest"; "predecessor_frontier_claim_digest"]%string.
Definition FailedCandidateBasisV2 : hint := TTyped FailedCandidateBasisV2_fields.
Definition PostAclRecoveryBasisV1 : hint := TTyped
  (FailedCandidateBasisV2_fields ++ digests ["pre_routing_receipt_digest"; "acl_restored_digest"]%string).
Definition AdjudicatedPostAclBasisV1 : hint := TTyped
  (field "historical_basis" PostAclRecoveryBasisV1 ::
   digests ["context_digest"; "adjudication_digest"; "present_measurement_digest"; "current_heartbeat_rowset_digest"]%string).

Definition HeartbeatCounterDifferenceV1 : hint := TTyped
  [field "schema" (literal "public"); field "relation" (literal "relay_heartbeats");
   field "relation_identity_digest" (TText Digest); field "counter" (literal "n_tup_upd");
   field "direction" (literal "increase")].
Definition AdjudicatedHeartbeatV1 : hint := TTyped
  [field "row_count" (TLit [JInt 1]); field "rowset_digest" (TText Digest)].
Definition HeartbeatSupportingEvidenceV1 : hint := TTyped
  (digests ["qualification_assessment_digest"; "comparison_digest"; "decoder_result_digest"]%string).
Definition UnavailableHistoricalAssuranceV1 : hint := TTyped
  ((λ n, field n (TLit [JBool false])) <$>
   ["actor_attribution_proven"; "backup_to_retained_baseline_linkage"; "business_row_equality_proven";
    "harmlessness_proven"; "intermediate_writes_excluded"; "null_claim_proves_idle_interval"]%string).
Definition HeartbeatDriftAdjudicationV1 : hint := TTyped
  [field "schema" (literal "dotmac.cp_heartbeat_drift_adjudication/1");
   field "acknowledgement" (literal "HISTORICAL_INTERVAL_NOT_ATTRIBUTED");
   field "historical_measurement_digest" (TText Digest); field "present_measurement_digest" (TText Digest);
   field "permitted_difference" HeartbeatCounterDifferenceV1; field "current_heartbeat" AdjudicatedHeartbeatV1;
   field "evidence" HeartbeatSupportingEvidenceV1; field "unavailable_assurance" UnavailableHistoricalAssuranceV1].

Definition recovery_fields (schema : string) (basis : hint) : list (pystr * (bool * hint)) :=
  common_fields schema ++ [field "operator_revision" (TText Revision); field "basis" basis].
Definition CpCommittedMigrationRequestV1 : hint := TTyped (recovery_fields COMMITTED CommittedMigrationBasisV1).
Definition CpFailedCandidateRequestV1 : hint := TTyped (recovery_fields FAILED_1 FailedCandidateBasisV1).
Definition CpFailedCandidateRequestV2 : hint := TTyped (recovery_fields FAILED_2 FailedCandidateBasisV2).
Definition CpPostAclRecoveryRequestV1 : hint := TTyped (recovery_fields POST_ACL PostAclRecoveryBasisV1).
Definition CpAdjudicatedPostAclRequestV1 : hint := TTyped
  (recovery_fields ADJUDICATED AdjudicatedPostAclBasisV1 ++ [field "adjudication" HeartbeatDriftAdjudicationV1]).

(** ** The plan *)

Definition PLAN_FIELDS : list string :=
  ["product"; "environment"; "host"; "database"; "cluster_system_identifier"; "database_oid"; "source"; "target";
   "previous_receipt_digest"]%string.
Definition COMMITTED_PLAN_FIELDS : list string := PLAN_FIELDS ++ ["operator_revision"; "basis"]%string.
Definition ADJUDICATED_POST_ACL_PLAN_FIELDS : list string := COMMITTED_PLAN_FIELDS ++ ["adjudication"]%string.

(** [{key: request[key] for key in fields}]. *)
Definition chosen (request : json) (fields : list string) : list (pystr * json) :=
  (λ k, (lit k, dot request k)) <$> fields.
(** The fields a plan is made of and the schema it carries, if any. *)
Definition plan_layout (schema : json) : list string * option string :=
  let schema_is s := bool_decide (schema = JStr (lit s)) in
  if schema_is ADJUDICATED then (ADJUDICATED_POST_ACL_PLAN_FIELDS, Some "dotmac.cp_adjudicated_post_acl_plan/1"%string)
  else if schema_is POST_ACL then (COMMITTED_PLAN_FIELDS, Some "dotmac.cp_post_acl_recovery_plan/1"%string)
  else if schema_is COMMITTED then (COMMITTED_PLAN_FIELDS, Some "dotmac.cp_committed_migration_plan/1"%string)
  else if schema_is FAILED_2 then (COMMITTED_PLAN_FIELDS, Some "dotmac.cp_failed_candidate_plan/2"%string)
  else if schema_is FAILED_1 then (COMMITTED_PLAN_FIELDS, Some "dotmac.cp_failed_candidate_plan/1"%string)
  else (PLAN_FIELDS, None).
Definition plan_payload (request : json) : json :=
  let '(fields, schema) := plan_layout (dot request "schema") in
  JObj (chosen request fields ++ match schema with Some s => [(lit "schema", JStr (lit s))] | None => [] end).

(** [CpTransitionIdentity]. *)
Record CpTransitionIdentity := {
  id_host : pystr;
  id_database : pystr;
  id_cluster_system_identifier : pystr;
  id_database_oid : Z;
}.

Definition check_identity (i : CpTransitionIdentity) : res unit :=
  _shape (JStr (id_host i)) (TText Identifier);;
  _shape (JStr (id_database i)) (TText Identifier);;
  ok ← positive_decimal (id_cluster_system_identifier i);
  require ok "schema_violation";;
  require (0 <? id_database_oid i) "schema_violation".

(** [sorted(set(l))]. *)
Definition sorted_set (l : list json) : list json :=
  sort_by (λ a b, text_leb (str_of a) (str_of b)) (remove_dups l).

Section requests.
Context `{CRY : Crypto} `{FL : Floats} `{UCD : UnicodeDB}.

Definition transition_plan_digest (request : json) : res pystr := digest (plan_payload request).
Definition request_digest (request : json) : res pystr := digest request.

(** A request of one generation, at an instant. *)
Definition validate_generation (h : hint) (request : json) (i : CpTransitionIdentity) (now : Z) : res unit :=
  _shape request h;;
  require (bool_decide (dot request "host" = JStr (id_host i)) &&
           bool_decide (dot request "database" = JStr (id_database i)) &&
           bool_decide (dot request "cluster_system_identifier" = JStr (id_cluster_system_identifier i)) &&
           bool_decide (dot request "database_oid" = JInt (id_database_oid i))) "host_mismatch";;
  require ((0 <? int_of (dot request "authorization_run_id")) &&
           (0 <? int_of (dot request "authorization_run_attempt"))) "schema_violation";;
  expires ← timestamp (str_of (dot request "expires_at"));
  (if now <? expires
   then latest ← shift now (24 * HOUR); require (expires <=? latest) "expired"
   else Raise (refusal "expired"));;
  plan ← transition_plan_digest request;
  require (bool_decide (dot request "plan_digest" = JStr plan)) "plan_digest_mismatch";;
  mapM (λ side,
    let heads := list_of (dot (dot request side) "heads") in
    require (negb (bool_decide (heads = [])) && bool_decide (heads = sorted_set heads)) "schema_violation")
    ["source"; "target"]%string;;
  require (negb (bool_decide (dot (dot request "source") "image_digest" = dot (dot request "target") "image_digest")))
    "schema_violation".

Definition validate_request : json → CpTransitionIdentity → Z → res unit := validate_generation CpTransitionRequestV1.

Definition validate_adjudicated_post_acl_request (request : json) (i : CpTransitionIdentity) (now : Z) : res unit :=
  validate_generation CpAdjudicatedPostAclRequestV1 request i now;;
  let adjudication := dot request "adjudication" in
  let basis := dot request "basis" in
  let historical := dot basis "historical_basis" in
  let same_ a b := bool_decide (a = b) in
  d ← digest adjudication;
  relation ← digest (JArr [JStr (lit "public"); JStr (lit "relay_heartbeats")]);
  require (same_ (dot basis "adjudication_digest") (JStr d) &&
           same_ (dot basis "present_measurement_digest") (dot adjudication "present_measurement_digest") &&
           same_ (dot basis "current_heartbeat_rowset_digest") (dot (dot adjudication "current_heartbeat") "rowset_digest") &&
           same_ (dot historical "frontier_measurement_digest") (dot adjudication "historical_measurement_digest") &&
           negb (same_ (dot adjudication "historical_measurement_digest") (dot adjudication "present_measurement_digest")) &&
           same_ (dot (dot adjudication "permitted_difference") "relation_identity_digest") (JStr relation) &&
           negb (same_ (dot basis "context_digest") (dot historical "context_digest"))) "adjudication_binding_mismatch".

Definition validate_any_request (request : json) (i : CpTransitionIdentity) (now : Z) : res unit :=
  let schema_is s := bool_decide (dot request "schema" = JStr (lit s)) in
  if schema_is ADJUDICATED then validate_adjudicated_post_acl_request request i now
  else if schema_is POST_ACL then validate_generation CpPostAclRecoveryRequestV1 request i now
  else if schema_is FAILED_2 then validate_generation CpFailedCandidateRequestV2 request i now
  else if schema_is FAILED_1 then validate_generation CpFailedCandidateRequestV1 request i now
  else if schema_is COMMITTED then validate_generation CpCommittedMigrationRequestV1 request i now
  else validate_request request i now.

Definition load_request (raw : bytes) (i : CpTransitionIdentity) (now : Z) : res json :=
  request ← read_json raw; validate_request request i now;; Ok request.
Definition load_committed_request (raw : bytes) (i : CpTransitionIdentity) (now : Z) : res json :=
  request ← read_json raw; validate_generation CpCommittedMigrationRequestV1 request i now;; Ok request.
Definition load_failed_candidate_request (raw : bytes) (i : CpTransitionIdentity) (now : Z) : res json :=
  request ← read_json raw;
  validate_generation (if bool_decide (dot request "schema" = JStr (lit FAILED_2)) then CpFailedCandidateRequestV2
                       else CpFailedCandidateRequestV1) request i now;;
  Ok request.
Definition load_post_acl_recovery_request (raw : bytes) (i : CpTransitionIdentity) (now : Z) : res json :=
  request ← read_json raw; validate_generation CpPostAclRecoveryRequestV1 request i now;; Ok request.
Definition load_adjudicated_post_acl_request (raw : bytes) (i : CpTransitionIdentity) (now : Z) : res json :=
  request ← read_json raw; validate_adjudicated_post_acl_request request i now;; Ok request.
End requests.
