(* ===== verification/TransitionAuthorization.v ===== *)
(** * Authorizing a transition

    The authorization of [deployment/cp_transition.py]: what the published
    verifier of attestations says of a request's file, restricted to one
    workflow run of one repository, one subject and one predicate
    ([_verify_authorization_report]), and the checks around the call of that
    verifier ([GhAttestationVerifier.verify]).  The verifier is a program
    outside the repository. *)

From S2P Require Import Prelude PyText PyUuid PyDate PyTime Json JsonReader JsonRound Effects Contracts Catalogue TransitionStore TransitionRequest.

#[local] Open Scope Z_scope.

(** [datetime.fromisoformat] (the instant, and whether it has an offset),
    [tomllib.loads], and [str.isprintable] of a code point. *)
Class Parsers := {
  fromisoformat : pystr → option (Z * bool);
  toml_loads : pystr → option json;
  printable : Z → bool;
}.

(** ** The installation's policy *)

Definition SingleUserManualV2 : hint := TTyped
  [field "schema" (literal "dotmac.cp_transition_environment_protection/2"); field "repository_id" TStr;
   field "repository_owner_id" TStr; field "workflow_revision" (TText Revision);
   field "environment" (literal "production"); field "protected_main" (TLit [JBool true]);
   field "approval_model" (literal "single-user-manual"); field "prevent_self_review" (TLit [JBool false]);
   field "can_admins_bypass" (TLit [JBool false]); field "required_reviewer_ids" (TList TInt);
   field "expires_at" TStr].

Record CpTransitionTrustPolicy := {
  identity : CpTransitionIdentity;
  gh_binary : path;
  gh_binary_digest : pystr;
  gh_config_directory : path;
  repository : pystr;
  repository_id : pystr;
  repository_owner_id : pystr;
  workflow_path : pystr;
  workflow_revision : pystr;
  predicate_type : pystr;
  environment_protection_proof : path;
  environment_protection_digest : pystr;
}.

(** [[A-Za-z0-9_.-]+]. *)
Definition name_text (s : pystr) : bool :=
  negb (bool_decide (s = [])) && forallb (λ c, alnum c || bool_decide (c ∈ [95; 46; 45])) s.
Definition ends_in (suffix s : pystr) : bool := starts_with (reverse suffix) (reverse s).
(** What is left of [s] before [suffix]. *)
Definition before_suffix (suffix s : pystr) : pystr := take (length s - length suffix) s.

Definition workflow_text (s : pystr) : bool :=
  let prefix := lit ".github/workflows/" in
  let name := drop (length prefix) s in
  starts_with prefix s &&
  existsb (λ suffix, ends_in suffix name && name_text (before_suffix suffix name)) [lit ".yml"; lit ".yaml"].

(** [CpTransitionTrustPolicy.__post_init__]. *)
Definition check_policy (p : CpTransitionTrustPolicy) : res unit :=
  require (match split_on 47 (repository p) with [a; b] => name_text a && name_text b | _ => false end)
    "schema_violation";;
  require (workflow_text (workflow_path p)) "schema_violation";;
  a ← positive_decimal (repository_id p);
  require a "schema_violation";;
  b ← positive_decimal (repository_owner_id p);
  require b "schema_violation";;
  sha (JStr (workflow_revision p)) false;;
  sha (JStr (gh_binary_digest p)) true;;
  sha (JStr (environment_protection_digest p)) true;;
  require (starts_with (lit "https://") (predicate_type p) && bool_decide (length (predicate_type p) < 512)%nat)
    "schema_violation".

(** ** Authorizations *)

(** [VerifiedAuthorization]; the witness is there when this process's verifier
    made it. *)
Record witness := {
  w_request_digest : pystr;
  w_run_id : Z;
  w_run_attempt : Z;
  w_trusted_actor : pystr;
  w_verification_digest : pystr;
}.
#[export] Instance witness_eq_dec : EqDecision witness.
Proof. solve_decision. Defined.
Record VerifiedAuthorization := {
  a_request_digest : pystr;
  authorization_run_id : Z;
  authorization_run_attempt : Z;
  a_trusted_actor : pystr;
  verification_bytes : bytes;
  _witness : option witness;
}.

(** The digits of a positive number without leading zeros, and what follows. *)
Definition counted (s : pystr) : option (pystr * pystr) :=
  match span (between 48 57) s with
  | ((c :: _) as ds, rest) => if c =? 48 then None else Some (ds, rest)
  | _ => None
  end.
Definition after_prefix (prefix s : pystr) : option pystr :=
  if starts_with prefix s then Some (drop (length prefix) s) else None.
(** The run and the attempt in the address of an invocation. *)
Definition invocation (repository_uri s : pystr) : option (pystr * pystr) :=
  s ← after_prefix (repository_uri ++ lit "/actions/runs/") s;
  '(run, s) ← counted s;
  s ← after_prefix (lit "/attempts/") s;
  '(attempt, s) ← counted s;
  if bool_decide (s = []) then Some (run, attempt) else None.
(** [int(digits)]. *)
Definition to_int (s : pystr) : res Z :=
  ensure (bool_decide (length s ≤ MAX_STR_DIGITS)%nat) (Exn ValueError "Exceeds the limit");; Ok (number s).

(** [v.get(k)] of what must be a document. *)
Definition is_dict (v : json) : bool := match v with JObj _ => true | _ => false end.

(** [s.replace("Z", "+00:00")]. *)
Definition with_offset (s : pystr) : pystr := s ≫= λ c, if c =? 90 then lit "+00:00" else [c].

Section authorization.
Context `{CRY : Crypto} `{FL : Floats} `{UCD : UnicodeDB} `{PRS : Parsers}.

Definition verify_authorization (request : json) (a : VerifiedAuthorization) : res unit :=
  d ← request_digest request;
  let run := dot request "authorization_run_id" in
  let attempt := dot request "authorization_run_attempt" in
  let actor := dot request "trusted_actor" in
  require (bool_decide (_witness a = Some {|
             w_request_digest := d; w_run_id := int_of run; w_run_attempt := int_of attempt;
             w_trusted_actor := str_of actor; w_verification_digest := raw_digest (verification_bytes a) |}) &&
           bool_decide (a_request_digest a = d) && bool_decide (JInt (authorization_run_id a) = run) &&
           bool_decide (JInt (authorization_run_attempt a) = attempt) && bool_decide (JStr (a_trusted_actor a) = actor))
    "unverified_authorization".

(** One verified time stamp: not later than now, and inside the request's day. *)
Definition verified_timestamp (request : json) (now : Z) (item : json) : res unit :=
  require (is_dict item && bool_decide (dot item "type" ∈ [JStr (lit "Tlog"); JStr (lit "TimestampAuthority")]))
    "schema_violation";;
  '(observed, aware) ← of_option (fromisoformat (with_offset (py_str printable (dot item "timestamp"))))
                         (Exn ValueError "Invalid isoformat string");
  (if aware && (observed <=? now)
   then expires ← timestamp (str_of (dot request "expires_at"));
        first_ ← shift expires (- (24 * HOUR));
        require ((first_ <=? observed) && (observed <? expires)) "invalid_verified_timestamp"
   else Raise (refusal "invalid_verified_timestamp")).

Definition _verify_authorization_report (request : json) (p : CpTransitionTrustPolicy) (bytes_ : bytes)
    (request_name : pystr) (now : Z) : res (Z * Z) :=
  wrapped ← read_json (lit "{" ++ json_str (lit "results") ++ lit ":" ++ bytes_ ++ lit "}");
  result ← match dot wrapped "results" with
           | JArr [r] => Ok r
           | _ => Raise (refusal "ambiguous_attestation")
           end;
  let verified := dot result "verificationResult" in
  require (is_dict result && is_dict verified) "schema_violation";;
  let signature := dot verified "signature" in
  let cert := dot signature "certificate" in
  require (is_dict signature && is_dict cert) "schema_violation";;
  let repository_uri := lit "https://github.com/" ++ repository p in
  let signer_uri := repository_uri ++ 47 :: workflow_path p ++ lit "@refs/heads/main" in
  let expected :=
    [("issuer", lit "https://token.actions.githubusercontent.com"); ("subjectAlternativeName", signer_uri);
     ("buildSignerURI", signer_uri); ("buildSignerDigest", workflow_revision p);
     ("runnerEnvironment", lit "github-hosted"); ("sourceRepositoryURI", repository_uri);
     ("sourceRepositoryDigest", workflow_revision p); ("sourceRepositoryRef", lit "refs/heads/main");
     ("sourceRepositoryIdentifier", repository_id p); ("sourceRepositoryOwnerIdentifier", repository_owner_id p);
     ("buildConfigURI", signer_uri); ("buildConfigDigest", workflow_revision p)]%string in
  require (forallb (λ '(k, v), bool_decide (dot cert k = JStr v)) expected) "authorization_identity_mismatch";;
  '(run, attempt) ← of_option (invocation repository_uri (py_str printable (dot cert "runInvocationURI")))
                      (refusal "authorization_run_mismatch");
  run ← to_int run; attempt ← to_int attempt;
  require (bool_decide (JInt run = dot request "authorization_run_id") &&
           bool_decide (JInt attempt = dot request "authorization_run_attempt")) "authorization_run_mismatch";;
  times ← match dot verified "verifiedTimestamps" with
          | JArr ((_ :: _) as l) => Ok l
          | _ => Raise (refusal "missing_verified_timestamp")
          end;
  mapM (verified_timestamp request now) times;;
  let statement := dot verified "statement" in
  require (is_dict statement) "schema_violation";;
  require (bool_decide (dot statement "predicateType" = JStr (predicate_type p))) "schema_violation";;
  raw ← canonical_json request;
  let subject := JArr [JObj [(lit "name", JStr request_name);
                             (lit "digest", JObj [(lit "sha256", JStr (drop 7 (raw_digest raw)))])]] in
  require (same_json (dot statement "subject") subject) "authorization_subject_mismatch";;
  d ← request_digest request;
  let predicate := JObj [(lit "request_digest", JStr d); (lit "trusted_actor", dot request "trusted_actor");
                         (lit "environment", JStr (lit "production"))] in
  require (same_json (dot statement "predicate") predicate) "authorization_predicate_mismatch";;
  Ok (run, attempt).
End authorization.

(** ** The verifier's process *)

Definition path_text (p : path) : pystr := 47 :: join [47] (parts p).

Section verifier.
Context `{MCH : Machine} `{CRY : Crypto} `{FL : Floats} `{UCD : UnicodeDB} `{PRS : Parsers}.
#[local] Abbreviation proc := (proc world exn).

Definition _protected_executable_digest (p : path) : proc pystr :=
  _open_directory (parent p);;
  info ← open_file (parts p); _protected info false;;
  demands (negb (Z.land (st_mode info) 73 =? 0)) "executable_required";;
  raw ← TransitionStore.read_file (parts p) None;
  mret (raw_digest raw).

(** The file says that production is protected by one reviewer's approval. *)
Definition check_protection (request proof : json) (p : CpTransitionTrustPolicy) (now : Z) : res unit :=
  _shape proof SingleUserManualV2;;
  require (bool_decide (dot proof "repository_id" = JStr (repository_id p)) &&
           bool_decide (dot proof "repository_owner_id" = JStr (repository_owner_id p)) &&
           bool_decide (dot proof "workflow_revision" = JStr (workflow_revision p)) &&
           bool_decide (dot proof "required_reviewer_ids" = JArr [JInt (number (repository_owner_id p))]) &&
           bool_decide (dot request "trusted_actor" = JStr (default [] (head (split_on 47 (repository p))))))
    "environment_protection_mismatch";;
  expires ← timestamp (str_of (dot proof "expires_at"));
  require (now <? expires) "environment_protection_mismatch".

(** [GhAttestationVerifier(policy).verify(request, ...)]. *)
Definition verify_attestation (p : CpTransitionTrustPolicy) (request : json) (request_path : path)
    (bundle_path : option path) (now : Z) : proc VerifiedAuthorization :=
  purely (validate_any_request request (identity p) now);;
  raw ← _read_protected request_path;
  expected ← purely (canonical_json request);
  demands (bool_decide (raw = expected)) "request_bytes_mismatch";;
  binary ← _protected_executable_digest (gh_binary p);
  demands (bool_decide (binary = gh_binary_digest p)) "verifier_binary_mismatch";;
  _open_directory (gh_config_directory p);;
  proof_bytes ← _read_protected (environment_protection_proof p);
  demands (bool_decide (raw_digest proof_bytes = environment_protection_digest p)) "environment_protection_mismatch";;
  proof ← purely (read_json proof_bytes);
  purely (check_protection request proof p now);;
  let workflow := repository p ++ 47 :: workflow_path p in
  (match bundle_path with Some b => _read_protected b;; mret tt | None => mret tt end);;
  let argv :=
    [path_text (gh_binary p); lit "attestation"; lit "verify"; path_text request_path; lit "--repo"; repository p;
     lit "--signer-workflow"; workflow; lit "--signer-digest"; workflow_revision p; lit "--source-digest";
     workflow_revision p; lit "--source-ref"; lit "refs/heads/main"; lit "--deny-self-hosted-runners";
     lit "--format"; lit "json"; lit "--predicate-type"; predicate_type p] ++
    match bundle_path with Some b => [lit "--bundle"; path_text b] | None => [] end in
  '(code, out) ← run_program argv
    [(lit "GH_CONFIG_DIR", path_text (gh_config_directory p)); (lit "PATH", lit "/usr/bin:/bin");
     (lit "HOME", lit "/nonexistent")];
  demands (code =? 0) "attestation_verification_failed";;
  demands (Z.of_nat (length out) <=? MAX_ARTIFACT) "verification_output_too_large";;
  '(run, attempt) ← purely (_verify_authorization_report request p out (file_name request_path) now);
  d ← purely (request_digest request);
  let actor := str_of (dot request "trusted_actor") in
  mret {| a_request_digest := d; authorization_run_id := run; authorization_run_attempt := attempt;
          a_trusted_actor := actor; verification_bytes := out;
          _witness := Some {| w_request_digest := d; w_run_id := run; w_run_attempt := attempt;
                              w_trusted_actor := actor; w_verification_digest := raw_digest out |} |}.
End verifier.
