(* ===== verification/TransitionEvidence.v ===== *)
(** * The evidence of a transition

    What [deployment/cp_transition.py] retains of every stage, and what it
    requires of it before it is retained and whenever a receipt is verified
    ([_validate_evidence]): every stage's record is bound to the request and to
    the attempt, and says the one thing that lets the transition go on. *)

From S2P Require Import Prelude PyText PyUuid PyDate PyTime Json JsonReader JsonRound Effects Contracts Catalogue TransitionStore TransitionRequest TransitionAuthorization.

#[local] Open Scope Z_scope.

(** ** The documents *)

Definition SourceDescriptorDeclarations : hint := TTyped
  [field "image_reference" TStr; field "source_revision" TStr; field "migration_heads" (or_none (TList TStr))].
Definition SourceObservation : hint := TTyped
  [field "side" TransitionSideV1; field "descriptor_declarations" SourceDescriptorDeclarations;
   field "database_owner" (TText Identifier); field "roles" (TList (TText Identifier));
   field "catalogue_digest" (TText Digest)].
Definition BootstrapIdentityV1 : hint := TTyped
  [field "role" (literal "postgres"); field "oid" (TLit [JInt 10]); field "superuser" (TLit [JBool true])].
Definition GlobalsReplayProofV1 : hint := TTyped
  [field "schema" (literal "dotmac.cp_globals_replay/1"); field "request_digest" (TText Digest);
   field "host_nonce" TStr; field "original_digest" (TText Digest); field "original_size" TInt;
   field "replay_digest" (TText Digest); field "replay_size" TInt;
   field "omitted_statement" (TLit [JStr GLOBALS_BOOTSTRAP_STATEMENT]);
   field "source_bootstrap" BootstrapIdentityV1; field "fresh_bootstrap" BootstrapIdentityV1].
Definition RestoreObservation : hint := TTyped
  ([field "source" SourceObservation; field "restored_source" SourceObservation; field "manifest_size" TInt;
    field "dump_size" TInt; field "globals_size" TInt] ++
   digests ["restore_evidence_digest"; "manifest_digest"; "dump_digest"; "globals_digest"; "restored_dump_digest";
            "restored_globals_digest"; "globals_replay_digest"; "catalogue_comparison_digest"]%string).
Definition CandidateQuiescenceProofV1 : hint := TTyped
  [field "schema" (literal "dotmac.cp_candidate_quiescence/1"); field "request_digest" (TText Digest);
   field "host_nonce" TStr; field "before_digest" (TText Digest); field "after_digest" (TText Digest)].
Definition CandidateMeasurementV1 : hint := TTyped
  [field "track_counts" (TLit [JBool true]); field "stats_reset" (or_none TStr); field "server_start" TStr;
   field "relations" (TList (TList (TUnion [TStr; TInt])));
   field "sequences" (TList (TList (TUnion [TStr; TInt; TNone]))); field "catalogue_digest" (TText Digest)].
Definition CandidateSnapshotV1 : hint := TTyped
  [field "schema" (literal "dotmac.cp_candidate_quiescence_snapshot/1"); field "request_digest" (TText Digest);
   field "host_nonce" TStr; field "measurement" CandidateMeasurementV1].
Definition CandidateClosureV1 : hint := TTyped
  [field "candidate_sessions" (TLit [JInt 0]); field "candidate_roles" (TList (TText Identifier));
   field "writer_sessions" (TLit [JInt 0]); field "reconnect_denial" (literal "database_acl");
   field "quiescence_digest" (TText Digest)].

Definition EVIDENCE_SCHEMA : string := "dotmac.cp_transition_evidence/2".

(** ** The source's descriptor *)

(** [\S+@sha256:[0-9a-f]{64}]. *)
Definition image_text `{UnicodeDB} (s : pystr) : bool :=
  let name := take (length s - 72) s in
  let rest := drop (length s - 72) s in
  bool_decide (72 < length s)%nat && forallb (λ c, negb (ucd_space c)) name &&
  starts_with (lit "@sha256:") rest && forallb hex_lower (drop 8 rest).

Definition source_descriptor_declarations `{UnicodeDB} `{Parsers} (raw : bytes) : res json :=
  text ← of_option (utf8 (length raw) raw) (Exn ValueError "transition source descriptor is not UTF-8 TOML");
  document ← of_option (toml_loads text) (Exn ValueError "transition source descriptor is not UTF-8 TOML");
  let image := dot document "image" in
  require (bool_decide (dot document "product" = JStr (lit "dotmac_vendor_control_plane")) &&
           bool_decide (dot document "environment" = JStr (lit "production")) && is_dict image)
    "source_descriptor_identity_mismatch";;
  let reference := dot image "reference" in
  let revision := dot image "source_revision" in
  require (match reference with JStr s => image_text s | _ => false end && shape (TText Revision) revision)
    "source_descriptor_declaration_invalid";;
  let migration := if bool_decide (lit "migration" ∈ (items_of document).*1) then dot document "migration" else JObj [] in
  require (is_dict migration) "source_descriptor_declaration_invalid";;
  let heads := dot migration "expected_heads" in
  require (match heads with
           | JNull => true
           | JArr l => forallb is_text_ l && bool_decide (NoDup l)
           | _ => false
           end) "source_descriptor_declaration_invalid";;
  Ok (JObj [(lit "image_reference", reference); (lit "source_revision", revision); (lit "migration_heads", heads)]).

(** ** The recovery bundle *)

Record PlatformBackupResult := {
  backup_path : path;
  checksum : pystr;
  manifest_size_bytes : Z;
  database_dump_sha256 : pystr;
  database_dump_size_bytes : Z;
  globals_sha256 : pystr;
  globals_size_bytes : Z;
}.
(** [_TransitionIdentity]. *)
Record TransitionIdentity := {
  t_product : pystr;
  t_environment : pystr;
  image : pystr;
  t_source_revision : pystr;
  source_image : pystr;
  incumbent_source_revision : pystr;
  source_heads : list pystr;
  source_descriptor_raw_sha256 : pystr;
  target_descriptor_raw_sha256 : pystr;
}.

Section recovery.
Context `{MCH : Machine}.

(** [PlatformCpRecoveryBundle]: what it is bound to, and its verification of a
    backup on disk. *)
Record RecoveryOwner := {
  owner_target : pystr;
  owner_transition : option TransitionIdentity;
  verify_backup : PlatformBackupResult → proc world exn bool;
}.
(** [RecoveryContexts]: by the digest of the request. *)
Definition RecoveryContexts : Type := list (pystr * (RecoveryOwner * PlatformBackupResult)).

(** [image.rsplit("@", 1)[-1]]. *)
Definition digest_of_image (s : pystr) : pystr := default [] (last (split_on 64 s)).

(** [owner.matches_transition(...)] with the fields of a request. *)
Definition matches_transition (owner : RecoveryOwner) (request : json) : bool :=
  let source := dot request "source" in
  let target := dot request "target" in
  let same_ (s : pystr) v := bool_decide (JStr s = v) in
  match owner_transition owner with
  | Some b =>
      same_ (owner_target owner) (dot request "host") && same_ (t_product b) (dot request "product") &&
      same_ (t_environment b) (dot request "environment") &&
      same_ (digest_of_image (source_image b)) (dot source "image_digest") &&
      same_ (incumbent_source_revision b) (dot source "revision") &&
      same_ (source_descriptor_raw_sha256 b) (dot source "raw_descriptor_digest") &&
      bool_decide (JStr <$> source_heads b = list_of (dot source "heads")) &&
      same_ (digest_of_image (image b)) (dot target "image_digest") &&
      same_ (t_source_revision b) (dot target "revision") &&
      same_ (target_descriptor_raw_sha256 b) (dot target "raw_descriptor_digest")
  | None => false
  end.
End recovery.

Definition REQUIRED_ROLES : list string :=
  ["app_admin"; "app_user"; "platform_api"; "outbox_dispatcher"; "platform_outbox_dispatcher"]%string.

(** ** The stages *)

Section evidence.
Context `{MCH : Machine} `{CRY : Crypto} `{FL : Floats} `{FV : FloatValues} `{UCD : UnicodeDB} `{PRS : Parsers}.
#[local] Abbreviation proc := (proc world exn).
Context (store : path) (recovery : RecoveryContexts).

(** What a stage must have found, for the stages with one answer. *)
Definition expected_result (request verification : json) (evidence : list (pystr * pystr)) (kind : pystr) : option json :=
  let source := dot request "source" in
  let target := dot request "target" in
  let text s := JStr (lit s) in
  let got k := match dict_get evidence (lit k) with Some d => JStr d | None => JNull end in
  let object l := Some (JObj ((λ '(k, v), (lit k, v)) <$> l)) in
  let kind_is k := bool_decide (kind = lit k) in
  if kind_is "inspection" then object [("source", source); ("target", target)]%string
  else if kind_is "authorization" then object
    [("verification_digest", verification); ("run_id", dot request "authorization_run_id");
     ("run_attempt", dot request "authorization_run_attempt"); ("trusted_actor", dot request "trusted_actor")]%string
  else if kind_is "maintenance" then object
    [("external_status", JInt 503); ("active_http", JInt 0); ("active_websockets", JInt 0)]%string
  else if kind_is "strict-fence-reconnect" then object
    [("database", dot request "database"); ("writer_sessions", JInt 0); ("reconnect_denial", text "database_acl")]%string
  else if kind_is "writers-stopped" then object [("running_writers", JArr []); ("restart_enabled", JArr [])]%string
  else if kind_is "fence-source-rechecked" then object
    [("source", source); ("writer_sessions", JInt 0); ("reconnect_denial", text "database_acl")]%string
  else if kind_is "migrate" then object
    [("heads", dot target "heads"); ("restore_digest", got "recovery-restored");
     ("fence_digest", got "fence-source-rechecked")]%string
  else if kind_is "migrated-target-heads" then Some target
  else if kind_is "candidate-ready" then object
    [("side", target); ("status", JInt 200); ("writer_sessions", JInt 0)]%string
  else if kind_is "acl-restored" then object [("database", dot request "database"); ("acl_difference", JArr [])]%string
  else if kind_is "full-ready" then object [("side", target); ("status", JInt 200)]%string
  else if kind_is "routing-restored" then object [("side", target); ("external_status", JInt 200)]%string
  else if kind_is "pre-routing-verified" then object [("receipt_digest", got "pre-routing-receipt")]%string
  else if kind_is "failure" then object
    [("external_status", JInt 503); ("writer_sessions", JInt 0); ("reconnect_denial", text "database_acl")]%string
  else None.

Definition _verify_candidate_quiescence (proof_digest : pystr) (request : json) (nonce : pystr) : proc unit :=
  raw ← read store proof_digest Evidence;
  proof ← purely (read_json raw);
  purely (_shape proof CandidateQuiescenceProofV1);;
  d ← purely (request_digest request);
  demands (bool_decide (dot proof "request_digest" = JStr d) && bool_decide (dot proof "host_nonce" = JStr nonce) &&
           bool_decide (dot proof "before_digest" = dot proof "after_digest")) "candidate_mutation_observed";;
  before ← read store (str_of (dot proof "before_digest")) Evidence;
  after ← read store (str_of (dot proof "after_digest")) Evidence;
  demands (bool_decide (before = after)) "schema_violation";;
  document ← purely (read_json before);
  purely (_shape document CandidateSnapshotV1);;
  demands (bool_decide (dot document "request_digest" = JStr d) && bool_decide (dot document "host_nonce" = JStr nonce))
    "candidate_snapshot_mismatch";;
  let measured := dot document "measurement" in
  let counted v := match v with JInt n => 0 <=? n | _ => false end in
  demands (negb (bool_decide (list_of (dot measured "relations") = []))) "schema_violation";;
  demands (forallb (λ row, bool_decide (width row = 7%nat) && forallb is_text_ (take 2 (list_of row)) &&
                           forallb counted (drop 2 (list_of row))) (list_of (dot measured "relations"))) "schema_violation";;
  demands (forallb (λ row, bool_decide (width row = 3%nat) && forallb is_text_ (take 2 (list_of row)) &&
                           match cell row 2 with JNull | JInt _ => true | _ => false end)
             (list_of (dot measured "sequences"))) "schema_violation";;
  read store (str_of (dot measured "catalogue_digest")) Evidence;;
  mret tt.

(** *** The source as it was observed behind the fence *)

Definition check_genesis (request result : json) : proc unit :=
  let source := dot request "source" in
  let roles := list_of (dot result "roles") in
  purely (_shape result SourceObservation);;
  demands (same_json (dot result "side") source && negb (bool_decide (roles = []))) "schema_violation";;
  demands (bool_decide (roles = sorted_set roles)) "schema_violation";;
  demands (bool_decide (dot result "database_owner" = JStr (lit "app_admin"))) "schema_violation";;
  demands (forallb (λ r, bool_decide (JStr (lit r) ∈ roles)) REQUIRED_ROLES) "schema_violation";;
  read store (str_of (dot result "catalogue_digest")) Evidence;;
  descriptor ← read store (str_of (dot source "raw_descriptor_digest")) Evidence;
  demands (bool_decide (JStr (raw_digest descriptor) = dot source "raw_descriptor_digest"))
    "source_descriptor_observation_mismatch";;
  declared ← purely (source_descriptor_declarations descriptor);
  demands (same_json (dot result "descriptor_declarations") declared) "source_descriptor_observation_mismatch".

(** *** The recovery that was captured and restored elsewhere *)

(** A document but for its catalogue. *)
Definition but_catalogue (v : json) : json :=
  JObj (filter (λ kv, kv.1 ≠ lit "catalogue_digest") (items_of v)).

Definition comparison_of (request : json) (d nonce : pystr) : comparison_context := {|
  ctx_request_digest := d; ctx_host_nonce := nonce;
  expected_source_cluster := str_of (dot request "cluster_system_identifier");
  expected_source_database := str_of (dot request "database") |}.

(** The restored catalogue compares to the source's, on another cluster. *)
Definition check_comparison (request genesis restored : json) (d nonce : pystr) : proc unit :=
  comparison_bytes ← read store (str_of (dot restored "catalogue_comparison_digest")) Evidence;
  a ← read store (str_of (dot genesis "catalogue_digest")) Evidence;
  b ← read store (str_of (dot (dot restored "restored_source") "catalogue_digest")) Evidence;
  purely (verify_restore_comparison comparison_bytes a b (comparison_of request d nonce));;
  comparison ← purely (read_json comparison_bytes);
  demands (negb (bool_decide (dot (dot comparison "parser") "cluster_system_identifier" =
                              dot request "cluster_system_identifier"))) "scratch_is_source_cluster".

(** The retained manifest is that of the verified backup. *)
Definition check_backup (request restored : json) (d : pystr) : proc PlatformBackupResult :=
  restored_bytes ← read store (str_of (dot restored "restore_evidence_digest")) Evidence;
  document ← purely (read_json restored_bytes);
  demands (same_json document (dot restored "restored_source")) "schema_violation";;
  manifest_bytes ← read store (str_of (dot restored "manifest_digest")) Evidence;
  let size := int_of (dot restored "manifest_size") in
  demands ((Z.of_nat (length manifest_bytes) =? size) && (0 <? size)) "schema_violation";;
  manifest ← purely (read_json manifest_bytes);
  demands (bool_decide (dot manifest "database_name" = dot request "database") &&
           bool_decide (dot manifest "cluster_system_identifier" = dot request "cluster_system_identifier"))
    "recovery_database_mismatch";;
  '(owner, backup) ← purely (of_option (dict_get recovery d) (Exn KeyError "request_digest"));
  demands (matches_transition owner request) "recovery_context_mismatch";;
  verified ← verify_backup owner backup;
  demands verified "recovery_owner_refused";;
  let says k s := bool_decide (dot restored k = JStr s) in
  demands (says "manifest_digest" (lit "sha256:" ++ checksum backup) &&
           (size =? manifest_size_bytes backup) &&
           bool_decide (dot restored "dump_digest" = dot restored "restored_dump_digest") &&
           says "restored_dump_digest" (database_dump_sha256 backup) && says "globals_digest" (globals_sha256 backup) &&
           (int_of (dot restored "dump_size") =? database_dump_size_bytes backup) &&
           (int_of (dot restored "globals_size") =? globals_size_bytes backup)) "recovery_result_mismatch";;
  mret backup.

(** The globals were replayed without the bootstrap role's statement. *)
Definition check_replay (restored : json) (backup : PlatformBackupResult) (d nonce : pystr) : proc unit :=
  raw ← read store (str_of (dot restored "globals_replay_digest")) Evidence;
  replay ← purely (read_json raw);
  purely (_shape replay GlobalsReplayProofV1);;
  '(replay_digest, replay_size) ← globals_replay_fingerprint (child (backup_path backup) (lit "globals.sql"));
  let says k s := bool_decide (dot replay k = JStr s) in
  demands (says "request_digest" d && says "host_nonce" nonce && says "original_digest" (globals_sha256 backup) &&
           (int_of (dot replay "original_size") =? globals_size_bytes backup) &&
           says "replay_digest" replay_digest && bool_decide (dot restored "restored_globals_digest" = JStr replay_digest) &&
           (int_of (dot replay "replay_size") =? replay_size) &&
           (replay_size =? globals_size_bytes backup - Z.of_nat (length GLOBALS_BOOTSTRAP_STATEMENT)))
    "globals_replay_binding_mismatch".

(** A catalogue's bootstrap role is postgres, with oid 10. *)
Definition check_bootstrap (observation : json) : proc unit :=
  raw ← read store (str_of (dot observation "catalogue_digest")) Evidence;
  catalogue ← purely (read_json raw);
  demands (bool_decide (dot catalogue "bootstrap" = JArr [JArr [JStr (lit "postgres"); JInt 10; JBool true]]))
    "globals_bootstrap_identity_mismatch".

Definition check_restored (request result : json) (nonce : pystr) (evidence : list (pystr * pystr)) : proc unit :=
  purely (_shape result RestoreObservation);;
  genesis_digest ← purely (of_option (dict_get evidence (lit "source-genesis")) (Exn KeyError "source-genesis"));
  raw ← read store genesis_digest Evidence;
  record ← purely (read_json raw);
  genesis ← purely (of_option (dict_get (items_of record) (lit "result")) (Exn KeyError "result"));
  purely (_shape genesis SourceObservation);;
  demands (same_json (dot result "source") genesis) "restore_source_mismatch";;
  demands (same_json (but_catalogue genesis) (but_catalogue (dot result "restored_source"))) "restore_source_mismatch";;
  d ← purely (request_digest request);
  check_comparison request genesis result d nonce;;
  backup ← check_backup request result d;
  check_replay result backup d nonce;;
  for_each check_bootstrap [genesis; dot result "restored_source"].

(** *** The candidate that was removed *)

Definition check_closure (request result : json) (nonce : pystr) : proc unit :=
  purely (_shape result CandidateClosureV1);;
  demands (bool_decide (list_of (dot result "candidate_roles") = [])) "candidate_cleanup_unproved";;
  _verify_candidate_quiescence (str_of (dot result "quiescence_digest")) request nonce.

Definition _validate_evidence (value request : json) (nonce kind : pystr) (evidence : list (pystr * pystr)) : proc unit :=
  demands (same_set (items_of value).*1 (lit <$> ["schema"; "request_digest"; "host_nonce"; "kind"; "result"]%string))
    "schema_violation";;
  demands (bool_decide (dot value "schema" = JStr (lit EVIDENCE_SCHEMA))) "schema_violation";;
  d ← purely (request_digest request);
  demands (bool_decide (dot value "request_digest" = JStr d)) "schema_violation";;
  demands (bool_decide (dot value "host_nonce" = JStr nonce) && bool_decide (dot value "kind" = JStr kind))
    "schema_violation";;
  let result := dot value "result" in
  reserved ← read store d Reservation;
  reservation ← purely (read_json reserved);
  verification ← purely (of_option (dict_get (items_of reservation) (lit "verification_digest"))
                           (Exn KeyError "verification_digest"));
  if bool_decide (kind = lit "source-genesis") then check_genesis request result
  else if bool_decide (kind = lit "recovery-restored") then check_restored request result nonce evidence
  else if bool_decide (kind = lit "candidate-removed-fenced") then check_closure request result nonce
  else
    match expected_result request verification evidence kind with
    | Some expected =>
        a ← purely (canonical_json result); b ← purely (canonical_json expected);
        demands (bool_decide (a = b)) "stage_result_mismatch";;
        if bool_decide (kind = lit "authorization")
        then read store (str_of (dot result "verification_digest")) Evidence;; mret tt
        else mret tt
    | None => throw (refusal "stage_result_mismatch")
    end.
End evidence.
