(* ===== verification/TransitionReceipt.v ===== *)
(** * The receipts of a transition

    The receipts of [deployment/cp_transition.py] and their verification: a
    receipt binds a request, an attempt and the evidence of every stage, and
    names the receipt of the transition before it.  [verify_receipt] and
    [verify_predecessor] call each other along that chain; the depth the code
    allows, 32, is the fuel here.  No recovery context is given
    ([committed_contexts] and its like are [None]), so that a chain holds
    receipts of the first generation only: one of another is refused. *)

From S2P Require Import Prelude PyText PyUuid PyDate PyTime Json JsonReader JsonRound Effects Contracts Catalogue TransitionStore TransitionRequest TransitionAuthorization TransitionEvidence.

#[local] Open Scope Z_scope.

(** ** The documents *)

Definition receipt_fields (schema : string) (request : hint) : list (pystr * (bool * hint)) :=
  [field "schema" (literal schema); field "request" request; field "request_digest" (TText Digest);
   field "host_nonce" TStr; field "phase" (TLit [JStr (lit "pre-routing"); JStr (lit "complete")]);
   field "evidence" (TDict (TText Identifier) (TText Digest))].
Definition RECEIPT_SCHEMA : string := "dotmac.cp_migration_transition_receipt/1".
Definition CpMigrationTransitionReceiptV1 : hint := TTyped
  (receipt_fields RECEIPT_SCHEMA CpTransitionRequestV1 ++
   [field "genesis_digest" (or_none (TText Digest)); field "previous_receipt_digest" (or_none (TText Digest))]).
Definition CpCommittedMigrationReceiptV1 : hint := TTyped
  (receipt_fields "dotmac.cp_committed_migration_receipt/1" CpCommittedMigrationRequestV1 ++
   digests ["historical_context_digest"; "frontier_reservation_digest"]%string).
Definition CpFailedCandidateReceiptV1 : hint := TTyped
  (receipt_fields "dotmac.cp_failed_candidate_receipt/1" CpFailedCandidateRequestV1 ++
   digests ["historical_context_digest"; "successor_reservation_digest"]%string).
Definition CpFailedCandidateReceiptV2 : hint := TTyped
  (receipt_fields "dotmac.cp_failed_candidate_receipt/2" CpFailedCandidateRequestV2 ++
   digests ["historical_context_digest"; "successor_reservation_digest"]%string).
Definition CpPostAclRecoveryReceiptV1 : hint := TTyped
  (receipt_fields "dotmac.cp_post_acl_recovery_receipt/1" CpPostAclRecoveryRequestV1 ++
   digests ["historical_context_digest"; "successor_reservation_digest"]%string).
Definition CpAdjudicatedPostAclReceiptV1 : hint := TTyped
  (receipt_fields "dotmac.cp_adjudicated_post_acl_receipt/1" CpAdjudicatedPostAclRequestV1 ++
   field "unavailable_assurance" UnavailableHistoricalAssuranceV1 ::
   digests ["historical_context_digest"; "adjudicated_context_digest"; "successor_reservation_digest";
            "adjudication_digest"; "historical_measurement_digest"; "present_measurement_digest";
            "current_heartbeat_rowset_digest"]%string).

(** The receipt of each schema. *)
Definition receipt_hint (schema : json) : hint :=
  let schema_is s := bool_decide (schema = JStr (lit s)) in
  if schema_is "dotmac.cp_adjudicated_post_acl_receipt/1" then CpAdjudicatedPostAclReceiptV1
  else if schema_is "dotmac.cp_post_acl_recovery_receipt/1" then CpPostAclRecoveryReceiptV1
  else if schema_is "dotmac.cp_failed_candidate_receipt/2" then CpFailedCandidateReceiptV2
  else if schema_is "dotmac.cp_failed_candidate_receipt/1" then CpFailedCandidateReceiptV1
  else if schema_is "dotmac.cp_committed_migration_receipt/1" then CpCommittedMigrationReceiptV1
  else CpMigrationTransitionReceiptV1.

Definition PRE_MIGRATION_EVIDENCE : list pystr := lit <$>
  ["inspection"; "authorization"; "maintenance"; "strict-fence-reconnect"; "writers-stopped"; "source-genesis";
   "recovery-restored"; "fence-source-rechecked"]%string.
Definition PRE_ACL_EVIDENCE : list pystr := PRE_MIGRATION_EVIDENCE ++ (lit <$>
  ["migrate"; "migrated-target-heads"; "candidate-ready"; "candidate-removed-fenced"]%string).
Definition RUNTIME_EVIDENCE : list pystr := lit <$> ["acl-restored"; "full-ready"]%string.
Definition ROUTING_EVIDENCE : list pystr := lit <$> ["pre-routing-verified"; "routing-restored"]%string.

(** [a <= b] of sets. *)
Definition within (a b : list pystr) : bool := forallb (λ x, bool_decide (x ∈ b)) a.

(** What a receipt of a phase must have, and what it may have. *)
Definition required_evidence (complete routing_gate : bool) : list pystr :=
  PRE_ACL_EVIDENCE ++ (if complete || routing_gate then RUNTIME_EVIDENCE else []) ++
  (if complete then ROUTING_EVIDENCE else []).
Definition allowed_evidence (complete : bool) : list pystr :=
  PRE_ACL_EVIDENCE ++ RUNTIME_EVIDENCE ++ (if complete then ROUTING_EVIDENCE else []).

(** The evidence of a receipt, as texts. *)
Definition evidence_of (receipt : json) : list (pystr * pystr) :=
  (λ kv, (kv.1, str_of kv.2)) <$> items_of (dot receipt "evidence").

(** The receipt that was verified before routing, from the complete one. *)
Definition pre_routing_of (receipt : json) : json :=
  JObj (dict_set (dict_set (items_of receipt) (lit "phase") (JStr (lit "pre-routing"))) (lit "evidence")
    (JObj (filter (λ kv, kv.1 ∉ ROUTING_EVIDENCE) (items_of (dot receipt "evidence"))))).

Definition ATTEMPT_SCHEMA : string := "dotmac.cp_transition_attempt/2".
(** What [reserve] writes. *)
Definition attempt_document (request : json) (d nonce : pystr) (verification : json) : json := JObj
  [(lit "schema", JStr (lit ATTEMPT_SCHEMA)); (lit "verification_digest", verification);
   (lit "request_digest", JStr d); (lit "host_nonce", JStr nonce);
   (lit "authorization_run_id", dot request "authorization_run_id");
   (lit "authorization_run_attempt", dot request "authorization_run_attempt")].

Definition IDENTITY_FIELDS : list string :=
  ["product"; "environment"; "host"; "database"; "cluster_system_identifier"; "database_oid"]%string.

(** The refusal of a request of a recovery generation when there is no context. *)
Definition missing_context (schema : json) : option string :=
  let schema_is s := bool_decide (schema = JStr (lit s)) in
  if schema_is ADJUDICATED then Some "adjudication_context_missing"%string
  else if schema_is POST_ACL then Some "post_acl_context_missing"%string
  else if schema_is FAILED_1 || schema_is FAILED_2 then Some "failed_candidate_context_missing"%string
  else if schema_is COMMITTED then Some "committed_context_missing"%string
  else None.

(** [_depth < 32]. *)
Definition MAX_CHAIN : nat := 32.

Section receipts.
Context `{MCH : Machine} `{CRY : Crypto} `{FL : Floats} `{FV : FloatValues} `{UCD : UnicodeDB} `{PRS : Parsers}.
#[local] Abbreviation proc := (proc world exn).
Context (store : path) (recovery : RecoveryContexts).

(** Evidence is read and validated again, in the order of the receipt. *)
Definition revalidate (request : json) (nonce : pystr) (all : list (pystr * pystr)) (kc : pystr * pystr) : proc unit :=
  raw ← read store kc.2 Evidence;
  value ← purely (read_json raw);
  _validate_evidence store recovery value request nonce kc.1 all.

(** The receipt of the transition before is complete, leads to this one's source
    on the same database, and [again] verifies it. *)
Definition check_predecessor (again : bytes → json → pystr → proc unit) (request : json) : proc unit :=
  match dot request "previous_receipt_digest" with
  | JStr checksum =>
      raw ← read store checksum Receipt;
      prior ← purely (read_json raw);
      purely (_shape prior (receipt_hint (dot prior "schema")));;
      let before := dot prior "request" in
      demands (bool_decide (dot prior "phase" = JStr (lit "complete")) &&
               same_json (dot before "target") (dot request "source")) "predecessor_transition_mismatch";;
      demands (forallb (λ k, bool_decide (dot before k = dot request k)) IDENTITY_FIELDS)
        "predecessor_identity_mismatch";;
      again raw before (str_of (dot prior "host_nonce"))
  | _ => mret tt
  end.

(** The attempt that the reservation of a request consumed it for. *)
Definition check_reservation (request : json) (d nonce : pystr) : proc json :=
  raw ← read store d Reservation;
  reservation ← purely (read_json raw);
  let expected := attempt_document request d nonce (dot reservation "verification_digest") in
  demands (py_eq reservation expected) "reservation_mismatch";;
  mret reservation.

(** A receipt's own bindings; the evidence it is validated with. *)
Definition check_receipt (value request : json) (d nonce : pystr) (routing_gate : bool)
    : proc (list (pystr * pystr)) :=
  let evidence := evidence_of value in
  let complete := bool_decide (dot value "phase" = JStr (lit "complete")) in
  let genesis := dot value "genesis_digest" in
  demands (same_json (dot value "request") request && bool_decide (dot value "request_digest" = JStr d)) "schema_violation";;
  demands (bool_decide (dot value "host_nonce" = JStr nonce)) "schema_violation";;
  demands (bool_decide (dot value "previous_receipt_digest" = dot request "previous_receipt_digest")) "schema_violation";;
  demands (negb (eqb (is_null genesis) (is_null (dot value "previous_receipt_digest")))) "schema_violation";;
  demands (within (required_evidence complete routing_gate) evidence.*1 && within evidence.*1 (allowed_evidence complete))
    "receipt_phase_mismatch";;
  demands (is_null genesis || bool_decide (genesis = default JNull (dict_get (items_of (dot value "evidence")) (lit "source-genesis"))))
    "schema_violation";;
  if bool_decide (lit "pre-routing-verified" ∈ evidence.*1)
  then
    raw ← purely (canonical_json (pre_routing_of value));
    read store (raw_digest raw) Receipt;;
    mret (dict_set evidence (lit "pre-routing-receipt") (raw_digest raw))
  else mret evidence.

(** [verify_any_receipt] without contexts, [verify] being [verify_receipt]. *)
Definition any_receipt (verify : bytes → json → pystr → bool → proc json) (raw : bytes) (request : json)
    (host_nonce : pystr) (routing_gate : bool) : proc unit :=
  match missing_context (dot request "schema") with
  | Some code => throw (refusal code)
  | None => verify raw request host_nonce routing_gate;; mret tt
  end.

Fixpoint verify_receipt (fuel : nat) (raw : bytes) (request : json) (host_nonce : pystr) (routing_gate : bool) : proc json :=
  match fuel with
  | O => throw (refusal "receipt_chain_too_deep")
  | S fuel =>
      d ← purely (request_digest request);
      reservation ← check_reservation request d host_nonce;
      purely (sha (dot reservation "verification_digest") true);;
      value ← purely (read_json raw);
      purely (_shape value CpMigrationTransitionReceiptV1);;
      all ← check_receipt value request d host_nonce routing_gate;
      for_each (revalidate request host_nonce all) (evidence_of value);;
      check_predecessor (λ raw before nonce, any_receipt (verify_receipt fuel) raw before nonce true) request;;
      mret value
  end.

(** [verify_any_receipt], at the depth that leaves [fuel]. *)
Definition verify_any_receipt (fuel : nat) : bytes → json → pystr → bool → proc unit := any_receipt (verify_receipt fuel).

Definition verify_predecessor (fuel : nat) (request : json) : proc unit :=
  match fuel with
  | O => throw (refusal "receipt_chain_too_deep")
  | S fuel => check_predecessor (λ raw before nonce, verify_any_receipt fuel raw before nonce true) request
  end.

(** What must be on record before the database is migrated. *)
Definition verify_transition_prefix (request : json) (a : VerifiedAuthorization) (host_nonce : pystr)
    (evidence : list (pystr * pystr)) : proc unit :=
  purely (verify_authorization request a);;
  verify_predecessor MAX_CHAIN request;;
  d ← purely (request_digest request);
  raw ← read store d Reservation;
  reservation ← purely (read_json raw);
  demands (py_eq reservation (attempt_document request d host_nonce (JStr (raw_digest (verification_bytes a)))))
    "reservation_mismatch";;
  demands (same_set evidence.*1 PRE_MIGRATION_EVIDENCE) "pre_migration_evidence_mismatch";;
  kept ← read store (raw_digest (verification_bytes a)) Evidence;
  demands (bool_decide (kept = verification_bytes a)) "authorization_bytes_mismatch";;
  for_each (revalidate request host_nonce evidence) evidence.
End receipts.
