(* ===== verification/Transition.v ===== *)
(** * The execution of a transition

    [execute_transition] of [deployment/cp_transition.py]: under the host's
    lock a request is authorized, its predecessor verified and its one attempt
    reserved; then every stage runs on the host, its record is validated and
    retained before the next stage, and a failure at any point makes the host
    fail closed.  The host is the class [CpHost], every method of the protocol
    one [call]. *)

From S2P Require Import Prelude PyText PyUuid PyDate PyTime Json JsonReader JsonRound Effects Contracts Catalogue TransitionStore TransitionRequest TransitionAuthorization TransitionEvidence TransitionReceipt.

#[local] Open Scope Z_scope.

(** ** The host *)

(** The methods of [CpTransitionHost] that act, with what they are given. *)
Inductive call :=
  | Inspect (request : json)
  | Maintenance (request : json) (nonce : pystr)
  | FenceAndNegativeReconnect (request : json) (nonce : pystr)
  | StopAndDrainWriters (request : json) (nonce : pystr)
  | SourceGenesis (request : json) (nonce : pystr)
  | CaptureAndRestore (request : json) (nonce : pystr)
  | RecheckFenceSource (request : json) (nonce : pystr)
  | Migrate (request : json) (nonce : pystr) (authorization : VerifiedAuthorization)
      (reservation_digest genesis_digest restore_digest fence_digest : pystr) (evidence : list (pystr * pystr))
  | TargetHeads (request : json) (nonce : pystr)
  | CandidateReady (request : json) (nonce : pystr)
  | CloseCandidateAndRefence (request : json) (nonce : pystr)
  | RestoreAcl (request : json) (nonce : pystr)
  | FullReady (request : json) (nonce : pystr)
  | VerifyPreRouting (receipt : bytes)
  | RestoreRouting (request : json) (nonce : pystr)
  | FailClosed (request : json) (nonce : pystr) (acl_may_be_restored : bool).

Class CpHost `{MCH : Machine} := {
  (** [host.lock()]: entering and leaving the context *)
  acquire : proc world exn unit;
  release : proc world exn unit;
  act : call → proc world exn bytes;
  (** [clock()] *)
  clock : proc world exn Z;
}.

(** ** An attempt's own variables *)

(** [evidence] and [acl_may_be_restored] of [execute_transition]. *)
Record attempt := { evidence : list (pystr * pystr); acl_may_be_restored : bool }.
Definition fresh_attempt : attempt := {| evidence := []; acl_may_be_restored := false |}.

Section attempts.
Context {W : Type}.

(** A procedure that does not touch the variables. *)
Definition lift {A} (m : proc W exn A) : proc (W * attempt) exn A := λ s,
  let '(o, w) := m s.1 in (o, (w, s.2)).
Definition current : proc (W * attempt) exn attempt := λ s, (Ret s.2, s).
Definition keep (kind checksum : pystr) : proc (W * attempt) exn unit := λ s,
  (Ret tt, (s.1, {| evidence := dict_set (evidence s.2) kind checksum; acl_may_be_restored := acl_may_be_restored s.2 |})).
Definition forget (kind : pystr) : proc (W * attempt) exn unit := λ s,
  (Ret tt, (s.1, {| evidence := filter (λ kc, kc.1 ≠ kind) (evidence s.2);
                    acl_may_be_restored := acl_may_be_restored s.2 |})).
Definition mark_acl : proc (W * attempt) exn unit := λ s,
  (Ret tt, (s.1, {| evidence := evidence s.2; acl_may_be_restored := true |})).

(** A block with its own variables. *)
Definition with_attempt {A} (m : proc (W * attempt) exn A) : proc W exn A := λ w,
  let '(o, s) := m (w, fresh_attempt) in (o, s.1).
End attempts.

Section transition.
Context `{MCH : Machine} `{HST : !CpHost} `{CRY : Crypto} `{FL : Floats} `{FV : FloatValues} `{UCD : UnicodeDB} `{PRS : Parsers}.
#[local] Abbreviation proc := (proc world exn).
#[local] Abbreviation block := (Effects.proc (world * attempt) exn).

(** [ArtifactStore.reserve]. *)
Definition reserve (store : path) (request : json) (a : VerifiedAuthorization) : proc pystr :=
  purely (verify_authorization request a);;
  d ← purely (request_digest request);
  nonce ← token_hex;
  raw ← purely (canonical_json (attempt_document request d nonce (JStr (raw_digest (verification_bytes a)))));
  name ← purely (_name d Reservation);
  _create store name raw;;
  back ← read store d Reservation;
  demands (bool_decide (back = raw)) "schema_violation";;
  mret nonce.

Context (store : path) (recovery : RecoveryContexts).
Context (request : json) (nonce : pystr).

(** A stage's record is validated against what was retained before, and kept. *)
Definition retain (kind : pystr) (raw : bytes) : block pystr :=
  value ← lift (purely (read_json raw));
  l ← current;
  lift (_validate_evidence store recovery value request nonce kind (evidence l));;
  checksum ← lift (put store raw Evidence);
  keep kind checksum;;
  mret checksum.

(** [retain(kind, host.action(...))]. *)
Definition stage (kind : string) (c : call) : block pystr := raw ← lift (act c); retain (lit kind) raw.

(** A record of the control plane's own. *)
Definition local_record (kind : string) (result : json) : block bytes :=
  d ← lift (purely (request_digest request));
  lift (purely (canonical_json (JObj
    [(lit "schema", JStr (lit EVIDENCE_SCHEMA)); (lit "request_digest", JStr d); (lit "host_nonce", JStr nonce);
     (lit "kind", JStr (lit kind)); (lit "result", result)]))).

(** The digest of a kind that has been retained. *)
Definition retained (l : attempt) (kind : string) : res pystr :=
  of_option (dict_get (evidence l) (lit kind)) (Exn KeyError kind).

(** A receipt is verified before it is retained. *)
Definition receipt (complete routing_gate : bool) : block bytes :=
  l ← current;
  let previous := dot request "previous_receipt_digest" in
  genesis ← (if is_null previous then d ← lift (purely (retained l "source-genesis")); mret (JStr d) else mret JNull);
  d ← lift (purely (request_digest request));
  raw ← lift (purely (canonical_json (JObj
    [(lit "schema", JStr (lit RECEIPT_SCHEMA)); (lit "request", request); (lit "request_digest", JStr d);
     (lit "host_nonce", JStr nonce); (lit "phase", JStr (lit (if complete : bool then "complete" else "pre-routing")));
     (lit "genesis_digest", genesis); (lit "previous_receipt_digest", previous);
     (lit "evidence", JObj ((λ kc, (kc.1, JStr kc.2)) <$> evidence l))])));
  lift (verify_receipt store recovery MAX_CHAIN raw request nonce routing_gate);;
  checksum ← lift (put store raw Receipt);
  lift (read store checksum Receipt).

(** The candidate, the access list, readiness and routing, in that order. *)
Definition _execute_common_suffix : block pystr :=
  stage "candidate-ready" (CandidateReady request nonce);;
  stage "candidate-removed-fenced" (CloseCandidateAndRefence request nonce);;
  receipt false false;;
  mark_acl;;
  stage "acl-restored" (RestoreAcl request nonce);;
  stage "full-ready" (FullReady request nonce);;
  pre_routing ← receipt false true;
  keep (lit "pre-routing-receipt") (raw_digest pre_routing);;
  stage "pre-routing-verified" (VerifyPreRouting pre_routing);;
  forget (lit "pre-routing-receipt");;
  l ← current;
  verified ← lift (purely (retained l "pre-routing-verified"));
  lift (read store verified Evidence);;
  stage "routing-restored" (RestoreRouting request nonce);;
  final ← receipt true true;
  mret (raw_digest final).

(** The stages before the migration, and the migration. *)
Definition migrate_stages (a : VerifiedAuthorization) (inspection : bytes) : block unit :=
  facts ← lift (purely (read_json inspection));
  raw ← local_record "inspection" facts;
  retain (lit "inspection") raw;;
  auth_digest ← lift (put store (verification_bytes a) Evidence);
  raw ← local_record "authorization" (JObj
    [(lit "verification_digest", JStr auth_digest); (lit "run_id", JInt (authorization_run_id a));
     (lit "run_attempt", JInt (authorization_run_attempt a)); (lit "trusted_actor", JStr (a_trusted_actor a))]);
  retain (lit "authorization") raw;;
  stage "maintenance" (Maintenance request nonce);;
  stage "strict-fence-reconnect" (FenceAndNegativeReconnect request nonce);;
  stage "writers-stopped" (StopAndDrainWriters request nonce);;
  stage "source-genesis" (SourceGenesis request nonce);;
  stage "recovery-restored" (CaptureAndRestore request nonce);;
  stage "fence-source-rechecked" (RecheckFenceSource request nonce);;
  l ← current;
  lift (verify_transition_prefix store recovery request a nonce (evidence l));;
  d ← lift (purely (request_digest request));
  genesis ← lift (purely (retained l "source-genesis"));
  restored ← lift (purely (retained l "recovery-restored"));
  fence ← lift (purely (retained l "fence-source-rechecked"));
  stage "migrate" (Migrate request nonce a d genesis restored fence (evidence l));;
  stage "migrated-target-heads" (TargetHeads request nonce);;
  mret tt.

(** The attempt: what escapes it is raised again once the host failed closed,
    or could not. *)
Definition run_attempt (a : VerifiedAuthorization) (inspection : bytes) : proc pystr := with_attempt
  (try_except (migrate_stages a inspection;; _execute_common_suffix)
    (λ original,
      try_except
        (l ← current;
         failure ← lift (act (FailClosed request nonce (acl_may_be_restored l)));
         retain (lit "failure") failure;;
         mret tt)
        (λ _, mret tt);;
      throw original)).
End transition.

Section execution.
Context `{MCH : Machine} `{HST : !CpHost} `{CRY : Crypto} `{FL : Floats} `{FV : FloatValues} `{UCD : UnicodeDB} `{PRS : Parsers}.
#[local] Abbreviation proc := (proc world exn).

(** [with host.lock(): body]. *)
Definition with_lock {A} (body : proc A) : proc A := acquire;; finally body release.

Definition execute_transition (store : path) (recovery : RecoveryContexts) (policy : CpTransitionTrustPolicy)
    (raw_request : bytes) (request_path : path) (bundle_path : option path) : proc pystr :=
  with_lock (
    now ← clock;
    request ← purely (load_request raw_request (identity policy) now);
    authorization ← verify_attestation policy request request_path bundle_path now;
    verify_predecessor store recovery MAX_CHAIN request;;
    inspection ← act (Inspect request);
    now ← clock;
    purely (validate_request request (identity policy) now);;
    nonce ← reserve store request authorization;
    run_attempt store recovery request nonce authorization inspection).
End execution.
