(* ===== verification/TransitionLaws.v ===== *)
(** * What a transition relies on

    [Lawful] is the documented behaviour of the machine and the host around a
    store: reading changes nothing, a file is created once and then only
    appended to by its creator, and nothing else ever changes a file that is
    there.  [artifacts] are the files of the store, [calls] the calls made to the
    host so far, each with the artifacts there were when it was made. *)

From S2P Require Import Prelude PyText PyUuid PyDate PyTime Json JsonReader JsonRound Effects Contracts Catalogue TransitionStore TransitionRequest TransitionAuthorization TransitionEvidence TransitionReceipt Transition.

#[local] Open Scope Z_scope.

Abbreviation shelf := (gmap pystr bytes).

(** An observation that no outcome of [m] changes. *)
Class Lawful `{MCH : Machine} `{HST : !CpHost} (store : path) := {
  artifacts : world → shelf;
  calls : world → list (call * shelf);
  file_of (name : pystr) : list pystr := parts (child store name);
  (** files are opened and read, programs run, and time passes *)
  directory_quiet p : keeps artifacts (open_directory_at p) ∧ keeps calls (open_directory_at p);
  open_quiet p : keeps artifacts (open_file p) ∧ keeps calls (open_file p);
  read_quiet p n : keeps artifacts (TransitionStore.read_file p n) ∧ keeps calls (TransitionStore.read_file p n);
  fsync_quiet p : keeps artifacts (os_fsync p) ∧ keeps calls (os_fsync p);
  run_quiet argv env : keeps artifacts (run_program argv env) ∧ keeps calls (run_program argv env);
  token_quiet : keeps artifacts token_hex ∧ keeps calls token_hex;
  clock_quiet : keeps artifacts clock ∧ keeps calls clock;
  release_quiet : keeps artifacts release ∧ keeps calls release;
  read_done name n w raw w' :
    TransitionStore.read_file (file_of name) (Some n) w = (Ret raw, w') →
    ∃ f, artifacts w !! name = Some f ∧ raw = take (Z.to_nat n) f;
  (** exclusive creation, and writing to the file that was created *)
  create_silent p : keeps calls (create_file p);
  create_out name w o w' :
    create_file (file_of name) w = (o, w') →
    (artifacts w' = artifacts w ∧ ∀ i, o ≠ Ret i) ∨ (artifacts w !! name = None ∧ artifacts w' = <[name := []]> (artifacts w));
  write_silent p v : keeps calls (os_write p v);
  write_out name v w o w' :
    os_write (file_of name) v w = (o, w') →
    ∃ k, artifacts w' = alter (λ f, f ++ take k v) name (artifacts w) ∧ ∀ n, o = Ret n → n = Z.of_nat k;
  (** others only add to the store, before the lock is taken and in the host's actions *)
  acquire_adds w o w' : acquire w = (o, w') → artifacts w ⊆ artifacts w' ∧ calls w' = calls w;
  act_traced c w o w' :
    act c w = (o, w') → artifacts w ⊆ artifacts w' ∧ calls w' = calls w ++ [(c, artifacts w)];
}.

Section rules.
Context `{LAW : Lawful}.
#[local] Abbreviation proc := (proc world exn).

(** ** Quiet procedures *)

Definition quiet {A} (m : proc A) : Prop := keeps artifacts m ∧ keeps calls m.

Lemma quiet_ret {A} (a : A) : quiet (mret a).
Proof. split; apply keeps_ret. Qed.
Lemma quiet_throw {A} e : quiet (throw (A := A) e).
Proof. split; apply keeps_throw. Qed.
Lemma quiet_demands b code : quiet (demands b code).
Proof. split; apply keeps_require. Qed.
Lemma quiet_purely {A} (m : res A) : quiet (purely m).
Proof. destruct m; [apply quiet_ret|apply quiet_throw]. Qed.
Lemma quiet_bind {A B} (m : proc A) (f : A → proc B) : quiet m → (∀ a, quiet (f a)) → quiet (m ≫= f).
Proof. intros [Ha Hc] Hf. split; apply keeps_bind; try done; intros a; apply Hf. Qed.
Lemma quiet_bind_purely {A B} (m : res A) (f : A → proc B) : (∀ a, m = Ok a → quiet (f a)) → quiet (purely m ≫= f).
Proof.
  intros Hf. destruct m as [a|e]; [|split; intros w; done]. specialize (Hf a eq_refl). by destruct Hf.
Qed.
Lemma quiet_for_each {A} (f : A → proc unit) l : (∀ x, quiet (f x)) → quiet (for_each f l).
Proof. intros Hf. split; apply keeps_for_each; intros x; apply Hf. Qed.
Lemma quiet_out {A} (m : proc A) w o w' : quiet m → m w = (o, w') → artifacts w' = artifacts w ∧ calls w' = calls w.
Proof. intros [Ha Hc] Hm. split; by eapply keeps_out. Qed.
End rules.

Create HintDb quiet.
#[export] Hint Resolve quiet_ret quiet_throw quiet_demands quiet_purely : quiet.
Ltac quieting :=
  cbv zeta;
  repeat first
    [ solve [auto 3 with quiet nocore]
    | apply quiet_bind; [|intros ?]
    | apply quiet_for_each; intros ?
    | case_match ].

Section store.
Context `{LAW : Lawful} `{CRY : Crypto}.
#[local] Abbreviation proc := (proc world exn).

Lemma quiet_directory p : quiet (open_directory_at p).
Proof. apply directory_quiet. Qed.
Lemma quiet_open p : quiet (open_file p).
Proof. apply open_quiet. Qed.
Lemma quiet_read_file p n : quiet (TransitionStore.read_file p n).
Proof. apply read_quiet. Qed.
Lemma quiet_token : quiet token_hex.
Proof. apply token_quiet. Qed.
Lemma quiet_clock : quiet clock.
Proof. apply clock_quiet. Qed.
Lemma quiet_release : quiet release.
Proof. apply release_quiet. Qed.
Lemma quiet_protected info b : quiet (_protected info b).
Proof. unfold _protected. quieting. Qed.
#[local] Hint Resolve quiet_directory quiet_open quiet_read_file quiet_protected : quiet.
Lemma quiet_walk above below : quiet (walk above below).
Proof. revert above. induction below as [|part below IH]; intros above; simpl; quieting. Qed.
#[local] Hint Resolve quiet_walk : quiet.
Lemma quiet_open_directory p : quiet (_open_directory p).
Proof. unfold _open_directory. quieting. Qed.
#[local] Hint Resolve quiet_open_directory : quiet.
Lemma quiet_read_protected p : quiet (_read_protected p).
Proof. unfold _read_protected. quieting. Qed.
Lemma quiet_read root c k : quiet (read root c k).
Proof. unfold read. quieting. Qed.
Lemma quiet_fingerprint p : quiet (globals_replay_fingerprint p).
Proof. unfold globals_replay_fingerprint. quieting. Qed.

(** ** What a read tells *)

Lemma purely_Ret {A} (m : res A) w a w' : (purely m : proc A) w = (Ret a, w') ↔ m = Ok a ∧ w' = w.
Proof. destruct m; simpl; unfold throw, mret, proc_ret; naive_solver. Qed.
Lemma demands_Ret b code w u w' : (demands b code : proc unit) w = (Ret u, w') ↔ b = true ∧ w' = w.
Proof. apply require_Ret. Qed.

(** The file of an artifact. *)
Definition artifact_name (checksum : pystr) (k : artifact) : pystr := drop 7 checksum ++ 46 :: artifact_text k ++ lit ".json".
Lemma name_Ok c k n : _name c k = Ok n → n = artifact_name c k ∧ fullmatch Digest c = true.
Proof.
  unfold _name, sha, _shape. cbn [shape]. destruct (fullmatch Digest c); [|done]. by intros [= <-].
Qed.

Lemma read_Ret c k w raw w' :
  read store c k w = (Ret raw, w') →
  artifacts w !! artifact_name c k = Some raw ∧ fullmatch Digest c = true ∧ (k ≠ Reservation → raw_digest raw = c) ∧
  artifacts w' = artifacts w ∧ calls w' = calls w.
Proof.
  intros H. pose proof (quiet_out _ _ _ _ (quiet_read store c k) H) as [Ha Hc]. unfold read in H.
  apply bind_Ret in H as (u & w1 & H1 & H). apply bind_Ret in H as (n & w2 & H2 & H).
  apply purely_Ret in H2 as [[-> Hm]%name_Ok ->]. apply bind_Ret in H as (i & w3 & H3 & H).
  apply bind_Ret in H as (u2 & w4 & H4 & H). apply bind_Ret in H as (r & w5 & H5 & H).
  apply bind_Ret in H as (u3 & w6 & [Hlen ->]%demands_Ret & H). apply bind_Ret in H as (u4 & w7 & H7 & H).
  apply mret_eq in H as [[= <-] ->].
  destruct (quiet_out _ _ _ _ (quiet_open_directory store) H1) as [E1 _].
  destruct (quiet_out _ _ _ _ (quiet_open _) H3) as [E3 _]. destruct (quiet_out _ _ _ _ (quiet_protected _ _) H4) as [E4 _].
  apply read_done in H5 as (f & Hf & ->). rewrite E4, E3, E1 in Hf.
  assert (Hshort : take (Z.to_nat (MAX_ARTIFACT + 1)) f = f).
  { apply take_ge. apply Z.leb_le in Hlen. rewrite length_take in Hlen. unfold MAX_ARTIFACT in *. lia. }
  rewrite Hshort in *. split_and!; try done.
  intros Hk. rewrite bool_decide_eq_false_2 in H7 by done. by apply demands_Ret in H7 as [?%bool_decide_eq_true _].
Qed.

(** ** Creating *)

(** The loop over [os.write] appends a beginning of the view, all of it when it returns. *)
Lemma write_view_out name fuel view w o w' :
  write_view fuel (file_of name) view w = (o, w') →
  calls w' = calls w ∧
  ∃ k, artifacts w' = alter (λ f, f ++ take k view) name (artifacts w) ∧ ∀ u, o = Ret u → take k view = view.
Proof.
  assert (Hid : ∀ s : shelf, s = alter (λ f, f ++ []) name s).
  { intros s. symmetry. apply alter_id. intros f _. by apply app_nil_r. }
  revert view w. induction fuel as [|fuel IH]; intros view w H; (destruct view as [|b view];
    [simpl in H; apply mret_eq in H as [-> ->]; split; [done|]; exists 0%nat; split; [apply Hid|done]|]).
  { injection H as <- <-. split; [done|]. exists 0%nat. split; [apply Hid|done]. }
  change (write_view (S fuel) (file_of name) (b :: view)) with
    (written ← os_write (file_of name) (b :: view); demands (0 <? written) "artifact_write_failed";;
     write_view fuel (file_of name) (drop (Z.to_nat written) (b :: view))) in H.
  rewrite bind_eq in H. destruct (os_write (file_of name) (b :: view) w) as [q v] eqn:Hw.
  pose proof (keeps_out _ _ _ _ _ (write_silent _ _) Hw) as Hc. apply write_out in Hw as (k & Ha & Hk).
  destruct q as [n|e|]; [|injection H as <- <-; split; [done|]; by exists k..].
  rewrite (Hk n eq_refl), bind_eq in H. destruct (0 <? Z.of_nat k).
  - simpl demands in H. cbn [mret proc_ret] in H. rewrite Nat2Z.id in H. apply IH in H as (Hc' & j & Ha' & Hj).
    split; [congruence|]. exists (k + j)%nat. split.
    + rewrite Ha', Ha, alter_alter_eq. apply alter_ext. intros f _. simpl.
      by rewrite <- app_assoc, take_take_drop.
    + intros u Hu. rewrite <- take_take_drop, (Hj u Hu). apply take_drop.
  - simpl demands in H. apply throw_eq in H as [-> ->]. split; [done|]. by exists k.
Qed.

(** Creating a file makes it, with all of the bytes when it returns; nothing
    happens to a name that is there. *)
Definition made (name : pystr) (raw : bytes) (returned : bool) (w w' : world) : Prop :=
  (artifacts w' = artifacts w ∧ returned = false) ∨
  (artifacts w !! name = None ∧ ∃ part, artifacts w' = <[name := part]> (artifacts w) ∧ (returned = true → part = raw)).
Definition returns_ {A} (o : outcome exn A) : bool := match o with Ret _ => true | _ => false end.

Lemma made_grows name raw b w w' : made name raw b w w' → artifacts w ⊆ artifacts w'.
Proof. intros [[-> _]|(Hn & part & -> & _)]; [done|by apply insert_subseteq]. Qed.

Lemma create_made name raw w o w' :
  _create store name raw w = (o, w') → calls w' = calls w ∧ made name raw (returns_ o) w w'.
Proof.
  unfold _create. rewrite bind_eq. destruct (_open_directory store w) as [q u] eqn:Hd.
  destruct (quiet_out _ _ _ _ (quiet_open_directory store) Hd) as [Ea Ec].
  destruct q as [[]|e|]; [|by intros [= <- <-]; split; [|left; split]..].
  rewrite bind_eq. destruct (create_file _ u) as [q v] eqn:Hf.
  pose proof (keeps_out _ _ _ _ _ (create_silent _) Hf) as Hc. apply create_out in Hf.
  assert (Hfail : calls v = calls w ∧ made name raw false w v).
  { split; [congruence|]. unfold made. rewrite <- Ea. destruct Hf as [[Hf _]|[Hf Hs]]; [by left|].
    right. split; [done|]. by exists []. }
  destruct q as [i|e|]; [|by intros [= <- <-]..].
  destruct Hf as [[_ Hf]|[Hnone Hf]]; [by destruct (Hf i)|]. unfold finally. fold (file_of name).
  destruct ((_protected i false;; write_view (length raw) (file_of name) raw;; os_fsync (file_of name)) v) as [q u'] eqn:Hm.
  assert (Hbody : calls u' = calls v ∧ ∃ k, artifacts u' = <[name := take k raw]> (artifacts w) ∧ (returns_ q = true → take k raw = raw)).
  { rewrite bind_eq in Hm. destruct (_protected i false v) as [q1 v1] eqn:H1.
    destruct (quiet_out _ _ _ _ (quiet_protected _ _) H1) as [Ea1 Ec1].
    destruct q1 as [[]|e|]; [|by injection Hm as <- <-; split; [|exists 0%nat; split; [by rewrite Ea1, Hf, Ea|done]]..].
    rewrite bind_eq in Hm. destruct (write_view _ _ _ v1) as [q2 v2] eqn:H2. apply write_view_out in H2 as (Ec2 & k & Ea2 & Hk).
    rewrite Ea1, Hf, alter_insert_eq in Ea2. simpl in Ea2. rewrite Ea in Ea2.
    destruct q2 as [[]|e|]; [|by injection Hm as <- <-; split; [congruence|]; exists k..].
    destruct (quiet_out _ _ _ _ (fsync_quiet _) Hm) as [Ea3 Ec3]. split; [congruence|]. exists k.
    split; [congruence|]. intros _. by apply (Hk tt). }
  destruct Hbody as (Hbc & k & Hba & Hbk). intros H.
  assert (Hend : calls w' = calls u' ∧ artifacts w' = artifacts u' ∧ (returns_ o = true → returns_ q = true)).
  { destruct q as [[]|e|]; [| |by injection H as <- <-];
      (rewrite bind_eq in H; destruct (os_fsync _ u') as [q3 v3] eqn:H3;
       destruct (quiet_out _ _ _ _ (fsync_quiet _) H3) as [Ea3 Ec3]; destruct q3 as [[]|e3|]; by injection H as <- <-). }
  destruct Hend as (-> & Hea & Hret). split; [congruence|]. right. rewrite <- Ea at 1. split; [done|].
  exists (take k raw). rewrite Hea. split; [done|]. auto.
Qed.

(** ** Growth *)

(** Whatever becomes of it, no call is made and no artifact changes. *)
Definition grows {A} (m : proc A) : Prop :=
  ∀ w o w', m w = (o, w') → calls w' = calls w ∧ artifacts w ⊆ artifacts w'.

Lemma grows_quiet {A} (m : proc A) : quiet m → grows m.
Proof. intros Hm w o w' H. by destruct (quiet_out _ _ _ _ Hm H) as [-> ->]. Qed.
Lemma grows_bind {A B} (m : proc A) (f : A → proc B) : grows m → (∀ a, grows (f a)) → grows (m ≫= f).
Proof.
  intros Hm Hf w o w'. rewrite bind_eq. destruct (m w) as [q v] eqn:H. apply Hm in H as [Hc Ha].
  destruct q as [a|e|]; [|by intros [= <- <-]..]. intros [Hc' Ha']%Hf. split; [congruence|by etrans].
Qed.
Lemma grows_create name raw : grows (_create store name raw).
Proof. intros w o w' [Hc Hm]%create_made. split; [done|by eapply made_grows]. Qed.

(** What a returning [put] has stored. *)
Lemma put_Ret raw k w c w' :
  put store raw k w = (Ret c, w') → c = raw_digest raw ∧ artifacts w' !! artifact_name c k = Some raw.
Proof.
  unfold put. intros H. cbv zeta in H. apply bind_Ret in H as (? & w1 & [_ ->]%demands_Ret & H).
  apply bind_Ret in H as (n & w2 & [_ ->]%purely_Ret & H). apply bind_Ret in H as (? & w3 & _ & H).
  apply bind_Ret in H as (back & w4 & (Hr & _ & _ & Ha & _)%read_Ret & H).
  apply bind_Ret in H as (? & w5 & [->%bool_decide_eq_true ->]%demands_Ret & H). apply mret_eq in H as [[= ->] ->].
  split; [done|]. by rewrite Ha.
Qed.
Lemma grows_put raw k : grows (put store raw k).
Proof.
  unfold put. cbv zeta. apply grows_bind; [apply grows_quiet, quiet_demands|intros _].
  apply grows_bind; [apply grows_quiet, quiet_purely|intros n]. apply grows_bind; [apply grows_create|intros _].
  apply grows_quiet, quiet_bind; [apply quiet_read|intros back]. quieting.
Qed.
End store.
#[export] Hint Resolve quiet_token quiet_clock quiet_release quiet_directory quiet_open quiet_read_file quiet_protected quiet_walk quiet_open_directory
  quiet_read_protected quiet_read quiet_fingerprint : quiet.

(** ** Verification changes nothing *)

Section verification.
Context `{LAW : Lawful} `{CRY : Crypto} `{FL : Floats} `{FV : FloatValues} `{UCD : UnicodeDB} `{PRS : Parsers}.
Context (recovery : RecoveryContexts).
(** The recovery owners only look at a backup. *)
Context (owners_quiet : Forall (λ c, ∀ r, quiet (verify_backup c.2.1 r)) recovery).

Lemma quiet_owner d o b r : dict_get recovery d = Some (o, b) → quiet (verify_backup o r).
Proof.
  intros H. apply dict_get_Some in H. rewrite Forall_forall in owners_quiet. by apply (owners_quiet (d, (o, b))).
Qed.
Lemma quiet_program argv env : quiet (run_program argv env).
Proof. apply run_quiet. Qed.
#[local] Hint Resolve quiet_owner quiet_program : quiet.

Lemma quiet_executable p : quiet (_protected_executable_digest p).
Proof. unfold _protected_executable_digest. quieting. Qed.
#[local] Hint Resolve quiet_executable : quiet.
Lemma quiet_attestation p request request_path bundle now :
  quiet (verify_attestation p request request_path bundle now).
Proof. unfold verify_attestation. quieting. Qed.

Lemma quiet_quiescence d request nonce : quiet (_verify_candidate_quiescence store d request nonce).
Proof. unfold _verify_candidate_quiescence. quieting. Qed.
Lemma quiet_genesis request result : quiet (check_genesis store request result).
Proof. unfold check_genesis. quieting. Qed.
Lemma quiet_comparison request genesis restored d nonce : quiet (check_comparison store request genesis restored d nonce).
Proof. unfold check_comparison. quieting. Qed.
Lemma quiet_backup request restored d : quiet (check_backup store recovery request restored d).
Proof.
  unfold check_backup. do 7 (apply quiet_bind; [solve [eauto 3 with quiet]|intros ?]).
  apply quiet_bind_purely. intros [owner backup] Hown. apply of_option_Ok in Hown. quieting. by eapply quiet_owner.
Qed.
Lemma quiet_replay restored backup d nonce : quiet (check_replay store restored backup d nonce).
Proof. unfold check_replay. quieting. Qed.
Lemma quiet_bootstrap observation : quiet (check_bootstrap store observation).
Proof. unfold check_bootstrap. quieting. Qed.
#[local] Hint Resolve quiet_quiescence quiet_genesis quiet_comparison quiet_backup quiet_replay quiet_bootstrap : quiet.
Lemma quiet_restored request result nonce evidence : quiet (check_restored store recovery request result nonce evidence).
Proof. unfold check_restored. quieting. Qed.
Lemma quiet_closure request result nonce : quiet (check_closure store request result nonce).
Proof. unfold check_closure. quieting. Qed.
#[local] Hint Resolve quiet_restored quiet_closure : quiet.
Lemma quiet_evidence value request nonce kind evidence :
  quiet (_validate_evidence store recovery value request nonce kind evidence).
Proof. unfold _validate_evidence. quieting. Qed.
#[local] Hint Resolve quiet_evidence : quiet.

Lemma quiet_revalidate request nonce all kc : quiet (revalidate store recovery request nonce all kc).
Proof. unfold revalidate. quieting. Qed.
Lemma quiet_reservation request d nonce : quiet (check_reservation store request d nonce).
Proof. unfold check_reservation. quieting. Qed.
Lemma quiet_check_receipt value request d nonce gate : quiet (check_receipt store value request d nonce gate).
Proof. unfold check_receipt. quieting. Qed.
Lemma quiet_check_predecessor again request :
  (∀ raw before nonce, quiet (again raw before nonce)) → quiet (check_predecessor store again request).
Proof. intros Hq. unfold check_predecessor. quieting. Qed.
#[local] Hint Resolve quiet_revalidate quiet_reservation quiet_check_receipt : quiet.
Lemma quiet_any verify raw request nonce gate :
  (∀ raw request nonce gate, quiet (verify raw request nonce gate)) → quiet (any_receipt verify raw request nonce gate).
Proof. intros Hq. unfold any_receipt. quieting. Qed.
Lemma quiet_receipt fuel raw request nonce gate : quiet (verify_receipt store recovery fuel raw request nonce gate).
Proof.
  revert raw request nonce gate. induction fuel as [|fuel IH]; intros raw request nonce gate; simpl; [apply quiet_throw|].
  quieting. apply quiet_check_predecessor. intros. by apply quiet_any.
Qed.
Lemma quiet_predecessor fuel request : quiet (verify_predecessor store recovery fuel request).
Proof.
  destruct fuel as [|fuel]; simpl; [apply quiet_throw|]. apply quiet_check_predecessor. intros. apply quiet_any.
  apply quiet_receipt.
Qed.
#[local] Hint Resolve quiet_receipt quiet_predecessor : quiet.
Lemma quiet_prefix request a nonce evidence : quiet (verify_transition_prefix store recovery request a nonce evidence).
Proof. unfold verify_transition_prefix. quieting. Qed.
End verification.
