(* ===== verification/TransitionSteps.v ===== *)
(** * The stages of an attempt, in order

    The rules by which an attempt of [Transition.v] moves on: [Trail] is what the
    host was asked so far, each call backed by the records of the stages before
    it, and [At_] adds the records retained; every piece of the attempt is
    shown to advance from one such place to the next, and to leave a trail
    wherever it fails. *)

From S2P Require Import Prelude PyText PyUuid PyDate PyTime Json JsonReader JsonRound Effects Contracts Catalogue TransitionStore TransitionRequest TransitionAuthorization TransitionEvidence TransitionReceipt Transition TransitionLaws.

#[local] Open Scope Z_scope.

(** ** Records *)

Section records.
Context `{CRY : Crypto} `{FL : Floats} `{UCD : UnicodeDB}.

(** The bytes say that they are the record of a kind, for a request and an attempt. *)
Definition bound (raw : bytes) (request : json) (nonce kind : pystr) : Prop :=
  ∃ value d, read_json raw = Ok value ∧ request_digest request = Ok d ∧ dot value "request_digest" = JStr d ∧
             dot value "host_nonce" = JStr nonce ∧ dot value "kind" = JStr kind.
(** The record a digest names. *)
Definition record_at (s : shelf) (request : json) (nonce kind d : pystr) : Prop :=
  ∃ raw, s !! artifact_name d Evidence = Some raw ∧ raw_digest raw = d ∧ bound raw request nonce kind.
Definition recorded (s : shelf) (request : json) (nonce kind : pystr) : Prop := ∃ d, record_at s request nonce kind d.

Lemma record_grows s s' request nonce kind d : s ⊆ s' → record_at s request nonce kind d → record_at s' request nonce kind d.
Proof. intros Hs (raw & Hr & Hd & Hb). exists raw. split_and!; try done. by eapply lookup_weaken. Qed.
End records.

(** ** The stages *)

(** The record of a call. *)
Definition kind_of (c : call) : string :=
  match c with
  | Inspect _ => "inspection"
  | Maintenance _ _ => "maintenance"
  | FenceAndNegativeReconnect _ _ => "strict-fence-reconnect"
  | StopAndDrainWriters _ _ => "writers-stopped"
  | SourceGenesis _ _ => "source-genesis"
  | CaptureAndRestore _ _ => "recovery-restored"
  | RecheckFenceSource _ _ => "fence-source-rechecked"
  | Migrate _ _ _ _ _ _ _ _ => "migrate"
  | TargetHeads _ _ => "migrated-target-heads"
  | CandidateReady _ _ => "candidate-ready"
  | CloseCandidateAndRefence _ _ => "candidate-removed-fenced"
  | RestoreAcl _ _ => "acl-restored"
  | FullReady _ _ => "full-ready"
  | VerifyPreRouting _ => "pre-routing-verified"
  | RestoreRouting _ _ => "routing-restored"
  | FailClosed _ _ _ => "failure"
  end.

(** The stages after the inspection, in the order of the code. *)
Definition STAGES : list string :=
  ["maintenance"; "strict-fence-reconnect"; "writers-stopped"; "source-genesis"; "recovery-restored";
   "fence-source-rechecked"; "migrate"; "migrated-target-heads"; "candidate-ready"; "candidate-removed-fenced";
   "acl-restored"; "full-ready"; "pre-routing-verified"; "routing-restored"]%string.
(** The stages before the access list is restored. *)
Definition BEFORE_ACL : nat := 10.

(** The records there are before a stage. *)
Definition needed (i : nat) : list string := ["inspection"; "authorization"]%string ++ take i STAGES.

Section calls_.
Context `{CRY : Crypto} `{FL : Floats} `{UCD : UnicodeDB}.

(** A call is for the request and the attempt, and what it is given is on the shelf. *)
Definition addressed (s : shelf) (request : json) (nonce : pystr) (c : call) : Prop :=
  match c with
  | Inspect r => r = request
  | Maintenance r n | FenceAndNegativeReconnect r n | StopAndDrainWriters r n | SourceGenesis r n
  | CaptureAndRestore r n | RecheckFenceSource r n | TargetHeads r n | CandidateReady r n
  | CloseCandidateAndRefence r n | RestoreAcl r n | FullReady r n | RestoreRouting r n | FailClosed r n _ =>
      r = request ∧ n = nonce
  | Migrate r n a reservation genesis restored fence _ =>
      r = request ∧ n = nonce ∧ verify_authorization request a = Ok tt ∧ request_digest request = Ok reservation ∧
      record_at s request nonce (lit "source-genesis") genesis ∧
      record_at s request nonce (lit "recovery-restored") restored ∧
      record_at s request nonce (lit "fence-source-rechecked") fence
  | VerifyPreRouting raw => s !! artifact_name (raw_digest raw) Receipt = Some raw
  end.

(** The calls follow the stages; each was made when the records of all stages
    before it were on the shelf. *)
Definition in_order (request : json) (nonce : pystr) (tr : list (call * shelf)) : Prop :=
  ∀ i c s, tr !! i = Some (c, s) →
    STAGES !! i = Some (kind_of c) ∧ addressed s request nonce c ∧
    Forall (λ k, recorded s request nonce (lit k)) (needed i).

Lemma in_order_nil request nonce : in_order request nonce [].
Proof. intros i c s H. by rewrite lookup_nil in H. Qed.
Lemma in_order_snoc request nonce tr c s :
  in_order request nonce tr → STAGES !! length tr = Some (kind_of c) → addressed s request nonce c →
  Forall (λ k, recorded s request nonce (lit k)) (needed (length tr)) → in_order request nonce (tr ++ [(c, s)]).
Proof.
  intros Ht Hk Ha Hn i c' s' H. apply lookup_app_Some in H as [H|[Hi H]]; [by apply Ht|].
  apply list_lookup_singleton_Some in H as [H0 [= <- <-]]. replace i with (length tr) by lia. done.
Qed.
Lemma in_order_length request nonce tr : in_order request nonce tr → (length tr ≤ length STAGES)%nat.
Proof.
  intros Ht. destruct tr as [|x tr] using rev_ind; [simpl; lia|]. destruct x as [c s].
  destruct (Ht (length tr) c s) as [H _]; [by apply list_lookup_middle|].
  apply lookup_lt_Some in H. rewrite length_app. simpl length at 2. lia.
Qed.
End calls_.

(** ** Places of an attempt *)

Section places.
Context `{LAW : Lawful} `{CRY : Crypto} `{FL : Floats} `{FV : FloatValues} `{UCD : UnicodeDB} `{PRS : Parsers}.
Context (recovery : RecoveryContexts).
Context (owners_quiet : Forall (λ c, ∀ r, quiet (verify_backup c.2.1 r)) recovery).
Context (request : json) (nonce : pystr).
(** The state when the attempt began. *)
Context (start : world).
#[local] Abbreviation block := (Effects.proc (world * attempt) exn).

(** What the attempt has noted is on the shelf. *)
Definition booked (w : world) (l : attempt) : Prop :=
  ∀ k d, dict_get (evidence l) k = Some d → k ≠ lit "pre-routing-receipt" → record_at (artifacts w) request nonce k d.
Definition noted (k : string) (l : attempt) : Prop := is_Some (dict_get (evidence l) (lit k)).

(** [i] stages were called, in order; [b] tells whether the access list may
    have been restored. *)
Definition Trail (i : nat) (b : bool) (s : world * attempt) : Prop :=
  ∃ tr, calls s.1 = calls start ++ tr ∧ length tr = i ∧ in_order request nonce tr ∧
        artifacts start ⊆ artifacts s.1 ∧ booked s.1 s.2 ∧
        acl_may_be_restored s.2 = b ∧ ((BEFORE_ACL < i)%nat → b = true) ∧ (b = true → (BEFORE_ACL ≤ i)%nat).
Definition At_ (ks : list string) (i : nat) (b : bool) (s : world * attempt) : Prop :=
  Trail i b s ∧ Forall (λ k, noted k s.2) ks.

(** [m] leads from one place to another, and leaves a trail wherever it ends. *)
Definition advances {A} (ks : list string) (i : nat) (b : bool) (m : block A) (ks' : list string) (j : nat) (b' : bool) : Prop :=
  ∀ s o s', At_ ks i b s → m s = (o, s') →
  (∀ a, o = Ret a → At_ ks' j b' s') ∧ ∃ k c, Trail k c s'.

Lemma advances_ret {A} (a : A) ks i b : advances ks i b (mret a) ks i b.
Proof. intros s o s' Hs [-> ->]%mret_eq. split; [done|]. destruct Hs as [Hs _]. eauto. Qed.
Lemma advances_bind {A B} ks i b (m : block A) ks1 i1 b1 (f : A → block B) ks2 i2 b2 :
  advances ks i b m ks1 i1 b1 → (∀ a, advances ks1 i1 b1 (f a) ks2 i2 b2) → advances ks i b (m ≫= f) ks2 i2 b2.
Proof.
  intros Hm Hf s o s' Hs. rewrite bind_eq. destruct (m s) as [q v] eqn:H. apply (Hm _ _ _ Hs) in H as [Hr Ht].
  destruct q as [a|e|]; [|by intros [= <- <-]..]. intros H. by eapply Hf; [apply (Hr a)|].
Qed.

(** Growth keeps a place. *)
Lemma trail_grows i b w w' l :
  calls w' = calls w → artifacts w ⊆ artifacts w' → Trail i b (w, l) → Trail i b (w', l).
Proof.
  intros Hc Ha (tr & H1 & H2 & H3 & H4 & H5 & H6). exists tr. simpl in *. rewrite Hc. split_and!; try done.
  - by etrans.
  - intros k d Hk Hn. eapply record_grows; [done|]. by apply H5.
  - apply H6.
  - apply H6.
  - apply H6.
Qed.
Lemma advances_lift {A} ks i b (m : proc world exn A) : grows m → advances ks i b (lift m) ks i b.
Proof.
  intros Hm [w l] o s' [Ht Hk]. unfold lift. simpl. destruct (m w) as [q w'] eqn:H. intros [= <- <-].
  apply Hm in H as [Hc Ha]. assert (Trail i b (w', l)) by by eapply trail_grows. split; [by split|eauto].
Qed.
Lemma advances_purely {A} ks i b (m : res A) : advances ks i b (lift (purely m)) ks i b.
Proof. apply advances_lift, grows_quiet, quiet_purely. Qed.
Lemma advances_current ks i b : advances ks i b current ks i b.
Proof. intros s o s' Hs [= <- <-]. split; [done|]. destruct Hs. eauto. Qed.
Lemma advances_read ks i b d k : advances ks i b (lift (read store d k)) ks i b.
Proof. apply advances_lift, grows_quiet, quiet_read. Qed.

(** With the variables known. *)
Definition from {A} (l : attempt) (ks : list string) (i : nat) (b : bool) (m : block A)
    (ks' : list string) (j : nat) (b' : bool) : Prop :=
  ∀ w o s', At_ ks i b (w, l) → m (w, l) = (o, s') →
  (∀ a, o = Ret a → At_ ks' j b' s') ∧ ∃ k c, Trail k c s'.

Lemma advances_from {A} ks i b (m : block A) ks' j b' : (∀ l, from l ks i b m ks' j b') → advances ks i b m ks' j b'.
Proof. intros Hm [w l] o s' Hs H. by eapply Hm. Qed.
Lemma from_advances {A} l ks i b (m : block A) ks' j b' : advances ks i b m ks' j b' → from l ks i b m ks' j b'.
Proof. intros Hm w o s' Hs H. by eapply Hm. Qed.
Lemma advances_at_current {B} ks i b (f : attempt → block B) ks' j b' :
  (∀ l, Forall (λ k, noted k l) ks → from l ks i b (f l) ks' j b') → advances ks i b (current ≫= f) ks' j b'.
Proof.
  intros Hf [w l] o s' Hs. rewrite bind_eq. simpl. intros H. eapply (Hf l); [by destruct Hs|done..].
Qed.
Lemma from_lift {A B} l ks i b (m : proc world exn A) (f : A → block B) ks' j b' :
  grows m → (∀ a w w', m w = (Ret a, w') → from l ks i b (f a) ks' j b') → from l ks i b (lift m ≫= f) ks' j b'.
Proof.
  intros Hm Hf w o s' Hs. rewrite bind_eq. unfold lift. simpl. destruct (m w) as [q w'] eqn:H.
  pose proof (Hm _ _ _ H) as [Hc Ha]. destruct Hs as [Ht Hk]. assert (Trail i b (w', l)) by by eapply trail_grows.
  destruct q as [a|e|]; [|intros [= <- <-]; split; [done|eauto]..].
  intros H'. eapply Hf; [done| |done]. by split.
Qed.
Lemma from_purely {A B} l ks i b (m : res A) (f : A → block B) ks' j b' :
  (∀ a, m = Ok a → from l ks i b (f a) ks' j b') → from l ks i b (lift (purely m) ≫= f) ks' j b'.
Proof.
  intros Hf. apply from_lift; [apply grows_quiet, quiet_purely|]. intros a w w' [H _]%purely_Ret. by apply Hf.
Qed.

Lemma from_bind {A B} l ks i b (m : block A) ks1 i1 b1 (f : A → block B) ks2 i2 b2 :
  from l ks i b m ks1 i1 b1 → (∀ a, advances ks1 i1 b1 (f a) ks2 i2 b2) → from l ks i b (m ≫= f) ks2 i2 b2.
Proof.
  intros Hm Hf w o s' Hs. rewrite bind_eq. destruct (m (w, l)) as [q v] eqn:H. apply (Hm _ _ _ Hs) in H as [Hr Ht].
  destruct q as [a|e|]; [|by intros [= <- <-]..]. intros H. by eapply Hf; [apply (Hr a)|].
Qed.

(** A record is retained. *)
Lemma evidence_bound value kind all w u w' :
  _validate_evidence store recovery value request nonce kind all w = (Ret u, w') →
  ∃ d, request_digest request = Ok d ∧ dot value "request_digest" = JStr d ∧
       dot value "host_nonce" = JStr nonce ∧ dot value "kind" = JStr kind.
Proof.
  unfold _validate_evidence. intros H. apply bind_Ret in H as (? & w1 & [_ ->]%demands_Ret & H).
  apply bind_Ret in H as (? & w2 & [_ ->]%demands_Ret & H). apply bind_Ret in H as (d & w3 & [Hd ->]%purely_Ret & H).
  apply bind_Ret in H as (? & w4 & [H1 ->]%demands_Ret & H). apply bind_Ret in H as (? & w5 & [H2 ->]%demands_Ret & _).
  bool_hyps. by exists d.
Qed.
Lemma from_current {B} l ks i b (f : attempt → block B) ks' j b' :
  from l ks i b (f l) ks' j b' → from l ks i b (current ≫= f) ks' j b'.
Proof. intros Hf w o s' Hs. rewrite bind_eq. simpl. intros H. by eapply Hf. Qed.

(** A note of what is on the shelf. *)
Lemma noted_set k k' d l :
  noted k l → noted k {| evidence := dict_set (evidence l) k' d; acl_may_be_restored := acl_may_be_restored l |}.
Proof. unfold noted. cbn [evidence]. rewrite dict_get_set. case_bool_decide; [by eexists|done]. Qed.
Lemma trail_keep i b w l kind d :
  (lit kind ≠ lit "pre-routing-receipt" → record_at (artifacts w) request nonce (lit kind) d) → Trail i b (w, l) →
  Trail i b (w, {| evidence := dict_set (evidence l) (lit kind) d; acl_may_be_restored := acl_may_be_restored l |}).
Proof.
  intros Hr (tr & H1 & H2 & H3 & H4 & H5 & H6). exists tr. split_and!; try done; try apply H6.
  intros k d' Hk Hn. cbn [evidence fst snd] in Hk. rewrite dict_get_set in Hk. case_bool_decide; [|by apply H5].
  subst k. injection Hk as <-. by apply Hr.
Qed.
Lemma at_keep ks i b w l kind d :
  (lit kind ≠ lit "pre-routing-receipt" → record_at (artifacts w) request nonce (lit kind) d) → At_ ks i b (w, l) →
  At_ (ks ++ [kind]) i b (w, {| evidence := dict_set (evidence l) (lit kind) d; acl_may_be_restored := acl_may_be_restored l |}).
Proof.
  intros Hr [Ht Hk]. split; [by apply trail_keep|]. apply Forall_app. split.
  - eapply Forall_impl; [done|]. intros k. apply noted_set.
  - constructor; [|done]. unfold noted. cbn [snd evidence]. rewrite dict_get_set, bool_decide_eq_true_2 by done. by eexists.
Qed.

Lemma put_keep_advances kind raw ks i b :
  bound raw request nonce (lit kind) →
  advances ks i b (checksum ← lift (put store raw Evidence); keep (lit kind) checksum;; mret checksum) (ks ++ [kind]) i b.
Proof.
  intros Hb [w l] o s' [Ht Hk]. rewrite bind_eq. unfold lift. cbn [fst snd].
  destruct (put store raw Evidence w) as [q w'] eqn:H. pose proof (grows_put _ _ _ _ _ H) as [Hc Ha].
  assert (Ht' : Trail i b (w', l)) by by eapply trail_grows.
  destruct q as [c|e|]; [|intros [= <- <-]; split; [done|eauto]..].
  apply put_Ret in H as [-> Hr]. intros [= <- <-].
  assert (At_ (ks ++ [kind]) i b (w', {| evidence := dict_set (evidence l) (lit kind) (raw_digest raw);
                                          acl_may_be_restored := acl_may_be_restored l |})).
  { apply at_keep; [|by split]. intros _. by exists raw. }
  split; [done|]. destruct H. eauto.
Qed.

Lemma retain_advances kind raw ks i b :
  advances ks i b (retain store recovery request nonce (lit kind) raw) (ks ++ [kind]) i b.
Proof.
  apply advances_from. intros l. unfold retain. apply from_purely. intros value Hv. apply from_current.
  apply from_lift; [by apply grows_quiet, quiet_evidence|]. intros u w w' (d & Hd & H1 & H2 & H3)%evidence_bound.
  apply from_advances, put_keep_advances. by exists value, d.
Qed.

(** A stage of the host: the call, and its record. *)
Lemma needed_ordinary i : Forall (λ k, lit k ≠ lit "pre-routing-receipt") (needed i).
Proof.
  unfold needed. apply Forall_app. split; [repeat constructor; vm_compute; discriminate|]. apply Forall_take.
  repeat constructor; vm_compute; discriminate.
Qed.
Lemma needed_next i k : STAGES !! i = Some k → needed (S i) = needed i ++ [k].
Proof. intros H. unfold needed. by rewrite (take_S_r _ _ _ H), app_assoc. Qed.

(** What a piece leaves when it started at [s]. *)
Definition leads {A} (m : block A) (s : world * attempt) (ks : list string) (j : nat) (b : bool) : Prop :=
  ∀ o s', m s = (o, s') → (∀ a, o = Ret a → At_ ks j b s') ∧ ∃ k c, Trail k c s'.
Lemma act_leads c w l i b :
  At_ (needed i) i b (w, l) → STAGES !! i = Some (kind_of c) → ((BEFORE_ACL < S i)%nat → b = true) →
  addressed (artifacts w) request nonce c → leads (lift (act c)) (w, l) (needed i) (S i) b.
Proof.
  intros [Ht Hl] Hc Hb Ha o s'. unfold lift. cbn [fst snd]. destruct (act c w) as [q w'] eqn:H. intros [= <- <-].
  apply act_traced in H as [Hs Hcalls].
  assert (Trail (S i) b (w', l)).
  { destruct Ht as (tr & H1 & H2 & H3 & H4 & H5 & H6 & H7 & H8). exists (tr ++ [(c, artifacts w)]).
    cbn [fst snd] in *. rewrite Hcalls, H1, <- app_assoc. split_and!; try done.
    - rewrite length_app. simpl. lia.
    - subst i. apply in_order_snoc; [done..|].
      eapply Forall_impl; [apply Forall_and; split; [exact Hl|apply (needed_ordinary (length tr))]|].
      intros k [[d Hd] Hn]. exists d. by apply H5.
    - by etrans.
    - intros k d Hd Hn. eapply record_grows; [done|]. by apply H5.
    - intros Hb'. specialize (H8 Hb'). lia. }
  split; [by split|eauto].
Qed.
Lemma stage_leads c w l i b :
  At_ (needed i) i b (w, l) → STAGES !! i = Some (kind_of c) → ((BEFORE_ACL < S i)%nat → b = true) →
  addressed (artifacts w) request nonce c →
  leads (stage store recovery request nonce (kind_of c) c) (w, l) (needed (S i)) (S i) b.
Proof.
  intros Hs Hc Hb Ha o s'. rewrite (needed_next _ _ Hc). unfold stage. rewrite bind_eq.
  destruct (lift (act c) (w, l)) as [q v] eqn:H. eapply act_leads in H as [Hr Ht]; [|done..].
  destruct q as [raw|e|]; [|by intros [= <- <-]..]. intros H. by eapply retain_advances; [apply (Hr raw)|].
Qed.
Lemma from_stage c l i b :
  STAGES !! i = Some (kind_of c) → ((BEFORE_ACL < S i)%nat → b = true) →
  (∀ w, booked w l → addressed (artifacts w) request nonce c) →
  from l (needed i) i b (stage store recovery request nonce (kind_of c) c) (needed (S i)) (S i) b.
Proof.
  intros Hc Hb Ha w o s' Hs. apply stage_leads; [done..|]. apply Ha. destruct Hs as [(tr & ? & ? & ? & ? & Hbk & _) _].
  exact Hbk.
Qed.
Lemma stage_advances c i b :
  STAGES !! i = Some (kind_of c) → ((BEFORE_ACL < S i)%nat → b = true) →
  (∀ s, addressed s request nonce c) →
  advances (needed i) i b (stage store recovery request nonce (kind_of c) c) (needed (S i)) (S i) b.
Proof. intros Hc Hb Ha. apply advances_from. intros l. apply from_stage; [done..|]. intros. apply Ha. Qed.

(** ** The pieces of the attempt *)

Lemma local_advances kind result ks i b : advances ks i b (local_record request nonce kind result) ks i b.
Proof. eapply advances_bind; [apply advances_purely|intros d]. apply advances_purely. Qed.
Lemma put_advances raw k ks i b : advances ks i b (lift (put store raw k)) ks i b.
Proof. apply advances_lift, grows_put. Qed.

(** A receipt changes no variable, and what it returns is on the shelf and was verified. *)
Lemma receipt_advances complete gate ks i b :
  advances ks i b (receipt store recovery request nonce complete gate) ks i b.
Proof.
  eapply advances_bind; [apply advances_current|intros l]. cbv zeta. eapply advances_bind.
  { destruct (is_null _); [|apply advances_ret]. eapply advances_bind; [apply advances_purely|intros]. apply advances_ret. }
  intros genesis. do 2 (eapply advances_bind; [apply advances_purely|intros]).
  eapply advances_bind; [by apply advances_lift, grows_quiet, quiet_receipt|intros _].
  eapply advances_bind; [apply put_advances|intros]. apply advances_read.
Qed.
Lemma lift_Ret {A} (m : proc world exn A) s a s' : lift m s = (Ret a, s') ↔ m s.1 = (Ret a, s'.1) ∧ s'.2 = s.2.
Proof. unfold lift. destruct (m s.1) as [q w'], s'. simpl. naive_solver. Qed.

(** The document of a receipt. *)
Definition receipt_document (complete : bool) (l : attempt) (genesis : json) (d : pystr) : json := JObj
  [(lit "schema", JStr (lit RECEIPT_SCHEMA)); (lit "request", request); (lit "request_digest", JStr d);
   (lit "host_nonce", JStr nonce); (lit "phase", JStr (lit (if complete then "complete" else "pre-routing")));
   (lit "genesis_digest", genesis); (lit "previous_receipt_digest", dot request "previous_receipt_digest");
   (lit "evidence", JObj ((λ kc, (kc.1, JStr kc.2)) <$> evidence l))].
Definition verified_receipt (s : shelf) (raw : bytes) (gate : bool) : Prop :=
  ∃ u v u', verify_receipt store recovery MAX_CHAIN raw request nonce gate u = (Ret v, u') ∧ artifacts u ⊆ s.
Lemma receipt_Ret complete gate s raw s' :
  receipt store recovery request nonce complete gate s = (Ret raw, s') →
  s'.2 = s.2 ∧ artifacts s'.1 !! artifact_name (raw_digest raw) Receipt = Some raw ∧
  (∃ genesis d, request_digest request = Ok d ∧ canonical_json (receipt_document complete s.2 genesis d) = Ok raw) ∧
  verified_receipt (artifacts s'.1) raw gate.
Proof.
  unfold receipt. intros H. apply bind_Ret in H as (l & s1 & [= <- <-] & H). cbv zeta in H.
  apply bind_Ret in H as (g & s2 & H2 & H).
  assert (E2 : s2.2 = s.2).
  { destruct (is_null _); [|by apply mret_eq in H2 as [_ ->]]. apply bind_Ret in H2 as (d & s3 & [_ E]%lift_Ret & H2).
    by apply mret_eq in H2 as [_ ->]. }
  apply bind_Ret in H as (d & s3 & [[Hd E3]%purely_Ret E3']%lift_Ret & H).
  apply bind_Ret in H as (raw0 & s4 & [[Hraw E4]%purely_Ret E4']%lift_Ret & H).
  apply bind_Ret in H as (v & s5 & [Hv E5]%lift_Ret & H).
  apply bind_Ret in H as (c & s6 & [Hp E6]%lift_Ret & H). apply lift_Ret in H as [(Hr & _ & _ & Ha & _)%read_Ret E7].
  pose proof (grows_put _ _ _ _ _ Hp) as [_ Hgrow]. apply put_Ret in Hp as [-> Hp]. rewrite Hp in Hr. injection Hr as <-.
  rewrite Ha. split_and!; [by rewrite E7, E6, E5, E4', E3'|done|by exists g, d; split|]. exists s4.1, v, s5.1. split; [done|].
  destruct (quiet_out _ _ _ _ (quiet_receipt recovery owners_quiet _ _ _ _ _) Hv) as [<- _]. done.
Qed.

Ltac staged c :=
  apply (stage_advances c); [done|unfold BEFORE_ACL; first [done|lia]|by intros; split].
Lemma migrate_stages_advances a inspection :
  advances [] 0 false (migrate_stages store recovery request nonce a inspection) (needed 8) 8 false.
Proof.
  unfold migrate_stages. eapply advances_bind; [apply advances_purely|intros facts].
  eapply advances_bind; [apply local_advances|intros raw]. eapply advances_bind; [apply (retain_advances "inspection")|intros _].
  eapply advances_bind; [apply put_advances|intros auth]. eapply advances_bind; [apply local_advances|intros raw'].
  eapply advances_bind; [apply (retain_advances "authorization")|intros _]. change (([] ++ _) ++ _) with (needed 0).
  eapply advances_bind; [staged (Maintenance request nonce)|intros _].
  eapply advances_bind; [staged (FenceAndNegativeReconnect request nonce)|intros _].
  eapply advances_bind; [staged (StopAndDrainWriters request nonce)|intros _].
  eapply advances_bind; [staged (SourceGenesis request nonce)|intros _].
  eapply advances_bind; [staged (CaptureAndRestore request nonce)|intros _].
  eapply advances_bind; [staged (RecheckFenceSource request nonce)|intros _].
  apply advances_at_current. intros l _.
  apply from_lift; [by apply grows_quiet, quiet_prefix|intros u w w' Hprefix].
  apply bind_Ret in Hprefix as ([] & w1 & [Hauth _]%purely_Ret & _).
  apply from_purely. intros d Hd. apply from_purely. intros genesis Hgenesis%of_option_Ok.
  apply from_purely. intros restored Hrestored%of_option_Ok. apply from_purely. intros fence Hfence%of_option_Ok.
  eapply from_bind; [apply (from_stage (Migrate request nonce a d genesis restored fence (evidence l)))|intros _].
  - done.
  - unfold BEFORE_ACL. lia.
  - intros v Hb. split_and!; try done; (apply Hb; [done|vm_compute; discriminate]).
  - eapply advances_bind; [staged (TargetHeads request nonce)|intros _; apply advances_ret].
Qed.

Lemma mark_advances i ks : (BEFORE_ACL ≤ i)%nat → advances ks i false mark_acl ks i true.
Proof.
  intros Hi [w l] o s' [(tr & H1 & H2 & H3 & H4 & H5 & H6 & H7 & H8) Hk] [= <- <-].
  assert (Trail i true (w, {| evidence := evidence l; acl_may_be_restored := true |})) by by exists tr.
  split; [intros _ _; by split|eauto].
Qed.
Lemma forget_advances i ks b :
  Forall (λ k, lit k ≠ lit "pre-routing-receipt") ks → advances ks i b (forget (lit "pre-routing-receipt")) ks i b.
Proof.
  intros Hks [w l] o s' [(tr & H1 & H2 & H3 & H4 & H5 & H6) Hk] [= <- <-].
  set (l' := {| evidence := _; acl_may_be_restored := _ |}).
  assert (Trail i b (w, l')).
  { exists tr. split_and!; try done; try apply H6. intros k d Hd Hn. apply H5; [|done].
    cbn [evidence snd l'] in Hd. rewrite dict_get_filter in Hd. by case_bool_decide. }
  split; [intros _ _; split; [done|]|eauto].
  eapply Forall_impl; [apply Forall_and; split; [exact Hk|exact Hks]|]. intros k [Hn Hne]. unfold noted in *.
  cbn [evidence snd l']. by rewrite dict_get_filter, bool_decide_eq_false_2.
Qed.

(** With any claim about the result. *)
Definition attempts {A} (P : world * attempt → Prop) (m : block A) (Q : A → world * attempt → Prop) : Prop :=
  ∀ s o s', P s → m s = (o, s') → (∀ a, o = Ret a → Q a s') ∧ ∃ k c, Trail k c s'.
Lemma attempts_step {A B} ks i b (m : block A) ks1 i1 b1 (f : A → block B) Q :
  advances ks i b m ks1 i1 b1 → (∀ a, attempts (At_ ks1 i1 b1) (f a) Q) → attempts (At_ ks i b) (m ≫= f) Q.
Proof.
  intros Hm Hf s o s' Hs. rewrite bind_eq. destruct (m s) as [q v] eqn:H. apply (Hm _ _ _ Hs) in H as [Hr Ht].
  destruct q as [a|e|]; [|by intros [= <- <-]..]. intros H. by eapply Hf; [apply (Hr a)|].
Qed.

(** The receipt that is verified before routing is on the shelf when it is. *)
Lemma pre_routing_attempts {B} (rest : block B) Q :
  attempts (At_ (needed 13) 13 true) rest Q →
  attempts (At_ (needed 12) 12 true)
    (pre_routing ← receipt store recovery request nonce false true;
     keep (lit "pre-routing-receipt") (raw_digest pre_routing);;
     stage store recovery request nonce "pre-routing-verified" (VerifyPreRouting pre_routing);; rest) Q.
Proof.
  intros Hrest s o s' Hs. rewrite bind_eq. destruct (receipt _ _ _ _ _ _ s) as [q v] eqn:H.
  pose proof (receipt_advances _ _ _ _ _ _ _ _ Hs H) as [Hr Ht]. destruct q as [raw|e|]; [|by intros [= <- <-]..].
  specialize (Hr raw eq_refl). apply receipt_Ret in H as (_ & Hon & _). destruct v as [w l]. rewrite bind_eq.
  cbn [keep fst snd]. rewrite bind_eq. destruct (stage _ _ _ _ _ _ _) as [q v] eqn:H.
  eapply (stage_leads (VerifyPreRouting raw) _ _ 12 true) in H as [Hr' Ht']; [|split|done..].
  - destruct q as [d|e|]; [|by intros [= <- <-]..]. by apply Hrest, (Hr' d).
  - apply trail_keep; [done|]. apply Hr.
  - destruct (at_keep _ _ _ _ _ "pre-routing-receipt" (raw_digest raw) (λ H, match H eq_refl with end) Hr) as [_ Hk'].
    by apply Forall_app in Hk' as [Hk' _].
Qed.

(** A transition is complete: every record is there, and the returned digest
    names a verified receipt of them. *)
Definition completed (d : pystr) (s : world * attempt) : Prop :=
  At_ (needed 14) 14 true s ∧
  ∃ raw genesis r, d = raw_digest raw ∧ artifacts s.1 !! artifact_name d Receipt = Some raw ∧
    request_digest request = Ok r ∧ canonical_json (receipt_document true s.2 genesis r) = Ok raw ∧
    verified_receipt (artifacts s.1) raw true.
Lemma suffix_attempts :
  attempts (At_ (needed 8) 8 false) (_execute_common_suffix store recovery request nonce) completed.
Proof.
  unfold _execute_common_suffix. eapply attempts_step; [staged (CandidateReady request nonce)|intros _].
  eapply attempts_step; [staged (CloseCandidateAndRefence request nonce)|intros _].
  eapply attempts_step; [apply receipt_advances|intros _].
  eapply attempts_step; [apply mark_advances; unfold BEFORE_ACL; lia|intros _].
  eapply attempts_step; [staged (RestoreAcl request nonce)|intros _].
  eapply attempts_step; [staged (FullReady request nonce)|intros _]. apply pre_routing_attempts.
  eapply attempts_step; [apply forget_advances, needed_ordinary|intros _].
  eapply attempts_step; [apply advances_current|intros l].
  eapply attempts_step; [apply advances_purely|intros d]. eapply attempts_step; [apply advances_read|intros _].
  eapply attempts_step; [staged (RestoreRouting request nonce)|intros _].
  intros s o s' Hs. rewrite bind_eq. destruct (receipt _ _ _ _ _ _ s) as [q v] eqn:H.
  pose proof (receipt_advances _ _ _ _ _ _ _ _ Hs H) as [Hr Ht]. destruct q as [raw|e|]; [|by intros [= <- <-]..].
  intros [= <- <-]. split; [|done]. intros a [= <-]. split; [by apply (Hr raw)|].
  apply receipt_Ret in H as (E & Hon & (g & r & Hd & Hc) & Hv). exists raw, g, r. rewrite E. by split_and!.
Qed.

Lemma body_attempts a inspection :
  attempts (At_ [] 0 false) (migrate_stages store recovery request nonce a inspection;;
                             _execute_common_suffix store recovery request nonce) completed.
Proof. eapply attempts_step; [apply migrate_stages_advances|intros _; apply suffix_attempts]. Qed.
End places.
