(* ===== verification/TransitionSafety.v ===== *)
(** * What a run of a transition does

    The properties of [execute_transition]: the host is asked for the stages in
    the code's order, each backed by the retained records of all before it, and
    to fail closed exactly when a reserved attempt fails; a returned digest names
    a verified receipt of every stage; a request is attempted once; and a
    verified receipt heads an intact chain. *)

From S2P Require Import Prelude PyText PyUuid PyDate PyTime Json JsonReader JsonRound Effects Contracts Catalogue TransitionStore TransitionRequest TransitionAuthorization TransitionEvidence TransitionReceipt Transition TransitionLaws TransitionSteps.

#[local] Open Scope Z_scope.

Section runs.
Context `{LAW : Lawful} `{CRY : Crypto} `{FL : Floats} `{FV : FloatValues} `{UCD : UnicodeDB} `{PRS : Parsers}.

(** ** Blocks that make no call *)

Definition calm {A} (m : Effects.proc (world * attempt) exn A) : Prop :=
  ∀ s o s', m s = (o, s') → calls s'.1 = calls s.1 ∧ artifacts s.1 ⊆ artifacts s'.1.
Lemma calm_bind {A B} (m : Effects.proc (world * attempt) exn A) (f : A → Effects.proc (world * attempt) exn B) :
  calm m → (∀ a, calm (f a)) → calm (m ≫= f).
Proof.
  intros Hm Hf s o s'. rewrite bind_eq. destruct (m s) as [q v] eqn:H. apply Hm in H as [Hc Ha].
  destruct q as [a|e|]; [|by intros [= <- <-]..]. intros [Hc' Ha']%Hf. split; [congruence|by etrans].
Qed.
Lemma calm_lift {A} (m : proc world exn A) : grows m → calm (lift m).
Proof.
  intros Hm [w l] o s'. unfold lift. cbn [fst snd]. destruct (m w) as [q v] eqn:H. intros [= <- <-]. by apply Hm in H.
Qed.
Lemma calm_current : calm current.
Proof. by intros s o s' [= <- <-]. Qed.
Lemma calm_keep k d : calm (keep k d).
Proof. by intros s o s' [= <- <-]. Qed.
Lemma calm_ret {A} (a : A) : calm (mret a).
Proof. by intros s o s' [= <- <-]. Qed.

(** ** An attempt *)

(** After the stages that were called the host was asked to fail closed, and
    told whether the access list may have been restored. *)
Definition closed_after (request : json) (nonce : pystr) (stages closing : list (call * shelf)) : Prop :=
  ∃ b s, closing = [(FailClosed request nonce b, s)] ∧
    ((BEFORE_ACL < length stages)%nat → b = true) ∧ (b = true → (BEFORE_ACL ≤ length stages)%nat).
(** The calls of an attempt that ended with [o]. *)
Definition attempt_calls {A} (request : json) (nonce : pystr) (o : outcome exn A) (tr : list (call * shelf)) : Prop :=
  ∃ stages closing, tr = stages ++ closing ∧ in_order request nonce stages ∧
    match o with
    | Ret _ => closing = [] ∧ length stages = length STAGES
    | Throw _ => closed_after request nonce stages closing
    | Diverge => closing = [] ∨ closed_after request nonce stages closing
    end.

Context (recovery : RecoveryContexts).
Context (owners_quiet : Forall (λ c, ∀ r, quiet (verify_backup c.2.1 r)) recovery).

Lemma calm_retain request nonce kind raw : calm (retain store recovery request nonce kind raw).
Proof.
  unfold retain. apply calm_bind; [apply calm_lift, grows_quiet, quiet_purely|intros value].
  apply calm_bind; [apply calm_current|intros l]. apply calm_bind; [by apply calm_lift, grows_quiet, quiet_evidence|intros _].
  apply calm_bind; [apply calm_lift, grows_put|intros c]. apply calm_bind; [apply calm_keep|intros _; apply calm_ret].
Qed.

(** The end of a failed attempt. *)
Definition fail_closed (request : json) (nonce : pystr) : Effects.proc (world * attempt) exn unit :=
  try_except
    (l ← current;
     failure ← lift (act (FailClosed request nonce (acl_may_be_restored l)));
     retain store recovery request nonce (lit "failure") failure;;
     mret tt)
    (λ _, mret tt).
Lemma fail_closed_out request nonce s o s' :
  fail_closed request nonce s = (o, s') →
  calls s'.1 = calls s.1 ++ [(FailClosed request nonce (acl_may_be_restored s.2), artifacts s.1)] ∧
  artifacts s.1 ⊆ artifacts s'.1 ∧ (o = Ret tt ∨ o = Diverge).
Proof.
  unfold fail_closed, try_except. rewrite bind_eq. unfold current at 1. rewrite bind_eq. unfold lift at 1.
  destruct (act _ s.1) as [q w] eqn:H. apply act_traced in H as [Ha Hc].
  destruct q as [raw|e|]; [|by intros [= <- <-]; auto..].
  rewrite bind_eq. destruct (retain _ _ _ _ _ _ _) as [q v] eqn:H. apply calm_retain in H as [Hc' Ha']. cbn [fst] in *.
  assert (artifacts s.1 ⊆ artifacts v.1) by by etrans.
  destruct q as [c|e|]; intros [= <- <-]; split_and!; auto; congruence.
Qed.

(** What the digest returned by an attempt stands for. *)
Definition sealed (request : json) (nonce d : pystr) (w : world) : Prop :=
  ∃ l, completed recovery request nonce w d (w, l).

Lemma run_attempt_out request nonce a inspection w o w' :
  run_attempt store recovery request nonce a inspection w = (o, w') →
  artifacts w ⊆ artifacts w' ∧ (∃ tr, calls w' = calls w ++ tr ∧ attempt_calls request nonce o tr) ∧
  ∀ d, o = Ret d → ∃ l, completed recovery request nonce w d (w', l).
Proof.
  unfold run_attempt, with_attempt. fold (fail_closed request nonce). unfold try_except at 1.
  destruct ((migrate_stages _ _ _ _ _ _;; _) (w, fresh_attempt)) as [q s] eqn:H.
  assert (Hstart : At_ request nonce w [] 0 false (w, fresh_attempt)).
  { split; [|done]. exists []. rewrite app_nil_r. split_and!; try done. unfold BEFORE_ACL. lia. }
  apply (body_attempts _ owners_quiet _ _ _ _ _ _ _ _ Hstart) in H as [Hr (k & c & tr & H1 & H2 & H3 & H4 & _ & H6 & H7 & H8)].
  destruct q as [d|e|].
  - intros [= <- <-]. specialize (Hr d eq_refl). destruct s as [w1 l]. split_and!; [done| |by intros d' [= <-]; exists l].
    destruct Hr as [[(tr' & E1 & E2 & E3 & _) _] _]. exists tr'. split; [done|]. exists tr', []. by rewrite app_nil_r.
  - rewrite bind_eq. destruct (fail_closed request nonce s) as [q v] eqn:H. apply fail_closed_out in H as (Hc & Ha & Ho).
    assert (Hend : ∃ tr, calls v.1 = calls w ++ tr ∧
      ∃ stages closing, tr = stages ++ closing ∧ in_order request nonce stages ∧ closed_after request nonce stages closing).
    { eexists. rewrite Hc, H1, <- app_assoc. split; [done|]. eexists _, _. split; [done|]. split; [done|].
      eexists _, _. split; [done|]. rewrite H2, H6. done. }
    destruct Hend as (tr' & E1 & stages & closing & E2 & E3 & E4).
    assert (artifacts w ⊆ artifacts v.1) by by etrans.
    destruct Ho as [-> | ->]; intros [= <- <-]; (split_and!; [done| |done]); exists tr'; (split; [done|]);
      exists stages, closing; auto.
  - intros [= <- <-]. split_and!; [done| |done]. exists tr. split; [done|]. exists tr, []. rewrite app_nil_r. auto.
Qed.

(** ** The reservation *)

(** The reservation of a request names its one attempt. *)
Definition reserved_for (w : world) (request : json) (nonce : pystr) : Prop :=
  ∃ d raw verification, request_digest request = Ok d ∧ artifacts w !! artifact_name d Reservation = Some raw ∧
    canonical_json (attempt_document request d nonce verification) = Ok raw.
Definition unreserved (w : world) (request : json) : Prop :=
  ∀ d, request_digest request = Ok d → artifacts w !! artifact_name d Reservation = None.

Lemma grows_reserve request a : grows (reserve store request a).
Proof.
  unfold reserve. do 5 (apply grows_bind; [apply grows_quiet; solve [auto with quiet]|intros]).
  apply grows_bind; [apply grows_create|intros]. apply grows_quiet. quieting.
Qed.
Lemma reserve_Ret request a w nonce w' :
  reserve store request a w = (Ret nonce, w') → unreserved w request ∧ reserved_for w' request nonce.
Proof.
  unfold reserve. intros H. apply bind_Ret in H as (? & w1 & [_ ->]%purely_Ret & H).
  apply bind_Ret in H as (d & w2 & [Hd ->]%purely_Ret & H). apply bind_Ret in H as (n & w3 & Hn & H).
  destruct (quiet_out _ _ _ _ token_quiet Hn) as [En _].
  apply bind_Ret in H as (raw & w4 & [Hraw ->]%purely_Ret & H). apply bind_Ret in H as (name & w5 & [[-> _]%name_Ok ->]%purely_Ret & H).
  apply bind_Ret in H as (? & w6 & Hc & H). apply create_made in Hc as [_ [[_ ?]|(Hnone & _)]]; [done|].
  apply bind_Ret in H as (back & w7 & (Hr & _ & _ & Ha & _)%read_Ret & H).
  apply bind_Ret in H as (? & w8 & [->%bool_decide_eq_true ->]%demands_Ret & H). apply mret_eq in H as [[= ->] ->].
  rewrite En in Hnone. split; [intros d' Hd'; rewrite Hd in Hd'; by injection Hd' as <-|]. eexists d, raw, _. by rewrite Ha.
Qed.
Lemma reserved_grows w w' request nonce : artifacts w ⊆ artifacts w' → reserved_for w request nonce → reserved_for w' request nonce.
Proof. intros Ha (d & raw & v & Hd & Hr & Hc). exists d, raw, v. split_and!; try done. by eapply lookup_weaken. Qed.
Lemma unreserved_shrinks w w' request : artifacts w ⊆ artifacts w' → unreserved w' request → unreserved w request.
Proof. intros Ha Hn d Hd. by eapply lookup_weaken_None; [apply Hn|]. Qed.

(** ** A run *)

Context (policy : CpTransitionTrustPolicy) (raw_request : bytes) (request_path : path) (bundle_path : option path).
#[local] Abbreviation run := (execute_transition store recovery policy raw_request request_path bundle_path).

(** The lock was left as it was taken, or that is what failed. *)
Definition through_lock {A} (q o : outcome exn A) : Prop := o = q ∨ ∃ v, (release v).1 ≠ Ret tt ∧ ∀ a, o ≠ Ret a.

(** What followed the inspection: nothing, or the one attempt of the request. *)
Definition attempted (w : world) (request : json) (q : outcome exn pystr) (w' : world) (rest : list (call * shelf)) : Prop :=
  (rest = [] ∧ ∀ d, q ≠ Ret d) ∨
  ∃ nonce v, artifacts w ⊆ artifacts v ∧ artifacts v ⊆ artifacts w' ∧ unreserved w request ∧ reserved_for w' request nonce ∧
    attempt_calls request nonce q rest ∧ ∀ d, q = Ret d → ∃ l, completed recovery request nonce v d (w', l).
(** The calls of a run: none, the inspection alone, or the inspection and an attempt. *)
Definition run_calls (w : world) (q : outcome exn pystr) (w' : world) (tr : list (call * shelf)) : Prop :=
  (tr = [] ∧ ∀ d, q ≠ Ret d) ∨
  ∃ request now s rest, load_request raw_request (identity policy) now = Ok request ∧
    tr = (Inspect request, s) :: rest ∧ attempted w request q w' rest.
Lemma run_calls_nothing w w' q : (∀ d, q ≠ Ret d) → run_calls w q w' [].
Proof. by left. Qed.

Definition body : proc world exn pystr :=
  now ← clock;
  request ← purely (load_request raw_request (identity policy) now);
  authorization ← verify_attestation policy request request_path bundle_path now;
  verify_predecessor store recovery MAX_CHAIN request;;
  inspection ← act (Inspect request);
  now ← clock;
  purely (validate_request request (identity policy) now);;
  nonce ← reserve store request authorization;
  run_attempt store recovery request nonce authorization inspection.

(** A quiet step before the inspection. *)
Definition run_spec (w0 : world) (m : proc world exn pystr) : Prop :=
  ∀ w o w', artifacts w0 ⊆ artifacts w → calls w = calls w0 → m w = (o, w') →
  artifacts w0 ⊆ artifacts w' ∧ ∃ tr, calls w' = calls w0 ++ tr ∧ run_calls w0 o w' tr.
Lemma spec_quiet {A} w0 (m : proc world exn A) f :
  quiet m → (∀ a u u', m u = (Ret a, u') → run_spec w0 (f a)) → run_spec w0 (m ≫= f).
Proof.
  intros Hm Hf w o w' Ha Hc. rewrite bind_eq. destruct (m w) as [q v] eqn:H. destruct (quiet_out _ _ _ _ Hm H) as [Ea Ec].
  destruct q as [a|e|].
  - intros H'. eapply Hf; [done|by rewrite Ea|congruence|done].
  - intros [= <- <-]. rewrite Ea. split; [done|]. exists []. rewrite app_nil_r. split; [congruence|]. by apply run_calls_nothing.
  - intros [= <- <-]. rewrite Ea. split; [done|]. exists []. rewrite app_nil_r. split; [congruence|]. by apply run_calls_nothing.
Qed.
(** A step between the inspection and the reservation. *)
Definition inspected (w0 : world) (request : json) (m : proc world exn pystr) : Prop :=
  ∀ w o w', artifacts w0 ⊆ artifacts w → m w = (o, w') →
  artifacts w0 ⊆ artifacts w' ∧ ∃ rest, calls w' = calls w ++ rest ∧
  attempted w0 request o w' rest.
Lemma inspected_stopped w0 request (w w' : world) (o : outcome exn pystr) :
  artifacts w0 ⊆ artifacts w → artifacts w ⊆ artifacts w' → calls w' = calls w → (∀ d, o ≠ Ret d) →
  artifacts w0 ⊆ artifacts w' ∧ ∃ rest, calls w' = calls w ++ rest ∧
  attempted w0 request o w' rest.
Proof. intros H0 H1 -> Ho. split; [by etrans|]. exists []. rewrite app_nil_r. split; [done|by left]. Qed.
Lemma inspected_quiet {A} w0 request (m : proc world exn A) f :
  quiet m → (∀ a, inspected w0 request (f a)) → inspected w0 request (m ≫= f).
Proof.
  intros Hm Hf w o w' Ha. rewrite bind_eq. destruct (m w) as [q v] eqn:H. destruct (quiet_out _ _ _ _ Hm H) as [Ea Ec].
  destruct q as [a|e|]; [|by intros [= <- <-]; apply inspected_stopped; rewrite ?Ea..].
  intros H'. apply Hf in H' as (H1 & rest & H2 & H3); [|by rewrite Ea]. split; [done|]. exists rest. by rewrite <- Ec.
Qed.
Lemma inspected_attempt w0 request a inspection :
  inspected w0 request
    (nonce ← reserve store request a; run_attempt store recovery request nonce a inspection).
Proof.
  intros w o w' Ha. rewrite bind_eq. destruct (reserve store request a w) as [q v] eqn:H.
  pose proof (grows_reserve _ _ _ _ _ H) as [Hc Hg].
  destruct q as [nonce|e|]; [|by intros [= <- <-]; apply inspected_stopped..].
  apply reserve_Ret in H as [Hfree Hres]. intros H.
  apply run_attempt_out in H as (Hga & (tr & E & Hshape) & Hdone).
  split; [do 2 (etrans; [eassumption|]); done|]. exists tr. rewrite <- Hc. split; [done|]. right. exists nonce, v.
  split_and!; try done.
  - by etrans.
  - by eapply unreserved_shrinks.
  - by eapply reserved_grows.
Qed.

Lemma body_spec w0 : run_spec w0 body.
Proof.
  unfold body. apply spec_quiet; [apply quiet_clock|intros now u u' _].
  apply spec_quiet; [apply quiet_purely|intros request u1 u1' [Hload _]%purely_Ret].
  apply spec_quiet; [apply quiet_attestation|intros a u2 u2' _].
  apply spec_quiet; [by apply quiet_predecessor|intros _ u3 u3' _].
  intros w o w' Ha Hc. rewrite bind_eq. destruct (act _ w) as [q v] eqn:H. apply act_traced in H as [Hg Hcalls].
  rewrite Hc in Hcalls.
  assert (Hrest : ∀ (o : outcome exn pystr) w' rest, calls w' = calls v ++ rest →
    attempted w0 request o w' rest →
    ∃ tr, calls w' = calls w0 ++ tr ∧ run_calls w0 o w' tr).
  { intros o1 w1 rest Hc1 Hr. exists ((Inspect request, artifacts w) :: rest).
    rewrite Hc1, Hcalls, <- app_assoc. split; [done|]. right. by exists request, now, (artifacts w), rest. }
  assert (Hgv : artifacts w0 ⊆ artifacts v) by by etrans.
  destruct q as [inspection|e|];
    [|by intros [= <- <-]; split; [done|]; apply (Hrest _ _ []); [by rewrite app_nil_r|left]..].
  intros H. eapply (inspected_quiet w0 request) in H as (H1 & rest & H2 & H3); [|apply quiet_clock| |done].
  - split; [done|]. by eapply Hrest.
  - intros now'. apply inspected_quiet; [apply quiet_purely|intros _]. apply inspected_attempt.
Qed.

(** Only the shelf and the calls matter. *)
Lemma run_calls_same w q u w' tr :
  artifacts w' = artifacts u → calls w' = calls u → run_calls w q u tr → run_calls w q w' tr.
Proof.
  intros Ha Hc [H|(request & now & s & rest & H1 & H2 & [H|(nonce & v & G1 & G2 & G3 & G4 & G5 & G6)])]; [by left|right..];
    exists request, now, s, rest; (split_and!; [done..|]); [by left|right]. exists nonce, v.
  split_and!; [done|by rewrite Ha|done|eapply reserved_grows; [|done]; by rewrite Ha|done|].
  intros d Hq. destruct (G6 d Hq) as (l & [[(tr' & T1 & T2 & T3 & T4 & T5 & T6) K] (raw & g & r & R1 & R2 & R3)]).
  exists l. split; [split; [|done]; exists tr'|exists raw, g, r]; cbn [fst snd] in *; rewrite ?Ha, ?Hc; split_and!; try done; try apply T6; try apply R3.
  unfold booked in *. by rewrite Ha.
Qed.

Lemma run_out w o w' :
  run w = (o, w') →
  artifacts w ⊆ artifacts w' ∧ ∃ q tr, calls w' = calls w ++ tr ∧ through_lock q o ∧ run_calls w q w' tr.
Proof.
  unfold execute_transition, with_lock. fold body. rewrite bind_eq. destruct (acquire w) as [q v] eqn:H.
  apply acquire_adds in H as [Ha Hc].
  assert (Hstop : ∀ q : outcome exn pystr, (∀ d, q ≠ Ret d) →
    artifacts w ⊆ artifacts v ∧ ∃ q' tr, calls v = calls w ++ tr ∧ through_lock q' q ∧ run_calls w q' v tr).
  { intros q' Hq. split; [done|]. exists q', []. rewrite app_nil_r. split_and!; [done|by left|by left]. }
  destruct q as [[]|e|]; [|by intros [= <- <-]; apply Hstop..].
  unfold finally. destruct (body v) as [q u] eqn:H. apply (body_spec w) in H as (Hg & tr & Htr & Hrun); [|done..].
  intros Hend.
  assert (Hleft : artifacts w' = artifacts u ∧ calls w' = calls u ∧ through_lock q o).
  { destruct q as [d|e|]; [| |injection Hend as <- <-; split_and!; [done..|by left]];
      (rewrite bind_eq in Hend; destruct (release u) as [q x] eqn:Hrel;
       destruct (quiet_out _ _ _ _ quiet_release Hrel) as [Ea Ec];
       destruct q as [[]|e'|]; injection Hend as <- <-; (split_and!; [done..|]);
       [by left|right; exists u; rewrite Hrel; split; [done|congruence]..]). }
  destruct Hleft as (Ea & Ec & Hl). rewrite Ea, Ec. split; [done|]. exists q, tr. split_and!; [done..|].
  by eapply run_calls_same.
Qed.
End runs.

(** ** Chains of receipts *)

Section chains.
Context `{CRY : Crypto} `{FL : Floats} `{FV : FloatValues} `{UCD : UnicodeDB}.

(** A receipt on its own: it is the receipt of the request and the attempt, the
    request is reserved for that attempt, every stage of its phase has a
    record, and the records are on the shelf and bound to the attempt. *)
Definition genuine (s : shelf) (request : json) (raw : bytes) (nonce : pystr) (value : json) : Prop :=
  let complete := bool_decide (dot value "phase" = JStr (lit "complete")) in
  ∃ d reserved reservation,
    read_json raw = Ok value ∧ request_digest request = Ok d ∧
    s !! artifact_name d Reservation = Some reserved ∧ read_json reserved = Ok reservation ∧
    py_eq reservation (attempt_document request d nonce (dot reservation "verification_digest")) = true ∧
    same_json (dot value "request") request = true ∧ dot value "host_nonce" = JStr nonce ∧
    Forall (λ k, k ∈ (evidence_of value).*1) (required_evidence complete false) ∧
    Forall (λ kc, record_at s request nonce kc.1 kc.2) (evidence_of value).

(** A chain of receipts back to a first transition: each leads to the source of
    the next, on the same host and database. *)
Inductive intact (s : shelf) : nat → json → bytes → pystr → Prop :=
  | intact_first request raw nonce value :
      genuine s request raw nonce value → (∀ c, dot request "previous_receipt_digest" ≠ JStr c) →
      intact s 1 request raw nonce
  | intact_next n request raw nonce value checksum raw' prior :
      genuine s request raw nonce value → dot request "previous_receipt_digest" = JStr checksum →
      s !! artifact_name checksum Receipt = Some raw' → raw_digest raw' = checksum →
      read_json raw' = Ok prior → dot prior "phase" = JStr (lit "complete") →
      same_json (dot (dot prior "request") "target") (dot request "source") = true →
      Forall (λ k, dot (dot prior "request") k = dot request k) IDENTITY_FIELDS →
      intact s n (dot prior "request") raw' (str_of (dot prior "host_nonce")) →
      intact s (S n) request raw nonce.

Lemma genuine_grows s s' request raw nonce value : s ⊆ s' → genuine s request raw nonce value → genuine s' request raw nonce value.
Proof.
  intros Hs (d & reserved & reservation & H1 & H2 & H3 & H4 & H5 & H6 & H7 & H8 & H9). exists d, reserved, reservation.
  split_and!; try done; [by eapply lookup_weaken|]. eapply Forall_impl; [done|]. intros kc. by apply record_grows.
Qed.
Lemma intact_grows s s' n request raw nonce : s ⊆ s' → intact s n request raw nonce → intact s' n request raw nonce.
Proof.
  intros Hs. induction 1; [eapply intact_first|eapply intact_next]; try done; try by eapply genuine_grows.
  by eapply lookup_weaken.
Qed.
End chains.

Section verified.
Context `{LAW : Lawful} `{CRY : Crypto} `{FL : Floats} `{FV : FloatValues} `{UCD : UnicodeDB} `{PRS : Parsers}.
Context (recovery : RecoveryContexts).
Context (owners_quiet : Forall (λ c, ∀ r, quiet (verify_backup c.2.1 r)) recovery).

Lemma for_each_quiet_Ret {A} (f : A → proc world exn unit) l w u w' :
  (∀ x, quiet (f x)) → for_each f l w = (Ret u, w') →
  ∀ x, x ∈ l → ∃ v v', f x v = (Ret tt, v') ∧ artifacts v = artifacts w.
Proof.
  intros Hq. revert w. induction l as [|y l IH]; intros w H x Hx; [by apply elem_of_nil in Hx|].
  simpl in H. apply bind_Ret in H as ([] & w1 & H1 & H). destruct (quiet_out _ _ _ _ (Hq y) H1) as [Ea _].
  apply elem_of_cons in Hx as [-> |Hx]; [by exists w, w1|]. destruct (IH _ H x Hx) as (v & v' & Hv & E).
  exists v, v'. by rewrite E.
Qed.

Lemma revalidate_Ret request nonce all kc w u w' :
  revalidate store recovery request nonce all kc w = (Ret u, w') → record_at (artifacts w) request nonce kc.1 kc.2.
Proof.
  unfold revalidate. intros H. apply bind_Ret in H as (raw & w1 & (Hr & _ & Hd & _)%read_Ret & H).
  apply bind_Ret in H as (value & w2 & [Hv ->]%purely_Ret & H). apply evidence_bound in H as (d & E1 & E2 & E3 & E4).
  exists raw. split_and!; [done|by apply Hd|]. by exists value, d.
Qed.

Lemma reservation_Ret request d nonce w reservation w' :
  check_reservation store request d nonce w = (Ret reservation, w') →
  ∃ raw, artifacts w !! artifact_name d Reservation = Some raw ∧ read_json raw = Ok reservation ∧
         py_eq reservation (attempt_document request d nonce (dot reservation "verification_digest")) = true.
Proof.
  unfold check_reservation. intros H. apply bind_Ret in H as (raw & w1 & (Hr & _)%read_Ret & H).
  apply bind_Ret in H as (v & w2 & [Hv ->]%purely_Ret & H). cbv zeta in H.
  apply bind_Ret in H as (? & w3 & [He ->]%demands_Ret & H). apply mret_eq in H as [[= ->] ->]. by exists raw.
Qed.

Lemma within_Forall a b : within a b = true → Forall (λ k, k ∈ b) a.
Proof. unfold within. rewrite forallb_forall. intros H. apply Forall_forall. intros k Hk%list_elem_of_In%H. by bool_hyps. Qed.

Lemma check_receipt_Ret value request d nonce gate w all w' :
  check_receipt store value request d nonce gate w = (Ret all, w') →
  same_json (dot value "request") request = true ∧ dot value "host_nonce" = JStr nonce ∧
  Forall (λ k, k ∈ (evidence_of value).*1)
    (required_evidence (bool_decide (dot value "phase" = JStr (lit "complete"))) false).
Proof.
  unfold check_receipt. cbv zeta. intros H. apply bind_Ret in H as (? & w1 & [H1 ->]%demands_Ret & H).
  apply bind_Ret in H as (? & w2 & [H2 ->]%demands_Ret & H). apply bind_Ret in H as (? & w3 & [_ ->]%demands_Ret & H).
  apply bind_Ret in H as (? & w4 & [_ ->]%demands_Ret & H). apply bind_Ret in H as (? & w5 & [H5 ->]%demands_Ret & _).
  bool_hyps. split_and!; [done..|]. apply Forall_forall. intros k Hk.
  match goal with Hw : within (required_evidence _ _) _ = true |- _ => apply within_Forall in Hw; rewrite Forall_forall in Hw; apply Hw end.
  revert Hk. unfold required_evidence. rewrite !elem_of_app. destruct (bool_decide _), gate; naive_solver.
Qed.

Lemma verify_receipt_intact fuel raw request nonce gate w value w' :
  verify_receipt store recovery fuel raw request nonce gate w = (Ret value, w') →
  ∃ n, (1 ≤ n ≤ fuel)%nat ∧ intact (artifacts w) n request raw nonce.
Proof.
  revert raw request nonce gate w value w'. induction fuel as [|fuel IH]; intros raw request nonce gate w value w' H; [done|].
  cbn [verify_receipt] in H. apply bind_Ret in H as (d & w1 & [Hd ->]%purely_Ret & H).
  apply bind_Ret in H as (reservation & w2 & H2 & H).
  destruct (quiet_out _ _ _ _ (quiet_reservation _ _ _) H2) as [E2 _]. apply reservation_Ret in H2 as (reserved & R1 & R2 & R3).
  apply bind_Ret in H as (? & w3 & [_ ->]%purely_Ret & H). apply bind_Ret in H as (v & w4 & [Hv ->]%purely_Ret & H).
  apply bind_Ret in H as (? & w5 & [_ ->]%purely_Ret & H). apply bind_Ret in H as (all & w6 & H6 & H).
  destruct (quiet_out _ _ _ _ (quiet_check_receipt _ _ _ _ _) H6) as [E6 _]. apply check_receipt_Ret in H6 as (C1 & C2 & C3).
  apply bind_Ret in H as ([] & w7 & H7 & H).
  pose proof (quiet_for_each _ (evidence_of v) (quiet_revalidate recovery owners_quiet request nonce all)) as Hq.
  destruct (quiet_out _ _ _ _ Hq H7) as [E7 _].
  pose proof (for_each_quiet_Ret _ _ _ _ _ (quiet_revalidate recovery owners_quiet request nonce all) H7) as Hev.
  assert (Hgen : genuine (artifacts w) request raw nonce v).
  { exists d, reserved, reservation. split_and!; try done. apply Forall_forall. intros kc Hkc.
    destruct (Hev kc Hkc) as (y & y1 & Hx & Ex). apply revalidate_Ret in Hx. by rewrite Ex, E6, E2 in Hx. }
  apply bind_Ret in H as ([] & w8 & H8 & H). unfold check_predecessor in H8.
  destruct (dot request "previous_receipt_digest") as [| | | |c| |] eqn:Hprev;
    try (exists 1%nat; split; [lia|]; eapply intact_first; [done|]; by rewrite Hprev).
  apply bind_Ret in H8 as (raw' & w9 & H9 & H8). destruct (quiet_out _ _ _ _ (quiet_read _ _ _) H9) as [E9 _].
  apply read_Ret in H9 as (P1 & _ & P2 & _). apply bind_Ret in H8 as (prior & w10 & [Hp ->]%purely_Ret & H8).
  apply bind_Ret in H8 as (? & w11 & [_ ->]%purely_Ret & H8). cbv zeta in H8.
  apply bind_Ret in H8 as (? & w12 & [Hm ->]%demands_Ret & H8). apply bind_Ret in H8 as (? & w13 & [Hi ->]%demands_Ret & H8).
  unfold any_receipt in H8. destruct (missing_context _); [done|]. apply bind_Ret in H8 as (v2 & w14 & Hx & _).
  apply IH in Hx as (n & Hn & Hchain). rewrite E9, E7, E6, E2 in *.
  exists (S n). split; [lia|]. bool_hyps. eapply intact_next; try done.
  - by apply P2.
  - apply Forall_forall. intros k Hk. rewrite forallb_forall in Hi. apply list_elem_of_In, Hi in Hk. by bool_hyps.
Qed.

(** ** The properties *)

Context (raw_request : bytes).
#[local] Abbreviation run policy request_path bundle_path :=
  (execute_transition store recovery policy raw_request request_path bundle_path).

Lemma load_reads i now request : load_request raw_request i now = Ok request → read_json raw_request = Ok request.
Proof. unfold load_request. destruct (read_json raw_request) as [r|e]; [|done]. simpl. by destruct (validate_request _ _ _) as [[]|]; intros [= <-]. Qed.
Lemma through_Ret {A} (q o : outcome exn A) a : through_lock q o → o = Ret a → q = Ret a.
Proof. intros [<-|(v & _ & Hn)] Ho; [done|]. by destruct (Hn a). Qed.


(** C2: The digest a run returns names a complete receipt on the shelf, of the
    request that was given and of the attempt it is reserved for; the receipt
    heads an intact chain of at most 32 receipts, and gives for the inspection,
    the authorization and each of the fourteen stages the digest of a record that
    is on the shelf and bound to this request and attempt. *)
Theorem receipt_of_run policy request_path bundle_path w d w' :
  run policy request_path bundle_path w = (Ret d, w') →
  ∃ request nonce raw l genesis r n,
    read_json raw_request = Ok request ∧ reserved_for w' request nonce ∧
    d = raw_digest raw ∧ artifacts w' !! artifact_name d Receipt = Some raw ∧
    canonical_json (receipt_document request nonce true l genesis r) = Ok raw ∧
    (1 ≤ n ≤ MAX_CHAIN)%nat ∧ intact (artifacts w') n request raw nonce ∧
    Forall (λ k, ∃ c, dict_get (evidence l) (lit k) = Some c ∧ record_at (artifacts w') request nonce (lit k) c)
      (["inspection"; "authorization"]%string ++ STAGES).
Proof.
  intros H. apply run_out in H as (_ & q & tr & _ & Hl & Hrun); [|done]. apply (through_Ret _ _ d) in Hl as ->; [|done].
  destruct Hrun as [[_ Hn]|(request & now & s & rest & H1 & _ & [[_ Hn]|(nonce & v & _ & _ & _ & G4 & _ & G6)])];
    [by destruct (Hn d)..|].
  destruct (G6 d eq_refl) as (l & [(tr' & _ & _ & _ & _ & Hb & _) K] & raw & g & r & -> & R2 & R3 & R4 & (u & x & u' & Hv & Hu)).
  apply verify_receipt_intact in Hv as (n & [Hn1 Hn2] & Hi). exists request, nonce, raw, l, g, r, n.
  split_and!; try done; [by eapply load_reads|by eapply intact_grows|].
  change (_ ++ STAGES) with (needed 14).
  eapply Forall_impl; [apply Forall_and; split; [exact K|apply (needed_ordinary 14)]|].
  intros k [[c Hc] Hne]. exists c. split; [done|]. by apply Hb.
Qed.

(** C3: A request is attempted at most once: of two runs of the same request, one
    after the other, with nothing removed from the shelf in between, the second
    asks for no more than the inspection and returns no digest when the first
    asked for more, even when the first failed or was cut short. *)
Theorem attempted_once policy1 path1 bundle1 policy2 path2 bundle2 w1 o1 w1' w2 o2 w2' tr1 tr2 c s :
  run policy1 path1 bundle1 w1 = (o1, w1') → calls w1' = calls w1 ++ tr1 → (c, s) ∈ tr1 → kind_of c ≠ "inspection"%string →
  artifacts w1' ⊆ artifacts w2 →
  run policy2 path2 bundle2 w2 = (o2, w2') → calls w2' = calls w2 ++ tr2 →
  Forall (λ cs, kind_of cs.1 = "inspection"%string) tr2 ∧ ∀ d, o2 ≠ Ret d.
Proof.
  intros H1 Hc1 Hin Hk Hg H2 Hc2.
  apply run_out in H1 as (Hg1 & q1 & t1 & E1 & _ & Hrun1); [|done]. rewrite E1 in Hc1. apply app_inv_head in Hc1 as <-.
  apply run_out in H2 as (Hg2 & q2 & t2 & E2 & Hl2 & Hrun2); [|done]. rewrite E2 in Hc2. apply app_inv_head in Hc2 as <-.
  assert (Hno : (∀ d, q2 ≠ Ret d) → ∀ d, o2 ≠ Ret d).
  { intros Hn d Ho. by apply (Hn d), (through_Ret _ _ _ Hl2). }
  destruct Hrun1 as [[-> _]|(request & now & s1 & rest1 & L1 & -> & Hatt)]; [by apply elem_of_nil in Hin|].
  destruct Hatt as [[-> _]|(nonce & v & _ & _ & _ & (d & raw & vf & Hd & Hraw & _) & _)].
  { apply list_elem_of_singleton in Hin as [= -> ->]. done. }
  destruct Hrun2 as [[-> Hn]|(request2 & now2 & s2 & rest2 & L2 & -> & Hatt)]; [by split; [|apply Hno]|].
  destruct Hatt as [[-> Hn]|(nonce2 & v2 & _ & _ & Hfree & _)]; [by split; [repeat constructor|apply Hno]|].
  apply load_reads in L1, L2. rewrite L1 in L2. injection L2 as <-. specialize (Hfree d Hd).
  eapply lookup_weaken in Hraw; [|done]. congruence.
Qed.

(** C4: A receipt that [verify_receipt] accepts heads an intact chain, no longer
    than the depth it was allowed: each receipt is of its request and of the
    attempt the request is reserved for, has a record of every stage of its
    phase, all on the shelf and bound to the attempt; each but the first is
    preceded by a complete one, whose target is its source, of the same product,
    environment, host, database, cluster and database oid.  Verifying changes
    nothing and asks the host for nothing. *)
Theorem receipts_chain fuel raw request nonce gate w value w' :
  verify_receipt store recovery fuel raw request nonce gate w = (Ret value, w') →
  artifacts w' = artifacts w ∧ calls w' = calls w ∧ read_json raw = Ok value ∧
  ∃ n, (1 ≤ n ≤ fuel)%nat ∧ intact (artifacts w) n request raw nonce.
Proof.
  intros H. destruct (quiet_out _ _ _ _ (quiet_receipt recovery owners_quiet _ _ _ _ _) H) as [Ha Hc].
  pose proof (verify_receipt_intact _ _ _ _ _ _ _ _ H) as Hi. split_and!; [done..| |done].
  destruct fuel as [|fuel]; [done|]. cbn [verify_receipt] in H.
  do 3 (apply bind_Ret in H as (? & ? & _ & H)). apply bind_Ret in H as (v & w1 & [Hv ->]%purely_Ret & H).
  do 4 (apply bind_Ret in H as (? & ? & _ & H)). by apply mret_eq in H as [[= ->] _].
Qed.
End verified.
