(* ===== verification/TransitionDemo.v ===== *)
(** * A transition on a faultless host

    A faultless machine with a store in memory, and a host that answers each
    call from a table: every file is owned by root and protected, every write
    is whole, and [Lawful] holds of it.  On it runs a first transition of the
    control plane, from its authorization to the restored routing, and the
    guarantees of [TransitionSafety.v] are applied to it. *)

From S2P Require Import Prelude PyText PyUuid Json JsonReader JsonRound PyDate PyTime Effects Contracts Envelopes Catalogue TransitionStore TransitionRequest TransitionAuthorization TransitionEvidence TransitionReceipt Transition TransitionLaws TransitionSteps TransitionSafety.

#[local] Open Scope Z_scope.

(** The files of the store, and the calls so far. *)
Record box := Box { files : shelf; asked : list (call * shelf) }.

(** What the rest of the host holds: the protected files outside the store, the
    answers of the host with the artifacts each leaves, the attestation
    verifier's output, the nonce and the time. *)
Record replies := {
  outside : list pystr → option bytes;
  reply : call → option (bytes * shelf);
  report : bytes;
  token : pystr;
  instant : Z;
}.

Definition store_root : path := Path true [lit "store"].
Definition directory_status : stat_result := {| st_uid := 0; st_mode := 448; st_nlink := 2; st_kind := Directory |}.
Definition file_status : stat_result := {| st_uid := 0; st_mode := 448; st_nlink := 1; st_kind := Regular |}.

(** The name of a file of the store. *)
Definition in_store (p : list pystr) : option pystr :=
  match p with [d; name] => if bool_decide (d = lit "store") then Some name else None | _ => None end.
Definition content (h : replies) (b : box) (p : list pystr) : option bytes :=
  match in_store p with Some name => files b !! name | None => outside h p end.
Definition with_files (b : box) (f : shelf) : box := Box f (asked b).
Definition no_file : exn := Exn OSError "FileNotFoundError".

Section ideal.
Context (h : replies).

#[export] Instance ideal_machine : Machine := {|
  world := box;
  open_directory_at := λ _ b, (Ret directory_status, b);
  create_file := λ p b,
    match in_store p with
    | Some name =>
        match files b !! name with
        | Some _ => (Throw (Exn OSError "FileExistsError"), b)
        | None => (Ret file_status, with_files b (<[name := []]> (files b)))
        end
    | None => (Throw (Exn OSError "PermissionError"), b)
    end;
  os_write := λ p v b,
    match in_store p with
    | Some name => (Ret (Z.of_nat (length v)), with_files b (alter (λ f, f ++ v) name (files b)))
    | None => (Throw (Exn OSError ""), b)
    end;
  os_fsync := λ _ b, (Ret tt, b);
  open_file := λ p b, (match content h b p with Some _ => Ret file_status | None => Throw no_file end, b);
  read_file := λ p n b,
    (match content h b p with
     | Some raw => Ret (match n with Some n => take (Z.to_nat (Z.min n (Z.of_nat (length raw)))) raw | None => raw end)
     | None => Throw no_file
     end, b);
  run_program := λ _ _ b, (Ret (0, report h), b);
  token_hex := λ b, (Ret (token h), b);
|}.

#[export] Instance ideal_host : CpHost := {|
  acquire := λ b, (Ret tt, b);
  release := λ b, (Ret tt, b);
  act := λ c b,
    match reply h c with
    | Some (raw, left_) => (Ret raw, Box (files b ∪ left_) (asked b ++ [(c, files b)]))
    | None => (Throw (Exn RuntimeError "host"), Box (files b) (asked b ++ [(c, files b)]))
    end;
  clock := λ b, (Ret (instant h), b);
|}.

Lemma in_store_file name : in_store (parts (child store_root name)) = Some name.
Proof. done. Qed.

#[export] Program Instance ideal_lawful : Lawful store_root := {|
  artifacts := (files : world → shelf);
  calls := (asked : world → list (call * shelf));
|}.
Next Obligation. by split. Qed.
Next Obligation. by split. Qed.
Next Obligation. by split. Qed.
Next Obligation. by split. Qed.
Next Obligation. by split. Qed.
Next Obligation. by split. Qed.
Next Obligation. by split. Qed.
Next Obligation. by split. Qed.
Next Obligation.
  intros name n w raw w'. cbn [TransitionStore.read_file ideal_machine]. unfold content. rewrite in_store_file.
  destruct (files w !! name) as [f|]; [|done]. intros [= <- <-]. exists f. split; [done|].
  destruct (decide (n ≤ Z.of_nat (length f))) as [Hle|Hgt]; [by rewrite Z.min_l|].
  rewrite Z.min_r, Nat2Z.id, !take_ge by lia. done.
Qed.
Next Obligation. intros p w. simpl. destruct (in_store p); [|done]. by destruct (files w !! _). Qed.
Next Obligation.
  intros name w o w'. cbn [create_file ideal_machine]. rewrite in_store_file.
  destruct (files w !! name) as [f|] eqn:Hf; intros [= <- <-]; [by left|by right].
Qed.
Next Obligation. intros p v w. simpl. by destruct (in_store p). Qed.
Next Obligation.
  intros name v w o w'. cbn [os_write ideal_machine]. rewrite in_store_file. intros [= <- <-].
  exists (length v). rewrite firstn_all. split; [done|]. by intros n [= <-].
Qed.
Next Obligation. by intros w o w' [= <- <-]. Qed.
Next Obligation.
  intros c w o w'. cbn [act ideal_host]. destruct (reply h c) as [[raw l]|]; intros [= <- <-]; cbn [files asked]; [|done].
  split; [apply map_union_subseteq_l|done].
Qed.
End ideal.

Module Example_.

(** Two running sums in place of the hash. *)
Definition sums (raw : bytes) : Z * Z := foldl (λ '(a, b) c, (a + c, b + a + c)) (1, 0) raw.
#[global] Instance crypto : Crypto := {|
  sha256 := λ raw, let '(a, b) := sums raw in Toy.hex 64 (b * 16777216 + a);
  ed_public := λ _, false;
  ed_verify := λ _ _ _, false;
|}.
#[global] Instance floats : Floats := {| float_repr := λ s, s |}.
#[global] Instance float_values : FloatValues := {| float_int := λ _, None |}.

Definition doc (l : list (string * json)) : json := JObj ((λ '(k, v), (lit k, v)) <$> l).
Definition text (s : string) : json := JStr (lit s).
Definition ok {A} (d : A) (r : res A) : A := match r with Ok a => a | Raise _ => d end.
Definition canonical (v : json) : bytes := ok [] (canonical_json v).
Definition digest_of (raw : bytes) : pystr := raw_digest raw.
Definition a_digest (c : Z) : json := JStr (lit "sha256:" ++ repeat c 64).
Definition a_revision (c : Z) : json := JStr (repeat c 40).

(** ** The request *)

Definition now : Z := Eval vm_compute in ok 0 (timestamp (lit "2026-01-01T12:00:00Z")).
Definition descriptor : bytes := Eval vm_compute in lit "product = cp".
Definition image_of (c : Z) : pystr := lit "cp@sha256:" ++ repeat c 64.
Definition descriptor_document : json := doc
  [("product", text "dotmac_vendor_control_plane"); ("environment", text "production");
   ("image", doc [("reference", JStr (image_of 97)); ("source_revision", a_revision 97)]);
   ("migration", doc [("expected_heads", JArr [text "h1"])])]%string.
#[global] Instance parsers : Parsers := {|
  fromisoformat := λ _, Some (now, true);
  toml_loads := λ _, Some descriptor_document;
  TransitionAuthorization.printable := λ _, true;
|}.

Definition side (c : Z) (raw : json) (head : string) : json := doc
  [("image_digest", a_digest c); ("revision", a_revision c); ("raw_descriptor_digest", raw); ("heads", JArr [text head])]%string.
Definition source : json := Eval vm_compute in side 97 (JStr (digest_of descriptor)) "h1".
Definition target : json := Eval vm_compute in side 98 (a_digest 57) "h2".
Definition request_with (plan : json) : json := doc
  [("schema", text TRANSITION); ("product", text "dotmac_vendor_control_plane"); ("environment", text "production");
   ("host", text "cp-1"); ("database", text "cp"); ("cluster_system_identifier", text "7000"); ("database_oid", JInt 16384);
   ("source", source); ("target", target); ("plan_digest", plan); ("authorization_run_id", JInt 11);
   ("authorization_run_attempt", JInt 1); ("trusted_actor", text "ann"); ("expires_at", text "2026-01-02T00:00:00Z");
   ("previous_receipt_digest", JNull)]%string.
Definition request : json := Eval vm_compute in request_with (JStr (ok [] (transition_plan_digest (request_with JNull)))).
Definition raw_request : bytes := Eval vm_compute in canonical request.
Definition request_key : pystr := Eval vm_compute in ok [] (request_digest request).
Definition nonce : pystr := repeat 49 64.

(** ** Its authorization *)

Definition at_ (l : list string) : path := Path true (lit <$> l).
Definition request_file : path := at_ ["etc"; "request.json"]%string.
Definition protection : json := doc
  [("schema", text "dotmac.cp_transition_environment_protection/2"); ("repository_id", text "41");
   ("repository_owner_id", text "42"); ("workflow_revision", a_revision 99); ("environment", text "production");
   ("protected_main", JBool true); ("approval_model", text "single-user-manual"); ("prevent_self_review", JBool false);
   ("can_admins_bypass", JBool false); ("required_reviewer_ids", JArr [JInt 42]); ("expires_at", text "2026-01-03T00:00:00Z")]%string.
Definition protection_bytes : bytes := Eval vm_compute in canonical protection.
Definition gh : bytes := lit "gh".
Definition policy : CpTransitionTrustPolicy := {|
  identity := {| id_host := lit "cp-1"; id_database := lit "cp"; id_cluster_system_identifier := lit "7000"; id_database_oid := 16384 |};
  gh_binary := at_ ["usr"; "gh"]%string; gh_binary_digest := digest_of gh; gh_config_directory := at_ ["etc"; "gh"]%string;
  repository := lit "ann/cp"; repository_id := lit "41"; repository_owner_id := lit "42";
  workflow_path := lit ".github/workflows/transition.yml"; workflow_revision := repeat 99 40;
  predicate_type := lit "https://example.com/transition"; environment_protection_proof := at_ ["etc"; "protection.json"]%string;
  environment_protection_digest := digest_of protection_bytes;
|}.
Definition repository_uri : pystr := lit "https://github.com/ann/cp".
Definition signer_uri : json := JStr (repository_uri ++ lit "/.github/workflows/transition.yml@refs/heads/main").
Definition attestation : json := doc
  [("verificationResult", doc
    [("signature", doc [("certificate", doc
       [("issuer", text "https://token.actions.githubusercontent.com"); ("subjectAlternativeName", signer_uri);
        ("buildSignerURI", signer_uri); ("buildSignerDigest", a_revision 99); ("runnerEnvironment", text "github-hosted");
        ("sourceRepositoryURI", JStr repository_uri); ("sourceRepositoryDigest", a_revision 99);
        ("sourceRepositoryRef", text "refs/heads/main"); ("sourceRepositoryIdentifier", text "41");
        ("sourceRepositoryOwnerIdentifier", text "42"); ("buildConfigURI", signer_uri); ("buildConfigDigest", a_revision 99);
        ("runInvocationURI", JStr (repository_uri ++ lit "/actions/runs/11/attempts/1"))])]);
     ("verifiedTimestamps", JArr [doc [("type", text "Tlog"); ("timestamp", text "2026-01-01T12:00:00Z")]]);
     ("statement", doc
       [("predicateType", text "https://example.com/transition");
        ("subject", JArr [doc [("name", text "request.json"); ("digest", doc [("sha256", JStr (sha256 raw_request))])]]);
        ("predicate", doc [("request_digest", JStr request_key); ("trusted_actor", text "ann"); ("environment", text "production")])])])]%string.
Definition attestation_bytes : bytes := Eval vm_compute in canonical (JArr [attestation]).

(** ** The evidence of the stages *)

Definition record (kind : string) (result : json) : bytes := canonical (doc
  [("schema", text EVIDENCE_SCHEMA); ("request_digest", JStr request_key); ("host_nonce", JStr nonce); ("kind", text kind);
   ("result", result)])%string.
(** What an answer leaves in the store. *)
Definition kept (l : list bytes) : shelf :=
  list_to_map ((λ raw, (artifact_name (digest_of raw) Evidence, raw)) <$> l).

(** A catalogue with a table, whose access list is the default of the server. *)
Definition catalogue_with (acl check : json) : json := doc
  [("bootstrap", JArr [JArr [text "postgres"; JInt 10; JBool true]]); ("schemas", JArr []);
   ("relations", JArr [JArr [text "public"; text "plans"; text "r"; text "app_admin"; JBool true; JBool false; acl; JNull]]);
   ("columns", JArr []);
   ("constraints", JArr [JArr [text "public"; text "plans"; text "price_check"; check; text "c"; JBool false; JBool false;
                               JBool true; JBool true; JBool true; JInt 0; check]]);
   ("indexes", JArr []); ("views", JArr []); ("functions", JArr []); ("policies", JArr []); ("triggers", JArr []);
   ("default-acls", JArr []); ("roles", JArr []); ("memberships", JArr [])]%string.
Definition default_acl : json := text "{app_admin=arwdDxt/app_admin}".
Definition catalogue : bytes := Eval vm_compute in canonical (catalogue_with default_acl (text "CHECK ((price > 0))")).
Definition restored_catalogue : bytes := Eval vm_compute in canonical (catalogue_with JNull (text "CHECK (price > 0)")).
Definition observation (raw : bytes) : json := doc
  [("side", source);
   ("descriptor_declarations", doc [("image_reference", JStr (image_of 97)); ("source_revision", a_revision 97);
                                    ("migration_heads", JArr [text "h1"])]);
   ("database_owner", text "app_admin"); ("roles", JArr (sorted_set ((λ r, JStr (lit r)) <$> REQUIRED_ROLES)));
   ("catalogue_digest", JStr (digest_of raw))]%string.
Definition genesis : json := Eval vm_compute in observation catalogue.
Definition restored_source : json := Eval vm_compute in observation restored_catalogue.
Definition restored_bytes : bytes := Eval vm_compute in canonical restored_source.

Definition row_of_ (raw : bytes) (name : string) : json :=
  match read_json raw with Ok v => hd JNull (rows v name) | Raise _ => JNull end.
Definition row_text (raw : bytes) (name : string) : json := JStr (digest_of (canonical (row_of_ raw name))).
Definition comparison : bytes := Eval vm_compute in canonical (doc
  [("schema", text COMPARISON_SCHEMA); ("request_digest", JStr request_key); ("host_nonce", JStr nonce);
   ("source_cluster_system_identifier", text "7000"); ("source_database", text "cp");
   ("source_catalogue_digest", JStr (digest_of catalogue)); ("restored_catalogue_digest", JStr (digest_of restored_catalogue));
   ("method", text COMPARISON_METHOD);
   ("parser", doc [("server_version_num", JInt 160002); ("cluster_system_identifier", text "7001"); ("database", text "scratch");
                   ("search_path", text "pg_catalog"); ("standard_conforming_strings", text "on")]);
   ("checks", JArr [doc [("identity", JArr [text "public"; text "plans"; text "price_check"]);
                         ("source_row_digest", row_text catalogue "constraints");
                         ("restored_row_digest", row_text restored_catalogue "constraints");
                         ("source_view_definition", text "SELECT (price > 0)"); ("restored_view_definition", text "SELECT (price > 0)")]]);
   ("relation_acls", JArr [doc [("identity", JArr [text "public"; text "plans"]);
                                ("source_row_digest", row_text catalogue "relations");
                                ("restored_row_digest", row_text restored_catalogue "relations");
                                ("server_default_acl", default_acl)]]);
   ("restored_catalogue_after_digest", JStr (digest_of restored_catalogue))]%string).

Definition globals : bytes := GLOBALS_BOOTSTRAP_STATEMENT ++ lit "CREATE ROLE app_admin;" ++ [10].
Definition replayed : pystr * Z :=
  let kept := drop (length GLOBALS_BOOTSTRAP_STATEMENT) globals in (digest_of kept, Z.of_nat (length kept)).
Definition manifest : bytes := Eval vm_compute in canonical (doc
  [("database_name", text "cp"); ("cluster_system_identifier", text "7000")])%string.
Definition replay_proof : bytes := Eval vm_compute in canonical (doc
  [("schema", text "dotmac.cp_globals_replay/1"); ("request_digest", JStr request_key); ("host_nonce", JStr nonce);
   ("original_digest", JStr (digest_of globals)); ("original_size", JInt (Z.of_nat (length globals)));
   ("replay_digest", JStr replayed.1); ("replay_size", JInt replayed.2);
   ("omitted_statement", JStr GLOBALS_BOOTSTRAP_STATEMENT);
   ("source_bootstrap", doc [("role", text "postgres"); ("oid", JInt 10); ("superuser", JBool true)]);
   ("fresh_bootstrap", doc [("role", text "postgres"); ("oid", JInt 10); ("superuser", JBool true)])]%string).
Definition backup : PlatformBackupResult := {|
  backup_path := at_ ["backup"]%string; checksum := sha256 manifest; manifest_size_bytes := Z.of_nat (length manifest);
  database_dump_sha256 := digest_of (lit "dump"); database_dump_size_bytes := 4;
  globals_sha256 := digest_of globals; globals_size_bytes := Z.of_nat (length globals);
|}.
Definition recovery_result : json := Eval vm_compute in doc
  [("source", genesis); ("restored_source", restored_source); ("manifest_size", JInt (manifest_size_bytes backup));
   ("dump_size", JInt 4); ("globals_size", JInt (globals_size_bytes backup));
   ("restore_evidence_digest", JStr (digest_of restored_bytes)); ("manifest_digest", JStr (digest_of manifest));
   ("dump_digest", JStr (digest_of (lit "dump"))); ("globals_digest", JStr (globals_sha256 backup));
   ("restored_dump_digest", JStr (digest_of (lit "dump"))); ("restored_globals_digest", JStr replayed.1);
   ("globals_replay_digest", JStr (digest_of replay_proof)); ("catalogue_comparison_digest", JStr (digest_of comparison))]%string.

Definition snapshot : bytes := Eval vm_compute in canonical (doc
  [("schema", text "dotmac.cp_candidate_quiescence_snapshot/1"); ("request_digest", JStr request_key); ("host_nonce", JStr nonce);
   ("measurement", doc [("track_counts", JBool true); ("stats_reset", JNull); ("server_start", text "2026-01-01T00:00:00Z");
      ("relations", JArr [JArr [text "public"; text "plans"; JInt 0; JInt 0; JInt 0; JInt 0; JInt 0]]);
      ("sequences", JArr []); ("catalogue_digest", JStr (digest_of catalogue))])]%string).
Definition quiescence : bytes := Eval vm_compute in canonical (doc
  [("schema", text "dotmac.cp_candidate_quiescence/1"); ("request_digest", JStr request_key); ("host_nonce", JStr nonce);
   ("before_digest", JStr (digest_of snapshot)); ("after_digest", JStr (digest_of snapshot))]%string).
Definition closure : json := doc
  [("candidate_sessions", JInt 0); ("candidate_roles", JArr []); ("writer_sessions", JInt 0);
   ("reconnect_denial", text "database_acl"); ("quiescence_digest", JStr (digest_of quiescence))]%string.
Definition fenced : list (string * json) := [("writer_sessions", JInt 0); ("reconnect_denial", text "database_acl")]%string.

(** The host's answers: the record of each stage and what it refers to. *)
Definition answers (c : call) : option (bytes * shelf) :=
  let says l kept_ := Some (record (kind_of c) (doc l), kept kept_) in
  match c with
  | Inspect _ => Some (canonical (doc [("source", source); ("target", target)]%string), ∅)
  | Maintenance _ _ => says [("external_status", JInt 503); ("active_http", JInt 0); ("active_websockets", JInt 0)]%string []
  | FenceAndNegativeReconnect _ _ => says (("database", text "cp")%string :: fenced) []
  | StopAndDrainWriters _ _ => says [("running_writers", JArr []); ("restart_enabled", JArr [])]%string []
  | SourceGenesis _ _ => Some (record (kind_of c) genesis, kept [catalogue; descriptor])
  | CaptureAndRestore _ _ =>
      Some (record (kind_of c) recovery_result, kept [restored_catalogue; restored_bytes; manifest; replay_proof; comparison])
  | RecheckFenceSource _ _ => says (("source", source)%string :: fenced) []
  | Migrate _ _ _ _ _ restored fence _ =>
      says [("heads", JArr [text "h2"]); ("restore_digest", JStr restored); ("fence_digest", JStr fence)]%string []
  | TargetHeads _ _ => Some (record (kind_of c) target, ∅)
  | CandidateReady _ _ => says [("side", target); ("status", JInt 200); ("writer_sessions", JInt 0)]%string []
  | CloseCandidateAndRefence _ _ => Some (record (kind_of c) closure, kept [snapshot; quiescence])
  | RestoreAcl _ _ => says [("database", text "cp"); ("acl_difference", JArr [])]%string []
  | FullReady _ _ => says [("side", target); ("status", JInt 200)]%string []
  | VerifyPreRouting raw => says [("receipt_digest", JStr (digest_of raw))]%string []
  | RestoreRouting _ _ => says [("side", target); ("external_status", JInt 200)]%string []
  | FailClosed _ _ _ => says (("external_status", JInt 503)%string :: fenced) []
  end.
Definition outside_files (p : list pystr) : option bytes :=
  dict_get [((lit <$> ["etc"; "request.json"]%string), raw_request); ((lit <$> ["usr"; "gh"]%string), gh);
            ((lit <$> ["etc"; "protection.json"]%string), protection_bytes); ((lit <$> ["backup"; "globals.sql"]%string), globals)] p.
Definition replies_with (answer : call → option (bytes * shelf)) : replies := {|
  outside := outside_files; reply := answer; report := attestation_bytes; token := nonce; instant := now;
|}.
Definition faultless : replies := replies_with answers.
(** A host that cannot stop the writers. *)
Definition faulty : replies := replies_with (λ c, match c with StopAndDrainWriters _ _ => None | _ => answers c end).

(** The recovery bundle of the transition, whose backup verifies on any host. *)
Definition bundle_transition : TransitionIdentity := {|
  t_product := lit "dotmac_vendor_control_plane"; t_environment := lit "production"; image := image_of 98;
  t_source_revision := repeat 98 40; source_image := image_of 97; incumbent_source_revision := repeat 97 40;
  source_heads := [lit "h1"]; source_descriptor_raw_sha256 := digest_of descriptor;
  target_descriptor_raw_sha256 := lit "sha256:" ++ repeat 57 64;
|}.
Definition recovery (h : replies) : RecoveryContexts (MCH := ideal_machine h) :=
  [(request_key, ({| owner_target := lit "cp-1"; owner_transition := Some bundle_transition;
                     verify_backup := λ _, mret true |}, backup))].
Lemma owners_look h : Forall (λ c, ∀ r, quiet (LAW := ideal_lawful h) (verify_backup c.2.1 r)) (recovery h).
Proof. repeat constructor. Qed.

(** ** The runs *)

Abbreviation transition h b :=
  (execute_transition (MCH := ideal_machine h) (HST := ideal_host h) store_root (recovery h) policy raw_request request_file None b).
Definition start : box := Box ∅ [].
Definition finished : box := (transition faultless start).2.
Definition value_of {A} (d : A) (o : outcome exn A) : A := match o with Ret a => a | _ => d end.
Definition returned : pystr := Eval vm_compute in value_of [] (transition faultless start).1.
Definition interrupted : box := (transition faulty start).2.
Definition refused : box := (transition faulty interrupted).2.
Definition new_calls (b b' : box) : list (call * shelf) := drop (length (asked b)) (asked b').

(** What a run returned, and the stages it asked for. *)
Definition summary (p : outcome exn pystr * box) : outcome exn pystr * list string :=
  (p.1, map (λ cs, kind_of cs.1) (asked p.2)).
Lemma summary_of p o l : summary p = (o, l) → p = (o, p.2) ∧ map (λ cs, kind_of cs.1) (asked p.2) = l.
Proof. destruct p. by intros [= -> <-]. Qed.

Lemma transition_summary : summary (transition faultless start) = (Ret returned, "inspection"%string :: STAGES).
Proof. vm_compute. reflexivity. Qed.
Lemma interrupted_summary :
  summary (transition faulty start) =
  (Throw (Exn RuntimeError "host"), ["inspection"; "maintenance"; "strict-fence-reconnect"; "writers-stopped"; "failure"]%string).
Proof. vm_compute. reflexivity. Qed.
Lemma transition_run : transition faultless start = (Ret returned, finished).
Proof. exact (proj1 (summary_of _ _ _ transition_summary)). Qed.
Lemma stages_called : map (λ cs, kind_of cs.1) (asked finished) = "inspection"%string :: STAGES.
Proof. exact (proj2 (summary_of _ _ _ transition_summary)). Qed.
Lemma interrupted_run : transition faulty start = (Throw (Exn RuntimeError "host"), interrupted).
Proof. exact (proj1 (summary_of _ _ _ interrupted_summary)). Qed.
Lemma stages_interrupted :
  map (λ cs, kind_of cs.1) (asked interrupted) = ["inspection"; "maintenance"; "strict-fence-reconnect"; "writers-stopped"; "failure"]%string.
Proof. exact (proj2 (summary_of _ _ _ interrupted_summary)). Qed.

Lemma run_of {A} (p : outcome exn A * box) o : p.1 = o → p = (o, p.2).
Proof. intros <-. apply surjective_pairing. Qed.
Lemma refused_run : transition faulty interrupted = (Throw (Exn OSError "FileExistsError"), refused).
Proof. unfold refused. apply run_of. vm_compute. reflexivity. Qed.

(** The calls of the two runs of the interrupted request. *)
Lemma calls_from_start h b : calls (Lawful := ideal_lawful h) b = calls (Lawful := ideal_lawful h) start ++ asked b.
Proof. done. Qed.
Lemma calls_of_run h b o b' :
  transition h b = (o, b') → calls (Lawful := ideal_lawful h) b' = calls (Lawful := ideal_lawful h) b ++ new_calls b b'.
Proof.
  intros H. destruct (run_out (LAW := ideal_lawful h) (recovery h) (owners_look h) policy raw_request request_file None
                        b o b' H) as (_ & q & tr & Hc & _).
  unfold new_calls. change (asked b' = asked b ++ drop (length (asked b)) (asked b')).
  change (asked b' = asked b ++ tr) in Hc. by rewrite Hc, drop_app_length.
Qed.
Definition nth_call (l : list (call * shelf)) (i : nat) : call * shelf := default (Inspect request, ∅) (l !! i).
Lemma nth_call_kind l ks i k :
  map (λ cs : call * shelf, kind_of cs.1) l = ks → ks !! i = Some k →
  ((nth_call l i).1, (nth_call l i).2) ∈ l ∧ kind_of (nth_call l i).1 = k.
Proof.
  intros <- H. change (map ?f ?l) with (f <$> l) in H. rewrite list_lookup_fmap in H. unfold nth_call.
  destruct (l !! i) as [x|] eqn:Hx; [|done]. injection H as <-. simpl. rewrite <- surjective_pairing.
  split; [by eapply list_elem_of_lookup_2|done].
Qed.
Definition first_stage : call * shelf := nth_call (asked interrupted) 1.
Lemma first_stage_asked : (first_stage.1, first_stage.2) ∈ asked interrupted ∧ kind_of first_stage.1 = "maintenance"%string.
Proof. exact (nth_call_kind _ _ 1 _ stages_interrupted eq_refl). Qed.
Lemma first_stage_kind : kind_of first_stage.1 ≠ "inspection"%string.
Proof. by rewrite (proj2 first_stage_asked). Qed.

(** The store that the transition leaves, and the receipt it returned. *)
Definition left_behind : box := Eval vm_compute in Box (files finished) [].
Definition final_receipt : bytes := Eval vm_compute in default [] (files left_behind !! artifact_name returned Receipt).
Definition final_value : json := Eval vm_compute in match read_json final_receipt with Ok v => v | Raise _ => JNull end.
Abbreviation verified b :=
  (verify_receipt (MCH := ideal_machine faultless) store_root (recovery faultless) MAX_CHAIN final_receipt request nonce true b).
Definition after_verifying : box := (verified left_behind).2.
Lemma final_verified : verified left_behind = (Ret final_value, after_verifying).
Proof. unfold after_verifying. apply run_of. vm_compute. reflexivity. Qed.
End Example_.

Module Witnesses.
Import Example_.
#[local] Abbreviation law := (ideal_lawful faultless).


Lemma receipt_of_run_witness :
  ∃ request nonce raw l genesis r n,
    read_json raw_request = Ok request ∧ reserved_for (LAW := law) finished request nonce ∧
    returned = raw_digest raw ∧ artifacts (Lawful := law) finished !! artifact_name returned Receipt = Some raw ∧
    canonical_json (receipt_document request nonce true l genesis r) = Ok raw ∧
    (1 ≤ n ≤ MAX_CHAIN)%nat ∧ intact (artifacts (Lawful := law) finished) n request raw nonce ∧
    Forall (λ k, ∃ c, dict_get (evidence l) (lit k) = Some c ∧ record_at (artifacts (Lawful := law) finished) request nonce (lit k) c)
      (["inspection"; "authorization"]%string ++ STAGES).
Proof.
  exact (receipt_of_run (LAW := law) (recovery faultless) (owners_look faultless) raw_request policy
           request_file None start returned finished transition_run).
Defined.

(** The host fails while the writers are stopped; the request is not attempted again. *)
Lemma attempted_once_witness :
  Forall (λ cs, kind_of cs.1 = "inspection"%string) (new_calls interrupted refused) ∧
  ∀ d, Throw (Exn OSError "FileExistsError") ≠ @Ret exn pystr d.
Proof.
  exact (attempted_once (LAW := ideal_lawful faulty) (recovery faulty) (owners_look faulty) raw_request policy request_file None
    policy request_file None start _ interrupted interrupted _ refused (asked interrupted) (new_calls interrupted refused)
    first_stage.1 first_stage.2 interrupted_run (calls_from_start faulty interrupted) (proj1 first_stage_asked) first_stage_kind
    (reflexivity _) refused_run (calls_of_run faulty interrupted _ refused refused_run)).
Defined.

Lemma receipts_chain_witness :
  artifacts (Lawful := law) after_verifying = artifacts (Lawful := law) left_behind ∧
  calls (Lawful := law) after_verifying = calls (Lawful := law) left_behind ∧ read_json final_receipt = Ok final_value ∧
  ∃ n, (1 ≤ n ≤ MAX_CHAIN)%nat ∧ intact (artifacts (Lawful := law) left_behind) n request final_receipt nonce.
Proof.
  exact (receipts_chain (LAW := law) (recovery faultless) (owners_look faultless) MAX_CHAIN final_receipt
           request nonce true left_behind final_value after_verifying final_verified).
Defined.
End Witnesses.
