(* ===== verification/CatalogueDemo.v ===== *)
(** * A capture on a scratch database

    A database with savepoints in memory that holds the restored catalogue of
    [TransitionDemo.v]: the capture returns the comparison that the transition
    there retains, and the guarantees are applied to it. *)

From S2P Require Import Prelude PyText PyUuid PyDate PyTime Json JsonReader JsonRound Effects Contracts Envelopes Catalogue CatalogueCapture TransitionStore TransitionRequest TransitionAuthorization TransitionEvidence TransitionDemo.

#[local] Open Scope Z_scope.

Module Scratch.
Import Example_.

(** The statements that made the temporary views, now and at each savepoint. *)
Record scratch := { views : list pystr; marks : list (list pystr) }.
Definition restored_document : json := Eval vm_compute in match read_json restored_catalogue with Ok v => v | Raise _ => JNull end.
Definition answer (s : statement) : list (list json) :=
  match s with
  | CatalogueRows name => list_of <$> rows restored_document name
  | ParserSettings => [[JInt 160002; text "7001"; text "scratch"; text "pg_catalog"; text "on"]]
  | AclDefault _ => [[default_acl]]
  | ViewDefinition _ => [[text "SELECT (price > 0)"]]
  end.

#[export] Instance scratch_database : Restored := {|
  db := scratch;
  dialect_name := lit "postgresql";
  psycopg_driver := true;
  quote := λ s, 34 :: s ++ [34];
  autocommit := λ w, (Ret false, w);
  in_transaction := λ w, (Ret true, w);
  savepoint := λ w, (Ret tt, {| views := views w; marks := views w :: marks w |});
  rollback := λ w, match marks w with
                   | s :: r => (Ret tt, {| views := s; marks := r |})
                   | [] => (Throw (Exn RuntimeError "no savepoint"), w)
                   end;
  set_local := λ _ _ w, (Ret tt, w);
  query := λ s w, (Ret (answer s), w);
  execute_prepared := λ s w, (Ret tt, {| views := s :: views w; marks := marks w |});
  short_token := λ w, (Ret (repeat 97 32), w);
|}.
#[export] Program Instance scratch_savepoints : Savepoints := {| contents := (views : db → _); saved := (marks : db → _) |}.
Next Obligation. by intros w o w' [= <- <-]. Qed.
Next Obligation. intros w o w' s r H Hs. cbn [rollback scratch_database] in H. rewrite Hs in H. by injection H as <- <-. Qed.
Next Obligation. done. Qed.
Next Obligation. done. Qed.
Next Obligation. by split. Qed.
Next Obligation. by split. Qed.
Next Obligation. by split. Qed.
Next Obligation. by split. Qed.

Definition context : comparison_context := comparison_of request request_key nonce.
Definition opened : scratch := {| views := []; marks := [] |}.
Lemma capture_run : capture_restore_comparison catalogue restored_catalogue context opened = (Ret comparison, opened).
Proof. vm_compute. reflexivity. Qed.
End Scratch.

Module Witnesses.
Import Example_ Scratch.

Lemma comparison_sound_witness :
  verify_restore_comparison comparison catalogue restored_catalogue context = Ok tt ∧
  ∃ value source restored,
    read_json comparison = Ok value ∧ _catalogue catalogue = Ok source ∧ _catalogue restored_catalogue = Ok restored ∧
    dot value "request_digest" = JStr request_key ∧ dot value "host_nonce" = JStr nonce ∧
    dot value "source_catalogue_digest" = JStr (_digest catalogue) ∧
    dot value "restored_catalogue_digest" = JStr (_digest restored_catalogue) ∧
    dot value "restored_catalogue_after_digest" = JStr (_digest restored_catalogue) ∧
    (str_of (dot (dot value "parser") "cluster_system_identifier"), str_of (dot (dot value "parser") "database")) ≠
      (expected_source_cluster context, expected_source_database context) ∧
    (∀ name, name ∈ CATALOGUE_QUERIES → name ∉ ["constraints"; "relations"]%string →
             py_eq (dot source name) (dot restored name) = true) ∧
    matched relation_key (same_relation value) (rows source "relations") (rows restored "relations") ∧
    matched constraint_key (same_constraint value) (rows source "constraints") (rows restored "constraints").
Proof.
  assert (H : verify_restore_comparison comparison catalogue restored_catalogue context = Ok tt) by (vm_compute; reflexivity).
  split; [exact H|]. exact (comparison_sound comparison catalogue restored_catalogue context H).
Defined.

Lemma capture_sound_witness :
  views opened = views opened ∧ marks opened = marks opened ∧
  ∀ proof, Ret comparison = @Ret exn bytes proof →
    verify_restore_comparison proof catalogue restored_catalogue context = Ok tt ∧
    ∃ u u' : db, measure_catalogue u = (Ret restored_catalogue, u') ∧ views u = views opened.
Proof.
  exact (capture_sound catalogue restored_catalogue context opened (Ret comparison) opened capture_run ltac:(discriminate)).
Defined.
End Witnesses.
