(* ===== verification/Framing.v ===== *)
(** * Framed documents over pipes

    [deployment/gate0_framing.py]: JSON documents, each after its length in four
    bytes, over a pair of descriptors that never block, under one deadline and
    budgets of frames and bytes.  The system calls are the class [Stdio]; what a
    pipe does is [Pipes], a clock that moves is [Ticking], and a peer and a host
    that keep up are [Prompt]. *)

From S2P Require Import Prelude PyText PyUuid PyDate PyTime Json JsonReader JsonRound Effects Contracts.

#[local] Open Scope Z_scope.

(** ** Documents *)

Definition refused : exn := Exn ServiceRefused "gate0_service_refused".

(** [allow_nan=False], and the digits [int] writes. *)
Fixpoint compliant (j : json) : bool :=
  match j with
  | JInt n => bool_decide (Z.abs n < INT_LIMIT)
  | JFloat r => bool_decide (r ∉ [lit "nan"; lit "inf"; lit "-inf"])
  | JArr l => forallb compliant l
  | JObj kvs => forallb (λ kv, compliant kv.2) kvs
  | _ => true
  end.
Definition canonical (document : json) : res bytes :=
  ensure (compliant document) (Exn ValueError "");; Ok (dumps_compact document).

Definition MAX_BODY : Z := 256 * 1024.
Definition MAX_BYTES : Z := 2 * 1024 * 1024.

(** Duplicate keys, [NaN] and [Infinity] are refused by the reader. *)
Definition strict_object `{Floats} (encoded : bytes) (maximum : Z) : res dict :=
  ensure ((0 <? Z.of_nat (length encoded)) && (Z.of_nat (length encoded) <=? maximum)) refused;;
  match loads encoded with Some (JObj result) => Ok result | _ => Raise refused end.

(** [struct.pack("!I", n)] and [struct.unpack("!I", s)]. *)
Definition pack_I (n : Z) : bytes := [n / 16777216 mod 256; n / 65536 mod 256; n / 256 mod 256; n mod 256].
Definition unpack_I (s : bytes) : Z := foldl (λ n c, n * 256 + c) 0 s.

(** ** The channel *)

(** A time stamp of the monotonic clock in nanoseconds; [deadline] is a float. *)
Inductive seconds := Finite (t : Z) | NonFinite.
Definition NANOSECONDS : Z := 1000000000.

Module FramedChannel.
Record t := Make {
  input_fd : Z; output_fd : Z; deadline : Z; maximum_frames : Z;
  _received : Z; _sent : Z; _input_bytes : Z; _output_bytes : Z }.

Definition took (c : t) (size : Z) : t :=
  Make (input_fd c) (output_fd c) (deadline c) (maximum_frames c)
    (_received c + 1) (_sent c) (_input_bytes c + size) (_output_bytes c).
Definition gave (c : t) (size : Z) : t :=
  Make (input_fd c) (output_fd c) (deadline c) (maximum_frames c)
    (_received c) (_sent c + 1) (_input_bytes c) (_output_bytes c + size).
End FramedChannel.
Import FramedChannel.

(** The system calls: [None] is a [BlockingIOError], and [select] answers
    whether the descriptor it was given is in its list. *)
Class Stdio (W : Type) := {
  monotonic : W → Z * W;
  isatty : Z → W → bool * W;
  set_blocking : Z → bool → W → res unit * W;
  select : Z → bool → Z → W → res bool * W;
  os_read : Z → Z → W → res (option bytes) * W;
  os_write : Z → bytes → W → res (option Z) * W;
}.

Section framing.
Context {W : Type} `{STD : Stdio W} `{FL : Floats}.

(** Methods run on the channel, which is mutated, and the world. *)
Abbreviation state := (FramedChannel.t * W)%type.
#[local] Abbreviation proc := (proc state exn).

Definition self : proc FramedChannel.t := λ s, (Ret s.1, s).
Definition update (f : FramedChannel.t → FramedChannel.t) : proc unit := λ s, (Ret tt, (f s.1, s.2)).
Definition ask {A} (f : W → A * W) : proc A := λ s, let '(a, w) := f s.2 in (Ret a, (s.1, w)).
Definition call {A} (f : W → res A * W) : proc A := λ s,
  match f s.2 with (Ok a, w) => (Ret a, (s.1, w)) | (Raise e, w) => (Throw e, (s.1, w)) end.
Definition settle {A} (m : res A) : proc A := call (λ w, (m, w)).
Definition insist (b : bool) : proc unit := Effects.require b refused.

(** [FramedChannel(input_fd, output_fd, deadline=..., maximum_frames=...)]. *)
Definition init (input_fd output_fd : Z) (deadline : seconds) (maximum_frames : Z)
    : Effects.proc W exn FramedChannel.t := λ w,
  match deadline with
  | NonFinite => (Throw refused, w)
  | Finite deadline =>
      let '(now, w) := monotonic w in
      if (0 <? deadline - now) && (deadline - now <=? 600 * NANOSECONDS) &&
         (1 <=? maximum_frames) && (maximum_frames <=? 16) then
        let '(terminal, w) := isatty input_fd w in
        let '(terminal, w) := if terminal : bool then (true, w) else isatty output_fd w in
        if terminal then (Throw refused, w) else
        match set_blocking input_fd false w with
        | (Raise e, w) => (Throw e, w)
        | (Ok _, w) =>
            match set_blocking output_fd false w with
            | (Raise e, w) => (Throw e, w)
            | (Ok _, w) => (Ret (Make input_fd output_fd deadline maximum_frames 0 0 0 0), w)
            end
        end
      else (Throw refused, w)
  end.

(** The loops of the channel run for as many turns as there are. *)
Context (turns : nat).

Definition require_open : proc unit :=
  c ← self; now ← ask monotonic; insist (now <? deadline c).

Definition _wait (fd : Z) (write : bool) : proc unit :=
  require_open;;
  c ← self; now ← ask monotonic;
  let timeout := deadline c - now in
  insist (0 <? timeout);;
  ready ← call (select fd write timeout);
  insist ready;;
  require_open.

Fixpoint read_from (fuel : nat) (size : Z) (allow_eof : bool) (result : bytes) : proc (option bytes) :=
  if Z.of_nat (length result) <? size then
    match fuel with
    | O => λ s, (Diverge, s)
    | S fuel =>
        c ← self;
        _wait (input_fd c) false;;
        chunk ← call (os_read (input_fd c) (Z.min (size - Z.of_nat (length result)) 65536));
        match chunk with
        | None => read_from fuel size allow_eof result
        | Some [] => if allow_eof && bool_decide (result = []) then mret None else throw refused
        | Some chunk => read_from fuel size allow_eof (result ++ chunk)
        end
    end
  else require_open;; mret (Some result).
Definition _read (size : Z) (allow_eof : bool) : proc (option bytes) := read_from turns size allow_eof [].

Definition receive (allow_eof : bool) : proc (option dict) :=
  c ← self;
  insist (_received c <? maximum_frames c);;
  header ← _read 4 allow_eof;
  match header with
  | None => mret None
  | Some header =>
      let size := unpack_I header in
      insist ((0 <? size) && (size <=? MAX_BODY) && (_input_bytes c + size <=? MAX_BYTES));;
      update (λ c, took c size);;
      body ← _read size false;
      match body with
      | None => throw refused
      | Some body => document ← settle (strict_object body MAX_BODY); mret (Some document)
      end
  end.

Fixpoint write_from (fuel : nat) (remaining : bytes) : proc unit :=
  match remaining, fuel with
  | [], _ => mret tt
  | _, O => λ s, (Diverge, s)
  | _, S fuel =>
      c ← self;
      _wait (output_fd c) true;;
      written ← call (os_write (output_fd c) (take 512 remaining));
      match written with
      | None => write_from fuel remaining
      | Some written => insist (0 <? written);; write_from fuel (drop (Z.to_nat written) remaining)
      end
  end.

Definition send (document : dict) : proc unit :=
  require_open;;
  body ← settle (canonical (JObj document));
  let size := Z.of_nat (length body) in
  c ← self;
  insist ((0 <? size) && (size <=? MAX_BODY) && (_sent c <? maximum_frames c) &&
          (_output_bytes c + size <=? MAX_BYTES));;
  update (λ c, gave c size);;
  write_from turns (pack_I size ++ body);;
  require_open.

(** ** Pipes *)

(** What a descriptor has still to give, and what it has been given. *)
Context (incoming outgoing : Z → W → bytes).

Definition same (w w' : W) : Prop :=
  ∀ fd, incoming fd w' = incoming fd w ∧ outgoing fd w' = outgoing fd w.

(** Reading takes from the front, writing adds at the back, and nothing else
    moves a byte; an empty read is the end of the input. *)
Record Pipes : Prop := {
  p_clock w : same w (monotonic w).2;
  p_select fd write t w : same w (select fd write t w).2;
  p_read fd n w o w' : os_read fd n w = (o, w') → 0 < n →
    (∀ f, outgoing f w' = outgoing f w) ∧
    match o with
    | Ok (Some chunk) => incoming fd w = chunk ++ incoming fd w' ∧ Z.of_nat (length chunk) ≤ n ∧
        (chunk = [] → incoming fd w = [])
    | _ => incoming fd w' = incoming fd w
    end;
  p_write fd data w o w' : os_write fd data w = (o, w') →
    (∀ f, incoming f w' = incoming f w) ∧
    match o with
    | Ok (Some n) => 0 ≤ n ≤ Z.of_nat (length data) ∧ outgoing fd w' = outgoing fd w ++ take (Z.to_nat n) data
    | _ => outgoing fd w' = outgoing fd w
    end;
}.

(** What is observed of a state: the channel, its input and its output. *)
Definition seen (s : state) : FramedChannel.t * bytes * bytes :=
  (s.1, incoming (input_fd s.1) s.2, outgoing (output_fd s.1) s.2).

Section laws.
Context (PIPES : Pipes).

Lemma keeps_self : keeps seen self.
Proof. done. Qed.
Lemma keeps_insist b : keeps seen (insist b).
Proof. apply keeps_require. Qed.
Lemma keeps_clock : keeps seen (ask monotonic).
Proof.
  intros [c w]. unfold ask, seen. simpl. pose proof (p_clock PIPES w) as Hs.
  destruct (monotonic w) as [now w']; simpl in *. destruct (Hs (input_fd c)) as [-> _].
  by destruct (Hs (output_fd c)) as [_ ->].
Qed.
Lemma keeps_select fd write t : keeps seen (call (select fd write t)).
Proof.
  intros [c w]. unfold call, seen. simpl. pose proof (p_select PIPES fd write t w) as Hs.
  destruct (select fd write t w) as [[] w']; simpl in *; destruct (Hs (input_fd c)) as [-> _];
    by destruct (Hs (output_fd c)) as [_ ->].
Qed.
Lemma keeps_settle {A} (m : res A) : keeps seen (settle m).
Proof. intros [c w]. unfold settle, call. by destruct m. Qed.
#[local] Hint Resolve keeps_self keeps_insist keeps_clock keeps_select keeps_settle : keeps.

Lemma keeps_open : keeps seen require_open.
Proof. unfold require_open. frame. Qed.
#[local] Hint Resolve keeps_open : keeps.
Lemma keeps_wait fd write : keeps seen (_wait fd write).
Proof. unfold _wait. frame. Qed.


(** A step that only waits, and what comes after it. *)
Lemma wait_then {A B} (m : proc A) (k : A → proc B) s o s' (P : Prop) :
  keeps seen m → (m ≫= k) s = (o, s') →
  (∀ a v, seen v = seen s → k a v = (o, s') → P) →
  (∀ v, seen v = seen s → s' = v → (match o with Ret _ => False | _ => True end) → P) → P.
Proof.
  intros Hm H Hk Hn. specialize (Hm s). rewrite bind_eq in H. destruct (m s) as [[a|e|] v]; simpl in *;
    [by eapply Hk|injection H as <- <-; by eapply Hn..].
Qed.

(** ** Reading *)

Lemma call_read fd n s o s' :
  call (os_read fd n) s = (o, s') → 0 < n → fd = input_fd s.1 →
  s'.1 = s.1 ∧ outgoing (output_fd s.1) s'.2 = outgoing (output_fd s.1) s.2 ∧
  match o with
  | Ret (Some chunk) => incoming fd s.2 = chunk ++ incoming fd s'.2 ∧ Z.of_nat (length chunk) ≤ n ∧
      (chunk = [] → incoming fd s.2 = [])
  | _ => incoming fd s'.2 = incoming fd s.2
  end.
Proof.
  unfold call. intros H Hn ->. destruct (os_read (input_fd s.1) n s.2) as [r w] eqn:E.
  destruct (p_read PIPES _ _ _ _ _ E Hn) as [Ho Hr]. destruct r as [[]|]; simplify_eq/=; split_and!; first [done|apply Ho|apply Hr].
Qed.

(** What a read has taken from the input when it ends. *)
Definition taken (size : Z) (allow_eof : bool) (result : bytes) (s : state)
    (o : outcome exn (option bytes)) (s' : state) : Prop :=
  s'.1 = s.1 ∧ outgoing (output_fd s.1) s'.2 = outgoing (output_fd s.1) s.2 ∧
  ∃ got, incoming (input_fd s.1) s.2 = got ++ incoming (input_fd s.1) s'.2 ∧
    Z.of_nat (length (result ++ got)) ≤ size ∧
    match o with
    | Ret (Some b) => b = result ++ got ∧ Z.of_nat (length b) = size
    | Ret None => allow_eof = true ∧ result = [] ∧ got = [] ∧ incoming (input_fd s.1) s.2 = []
    | _ => True
    end.

Lemma taken_seen size allow_eof result s v o s' :
  seen v = seen s → taken size allow_eof result v o s' → taken size allow_eof result s o s'.
Proof. unfold seen, taken. intros [= -> Hi Ho]. by rewrite Hi, Ho. Qed.

Lemma taken_nothing size allow_eof result s v o :
  Z.of_nat (length result) ≤ size → seen v = seen s → (match o with Ret _ => False | _ => True end) →
  taken size allow_eof result s o v.
Proof.
  unfold seen. intros Hl [= Hc Hi Ho] Hn. rewrite Hc in Hi, Ho. split_and!; [done..|].
  exists []. rewrite Hi, app_nil_r. split_and!; [done..|]. by destruct o.
Qed.

Lemma bind_self {B} (k : FramedChannel.t → proc B) s : (self ≫= k) s = k s.1 s.
Proof. done. Qed.

Lemma read_from_taken fuel size allow_eof result s o s' :
  read_from fuel size allow_eof result s = (o, s') → Z.of_nat (length result) ≤ size →
  taken size allow_eof result s o s'.
Proof.
  revert result s. induction fuel as [|fuel IH]; intros result s H Hl; simpl in H;
    (destruct (Z.ltb_spec (Z.of_nat (length result)) size) as [Hlt|Hge]; 
     [|eapply wait_then; [apply keeps_open|exact H| |by intros; subst; apply taken_nothing];
       intros [] v Hv [-> ->]%mret_eq; eapply taken_seen; [done|]; split_and!; [done..|];
       exists []; rewrite app_nil_r; split_and!; [done|lia|done|lia]]).
  - simplify_eq. by apply taken_nothing.
  - rewrite bind_self in H.
    eapply wait_then; [apply keeps_wait|exact H| |by intros; subst; apply taken_nothing].
    clear H. intros [] v Hv H. eapply taken_seen; [done|]. assert (s.1 = v.1) as Hc by (by injection Hv).
    rewrite Hc in H. clear Hv Hc s. rename v into s. rewrite bind_eq in H.
    destruct (call _ s) as [o1 v] eqn:Hread. apply call_read in Hread as (Hc & Ho & Hr); [|lia|done].
    destruct o1 as [[[|c chunk]|]|e|]; simplify_eq/=.
    + destruct Hr as (Hr & _ & Hnil). specialize (Hnil eq_refl).
      destruct (allow_eof && bool_decide (result = [])) eqn:He.
      * apply mret_eq in H as [-> ->]. apply andb_true_iff in He as [-> ->%bool_decide_eq_true].
        split_and!; [done..|]. exists []. rewrite Hr. split_and!; first [done|simpl in *; lia|by rewrite <- Hr].
      * apply throw_eq in H as [-> ->]. split_and!; [done..|]. exists []. rewrite Hr, app_nil_r. by split_and!.
    + destruct Hr as (Hr & Hn & _). apply IH in H as (Hc' & Ho' & got & Hi & Hg & Hd);
        [|rewrite length_app; simpl in *; lia].
      split_and!; [congruence|congruence|]. rewrite Hc in Hi, Hd. exists ((c :: chunk) ++ got).
      rewrite <- !app_assoc in *. split; [by rewrite Hr, Hi|split; [done|]].
      destruct o as [[b|]|e|]; [done| |done..]. destruct Hd as (_ & Hd & _). by destruct result.
    + apply IH in H as (Hc' & Ho' & got & Hi & Hg & Hd); [|done].
      split_and!; [congruence|congruence|]. rewrite Hc in Hi, Hd. exists got. by rewrite <- Hr.
    + split_and!; [done..|]. exists []. rewrite Hr, app_nil_r. by split_and!.
    + split_and!; [done..|]. exists []. rewrite Hr, app_nil_r. by split_and!.
Qed.

(** ** Writing *)

Lemma call_write fd data s o s' :
  call (os_write fd data) s = (o, s') → fd = output_fd s.1 →
  s'.1 = s.1 ∧ incoming (input_fd s.1) s'.2 = incoming (input_fd s.1) s.2 ∧
  match o with
  | Ret (Some n) => 0 ≤ n ≤ Z.of_nat (length data) ∧ outgoing fd s'.2 = outgoing fd s.2 ++ take (Z.to_nat n) data
  | _ => outgoing fd s'.2 = outgoing fd s.2
  end.
Proof.
  unfold call. intros H ->. destruct (os_write (output_fd s.1) data s.2) as [r w] eqn:E.
  destruct (p_write PIPES _ _ _ _ _ E) as [Hi Hr].
  destruct r as [[]|]; simplify_eq/=; (split; [done|split; [apply Hi|exact Hr]]).
Qed.

(** What a write has put out when it ends. *)
Definition given (data : bytes) (s : state) (o : outcome exn unit) (s' : state) : Prop :=
  s'.1 = s.1 ∧ incoming (input_fd s.1) s'.2 = incoming (input_fd s.1) s.2 ∧
  ∃ sent rest, data = sent ++ rest ∧ outgoing (output_fd s.1) s'.2 = outgoing (output_fd s.1) s.2 ++ sent ∧
    (returned o → rest = []).

Lemma given_seen data s v o s' : seen v = seen s → given data v o s' → given data s o s'.
Proof. unfold seen, given. intros [= -> Hi Ho]. by rewrite Hi, Ho. Qed.
Lemma given_nothing data s v o : seen v = seen s → (returned o → data = []) → given data s o v.
Proof.
  unfold seen. intros [= Hc Hi Ho] Hn. rewrite Hc in Hi, Ho. split; [done|split; [done|]].
  exists [], data. by rewrite Ho, app_nil_r.
Qed.

Lemma write_from_given fuel data s o s' : write_from fuel data s = (o, s') → given data s o s'.
Proof.
  revert data s. induction fuel as [|fuel IH]; intros [|c data] s H; cbn [write_from] in H;
    try (apply mret_eq in H as [-> ->]; by apply given_nothing).
  - simplify_eq. by apply given_nothing.
  - rewrite bind_self in H.
    eapply wait_then; [apply keeps_wait|exact H| |].
    2: { intros v Hv -> Ho. apply given_nothing; [done|]. by destruct o. }
    clear H. intros [] v Hv H. eapply given_seen; [done|]. assert (s.1 = v.1) as Hc by (by injection Hv).
    rewrite Hc in H. clear Hv Hc s. rename v into s. rewrite bind_eq in H.
    destruct (call _ s) as [o1 v] eqn:Hw. apply call_write in Hw as (Hc & Hi & Ho); [|done].
    assert (∀ o, (returned o → c :: data = []) → outgoing (output_fd s.1) v.2 = outgoing (output_fd s.1) s.2 →
      given (c :: data) s o v) as Hnone.
    { intros o2 Hn Hout. apply given_nothing; [|done]. unfold seen. by rewrite Hc, Hi, Hout. }
    destruct o1 as [[n|]|e|]; [| |by injection H as <- <-; apply Hnone..].
    + destruct Ho as [[Hn0 Hn] Ho]. rewrite bind_eq in H. unfold insist in H.
      destruct (Z.ltb_spec 0 n) as [Hpos|Hzero]; simpl in H.
      2: { injection H as <- <-. apply Hnone; [done|]. by replace n with 0 in Ho by lia; rewrite app_nil_r in Ho. }
      apply IH in H as (Hc' & Hi' & sent & rest & Hd & Ho' & Hr). rewrite Hc in Hi', Ho'.
      split; [congruence|split; [congruence|]].
      exists (take (Z.to_nat n) (take 512 (c :: data)) ++ sent), rest. rewrite Ho', Ho, <- app_assoc, <- Hd.
      split; [|by rewrite app_assoc].
      rewrite take_take. rewrite Nat.min_l; [by rewrite take_drop|].
      rewrite length_take in Hn. lia.
    + apply IH in H as (Hc' & Hi' & sent & rest & Hd & Ho' & Hr). rewrite Hc in Hi', Ho'.
      split; [congruence|split; [congruence|]]. exists sent, rest. by rewrite Ho', Ho.
Qed.

(** ** One frame *)

Definition frame_of (body : bytes) : bytes := pack_I (Z.of_nat (length body)) ++ body.

(** What a call of [send] has done when it ends. *)
Definition sent_one (document : dict) (s : state) (o : outcome exn unit) (s' : state) : Prop :=
  incoming (input_fd s.1) s'.2 = incoming (input_fd s.1) s.2 ∧
  ((s'.1 = s.1 ∧ outgoing (output_fd s.1) s'.2 = outgoing (output_fd s.1) s.2 ∧ ¬ returned o) ∨
   ∃ body sent rest, canonical (JObj document) = Ok body ∧ 0 < Z.of_nat (length body) ≤ MAX_BODY ∧
     _sent s.1 < maximum_frames s.1 ∧ _output_bytes s.1 + Z.of_nat (length body) ≤ MAX_BYTES ∧
     s'.1 = gave s.1 (Z.of_nat (length body)) ∧ frame_of body = sent ++ rest ∧
     outgoing (output_fd s.1) s'.2 = outgoing (output_fd s.1) s.2 ++ sent ∧ (returned o → rest = [])).

Lemma sent_seen document s v o s' : seen v = seen s → sent_one document v o s' → sent_one document s o s'.
Proof. unfold seen, sent_one. intros [= -> Hi Ho]. by rewrite Hi, Ho. Qed.
Lemma sent_nothing document s v o :
  seen v = seen s → (match o with Ret _ => False | _ => True end) → sent_one document s o v.
Proof.
  unfold seen. intros [= Hc Hi Ho] Hn. rewrite Hc in Hi, Ho. split; [done|]. left. split; [done|split; [done|]].
  by destruct o; intros [].
Qed.

Lemma send_sent document s o s' : send document s = (o, s') → sent_one document s o s'.
Proof.
  intros H. unfold send in H.
  eapply wait_then; [apply keeps_open|exact H|clear H|intros v Hv -> Ho; by apply sent_nothing].
  intros [] v Hv H. eapply sent_seen; [done|]. clear s Hv. rename v into s.
  rewrite bind_eq in H. unfold settle, call in H. destruct (canonical (JObj document)) as [body|e] eqn:Hb; simpl in H.
  2: { injection H as <- <-. by apply sent_nothing. }
  rewrite bind_self in H. rewrite bind_eq in H. unfold insist in H. destruct s as [c w]; simpl in H.
  match type of H with context [Effects.require ?b _] => destruct b eqn:Hok end; simpl in H.
  2: { injection H as <- <-. by apply sent_nothing. }
  rewrite !andb_true_iff, !Z.ltb_lt, !Z.leb_le in Hok. destruct Hok as [[[? ?] ?] ?].
  rewrite bind_eq in H. simpl in H. rewrite bind_eq in H.
  destruct (write_from _ _ _) as [o1 v] eqn:Hw. apply write_from_given in Hw as (Hc & Hi & sent & rest & Hd & Ho & Hr).
  simpl in Hc, Hi, Ho. 
  assert (∀ o v', seen v' = seen v → (returned o → rest = []) → sent_one document (c, w) o v') as Hdone.
  { intros o2 v' [= Hc' Hi' Ho'] Hn. rewrite Hc', Hc in *. simpl in Hi', Ho'. split; simpl; [congruence|]. right.
    exists body, sent, rest. rewrite Ho', Ho. split_and!; done. }
  destruct o1 as [[]|e|]; [|injection H as <- <-; by apply Hdone..].
  pose proof (keeps_open v) as Hk. rewrite H in Hk. apply Hdone; [done|]. by intros _; apply Hr.
Qed.

(** What a call of [receive] has done when it ends. *)
Definition received_one (allow_eof : bool) (s : state) (o : outcome exn (option dict)) (s' : state) : Prop :=
  outgoing (output_fd s.1) s'.2 = outgoing (output_fd s.1) s.2 ∧
  ∃ header body, incoming (input_fd s.1) s.2 = header ++ body ++ incoming (input_fd s.1) s'.2 ∧
    (length header ≤ 4)%nat ∧
    ((s'.1 = s.1 ∧ body = [] ∧
        match o with
        | Ret (Some _) => False
        | Ret None => allow_eof = true ∧ header = [] ∧ incoming (input_fd s.1) s.2 = []
        | _ => True
        end) ∨
     (let size := unpack_I header in
      length header = 4%nat ∧ 0 < size ≤ MAX_BODY ∧ _received s.1 < maximum_frames s.1 ∧
      _input_bytes s.1 + size ≤ MAX_BYTES ∧ s'.1 = took s.1 size ∧ Z.of_nat (length body) ≤ size ∧
      match o with
      | Ret (Some document) => Z.of_nat (length body) = size ∧ strict_object body MAX_BODY = Ok document
      | Ret None => False
      | _ => True
      end)).

Lemma receive_received allow_eof s o s' : receive allow_eof s = (o, s') → received_one allow_eof s o s'.
Proof.
  intros H. unfold receive in H. rewrite bind_self in H. rewrite bind_eq in H. unfold insist in H.
  assert (∀ o, (match o with Ret _ => False | _ => True end) → received_one allow_eof s o s) as Hnone.
  { intros o2 Hn. split; [done|]. exists [], []. split; [done|split; [simpl; lia|]]. left.
    split; [done|split; [done|]]. by destruct o2. }
  destruct (Z.ltb_spec (_received s.1) (maximum_frames s.1)) as [Hmax|]; simpl in H;
    [|injection H as <- <-; by apply Hnone].
  rewrite bind_eq in H. destruct (_read 4 allow_eof s) as [o1 v] eqn:Hh.
  apply read_from_taken in Hh as (Hc & Ho & header & Hi & Hl & Hd); [|simpl; lia]. simpl in Hl.
  assert (∀ o, (match o with Ret (Some _) => False | Ret None => allow_eof = true ∧ header = [] ∧ incoming (input_fd s.1) s.2 = [] | _ => True end) →
    received_one allow_eof s o v) as Hhead.
  { intros o2 Hn. split; [done|]. exists header, []. split; [done|split; [lia|]]. by left. }
  destruct o1 as [[h|]|e|]; [| |injection H as <- <-; by apply Hhead..].
  2: { apply mret_eq in H as [-> ->]. apply Hhead. by destruct Hd as (? & _ & ? & ?). }
  destruct Hd as [-> Hl4]. simpl in H, Hl4. rewrite bind_eq in H. unfold insist in H.
  match type of H with context [Effects.require ?b _] => destruct b eqn:Hok end; simpl in H.
  2: { injection H as <- <-. by apply Hhead. }
  rewrite !andb_true_iff, !Z.ltb_lt, !Z.leb_le in Hok. destruct Hok as [[H0 Hsize] Hbytes].
  rewrite bind_eq in H. simpl in H. rewrite bind_eq in H.
  destruct (_read (unpack_I header) false _) as [o2 u] eqn:Hb.
  apply read_from_taken in Hb as (Hc' & Ho' & body & Hi' & Hlb & Hd); [|simpl; lia].
  simpl in Hc', Ho', Hi', Hlb, Hd. rewrite Hc in Ho', Hi', Hc'.
  assert (∀ o, (match o with
      | Ret (Some document) => Z.of_nat (length body) = unpack_I header ∧ strict_object body MAX_BODY = Ok document
      | Ret None => False | _ => True end) → received_one allow_eof s o u) as Hbody.
  { intros o3 Hn. split; [by rewrite Ho'|]. exists header, body. split; [by rewrite Hi, Hi'|]. split; [lia|]. right.
    split_and!; try done; lia. }
  destruct o2 as [[b|]|e|]; [| |injection H as <- <-; by apply Hbody..].
  2: { apply throw_eq in H as [-> ->]. by apply Hbody. }
  destruct Hd as [-> Hlen]. simpl in H, Hlen. rewrite bind_eq in H. unfold settle, call in H.
  destruct (strict_object body MAX_BODY) as [document|e] eqn:Hs; simpl in H; injection H as <- <-; destruct u; by apply Hbody.
Qed.

(** ** A channel in use *)

Inductive op := Send (document : dict) | Receive (allow_eof : bool).
Definition perform (o : op) : proc unit :=
  match o with Send document => send document | Receive allow_eof => receive allow_eof;; mret tt end.
(** One call after another, whatever becomes of each. *)
Definition perform_all (ops : list op) (s : state) : state := foldl (λ s o, (perform o s).2) s ops.

(** Same descriptors, deadline and limit. *)
Definition kin (c d : FramedChannel.t) : Prop :=
  input_fd d = input_fd c ∧ output_fd d = output_fd c ∧ deadline d = deadline c ∧ maximum_frames d = maximum_frames c.
Record within (c : FramedChannel.t) : Prop := {
  w_received : 0 ≤ _received c ≤ maximum_frames c;
  w_sent : 0 ≤ _sent c ≤ maximum_frames c;
  w_input : 0 ≤ _input_bytes c ≤ MAX_BYTES;
  w_output : 0 ≤ _output_bytes c ≤ MAX_BYTES;
}.
Definition fresh (c : FramedChannel.t) : Prop :=
  0 ≤ maximum_frames c ∧ _received c = 0 ∧ _sent c = 0 ∧ _input_bytes c = 0 ∧ _output_bytes c = 0.

(** What a use of the channel has taken and put out. *)
Record used (calls : nat) (s s' : state) : Prop := {
  u_kin : kin s.1 s'.1;
  u_within : within s'.1;
  u_taken : ∃ got, incoming (input_fd s.1) s.2 = got ++ incoming (input_fd s.1) s'.2 ∧
    Z.of_nat (length got) ≤ _input_bytes s'.1 - _input_bytes s.1 + 4 * Z.of_nat calls;
  u_given : ∃ sent, outgoing (output_fd s.1) s'.2 = outgoing (output_fd s.1) s.2 ++ sent ∧
    Z.of_nat (length sent) ≤ _output_bytes s'.1 - _output_bytes s.1 + 4 * (_sent s'.1 - _sent s.1);
}.

Lemma used_none s : within s.1 → used 0 s s.
Proof.
  intros Hs. split; [done|done| |].
  - exists []. split; [done|]. simpl. lia.
  - exists []. rewrite app_nil_r. split; [done|]. simpl. lia.
Qed.

Lemma used_trans m n s t u : used m s t → used n t u → used (m + n) s u.
Proof.
  intros [Hk Hw (g & Hg & Hgl) (p & Hp & Hpl)] [Hk' Hw' (g' & Hg' & Hgl') (p' & Hp' & Hpl')].
  destruct Hk as (Hi & Ho & Hd & Hm), Hk' as (Hi' & Ho' & Hd' & Hm'). rewrite Hi in Hg'. rewrite Ho in Hp'.
  split; [split_and!; congruence|done| |].
  - exists (g ++ g'). rewrite Hg, Hg', app_assoc. split; [done|]. rewrite length_app. lia.
  - exists (p ++ p'). rewrite Hp', Hp, app_assoc. split; [done|]. rewrite length_app. lia.
Qed.

Lemma used_send document s : within s.1 → used 1 s (send document s).2.
Proof.
  intros Hw. destruct (send document s) as [o s'] eqn:E. simpl.
  apply send_sent in E as (Hi & [(Hc & Ho & _)|(body & sent & rest & _ & Hlen & Hmax & Hbytes & Hc & Hf & Ho & _)]).
  - split; rewrite ?Hc; [done|done|exists []; rewrite Hi; split; [done|simpl; lia]|].
    exists []. rewrite Ho, app_nil_r. split; [done|simpl; lia].
  - split; rewrite ?Hc; [done|destruct Hw; split; simpl; lia|exists []; rewrite Hi; split; [done|simpl; lia]|].
    exists sent. split; [done|]. apply (f_equal length) in Hf. unfold frame_of in Hf.
    rewrite !length_app in Hf. simpl in *. lia.
Qed.

Lemma used_receive allow_eof s : within s.1 → used 1 s (receive allow_eof s).2.
Proof.
  intros Hw. destruct (receive allow_eof s) as [o s'] eqn:E. simpl.
  apply receive_received in E as (Ho & header & body & Hi & Hh & [(Hc & -> & _)|(Hl & Hsize & Hmax & Hbytes & Hc & Hb & _)]).
  - split; rewrite ?Hc; [done|done|exists header; split; [done|lia]|].
    exists []. rewrite Ho, app_nil_r. split; [done|simpl; lia].
  - split; rewrite ?Hc; [done|destruct Hw; split; simpl; lia| |].
    + exists (header ++ body). rewrite Hi, app_assoc. split; [done|]. rewrite length_app. simpl. lia.
    + exists []. rewrite Ho, app_nil_r. split; [done|simpl; lia].
Qed.

Lemma perform_receive allow_eof s : (perform (Receive allow_eof) s).2 = (receive allow_eof s).2.
Proof. simpl. rewrite bind_eq. by destruct (receive allow_eof s) as [[] v]. Qed.

Lemma used_all ops s : within s.1 → used (length ops) s (perform_all ops s).
Proof.
  revert s. induction ops as [|o ops IH]; intros s Hw; [by apply used_none|].
  assert (used 1 s (perform o s).2) as H1.
  { destruct o; [by apply used_send|]. rewrite perform_receive. by apply used_receive. }
  eapply (used_trans 1); [exact H1|]. apply IH. apply H1.
Qed.

(** ** A frame on its way *)

Lemma unpack_pack n : 0 ≤ n < 4294967296 → unpack_I (pack_I n) = n.
Proof. unfold unpack_I, pack_I. simpl. intros. Z.to_euclidean_division_equations. lia. Qed.

Lemma receive_frame allow_eof s o s' body document rest :
  receive allow_eof s = (Ret o, s') → incoming (input_fd s.1) s.2 = frame_of body ++ rest →
  0 < Z.of_nat (length body) ≤ MAX_BODY → strict_object body MAX_BODY = Ok document →
  o = Some document ∧ incoming (input_fd s.1) s'.2 = rest ∧ kin s.1 s'.1.
Proof.
  intros H Hs Hlen Hdoc. apply receive_received in H as (_ & header & got & Hi & _ & H).
  destruct H as [(_ & _ & Ho)|(Hl & _ & _ & _ & Hc & _ & Ho)].
  { destruct o; [done|]. destruct Ho as (_ & _ & Ho). by rewrite Hs in Ho. }
  destruct o as [found|]; [|done]. destruct Ho as [Hn Hf]. rewrite Hs in Hi. unfold frame_of in Hi.
  rewrite <- app_assoc in Hi. apply app_inj_1 in Hi as [<- Hi]; [|by rewrite Hl].
  rewrite unpack_pack in Hn by (unfold MAX_BODY in *; lia).
  apply app_inj_1 in Hi as [<- Hi]; [|lia]. rewrite Hdoc in Hf. rewrite Hc. by simplify_eq.
Qed.

Fixpoint receive_many (n : nat) : proc (list (option dict)) :=
  match n with O => mret [] | S n => document ← receive false; documents ← receive_many n; mret (document :: documents) end.

(** The documents that frames carry. *)
Definition carries (body : bytes) (document : dict) : Prop :=
  0 < Z.of_nat (length body) ≤ MAX_BODY ∧ strict_object body MAX_BODY = Ok document.

Lemma receive_frames bodies documents rest s got s' :
  Forall2 carries bodies documents → incoming (input_fd s.1) s.2 = concat (map frame_of bodies) ++ rest →
  receive_many (length bodies) s = (Ret got, s') →
  got = map Some documents ∧ incoming (input_fd s.1) s'.2 = rest ∧ kin s.1 s'.1.
Proof.
  intros Hb. revert s got. induction Hb as [|body document bodies documents [Hl Hd] Hb IH]; intros s got Hi H;
    cbn [map concat length receive_many] in *.
  { apply mret_eq in H as [[= ->] ->]. done. }
  rewrite <- app_assoc in Hi. apply bind_Ret in H as (o & v & Ho & H).
  eapply receive_frame in Ho as (Ho & Hi' & Hk); [|done..]. subst o. apply bind_Ret in H as (more & u & Hm & [[= ->] ->]%mret_eq).
  destruct Hk as (K1 & K2 & K3 & K4). rewrite <- K1 in Hi'. apply IH in Hm as (-> & Hi'' & K); [|done].
  rewrite K1 in Hi''. split_and!; [done|done|]. destruct K as (? & ? & ? & ?). split_and!; congruence.
Qed.

Definition written (document : dict) (body : bytes) : Prop :=
  canonical (JObj document) = Ok body ∧ 0 < Z.of_nat (length body) ≤ MAX_BODY.

Lemma send_all_written documents s s' :
  for_each send documents s = (Ret tt, s') →
  ∃ bodies, Forall2 written documents bodies ∧
    outgoing (output_fd s.1) s'.2 = outgoing (output_fd s.1) s.2 ++ concat (map frame_of bodies) ∧
    (documents ≠ [] → _output_bytes s.1 + Z.of_nat (length (concat bodies)) ≤ MAX_BYTES).
Proof.
  revert s. induction documents as [|document documents IH]; intros s H; simpl in H.
  { apply mret_eq in H as [_ ->]. exists []. by rewrite app_nil_r. }
  apply bind_Ret in H as ([] & v & Hs & H). apply send_sent in Hs as (_ & [(_ & _ & [])|Hs]); [done|].
  destruct Hs as (body & sent & rest & Hb & Hlen & _ & Hbytes & Hc & Hf & Ho & Hr).
  rewrite Hr, app_nil_r in Hf by done. subst sent. apply IH in H as (bodies & Hw & Ho' & Hsum). rewrite Hc in Ho', Hsum. simpl in Ho', Hsum.
  exists (body :: bodies). split; [by constructor|]. simpl. rewrite Ho', Ho, <- app_assoc. split; [done|]. intros _.
  rewrite length_app. destruct documents as [|d documents]; [|specialize (Hsum ltac:(done)); lia].
  inversion Hw; subst. simpl. lia.
Qed.


(** ** A peer and a host that keep up *)

(** For as many calls as are left, the deadline is not near, descriptors are
    ready, and what is there to read is read. *)
Context (keeping_up : nat → W → Prop).
Record Prompt (fd T : Z) : Prop := {
  k_le m n w : (m ≤ n)%nat → keeping_up n w → keeping_up m w;
  k_clock n w : keeping_up (S n) w → (monotonic w).1 < T ∧ keeping_up n (monotonic w).2;
  k_select t n w : keeping_up (S n) w → ∃ w', select fd false t w = (Ok true, w') ∧ keeping_up n w';
  k_read size n w : keeping_up (S n) w → 0 < size →
    ∃ chunk w', os_read fd size w = (Ok (Some chunk), w') ∧ keeping_up n w' ∧ (incoming fd w ≠ [] → chunk ≠ []);
}.

Section prompt.
Context (fd T : Z) (PROMPT : Prompt fd T).

(** The channel of the host that keeps up, with calls left. *)
Definition ready (n : nat) (s : state) : Prop := input_fd s.1 = fd ∧ deadline s.1 = T ∧ keeping_up n s.2.

Lemma ready_le m n s : (m ≤ n)%nat → ready n s → ready m s.
Proof. intros Hle (Hf & Hd & Hk). split_and!; [done..|]. by eapply k_le. Qed.

Lemma open_ready n s : ready (S n) s → ∃ v, require_open s = (Ret tt, v) ∧ v.1 = s.1 ∧ ready n v.
Proof.
  intros (Hf & Hd & Hk). unfold require_open. rewrite bind_self, bind_eq. unfold ask.
  destruct (k_clock _ _ PROMPT _ _ Hk) as [Ht Hk']. destruct (monotonic s.2) as [now w]; simpl in *.
  unfold insist. rewrite Hd. apply Z.ltb_lt in Ht as ->. by exists (s.1, w).
Qed.

Lemma wait_ready n s : ready (4 + n) s → ∃ v, _wait fd false s = (Ret tt, v) ∧ v.1 = s.1 ∧ ready n v.
Proof.
  intros Hr. unfold _wait. destruct (open_ready _ _ Hr) as (s1 & H1 & E1 & Hf & Hd & Hk).
  rewrite bind_eq, H1, bind_self, bind_eq. unfold ask.
  destruct (k_clock _ _ PROMPT _ _ Hk) as [Ht Hk']. destruct (monotonic s1.2) as [now w]; simpl in *.
  unfold insist. rewrite Hd. destruct (Z.ltb_spec 0 (T - now)); [|lia]. simpl. rewrite bind_eq. simpl. rewrite bind_eq.
  destruct (k_select _ _ PROMPT (T - now) _ _ Hk') as (w' & Hs & Hk''). unfold call. simpl. rewrite Hs. rewrite bind_eq. simpl.
  destruct (open_ready n (s1.1, w')) as (v & Hv & Ev & Hr'); [done|]. exists v. rewrite Hv. by rewrite Ev.
Qed.

Lemma keeps_input {A} (m : proc A) s a v : keeps seen m → m s = (a, v) → input_fd s.1 = fd →
  v.1 = s.1 ∧ incoming fd v.2 = incoming fd s.2.
Proof. intros Hk Hm <-. specialize (Hk s). rewrite Hm in Hk. simpl in Hk. injection Hk as Hc Hi _. by rewrite Hc in Hi. Qed.

Lemma call_read_ready size n s :
  ready (S n) s → 0 < size →
  ∃ chunk v, call (os_read fd size) s = (Ret (Some chunk), v) ∧ v.1 = s.1 ∧ ready n v ∧
    incoming fd s.2 = chunk ++ incoming fd v.2 ∧ Z.of_nat (length chunk) ≤ size ∧
    (incoming fd s.2 ≠ [] → chunk ≠ []) ∧ (incoming fd s.2 = [] → chunk = []).
Proof.
  intros (Hf & Hd & Hk) Hs. destruct (k_read _ _ PROMPT _ _ _ Hk Hs) as (chunk & w & Hw & Hk' & Hn).
  destruct (p_read PIPES _ _ _ _ _ Hw Hs) as (_ & Hi & Hl & _).
  exists chunk, (s.1, w). unfold call. rewrite Hw. split_and!; try done.
  intros H0. rewrite H0 in Hi. symmetry in Hi. by apply app_nil in Hi as [? _].
Qed.

Lemma read_from_ready fuel size allow_eof result got rest n s :
  incoming fd s.2 = got ++ rest → Z.of_nat (length (result ++ got)) = size → (length got ≤ fuel)%nat →
  ready (5 * length got + 1 + n) s →
  ∃ v, read_from fuel size allow_eof result s = (Ret (Some (result ++ got)), v) ∧ v.1 = s.1 ∧
    incoming fd v.2 = rest ∧ ready n v.
Proof.
  revert result got s. induction fuel as [|fuel IH]; intros result got s Hi Hl Hg Hr; rewrite length_app in Hl;
    (destruct (Z.ltb_spec (Z.of_nat (length result)) size) as [Hlt|];
    [|assert (got = []) as -> by (apply length_zero_iff_nil; lia);
      destruct (open_ready n s) as (v & Hv & _ & Hr'); [by eapply ready_le; [|exact Hr]; simpl; lia|];
      destruct (keeps_input _ _ _ _ keeps_open Hv) as [Ev Ei]; [by destruct Hr|];
      exists v; rewrite app_nil_r; cbn [read_from]; rewrite (proj2 (Z.ltb_ge _ _)) by done;
      rewrite bind_eq, Hv; split_and!; [done|done|by rewrite Ei|done]]); [lia|].
  cbn [read_from]. rewrite (proj2 (Z.ltb_lt _ _)) by done. rewrite bind_self. pose proof Hr as (Hf & _). rewrite Hf.
  destruct got as [|c got]; [simpl in Hl; lia|].
  destruct (wait_ready (S (5 * length got + 1 + n)) s) as (v & Hv & _ & Hr').
  { eapply ready_le; [|exact Hr]. simpl. lia. }
  destruct (keeps_input _ _ _ _ (keeps_wait _ _) Hv) as [Ev Ei]; [done|]. rewrite bind_eq, Hv, bind_eq.
  destruct (call_read_ready (Z.min (size - Z.of_nat (length result)) 65536) _ v Hr' ltac:(lia))
    as (chunk & u & Hu & Eu & Hr'' & Hin & Hlc & Hn & _).
  rewrite Hu. rewrite Ei, Hi in Hin, Hn. specialize (Hn ltac:(done)).
  assert (c :: got = take (length chunk) (c :: got) ++ drop (length chunk) (c :: got)) as Hsplit by (by rewrite take_drop).
  assert (length chunk ≤ length (c :: got))%nat as Hle by lia.
  assert (take (length chunk) (c :: got) = chunk) as Ht.
  { rewrite <- (take_app_le (c :: got) rest) by done. by rewrite Hin, take_app_length. }
  rewrite Ht in Hsplit. destruct chunk as [|d chunk]; [done|]. rewrite Hsplit, app_assoc.
  rewrite Hsplit, <- app_assoc in Hin. apply app_inv_head in Hin. symmetry in Hin.
  destruct (IH (result ++ d :: chunk) (drop (length (d :: chunk)) (c :: got)) u) as (x & Hx & Ex & Hix & Hrx);
    [done| | | |].
  - rewrite !length_app, length_drop. lia.
  - rewrite length_drop. simpl in *. lia.
  - eapply ready_le; [|exact Hr'']. rewrite length_drop. simpl in *. lia.
  - exists x. split_and!; [done|congruence|done|done].
Qed.

(** *** Whole frames *)

Lemma receive_ready allow_eof body document rest n s :
  carries body document → incoming fd s.2 = frame_of body ++ rest →
  _received s.1 < maximum_frames s.1 → _input_bytes s.1 + Z.of_nat (length body) ≤ MAX_BYTES →
  (length (frame_of body) ≤ turns)%nat →
  ready (5 * length (frame_of body) + 2 + n) s →
  ∃ v, receive allow_eof s = (Ret (Some document), v) ∧ v.1 = took s.1 (Z.of_nat (length body)) ∧
    incoming fd v.2 = rest ∧ ready n v.
Proof.
  intros [Hl Hd] Hi Hmax Hbytes Ht Hr. unfold frame_of in Ht, Hr, Hi. rewrite length_app in Ht, Hr. rewrite <- app_assoc in Hi.
  unfold receive. rewrite bind_self, bind_eq. unfold insist. rewrite (proj2 (Z.ltb_lt _ _)) by done. simpl. rewrite bind_eq.
  unfold _read at 1.
  destruct (read_from_ready turns 4 allow_eof [] _ _ (5 * length body + 1 + n) s Hi) as (v & Hv & Ev & Hiv & Hrv);
    [done|simpl in *; lia|eapply ready_le; [|exact Hr]; simpl; lia|].
  rewrite Hv. simpl. rewrite unpack_pack by (unfold MAX_BODY in *; lia). rewrite bind_eq. unfold insist.
  rewrite (proj2 (Z.ltb_lt _ _)), !(proj2 (Z.leb_le _ _)) by lia. simpl. rewrite bind_eq. simpl. rewrite bind_eq.
  unfold _read. destruct Hrv as (Hf & Hdl & Hk).
  destruct (read_from_ready turns (Z.of_nat (length body)) false [] body rest n (took v.1 (Z.of_nat (length body)), v.2))
    as (u & Hu & Eu & Hiu & Hru); [done|done|simpl in Ht; lia|done|].
  rewrite Hu. unfold settle. rewrite bind_eq. unfold call. simpl. rewrite Hd. exists u. rewrite Ev in Eu.
  split_and!; [by destruct u|done|done|done].
Qed.

Lemma end_ready n s :
  incoming fd s.2 = [] → _received s.1 < maximum_frames s.1 → (0 < turns)%nat → ready (5 + n) s →
  ∃ v, receive true s = (Ret None, v).
Proof.
  intros Hi Hmax Ht Hr. unfold receive. rewrite bind_self, bind_eq. unfold insist.
  rewrite (proj2 (Z.ltb_lt _ _)) by done. simpl. rewrite bind_eq. unfold _read.
  destruct turns as [|fuel]; [lia|]. cbn [read_from]. simpl.
  rewrite bind_self. pose proof Hr as (Hf & _). rewrite Hf.
  destruct (wait_ready (1 + n) s Hr) as (v & Hv & _ & Hr'). destruct (keeps_input _ _ _ _ (keeps_wait _ _) Hv) as [Ev Ei]; [done|].
  rewrite bind_eq, Hv, bind_eq. destruct (call_read_ready 4 _ v Hr' ltac:(lia)) as (chunk & u & Hu & _ & _ & _ & _ & _ & Hn).
  change ((4 - Z.of_nat 0) `min` 65536) with 4. rewrite Hu, Hn by (by rewrite Ei). by exists u.
Qed.

Lemma receive_many_ready bodies documents rest n s :
  Forall2 carries bodies documents → incoming fd s.2 = concat (map frame_of bodies) ++ rest →
  _received s.1 + Z.of_nat (length bodies) ≤ maximum_frames s.1 →
  _input_bytes s.1 + Z.of_nat (length (concat bodies)) ≤ MAX_BYTES →
  (length (concat (map frame_of bodies)) ≤ turns)%nat →
  ready (5 * length (concat (map frame_of bodies)) + 2 * length bodies + n) s →
  ∃ v, receive_many (length bodies) s = (Ret (map Some documents), v) ∧ incoming fd v.2 = rest ∧ ready n v ∧
    maximum_frames v.1 = maximum_frames s.1 ∧ _received v.1 = _received s.1 + Z.of_nat (length bodies).
Proof.
  intros Hb. revert s. induction Hb as [|body document bodies documents Hc Hb IH]; intros s Hi Hmax Hbytes Ht Hr;
    cbn [map concat length receive_many] in *.
  { exists s. split_and!; try done. lia. }
  rewrite <- app_assoc in Hi. rewrite length_app in Hbytes, Ht, Hr.
  destruct (receive_ready false body document _ (5 * length (concat (map frame_of bodies)) + 2 * length bodies + n) s Hc Hi)
    as (v & Hv & Ev & Hiv & Hrv); [lia|lia|lia|eapply ready_le; [|exact Hr]; lia|].
  rewrite bind_eq, Hv, bind_eq.
  destruct (IH v) as (u & Hu & Hiu & Hru & Hm & Hn); rewrite ?Ev; simpl; [done|lia|lia|lia|done|].
  rewrite Hu. exists u. rewrite Hm, Hn, Ev. simpl. split_and!; try done. lia.
Qed.
End prompt.

(** ** Time *)

(** The clock shows the time, which passes with every call and takes at least a
    nanosecond for a [select]. *)
Context (time : W → Z).
Record Ticking : Prop := {
  t_now w : (monotonic w).1 = time w;
  t_clock w : time w ≤ time (monotonic w).2;
  t_select fd write t w : time w < time (select fd write t w).2;
  t_read fd n w : time w ≤ time (os_read fd n w).2;
  t_write fd data w : time w ≤ time (os_write fd data w).2;
  t_tty fd w : time w ≤ time (isatty fd w).2;
  t_blocking fd b w : time w ≤ time (set_blocking fd b w).2;
}.

Section ticking.
Context (TICKING : Ticking).

(** [m] ends later, with the same deadline. *)
Definition onward {A} (m : proc A) : Prop :=
  ∀ s, time s.2 ≤ time (m s).2.2 ∧ deadline (m s).2.1 = deadline s.1.

Lemma onward_ret {A} (a : A) : onward (mret a).
Proof. intros s. simpl. split; [lia|done]. Qed.
Lemma onward_throw {A} e : onward (throw (A := A) e).
Proof. intros s. simpl. split; [lia|done]. Qed.
Lemma onward_diverge {A} : onward (A := A) (λ s, (Diverge, s)).
Proof. intros s. simpl. split; [lia|done]. Qed.
Lemma onward_bind {A B} (m : proc A) (f : A → proc B) : onward m → (∀ a, onward (f a)) → onward (m ≫= f).
Proof.
  intros Hm Hf s. rewrite bind_eq. destruct (Hm s) as [Ht Hd]. destruct (m s) as [[a|e|] v]; [|done..].
  simpl in *. destruct (Hf a v) as [Ht' Hd']. split; [lia|congruence].
Qed.
Lemma onward_if {A} (b : bool) (m n : proc A) : onward m → onward n → onward (if b then m else n).
Proof. by destruct b. Qed.
Lemma onward_self : onward self.
Proof. intros s. simpl. split; [lia|done]. Qed.
Lemma onward_update f : (∀ c, deadline (f c) = deadline c) → onward (update f).
Proof. intros Hf s. simpl. split; [lia|apply Hf]. Qed.
Lemma onward_insist b : onward (insist b).
Proof. destruct b; [apply onward_ret|apply onward_throw]. Qed.
Lemma onward_settle {A} (m : res A) : onward (settle m).
Proof. intros s. unfold settle, call. destruct m; simpl; (split; [lia|done]). Qed.
Lemma onward_clock : onward (ask monotonic).
Proof.
  intros s. unfold ask. pose proof (t_clock TICKING s.2). destruct (monotonic s.2). simpl in *. by split.
Qed.
Lemma onward_call {A} (f : W → res A * W) : (∀ w, time w ≤ time (f w).2) → onward (call f).
Proof. intros Hf s. unfold call. specialize (Hf s.2). destruct (f s.2) as [[] w]; simpl in *; by split. Qed.
Lemma onward_select fd write t : onward (call (select fd write t)).
Proof. apply onward_call. intros w. pose proof (t_select TICKING fd write t w). lia. Qed.
Lemma onward_read fd n : onward (call (os_read fd n)).
Proof. apply onward_call, TICKING. Qed.
Lemma onward_write fd data : onward (call (os_write fd data)).
Proof. apply onward_call, TICKING. Qed.

Create HintDb onward.
#[local] Hint Resolve onward_ret onward_throw onward_diverge onward_bind onward_if onward_self onward_insist
  onward_settle onward_clock onward_select onward_read onward_write : onward.
#[local] Hint Extern 5 (∀ _, onward _) => intros ? : onward.
#[local] Hint Extern 6 (onward (update _)) => apply onward_update; intros ?; reflexivity : onward.

Lemma onward_open : onward require_open.
Proof. unfold require_open. auto with onward nocore. Qed.
#[local] Hint Resolve onward_open : onward.
Lemma onward_wait fd write : onward (_wait fd write).
Proof. unfold _wait. cbv zeta. auto 12 with onward nocore. Qed.
#[local] Hint Resolve onward_wait : onward.

Lemma onward_read_from fuel size allow_eof result : onward (read_from fuel size allow_eof result).
Proof.
  revert result. induction fuel as [|fuel IH]; intros result; simpl; case_match; auto 12 with onward nocore.
  repeat (apply onward_bind; [auto with onward nocore|intros ?]). repeat case_match; auto with onward nocore.
Qed.
Lemma onward_write_from fuel data : onward (write_from fuel data).
Proof.
  revert data. induction fuel as [|fuel IH]; intros [|c data]; cbn [write_from]; auto with onward nocore.
  repeat (apply onward_bind; [auto with onward nocore|intros ?]). case_match; auto with onward nocore.
Qed.

(** A wait that is over was begun before the deadline and took time. *)
Lemma open_in_time s v : require_open s = (Ret tt, v) → time s.2 < deadline s.1.
Proof.
  unfold require_open. rewrite bind_self, bind_eq. unfold ask. pose proof (t_now TICKING s.2) as Hn.
  destruct (monotonic s.2) as [now w]; simpl in *. unfold insist. subst now.
  destruct (Z.ltb_spec (time s.2) (deadline s.1)); [done|]. intros [? _]%throw_eq. done.
Qed.

Lemma select_later fd write t s o v : call (select fd write t) s = (o, v) → time s.2 < time v.2.
Proof.
  unfold call. pose proof (t_select TICKING fd write t s.2). destruct (select fd write t s.2) as [[] w]; simpl in *;
    intros [= <- <-]; done.
Qed.

Lemma wait_in_time fd write s v :
  _wait fd write s = (Ret tt, v) → time s.2 < deadline s.1 ∧ time s.2 < time v.2 ∧ deadline v.1 = deadline s.1.
Proof.
  intros H. pose proof (onward_wait fd write s) as [_ Hd]. rewrite H in Hd. unfold _wait in H.
  apply bind_Ret in H as ([] & s1 & H1 & H). pose proof (onward_open s) as [T1 _]. rewrite H1 in T1.
  apply open_in_time in H1. rewrite bind_self in H.
  apply bind_Ret in H as (now & s2 & H2 & H). pose proof (onward_clock s1) as [T2 _]. rewrite H2 in T2.
  apply bind_Ret in H as ([] & s3 & [_ ->]%require_Ret & H).
  apply bind_Ret in H as (ready & s4 & H4%select_later & H).
  apply bind_Ret in H as ([] & s5 & [_ ->]%require_Ret & H).
  pose proof (onward_open s4) as [T5 _]. rewrite H in T5. simpl in *. split_and!; [done|lia|done].
Qed.

(** *** Nothing waits for ever *)

Lemma ends_call {A} (f : W → res A * W) : ends (call f).
Proof. intros s. unfold call. by destruct (f s.2) as [[] w]. Qed.
Lemma ends_ask {A} (f : W → A * W) : ends (ask f).
Proof. intros s. unfold ask. by destruct (f s.2). Qed.
Lemma ends_self : ends self.
Proof. done. Qed.
#[local] Hint Resolve ends_call ends_ask ends_self : ends.
Lemma ends_open : ends require_open.
Proof. unfold require_open, insist. ending. Qed.
#[local] Hint Resolve ends_open : ends.
Lemma ends_wait fd write : ends (_wait fd write).
Proof. unfold _wait, insist. ending. Qed.

(** There are turns until the deadline. *)
Definition enough (fuel : nat) (s : state) : Prop := (0 < fuel)%nat ∧ deadline s.1 - time s.2 < Z.of_nat fuel.

Lemma enough_onward {A} fuel (m : proc A) s : onward m → enough fuel s → enough fuel (m s).2.
Proof. intros Hm [Hf He]. destruct (Hm s). split; [done|lia]. Qed.

(** After a wait and one more step there are turns for the next wait. *)
Lemma turn_ends {A B} fuel fd write (m : proc A) (k : A → proc B) s :
  enough (S fuel) s → onward m → ends m → (∀ a v, enough fuel v → (k a v).1 ≠ Diverge) →
  ((_wait fd write;; m ≫= k) s).1 ≠ Diverge.
Proof.
  intros [_ He] Hm Hn Hk. rewrite bind_eq. pose proof (ends_wait fd write s) as Hw.
  destruct (_wait fd write s) as [[[]|e|] v] eqn:E; [|done..]. apply wait_in_time in E as (H1 & H2 & H3).
  rewrite bind_eq. destruct (Hm v). pose proof (Hn v). destruct (m v) as [[a|e|] u]; [|done..]. simpl in *.
  apply Hk. split; simpl; lia.
Qed.

Lemma read_from_ends fuel size allow_eof result s : enough fuel s → (read_from fuel size allow_eof result s).1 ≠ Diverge.
Proof.
  revert result s. induction fuel as [|fuel IH]; intros result s He; [destruct He; lia|]. cbn [read_from].
  assert (ends (require_open;; mret (Some result))) as Hover by ending.
  case_match; [|apply Hover].
  rewrite bind_self. apply (turn_ends fuel); [done|auto with onward nocore|apply ends_call|].
  intros [[|c chunk]|] v Hv; [case_match; done|by apply IH..].
Qed.

Lemma write_from_ends fuel data s : enough fuel s → (write_from fuel data s).1 ≠ Diverge.
Proof.
  revert data s. induction fuel as [|fuel IH]; intros data s He; [destruct He; lia|].
  destruct data as [|c data]; cbn [write_from]; [done|].
  rewrite bind_self. apply (turn_ends fuel); [done|auto with onward nocore|apply ends_call|].
  intros [n|] v Hv; [|by apply IH]. rewrite bind_eq. unfold insist. destruct (0 <? n); [|done]. by apply IH.
Qed.

Lemma send_ends document s : enough turns s → (send document s).1 ≠ Diverge.
Proof.
  intros He. unfold send. rewrite bind_eq. pose proof (ends_open s). pose proof (enough_onward _ _ s onward_open He) as H1.
  destruct (require_open s) as [[[]|e|] s1]; [|done..]. simpl in H1. clear He.
  unfold settle. rewrite bind_eq. unfold call. destruct (canonical (JObj document)) as [body|e]; [|done]. simpl.
  rewrite bind_self, bind_eq. unfold insist.
  match goal with |- context [Effects.require ?b _] => destruct b end; [|done].
  simpl. rewrite bind_eq. simpl. rewrite bind_eq.
  match goal with |- context [write_from turns ?d ?v] => pose proof (write_from_ends turns d v H1) as Hw end.
  destruct (write_from turns _ _) as [[[]|e|] v]; [|done..]. apply ends_open.
Qed.

Lemma receive_ends allow_eof s : enough turns s → (receive allow_eof s).1 ≠ Diverge.
Proof.
  intros He. unfold receive. rewrite bind_self, bind_eq. unfold insist.
  destruct (_received s.1 <? maximum_frames s.1); [|done]. simpl. rewrite bind_eq.
  pose proof (read_from_ends turns 4 allow_eof [] s He) as Hr.
  pose proof (enough_onward _ _ s (onward_read_from turns 4 allow_eof []) He) as H1.
  unfold _read at 1. destruct (read_from turns 4 allow_eof [] s) as [[[h|]|e|] v]; [|done..]. simpl in H1.
  rewrite bind_eq. unfold insist.
  match goal with |- context [Effects.require ?b _] => destruct b end; [|done].
  simpl. rewrite bind_eq. simpl. rewrite bind_eq.
  match goal with |- context [_read ?n false ?u] => pose proof (read_from_ends turns n false [] u H1) as Hb end.
  unfold _read. destruct (read_from turns _ false [] _) as [[[b|]|e|] u]; [|done..].
  unfold settle. rewrite bind_eq. unfold call. by destruct (strict_object b MAX_BODY).
Qed.

Lemma perform_ends o s : enough turns s → (perform o s).1 ≠ Diverge.
Proof.
  intros He. destruct o as [document|allow_eof]; simpl; [by apply send_ends|].
  rewrite bind_eq. pose proof (receive_ends allow_eof s He). by destruct (receive allow_eof s) as [[] v].
Qed.

Lemma onward_send document : onward (send document).
Proof.
  unfold send. cbv zeta. repeat (apply onward_bind; [auto using onward_write_from with onward nocore|intros ?]).
  auto with onward nocore.
Qed.
Lemma onward_receive allow_eof : onward (receive allow_eof).
Proof.
  unfold receive, _read. cbv zeta. pose proof onward_read_from.
  repeat first [apply onward_bind; [auto with onward nocore|intros ?] | case_match | progress auto with onward nocore].
Qed.
Lemma enough_all ops s : enough turns s → enough turns (perform_all ops s).
Proof.
  revert s. induction ops as [|o ops IH]; intros s He; [done|]. simpl. apply IH.
  destruct o as [document|allow_eof].
  - by apply (enough_onward _ (send document)); [apply onward_send|].
  - rewrite perform_receive. by apply enough_onward; [apply onward_receive|].
Qed.

(** What a channel is made with. *)
Lemma init_made i o T m w c w' :
  init i o T m w = (Ret c, w') →
  fresh c ∧ maximum_frames c ≤ 16 ∧ deadline c - time w' ≤ 600 * NANOSECONDS.
Proof.
  unfold init. destruct T as [T|]; [|done]. pose proof (t_now TICKING w). pose proof (t_clock TICKING w).
  destruct (monotonic w) as [now w1]; simpl in *. case_match eqn:Hok; [|done].
  rewrite !andb_true_iff, !Z.ltb_lt, !Z.leb_le in Hok.
  pose proof (t_tty TICKING i w1). destruct (isatty i w1) as [terminal w2]; simpl in *.
  assert (time w2 ≤ time (if terminal then (true, w2) else isatty o w2).2) as H3 by (destruct terminal; [simpl; lia|apply TICKING]).
  destruct (if terminal then (true, w2) else isatty o w2) as [[] w3]; [done|]. simpl in H3.
  pose proof (t_blocking TICKING i false w3). destruct (set_blocking i false w3) as [[] w4]; [|done]. simpl in *.
  pose proof (t_blocking TICKING o false w4). destruct (set_blocking o false w4) as [[] w5]; [|done]. simpl in *.
  intros [= <- <-]. unfold fresh; simpl. lia.
Qed.
End ticking.
End laws.

(** C19: the budgets of a channel: whatever is asked of it, in any order and
    whatever fails, a channel that was made ends every call, and by then has put
    out at most two mebibytes and sixteen headers, has counted within its limits,
    and has taken no more than two mebibytes and a header for every call. *)
Theorem channel_bounds time i o T m w c w' ops :
  Pipes → Ticking time → 600 * NANOSECONDS < Z.of_nat turns → init i o T m w = (Ret c, w') →
  let s := perform_all ops (c, w') in
  (∀ next, (perform next s).1 ≠ Diverge) ∧ kin c s.1 ∧ within s.1 ∧
  (∃ sent, outgoing (output_fd c) s.2 = outgoing (output_fd c) w' ++ sent ∧
     Z.of_nat (length sent) ≤ MAX_BYTES + 4 * 16) ∧
  (∃ got, incoming (input_fd c) w' = got ++ incoming (input_fd c) s.2 ∧
     Z.of_nat (length got) ≤ MAX_BYTES + 4 * Z.of_nat (length ops)).
Proof.
  intros HP HT Hturns Hinit. apply (init_made time) in Hinit as ((Hm & Hr & Hs & Hi & Ho) & H16 & Hd); [|done]. cbv zeta.
  assert (within c) as Hw by (split; rewrite ?Hr, ?Hs, ?Hi, ?Ho; unfold MAX_BYTES; lia).
  destruct (used_all HP ops (c, w') Hw) as [Hk Hw' (got & Hg & Hgl) (sent & Hp & Hpl)]. split.
  { intros next. apply (perform_ends time); [done|]. apply (enough_all time); [done|]. unfold NANOSECONDS in *. split; simpl; lia. }
  split; [done|split; [done|]]. simpl in *. destruct Hw' as [_ [_ H1] [_ H2] [_ H3]].
  split; [exists sent; split; [done|]|exists got; split; [done|]]; [|lia].
  destruct Hk as (_ & _ & _ & Hmax). simpl in Hmax. lia.
Qed.
End framing.

(** ** Two ends of a pipe *)

Section exchange.
Context `{FL : Floats} {V W : Type} `{SV : Stdio V} `{SW : Stdio W}.

(** A document with its keys in order, which is how it arrives. *)
Definition ordered_dict (document : dict) : dict := map (on_value sorted_json) (sort_by key_leb document).

Lemma written_carries document body :
  returns (JObj document) → written document body → carries body (ordered_dict document).
Proof.
  intros Hd [Hb Hl]. split; [done|]. unfold canonical in Hb. inv_res. unfold strict_object.
  rewrite (proj2 (Z.ltb_lt _ _)), (proj2 (Z.leb_le _ _)) by lia. simpl. unfold loads.
  rewrite decode_ascii by (by apply dumps_printable). cbn [mbind option_bind].
  by rewrite loads_returns, sorted_obj by done.
Qed.

Lemma concat_frames_app m n : concat (map frame_of (m ++ n)) = concat (map frame_of m) ++ concat (map frame_of n).
Proof. by rewrite map_app, concat_app. Qed.

(** C18: one end sends documents, the other end has the bytes the first put out
    on its input.  Whatever the pipes do, the first so many documents received
    are the first so many sent, each with its keys in order; and a receiver whose
    host keeps up receives them all and then the end of the input. *)
Theorem exchange_complete (turns turns' : nat)
    (inv outv : Z → V → bytes) (inw outw : Z → W → bytes) (keeping_up : nat → W → Prop)
    documents (c c' d : FramedChannel.t) (v v' : V) (w : W) :
  Pipes inv outv → Pipes inw outw →
  Forall (λ document, returns (JObj document)) documents →
  within c → outv (output_fd c) v = [] →
  for_each (send turns) documents (c, v) = (Ret tt, (c', v')) →
  fresh d → inw (input_fd d) w = outv (output_fd c) v' →
  (∀ n got s, (n ≤ length documents)%nat → receive_many turns' n (d, w) = (Ret got, s) →
     got = map (λ document, Some (ordered_dict document)) (take n documents)) ∧
  (Prompt inw keeping_up (input_fd d) (deadline d) → Z.of_nat (length documents) < maximum_frames d →
   (length (outv (output_fd c) v') < turns')%nat →
   keeping_up (5 * length (outv (output_fd c) v') + 2 * length documents + 5)%nat w →
   ∃ s, (got ← receive_many turns' (length documents); final ← receive turns' true; mret (got, final)) (d, w) =
     (Ret (map (λ document, Some (ordered_dict document)) documents, None), s)).
Proof.
  intros HV HW Hret Hw Hempty Hsend (Hmax & Hr & _ & Hin & _) Hpipe.
  apply (send_all_written turns _ _ HV) in Hsend as (bodies & Hwr & Hout & Hbytes). simpl in Hout, Hbytes.
  rewrite Hempty in Hout. simpl in Hout. rewrite Hout in Hpipe |- *.
  assert (Forall2 carries bodies (map ordered_dict documents)) as Hcar.
  { clear -Hret Hwr. induction Hwr; simpl; [constructor|]. apply Forall_cons in Hret as [? ?].
    constructor; [by apply written_carries|auto]. }
  pose proof (Forall2_length _ _ _ Hwr) as Hlen. split.
  - intros n got s Hn Hgot.
    assert (n = length (take n bodies)) as Hln by (rewrite length_take; lia). rewrite Hln in Hgot.
    apply (receive_frames turns' _ _ HW (take n bodies) (take n (map ordered_dict documents))
             (concat (map frame_of (drop n bodies)))) in Hgot as (-> & _).
    + by rewrite firstn_map, map_map.
    + by apply Forall2_take.
    + simpl. by rewrite Hpipe, <- concat_frames_app, take_drop.
  - intros HP Hcount Hturns Hk. rewrite Hlen in *.
    destruct (receive_many_ready turns' inw outw HW keeping_up _ _ HP bodies _ [] 5 (d, w) Hcar) as (s & Hs & Hi & Hrd & Hm & Hn);
      simpl; [by rewrite app_nil_r|lia| |lia|done|].
    { unfold MAX_BYTES in *. destruct documents; [inversion Hwr; subst; simpl; lia|]. specialize (Hbytes ltac:(done)).
      destruct Hw as [_ _ _ [? _]]. lia. }
    destruct (end_ready turns' inw outw HW keeping_up _ _ HP 0 s) as (u & Hu); [done| |lia|done|].
    { rewrite Hm, Hn. simpl. rewrite Hr. lia. }
    exists u. rewrite bind_eq, Hs, bind_eq, Hu. by rewrite map_map.
Qed.
End exchange.

(** ** A process with two pipes *)

Module Desk.
(** Descriptor 0 gives what is there three bytes at a time; descriptor 1 takes
    five bytes, and blocks now and then.  Every call takes a nanosecond. *)
Record desk := { d_clock : Z; d_in : bytes; d_out : bytes }.
Definition later (w : desk) : desk := {| d_clock := d_clock w + 1; d_in := d_in w; d_out := d_out w |}.

(** How much one write takes, and one read gives. *)
Definition bite (data : bytes) : nat := Nat.min 5 (length data).
Arguments bite : simpl never.
Definition piece (n : Z) : nat := Z.to_nat (Z.min 3 n).
Arguments piece : simpl never.
Lemma piece_range n : 0 < n → 0 < Z.of_nat (piece n) ≤ n.
Proof. unfold piece. lia. Qed.

#[export] Instance desk_stdio : Stdio desk := {
  monotonic w := (d_clock w, later w);
  isatty fd w := (false, w);
  set_blocking fd b w := (Ok tt, w);
  select fd write t w := (Ok true, later w);
  os_read fd n w :=
    if fd =? 0 then
      (Ok (Some (take (piece n) (d_in w))), {| d_clock := d_clock w; d_in := drop (piece n) (d_in w); d_out := d_out w |})
    else (Ok (Some []), w);
  os_write fd data w :=
    if (fd =? 1) && negb (d_clock w mod 3 =? 0) then
      (Ok (Some (Z.of_nat (bite data))),
       {| d_clock := d_clock w; d_in := d_in w; d_out := d_out w ++ take (bite data) data |})
    else (Ok None, w);
}.
#[export] Instance no_floats : Floats := {| float_repr s := s |}.

Definition incoming (fd : Z) (w : desk) : bytes := if fd =? 0 then d_in w else [].
Definition outgoing (fd : Z) (w : desk) : bytes := if fd =? 1 then d_out w else [].

Lemma desk_pipes : Pipes incoming outgoing.
Proof.
  split; [done|done| |].
  - intros fd n w o w' H Hn. pose proof (piece_range n Hn). unfold incoming, outgoing. simpl in H.
    destruct (fd =? 0); simplify_eq/=; [|split_and!; try done; simpl; lia].
    split; [done|]. split_and!; [by rewrite take_drop|rewrite length_take; lia|].
    destruct (d_in w) as [|b l]; [done|]. by destruct (piece n); [lia|].
  - intros fd data w o w' H. unfold incoming, outgoing. simpl in H.
    destruct (Z.eqb_spec fd 1); simpl in H; [|by simplify_eq/=]. destruct (d_clock w mod 3 =? 0); simplify_eq/=; [done|].
    split; [done|]. split; [unfold bite; lia|]. by rewrite Nat2Z.id.
Qed.

Lemma desk_ticking : Ticking d_clock.
Proof.
  split; try done; simpl; intros; try lia; repeat case_match; simpl; lia.
Qed.

(** The deadline is 600 calls away. *)
Definition keeping_up (n : nat) (w : desk) : Prop := d_clock w + Z.of_nat n < 600.
Lemma desk_prompt : Prompt incoming keeping_up 0 600.
Proof.
  unfold keeping_up. split; simpl; intros; [lia|lia|eexists; split; [done|simpl; lia]|].
  pose proof (piece_range size ltac:(done)). do 2 eexists. split; [done|]. simpl. split; [lia|]. unfold incoming. simpl.
  destruct (d_in w); [done|]. intros _. by destruct (piece size); [lia|].
Qed.

Definition documents : list dict :=
  [[(lit "schema", JStr (lit "s")); (lit "id", JInt 7)]; [(lit "ok", JBool true)]].
Definition channel : FramedChannel.t := FramedChannel.Make 0 1 600 16 0 0 0 0.
Definition sender : desk := {| d_clock := 0; d_in := []; d_out := [] |}.
Definition sent : bytes := concat (map frame_of (map (λ d, dumps_compact (JObj d)) documents)).
Definition receiver : desk := {| d_clock := 0; d_in := sent; d_out := [] |}.

Lemma sender_run : for_each (send 100) documents (channel, sender) =
  (Ret tt, (gave (gave channel 21) 11, {| d_clock := 48; d_in := []; d_out := sent |})).
Proof. vm_compute. reflexivity. Qed.

Lemma exchange_complete_witness : ∃ s,
  (got ← receive_many 100 2; final ← receive 100 true; mret (got, final)) (channel, receiver) =
    (Ret ([Some [(lit "id", JInt 7); (lit "schema", JStr (lit "s"))]; Some [(lit "ok", JBool true)]], None), s).
Proof.
  eapply (exchange_complete 100 100 incoming outgoing incoming outgoing keeping_up documents channel _ channel sender _ receiver
            desk_pipes desk_pipes).
  - repeat constructor; simpl; try done; set_solver.
  - by split; simpl; unfold MAX_BYTES.
  - done.
  - exact sender_run.
  - done.
  - done.
  - exact desk_prompt.
  - done.
  - vm_compute. lia.
  - done.
Defined.

Definition many : nat := Z.to_nat (600 * NANOSECONDS + 1).
Lemma channel_bounds_witness : ∃ c w,
  init 0 1 (Finite 600) 16 sender = (Ret c, w) ∧
  Z.of_nat (length (d_out (perform_all many [Send []; Receive true] (c, w)).2)) ≤ MAX_BYTES + 64.
Proof.
  do 2 eexists. split; [reflexivity|].
  destruct (channel_bounds many incoming outgoing d_clock 0 1 (Finite 600) 16 sender _ _ [Send []; Receive true]
    desk_pipes desk_ticking ltac:(unfold many, NANOSECONDS; lia) eq_refl) as (_ & _ & _ & (out & Hout & Hlen) & _).
  exact (Z.le_trans _ _ _ (Z.eq_le_incl _ _ (f_equal (λ s, Z.of_nat (length s)) Hout)) Hlen).
Defined.
End Desk.
